(* ===== verification/_CoqProject ===== *)
-Q . S2P
Prelude.v
PolicyFile.v
Ebitmap.v
EbitmapIO.v
Hashtab.v
Symtab.v
Avtab.v
AvtabIO.v
Context.v
Sidtab.v
Policydb.v
Conditional.v
CondList.v
Mls.v
MlsText.v
Constraint.v
Services.v
ContextText.v
SidQueries.v
ExpandAvtab.v
Assertion.v
Hierarchy.v
ExpandSets.v
ExpandRules.v
Readers.v
ContextIO.v
RulesIO.v
SymbolsIO.v
OcontextIO.v
CondIO.v
Tables.v
Scopes.v
ModuleIO.v
Index.v
PolicydbIO.v
WholePolicy.v
LoadPolicy.v
ExpandSymbols.v
