(* ===== verification/Prelude.v ===== *)
(** * A verification of libsepol, the SELinux policy library of bb-bot

    bb-bot builds busybox with SELinux support for Android; the C code it brings
    along is libsepol 2.2 (and libselinux, which talks to the kernel).  libsepol
    holds a security policy in memory and answers from it: may this process do
    that to this object, which label does a new object get, is this context
    valid.  This development models the core of it, the directory
    src/libs/libsepol-2.2/src and its headers include/sepol/policydb, and proves
    what its parts promise to each other.

    ** The parts and their files

    - [Prelude] (this file): machine integers, the heap, computations that may be
      undefined and their rules, loops, lemmas on bits and lists.
    - [PolicyFile]: the streams of services.c ([next_entry], [put_entry]) over
      memory, files and length counts.
    - [Ebitmap], [EbitmapIO]: ebitmap.c and the macros of ebitmap.h; a bitmap is
      its list of 64-bit nodes, and stands for a finite set of positions;
      [ebitmap_read] and [ebitmap_write] (write.c).
    - [Hashtab], [Symtab]: hashtab.c over a class of key operations ([HashOps],
      whose laws are [HashLaws]); symtab.c implements the class for names.
    - [Avtab], [AvtabIO]: avtab.c, the table of access vector and type rules,
      with the reader of all its formats and the writer of the present one.
    - [Context]: mls_types.h, context.h and the semantic levels of mls.c.
    - [Sidtab]: sidtab.c, security identifiers and their contexts.
    - [Policydb]: the data of policydb.h, constraint.h and conditional.h that
      the other files use.
    - [Conditional], [CondList]: conditional.c, first the expressions (evaluation
      and normal form), then the switching of rules and decisions.
    - [Mls], [MlsText]: mls.c, the text of MLS fields in both directions, their
      validity, ranges of users and of new objects; the round trip of the text.
    - [Constraint]: the evaluation of constraints in services.c, with the text
      that explains it.
    - [Services], [ContextText], [SidQueries], [LoadPolicy]: the security server
      of services.c: access decisions, validation of transitions, labels of new
      objects; the texts and records of contexts (context.c, context_record.c);
      the contexts of users and the labels of ports, interfaces, nodes and files;
      the loading of a policy from the bytes of its file, with the conversion of
      all identifiers, which comes last since it reads a whole policy.
    - [Assertion], [Hierarchy]: assertion.c (neverallow rules) and hierarchy.c
      (bounds of types, roles and users).
    - [ExpandAvtab], [ExpandSets], [ExpandRules]: expand.c: tables without
      attributes, sets of types and roles and levels, rules of modules.
    - [ExpandSymbols]: expand.c: the callbacks that copy the symbols of a base
      into the output policy, and the first stage of [expand_module], which runs
      those of types and attributes.
    - [Readers], [ContextIO], [RulesIO], [SymbolsIO], [OcontextIO], [CondIO]:
      the files of policies (policydb.c, conditional.c, write.c), in [Readers]
      what reading and writing are and their rules, then a pair of readers and
      writers for each part of a policy: contexts and sets, constraints and role
      rules, symbols, object contexts with file systems and ranges, conditionals
      with the table formats before version 20.
    - [Tables], [Scopes], [ModuleIO]: the symbol tables a database is made with
      ([policydb_init], [symtab_insert]), the scopes and declarations of modules
      (avrule_block.c, policydb.c), and the files of both.
    - [Index]: the arrays by value that a database is searched with after it has
      been read ([policydb_index_classes] and its like in policydb.c,
      [cond_index_bool]), and the caches of roles and users.
    - [PolicydbIO], [WholePolicy]: [policydb_read] and [policydb_write], the
      header of a file with the formats it may announce, and the composition of
      all of the above: a whole kernel policy is read back as it was written.

    A bitmap is used by every part above it; the policy holds symbol tables,
    rule tables and conditionals; the security server reads the policy and the
    table of identifiers, and [sepol_compute_sid] writes the latter.  In the C
    code the last two are static variables; here they are arguments.

    ** How the code is modelled

    A function is a Rocq function of the same name; its parts (a loop body, a
    branch) are named after what they do.  An integer is a [Z], and the wrap of
    a store is written out ([u16], [u32], [i32], [szt] for size_t, whose width
    and the sign of char are those of the [Target]).  A computation [CM A] runs
    on a heap: an oracle tells for each [malloc] whether it fails, so statements
    hold for every pattern of failures, and [mem_ok] is the case where none
    does.  The result [None] is undefined behaviour: a null or wild pointer, an
    access outside an array, a read of memory that was not written, an oversized
    shift.  [wp m Q h] says that [m] runs on [h] without undefined behaviour,
    terminates, and ends in [Q]; a theorem of this form is a safety and
    termination statement too.  Error codes are the values the code returns.
    Chains and lists of nodes are lists; the node a conditional points to is
    named by its address ([av_addr]).  The messages of ERR are left out.

    Loops are structural where a list or a range of numbers bounds them.  Fuel
    is used where the C loop has another measure: [alloc_shift] has 32 rounds
    for the shifts of a 32-bit word; [ebitmap_for_each_bit] the high bit of the
    bitmap, which grows at every round; [parse_cats] one more than the length of
    the text, of which every round uses a character; the text buffers of
    [Constraint] one more than the length of what they must hold, since every
    round adds 1024 or 2048 bytes; [star_loop] of [ExpandSets] 2^32 rounds, after
    which the counter of roles has wrapped below the index; [invert_loop] there
    the high bit of the bitmap; [avtab_iterate] the length of a chain of rules.
    Exhausted fuel is undefined, and the theorems show it does not happen.

    ** What the theorems show

    - Containers: every operation of bitmaps refines one of finite sets, hash
      tables and tables of identifiers refine finite maps, the searches of
      sorted rule chains agree with a search of all rules; each operation keeps
      the structure well-formed and changes nothing when memory runs out.
    - Files: reading back what was written gives the same bitmap or rules;
      reading any bytes is safe and accepts only well-formed values, but for the
      high bit of a bitmap, which is not checked.
    - Conditionals: evaluation of reverse polish notation, the normal form and
      its table, switching of rules, decisions from the rules switched on.
    - MLS: dominance is a partial order; validity ([mls_valid], of which the code
      accepts a little more, [mls_accepted]), ranges of users, of new objects and
      of converted contexts; the length computed for a text is that of the text,
      and the text read back gives the range, if no run of categories crosses a
      gap between the nodes of a bitmap.
    - The security server: a constraint evaluates to its meaning, and the reason
      is the text of that meaning: [means] says both of an expression with
      predicates of its own, not with the tables that the evaluation uses; a
      decision is what type enforcement gives, constraints grant and role rules
      permit ([context_struct_compute_av_correct]); the identifier of a new
      object is that of the context the rules say, when it is valid: [labelled]
      states the user, role, type and range one by one; the text of a context
      without runs over a gap is read back as it; loading a policy keeps every
      identifier whose context is valid there; queries find the first entry that
      covers a port, a node, a path.
    - Checks of policies: [check_assertions] and, if the conditional rules are
      allow rules, [hierarchy_check_constraints] accept exactly the policies that
      obey the rules, and the rules obeyed mean that no access beyond them is
      granted.
    - Expansion: a table without attributes gives the same permissions, sets of
      types mean what they say, rules of a module are all in the table; the types
      and attributes that are enabled get new values, without gaps, and the map
      that the later stages use translates the old ones.
    - Readers and writers: what is written is read back, for every part of a
      policy, with what the format holds of it; any bytes of a file in memory are
      read without undefined behaviour, but for the levels of the users of old
      modules and what is named below among the errors, and what is accepted is
      well-formed: constraints can be evaluated, file systems are in order, of two conflicting rules of
      conditionals one at most is on.
    - Modules and indexes: [policydb_init] makes a well-formed empty database
      with [object_r] in it; [symtab_insert] keeps scopes and symbols in step;
      the blocks of a module are read back; after indexing every value of a
      symbol table leads back to its name and datum, and a value out of its range
      is refused.
    - Whole policies: a kernel policy the writer can hold is read back with
      [policydb_read] from the bytes of [policydb_write], indexed.
    - Errors of the code, each with a concrete input or a general statement: an
      access decision ignores constraints when memory is short; a policy that
      cannot be loaded destroys the one in use; transitions are validated with
      class 0, whose name is read at index -1; the text of categories that lie
      in separate nodes names others; [sepol_mls_contains] destroys a context it
      has not initialised; conditions are taken for equal though their booleans
      are in another order; the counter of identifiers wraps; [hashtab_replace]
      does not count; a star or complement among roles does not mean all or the
      other roles; a conditional on boolean 0 is accepted; errors of [avrule_write]
      are ignored; a declaration counts role attributes it does not write;
      [policydb_read] does not check the types of an attribute and then writes
      outside an array.  PROJECT.json has the full list.

    ** What is not modelled

    link.c, the package format of module.c and the rest of [expand_module] in
    expand.c: the order of its stages after the types, and the copies of
    conditionals, object contexts, named transitions and ranges.  The functions
    that only free memory: the heap records failures of allocation, not what is
    still allocated; double frees that modelling showed are among the findings.
    The records and queries made for libsemanage, handles and messages have no
    logic of this kind.  libselinux,
    pcre and wolfssl are other libraries, and the scripts and installers are
    not C. *)

From stdpp Require Export base tactics list list_numbers numbers option gmap strings.
From Stdlib Require Export ZArith Lia.
From Stdlib Require Export Strings.Byte Sorting.Sorted.
From stdpp Require Export sorting.
#[export] Set Default Goal Selector "!".
Open Scope Z_scope.
Coercion Z.of_nat : nat >-> Z.

(** ** Machine integers

    Every C integer is a [Z]; the wrap-around of an assignment to an object of
    a [w]-bit unsigned type is written [uN]. *)

Definition wrap (w z : Z) : Z := z mod 2 ^ w.
Definition u8 (z : Z) : Z := wrap 8 z.
Definition u16 (z : Z) : Z := wrap 16 z.
Definition u32 (z : Z) : Z := wrap 32 z.
Definition u64 (z : Z) : Z := wrap 64 z.
(** conversion to a 32-bit two's complement [int] *)
Definition i32 (z : Z) : Z := wrap 32 (z + 2 ^ 31) - 2 ^ 31.
Definition UINT_MAX : Z := 2 ^ 32 - 1.

(** What differs between the targets the tool chain builds for: the width of
    [size_t] (32 on arm, x86 and mips, 64 on arm64, x86_64 and mips64) and the
    signedness of a plain [char]. *)
Class Target := {
  size_t_bits : Z;
  char_is_signed : bool;
  size_t_bits_ok : size_t_bits = 32 ∨ size_t_bits = 64
}.
Lemma size_t_ge `{Target} : 32 ≤ size_t_bits.
Proof. destruct size_t_bits_ok; lia. Qed.
Definition szt `{Target} (z : Z) : Z := wrap size_t_bits z.

#[refine] Definition target_arm : Target :=
  {| size_t_bits := 32; char_is_signed := false |}.
Proof. by left. Defined.
#[refine] Definition target_x86_64 : Target :=
  {| size_t_bits := 64; char_is_signed := true |}.
Proof. by right. Defined.

(** C truth values: [b ? 1 : 0] and [x != 0]. *)
Definition cbool (b : bool) : Z := if b then 1 else 0.
Definition truth (z : Z) : bool := negb (z =? 0).

(** ** Error codes *)

Definition EPERM : Z := 1.
Definition ENOENT : Z := 2.
Definition ENOMEM : Z := 12.
Definition EACCES : Z := 13.
Definition EEXIST : Z := 17.
Definition EINVAL : Z := 22.
Definition SEPOL_OK : Z := 0.
Definition SEPOL_ENOMEM : Z := - ENOMEM.
Definition SEPOL_EEXIST : Z := - EEXIST.
Definition SEPOL_ENOENT : Z := - ENOENT.

(** ** The heap

    [malloc] may fail at any call: [h_oracle] says, call by call, whether it
    does (an exhausted oracle always succeeds), so a statement about every heap
    is a statement about every pattern of failures.  A successful call returns
    a fresh address, for the structures whose identity matters. *)

Record heap := Heap { h_oracle : list bool; h_next : Z }.

(** Computations of the C code: they run on a heap and may have undefined
    behaviour ([None]: a null or wild access, an oversized shift, a loop that
    exceeds its fuel). *)
Definition CM (A : Type) : Type := heap → option (A * heap).

#[global] Instance CM_ret : MRet CM := λ A x h, Some (x, h).
#[global] Instance CM_bind : MBind CM := λ A B f m h,
  match m h with Some (x, h') => f x h' | None => None end.

Definition undefined {A} : CM A := λ _, None.
(** a read whose address is checked: [None] is undefined behaviour *)
Definition deref {A} (o : option A) : CM A :=
  match o with Some x => mret x | None => undefined end.

Definition malloc : CM (option Z) := λ h,
  match h_oracle h with
  | false :: o => Some (None, Heap o (h_next h))
  | true :: o => Some (Some (h_next h), Heap o (h_next h + 1))
  | [] => Some (Some (h_next h), Heap [] (h_next h + 1))
  end.

(** no allocation will fail *)
Definition mem_ok (h : heap) : Prop := Forall (λ b, b = true) (h_oracle h).
Definition fresh_heap : heap := Heap [] 1.

(** [wp m Q h]: run on [h], [m] has no undefined behaviour, terminates, and its
    result and final heap satisfy [Q]. *)
Definition wp {A} (m : CM A) (Q : A → heap → Prop) (h : heap) : Prop :=
  match m h with Some (x, h') => Q x h' | None => False end.
(** [mem_step h h' ok]: with enough memory the step succeeds. *)
Definition mem_step (h h' : heap) (ok : Prop) : Prop := mem_ok h → mem_ok h' ∧ ok.

Section wp_rules.
Context {A B : Type}.
Implicit Types (m : CM A) (f : A → CM B).

Lemma wp_ret (x : A) (Q : A → heap → Prop) h : Q x h → wp (mret x) Q h.
Proof. done. Qed.

Lemma wp_bind m f (Q : B → heap → Prop) h :
  wp m (λ x h', wp (f x) Q h') h → wp (m ≫= f) Q h.
Proof. unfold wp, mbind, CM_bind. by destruct (m h) as [[x h']|]. Qed.

Lemma wp_mono m (Q R : A → heap → Prop) h :
  wp m Q h → (∀ x h', Q x h' → R x h') → wp m R h.
Proof. unfold wp. destruct (m h) as [[x h']|]; naive_solver. Qed.

Lemma wp_deref (o : option A) x (Q : A → heap → Prop) h :
  o = Some x → Q x h → wp (deref o) Q h.
Proof. by intros ->. Qed.

Lemma wp_run m (Q : A → heap → Prop) h :
  wp m Q h → ∃ x h', m h = Some (x, h') ∧ Q x h'.
Proof. unfold wp. destruct (m h) as [[x h']|]; naive_solver. Qed.
End wp_rules.

Lemma wp_malloc (Q : option Z → heap → Prop) h :
  (∀ a h', mem_step h h' True → Q (Some a) h') →
  (∀ h', mem_step h h' False → Q None h') →
  wp malloc Q h.
Proof.
  intros HS HN. unfold wp, malloc, mem_step, mem_ok in *.
  destruct (h_oracle h) as [|[] o]; simpl in *.
  - apply HS. done.
  - apply HS. intros Hf. by apply Forall_cons in Hf as [_ ?].
  - apply HN. intros Hf. by apply Forall_cons in Hf as [? _].
Qed.

(** the same with the address *)
Lemma wp_malloc_addr (Q : option Z → heap → Prop) h :
  (∀ h', mem_step h h' True → h_next h' = h_next h + 1 → Q (Some (h_next h)) h') →
  (∀ h', mem_step h h' False → h_next h' = h_next h → Q None h') →
  wp malloc Q h.
Proof.
  intros HS HN. unfold wp, malloc, mem_step, mem_ok in *.
  destruct (h_oracle h) as [|[] o]; simpl in *.
  - by apply HS.
  - apply HS; [|done]. intros Hf. by apply Forall_cons in Hf as [_ ?].
  - apply HN; [|done]. intros Hf. by apply Forall_cons in Hf as [? _].
Qed.

(** with memory an allocation succeeds *)
Lemma wp_malloc_ok (Q : option Z → heap → Prop) h :
  mem_ok h → (∀ a h', mem_ok h' → Q (Some a) h') → wp malloc Q h.
Proof. intros Ho HQ. apply wp_malloc; intros; [apply HQ|]; by edestruct H. Qed.

Lemma mem_step_trans h1 h2 h3 (P Q : Prop) :
  mem_step h1 h2 P → mem_step h2 h3 Q → mem_step h1 h3 Q.
Proof. unfold mem_step. intuition. Qed.
Lemma mem_step_refl h (P : Prop) : P → mem_step h h P.
Proof. by unfold mem_step. Qed.
Lemma mem_step_mono h1 h2 (P Q : Prop) : (P → Q) → mem_step h1 h2 P → mem_step h1 h2 Q.
Proof. unfold mem_step. intuition. Qed.

(** *** Addresses only grow *)

Class Monotone {A} (m : CM A) : Prop := monotone h x h' : m h = Some (x, h') → h_next h ≤ h_next h'.
#[export] Instance monotone_ret {A} (x : A) : Monotone (mret x).
Proof. intros h y h' [= _ ->]. lia. Qed.
#[export] Instance monotone_undefined {A} : Monotone (undefined (A := A)).
Proof. by intros h y h'. Qed.
#[export] Instance monotone_deref {A} (o : option A) : Monotone (deref o).
Proof. destruct o; apply _. Qed.
#[export] Instance monotone_malloc : Monotone malloc.
Proof. intros h y h'. unfold malloc. repeat case_match; intros [= _ <-]; cbn; lia. Qed.
#[export] Instance monotone_bind {A B} (m : CM A) (f : A → CM B) :
  Monotone m → (∀ x, Monotone (f x)) → Monotone (m ≫= f).
Proof.
  intros Hm Hf h y h2. unfold mbind, CM_bind. destruct (m h) as [[x h1]|] eqn:E; [|done].
  intros E2. etrans; [by eapply Hm|by eapply Hf].
Qed.
Lemma wp_monotone {A} (m : CM A) (Q : A → heap → Prop) h :
  Monotone m → wp m Q h → wp m (λ x h', Q x h' ∧ h_next h ≤ h_next h') h.
Proof. intros Hm. unfold wp. destruct (m h) as [[x h']|] eqn:E; [|done]. intros ?. split; [done|by eapply Hm]. Qed.
#[export] Hint Extern 2 (Monotone (match ?x with _ => _ end)) => destruct x : typeclass_instances.
(** goes through the cases of a definition *)
Ltac monotone :=
  repeat first [ apply _ | progress intros | apply monotone_bind
               | match goal with |- Monotone (match ?x with _ => _ end) => destruct x end ].

Create HintDb sepol.
Create Rewrite HintDb sepol.
#[export] Hint Resolve mem_step_refl mem_step_trans : sepol.

Ltac wp_bind := apply wp_bind.
Ltac wp_malloc a h' H := apply wp_bind, wp_malloc; [intros a h' H | intros h' H].

(** ** Bits of machine words *)

Section bits.
Implicit Types (a b i j k w : Z).

Lemma testbit_high w a j : 0 ≤ a < 2 ^ w → w ≤ j → Z.testbit a j = false.
Proof.
  intros Ha Hj. destruct (decide (a = 0)) as [->|]; [apply Z.bits_0|].
  apply Z.bits_above_log2; [lia|]. apply Z.lt_le_trans with w; [|done].
  apply Z.log2_lt_pow2; lia.
Qed.

Lemma range_of_bits w a :
  0 ≤ w → 0 ≤ a → (∀ j, w ≤ j → Z.testbit a j = false) → a < 2 ^ w.
Proof.
  intros Hw Ha Hb. destruct (decide (a < 2 ^ w)) as [|Hge]; [done|].
  assert (w ≤ Z.log2 a) as Hl by (apply Z.log2_le_pow2; lia).
  specialize (Hb _ Hl). rewrite Z.bit_log2 in Hb; [done|lia].
Qed.

Lemma testbit_wrap w a j :
  0 ≤ w → 0 ≤ j → Z.testbit (wrap w a) j = (j <? w) && Z.testbit a j.
Proof.
  intros. unfold wrap. destruct (Z.ltb_spec j w); simpl.
  - by apply Z.mod_pow2_bits_low.
  - by apply Z.mod_pow2_bits_high.
Qed.

Lemma testbit_one_shift k j : 0 ≤ k → Z.testbit (Z.shiftl 1 k) j = (j =? k).
Proof.
  intros. rewrite Z.shiftl_1_l, Z.pow2_bits_eqb by done. apply Z.eqb_sym.
Qed.

Lemma wrap_id w a : 0 ≤ a < 2 ^ w → wrap w a = a.
Proof. apply Z.mod_small. Qed.
Lemma wrap_range w a : 0 ≤ w → 0 ≤ wrap w a < 2 ^ w.
Proof. intros. apply Z.mod_pos_bound. by apply Z.pow_pos_nonneg. Qed.

Lemma lor_range w a b : 0 ≤ w → 0 ≤ a < 2 ^ w → 0 ≤ b < 2 ^ w → 0 ≤ Z.lor a b < 2 ^ w.
Proof.
  intros. split; [apply Z.lor_nonneg; lia|]. apply range_of_bits; [done|apply Z.lor_nonneg; lia|].
  intros j ?. by rewrite Z.lor_spec, !(testbit_high w) by lia.
Qed.
Lemma land_range w a b : 0 ≤ w → 0 ≤ a < 2 ^ w → 0 ≤ b → 0 ≤ Z.land a b < 2 ^ w.
Proof.
  intros. split; [apply Z.land_nonneg; lia|]. apply range_of_bits; [done|apply Z.land_nonneg; lia|].
  intros j ?. by rewrite Z.land_spec, (testbit_high w) by lia.
Qed.

Lemma nonzero_bit a : 0 < a → ∃ j, 0 ≤ j ∧ Z.testbit a j = true.
Proof.
  intros. exists (Z.log2 a). split; [apply Z.log2_nonneg|by apply Z.bit_log2].
Qed.
Lemma positive_of_bit a j : 0 ≤ a → Z.testbit a j = true → 0 < a.
Proof. intros ? Hb. destruct (decide (a = 0)) as [->|]; [|lia]. by rewrite Z.bits_0 in Hb. Qed.

(** [a & (1 << k)] is non-zero exactly when bit [k] of [a] is set *)
Lemma truth_land_bit a k :
  0 ≤ k → truth (Z.land a (Z.shiftl 1 k)) = Z.testbit a k.
Proof.
  intros Hk. assert (Z.land a (Z.shiftl 1 k) = if Z.testbit a k then Z.shiftl 1 k else 0) as ->.
  { apply Z.bits_inj'. intros j Hj. rewrite Z.land_spec, testbit_one_shift by done.
    destruct (Z.eqb_spec j k) as [->|Hne], (Z.testbit a k) eqn:E; simpl;
      rewrite ?andb_true_r, ?andb_false_r, ?testbit_one_shift, ?Z.bits_0 by done; try done.
    - by rewrite Z.eqb_refl.
    - by apply Z.eqb_neq in Hne as ->. }
  unfold truth. destruct (Z.testbit a k); [|done].
  rewrite Z.shiftl_1_l. pose proof (Z.pow_pos_nonneg 2 k). by destruct (Z.eqb_spec (2 ^ k) 0); [lia|].
Qed.
End bits.

Lemma truth_cbool b : truth (cbool b) = b.
Proof. by destruct b. Qed.
Lemma truth_false z : truth z = false ↔ z = 0.
Proof. unfold truth. rewrite negb_false_iff. apply Z.eqb_eq. Qed.
Lemma truth_true z : truth z = true ↔ z ≠ 0.
Proof. unfold truth. rewrite negb_true_iff. apply Z.eqb_neq. Qed.
#[export] Hint Rewrite truth_cbool : sepol.

(** ** Loops

    [for (i = from; i < to; i++) body] where the body may return from the
    function ([inl]) or go on with a new state ([inr]); and the same over the
    elements of a list. *)

Section loops.
Context {I S R : Type}.

Fixpoint for_range (n : nat) (i : Z) (body : Z → S → CM (R + S)) (s : S) : CM (R + S) :=
  match n with
  | O => mret (inr s)
  | Datatypes.S n' =>
      r ← body i s;
      match r with
      | inl x => mret (inl x)
      | inr s' => for_range n' (i + 1) body s'
      end
  end.
Definition for_loop (from to : Z) (body : Z → S → CM (R + S)) (s : S) : CM (R + S) :=
  for_range (Z.to_nat (to - from)) from body s.

Fixpoint for_list (l : list I) (body : I → S → CM (R + S)) (s : S) : CM (R + S) :=
  match l with
  | [] => mret (inr s)
  | i :: l' =>
      r ← body i s;
      match r with
      | inl x => mret (inl x)
      | inr s' => for_list l' body s'
      end
  end.

(** the invariant [Inv i s] holds before the iteration for [i] *)
Lemma wp_for_loop (Inv : Z → S → heap → Prop) (Q : R + S → heap → Prop) from to body s h :
  Inv from s h →
  (∀ i s h, from ≤ i < to → Inv i s h →
    wp (body i s) (λ r h', match r with inl x => Q (inl x) h' | inr s' => Inv (i + 1) s' h' end) h) →
  (∀ s h, Inv (from `max` to) s h → Q (inr s) h) →
  wp (for_loop from to body s) Q h.
Proof.
  unfold for_loop. intros HI Hb HQ.
  remember (Z.to_nat (to - from)) as n eqn:Hn. revert from s h Hn HI Hb HQ.
  induction n as [|n IH]; intros from s h Hn HI Hb HQ; simpl.
  - apply wp_ret, HQ. by rewrite Z.max_l by lia.
  - apply wp_bind. eapply wp_mono; [apply Hb; [lia|done]|]. intros [x|s'] h' Hr; simpl in *; [done|].
    apply IH; [lia|done| |].
    + intros i s1 h1 Hi. apply Hb. lia.
    + intros s1 h1. rewrite Z.max_r by lia. intros. apply HQ. by rewrite Z.max_r by lia.
Qed.

Lemma wp_for_list (Inv : list I → S → heap → Prop) (Q : R + S → heap → Prop) l body s h :
  Inv l s h →
  (∀ i l' s h, i ∈ l → Inv (i :: l') s h →
    wp (body i s) (λ r h', match r with inl x => Q (inl x) h' | inr s' => Inv l' s' h' end) h) →
  (∀ s h, Inv [] s h → Q (inr s) h) →
  wp (for_list l body s) Q h.
Proof.
  revert s h. induction l as [|i l IH]; intros s h HI Hb HQ; simpl.
  - by apply wp_ret, HQ.
  - apply wp_bind. eapply wp_mono; [apply Hb; [by left|done]|].
    intros [x|s'] h' Hr; simpl in *; [done|].
    apply IH; [done| |done]. intros. apply Hb; [by right|done].
Qed.

(** the same with an invariant on the elements already seen *)
Lemma wp_for_list_prefix (Inv : list I → S → heap → Prop) (Q : R + S → heap → Prop) l body s h :
  Inv [] s h →
  (∀ i l1 l2 s h, l = l1 ++ i :: l2 → Inv l1 s h →
    wp (body i s) (λ r h', match r with inl x => Q (inl x) h' | inr s' => Inv (l1 ++ [i]) s' h' end) h) →
  (∀ s h, Inv l s h → Q (inr s) h) →
  wp (for_list l body s) Q h.
Proof.
  intros HI Hb HQ.
  assert (Hgen : ∀ l2 l1 s h, l = l1 ++ l2 → Inv l1 s h → wp (for_list l2 body s) Q h); [|by apply (Hgen l [])].
  intros l2. induction l2 as [|i l2 IH]; intros l1 s1 h1 Hl H1; simpl.
  - apply wp_ret, HQ. by rewrite Hl, app_nil_r.
  - apply wp_bind. eapply wp_mono; [by eapply Hb|]. intros [x|s2] h2 Hr; simpl in *; [done|].
    apply (IH (l1 ++ [i])); [by rewrite <- app_assoc|done].
Qed.
End loops.

#[export] Instance monotone_for_list {I S R} (l : list I) (body : I → S → CM (R + S)) s :
  (∀ i s, Monotone (body i s)) → Monotone (for_list l body s).
Proof. intros Hb. revert s. induction l as [|i l IH]; intros s; cbn; monotone. Qed.
#[export] Instance monotone_for_loop {S R} from to (body : Z → S → CM (R + S)) s :
  (∀ i s, Monotone (body i s)) → Monotone (for_loop from to body s).
Proof.
  intros Hb. unfold for_loop. generalize (Z.to_nat (to - from)). intros n. revert from s.
  induction n as [|n IH]; intros from s; cbn; monotone.
Qed.

Lemma for_list_filter {I S R} (P : I → bool) (l : list I) (body : I → S → CM (R + S)) s h :
  (∀ i s, P i = false → body i s = mret (inr s)) →
  for_list l body s h = for_list (filter (λ i, P i = true) l) body s h.
Proof.
  intros HP. revert s h. induction l as [|i l IH]; intros s h; simpl; [done|].
  rewrite filter_cons. case_decide as Hi; simpl.
  - unfold mbind, CM_bind. destruct (body i s h) as [[[x|s'] h']|]; [done|apply IH|done].
  - rewrite HP by (by destruct (P i)). unfold mbind, CM_bind, mret, CM_ret. apply IH.
Qed.

#[export] Instance CM_fmap : FMap CM := λ A B f m, x ← m; mret (f x).
#[export] Instance monotone_fmap {A B} (f : A → B) (m : CM A) : Monotone m → Monotone (f <$> m).
Proof. intros ?. apply monotone_bind; apply _. Qed.
Lemma wp_fmap {A B} (f : A → B) (m : CM A) (Q : B → heap → Prop) h :
  wp m (λ x h', Q (f x) h') h → wp (f <$> m) Q h.
Proof. intros Hm. by apply wp_bind. Qed.

(** [a & ~(1 << k)] on 64-bit words *)
Lemma testbit_clear a k j :
  0 ≤ k → 0 ≤ j → Z.testbit (Z.land a (u64 (Z.lnot (Z.shiftl 1 k)))) j
    = Z.testbit a j && (j <? 64) && negb (j =? k).
Proof.
  intros. unfold u64. rewrite Z.land_spec, testbit_wrap, Z.lnot_spec, testbit_one_shift by lia.
  by rewrite andb_assoc.
Qed.
Lemma one_shift_range w k : 0 ≤ k < w → 0 < Z.shiftl 1 k < 2 ^ w.
Proof.
  intros. rewrite Z.shiftl_1_l. split; [apply Z.pow_pos_nonneg; lia|]. apply Z.pow_lt_mono_r; lia.
Qed.
Lemma testbit_set a k j :
  0 ≤ k → Z.testbit (Z.lor a (Z.shiftl 1 k)) j = Z.testbit a j || (j =? k).
Proof. intros. by rewrite Z.lor_spec, testbit_one_shift. Qed.
(** [bit & ~(64 - 1)] *)
Lemma align_down w bit :
  32 ≤ w → 0 ≤ bit < 2 ^ 32 → Z.land bit (wrap w (Z.lnot 63)) = 64 * (bit / 64).
Proof.
  intros Hw Hb. apply Z.bits_inj'. intros j Hj.
  rewrite Z.land_spec, testbit_wrap, Z.lnot_spec by lia.
  change 63 with (Z.ones 6). rewrite Z.testbit_ones_nonneg by lia.
  change (64 * (bit / 64)) with (2 ^ 6 * (bit / 2 ^ 6)).
  rewrite (Z.mul_comm (2 ^ 6)), Z.mul_pow2_bits by lia.
  destruct (Z.ltb_spec j 6).
  - rewrite (Z.testbit_neg_r _ (j - 6)) by lia. simpl. by rewrite !andb_false_r.
  - rewrite <- Z.shiftr_div_pow2, Z.shiftr_spec by lia.
    replace (j - 6 + 6) with j by lia.
    destruct (Z.ltb_spec j w); simpl; [apply andb_true_r|].
    by rewrite (testbit_high 32) by lia.
Qed.

(** solves [mem_step] goals from the steps in the context *)
Ltac mem :=
  solve [ assumption
        | unfold mem_step in *; intros; repeat match goal with
          | H : ?P → _, H' : ?P |- _ => specialize (H H')
          | H : mem_ok ?h → _ |- _ => first [specialize (H ltac:(tauto))]
          | H : _ ∧ _ |- _ => destruct H
          end; split_and?; first [done | lia | naive_solver] ].

(** ** Tables of chains *)

(** one element in the middle of a chain *)
Lemma perm_middle {A} (b cur rest : list A) x : (b ++ x :: cur) ++ rest ≡ₚ x :: (b ++ cur) ++ rest.
Proof. by rewrite <- Permutation_middle. Qed.

(** replacing one chain of a table *)
Lemma concat_insert {A} (l : list (list A)) i c :
  l !! i = Some c →
  ∃ rest, concat l ≡ₚ c ++ rest ∧ ∀ c', concat (<[i := c']> l) ≡ₚ c' ++ rest.
Proof.
  revert i. induction l as [|d l IH]; intros [|i] Hi; simplify_eq/=.
  - exists (concat l). done.
  - destruct (IH i Hi) as (rest&H1&H2). exists (d ++ rest). split.
    + rewrite H1. by rewrite !app_assoc, (Permutation_app_comm d).
    + intros c'. rewrite H2. by rewrite !app_assoc, (Permutation_app_comm d).
Qed.

(** chains whose keys are determined by the position share no key *)
Lemma NoDup_concat {A B} (f : A → B) (g : B → Z) (l : list (list A)) (off : Z) :
  (∀ (i : nat) c, l !! i = Some c → NoDup (f <$> c) ∧ ∀ x, x ∈ c → g (f x) = off + i) →
  NoDup (f <$> concat l).
Proof.
  revert off. induction l as [|c l IH]; intros off Hl; simpl; [constructor|].
  rewrite fmap_app. apply NoDup_app. split_and!.
  - by apply (Hl 0%nat).
  - intros y (x&->&Hx)%list_elem_of_fmap (x'&Heq&Hx')%list_elem_of_fmap.
    destruct (Hl 0%nat c eq_refl) as [_ Hc]. apply Hc in Hx.
    apply list_elem_of_In, in_concat in Hx' as (d&Hd&Hx').
    apply list_elem_of_In, list_elem_of_lookup in Hd as [j Hj].
    destruct (Hl (S j) d Hj) as [_ Hd]. apply list_elem_of_In, Hd in Hx'. rewrite <- Heq in Hx'. lia.
  - apply (IH (off + 1)). intros i d Hi. destruct (Hl (S i) d Hi) as [? Hd]. split; [done|].
    intros x Hx. rewrite Hd by done. lia.
Qed.

Lemma elem_of_concat {A} (l : list (list A)) x : x ∈ concat l ↔ ∃ i c, l !! i = Some c ∧ x ∈ c.
Proof.
  rewrite list_elem_of_In, in_concat. setoid_rewrite <- list_elem_of_In. split.
  - intros (c&Hc&Hx). apply list_elem_of_lookup in Hc as [i Hi]. eauto.
  - intros (i&c&Hi&Hx). exists c. split; [|done]. apply list_elem_of_lookup. eauto.
Qed.

Lemma u32_range z : 0 ≤ u32 z < 2 ^ 32.
Proof. apply (wrap_range 32). lia. Qed.
Lemma u32_sub_u32 a b : u32 (u32 a - b) = u32 (a - b).
Proof. unfold u32, wrap. apply Zminus_mod_idemp_l. Qed.
Lemma u32_add_u32 a b : u32 (u32 a + b) = u32 (a + b).
Proof. unfold u32, wrap. apply Zplus_mod_idemp_l. Qed.
#[export] Hint Rewrite u32_sub_u32 u32_add_u32 : sepol.

(** the elements a boolean test keeps and drops *)
Lemma filter_split_length {A} (P : A → bool) (l : list A) :
  Z.of_nat (length (filter (λ x, P x = true) l)) + length (filter (λ x, P x = false) l) = length l.
Proof.
  induction l as [|x l IH]; [done|]. rewrite !filter_cons. destruct (P x); simpl in *;
    repeat case_decide; simpl in *; try done; lia.
Qed.
Lemma filter_concat {A} (P : A → Prop) `{∀ x, Decision (P x)} (l : list (list A)) :
  concat (filter P <$> l) = filter P (concat l).
Proof. induction l as [|c l IH]; [done|]. rewrite fmap_cons. cbn [concat]. by rewrite filter_app, IH. Qed.

Lemma filter_none {A} (P : A → Prop) `{∀ x, Decision (P x)} (l : list A) :
  filter P l = [] ↔ ∀ x, x ∈ l → ¬ P x.
Proof.
  split.
  - intros Hf x Hx Hp. assert (x ∈ filter P l) as Hin by by apply list_elem_of_filter.
    rewrite Hf in Hin. by apply elem_of_nil in Hin.
  - intros Hn. destruct (filter P l) as [|x l'] eqn:E; [done|].
    assert (x ∈ filter P l) as [Hp Hx]%list_elem_of_filter by (rewrite E; by left). by destruct (Hn x Hx).
Qed.

(** a test that only one chain can pass *)
Lemma filter_concat_single {A} (P : A → Prop) `{∀ x, Decision (P x)} (l : list (list A)) i c :
  l !! i = Some c → (∀ j d x, l !! j = Some d → x ∈ d → P x → j = i) →
  filter P (concat l) = filter P c.
Proof.
  intros Hi Hother. revert i Hi Hother. induction l as [|d l IH]; intros [|i] Hi Hother; simplify_eq/=;
    rewrite filter_app.
  - assert (filter P (concat l) = []) as ->; [|apply app_nil_r].
    apply filter_none. intros x (j&d&Hj&Hx)%elem_of_concat Hp.
    by pose proof (Hother (S j) d x Hj Hx Hp).
  - assert (filter P d = []) as ->.
    { apply filter_none. intros x Hx Hp. by pose proof (Hother 0%nat d x eq_refl Hx Hp). }
    simpl. apply (IH i Hi). intros j d' x Hj Hx Hp. by pose proof (Hother (S j) d' x Hj Hx Hp) as [= ->].
Qed.

Lemma land_le_r a b : 0 ≤ a → 0 ≤ b → Z.land a b ≤ b.
Proof.
  intros Ha Hb. assert (Z.ldiff b a = b - Z.land b a) as Hd.
  { pose proof (Z.add_nocarry_lxor (Z.land b a) (Z.ldiff b a)) as Hx.
    assert (Z.land (Z.land b a) (Z.ldiff b a) = 0) as H0.
    { apply Z.bits_inj'. intros j Hj. rewrite !Z.land_spec, Z.ldiff_spec, Z.bits_0.
      by destruct (Z.testbit b j), (Z.testbit a j). }
    specialize (Hx H0). assert (Z.lxor (Z.land b a) (Z.ldiff b a) = b) as Hb'.
    { apply Z.bits_inj'. intros j Hj. rewrite Z.lxor_spec, Z.land_spec, Z.ldiff_spec.
      by destruct (Z.testbit b j), (Z.testbit a j). }
    lia. }
  rewrite Z.land_comm. assert (0 ≤ Z.ldiff b a) by (apply Z.ldiff_nonneg; lia). lia.
Qed.

