(* ===== verification/PolicyFile.v ===== *)
(** * Binary policy files ([struct policy_file], [next_entry], [put_entry])

    The byte streams the policy is read from and written to, and the
    little-endian integers in them. *)

From S2P Require Import Prelude.

(** ** Little-endian integers *)

Definition byte_of_Z (z : Z) : byte := default x00 (Byte.of_N (Z.to_N (z mod 256))).
Definition Z_of_byte (b : byte) : Z := Z.of_N (Byte.to_N b).

Fixpoint le_bytes (n : nat) (z : Z) : list byte :=
  match n with
  | O => []
  | S n' => byte_of_Z z :: le_bytes n' (z / 256)
  end.
Fixpoint le_val (bs : list byte) : Z :=
  match bs with
  | [] => 0
  | b :: bs' => Z_of_byte b + 256 * le_val bs'
  end.

(** [lew_to_cpu(buf[i])] on a buffer of [w]-byte words, [cpu_to_lew] on a list
    of values; the byte swaps on big-endian hosts make both host-independent *)
Definition le_to_cpu (w : nat) (buf : list byte) (i : nat) : Z :=
  le_val (take w (drop (w * i)%nat buf)).
Definition cpu_to_le (w : nat) (zs : list Z) : list byte := zs ≫= le_bytes w.

Lemma Z_of_byte_range b : 0 ≤ Z_of_byte b < 256.
Proof. unfold Z_of_byte. pose proof (Byte.to_N_bounded b). lia. Qed.
Lemma Z_of_byte_of_Z z : Z_of_byte (byte_of_Z z) = z mod 256.
Proof.
  unfold Z_of_byte, byte_of_Z. pose proof (Z.mod_pos_bound z 256 ltac:(lia)).
  destruct (Byte.of_N (Z.to_N (z mod 256))) as [b|] eqn:E.
  - apply Byte.to_of_N in E. simpl. lia.
  - apply Byte.of_N_None_iff in E. lia.
Qed.

Lemma length_le_bytes n z : length (le_bytes n z) = n.
Proof. revert z. induction n; intros; simpl; auto. Qed.
Lemma le_val_bytes n z : le_val (le_bytes n z) = z mod 256 ^ n.
Proof.
  revert z. induction n as [|n IH]; intros z; simpl le_bytes; simpl le_val.
  - by rewrite Z.mod_1_r.
  - rewrite IH, Z_of_byte_of_Z, Nat2Z.inj_succ, Z.pow_succ_r by lia.
    rewrite Z.rem_mul_r; [done|lia|]. apply Z.pow_pos_nonneg; lia.
Qed.
Lemma le_val_range bs : 0 ≤ le_val bs < 256 ^ length bs.
Proof.
  induction bs as [|b bs IH]; [simpl; lia|].
  cbn [le_val length]. rewrite Nat2Z.inj_succ, Z.pow_succ_r by lia. pose proof (Z_of_byte_range b). lia.
Qed.
Lemma le_to_cpu_range w buf i : 0 ≤ le_to_cpu w buf i < 256 ^ w.
Proof.
  unfold le_to_cpu. pose proof (le_val_range (take w (drop (w * i)%nat buf))) as [? Hlt].
  split; [done|]. eapply Z.lt_le_trans; [done|]. apply Z.pow_le_mono_r; [lia|].
  rewrite length_take. lia.
Qed.
Lemma cpu_to_le_cons w z zs : cpu_to_le w (z :: zs) = le_bytes w z ++ cpu_to_le w zs.
Proof. done. Qed.
Lemma length_cpu_to_le w zs : length (cpu_to_le w zs) = (w * length zs)%nat.
Proof.
  induction zs as [|z zs IH]; [simpl; lia|]. rewrite cpu_to_le_cons, length_app, length_le_bytes, IH.
  simpl. lia.
Qed.
(** reading back a word that was written *)
Lemma le_to_cpu_to_le w zs rest i z :
  zs !! i = Some z → le_to_cpu w (cpu_to_le w zs ++ rest) i = z mod 256 ^ w.
Proof.
  revert i. induction zs as [|z0 zs IH]; intros [|i] Hi; simpl in Hi; simplify_eq; unfold le_to_cpu in *;
    rewrite cpu_to_le_cons, <- app_assoc.
  - rewrite Nat.mul_0_r, drop_0, take_app_length' by (symmetry; apply length_le_bytes).
    apply le_val_bytes.
  - rewrite <- (IH i Hi). do 2 f_equal.
    rewrite drop_app_ge by (rewrite length_le_bytes; lia). f_equal. rewrite length_le_bytes. lia.
Qed.

(** ** Streams *)

Inductive pf_kind := PF_USE_MEMORY | PF_USE_STDIO | PF_LEN.

(** [pf_data]: what is still to be read; [pf_out]: what has been written;
    [pf_len]: the field [len], for a stream the room left on the device. *)
Record policy_file := PolicyFile {
  pf_type : pf_kind; pf_data : list byte; pf_out : list byte; pf_len : Z }.

Definition pf_advance (fp : policy_file) (n : nat) : policy_file :=
  PolicyFile (pf_type fp) (drop n (pf_data fp)) (pf_out fp) (pf_len fp).
Definition pf_append (fp : policy_file) (bs : list byte) (len : Z) : policy_file :=
  PolicyFile (pf_type fp) (pf_data fp) (pf_out fp ++ bs) len.

(** Returns the code, the bytes copied into the buffer and the file.  Copying
    past the end of the memory is undefined; a short [fread], or one of zero
    bytes, does not return 1. *)
Definition next_entry (fp : policy_file) (bytes : Z) : CM (Z * list byte * policy_file) :=
  let n := Z.to_nat bytes in
  match pf_type fp with
  | PF_USE_STDIO =>
      if (bytes =? 0) || (length (pf_data fp) <? bytes) then mret (-1, [], pf_advance fp n)
      else mret (0, take n (pf_data fp), pf_advance fp n)
  | PF_USE_MEMORY =>
      if pf_len fp <? bytes then mret (-1, [], fp)
      else if length (pf_data fp) <? bytes then undefined
      else mret (0, take n (pf_data fp),
                 PolicyFile (pf_type fp) (drop n (pf_data fp)) (pf_out fp) (pf_len fp - bytes))
  | PF_LEN => mret (-1, [], fp)
  end.

(** [put_entry(ptr, size, n, fp)] with [ptr] the bytes; returns the items
    written.  A stream takes as many whole items as fit. *)
Definition put_entry `{Target} (ptr : list byte) (size n : Z) (fp : policy_file) : Z * policy_file :=
  let bytes := szt (size * n) in
  match pf_type fp with
  | PF_USE_STDIO =>
      let items := n `min` (pf_len fp / size) in
      (items, pf_append fp (take (Z.to_nat (items * size)) ptr) (pf_len fp - items * size))
  | PF_USE_MEMORY =>
      if pf_len fp <? bytes then (0, fp)
      else (n, pf_append fp (take (Z.to_nat bytes) ptr) (pf_len fp - bytes))
  | PF_LEN => (n, PolicyFile (pf_type fp) (pf_data fp) (pf_out fp) (szt (pf_len fp + bytes)))
  end.

(** a memory file whose [len] is the size of its data *)
Definition mem_input (bs : list byte) : policy_file := PolicyFile PF_USE_MEMORY bs [] (length bs).
(** a memory file to write [n] bytes to *)
Definition mem_output (out : list byte) (n : Z) : policy_file := PolicyFile PF_USE_MEMORY [] out n.

Lemma next_entry_mem bs n h :
  0 ≤ n →
  next_entry (mem_input bs) n h =
    Some (if length bs <? n then (-1, [], mem_input bs)
          else (0, take (Z.to_nat n) bs, mem_input (drop (Z.to_nat n) bs)), h).
Proof.
  intros Hn. unfold next_entry, mem_input; simpl. destruct (Z.ltb_spec (length bs) n); [done|].
  unfold mret, CM_ret. repeat f_equal. rewrite length_drop. lia.
Qed.

(** reading from memory never runs past its end *)
Lemma mem_input_next bs n h :
  0 ≤ n → ∃ rc buf bs', next_entry (mem_input bs) n h = Some (rc, buf, mem_input bs', h) ∧
                    (rc = 0 ∨ rc = -1) ∧ length bs' ≤ length bs.
Proof.
  intros Hn. rewrite next_entry_mem by done. destruct (_ <? _).
  - exists (-1), [], bs. split_and!; [done|by right|done].
  - eexists 0, _, _. split_and!; [done|by left|]. rewrite length_drop. lia.
Qed.

Lemma next_entry_app n bs rest h :
  n = Z.of_nat (length bs) →
  next_entry (mem_input (bs ++ rest)) n h = Some (0, bs, mem_input rest, h).
Proof.
  intros ->. rewrite next_entry_mem by lia. rewrite length_app.
  rewrite (proj2 (Z.ltb_ge _ _)) by lia. by rewrite Nat2Z.id, take_app_length, drop_app_length.
Qed.

Lemma put_entry_mem `{Target} bs size n out room :
  Z.of_nat (length bs) = size * n → size * n < 2 ^ 32 → size * n ≤ room →
  put_entry bs size n (mem_output out room) = (n, mem_output (out ++ bs) (room - size * n)).
Proof.
  intros Hl Hs Hr. unfold put_entry; simpl. unfold szt.
  rewrite wrap_id by (destruct size_t_bits_ok as [-> | ->]; lia).
  rewrite (proj2 (Z.ltb_ge _ _)) by lia. unfold pf_append, mem_output; simpl.
  by rewrite <- Hl, Nat2Z.id, firstn_all.
Qed.
