(* ===== verification/Ebitmap.v ===== *)
(** * Extensible bitmaps ([ebitmap.c], [ebitmap.h])

    A set of 32-bit values as a sorted linked list of 64-bit words.  The list
    is a Rocq list of nodes: no node is shared between two bitmaps. *)

From S2P Require Import Prelude.

(** ** Data *)

Record ebitmap_node := Node { startbit : Z; map : Z }.
Record ebitmap := Ebitmap { node : list ebitmap_node; highbit : Z }.

#[export] Instance ebitmap_node_eq_dec : EqDecision ebitmap_node.
Proof. solve_decision. Defined.
#[export] Instance ebitmap_eq_dec : EqDecision ebitmap.
Proof. solve_decision. Defined.

Definition MAPSIZE : Z := 64.
Definition MAPBIT : Z := 1.

Definition ebitmap_length (e : ebitmap) : Z := highbit e.
Definition ebitmap_startbit (e : ebitmap) : Z :=
  match node e with n :: _ => startbit n | [] => 0 end.
Definition ebitmap_init : ebitmap := Ebitmap [] 0.
(** frees every node and resets the header *)
Definition ebitmap_destroy (e : ebitmap) : ebitmap := Ebitmap [] 0.

Section operations.
Context `{Target}.

(** [n->startbit + MAPSIZE]: the sum has the type [size_t] of [MAPSIZE] *)
Definition node_end (n : ebitmap_node) : Z := szt (startbit n + MAPSIZE).

Fixpoint get_bit_loop (n : list ebitmap_node) (bit : Z) : Z :=
  match n with
  | [] => 0
  | nd :: next =>
      if startbit nd <=? bit then
        if bit <? node_end nd then
          if truth (Z.land (map nd) (Z.shiftl MAPBIT (bit - startbit nd))) then 1 else 0
        else get_bit_loop next bit
      else 0
  end.

Definition ebitmap_get_bit (e : ebitmap) (bit : Z) : Z :=
  if highbit e <? bit then 0 else get_bit_loop (node e) bit.

(** The end of [ebitmap_set_bit]: no node holds the bit and [n] is what
    follows the insertion point.  Returns the code, the list from there on
    and the new high bit. *)
Definition set_bit_insert (n : list ebitmap_node) (hb bit value sbit hbit : Z)
    : CM (Z * list ebitmap_node * Z) :=
  if negb (truth value) then mret (0, n, hb) else
  a ← malloc;
  match a with
  | None => mret (- ENOMEM, n, hb)
  | Some _ =>
      let new := Node sbit (Z.shiftl MAPBIT (bit - sbit)) in
      mret (0, new :: n, match n with [] => hbit | _ => hb end)
  end.

(** The walk of [ebitmap_set_bit]; [prev] is the node passed last. *)
Fixpoint set_bit_loop (prev : option ebitmap_node) (n : list ebitmap_node)
    (hb bit value sbit hbit : Z) : CM (Z * list ebitmap_node * Z) :=
  match n with
  | nd :: next =>
      if startbit nd <=? bit then
        if bit <? node_end nd then
          let m := Z.shiftl MAPBIT (bit - startbit nd) in
          if truth value then
            mret (0, Node (startbit nd) (Z.lor (map nd) m) :: next, hb)
          else
            let map' := Z.land (map nd) (u64 (Z.lnot m)) in
            if truth map' then mret (0, Node (startbit nd) map' :: next, hb)
            else (* drop this node from the bitmap *)
              mret (0, next,
                match next, prev with
                | [], Some p => u32 (startbit p + MAPSIZE)
                | [], None => 0
                | _ :: _, _ => hb
                end)
        else
          '(rc, next', hb') ← set_bit_loop (Some nd) next hb bit value sbit hbit;
          mret (rc, nd :: next', hb')
      else set_bit_insert n hb bit value sbit hbit
  | [] => set_bit_insert n hb bit value sbit hbit
  end.

Definition ebitmap_set_bit (e : ebitmap) (bit value : Z) : CM (Z * ebitmap) :=
  let sbit := u32 (Z.land bit (szt (Z.lnot (MAPSIZE - 1)))) in
  let hbit := u32 (sbit + MAPSIZE) in
  if hbit =? 0 then mret (- EINVAL, e) else
  '(rc, n, hb) ← set_bit_loop None (node e) (highbit e) bit value sbit hbit;
  mret (rc, Ebitmap n hb).

(** The list built by [ebitmap_or]; [None] when an allocation failed. *)
Fixpoint or_loop (n1 : list ebitmap_node) : list ebitmap_node → CM (option (list ebitmap_node)) :=
  let new nd (k : CM (option (list ebitmap_node))) :=
    a ← malloc;
    match a with
    | None => mret None
    | Some _ => r ← k; mret (cons nd <$> r)
    end in
  fix or_loop_n1 (n2 : list ebitmap_node) : CM (option (list ebitmap_node)) :=
    match n1, n2 with
    | [], [] => mret (Some [])
    | a :: next1, b :: next2 =>
        if startbit a =? startbit b then
          new (Node (startbit a) (Z.lor (map a) (map b))) (or_loop next1 next2)
        else if startbit a <? startbit b then new (Node (startbit a) (map a)) (or_loop next1 n2)
        else new (Node (startbit b) (map b)) (or_loop_n1 next2)
    | a :: next1, [] => new (Node (startbit a) (map a)) (or_loop next1 n2)
    | [], b :: next2 => new (Node (startbit b) (map b)) (or_loop_n1 next2)
    end.

Definition ebitmap_or (e1 e2 : ebitmap) : CM (Z * ebitmap) :=
  r ← or_loop (node e1) (node e2);
  mret (match r with
        | None => (- ENOMEM, ebitmap_destroy ebitmap_init)
        | Some n => (0, Ebitmap n (if highbit e2 <? highbit e1 then highbit e1 else highbit e2))
        end).

(** returns the code and [*dst] *)
Definition ebitmap_union (dst e1 : ebitmap) : CM (Z * ebitmap) :=
  '(rc, tmp) ← ebitmap_or dst e1;
  mret (if truth rc then (-1, dst) else (0, Ebitmap (node tmp) (highbit tmp))).

(** one iteration of the loops that set bits of [dst]: return on an error *)
Definition set_bit_or_return (dst : ebitmap) (i value : Z) : CM ((Z * ebitmap) + ebitmap) :=
  '(rc, dst) ← ebitmap_set_bit dst i value;
  mret (if rc <? 0 then inl (rc, dst) else inr dst).
(** what these functions return when the loop ends *)
Definition loop_result (r : (Z * ebitmap) + ebitmap) : Z * ebitmap :=
  match r with inl ret => ret | inr dst => (0, dst) end.

Definition ebitmap_and (e1 e2 : ebitmap) : CM (Z * ebitmap) :=
  let length := ebitmap_length e1 `min` ebitmap_length e2 in
  loop_result <$> for_loop 0 length (λ i dst,
    if truth (ebitmap_get_bit e1 i) && truth (ebitmap_get_bit e2 i)
    then set_bit_or_return dst i 1 else mret (inr dst)) ebitmap_init.

Definition ebitmap_xor (e1 e2 : ebitmap) : CM (Z * ebitmap) :=
  let length := ebitmap_length e1 `max` ebitmap_length e2 in
  loop_result <$> for_loop 0 length (λ i dst,
    set_bit_or_return dst i (Z.lxor (ebitmap_get_bit e1 i) (ebitmap_get_bit e2 i))) ebitmap_init.

Definition ebitmap_not (e1 : ebitmap) (maxbit : Z) : CM (Z * ebitmap) :=
  loop_result <$> for_loop 0 maxbit (λ i dst,
    set_bit_or_return dst i (cbool (negb (truth (ebitmap_get_bit e1 i))))) ebitmap_init.

Definition ebitmap_andnot (e1 e2 : ebitmap) (maxbit : Z) : CM (Z * ebitmap) :=
  '(rc, e3) ← ebitmap_not e2 maxbit;
  if rc <? 0 then mret (rc, ebitmap_init) else
  '(rc, dst) ← ebitmap_and e1 e3;
  mret (if rc <? 0 then (rc, dst) else (0, dst)).

(** the counting loop has no allocation and no early return *)
Definition ebitmap_cardinality (e1 : ebitmap) : Z :=
  fold_left (λ count i, if truth (ebitmap_get_bit e1 i) then u32 (count + 1) else count)
    (seqZ (ebitmap_startbit e1) (ebitmap_length e1 - ebitmap_startbit e1)) 0.

Fixpoint cmp_loop (n1 n2 : list ebitmap_node) : Z :=
  match n1, n2 with
  | a :: next1, b :: next2 =>
      if (startbit a =? startbit b) && (map a =? map b) then cmp_loop next1 next2 else 0
  | [], [] => 1
  | _, _ => 0
  end.

Definition ebitmap_cmp (e1 e2 : ebitmap) : Z :=
  if negb (highbit e1 =? highbit e2) then 0 else cmp_loop (node e1) (node e2).

Definition ebitmap_hamming_distance (e1 e2 : ebitmap) : CM Z :=
  if truth (ebitmap_cmp e1 e2) then mret 0 else
  '(rc, tmp) ← ebitmap_xor e1 e2;
  mret (if rc <? 0 then -1 else i32 (ebitmap_cardinality tmp)).

(** The list built by [ebitmap_cpy]; [None] when an allocation failed. *)
Fixpoint cpy_loop (n : list ebitmap_node) : CM (option (list ebitmap_node)) :=
  match n with
  | [] => mret (Some [])
  | nd :: next =>
      a ← malloc;
      match a with
      | None => mret None
      | Some _ => r ← cpy_loop next; mret (cons (Node (startbit nd) (map nd)) <$> r)
      end
  end.

Definition ebitmap_cpy (src : ebitmap) : CM (Z * ebitmap) :=
  r ← cpy_loop (node src);
  mret (match r with
        | None => (- ENOMEM, ebitmap_destroy ebitmap_init)
        | Some n => (0, Ebitmap n (highbit src))
        end).

Fixpoint contains_loop (n1 n2 : list ebitmap_node) : Z :=
  match n1, n2 with
  | a :: next1, b :: next2 =>
      if startbit a <=? startbit b then
        if startbit a <? startbit b then contains_loop next1 n2
        else if negb (Z.land (map a) (map b) =? map b) then 0
        else contains_loop next1 next2
      else 0
  | _, _ :: _ => 0
  | _, [] => 1
  end.

Definition ebitmap_contains (e1 e2 : ebitmap) : Z :=
  if highbit e1 <? highbit e2 then 0 else contains_loop (node e1) (node e2).

(** *** Iteration: [ebitmap_for_each_bit]

    The cursor is the rest of the list from the current node on. *)

Definition ebitmap_next (n : list ebitmap_node) (bit : Z) : CM (list ebitmap_node * Z) :=
  match n with
  | [] => undefined
  | nd :: (nd' :: _) as next =>
      if bit =? szt (startbit nd + MAPSIZE - 1) then mret (tail n, startbit nd')
      else mret (n, u32 (bit + 1))
  | [_] => mret (n, u32 (bit + 1))
  end.

(** a shift by 64 or more is undefined *)
Definition ebitmap_node_get_bit (n : list ebitmap_node) (bit : Z) : CM Z :=
  match n with
  | [] => undefined
  | nd :: _ =>
      let k := u32 (bit - startbit nd) in
      if k <? MAPSIZE
      then mret (if truth (Z.land (map nd) (Z.shiftl MAPBIT k)) then 1 else 0)
      else undefined
  end.

(** [ebitmap_for_each_bit(e, n, bit) body] where the body starts by testing
    [ebitmap_node_get_bit(n, bit)] and gets the answer; besides the state,
    the loop leaves the final value of [bit]. *)
Fixpoint for_each_loop {S R} (fuel : nat) (n : list ebitmap_node) (bit length : Z)
    (body : bool → Z → S → CM (R + S)) (s : S) : CM (R + S * Z) :=
  if bit <? length then
    match fuel with
    | O => undefined
    | Datatypes.S fuel' =>
        b ← ebitmap_node_get_bit n bit;
        r ← body (truth b) bit s;
        match r with
        | inl x => mret (inl x)
        | inr s' =>
            '(n', bit') ← ebitmap_next n bit;
            for_each_loop fuel' n' bit' length body s'
        end
    end
  else mret (inr (s, bit)).

Definition ebitmap_for_each_bit {S R} (e : ebitmap)
    (body : bool → Z → S → CM (R + S)) (s : S) : CM (R + S * Z) :=
  for_each_loop (Z.to_nat (ebitmap_length e)) (node e) (ebitmap_startbit e)
    (ebitmap_length e) body s.
End operations.

(** *** Addresses only grow *)

Section monotone.
Context `{Target}.
#[export] Instance set_bit_insert_monotone n hb bit value sbit hbit : Monotone (set_bit_insert n hb bit value sbit hbit).
Proof. unfold set_bit_insert. monotone. Qed.
#[export] Instance ebitmap_set_bit_monotone e bit value : Monotone (ebitmap_set_bit e bit value).
Proof.
  unfold ebitmap_set_bit. assert (∀ n prev hb sbit hbit, Monotone (set_bit_loop prev n hb bit value sbit hbit)).
  { induction n as [|nd n IH]; intros; cbn; monotone. }
  monotone.
Qed.
#[export] Instance ebitmap_cpy_monotone src : Monotone (ebitmap_cpy src).
Proof. unfold ebitmap_cpy. assert (∀ n, Monotone (cpy_loop n)) by (induction n; cbn; monotone). monotone. Qed.
#[export] Instance ebitmap_union_monotone dst e : Monotone (ebitmap_union dst e).
Proof.
  unfold ebitmap_union, ebitmap_or. assert (∀ n1 n2, Monotone (or_loop n1 n2)).
  { induction n1 as [|a n1 IH1]; intros n2; induction n2 as [|b n2 IH2]; cbn; monotone. }
  monotone.
Qed.
#[export] Instance ebitmap_for_each_bit_monotone {S R} e (body : bool → Z → S → CM (R + S)) s :
  (∀ b i s, Monotone (body b i s)) → Monotone (ebitmap_for_each_bit e body s).
Proof.
  intros Hb. unfold ebitmap_for_each_bit. generalize (Z.to_nat (ebitmap_length e)) (ebitmap_startbit e) (node e).
  intros fuel. revert s. induction fuel as [|fuel IH]; intros s bit n; cbn; unfold ebitmap_node_get_bit, ebitmap_next; monotone.
Qed.
End monotone.

(** ** Well-formedness and meaning *)

(** nodes from position [lo] on: word-aligned, increasing, non-empty, and short
    of the last word of the 32-bit range (whose end would overflow) *)
Fixpoint nodes_wf (lo : Z) (ns : list ebitmap_node) : Prop :=
  match ns with
  | [] => True
  | n :: r => lo ≤ startbit n ≤ 2 ^ 32 - 128 ∧ (64 | startbit n) ∧
              0 < map n < 2 ^ 64 ∧ nodes_wf (startbit n + 64) r
  end.

(** the end of the last node, [d] when there is none *)
Definition nodes_end (d : Z) (ns : list ebitmap_node) : Z :=
  match last ns with Some n => startbit n + 64 | None => d end.

Definition ebitmap_wf (e : ebitmap) : Prop :=
  nodes_wf 0 (node e) ∧ highbit e = nodes_end 0 (node e).

Fixpoint nodes_bit (ns : list ebitmap_node) (i : Z) : bool :=
  match ns with
  | [] => false
  | n :: r => if (startbit n <=? i) && (i <? startbit n + 64)
              then Z.testbit (map n) (i - startbit n) else nodes_bit r i
  end.

(** the positions a node covers, and those it sets *)
Definition node_span (n : ebitmap_node) : list Z := seqZ (startbit n) 64.
Definition nodes_span (ns : list ebitmap_node) : list Z := ns ≫= node_span.
Definition ebitmap_bits (e : ebitmap) : list Z :=
  filter (λ i, nodes_bit (node e) i = true) (nodes_span (node e)).
(** the set an extensible bitmap stands for *)
Definition ebitmap_set (e : ebitmap) : gset Z := list_to_set (ebitmap_bits e).

Arguments node_span : simpl never.

Section theory.
Context `{Target}.
Implicit Types (ns : list ebitmap_node) (e : ebitmap) (h : heap).

Lemma node_end_eq n : 0 ≤ startbit n ≤ 2 ^ 32 - 128 → node_end n = startbit n + 64.
Proof.
  intros. unfold node_end, szt. apply wrap_id. unfold MAPSIZE.
  destruct size_t_bits_ok as [-> | ->]; lia.
Qed.

Lemma nodes_wf_weaken lo lo' ns : lo' ≤ lo → nodes_wf lo ns → nodes_wf lo' ns.
Proof. destruct ns; simpl; [done|]. intros ? (?&?&?&?). repeat split; try done; lia. Qed.

Lemma nodes_bit_low lo ns i : nodes_wf lo ns → i < lo → nodes_bit ns i = false.
Proof.
  revert lo. induction ns as [|n ns IH]; intros lo; simpl; [done|].
  intros (?&?&?&Hr) Hi. destruct (Z.leb_spec (startbit n) i); [lia|]. simpl.
  apply (IH (startbit n + 64)); [done|lia].
Qed.

Lemma nodes_end_cons d n ns : nodes_end d (n :: ns) = nodes_end (startbit n + 64) ns.
Proof. unfold nodes_end. rewrite last_cons. by destruct (last ns). Qed.

Lemma nodes_end_ge lo ns : nodes_wf lo ns → lo ≤ nodes_end lo ns.
Proof.
  revert lo. induction ns as [|n ns IH]; intros lo; simpl; [intros _; unfold nodes_end; simpl; lia|].
  intros (?&?&?&Hr). rewrite nodes_end_cons. specialize (IH _ Hr). lia.
Qed.

Lemma nodes_bit_high lo ns i : nodes_wf lo ns → nodes_end lo ns ≤ i → nodes_bit ns i = false.
Proof.
  revert lo. induction ns as [|n ns IH]; intros lo; simpl; [done|].
  intros (?&?&?&Hr). rewrite nodes_end_cons. intros Hi.
  pose proof (nodes_end_ge _ _ Hr). destruct (Z.ltb_spec i (startbit n + 64)); [lia|].
  rewrite andb_false_r. by apply (IH (startbit n + 64)).
Qed.

Lemma get_bit_loop_eq lo ns i :
  0 ≤ lo → nodes_wf lo ns → get_bit_loop ns i = cbool (nodes_bit ns i).
Proof.
  revert lo. induction ns as [|n ns IH]; intros lo Hlo; simpl; [done|].
  intros (?&?&?&Hr). rewrite node_end_eq by lia.
  destruct (Z.leb_spec (startbit n) i); simpl.
  - destruct (Z.ltb_spec i (startbit n + 64)).
    + by rewrite truth_land_bit by lia.
    + apply (IH (startbit n + 64)); [lia|done].
  - by rewrite (nodes_bit_low (startbit n + 64)) by (done || lia).
Qed.

Lemma nodes_end_lo lo ns : nodes_wf lo ns → nodes_end 0 ns = if decide (ns = []) then 0 else nodes_end lo ns.
Proof. destruct ns; case_decide; try done. intros _. by rewrite !nodes_end_cons. Qed.

Lemma ebitmap_get_bit_eq e i : ebitmap_wf e → ebitmap_get_bit e i = cbool (nodes_bit (node e) i).
Proof.
  intros [Hn Hh]. unfold ebitmap_get_bit. rewrite (get_bit_loop_eq 0) by done.
  destruct (Z.ltb_spec (highbit e) i); [|done].
  rewrite (nodes_bit_high 0); [done|done|]. rewrite Hh in *. lia.
Qed.

Lemma nodes_span_cons n ns : nodes_span (n :: ns) = node_span n ++ nodes_span ns.
Proof. done. Qed.

Lemma elem_of_nodes_span lo ns i :
  nodes_wf lo ns → nodes_bit ns i = true → i ∈ nodes_span ns.
Proof.
  revert lo. induction ns as [|n ns IH]; intros lo; [done|].
  intros (?&?&?&Hr). rewrite nodes_span_cons, elem_of_app. simpl. intros Hb.
  destruct (Z.leb_spec (startbit n) i), (Z.ltb_spec i (startbit n + 64)); simpl in *;
    [left; apply elem_of_seqZ; lia|right; by eapply IH..].
Qed.

Lemma elem_of_ebitmap_bits e i : ebitmap_wf e → i ∈ ebitmap_bits e ↔ nodes_bit (node e) i = true.
Proof.
  intros [Hn _]. unfold ebitmap_bits. rewrite list_elem_of_filter.
  split; [by intros []|]. intros; split; [done|]. by eapply elem_of_nodes_span.
Qed.

Lemma elem_of_ebitmap_set e i : ebitmap_wf e → i ∈ ebitmap_set e ↔ nodes_bit (node e) i = true.
Proof. intros. unfold ebitmap_set. rewrite elem_of_list_to_set. by apply elem_of_ebitmap_bits. Qed.

Lemma ebitmap_init_wf : ebitmap_wf ebitmap_init.
Proof. done. Qed.
Lemma ebitmap_init_set : ebitmap_set ebitmap_init = ∅.
Proof. done. Qed.

(** *** [ebitmap_set_bit] *)

Definition prev_end (prev : option ebitmap_node) : Z :=
  match prev with Some p => startbit p + 64 | None => 0 end.

Lemma set_bit_insert_spec ns lo bit value h :
  nodes_wf lo ns → 0 ≤ lo → (64 | lo) → lo ≤ bit < 2 ^ 32 - 64 →
  match ns with n :: _ => bit < startbit n | [] => True end →
  let sbit := 64 * (bit / 64) in
  wp (set_bit_insert ns (nodes_end lo ns) bit value sbit (sbit + 64))
    (λ '(rc, ns', hb') h', mem_step h h' (rc = 0) ∧
       nodes_wf lo ns' ∧ hb' = nodes_end lo ns' ∧
       (rc = 0 ∧ (∀ i, nodes_bit ns' i = if i =? bit then truth value else nodes_bit ns i)
        ∨ rc = - ENOMEM ∧ ns' = ns)) h.
Proof.
  intros Hwf Hlo Hd Hb Hgt sbit. unfold set_bit_insert.
  assert (lo ≤ sbit ≤ bit ∧ bit < sbit + 64) as (?&?).
  { destruct Hd as [c ->]. unfold sbit. split; [split|]; [|pose proof (Z.mul_div_le bit 64); lia|].
    - assert (c ≤ bit / 64) by (apply Z.div_le_lower_bound; lia). lia.
    - pose proof (Z.mod_pos_bound bit 64). pose proof (Z.div_mod bit 64). lia. }
  assert (nodes_bit ns bit = false) as Hout.
  { destruct ns as [|n r]; [done|]. simpl in Hwf. destruct Hwf as (?&?&?&?).
    apply (nodes_bit_low (startbit n)); simpl; [|lia]. repeat split; (done || lia). }
  destruct (truth value) eqn:Ev; simpl.
  - wp_malloc a h' Hm; apply wp_ret; (split; [mem|]).
    + assert (0 < Z.shiftl MAPBIT (bit - sbit) < 2 ^ 64) by (apply one_shift_range; lia).
      split_and!; try done.
      * cbn [nodes_wf startbit map]. split_and!; try lia; try (unfold sbit; apply Z.divide_factor_l).
        destruct ns as [|n r]; [done|]. simpl in Hwf |- *. destruct Hwf as (?&Hdn&?&?).
        split_and!; try done; try lia. destruct Hdn as [c Hc].
        assert (bit / 64 < c) by (apply Z.div_lt_upper_bound; lia). unfold sbit; lia.
      * rewrite nodes_end_cons. destruct ns; [done|by rewrite !nodes_end_cons].
      * left. split; [done|]. intros i. cbn [nodes_bit startbit map].
        rewrite testbit_one_shift by lia.
        destruct (Z.eqb_spec i bit) as [->|Hne].
        -- rewrite Z.eqb_refl. by rewrite !(proj2 (Z.leb_le _ _)), !(proj2 (Z.ltb_lt _ _)) by lia.
        -- destruct (Z.leb_spec sbit i), (Z.ltb_spec i (sbit + 64)); simpl; try done.
           rewrite (proj2 (Z.eqb_neq _ _)) by lia. symmetry.
           destruct ns as [|n r]; [done|]. simpl in Hwf. destruct Hwf as (?&[c Hc]&?&?).
           apply (nodes_bit_low (startbit n)); simpl; [split_and!; try done; try lia; by exists c|].
           assert (bit / 64 < c) by (apply Z.div_lt_upper_bound; lia). unfold sbit in *; lia.
    + split_and!; try done. by right.
  - apply wp_ret. split; [by apply mem_step_refl|]. split_and!; try done. left. split; [done|].
    intros i. destruct (Z.eqb_spec i bit) as [->|]; [by rewrite Hout|done].
Qed.

(** changing one bit of the first node *)
Lemma nodes_bit_change n ns k m' v i :
  0 ≤ k < 64 → (∀ j, 0 ≤ j < 64 → Z.testbit m' j = if j =? k then v else Z.testbit (map n) j) →
  nodes_bit (Node (startbit n) m' :: ns) i = if i =? startbit n + k then v else nodes_bit (n :: ns) i.
Proof.
  intros Hk Hbits. cbn [nodes_bit startbit map].
  destruct (Z.leb_spec (startbit n) i), (Z.ltb_spec i (startbit n + 64)); simpl;
    try (by rewrite (proj2 (Z.eqb_neq i (startbit n + k))) by lia).
  rewrite Hbits by lia. destruct (Z.eqb_spec (i - startbit n) k), (Z.eqb_spec i (startbit n + k)); (done || lia).
Qed.

Lemma set_bit_loop_spec ns prev bit value h :
  let lo := prev_end prev in let sbit := 64 * (bit / 64) in
  nodes_wf lo ns → 0 ≤ lo < 2 ^ 32 → (64 | lo) → lo ≤ bit < 2 ^ 32 - 64 →
  wp (set_bit_loop prev ns (nodes_end lo ns) bit value sbit (sbit + 64))
    (λ '(rc, ns', hb') h', mem_step h h' (rc = 0) ∧
       nodes_wf lo ns' ∧ hb' = nodes_end lo ns' ∧
       (rc = 0 ∧ (∀ i, nodes_bit ns' i = if i =? bit then truth value else nodes_bit ns i)
        ∨ rc = - ENOMEM ∧ ns' = ns)) h.
Proof.
  simpl. revert prev. induction ns as [|n ns IH]; intros prev Hwf Hlo Hd Hb.
  { apply set_bit_insert_spec; done || lia. }
  pose proof Hwf as (Hs&Hdn&Hm&Hr). cbn [set_bit_loop].
  destruct (Z.leb_spec (startbit n) bit) as [Hle|Hgt]; cycle 1.
  { apply set_bit_insert_spec; done || lia. }
  rewrite node_end_eq by lia. destruct (Z.ltb_spec bit (startbit n + 64)) as [Hin|Hout]; cycle 1.
  { (* go on with the next node *)
    apply wp_bind. rewrite nodes_end_cons.
    eapply wp_mono; [apply (IH (Some n)); simpl; try done; try lia|].
    { apply Z.divide_add_r; [done|by exists 1]. }
    intros [[rc ns'] hb'] h' (Hmem&Hwf'&->&Hres). apply wp_ret. split; [done|].
    cbn [nodes_wf prev_end] in *. rewrite nodes_end_cons. split_and!; try done; try lia.
    destruct Hres as [[-> Hbits]|[-> ->]]; [left|by right]. split; [done|]. intros i. simpl.
    destruct (Z.ltb_spec i (startbit n + 64)); [|by rewrite andb_false_r].
    rewrite Hbits, andb_true_r, (proj2 (Z.eqb_neq i bit)) by lia. done. }
  set (k := bit - startbit n). assert (0 ≤ k < 64) by (unfold k; lia).
  pose proof (one_shift_range 64 k ltac:(lia)) as Hk. change MAPBIT with 1.
  assert (Hcase : ∀ m' v, (∀ j, 0 ≤ j < 64 → Z.testbit m' j = if j =? k then v else Z.testbit (map n) j) →
    ∀ i, nodes_bit (Node (startbit n) m' :: ns) i = if i =? bit then v else nodes_bit (n :: ns) i).
  { intros m' v Hbits i. rewrite (nodes_bit_change n ns k m' v i) by done. by replace (startbit n + k) with bit by (unfold k; lia). }
  destruct (truth value) eqn:Ev.
  - (* set *)
    apply wp_ret. split; [by apply mem_step_refl|]. cbn [nodes_wf startbit map].
    pose proof (lor_range 64 (map n) (Z.shiftl 1 k)) as Hlor.
    split_and!; try done; try lia; try (by rewrite !nodes_end_cons).
    + apply (positive_of_bit _ k); [lia|]. rewrite testbit_set by lia. by rewrite Z.eqb_refl, orb_true_r.
    + left. split; [done|]. apply Hcase. intros j Hj. rewrite testbit_set by lia.
      destruct (j =? k); by rewrite ?orb_true_r, ?orb_false_r.
  - set (m' := Z.land (map n) (u64 (Z.lnot (Z.shiftl 1 k)))).
    assert (Hm' : ∀ j, 0 ≤ j < 64 → Z.testbit m' j = if j =? k then false else Z.testbit (map n) j).
    { intros j Hj. unfold m'. rewrite testbit_clear by lia. rewrite (proj2 (Z.ltb_lt _ _)) by lia.
      destruct (j =? k); by rewrite ?andb_true_r, ?andb_false_r. }
    assert (0 ≤ m' < 2 ^ 64) by (apply land_range; try lia; apply (wrap_range 64); lia).
    specialize (Hcase m' false Hm').
    destruct (truth m') eqn:Et; apply wp_ret; (split; [by apply mem_step_refl|]).
    + (* clear, the node stays *)
      apply truth_true in Et. cbn [nodes_wf startbit map].
      split_and!; try done; try lia; try (by rewrite !nodes_end_cons). by left.
    + (* clear, the node is dropped *)
      apply truth_false in Et. split_and!.
      * apply (nodes_wf_weaken (startbit n + 64)); [lia|done].
      * rewrite nodes_end_cons. destruct ns as [|n2 ns]; [|by rewrite !nodes_end_cons].
        unfold nodes_end; simpl. destruct prev as [p|]; [|done].
        simpl in Hlo |- *. unfold MAPSIZE, u32. by rewrite wrap_id by lia.
      * left. split; [done|]. intros i. rewrite <- Hcase. simpl. rewrite Et, Z.bits_0.
        destruct (Z.leb_spec (startbit n) i), (Z.ltb_spec i (startbit n + 64)); simpl; try done.
        apply (nodes_bit_low (startbit n + 64)); [done|lia].
Qed.

(** Setting or clearing a bit, on every branch: success with exactly that bit
    changed, or no memory and nothing changed. *)
Lemma ebitmap_set_bit_wp e bit value h :
  ebitmap_wf e → 0 ≤ bit < 2 ^ 32 - 64 →
  wp (ebitmap_set_bit e bit value) (λ '(rc, e') h', mem_step h h' (rc = 0) ∧ ebitmap_wf e' ∧
    (rc = 0 ∧ (∀ i, nodes_bit (node e') i = if i =? bit then truth value else nodes_bit (node e) i)
     ∨ rc = - ENOMEM ∧ e' = e)) h.
Proof.
  intros [Hn Hh] Hb. unfold ebitmap_set_bit.
  change (szt (Z.lnot (MAPSIZE - 1))) with (wrap size_t_bits (Z.lnot 63)).
  rewrite align_down by (apply size_t_ge || lia).
  pose proof (Z.mul_div_le bit 64). pose proof (Z.div_pos bit 64).
  pose proof (Z.mod_pos_bound bit 64). pose proof (Z.div_mod bit 64).
  unfold u32, MAPSIZE. rewrite !wrap_id by (rewrite ?wrap_id; lia).
  rewrite (proj2 (Z.eqb_neq _ _)) by lia. apply wp_bind. rewrite Hh.
  eapply wp_mono; [apply (set_bit_loop_spec _ None); simpl; try done; try lia; by exists 0|].
  intros [[rc ns'] hb'] h' (?&?&->&Hres). apply wp_ret. split_and!; try done.
  destruct Hres as [?|[-> ->]]; [by left|right]. split; [done|]. destruct e; simpl in *; by subst.
Qed.

(** The last word of the 32-bit range is refused. *)
Lemma ebitmap_set_bit_overflow e bit value h :
  2 ^ 32 - 64 ≤ bit < 2 ^ 32 → ebitmap_set_bit e bit value h = Some ((- EINVAL, e), h).
Proof.
  intros Hb. unfold ebitmap_set_bit.
  change (szt (Z.lnot (MAPSIZE - 1))) with (wrap size_t_bits (Z.lnot 63)).
  rewrite align_down by (apply size_t_ge || lia).
  assert (bit / 64 = 2 ^ 26 - 1) as -> by (symmetry; apply (Z.div_unique _ _ _ (bit - (2 ^ 32 - 64))); lia).
  done.
Qed.

(** *** Sets and equality *)

Lemma ebitmap_set_ext e (X : gset Z) :
  ebitmap_wf e → (∀ i, nodes_bit (node e) i = true ↔ i ∈ X) → ebitmap_set e = X.
Proof. intros Hwf HX. apply set_eq. intros i. by rewrite elem_of_ebitmap_set. Qed.

Lemma ebitmap_set_bits_eq e1 e2 :
  ebitmap_wf e1 → ebitmap_wf e2 → ebitmap_set e1 = ebitmap_set e2 →
  ∀ i, nodes_bit (node e1) i = nodes_bit (node e2) i.
Proof.
  intros Hw1 Hw2 Heq i.
  assert (i ∈ ebitmap_set e1 ↔ i ∈ ebitmap_set e2) as Hi by by rewrite Heq.
  rewrite !elem_of_ebitmap_set in Hi by done. destruct (nodes_bit (node e1) i), (nodes_bit (node e2) i); intuition congruence.
Qed.

Lemma nodes_wf_after lo x ns :
  (64 | x) → match ns with n :: _ => x < startbit n | [] => True end →
  nodes_wf lo ns → nodes_wf (x + 64) ns.
Proof.
  intros [c ->]. destruct ns as [|n ns]; [done|]. simpl.
  intros ? (?&[c' Hc]&?&?). split_and!; try done; try lia; by exists c'.
Qed.

(** every node of a well-formed list sets a bit *)
Lemma node_has_bit lo n ns :
  nodes_wf lo (n :: ns) → ∃ i, startbit n ≤ i < startbit n + 64 ∧ nodes_bit (n :: ns) i = true.
Proof.
  intros (?&?&Hm&?). destruct (nonzero_bit (map n)) as (j&Hj&Hb); [lia|].
  assert (j < 64) by (destruct (Z.ltb_spec j 64); [done|]; by rewrite (testbit_high 64) in Hb by lia).
  exists (startbit n + j). split; [lia|]. simpl.
  rewrite (proj2 (Z.leb_le _ _)), (proj2 (Z.ltb_lt _ _)) by lia. simpl.
  by replace (startbit n + j - startbit n) with j by lia.
Qed.

Lemma nodes_bit_ext lo1 lo2 ns1 ns2 :
  nodes_wf lo1 ns1 → nodes_wf lo2 ns2 → (∀ i, nodes_bit ns1 i = nodes_bit ns2 i) → ns1 = ns2.
Proof.
  revert lo1 lo2 ns2. induction ns1 as [|a ns1 IH]; intros lo1 lo2 [|b ns2] Hw1 Hw2 Hb; [done|..].
  { destruct (node_has_bit _ _ _ Hw2) as (i&_&Hi). by rewrite <- Hb in Hi. }
  { destruct (node_has_bit _ _ _ Hw1) as (i&_&Hi). by rewrite Hb in Hi. }
  assert (Hlt : ∀ lo lo' a b ns1 ns2, nodes_wf lo (a :: ns1) → nodes_wf lo' (b :: ns2) →
    (∀ i, nodes_bit (a :: ns1) i = nodes_bit (b :: ns2) i) → startbit b ≤ startbit a).
  { clear. intros lo lo' a b ns1 ns2 Hw1 Hw2 Hb. destruct (Z.le_gt_cases (startbit b) (startbit a)) as [|Hgt]; [done|].
    destruct (node_has_bit _ _ _ Hw1) as (i&Hi&Ht). rewrite Hb in Ht.
    destruct Hw1 as (?&Hda&?&?), Hw2 as (?&Hdb&?&?).
    rewrite (nodes_bit_low (startbit b)) in Ht; [done|by simpl; split_and!; try done; lia|].
    destruct Hda as [c Hc], Hdb as [d Hd]; lia. }
  assert (startbit a = startbit b) as Hs.
  { apply Z.le_antisymm; eapply Hlt; try done; intros i; symmetry; apply Hb. }
  destruct Hw1 as (?&?&?&Hr1), Hw2 as (?&?&?&Hr2). f_equal.
  - destruct a as [sa ma], b as [sb mb]; simpl in *. subst sb. f_equal.
    apply Z.bits_inj'. intros j Hj. destruct (Z.ltb_spec j 64).
    + specialize (Hb (sa + j)). rewrite !(proj2 (Z.leb_le _ _)), !(proj2 (Z.ltb_lt _ _)) in Hb by lia.
      simpl in Hb. by replace (sa + j - sa) with j in Hb by lia.
    + by rewrite !(testbit_high 64) by lia.
  - apply (IH _ _ _ Hr1 Hr2). intros i. specialize (Hb i). simpl in Hb. rewrite Hs in *.
    destruct (Z.leb_spec (startbit b) i), (Z.ltb_spec i (startbit b + 64)); simpl in Hb; try done;
      rewrite !(nodes_bit_low (startbit b + 64)) by (done || lia); done.
Qed.

(** A well-formed bitmap is determined by its set: the representation is
    canonical. *)
Lemma ebitmap_set_inj e1 e2 :
  ebitmap_wf e1 → ebitmap_wf e2 → ebitmap_set e1 = ebitmap_set e2 → e1 = e2.
Proof.
  intros Hw1 Hw2 Heq. pose proof (ebitmap_set_bits_eq _ _ Hw1 Hw2 Heq) as Hb.
  destruct Hw1 as [Hn1 Hh1], Hw2 as [Hn2 Hh2], e1, e2; simpl in *.
  pose proof (nodes_bit_ext _ _ _ _ Hn1 Hn2 Hb) as ->. by subst.
Qed.

Lemma cmp_loop_eq n1 n2 : cmp_loop n1 n2 = cbool (bool_decide (n1 = n2)).
Proof.
  revert n2. induction n1 as [|a n1 IH]; intros [|b n2]; simpl; try done.
  destruct (Z.eqb_spec (startbit a) (startbit b)), (Z.eqb_spec (map a) (map b)); simpl;
    rewrite ?IH; try (rewrite bool_decide_eq_false_2 by congruence; done).
  destruct a, b; simpl in *; subst. by destruct (decide (n1 = n2)) as [->|];
    rewrite ?bool_decide_eq_true_2, ?bool_decide_eq_false_2 by congruence.
Qed.

Lemma ebitmap_cmp_decide e1 e2 : ebitmap_cmp e1 e2 = cbool (bool_decide (e1 = e2)).
Proof.
  unfold ebitmap_cmp. destruct (Z.eqb_spec (highbit e1) (highbit e2)); simpl.
  - rewrite cmp_loop_eq. f_equal. apply bool_decide_ext. destruct e1, e2; simpl in *. naive_solver.
  - rewrite bool_decide_eq_false_2 by congruence. done.
Qed.

Lemma ebitmap_cmp_set e1 e2 :
  ebitmap_wf e1 → ebitmap_wf e2 →
  ebitmap_cmp e1 e2 = cbool (bool_decide (ebitmap_set e1 = ebitmap_set e2)).
Proof.
  intros. rewrite ebitmap_cmp_decide. f_equal. apply bool_decide_ext.
  split; [by intros ->|by apply ebitmap_set_inj].
Qed.

(** *** [ebitmap_cpy] *)

Lemma cpy_loop_wp n h :
  wp (cpy_loop n) (λ r h', mem_step h h' (r = Some n) ∧ (r = Some n ∨ r = None)) h.
Proof.
  revert h. induction n as [|[s m] n IH]; intros h; simpl.
  - apply wp_ret. split; [mem|by left].
  - wp_malloc a h1 Hm; [|apply wp_ret; split; [mem|by right]].
    apply wp_bind. eapply wp_mono; [apply IH|]. intros r h2 [Hm2 [-> | ->]]; apply wp_ret;
      (split; [mem|]); [by left|by right].
Qed.

Lemma ebitmap_cpy_wp e h :
  wp (ebitmap_cpy e) (λ '(rc, e') h', mem_step h h' (rc = 0) ∧
    (rc = 0 ∧ e' = e ∨ rc = - ENOMEM ∧ e' = ebitmap_init)) h.
Proof.
  unfold ebitmap_cpy. apply wp_bind. eapply wp_mono; [apply cpy_loop_wp|].
  intros r h' [Hm [-> | ->]]; apply wp_ret; (split; [mem|]); [left|by right]. by destruct e.
Qed.

(** *** [ebitmap_or] *)

Lemma or_loop_unfold n1 n2 :
  or_loop n1 n2 =
    let new nd (k : CM (option (list ebitmap_node))) :=
      a ← malloc;
      match a with
      | None => mret None
      | Some _ => r ← k; mret (cons nd <$> r)
      end in
    match n1, n2 with
    | [], [] => mret (Some [])
    | a :: next1, b :: next2 =>
        if startbit a =? startbit b then
          new (Node (startbit a) (Z.lor (map a) (map b))) (or_loop next1 next2)
        else if startbit a <? startbit b then new (Node (startbit a) (map a)) (or_loop next1 n2)
        else new (Node (startbit b) (map b)) (or_loop n1 next2)
    | a :: next1, [] => new (Node (startbit a) (map a)) (or_loop next1 n2)
    | [], b :: next2 => new (Node (startbit b) (map b)) (or_loop n1 next2)
    end.
Proof. by destruct n1, n2. Qed.

(** what the loop has to build from [lo] on *)
Definition or_post (lo : Z) (n1 n2 : list ebitmap_node) (r : option (list ebitmap_node)) : Prop :=
  match r with
  | None => True
  | Some n => nodes_wf lo n ∧ nodes_end lo n = nodes_end lo n1 `max` nodes_end lo n2 ∧
              ∀ i, nodes_bit n i = nodes_bit n1 i || nodes_bit n2 i
  end.

(** allocating one node and going on with the rest [k] *)
Lemma or_step_wp lo nd n1 n2 m1 m2 (k : CM (option (list ebitmap_node))) h :
  (∀ h, wp k (λ r h', mem_step h h' (r ≠ None) ∧ or_post (startbit nd + 64) m1 m2 r) h) →
  lo ≤ startbit nd ≤ 2 ^ 32 - 128 → (64 | startbit nd) → 0 < map nd < 2 ^ 64 →
  nodes_end lo n1 `max` nodes_end lo n2
    = nodes_end (startbit nd + 64) m1 `max` nodes_end (startbit nd + 64) m2 →
  (∀ i, nodes_bit n1 i || nodes_bit n2 i
        = if (startbit nd <=? i) && (i <? startbit nd + 64) then Z.testbit (map nd) (i - startbit nd)
          else nodes_bit m1 i || nodes_bit m2 i) →
  wp (a ← malloc; match a with None => mret None | Some _ => r ← k; mret (cons nd <$> r) end)
    (λ r h', mem_step h h' (r ≠ None) ∧ or_post lo n1 n2 r) h.
Proof.
  intros Hk Hlo Hd Hm He Hb. wp_malloc a h1 Hm1; [|apply wp_ret; split; [mem|done]].
  apply wp_bind. eapply wp_mono; [apply Hk|].
  intros [n|] h' [Hmem Hp]; apply wp_ret; (split; [mem|]); [|done].
  destruct Hp as (Hwf&Hend&Hbits). cbn [or_post option_fmap fmap option_map].
  rewrite nodes_end_cons, Hend, He. cbn [nodes_wf]. split_and!; try done; try lia.
  intros i. rewrite Hb. cbn [nodes_bit]. by rewrite Hbits.
Qed.

Lemma nodes_bit_below_head lo n ns i : nodes_wf lo (n :: ns) → i < startbit n → nodes_bit (n :: ns) i = false.
Proof. intros (?&?&?&?) ?. apply (nodes_bit_low (startbit n)); [by simpl; split_and!; try done; lia|done]. Qed.

Lemma align_lt a b : (64 | a) → (64 | b) → a < b → a + 64 ≤ b.
Proof. intros [c ->] [d ->]. lia. Qed.

Lemma or_loop_wp lo n1 n2 h :
  nodes_wf lo n1 → nodes_wf lo n2 →
  wp (or_loop n1 n2) (λ r h', mem_step h h' (r ≠ None) ∧ or_post lo n1 n2 r) h.
Proof.
  remember (length n1 + length n2)%nat as fuel eqn:Hf. revert lo n1 n2 h Hf.
  induction fuel as [fuel IH] using lt_wf_ind. intros lo n1 n2 h -> Hw1 Hw2.
  rewrite or_loop_unfold. cbv zeta. destruct n1 as [|a n1], n2 as [|b n2].
  - apply wp_ret. split; [mem|]. simpl. split_and!; try done. unfold nodes_end; simpl; lia.
  - pose proof Hw2 as (?&?&?&Hr2). apply or_step_wp with (m1 := []) (m2 := n2); try (done || lia).
    + intros h1. by eapply IH; [|reflexivity|..]; simpl; try lia.
    + pose proof (nodes_end_ge _ _ Hr2). rewrite nodes_end_cons. unfold nodes_end at 1 3; simpl. lia.
  - pose proof Hw1 as (?&?&?&Hr1). apply or_step_wp with (m1 := n1) (m2 := []); try (done || lia).
    + intros h1. by eapply IH; [|reflexivity|..]; simpl; try lia.
    + pose proof (nodes_end_ge _ _ Hr1). rewrite nodes_end_cons. unfold nodes_end at 2 4; simpl. lia.
    + intros i. cbn [nodes_bit]. rewrite !orb_false_r. done.
  - pose proof Hw1 as (?&Hda&?&Hr1). pose proof Hw2 as (?&Hdb&?&Hr2).
    destruct (Z.eqb_spec (startbit a) (startbit b)) as [Heq|Hne].
    + apply or_step_wp with (m1 := n1) (m2 := n2); cbn [startbit map]; try (done || lia).
      * intros h1. rewrite <- Heq in Hr2. by eapply IH; [|reflexivity|..]; simpl; try lia.
      * pose proof (lor_range 64 (map a) (map b)). split; [|lia].
        pose proof (Z.lor_nonneg (map a) (map b)). destruct (nonzero_bit (map a)) as (j&?&Hj); [lia|].
        apply (positive_of_bit _ j); [lia|]. by rewrite Z.lor_spec, Hj.
      * rewrite !nodes_end_cons. by rewrite Heq.
      * intros i. cbn [nodes_bit]. rewrite <- Heq. rewrite Z.lor_spec. by destruct (_ && _).
    + destruct (Z.ltb_spec (startbit a) (startbit b)) as [Hlt|Hge].
      * pose proof (align_lt _ _ Hda Hdb Hlt).
        apply or_step_wp with (m1 := n1) (m2 := b :: n2); cbn [startbit map]; try (done || lia).
        -- intros h1. eapply IH; [|reflexivity|..]; [simpl; lia|done|]. by apply (nodes_wf_after lo).
        -- by rewrite !nodes_end_cons.
        -- intros i. cbn [nodes_bit startbit map]. destruct (Z.leb_spec (startbit a) i), (Z.ltb_spec i (startbit a + 64));
             cbn [andb]; try done. change (Z.testbit (map a) (i - startbit a) || nodes_bit (b :: n2) i = Z.testbit (map a) (i - startbit a)).
           rewrite (nodes_bit_below_head lo) by (done || lia). apply orb_false_r.
      * assert (startbit b < startbit a) as Hlt by lia. pose proof (align_lt _ _ Hdb Hda Hlt).
        apply or_step_wp with (m1 := a :: n1) (m2 := n2); cbn [startbit map]; try (done || lia).
        -- intros h1. eapply IH; [|reflexivity|..]; [simpl; lia| |done]. by apply (nodes_wf_after lo).
        -- by rewrite !nodes_end_cons.
        -- intros i. cbn [nodes_bit startbit map]. destruct (Z.leb_spec (startbit b) i), (Z.ltb_spec i (startbit b + 64));
             cbn [andb]; try done. change (nodes_bit (a :: n1) i || Z.testbit (map b) (i - startbit b) = Z.testbit (map b) (i - startbit b)).
           by rewrite (nodes_bit_below_head lo) by (done || lia).
Qed.

Lemma ebitmap_or_wp e1 e2 h :
  ebitmap_wf e1 → ebitmap_wf e2 →
  wp (ebitmap_or e1 e2) (λ '(rc, e) h', mem_step h h' (rc = 0) ∧ ebitmap_wf e ∧
    (rc = 0 ∧ ebitmap_set e = ebitmap_set e1 ∪ ebitmap_set e2 ∨ rc = - ENOMEM ∧ e = ebitmap_init)) h.
Proof.
  intros Hw1 Hw2. pose proof Hw1 as [Hn1 Hh1]. pose proof Hw2 as [Hn2 Hh2].
  unfold ebitmap_or. apply wp_bind. eapply wp_mono; [by apply (or_loop_wp 0)|].
  intros [n|] h' [Hm Hp]; apply wp_ret; cbn [or_post] in *; [|split_and!; [mem|done|by right]].
  destruct Hp as (Hwf&Hend&Hb). assert (ebitmap_wf (Ebitmap n (if highbit e2 <? highbit e1 then highbit e1 else highbit e2))) as Hw.
  { split; [done|]. cbn [highbit node]. rewrite Hend, Hh1, Hh2. destruct (Z.ltb_spec (nodes_end 0 (node e2)) (nodes_end 0 (node e1))); lia. }
  split_and!; [mem|done|left]. split; [done|]. apply ebitmap_set_ext; [done|]. intros i.
  rewrite elem_of_union, !elem_of_ebitmap_set by done. cbn [node]. by rewrite Hb, orb_true_iff.
Qed.

(** *** [ebitmap_contains] *)

(** inclusion of one node's bits *)
Lemma land_subset a b :
  0 ≤ b < 2 ^ 64 → Z.land a b = b ↔ ∀ j, 0 ≤ j < 64 → Z.testbit b j = true → Z.testbit a j = true.
Proof.
  intros Hb. split.
  - intros He j Hj Ht. rewrite <- He, Z.land_spec in Ht. by apply andb_true_iff in Ht as [].
  - intros Hs. apply Z.bits_inj'. intros j Hj. rewrite Z.land_spec.
    destruct (Z.testbit b j) eqn:E; [|apply andb_false_r]. rewrite Hs; [done| |done].
    destruct (Z.ltb_spec j 64); [lia|]. by rewrite (testbit_high 64) in E by lia.
Qed.

Lemma nodes_bit_cons_high n ns i :
  startbit n + 64 ≤ i → nodes_bit (n :: ns) i = nodes_bit ns i.
Proof. intros. simpl. rewrite (proj2 (Z.ltb_ge _ _)) by lia. by rewrite andb_false_r. Qed.
Lemma nodes_bit_cons_in n ns i :
  startbit n ≤ i < startbit n + 64 → nodes_bit (n :: ns) i = Z.testbit (map n) (i - startbit n).
Proof. intros. simpl. by rewrite (proj2 (Z.leb_le _ _)), (proj2 (Z.ltb_lt _ _)) by lia. Qed.

Lemma nodes_bit_ge lo ns i : nodes_wf lo ns → nodes_bit ns i = true → lo ≤ i.
Proof. intros Hw Hb. destruct (Z.le_gt_cases lo i); [done|]. by rewrite (nodes_bit_low lo) in Hb. Qed.

Lemma contains_loop_spec lo1 lo2 n1 n2 :
  nodes_wf lo1 n1 → nodes_wf lo2 n2 →
  contains_loop n1 n2 = 0 ∨ contains_loop n1 n2 = 1.
Proof.
  revert lo1 lo2 n2. induction n1 as [|a n1 IH]; intros lo1 lo2 [|b n2] Hw1 Hw2; simpl; auto.
  destruct Hw1 as (?&?&?&?). pose proof Hw2 as (?&?&?&?).
  destruct (_ <=? _); [|by left]. destruct (_ <? _); [by eapply IH|].
  destruct (negb _); [by left|by eapply IH].
Qed.

Lemma contains_loop_iff lo1 lo2 n1 n2 :
  nodes_wf lo1 n1 → nodes_wf lo2 n2 →
  contains_loop n1 n2 = 1 ↔ ∀ i, nodes_bit n2 i = true → nodes_bit n1 i = true.
Proof.
  revert lo1 lo2 n2. induction n1 as [|a n1 IH]; intros lo1 lo2 [|b n2] Hw1 Hw2; [by simpl|..].
  { split; [done|]. intros Hs. destruct (node_has_bit _ _ _ Hw2) as (i&_&Hi). by apply Hs in Hi. }
  { by simpl. }
  pose proof Hw1 as (?&Hda&?&Hr1). pose proof Hw2 as (?&Hdb&?&Hr2). cbn [contains_loop].
  destruct (Z.leb_spec (startbit a) (startbit b)) as [Hle|Hgt]; cycle 1.
  { split; [done|]. intros Hs. destruct (node_has_bit _ _ _ Hw2) as (i&Hi&Hb). apply Hs in Hb.
    pose proof (align_lt _ _ Hdb Hda ltac:(lia)). by rewrite (nodes_bit_below_head lo1) in Hb by (done || lia). }
  destruct (Z.ltb_spec (startbit a) (startbit b)) as [Hlt|Hge].
  { pose proof (align_lt _ _ Hda Hdb Hlt). rewrite (IH _ _ (b :: n2) Hr1 Hw2).
    assert (∀ i, nodes_bit (b :: n2) i = true → startbit b ≤ i) as Hgeb.
    { intros i. apply nodes_bit_ge. by simpl; split_and!; try done; lia. }
    split; intros Hs i Hi; specialize (Hgeb i Hi); specialize (Hs i Hi);
      rewrite ?nodes_bit_cons_high in * by lia; done. }
  assert (startbit a = startbit b) as Heq by lia.
  assert (Hhigh : (∀ i, nodes_bit n2 i = true → nodes_bit n1 i = true) ↔
    ∀ i, startbit b + 64 ≤ i → nodes_bit (b :: n2) i = true → nodes_bit (a :: n1) i = true).
  { split; intros Hs i; [intros Hi; rewrite !nodes_bit_cons_high by lia; apply Hs|].
    intros Hb. pose proof (nodes_bit_ge _ _ _ Hr2 Hb). specialize (Hs i).
    rewrite !nodes_bit_cons_high in Hs by lia. by apply Hs. }
  assert (Hlow : Z.land (map a) (map b) = map b ↔
    ∀ i, startbit b ≤ i < startbit b + 64 → nodes_bit (b :: n2) i = true → nodes_bit (a :: n1) i = true).
  { rewrite land_subset by lia. split; intros Hs.
    - intros i Hi. rewrite !nodes_bit_cons_in, Heq by lia. apply Hs. lia.
    - intros j Hj Hb. specialize (Hs (startbit b + j)). rewrite !nodes_bit_cons_in, Heq in Hs by lia.
      replace (startbit b + j - startbit b) with j in Hs by lia. apply Hs; [lia|done]. }
  assert (∀ i, nodes_bit (b :: n2) i = true → startbit b ≤ i) as Hgeb.
  { intros i. apply nodes_bit_ge. by simpl; split_and!; try done; lia. }
  destruct (Z.eqb_spec (Z.land (map a) (map b)) (map b)) as [He|Hne]; simpl.
  - rewrite (IH _ _ _ Hr1 Hr2), Hhigh. split; intros Hs i; [|intros _; apply Hs].
    intros Hb. specialize (Hgeb i Hb). destruct (Z.le_gt_cases (startbit b + 64) i); [by apply Hs|].
    apply Hlow; (done || lia).
  - split; [done|]. intros Hs. exfalso. apply Hne, Hlow. intros i _. apply Hs.
Qed.

Lemma nodes_end_aligned lo ns : (64 | lo) → nodes_wf lo ns → (64 | nodes_end lo ns).
Proof.
  revert lo. induction ns as [|n ns IH]; intros lo Hd; [done|]. intros (?&?&?&?).
  rewrite nodes_end_cons. apply IH; [|done]. apply Z.divide_add_r; [done|by exists 1].
Qed.
Lemma nodes_end_has_bit lo ns :
  nodes_wf lo ns → ns ≠ [] → ∃ i, nodes_end lo ns - 64 ≤ i ∧ nodes_bit ns i = true.
Proof.
  revert lo. induction ns as [|n ns IH]; intros lo Hw Hne; [done|]. rewrite nodes_end_cons.
  destruct ns as [|n2 ns].
  - destruct (node_has_bit _ _ _ Hw) as (i&Hi&Hb). exists i. unfold nodes_end; simpl. split; [lia|done].
  - destruct Hw as (?&?&?&Hr). destruct (IH _ Hr ltac:(done)) as (i&Hi&Hb). exists i. split; [done|].
    rewrite nodes_bit_cons_high; [done|]. by apply (nodes_bit_ge _ _ _ Hr).
Qed.

Lemma ebitmap_contains_set e1 e2 :
  ebitmap_wf e1 → ebitmap_wf e2 →
  ebitmap_contains e1 e2 = cbool (bool_decide (ebitmap_set e2 ⊆ ebitmap_set e1)).
Proof.
  intros Hw1 Hw2. pose proof Hw1 as [Hn1 Hh1]. pose proof Hw2 as [Hn2 Hh2].
  assert (ebitmap_set e2 ⊆ ebitmap_set e1 ↔ ∀ i, nodes_bit (node e2) i = true → nodes_bit (node e1) i = true) as Hs.
  { split; intros Hs i; specialize (Hs i); by rewrite !elem_of_ebitmap_set in *. }
  unfold ebitmap_contains. destruct (Z.ltb_spec (highbit e1) (highbit e2)) as [Hlt|Hge].
  - rewrite bool_decide_eq_false_2; [done|]. rewrite Hs. intros Hsub.
    destruct (nodes_end_has_bit 0 (node e2)) as (i&Hi&Hb); [done|intros E; rewrite E in *;
      pose proof (nodes_end_ge _ _ Hn1); unfold nodes_end in *; simpl in *; lia|].
    apply Hsub in Hb. rewrite (nodes_bit_high 0) in Hb; [done|done|].
    pose proof (align_lt (nodes_end 0 (node e1)) (nodes_end 0 (node e2))
      (nodes_end_aligned _ _ ltac:(by exists 0) Hn1) (nodes_end_aligned _ _ ltac:(by exists 0) Hn2)). lia.
  - pose proof (contains_loop_iff _ _ _ _ Hn1 Hn2) as Hiff. rewrite <- Hs in Hiff.
    destruct (contains_loop_spec _ _ _ _ Hn1 Hn2) as [E|E]; rewrite E in Hiff |- *.
    + rewrite bool_decide_eq_false_2; [done|]. intros Hc. by apply Hiff in Hc.
    + by rewrite bool_decide_eq_true_2 by by apply Hiff.
Qed.

(** *** Bit-by-bit construction: [ebitmap_and], [_xor], [_not], [_andnot] *)

Lemma nodes_end_le lo ns : nodes_wf lo ns → lo ≤ 2 ^ 32 - 64 → nodes_end lo ns ≤ 2 ^ 32 - 64.
Proof.
  revert lo. induction ns as [|n ns IH]; intros lo Hw Hlo; [done|].
  destruct Hw as (?&?&?&Hr). rewrite nodes_end_cons. apply IH; [done|lia].
Qed.
Lemma ebitmap_highbit_range e : ebitmap_wf e → 0 ≤ highbit e ≤ 2 ^ 32 - 64.
Proof.
  intros [Hn ->]. pose proof (nodes_end_ge _ _ Hn). pose proof (nodes_end_le _ _ Hn). lia.
Qed.
Lemma nodes_bit_range e i : ebitmap_wf e → nodes_bit (node e) i = true → 0 ≤ i < highbit e.
Proof.
  intros [Hn ->] Hb. split; [by apply (nodes_bit_ge _ _ _ Hn)|].
  destruct (Z.lt_ge_cases i (nodes_end 0 (node e))); [done|]. by rewrite (nodes_bit_high 0) in Hb.
Qed.

(** A loop that, for each [i], either sets bit [i] to [g i] or, when [g i]
    is false, does nothing, builds exactly the bits of [g]. *)
Lemma build_loop_wp n (g : Z → bool) body h :
  0 ≤ n ≤ 2 ^ 32 - 64 →
  (∀ i dst, (∃ v, truth v = g i ∧ body i dst = set_bit_or_return dst i v)
            ∨ (g i = false ∧ body i dst = mret (inr dst))) →
  wp (loop_result <$> for_loop 0 n body ebitmap_init)
    (λ '(rc, e) h', mem_step h h' (rc = 0) ∧ ebitmap_wf e ∧
      (rc = 0 ∧ (∀ j, nodes_bit (node e) j = bool_decide (0 ≤ j < n) && g j) ∨ rc = - ENOMEM)) h.
Proof.
  intros Hn Hbody. apply wp_fmap. apply (wp_for_loop (λ i dst h', mem_step h h' True ∧ ebitmap_wf dst ∧
    ∀ j, nodes_bit (node dst) j = bool_decide (0 ≤ j < i) && g j)).
  - split_and!; [mem|done|]. intros j. by rewrite bool_decide_eq_false_2 by lia.
  - intros i dst h1 Hi (Hm&Hw&Hb). destruct (Hbody i dst) as [(v&Hv&->)|[Hg ->]].
    + unfold set_bit_or_return. apply wp_bind. eapply wp_mono; [apply ebitmap_set_bit_wp; [done|lia]|].
      intros [rc dst'] h2 (Hm2&Hw2&[[-> Hb2]|[-> ->]]); apply wp_ret; cbn [Z.ltb Z.compare loop_result Z.opp ENOMEM].
      * split_and!; [mem|done|]. intros j. rewrite Hb2, Hb, Hv. destruct (Z.eqb_spec j i) as [->|].
        -- by rewrite bool_decide_eq_true_2 by lia.
        -- f_equal. apply bool_decide_ext. lia.
      * split_and!; [mem|done|by right].
    + apply wp_ret. split_and!; [mem|done|]. intros j. rewrite Hb. destruct (decide (j = i)) as [->|].
      * by rewrite Hg, !andb_false_r.
      * f_equal. apply bool_decide_ext. lia.
  - intros dst h1. rewrite Z.max_r by lia. intros (Hm&Hw&Hb). cbn [loop_result]. split_and!; [mem|done|by left].
Qed.

Lemma truth_get_bit e i : ebitmap_wf e → truth (ebitmap_get_bit e i) = nodes_bit (node e) i.
Proof. intros. by rewrite ebitmap_get_bit_eq, truth_cbool. Qed.

(** the result of these functions: success with the set [X], or no memory *)
Definition builds (h : heap) (X : gset Z) : Z * ebitmap → heap → Prop := λ '(rc, e) h',
  mem_step h h' (rc = 0) ∧ ebitmap_wf e ∧ (rc = 0 ∧ ebitmap_set e = X ∨ rc = - ENOMEM).

Lemma ebitmap_and_wp e1 e2 h :
  ebitmap_wf e1 → ebitmap_wf e2 →
  wp (ebitmap_and e1 e2) (builds h (ebitmap_set e1 ∩ ebitmap_set e2)) h.
Proof.
  intros Hw1 Hw2. pose proof (ebitmap_highbit_range _ Hw1). pose proof (ebitmap_highbit_range _ Hw2).
  eapply wp_mono; [apply (build_loop_wp _ (λ i, nodes_bit (node e1) i && nodes_bit (node e2) i))|].
  - unfold ebitmap_length. lia.
  - intros i dst. rewrite !truth_get_bit by done. destruct (_ && _); [left; by exists 1|by right].
  - intros [rc e] h' (?&?&[[-> Hb]| ->]); (split_and!; [done..|]); [left|by right]. split; [done|].
    apply ebitmap_set_ext; [done|]. intros i.
    rewrite elem_of_intersection, !elem_of_ebitmap_set, Hb, !andb_true_iff, bool_decide_eq_true by done.
    split; [tauto|]. intros [Hi1 Hi2]. pose proof (nodes_bit_range _ _ Hw1 Hi1). pose proof (nodes_bit_range _ _ Hw2 Hi2).
    unfold ebitmap_length. split; [lia|done].
Qed.

Lemma ebitmap_xor_wp e1 e2 h :
  ebitmap_wf e1 → ebitmap_wf e2 →
  wp (ebitmap_xor e1 e2)
    (builds h ((ebitmap_set e1 ∖ ebitmap_set e2) ∪ (ebitmap_set e2 ∖ ebitmap_set e1))) h.
Proof.
  intros Hw1 Hw2. pose proof (ebitmap_highbit_range _ Hw1). pose proof (ebitmap_highbit_range _ Hw2).
  eapply wp_mono; [apply (build_loop_wp _ (λ i, xorb (nodes_bit (node e1) i) (nodes_bit (node e2) i)))|].
  - unfold ebitmap_length. lia.
  - intros i dst. left. eexists. split; [|done]. rewrite !ebitmap_get_bit_eq by done.
    by destruct (nodes_bit (node e1) i), (nodes_bit (node e2) i).
  - intros [rc e] h' (?&?&[[-> Hb]| ->]); (split_and!; [done..|]); [left|by right]. split; [done|].
    apply ebitmap_set_ext; [done|]. intros i.
    rewrite elem_of_union, !elem_of_difference, !elem_of_ebitmap_set, Hb, andb_true_iff, bool_decide_eq_true by done.
    unfold ebitmap_length. pose proof (nodes_bit_range e1 i Hw1). pose proof (nodes_bit_range e2 i Hw2).
    destruct (nodes_bit (node e1) i), (nodes_bit (node e2) i); simpl; (split; [intros [? ?]|intros [[? ?]|[? ?]]]);
      try done; try (split; [|done]); try lia; try (by left); try (by right); congruence.
Qed.

Lemma ebitmap_not_wp e1 maxbit h :
  ebitmap_wf e1 → 0 ≤ maxbit ≤ 2 ^ 32 - 64 →
  wp (ebitmap_not e1 maxbit) (builds h (list_to_set (seqZ 0 maxbit) ∖ ebitmap_set e1)) h.
Proof.
  intros Hw1 Hmax. eapply wp_mono; [apply (build_loop_wp _ (λ i, negb (nodes_bit (node e1) i)))|].
  - lia.
  - intros i dst. left. eexists. split; [|done]. by rewrite truth_get_bit, truth_cbool.
  - intros [rc e] h' (?&?&[[-> Hb]| ->]); (split_and!; [done..|]); [left|by right]. split; [done|].
    apply ebitmap_set_ext; [done|]. intros i.
    rewrite elem_of_difference, elem_of_list_to_set, elem_of_seqZ, elem_of_ebitmap_set, Hb, andb_true_iff, bool_decide_eq_true by done.
    rewrite negb_true_iff. destruct (nodes_bit (node e1) i); split; (intros [? ?]; split; [lia|congruence]).
Qed.

Lemma ebitmap_andnot_wp e1 e2 maxbit h :
  ebitmap_wf e1 → ebitmap_wf e2 → highbit e1 ≤ maxbit ≤ 2 ^ 32 - 64 →
  wp (ebitmap_andnot e1 e2 maxbit) (builds h (ebitmap_set e1 ∖ ebitmap_set e2)) h.
Proof.
  intros Hw1 Hw2 Hmax. pose proof (ebitmap_highbit_range _ Hw1). unfold ebitmap_andnot. apply wp_bind.
  eapply wp_mono; [apply ebitmap_not_wp; [done|lia]|].
  intros [rc e3] h1 (Hm1&Hw3&[[-> Hs3]| ->]); cbn [Z.ltb Z.compare Z.opp ENOMEM].
  - apply wp_bind. eapply wp_mono; [by apply ebitmap_and_wp|].
    intros [rc e] h2 (Hm2&Hw&[[-> Hs]| ->]); apply wp_ret; cbn [Z.ltb Z.compare Z.opp ENOMEM];
      (split_and!; [mem|done|]); [left|by right].
    split; [done|]. rewrite Hs, Hs3. apply set_eq. intros i.
    rewrite elem_of_intersection, !elem_of_difference, elem_of_list_to_set, elem_of_seqZ.
    split; [tauto|]. intros [Hi ?]. split; [done|]. split; [|done].
    apply elem_of_ebitmap_set, nodes_bit_range in Hi; [lia|done..].
  - apply wp_ret. split_and!; [mem|done|by right].
Qed.

(** *** Counting *)

Lemma count_loop_eq (P : Z → bool) l c :
  0 ≤ c → c + length l < 2 ^ 32 →
  fold_left (λ count i, if P i then u32 (count + 1) else count) l c
    = c + length (filter (λ i, P i = true) l).
Proof.
  revert c. induction l as [|i l IH]; intros c Hc Hl; simpl; [lia|]. simpl in Hl.
  rewrite filter_cons. destruct (P i); case_decide; try done.
  - unfold u32. rewrite wrap_id by lia. rewrite IH by lia. simpl. lia.
  - rewrite IH by lia. done.
Qed.

Lemma ebitmap_startbit_range e : ebitmap_wf e → 0 ≤ ebitmap_startbit e ≤ highbit e.
Proof.
  intros [Hn Hh]. unfold ebitmap_startbit. destruct (node e) as [|n ns]; [rewrite Hh; by simpl|].
  destruct Hn as (?&?&?&Hr). rewrite Hh, nodes_end_cons. pose proof (nodes_end_ge _ _ Hr). lia.
Qed.
Lemma nodes_bit_startbit e i : ebitmap_wf e → nodes_bit (node e) i = true → ebitmap_startbit e ≤ i.
Proof.
  intros [Hn Hh] Hb. unfold ebitmap_startbit. destruct (node e) as [|n ns]; [done|].
  destruct (Z.le_gt_cases (startbit n) i); [done|]. by rewrite (nodes_bit_below_head 0) in Hb.
Qed.

Lemma ebitmap_cardinality_size e : ebitmap_wf e → ebitmap_cardinality e = size (ebitmap_set e).
Proof.
  intros Hw. pose proof (ebitmap_startbit_range _ Hw). pose proof (ebitmap_highbit_range _ Hw).
  unfold ebitmap_cardinality, ebitmap_length.
  rewrite (count_loop_eq (λ i, truth (ebitmap_get_bit e i))) by (rewrite ?length_seqZ; lia). simpl.
  rewrite (ebitmap_set_ext e (list_to_set (filter (λ i, truth (ebitmap_get_bit e i) = true)
    (seqZ (ebitmap_startbit e) (highbit e - ebitmap_startbit e))))); [|done|].
  - rewrite size_list_to_set; [done|]. apply NoDup_filter, NoDup_seqZ.
  - intros i. rewrite elem_of_list_to_set, list_elem_of_filter, elem_of_seqZ, truth_get_bit by done.
    split; [|tauto]. intros Hb. pose proof (nodes_bit_range _ _ Hw Hb).
    pose proof (nodes_bit_startbit _ _ Hw Hb). split; [done|lia].
Qed.

(** The Hamming distance counts the symmetric difference. *)
Lemma ebitmap_hamming_distance_wp e1 e2 h :
  ebitmap_wf e1 → ebitmap_wf e2 → highbit e1 ≤ 2 ^ 31 - 1 → highbit e2 ≤ 2 ^ 31 - 1 →
  wp (ebitmap_hamming_distance e1 e2) (λ d h', mem_step h h' (d ≠ -1) ∧
    (d = size ((ebitmap_set e1 ∖ ebitmap_set e2) ∪ (ebitmap_set e2 ∖ ebitmap_set e1)) ∨ d = -1)) h.
Proof.
  intros Hw1 Hw2 Hh1 Hh2. unfold ebitmap_hamming_distance. rewrite ebitmap_cmp_set, truth_cbool by done.
  case_bool_decide as Heq.
  - apply wp_ret. split; [mem|left]. rewrite Heq.
    by replace (_ ∪ _) with (∅ : gset Z) by set_solver.
  - apply wp_bind. eapply wp_mono; [by apply ebitmap_xor_wp|].
    intros [rc e] h' (Hm&Hw&[[-> Hs]| ->]); cbn [Z.ltb Z.compare Z.opp ENOMEM]; apply wp_ret; [|split; [mem|by right]].
    rewrite ebitmap_cardinality_size, Hs by done. set (X := _ ∪ _).
    assert (size X ≤ 2 ^ 31 - 1) as Hle.
    { transitivity (Z.of_nat (size (list_to_set (C := gset Z) (seqZ 0 (2 ^ 31 - 1))))).
      - apply Nat2Z.inj_le, subseteq_size. intros i Hi. apply elem_of_list_to_set, elem_of_seqZ.
        unfold X in Hi. rewrite elem_of_union, !elem_of_difference in Hi.
        destruct Hi as [[Hi _]|[Hi _]]; apply elem_of_ebitmap_set, nodes_bit_range in Hi; (done || lia).
      - rewrite size_list_to_set by apply NoDup_seqZ. rewrite length_seqZ. lia. }
    unfold i32. rewrite wrap_id by lia.
    split; [|left; lia]. intros Ho. destruct (Hm Ho). split; [done|lia].
Qed.

(** *** Iteration *)

Lemma node_get_bit_ok n rest bit :
  0 ≤ startbit n ≤ bit → bit < startbit n + 64 → bit < 2 ^ 32 →
  ebitmap_node_get_bit (n :: rest) bit = mret (cbool (nodes_bit (n :: rest) bit)).
Proof.
  intros ???. unfold ebitmap_node_get_bit, u32. rewrite wrap_id by lia.
  unfold MAPSIZE. rewrite (proj2 (Z.ltb_lt _ _)) by lia.
  by rewrite truth_land_bit, nodes_bit_cons_in by lia.
Qed.

Lemma szt_small z : 0 ≤ z < 2 ^ 32 → szt z = z.
Proof. intros. apply wrap_id. destruct size_t_bits_ok as [-> | ->]; lia. Qed.

(** result of a finished iteration *)
Definition with_bit {S R} (bit : Z) (r : R + S) : R + S * Z :=
  match r with inl x => inl x | inr s => inr (s, bit) end.

Lemma for_each_loop_eq {S R} (g : Z → bool) (body : bool → Z → S → CM (R + S)) (fuel : nat) lo n rest bit s h :
  0 ≤ lo → nodes_wf lo (n :: rest) →
  startbit n ≤ bit < startbit n + 64 → nodes_end lo (n :: rest) - bit ≤ fuel →
  (∀ i, startbit n ≤ i → g i = nodes_bit (n :: rest) i) →
  for_each_loop fuel (n :: rest) bit (nodes_end lo (n :: rest)) body s h =
    (with_bit (nodes_end lo (n :: rest)) <$>
      for_list (seqZ bit (startbit n + 64 - bit) ++ nodes_span rest) (λ i, body (g i) i) s) h.
Proof.
  intros Hlo. revert lo Hlo n rest bit s h.
  induction fuel as [|fuel IH]; intros lo Hlo n rest bit s h Hw Hbit Hfuel Hg.
  { pose proof Hw as (?&?&?&Hr). pose proof (nodes_end_ge _ _ Hr). rewrite nodes_end_cons in *. lia. }
  pose proof Hw as (?&Hd&?&Hr). pose proof (nodes_end_ge _ _ Hr). pose proof (nodes_end_le _ _ Hr).
  rewrite seqZ_cons by lia. cbn [for_each_loop app for_list].
  rewrite (proj2 (Z.ltb_lt _ _)) by (rewrite nodes_end_cons; lia).
  rewrite node_get_bit_ok, <- Hg by lia. unfold fmap, CM_fmap, mbind, CM_bind, mret, CM_ret.
  rewrite truth_cbool. destruct (body (g bit) bit s h) as [[[x|s'] h']|]; [done| |done].
  destruct (decide (bit = startbit n + 63)) as [->|Hne].
  - replace (Z.pred (startbit n + 64 - (startbit n + 63))) with 0 by lia.
    change (seqZ (Z.succ (startbit n + 63)) 0) with (@nil Z). cbn [app].
    destruct rest as [|n2 rest].
    + cbn [ebitmap_next]. unfold mret, CM_ret. rewrite nodes_end_cons in *. unfold nodes_end in *. simpl in *.
      unfold u32. rewrite wrap_id by lia. replace (startbit n + 63 + 1) with (startbit n + 64) by lia.
      destruct fuel; simpl; by rewrite Z.ltb_irrefl.
    + cbn [ebitmap_next tail]. unfold MAPSIZE. rewrite szt_small by lia.
      rewrite (proj2 (Z.eqb_eq _ _)) by lia. unfold mret, CM_ret.
      assert (nodes_end lo (n :: n2 :: rest) = nodes_end (startbit n + 64) (n2 :: rest)) as He by apply nodes_end_cons.
      rewrite He. pose proof Hr as (?&?&?&Hr2). rewrite (IH (startbit n + 64)); [|lia|done|lia|rewrite <- He; lia|].
      * rewrite nodes_span_cons. unfold node_span. by replace (startbit n2 + 64 - startbit n2) with 64 by lia.
      * intros i Hi. rewrite Hg by lia. apply nodes_bit_cons_high. lia.
  - assert (∀ h, ebitmap_next (n :: rest) bit h = Some ((n :: rest, bit + 1), h)) as Hnext.
    { intros h0. unfold ebitmap_next, MAPSIZE, u32. rewrite wrap_id by lia.
      destruct rest; [done|]. rewrite szt_small by lia. by rewrite (proj2 (Z.eqb_neq _ _)) by lia. }
    rewrite Hnext, (IH lo) by (done || lia).
    replace (Z.pred (startbit n + 64 - bit)) with (startbit n + 64 - (bit + 1)) by lia.
    by replace (Z.succ bit) with (bit + 1) by lia.
Qed.

(** On a well-formed bitmap the loop visits, in order, every position of every
    node with the right answer, and leaves the length in the loop variable. *)
Lemma ebitmap_for_each_bit_eq {S R} e (body : bool → Z → S → CM (R + S)) s h :
  ebitmap_wf e →
  ebitmap_for_each_bit e body s h =
    (with_bit (highbit e) <$> for_list (nodes_span (node e)) (λ i, body (nodes_bit (node e) i) i) s) h.
Proof.
  intros [Hn Hh]. unfold ebitmap_for_each_bit, ebitmap_length, ebitmap_startbit. rewrite Hh.
  destruct (node e) as [|n ns] eqn:En; [done|]. pose proof Hn as (?&?&?&Hr).
  pose proof (nodes_end_ge _ _ Hn). rewrite (for_each_loop_eq (nodes_bit (n :: ns)) _ _ 0) by (done || lia).
  rewrite nodes_span_cons. unfold node_span. by replace (startbit n + 64 - startbit n) with 64 by lia.
Qed.

(** a body that ignores clear bits is run for the members only *)
Lemma ebitmap_for_each_member {S R} e (body : bool → Z → S → CM (R + S)) s h :
  ebitmap_wf e → (∀ i s, body false i s = mret (inr s)) →
  ebitmap_for_each_bit e body s h =
    (with_bit (highbit e) <$> for_list (ebitmap_bits e) (body true) s) h.
Proof.
  intros Hw Hskip. rewrite ebitmap_for_each_bit_eq by done. unfold fmap, CM_fmap, mbind, CM_bind.
  rewrite (for_list_filter (nodes_bit (node e))) by (by intros i s' ->).
  unfold ebitmap_bits. generalize (nodes_span (node e)) as l. intros l.
  assert (∀ s h, for_list (filter (λ i, nodes_bit (node e) i = true) l) (λ i, body (nodes_bit (node e) i) i) s h
    = for_list (filter (λ i, nodes_bit (node e) i = true) l) (body true) s h) as Heq; [|by rewrite Heq].
  clear s h. induction l as [|i l IH]; intros s h; [done|]. rewrite filter_cons. case_decide as Hi; [|apply IH].
  simpl. rewrite Hi. unfold mbind, CM_bind. destruct (body true i s h) as [[[x|s'] h']|]; [done|apply IH|done].
Qed.

Lemma ebitmap_bits_NoDup e : ebitmap_wf e → NoDup (ebitmap_bits e).
Proof.
  intros [Hn _]. apply NoDup_filter. revert Hn. generalize 0 as lo. induction (node e) as [|n ns IH]; intros lo Hw.
  { constructor. }
  destruct Hw as (?&?&?&Hr). rewrite nodes_span_cons. apply NoDup_app. split_and!; [apply NoDup_seqZ| |by eapply IH].
  intros i Hi Hin. unfold node_span in Hi. rewrite elem_of_seqZ in Hi.
  assert (startbit n + 64 ≤ i); [|lia]. clear -Hr Hin. revert Hr Hin. generalize (startbit n + 64) as lo.
  induction ns as [|m ns IH]; intros lo Hr Hin; [by apply elem_of_nil in Hin|].
  destruct Hr as (?&?&?&Hr). rewrite nodes_span_cons, elem_of_app in Hin. unfold node_span in Hin.
  rewrite elem_of_seqZ in Hin. destruct Hin as [?|Hin]; [lia|]. specialize (IH _ Hr Hin). lia.
Qed.
End theory.

(** ** A rule for the loops over a bitmap *)

Section for_each_rule.
Context `{Target} {S R : Type}.
Implicit Types (ns : list ebitmap_node) (s : S).

Lemma wp_for_list_app (Q : R + S → heap → Prop) (l1 l2 : list Z) body s h :
  wp (for_list l1 body s) (λ r h', match r with inl x => Q (inl x) h' | inr s' => wp (for_list l2 body s') Q h' end) h →
  wp (for_list (l1 ++ l2) body s) Q h.
Proof.
  revert s h. induction l1 as [|i l1 IH]; intros s h Hw; [done|]. cbn [app for_list] in *.
  apply wp_bind. unfold wp at 1 in Hw. unfold wp at 1. unfold mbind, CM_bind in Hw.
  destruct (body i s h) as [[[x|s'] h']|]; [done| |done]. by apply IH.
Qed.

Lemma wp_for_list_seqZ (Inv : Z → S → heap → Prop) (Q : R + S → heap → Prop) a (k : nat) body s h :
  Inv a s h →
  (∀ i s h, a ≤ i < a + k → Inv i s h →
    wp (body i s) (λ r h', match r with inl x => Q (inl x) h' | inr s' => Inv (i + 1) s' h' end) h) →
  (∀ s h, Inv (a + k) s h → Q (inr s) h) →
  wp (for_list (seqZ a k) body s) Q h.
Proof.
  revert a s h. induction k as [|k IH]; intros a s h HI Hb HQ.
  { apply wp_ret, HQ. by rewrite Z.add_0_r. }
  rewrite seqZ_cons by lia. replace (Z.pred (Datatypes.S k)) with (Z.of_nat k) by lia. cbn [for_list].
  apply wp_bind. eapply wp_mono; [apply Hb; [lia|done]|]. intros [x|s'] h' Hr; [done|].
  replace (Z.succ a) with (a + 1) by lia. apply IH; [done| |].
  - intros i s1 h1 ?. apply Hb. lia.
  - intros s1 h1. replace (a + 1 + k) with (a + Datatypes.S k) by lia. apply HQ.
Qed.

(** neighbours in a list of nodes with a gap between them *)
Definition gap ns n n' : Prop := (∃ l1 l2, ns = l1 ++ n :: n' :: l2) ∧ startbit n + 64 < startbit n'.

Lemma wp_nodes_span (Inv : Z → S → heap → Prop) (Q : R + S → heap → Prop) n ns lo body s h :
  nodes_wf lo (n :: ns) → Inv (startbit n) s h →
  (∀ i s h, startbit n ≤ i < nodes_end lo (n :: ns) → Inv i s h →
    wp (body i s) (λ r h', match r with inl x => Q (inl x) h' | inr s' => Inv (i + 1) s' h' end) h) →
  (∀ m m' s h, gap (n :: ns) m m' → Inv (startbit m + 64) s h → Inv (startbit m') s h) →
  (∀ s h, Inv (nodes_end lo (n :: ns)) s h → Q (inr s) h) →
  wp (for_list (nodes_span (n :: ns)) body s) Q h.
Proof.
  revert lo n s h. induction ns as [|n' ns IH]; intros lo n s h Hw HI Hb Hj HQ;
    rewrite nodes_span_cons; rewrite nodes_end_cons in *; pose proof Hw as (?&?&?&Hr);
    pose proof (nodes_end_ge _ _ Hr) as Hge.
  - unfold nodes_end in *; cbn [last] in *. change (nodes_span []) with (@nil Z). rewrite app_nil_r.
    apply (wp_for_list_seqZ Inv Q (startbit n) 64); [done|intros; apply Hb; [lia|done]|done].
  - apply wp_for_list_app. pose proof Hr as (?&?&?&?).
    apply (wp_for_list_seqZ Inv _ (startbit n) 64); [done|intros; apply Hb; [lia|done]|].
    intros s1 h1 HI1. apply (IH (startbit n + 64)); [done| | | |done].
    + destruct (decide (startbit n' = startbit n + 64)) as [->|Hne]; [done|].
      apply (Hj n n'); [split; [by exists [], ns|lia]|done].
    + intros i s2 h2 Hi. apply Hb. lia.
    + intros m m' s2 h2 [(l1&l2&Hl) ?]. apply Hj. split; [|done]. exists (n :: l1), l2. by rewrite Hl.
Qed.

(** The invariant holds before each position; it must also pass over the
    positions that have no node: those before the first node and the gaps. *)
Lemma wp_ebitmap_for_each_bit (Inv : Z → S → heap → Prop) (Q : R + S * Z → heap → Prop) e body s h :
  ebitmap_wf e → Inv (ebitmap_startbit e) s h →
  (∀ i s h, ebitmap_startbit e ≤ i < highbit e → Inv i s h →
    wp (body (nodes_bit (node e) i) i s)
      (λ r h', match r with inl x => Q (inl x) h' | inr s' => Inv (i + 1) s' h' end) h) →
  (∀ m m' s h, gap (node e) m m' → Inv (startbit m + 64) s h → Inv (startbit m') s h) →
  (∀ s h, Inv (highbit e) s h → Q (inr (s, highbit e)) h) →
  wp (ebitmap_for_each_bit e body s) Q h.
Proof.
  intros Hw HI Hb Hj HQ. unfold wp. rewrite ebitmap_for_each_bit_eq by done.
  assert (wp (for_list (nodes_span (node e)) (λ i, body (nodes_bit (node e) i) i) s)
    (λ r h', Q (with_bit (highbit e) r) h') h) as Hl.
  { pose proof Hw as [Hn Hh]. unfold ebitmap_startbit in *. rewrite Hh in *. destruct (node e) as [|n ns] eqn:En.
    - apply wp_ret, HQ. done.
    - apply (wp_nodes_span Inv _ n ns 0); [done|done| |done|intros; by apply HQ].
      intros i s1 h1 Hi HI1. eapply wp_mono; [by apply Hb|]. by intros [x|s'] h'. }
  revert Hl. unfold wp, fmap, CM_fmap, mbind, CM_bind. by destruct (for_list _ _ _ _) as [[r h']|].
Qed.

(** a node after a gap has a member, so positions before it are below some
    member *)
Lemma gap_member e m m' : ebitmap_wf e → gap (node e) m m' →
  0 ≤ startbit m ∧ ∃ j, startbit m' ≤ j ∧ nodes_bit (node e) j = true.
Proof.
  intros [Hw _] [(l1&l2&Hl) Hlt]. rewrite Hl in *. clear Hl. revert Hw. generalize 0 at 1 2.
  induction l1 as [|n l1 IH]; intros lo Hw.
  - pose proof Hw as (?&?&?&Hr). split; [lia|]. destruct (node_has_bit _ _ _ Hr) as (j&Hj&Hb).
    exists j. split; [lia|]. cbn [app]. rewrite nodes_bit_cons_high by lia. done.
  - cbn [app] in *. pose proof Hw as (?&?&?&Hr). destruct (IH _ Hr) as [Hs (j&Hj&Hb)].
    split; [lia|]. exists j. split; [done|]. rewrite nodes_bit_cons_high; [done|]. by eapply nodes_bit_ge.
Qed.
(** no position of a gap is a member *)
Lemma gap_clear e m m' j : ebitmap_wf e → gap (node e) m m' → startbit m + 64 ≤ j < startbit m' →
  nodes_bit (node e) j = false.
Proof.
  intros [Hw _] [(l1&l2&Hl) _] Hj. rewrite Hl in *. clear Hl. revert Hw. generalize 0 at 1.
  induction l1 as [|n l1 IH]; intros lo Hw; cbn [app] in *; pose proof Hw as (?&?&?&Hr).
  - rewrite nodes_bit_cons_high by lia. by apply (nodes_bit_below_head (startbit m + 64)); [|lia].
  - rewrite nodes_bit_cons_high; [by eapply IH|]. clear IH Hw. revert Hr. generalize (startbit n + 64).
    induction l1 as [|n1 l1 IH]; intros lo' Hw; cbn [app] in Hw; pose proof Hw as (?&?&?&Hr'); [lia|].
    specialize (IH _ Hr'). lia.
Qed.
(** a body that ignores clear bits: the invariant is on the members seen *)
Lemma wp_ebitmap_for_each_member (Inv : list Z → S → heap → Prop) (Q : R + S * Z → heap → Prop) e body s h :
  ebitmap_wf e → (∀ i s, body false i s = mret (inr s)) → Inv [] s h →
  (∀ i l1 l2 s h, ebitmap_bits e = l1 ++ i :: l2 → Inv l1 s h →
    wp (body true i s) (λ r h', match r with inl x => Q (inl x) h' | inr s' => Inv (l1 ++ [i]) s' h' end) h) →
  (∀ s h, Inv (ebitmap_bits e) s h → Q (inr (s, highbit e)) h) →
  wp (ebitmap_for_each_bit e body s) Q h.
Proof.
  intros Hw Hskip HI Hb HQ. unfold wp. rewrite ebitmap_for_each_member by done.
  change (wp (with_bit (highbit e) <$> for_list (ebitmap_bits e) (body true) s) Q h).
  apply wp_bind, (wp_for_list_prefix Inv); [done| |].
  - intros i l1 l2 s1 h1 Hl HI1. eapply wp_mono; [by eapply Hb|]. intros [x|s2] h2 Hr; [by apply wp_ret|done].
  - intros s1 h1 HI1. by apply wp_ret, HQ.
Qed.
End for_each_rule.

(** ** Properties *)

(** C16: [ebitmap_set_bit] is insertion or removal of one element.  On a
    well-formed bitmap it terminates without undefined behaviour and keeps the
    bitmap well-formed; a bit of the last word of the 32-bit range is refused
    with [-EINVAL]; otherwise either the set is changed by exactly that bit, or
    memory ran out and the bitmap is unchanged; with memory it succeeds. *)
Theorem ebitmap_set_bit_correct `{Target} e bit value h :
  ebitmap_wf e → 0 ≤ bit < 2 ^ 32 →
  wp (ebitmap_set_bit e bit value) (λ '(rc, e') h', ebitmap_wf e' ∧
    if 2 ^ 32 - 64 <=? bit then rc = - EINVAL ∧ e' = e
    else (mem_ok h → rc = 0) ∧
      (rc = 0 ∧ ebitmap_set e' = (if truth value then {[bit]} ∪ ebitmap_set e else ebitmap_set e ∖ {[bit]})
       ∨ rc = - ENOMEM ∧ e' = e)) h.
Proof.
  intros Hw Hb. destruct (Z.leb_spec (2 ^ 32 - 64) bit).
  - unfold wp. by rewrite ebitmap_set_bit_overflow by lia.
  - eapply wp_mono; [apply ebitmap_set_bit_wp; [done|lia]|].
    intros [rc e'] h' (Hm&Hw'&Hres). split_and!; [done|intros Ho; by destruct (Hm Ho)|].
    destruct Hres as [[-> Hbits]|?]; [left|by right]. split; [done|].
    apply ebitmap_set_ext; [done|]. intros i. rewrite Hbits.
    destruct (Z.eqb_spec i bit) as [->|Hne], (truth value).
    + set_solver.
    + set_solver.
    + rewrite elem_of_union, elem_of_singleton, elem_of_ebitmap_set by done. naive_solver.
    + rewrite elem_of_difference, elem_of_singleton, elem_of_ebitmap_set by done. naive_solver.
Qed.

Lemma set_bit_example_wf : ebitmap_wf (Ebitmap [Node 64 5] 128).
Proof. split; [|done]. simpl. split_and!; try done; try lia. Qed.

(** witness of C16: clearing bit 64 of {64, 66} *)
Lemma ebitmap_set_bit_correct_witness :
  let e := Ebitmap [Node 64 5] 128 in
  wp (@ebitmap_set_bit target_arm e 64 0) (λ '(rc, e') h', ebitmap_wf e' ∧
    if 2 ^ 32 - 64 <=? 64 then rc = - EINVAL ∧ e' = e
    else (mem_ok fresh_heap → rc = 0) ∧
      (rc = 0 ∧ ebitmap_set e' = (if truth 0 then {[64]} ∪ ebitmap_set e else ebitmap_set e ∖ {[64]})
       ∨ rc = - ENOMEM ∧ e' = e)) fresh_heap.
Proof.
  exact (@ebitmap_set_bit_correct target_arm (Ebitmap [Node 64 5] 128) 64 0 fresh_heap
    set_bit_example_wf (conj (Zle_0_pos 64) eq_refl)).
Defined.

(** C17: the queries answer for the set.  [ebitmap_get_bit] is membership,
    [ebitmap_cmp] is equality of sets (the representation is canonical, so it
    is also equality of the structures), [ebitmap_contains] is inclusion and
    [ebitmap_cardinality] the number of elements. *)
Theorem ebitmap_queries_refine_sets `{Target} e1 e2 :
  ebitmap_wf e1 → ebitmap_wf e2 →
  (∀ i, ebitmap_get_bit e1 i = cbool (bool_decide (i ∈ ebitmap_set e1))) ∧
  ebitmap_cmp e1 e2 = cbool (bool_decide (ebitmap_set e1 = ebitmap_set e2)) ∧
  (ebitmap_set e1 = ebitmap_set e2 ↔ e1 = e2) ∧
  ebitmap_contains e1 e2 = cbool (bool_decide (ebitmap_set e2 ⊆ ebitmap_set e1)) ∧
  ebitmap_cardinality e1 = size (ebitmap_set e1).
Proof.
  intros Hw1 Hw2. split_and!.
  - intros i. rewrite ebitmap_get_bit_eq by done. f_equal. apply eq_true_iff_eq.
    by rewrite bool_decide_eq_true, elem_of_ebitmap_set.
  - by apply ebitmap_cmp_set.
  - split; [by apply ebitmap_set_inj|by intros ->].
  - by apply ebitmap_contains_set.
  - by apply ebitmap_cardinality_size.
Qed.

(** witness of C17 *)
Lemma ebitmap_queries_refine_sets_witness :
  let e := Ebitmap [Node 64 5] 128 in
  (∀ i, @ebitmap_get_bit target_arm e i = cbool (bool_decide (i ∈ ebitmap_set e))) ∧
  ebitmap_cmp e e = cbool (bool_decide (ebitmap_set e = ebitmap_set e)) ∧
  (ebitmap_set e = ebitmap_set e ↔ e = e) ∧
  ebitmap_contains e e = cbool (bool_decide (ebitmap_set e ⊆ ebitmap_set e)) ∧
  @ebitmap_cardinality target_arm e = size (ebitmap_set e).
Proof. exact (@ebitmap_queries_refine_sets target_arm _ _ set_bit_example_wf set_bit_example_wf). Defined.

(** C18: the operations that build a bitmap refine those on sets, and fail only
    for want of memory: [ebitmap_or] is union, [ebitmap_and] intersection,
    [ebitmap_xor] symmetric difference, [ebitmap_not] complement below a bound,
    [ebitmap_andnot] difference, [ebitmap_cpy] the same bitmap. *)
Theorem ebitmap_algebra `{Target} e1 e2 maxbit h :
  ebitmap_wf e1 → ebitmap_wf e2 → 0 ≤ maxbit ≤ 2 ^ 32 - 64 →
  let X1 := ebitmap_set e1 in let X2 := ebitmap_set e2 in
  wp (ebitmap_or e1 e2) (builds h (X1 ∪ X2)) h ∧
  wp (ebitmap_and e1 e2) (builds h (X1 ∩ X2)) h ∧
  wp (ebitmap_xor e1 e2) (builds h ((X1 ∖ X2) ∪ (X2 ∖ X1))) h ∧
  wp (ebitmap_not e1 maxbit) (builds h (list_to_set (seqZ 0 maxbit) ∖ X1)) h ∧
  (highbit e1 ≤ maxbit → wp (ebitmap_andnot e1 e2 maxbit) (builds h (X1 ∖ X2)) h) ∧
  wp (ebitmap_cpy e1) (builds h X1) h.
Proof.
  intros Hw1 Hw2 Hmax X1 X2. split_and!.
  - eapply wp_mono; [by apply ebitmap_or_wp|]. intros [rc e] h' (?&?&[[-> ?]|[-> ->]]);
      (split_and!; [done..|]); auto.
  - by apply ebitmap_and_wp.
  - by apply ebitmap_xor_wp.
  - by apply ebitmap_not_wp.
  - intros ?. apply ebitmap_andnot_wp; (done || lia).
  - eapply wp_mono; [apply ebitmap_cpy_wp|]. intros [rc e] h' (?&[[-> ->]|[-> ->]]);
      (split_and!; [done..|]); auto.
Qed.

(** witness of C18 *)
Lemma ebitmap_algebra_witness :
  let e := Ebitmap [Node 64 5] 128 in let X := ebitmap_set e in
  wp (@ebitmap_or e e) (builds fresh_heap (X ∪ X)) fresh_heap ∧
  wp (@ebitmap_and target_arm e e) (builds fresh_heap (X ∩ X)) fresh_heap ∧
  wp (@ebitmap_xor target_arm e e) (builds fresh_heap ((X ∖ X) ∪ (X ∖ X))) fresh_heap ∧
  wp (@ebitmap_not target_arm e 128) (builds fresh_heap (list_to_set (seqZ 0 128) ∖ X)) fresh_heap ∧
  (highbit e ≤ 128 → wp (@ebitmap_andnot target_arm e e 128) (builds fresh_heap (X ∖ X)) fresh_heap) ∧
  wp (@ebitmap_cpy e) (builds fresh_heap X) fresh_heap.
Proof.
  apply (@ebitmap_algebra target_arm (Ebitmap [Node 64 5] 128) (Ebitmap [Node 64 5] 128) 128 fresh_heap);
    [apply set_bit_example_wf|apply set_bit_example_wf|lia].
Defined.

(** [ebitmap_for_each_bit] with a body that ignores clear bits runs it
    once for each member in increasing order, with no undefined shift or null
    cursor, and leaves the bitmap's length in the loop variable. *)
Theorem ebitmap_for_each_bit_members `{Target} {S R} e (body : bool → Z → S → CM (R + S)) s h :
  ebitmap_wf e → (∀ i s, body false i s = mret (inr s)) →
  ebitmap_for_each_bit e body s h
    = (with_bit (ebitmap_length e) <$> for_list (ebitmap_bits e) (body true) s) h ∧
  NoDup (ebitmap_bits e) ∧ (∀ i, i ∈ ebitmap_bits e ↔ ebitmap_get_bit e i = 1).
Proof.
  intros Hw Hskip. split_and!; [by apply ebitmap_for_each_member|by apply ebitmap_bits_NoDup|].
  intros i. rewrite elem_of_ebitmap_bits, ebitmap_get_bit_eq by done. by destruct (nodes_bit _ _).
Qed.

(** witness of [ebitmap_for_each_bit_members]: collecting the members *)
Lemma ebitmap_for_each_bit_members_witness :
  let e := Ebitmap [Node 64 5] 128 in
  let body := λ (b : bool) (i : Z) (acc : list Z), mret (M := CM) (inr (A := unit) (if b then acc ++ [i] else acc)) in
  @ebitmap_for_each_bit target_arm _ _ e body [] fresh_heap = Some (inr ([64; 66], 128), fresh_heap) ∧
  (@ebitmap_for_each_bit target_arm _ _ e body [] fresh_heap
    = (with_bit 128 <$> for_list (ebitmap_bits e) (body true) []) fresh_heap ∧
   NoDup (ebitmap_bits e) ∧ ∀ i, i ∈ ebitmap_bits e ↔ @ebitmap_get_bit target_arm e i = 1).
Proof.
  split; [vm_compute; reflexivity|]. apply (@ebitmap_for_each_bit_members target_arm).
  - apply set_bit_example_wf.
  - intros i s. reflexivity.
Defined.
