(* ===== verification/EbitmapIO.v ===== *)
(** * Extensible bitmaps in policy files ([ebitmap_write] of [write.c],
    [ebitmap_read] of [ebitmap.c]) *)

From S2P Require Import Prelude PolicyFile Ebitmap.

Definition POLICYDB_SUCCESS : Z := 0.
Definition POLICYDB_ERROR : Z := -1.

(** the loop variables of [ebitmap_read]: the nodes linked so far and the file *)
Abbreviation read_state := (list ebitmap_node * policy_file)%type.

Section io.
Context `{Target}.

Fixpoint ebitmap_write_nodes (n : list ebitmap_node) (fp : policy_file) : Z * policy_file :=
  match n with
  | [] => (POLICYDB_SUCCESS, fp)
  | nd :: next =>
      let '(items, fp) := put_entry (cpu_to_le 4 [startbit nd]) 4 1 fp in
      if negb (items =? 1) then (POLICYDB_ERROR, fp) else
      let '(items, fp) := put_entry (cpu_to_le 8 [map nd]) 8 1 fp in
      if negb (items =? 1) then (POLICYDB_ERROR, fp) else
      ebitmap_write_nodes next fp
  end.

Definition ebitmap_write (e : ebitmap) (fp : policy_file) : Z * policy_file :=
  let count := u32 (length (node e)) in
  let '(items, fp) := put_entry (cpu_to_le 4 [MAPSIZE; highbit e; count]) 4 3 fp in
  if negb (items =? 3) then (POLICYDB_ERROR, fp) else ebitmap_write_nodes (node e) fp.

(** One iteration of the reading loop of [ebitmap_read]; [inl (rc, fp)] is a
    [goto bad] or [goto bad_free]. *)
Definition ebitmap_read_node (hb : Z) (i : Z) (st : read_state)
    : CM ((Z * policy_file) + read_state) :=
  let '(nodes, fp) := st in
  '(rc, buf, fp) ← next_entry fp 4;
  if rc <? 0 then mret (inl (rc, fp)) else
  n ← malloc;
  match n with
  | None => mret (inl (- ENOMEM, fp))
  | Some _ =>
      let sbit := le_to_cpu 4 buf 0 in
      if truth (Z.land sbit (MAPSIZE - 1)) then mret (inl (rc, fp)) else
      if szt (hb - MAPSIZE) <? sbit then mret (inl (rc, fp)) else
      '(rc, buf, fp) ← next_entry fp 8;
      if rc <? 0 then mret (inl (rc, fp)) else
      let m := le_to_cpu 8 buf 0 in
      if negb (truth m) then mret (inl (rc, fp)) else
      match last nodes with
      | Some l => if sbit <=? startbit l then mret (inl (rc, fp))
                  else mret (inr (nodes ++ [Node sbit m], fp))
      | None => mret (inr (nodes ++ [Node sbit m], fp))
      end
  end.

(** the label [bad] *)
Definition ebitmap_read_bad (rc : Z) (fp : policy_file) : Z * ebitmap * policy_file :=
  (if truth rc then rc else - EINVAL, ebitmap_destroy ebitmap_init, fp).

Definition ebitmap_read (fp : policy_file) : CM (Z * ebitmap * policy_file) :=
  '(rc, buf, fp) ← next_entry fp 12;
  if rc <? 0 then mret (ebitmap_read_bad rc fp) else
  let mapsize := le_to_cpu 4 buf 0 in
  let hb := le_to_cpu 4 buf 1 in
  let count := le_to_cpu 4 buf 2 in
  if negb (mapsize =? MAPSIZE) then mret (ebitmap_read_bad rc fp) else
  if negb (truth hb) then mret (0, Ebitmap [] hb, fp) else
  if truth (Z.land hb (MAPSIZE - 1)) then mret (ebitmap_read_bad rc fp) else
  r ← for_loop 0 count (ebitmap_read_node hb) ([], fp);
  match r with
  | inl (rc, fp) => mret (ebitmap_read_bad rc fp)
  | inr (nodes, fp) => mret (0, Ebitmap nodes hb, fp)
  end.
End io.

(** ** The format *)

Definition node_bytes (n : ebitmap_node) : list byte := cpu_to_le 4 [startbit n] ++ cpu_to_le 8 [map n].
Definition ebitmap_bytes (e : ebitmap) : list byte :=
  cpu_to_le 4 [MAPSIZE; highbit e; Z.of_nat (length (node e))] ++ (node e ≫= node_bytes).

(** What [ebitmap_read] checks: it does not compare the high bit with the
    end of the last node. *)
Definition ebitmap_weak_wf (e : ebitmap) : Prop :=
  nodes_wf 0 (node e) ∧ nodes_end 0 (node e) ≤ highbit e ∧ (64 | highbit e).

Section theory.
Context `{Target}.

Lemma length_node_bytes n : length (node_bytes n) = 12%nat.
Proof. unfold node_bytes. by rewrite length_app, !length_cpu_to_le. Qed.

Lemma length_nodes_bytes ns : length (ns ≫= node_bytes) = (12 * length ns)%nat.
Proof.
  induction ns as [|n ns IH]; [done|]. rewrite bind_cons, length_app, length_node_bytes, IH.
  cbn [length]. lia.
Qed.

Lemma nodes_length_le lo ns : nodes_wf lo ns → lo + 64 * length ns ≤ nodes_end lo ns.
Proof.
  revert lo. induction ns as [|n ns IH]; intros lo Hw; [unfold nodes_end; simpl; lia|].
  destruct Hw as (?&?&?&Hr). rewrite nodes_end_cons. specialize (IH _ Hr). cbn [length]. lia.
Qed.

Lemma write_nodes_mem lo ns out room :
  nodes_wf lo ns → 12 * length ns ≤ room →
  ebitmap_write_nodes ns (mem_output out room)
    = (POLICYDB_SUCCESS, mem_output (out ++ (ns ≫= node_bytes)) (room - 12 * length ns)).
Proof.
  revert lo out room. induction ns as [|n ns IH]; intros lo out room Hw Hroom.
  { simpl. by rewrite app_nil_r, Z.sub_0_r. }
  destruct Hw as (?&?&?&Hr). cbn [length] in Hroom. cbn [ebitmap_write_nodes].
  rewrite put_entry_mem by (rewrite ?length_cpu_to_le; simpl; lia). cbn [Z.eqb negb Pos.eqb].
  rewrite put_entry_mem by (rewrite ?length_cpu_to_le; simpl; lia). cbn [Z.eqb negb Pos.eqb].
  rewrite (IH (startbit n + 64)); [|done|lia]. rewrite bind_cons. unfold node_bytes at 2.
  rewrite !app_assoc. do 2 f_equal. cbn [length]. lia.
Qed.

Lemma ebitmap_write_mem e out room :
  ebitmap_wf e → length (ebitmap_bytes e) ≤ room →
  ebitmap_write e (mem_output out room)
    = (POLICYDB_SUCCESS, mem_output (out ++ ebitmap_bytes e) (room - length (ebitmap_bytes e))).
Proof.
  intros Hw Hroom. pose proof Hw as [Hn Hh]. pose proof (ebitmap_highbit_range _ Hw).
  pose proof (nodes_length_le _ _ Hn).
  assert (length (ebitmap_bytes e) = (12 + 12 * length (node e))%nat) as Hl.
  { unfold ebitmap_bytes. by rewrite length_app, length_cpu_to_le, length_nodes_bytes. }
  unfold ebitmap_write, u32. rewrite wrap_id by lia.
  rewrite put_entry_mem by (rewrite ?length_cpu_to_le; simpl; lia). cbn [Z.eqb negb Pos.eqb].
  rewrite (write_nodes_mem 0) by (done || lia). unfold ebitmap_bytes at 1. rewrite app_assoc.
  do 2 f_equal. lia.
Qed.

Lemma aligned_test z : truth (Z.land z (MAPSIZE - 1)) = false ↔ (64 | z).
Proof.
  rewrite truth_false. change (MAPSIZE - 1) with (Z.ones 6). rewrite Z.land_ones by lia.
  change (2 ^ 6) with 64. apply Z.mod_divide. lia.
Qed.

(** reading one well-formed node that follows [nodes] *)
Lemma read_node_bytes hb i nodes n rest h :
  0 ≤ startbit n ≤ hb - 64 → hb < 2 ^ 32 → (64 | startbit n) → 0 < map n < 2 ^ 64 →
  match last nodes with Some l => startbit l < startbit n | None => True end →
  wp (ebitmap_read_node hb i (nodes, mem_input (node_bytes n ++ rest)))
    (λ r h', mem_step h h' (r = inr (nodes ++ [n], mem_input rest)) ∧
       (r = inr (nodes ++ [n], mem_input rest) ∨ ∃ fp, r = inl (- ENOMEM, fp))) h.
Proof.
  intros Hs Hhb Hd Hm Hlast. unfold ebitmap_read_node, node_bytes. rewrite <- app_assoc.
  apply wp_bind. unfold wp at 1. rewrite next_entry_app by (by rewrite length_cpu_to_le).
  cbn [Z.ltb Z.compare]. wp_malloc a h1 Hm1; [|apply wp_ret; split; [mem|by right; eexists]].
  assert (∀ (w : nat) z, z < 256 ^ w → 0 ≤ z → le_to_cpu w (cpu_to_le w [z]) 0 = z) as Hle.
  { intros w z ??. rewrite <- (app_nil_r (cpu_to_le w [z])). erewrite le_to_cpu_to_le by done.
    apply Z.mod_small. lia. }
  rewrite Hle by (simpl; lia). rewrite (proj2 (aligned_test _) Hd).
  rewrite szt_small by (unfold MAPSIZE; lia). rewrite (proj2 (Z.ltb_ge _ _)) by (unfold MAPSIZE; lia).
  apply wp_bind. unfold wp at 1. rewrite next_entry_app by (by rewrite length_cpu_to_le).
  cbn [Z.ltb Z.compare]. rewrite Hle by (simpl; lia).
  rewrite (proj2 (truth_true _)) by lia. cbn [negb]. destruct n as [sb m]; cbn [startbit map] in *.
  destruct (last nodes) as [l|]; [rewrite (proj2 (Z.leb_gt _ _)) by lia|];
    apply wp_ret; (split; [mem|by left]).
Qed.

Lemma nodes_wf_app lo done todo :
  nodes_wf lo (done ++ todo) → nodes_wf (nodes_end lo done) todo.
Proof.
  revert lo. induction done as [|n ns IH]; intros lo Hw; [done|].
  destruct Hw as (?&?&?&Hr). rewrite nodes_end_cons. by apply IH.
Qed.
Lemma nodes_end_app lo done todo : nodes_end lo (done ++ todo) = nodes_end (nodes_end lo done) todo.
Proof.
  revert lo. induction done as [|n ns IH]; intros lo; [done|]. simpl app. by rewrite !nodes_end_cons, IH.
Qed.
Lemma nodes_wf_snoc lo ns n :
  nodes_wf lo ns → nodes_end lo ns ≤ startbit n ≤ 2 ^ 32 - 128 → (64 | startbit n) →
  0 < map n < 2 ^ 64 → nodes_wf lo (ns ++ [n]).
Proof.
  revert lo. induction ns as [|m ns IH]; intros lo Hw Hn Hd Hm.
  - simpl. unfold nodes_end in Hn; simpl in Hn. split_and!; (done || lia).
  - destruct Hw as (?&?&?&Hr). rewrite nodes_end_cons in Hn. simpl. split_and!; try done; try lia.
    by apply IH.
Qed.
(** the test against the previous node, in terms of its end *)
Lemma last_before lo nodes x :
  nodes_wf lo nodes → nodes_end lo nodes ≤ x →
  match last nodes with Some l => startbit l < x | None => True end.
Proof. intros _. unfold nodes_end. destruct (last nodes); [lia|done]. Qed.

(** Reading what [ebitmap_write] wrote gives the bitmap back and leaves the
    file after it. *)
Lemma ebitmap_read_bytes e rest h :
  ebitmap_wf e →
  wp (ebitmap_read (mem_input (ebitmap_bytes e ++ rest)))
    (λ '(rc, e', fp) h', mem_step h h' (rc = 0) ∧
       (rc = 0 ∧ e' = e ∧ fp = mem_input rest ∨ rc = - ENOMEM ∧ e' = ebitmap_init)) h.
Proof.
  intros Hw. pose proof Hw as [Hn Hh]. pose proof (ebitmap_highbit_range _ Hw).
  pose proof (nodes_length_le _ _ Hn). unfold ebitmap_read, ebitmap_bytes. rewrite <- app_assoc.
  apply wp_bind. unfold wp at 1. rewrite next_entry_app by (by rewrite length_cpu_to_le).
  cbn [Z.ltb Z.compare]. rewrite <- (app_nil_r (cpu_to_le 4 [MAPSIZE; _; _])).
  rewrite !(le_to_cpu_to_le 4 _ _ 0 MAPSIZE), !(le_to_cpu_to_le 4 _ _ 1 (highbit e)),
    !(le_to_cpu_to_le 4 _ _ 2 (length (node e))) by done.
  rewrite (Z.mod_small (highbit e)), (Z.mod_small (length (node e))) by (simpl; lia).
  change (negb (MAPSIZE mod 256 ^ 4%nat =? MAPSIZE)) with false. cbv iota.
  destruct (truth (highbit e)) eqn:Et; cbn [negb]; cycle 1.
  { apply truth_false in Et. assert (node e = []) as En.
    { destruct (node e) eqn:En; [done|]. simpl in *. lia. }
    apply wp_ret. split; [mem|left]. rewrite En. split_and!; [done|by destruct e; simpl in *; subst|done]. }
  rewrite (proj2 (aligned_test _)) by (rewrite Hh; apply nodes_end_aligned; [by exists 0|done]).
  apply wp_bind. apply (wp_for_loop (λ i '(nodes, fp) h', mem_step h h' True ∧ ∃ todo,
    node e = nodes ++ todo ∧ i = length nodes ∧ fp = mem_input ((todo ≫= node_bytes) ++ rest))).
  - split; [mem|]. by exists (node e).
  - intros i [nodes fp] h1 Hi (Hm&todo&He&->&->). destruct todo as [|n todo].
    { rewrite He, length_app in Hi. simpl in Hi. lia. }
    rewrite bind_cons, <- app_assoc. pose proof Hn as Hn'. rewrite He in Hn'.
    pose proof (nodes_wf_app _ _ _ Hn') as (?&?&?&Hr). pose proof (nodes_end_ge _ _ Hr).
    pose proof (nodes_end_ge 0 nodes) as Hge0.
    assert (nodes_wf 0 nodes) as Hwn.
    { clear -Hn'. revert Hn'. generalize 0. induction nodes as [|m nodes IH]; intros lo; [done|].
      intros (?&?&?&?). simpl. split_and!; try done; try lia. by apply IH. }
    rewrite He, nodes_end_app, nodes_end_cons in Hh. specialize (Hge0 Hwn).
    eapply wp_mono; [apply read_node_bytes; try done; try lia|].
    { apply (last_before 0); [done|lia]. }
    intros r h2 [Hm2 [-> |[fp ->]]].
    + split; [mem|]. exists todo. rewrite length_app, <- app_assoc. split_and!; [done|simpl; lia|done].
    + apply wp_ret. cbn. split; [|by right]. intros Ho. destruct (Hm Ho) as [Ho1 _].
      by destruct (Hm2 Ho1).
  - intros [nodes fp] h1 (Hm&todo&He&Hl&->). apply wp_ret.
    assert (todo = []) as -> by (apply length_zero_iff_nil; apply (f_equal length) in He;
      rewrite length_app in He; lia).
    rewrite app_nil_r in He. split; [mem|left]. split_and!; [done| |done]. by destruct e; simpl in *; subst.
Qed.

(** one iteration on arbitrary bytes keeps the checked invariant *)
Lemma read_node_sound hb i nodes bs h :
  64 ≤ hb < 2 ^ 32 → (64 | hb) → nodes_wf 0 nodes → nodes_end 0 nodes ≤ hb →
  wp (ebitmap_read_node hb i (nodes, mem_input bs)) (λ r _, ∃ bs', length bs' ≤ length bs ∧
    match r with
    | inl (_, fp) => fp = mem_input bs'
    | inr (nodes', fp) => fp = mem_input bs' ∧ nodes_wf 0 nodes' ∧ nodes_end 0 nodes' ≤ hb
    end) h.
Proof.
  intros Hhb Hdhb Hw He. unfold ebitmap_read_node. apply wp_bind. unfold wp at 1.
  destruct (mem_input_next bs 4 h ltac:(lia)) as (rc&buf&bs1&->&_&Hl1).
  destruct (rc <? 0); [apply wp_ret; eexists; split; [|done]; lia|].
  wp_malloc a h1 Hm; [|apply wp_ret; eexists; split; [|done]; lia].
  pose proof (le_to_cpu_range 4 buf 0) as Hs. set (sb := le_to_cpu 4 buf 0) in *.
  destruct (truth (Z.land sb (MAPSIZE - 1))) eqn:Ea; [apply wp_ret; eexists; split; [|done]; lia|].
  apply aligned_test in Ea. rewrite szt_small by (unfold MAPSIZE; lia).
  destruct (Z.ltb_spec (hb - MAPSIZE) sb) as [|Hle]; [apply wp_ret; eexists; split; [|done]; lia|].
  apply wp_bind. unfold wp at 1. destruct (mem_input_next bs1 8 h1 ltac:(lia)) as (rc2&buf2&bs2&->&_&Hl2).
  destruct (rc2 <? 0); [apply wp_ret; eexists; split; [|done]; lia|].
  pose proof (le_to_cpu_range 8 buf2 0) as Hmr. set (m := le_to_cpu 8 buf2 0) in *.
  destruct (truth m) eqn:Et; cbn [negb]; [|apply wp_ret; eexists; split; [|done]; lia]. apply truth_true in Et.
  unfold MAPSIZE in Hle. simpl in Hs, Hmr.
  assert (hb ≤ 2 ^ 32 - 64) by (destruct Hdhb as [c Hc]; lia).
  assert (Hnew : nodes_end 0 nodes ≤ sb →
    nodes_wf 0 (nodes ++ [Node sb m]) ∧ nodes_end 0 (nodes ++ [Node sb m]) ≤ hb).
  { intros. split; [apply nodes_wf_snoc; simpl; try done; lia|].
    rewrite nodes_end_app, nodes_end_cons. unfold nodes_end; simpl. lia. }
  pose proof (nodes_end_aligned 0 nodes ltac:(by exists 0) Hw) as Hda.
  unfold nodes_end in Hnew, Hda. destruct (last nodes) as [l|].
  - destruct (Z.leb_spec sb (startbit l)); [apply wp_ret; eexists; split; [|done]; lia|].
    apply wp_ret. exists bs2. split; [lia|]. split; [done|]. apply Hnew.
    apply align_lt; [|done|done]. by apply Z.divide_add_cancel_r with 64; [exists 1|rewrite Z.add_comm].
  - apply wp_ret. exists bs2. split; [lia|]. split; [done|]. apply Hnew. lia.
Qed.

Lemma ebitmap_read_checks bs h :
  wp (ebitmap_read (mem_input bs)) (λ '(rc, e, fp) _,
    (rc = 0 → ebitmap_weak_wf e) ∧ (rc ≠ 0 → e = ebitmap_init) ∧ ∃ bs', fp = mem_input bs' ∧ length bs' ≤ length bs) h.
Proof.
  assert (Hbad : ∀ rc bs' h, length bs' ≤ length bs → wp (mret (ebitmap_read_bad rc (mem_input bs'))) (λ '(rc, e, fp) _,
    (rc = 0 → ebitmap_weak_wf e) ∧ (rc ≠ 0 → e = ebitmap_init) ∧ ∃ bs', fp = mem_input bs' ∧ length bs' ≤ length bs) h).
  { intros rc bs' h0 Hle. apply wp_ret. unfold ebitmap_read_bad. split_and!; [|done|by eexists].
    destruct (truth rc) eqn:E; [by apply truth_true in E|done]. }
  unfold ebitmap_read. apply wp_bind. unfold wp at 1.
  destruct (mem_input_next bs 12 h ltac:(lia)) as (rc&buf&bs1&->&_&Hl1).
  destruct (rc <? 0); [by apply Hbad|]. destruct (negb _); [by apply Hbad|].
  pose proof (le_to_cpu_range 4 buf 1) as Hr. set (hb := le_to_cpu 4 buf 1) in *.
  destruct (truth hb) eqn:Et; cbn [negb]; cycle 1.
  { apply truth_false in Et. rewrite Et. apply wp_ret. split_and!; [|done|by eexists].
    intros _. split_and!; [done|done|by exists 0]. }
  apply truth_true in Et. destruct (truth (Z.land hb _)) eqn:Ea; [by apply Hbad|]. apply aligned_test in Ea.
  assert (64 ≤ hb) by (destruct Ea as [c Hc]; lia). simpl in Hr.
  apply wp_bind. apply (wp_for_loop (λ i '(nodes, fp) _,
    nodes_wf 0 nodes ∧ nodes_end 0 nodes ≤ hb ∧ ∃ bs', fp = mem_input bs' ∧ length bs' ≤ length bs)).
  - split_and!; [done|unfold nodes_end; simpl; lia|by eexists].
  - intros i [nodes fp] h1 _ (Hw&He&bs2&->&Hl2). eapply wp_mono; [apply read_node_sound; done || lia|].
    intros [[rc2 fp]|[nodes' fp]] h2 [bs3 Hfp]; [destruct Hfp as [? ->]; apply Hbad; lia|]. destruct Hfp as (Hl3&->&?&?).
    split_and!; [done..|]. eexists. split; [done|lia].
  - intros [nodes fp] h1 (Hw&He&bs2&->&Hl2). apply wp_ret. split_and!; [|done|by eexists].
    intros _. done.
Qed.
End theory.

(** ** Properties *)

(** round trip.  Writing a well-formed bitmap to a memory buffer with
    enough room succeeds, and reading the bytes back yields the same bitmap and
    leaves the file just after it, or fails with [-ENOMEM] and an empty bitmap
    when an allocation fails. *)
Theorem ebitmap_write_read `{Target} e room rest h :
  ebitmap_wf e → length (ebitmap_bytes e) ≤ room →
  let '(rc, out) := ebitmap_write e (mem_output [] room) in
  rc = POLICYDB_SUCCESS ∧
  wp (ebitmap_read (mem_input (pf_out out ++ rest)))
    (λ '(rc, e', fp) h', (mem_ok h → rc = 0) ∧
       (rc = 0 ∧ e' = e ∧ fp = mem_input rest ∨ rc = - ENOMEM ∧ e' = ebitmap_init)) h.
Proof.
  intros Hw Hroom. rewrite ebitmap_write_mem by done. split; [done|]. cbn [pf_out mem_output app].
  eapply wp_mono; [by apply ebitmap_read_bytes|]. intros [[rc e'] fp] h' [Hm Hres].
  split; [|done]. intros Ho. by destruct (Hm Ho).
Qed.

(** witness of [ebitmap_write_read] *)
Lemma ebitmap_write_read_witness :
  let e := Ebitmap [Node 64 5] 128 in
  let '(rc, out) := @ebitmap_write target_arm e (mem_output [] 100) in
  rc = POLICYDB_SUCCESS ∧
  wp (@ebitmap_read target_arm (mem_input (pf_out out ++ [x2a])))
    (λ '(rc, e', fp) h', (mem_ok fresh_heap → rc = 0) ∧
       (rc = 0 ∧ e' = e ∧ fp = mem_input [x2a] ∨ rc = - ENOMEM ∧ e' = ebitmap_init)) fresh_heap.
Proof.
  apply (@ebitmap_write_read target_arm (Ebitmap [Node 64 5] 128) 100 [x2a] fresh_heap).
  - apply set_bit_example_wf.
  - vm_compute. discriminate.
Defined.

(** on any bytes in memory [ebitmap_read] terminates without undefined
    behaviour; what it accepts is sorted, aligned and without empty words, with
    an aligned high bit at or past the end of the last word; what it rejects
    leaves an empty bitmap. *)
Theorem ebitmap_read_sound `{Target} bs h :
  wp (ebitmap_read (mem_input bs)) (λ '(rc, e, fp) _,
    (rc = 0 → ebitmap_weak_wf e) ∧ (rc ≠ 0 → e = ebitmap_init) ∧ ∃ bs', fp = mem_input bs') h.
Proof.
  eapply wp_mono; [apply ebitmap_read_checks|]. intros [[rc e] fp] h' (?&?&bs'&->&_). split_and!; [done|done|by exists bs'].
Qed.

(** the high bit read from the file is not compared with the last word.
    Twelve bytes are accepted that claim 64 positions and no word; a loop over
    the result dereferences a null cursor, and the result differs under
    [ebitmap_cmp] from the empty bitmap although no bit of either is set. *)
Theorem ebitmap_read_highbit_unchecked `{Target} :
  let bs := cpu_to_le 4 [MAPSIZE; 64; 0] in let e := Ebitmap [] 64 in
  ebitmap_read (mem_input bs) fresh_heap = Some ((0, e, mem_input []), fresh_heap) ∧
  ebitmap_for_each_bit e (λ b i (s : unit), mret (inr (A := unit) s)) () fresh_heap = None ∧
  (∀ i, ebitmap_get_bit e i = ebitmap_get_bit ebitmap_init i) ∧ ebitmap_cmp e ebitmap_init = 0.
Proof.
  split_and!; [by vm_compute|by vm_compute| |done]. intros i. unfold ebitmap_get_bit. simpl.
  by destruct (64 <? i), (0 <? i).
Qed.
