(* ===== verification/Hashtab.v ===== *)
(** * Hash tables ([hashtab.c], [hashtab.h])

    Chained hash tables ordered by key inside each chain.  The hash and the
    comparison a table is created with are an interface ([HashOps], with its
    laws [HashLaws]); [Symtab] implements it for strings.  A [hashtab_t] is a
    pointer: [None] is [NULL]. *)

From S2P Require Import Prelude.

(** ** The interface a client provides *)

(** [hash_value size k] is [h->hash_value(h, k)] for a table of [size] slots *)
Class HashOps (K : Type) := {
  hash_value : Z → K → Z;
  keycmp : K → K → Z
}.
Class HashLaws (K : Type) `{HashOps K} := {
  hash_value_range size k : 0 < size < 2 ^ 32 → 0 ≤ hash_value size k < size;
  keycmp_zero a b : keycmp a b = 0 ↔ a = b;
  keycmp_swap a b : 0 < keycmp a b ↔ keycmp b a < 0;
  keycmp_trans a b c : 0 < keycmp a b → 0 < keycmp b c → 0 < keycmp a c
}.

(** ** Data *)

Record hashtab (K D : Type) := Hashtab {
  htable : list (list (K * D));  (* the chains *)
  size : Z;                      (* number of slots *)
  nel : Z                        (* number of elements *)
}.
Arguments Hashtab {K D}.
Arguments htable {K D}.
Arguments size {K D}.
Arguments nel {K D}.

Section operations.
Context {K D : Type} `{HashOps K}.

(** [h->htable[i]]; an index outside the array is a wild access *)
Definition slot (h : hashtab K D) (i : Z) : option (list (K * D)) :=
  if i <? 0 then None else htable h !! Z.to_nat i.
Definition set_slot (h : hashtab K D) (i : Z) (c : list (K * D)) (n : Z) : hashtab K D :=
  Hashtab (<[Z.to_nat i := c]> (htable h)) (size h) n.

Definition hashtab_create (sz : Z) : CM (option (hashtab K D)) :=
  p ← malloc;
  match p with
  | None => mret None
  | Some _ =>
      t ← malloc;
      match t with
      | None => mret None
      | Some _ => mret (Some (Hashtab (replicate (Z.to_nat sz) []) sz 0))
      end
  end.

(** [while (cur && h->keycmp(h, key, cur->key) > 0) { prev = cur; cur = cur->next; }]:
    the nodes passed (the last one is [prev]) and [cur]. *)
Fixpoint chain_walk (key : K) (cur : list (K * D)) : list (K * D) * list (K * D) :=
  match cur with
  | [] => ([], [])
  | nd :: next =>
      if 0 <? keycmp key nd.1 then
        let '(before, cur) := chain_walk key next in (nd :: before, cur)
      else ([], cur)
  end.

(** [cur && h->keycmp(h, key, cur->key) == 0] *)
Definition at_key (key : K) (cur : list (K * D)) : option (K * D) :=
  match cur with
  | nd :: _ => if keycmp key nd.1 =? 0 then Some nd else None
  | [] => None
  end.

Definition hashtab_insert (h : option (hashtab K D)) (key : K) (datum : D)
    : CM (Z * option (hashtab K D)) :=
  match h with
  | None => mret (SEPOL_ENOMEM, h)
  | Some t =>
      let hvalue := i32 (hash_value (size t) key) in
      chain ← deref (slot t hvalue);
      let '(before, cur) := chain_walk key chain in
      match at_key key cur with
      | Some _ => mret (SEPOL_EEXIST, h)
      | None =>
          newnode ← malloc;
          match newnode with
          | None => mret (SEPOL_ENOMEM, h)
          | Some _ =>
              mret (SEPOL_OK, Some (set_slot t hvalue (before ++ (key, datum) :: cur) (u32 (nel t + 1))))
          end
      end
  end.

(** [destroy] is called on the pair of the third component *)
Definition hashtab_remove (h : option (hashtab K D)) (key : K)
    : CM (Z * option (hashtab K D) * option (K * D)) :=
  match h with
  | None => mret (SEPOL_ENOENT, h, None)
  | Some t =>
      let hvalue := i32 (hash_value (size t) key) in
      chain ← deref (slot t hvalue);
      let '(last, cur) := chain_walk key chain in
      match at_key key cur with
      | None => mret (SEPOL_ENOENT, h, None)
      | Some nd =>
          mret (SEPOL_OK, Some (set_slot t hvalue (last ++ tail cur) (u32 (nel t - 1))), Some nd)
      end
  end.

Definition hashtab_replace (h : option (hashtab K D)) (key : K) (datum : D)
    : CM (Z * option (hashtab K D) * option (K * D)) :=
  match h with
  | None => mret (SEPOL_ENOMEM, h, None)
  | Some t =>
      let hvalue := i32 (hash_value (size t) key) in
      chain ← deref (slot t hvalue);
      let '(before, cur) := chain_walk key chain in
      match at_key key cur with
      | Some nd =>
          mret (SEPOL_OK, Some (set_slot t hvalue (before ++ (key, datum) :: tail cur) (nel t)), Some nd)
      | None =>
          newnode ← malloc;
          match newnode with
          | None => mret (SEPOL_ENOMEM, h, None)
          | Some _ =>
              mret (SEPOL_OK, Some (set_slot t hvalue (before ++ (key, datum) :: cur) (nel t)), None)
          end
      end
  end.

Definition hashtab_search (h : option (hashtab K D)) (key : K) : CM (option D) :=
  match h with
  | None => mret None
  | Some t =>
      let hvalue := i32 (hash_value (size t) key) in
      chain ← deref (slot t hvalue);
      mret (snd <$> at_key key (chain_walk key chain).2)
  end.

(** frees the nodes, the array and the header *)
Definition hashtab_destroy (h : option (hashtab K D)) : option (hashtab K D) := None.

(** [hashtab_map]: [apply] works on the caller's state [args]; the first
    non-zero answer ends the walk and is returned. *)
Definition hashtab_map {A} (h : option (hashtab K D)) (apply : K → D → A → CM (Z * A)) (args : A)
    : CM (Z * A) :=
  match h with
  | None => mret (SEPOL_OK, args)
  | Some t =>
      r ← for_list (concat (htable t)) (λ nd args,
            '(ret, args) ← apply nd.1 nd.2 args;
            mret (if truth ret then inl (ret, args) else inr args)) args;
      mret (match r with inl ret => ret | inr args => (SEPOL_OK, args) end)
  end.

(** one chain of [hashtab_map_remove_on_error]: the nodes that stay, the count *)
Fixpoint remove_on_error_chain {A} (apply : K → D → A → CM (Z * A)) (destroy : K → D → A → A)
    (cur : list (K * D)) (n : Z) (args : A) : CM (list (K * D) * Z * A) :=
  match cur with
  | [] => mret ([], n, args)
  | nd :: next =>
      '(ret, args) ← apply nd.1 nd.2 args;
      if truth ret then
        remove_on_error_chain apply destroy next (u32 (n - 1)) (destroy nd.1 nd.2 args)
      else
        '(kept, n, args) ← remove_on_error_chain apply destroy next n args;
        mret (nd :: kept, n, args)
  end.
Fixpoint remove_on_error_slots {A} (apply : K → D → A → CM (Z * A)) (destroy : K → D → A → A)
    (slots : list (list (K * D))) (n : Z) (args : A) : CM (list (list (K * D)) * Z * A) :=
  match slots with
  | [] => mret ([], n, args)
  | c :: slots =>
      '(c, n, args) ← remove_on_error_chain apply destroy c n args;
      '(slots, n, args) ← remove_on_error_slots apply destroy slots n args;
      mret (c :: slots, n, args)
  end.
Definition hashtab_map_remove_on_error {A} (h : option (hashtab K D))
    (apply : K → D → A → CM (Z * A)) (destroy : K → D → A → A) (args : A)
    : CM (option (hashtab K D) * A) :=
  match h with
  | None => mret (None, args)
  | Some t =>
      '(slots, n, args) ← remove_on_error_slots apply destroy (htable t) (nel t) args;
      mret (Some (Hashtab slots (size t) n), args)
  end.

(** the figures [hashtab_hash_eval] prints: elements, slots used, slots,
    longest chain *)
Definition hashtab_hash_eval (h : hashtab K D) : Z * Z * Z * Z :=
  let '(slots_used, max_chain_len) :=
    fold_left (λ '(used, longest) c,
      match c with
      | [] => (used, longest)
      | _ => (used + 1, if longest <? length c then Z.of_nat (length c) else longest)
      end) (htable h) (0, 0) in
  (nel h, slots_used, size h, max_chain_len).
End operations.

(** ** Well-formedness and meaning *)

(** the order of a chain, by increasing key *)
Definition key_before {K D} `{HashOps K} (a b : K * D) : Prop := 0 < keycmp b.1 a.1.

(** everything but the element count *)
Record hashtab_ok {K D} `{HashOps K} (h : hashtab K D) : Prop := {
  ok_size : 0 < size h < 2 ^ 31;
  ok_slots : Z.of_nat (length (htable h)) = size h;
  ok_sorted i c : htable h !! i = Some c → StronglySorted key_before c;
  ok_hash i c kd : htable h !! i = Some c → kd ∈ c → hash_value (size h) kd.1 = Z.of_nat i
}.
Definition entries {K D} (h : hashtab K D) : list (K * D) := concat (htable h).
Definition hashtab_wf {K D} `{HashOps K} (h : hashtab K D) : Prop :=
  hashtab_ok h ∧ nel h = u32 (length (entries h)).
(** the finite map a table stands for *)
Definition hashtab_map_of {K D} `{Countable K} (h : hashtab K D) : gmap K D := list_to_map (entries h).

Section theory.
Context {K D : Type} `{HashLaws K}.
Implicit Types (c b cur : list (K * D)) (h : hashtab K D) (k : K).

Lemma keycmp_self k : keycmp k k = 0.
Proof. by apply keycmp_zero. Qed.
Lemma key_before_irrefl k d1 d2 : ¬ key_before (k, d1) ((k, d2) : K * D).
Proof. unfold key_before; simpl. rewrite keycmp_self. lia. Qed.

Lemma sorted_keys_NoDup c : StronglySorted key_before c → NoDup c.*1.
Proof.
  induction c as [|[k d] c IH]; [constructor|]. rewrite StronglySorted_cons, Forall_forall.
  intros [Hall Hs]. rewrite fmap_cons. constructor; [|by apply IH].
  intros ([k' d']&Hk&Hin)%list_elem_of_fmap. simpl in Hk. subst k'.
  by apply (key_before_irrefl k d d'), Hall.
Qed.

Lemma entries_NoDup h : hashtab_ok h → NoDup (entries h).*1.
Proof.
  intros Hok. apply (NoDup_concat fst (hash_value (size h)) _ 0). intros i c Hi.
  split; [by eapply sorted_keys_NoDup, ok_sorted|]. intros kd Hkd. by eapply ok_hash.
Qed.

(** what the walk to a key finds in a sorted chain *)
Lemma chain_walk_spec k c :
  StronglySorted key_before c →
  let '(b, cur) := chain_walk k c in
  c = b ++ cur ∧ (∀ nd, nd ∈ b → 0 < keycmp k nd.1) ∧
  match at_key k cur with
  | Some nd => (∃ next, cur = nd :: next) ∧ nd.1 = k
  | None => (∀ nd, nd ∈ cur → 0 < keycmp nd.1 k) ∧ k ∉ c.*1
  end.
Proof.
  induction c as [|nd c IH]; intros Hs; cbn [chain_walk].
  { simpl. split_and!; try done; try apply not_elem_of_nil; by intros ? ?%elem_of_nil. }
  apply StronglySorted_cons in Hs as [Hall Hs]. rewrite Forall_forall in Hall.
  destruct (Z.ltb_spec 0 (keycmp k nd.1)) as [Hgt|Hle].
  - specialize (IH Hs). destruct (chain_walk k c) as [b cur]. destruct IH as (->&Hb&Hcur).
    split_and!; [done|by intros nd' [->|?]%elem_of_cons; [|apply Hb]|].
    destruct (at_key k cur); [done|]. destruct Hcur as [? Hn]. split; [done|].
    rewrite fmap_cons, elem_of_cons. intros [->|?]; [|done]. rewrite keycmp_self in Hgt. lia.
  - split_and!; [done|by intros ? ?%elem_of_nil|]. cbn [at_key].
    destruct (Z.eqb_spec (keycmp k nd.1) 0) as [Heq|Hne].
    + split; [by eexists|]. symmetry. by apply keycmp_zero.
    + assert (0 < keycmp nd.1 k) as Hlt by (apply keycmp_swap; lia).
      assert (∀ nd', nd' ∈ nd :: c → 0 < keycmp nd'.1 k) as Hafter.
      { intros nd' [->|Hin]%elem_of_cons; [done|]. eapply keycmp_trans; [by apply Hall|done]. }
      split; [done|]. intros (nd'&Hk&Hin)%list_elem_of_fmap. apply Hafter in Hin.
      rewrite Hk, keycmp_self in Hin. lia.
Qed.

Lemma sorted_insert_middle b cur k d :
  StronglySorted key_before (b ++ cur) → (∀ nd, nd ∈ b → 0 < keycmp k nd.1) →
  (∀ nd, nd ∈ cur → 0 < keycmp nd.1 k) → StronglySorted key_before (b ++ (k, d) :: cur).
Proof.
  rewrite !StronglySorted_app, StronglySorted_cons, Forall_forall. intros (Hbc&Hb&Hcur) Hlt Hgt.
  split_and!; try done. intros x y Hx [->|Hy]%elem_of_cons; [by apply Hlt|by apply Hbc].
Qed.

(** the slot of a key *)
Lemma slot_ok h k :
  hashtab_ok h → ∃ c, slot h (i32 (hash_value (size h) k)) = Some c ∧
    htable h !! Z.to_nat (i32 (hash_value (size h) k)) = Some c ∧
    Z.of_nat (Z.to_nat (i32 (hash_value (size h) k))) = hash_value (size h) k.
Proof.
  intros Hok. pose proof (ok_size _ Hok). pose proof (hash_value_range (size h) k ltac:(lia)).
  assert (i32 (hash_value (size h) k) = hash_value (size h) k) as ->.
  { unfold i32. rewrite wrap_id by lia. lia. }
  destruct (lookup_lt_is_Some_2 (htable h) (Z.to_nat (hash_value (size h) k))) as [c Hc].
  { apply Nat2Z.inj_lt. rewrite (ok_slots _ Hok). lia. }
  exists c. unfold slot. rewrite (proj2 (Z.ltb_ge _ _)) by lia. split_and!; [done..|lia].
Qed.

(** replacing the chain of a slot by one with the same hash *)
Lemma set_slot_ok h i c c' n :
  hashtab_ok h → htable h !! Z.to_nat i = Some c → StronglySorted key_before c' →
  (∀ kd, kd ∈ c' → hash_value (size h) kd.1 = Z.to_nat i) →
  hashtab_ok (set_slot h i c' n) ∧
  ∃ rest, entries h ≡ₚ c ++ rest ∧ entries (set_slot h i c' n) ≡ₚ c' ++ rest.
Proof.
  intros Hok Hc Hs Hh. split.
  - destruct Hok as [Hsz Hsl Hso Hha]. split; cbn [size htable set_slot].
    + done.
    + by rewrite length_insert.
    + intros j d. destruct (decide (Z.to_nat i = j)) as [<-|Hne].
      * rewrite list_lookup_insert_eq by (by eapply lookup_lt_Some). by intros [= <-].
      * rewrite list_lookup_insert_ne by done. apply Hso.
    + intros j d kd. destruct (decide (Z.to_nat i = j)) as [<-|Hne].
      * rewrite list_lookup_insert_eq by (by eapply lookup_lt_Some). intros [= <-]. apply Hh.
      * rewrite list_lookup_insert_ne by done. apply Hha.
  - destruct (concat_insert _ _ _ Hc) as (rest&H1&H2). exists rest. split; [done|apply H2].
Qed.

(** membership of a key is decided in its own chain *)
Lemma entries_in_slot h k c d :
  hashtab_ok h → htable h !! Z.to_nat (i32 (hash_value (size h) k)) = Some c →
  Z.of_nat (Z.to_nat (i32 (hash_value (size h) k))) = hash_value (size h) k →
  (k, d) ∈ entries h ↔ (k, d) ∈ c.
Proof.
  intros Hok Hc Hi. unfold entries. rewrite elem_of_concat. split; [|by eauto].
  intros (j&c'&Hj&Hin). pose proof (ok_hash _ Hok _ _ _ Hj Hin) as Hh. simpl in Hh.
  assert (j = Z.to_nat (i32 (hash_value (size h) k))) as -> by lia. by simplify_eq.
Qed.
End theory.

(** ** The operations refine those of a finite map *)

Section refinement.
Context {K D : Type} `{HashLaws K} `{Countable K}.
Implicit Types (c b cur : list (K * D)) (t : hashtab K D) (k : K).

Lemma map_of_lookup t k d :
  hashtab_ok t → hashtab_map_of t !! k = Some d ↔ (k, d) ∈ entries t.
Proof. intros Hok. symmetry. apply elem_of_list_to_map. by apply entries_NoDup. Qed.

Lemma map_of_perm t l : hashtab_ok t → entries t ≡ₚ l → hashtab_map_of t = list_to_map l.
Proof. intros Hok Hl. apply list_to_map_proper; [by apply entries_NoDup|done]. Qed.

(** the outcome of the walk in the slot of [k] *)
Lemma walk_in_table t k :
  hashtab_ok t → ∃ b cur,
    let i := i32 (hash_value (size t) k) in
    slot t i = Some (b ++ cur) ∧ htable t !! Z.to_nat i = Some (b ++ cur) ∧
    Z.of_nat (Z.to_nat i) = hash_value (size t) k ∧
    chain_walk k (b ++ cur) = (b, cur) ∧ StronglySorted key_before (b ++ cur) ∧
    (∀ nd, nd ∈ b → 0 < keycmp k nd.1) ∧
    match at_key k cur with
    | Some nd => (∃ next, cur = nd :: next) ∧ nd.1 = k ∧ hashtab_map_of t !! k = Some nd.2
    | None => (∀ nd, nd ∈ cur → 0 < keycmp nd.1 k) ∧ hashtab_map_of t !! k = None
    end.
Proof.
  intros Hok. destruct (slot_ok t k Hok) as (c&Hs&Hc&Hi).
  pose proof (ok_sorted _ Hok _ _ Hc) as Hsort. pose proof (chain_walk_spec k c Hsort) as Hw.
  destruct (chain_walk k c) as [b cur] eqn:Ew. destruct Hw as (->&Hb&Hcur). exists b, cur.
  split_and!; try done. destruct (at_key k cur) as [nd|].
  - destruct Hcur as [[next ->] <-]. split_and!; [by eexists|done|].
    apply map_of_lookup; [done|]. rewrite <- surjective_pairing. apply elem_of_concat. do 2 eexists.
    split; [done|]. apply elem_of_app. right. by left.
  - destruct Hcur as [Hgt Hn]. split; [done|].
    destruct (hashtab_map_of t !! k) as [d|] eqn:E; [|done]. exfalso. apply Hn.
    apply map_of_lookup, (entries_in_slot _ _ _ _ Hok Hc Hi) in E; [|done].
    apply list_elem_of_fmap. by exists (k, d).
Qed.

Lemma hashtab_search_wp t k h :
  hashtab_ok t → wp (hashtab_search (Some t) k) (λ r h', r = hashtab_map_of t !! k ∧ h' = h) h.
Proof.
  intros Hok. destruct (walk_in_table t k Hok) as (b&cur&Hs&_&_&Hw&_&_&Hat).
  unfold hashtab_search. eapply wp_bind, wp_deref; [done|]. apply wp_ret. rewrite Hw. simpl.
  destruct (at_key k cur) as [nd|]; [|by destruct Hat as [_ ->]]. by destruct Hat as (_&_&->).
Qed.

Lemma set_slot_insert t k d b cur n :
  hashtab_ok t →
  let i := i32 (hash_value (size t) k) in
  htable t !! Z.to_nat i = Some (b ++ cur) → Z.of_nat (Z.to_nat i) = hash_value (size t) k →
  StronglySorted key_before (b ++ cur) → (∀ nd, nd ∈ b → 0 < keycmp k nd.1) →
  (∀ nd, nd ∈ cur → 0 < keycmp nd.1 k) →
  let t' := set_slot t i (b ++ (k, d) :: cur) n in
  hashtab_ok t' ∧ entries t' ≡ₚ (k, d) :: entries t ∧ hashtab_map_of t' = <[k := d]> (hashtab_map_of t).
Proof.
  intros Hok i Hc Hi Hs Hb Hcur t'.
  destruct (set_slot_ok t i _ (b ++ (k, d) :: cur) n Hok Hc) as (Hok'&rest&He&He').
  - by apply sorted_insert_middle.
  - intros kd. rewrite elem_of_app, elem_of_cons. intros Hin.
    assert (kd = (k, d) ∨ kd ∈ b ++ cur) as [->|Hin'] by (rewrite elem_of_app; tauto); [done|].
    by eapply ok_hash.
  - assert (entries t' ≡ₚ (k, d) :: entries t) as Hp.
    { unfold t'. rewrite He', He. apply perm_middle. }
    split_and!; [done..|]. unfold hashtab_map_of at 2. by rewrite (map_of_perm t' _ Hok' Hp).
Qed.

(** [hashtab_insert] in terms of the finite map *)
Lemma hashtab_insert_wp t k d h :
  hashtab_ok t →
  wp (hashtab_insert (Some t) k d) (λ '(rc, t') h',
    mem_step h h' (rc ≠ SEPOL_ENOMEM) ∧
    match hashtab_map_of t !! k with
    | Some _ => rc = SEPOL_EEXIST ∧ t' = Some t
    | None => (∃ t1, rc = SEPOL_OK ∧ t' = Some t1 ∧ hashtab_ok t1 ∧ nel t1 = u32 (nel t + 1) ∧
                 entries t1 ≡ₚ (k, d) :: entries t ∧ hashtab_map_of t1 = <[k := d]> (hashtab_map_of t))
              ∨ rc = SEPOL_ENOMEM ∧ t' = Some t
    end) h.
Proof.
  intros Hok. destruct (walk_in_table t k Hok) as (b&cur&Hs&Hc&Hi&Hw&Hsort&Hb&Hat).
  unfold hashtab_insert. eapply wp_bind, wp_deref; [done|]. rewrite Hw.
  destruct (at_key k cur) as [nd|].
  - destruct Hat as (_&_&->). apply wp_ret. split; [|done]. by apply mem_step_refl.
  - destruct Hat as [Hcur ->]. wp_malloc a h' Hm; apply wp_ret; (split; [mem|]); [left|by right].
    destruct (set_slot_insert t k d b cur (u32 (nel t + 1)) Hok Hc Hi Hsort Hb Hcur) as (?&?&?).
    eexists. by split_and!.
Qed.

Lemma hashtab_remove_wp t k h :
  hashtab_ok t →
  wp (hashtab_remove (Some t) k) (λ '(rc, t', destroyed) h', h' = h ∧
    match hashtab_map_of t !! k with
    | None => rc = SEPOL_ENOENT ∧ t' = Some t ∧ destroyed = None
    | Some d => rc = SEPOL_OK ∧ destroyed = Some (k, d) ∧
        ∃ t1, t' = Some t1 ∧ hashtab_ok t1 ∧ nel t1 = u32 (nel t - 1) ∧
          entries t ≡ₚ (k, d) :: entries t1 ∧ hashtab_map_of t1 = delete k (hashtab_map_of t)
    end) h.
Proof.
  intros Hok. destruct (walk_in_table t k Hok) as (b&cur&Hs&Hc&Hi&Hw&Hsort&Hb&Hat).
  unfold hashtab_remove. eapply wp_bind, wp_deref; [done|]. rewrite Hw.
  destruct (at_key k cur) as [[k' d]|]; [|by destruct Hat as [_ ->]].
  destruct Hat as ([next ->]&Hk&->). simpl in Hk; subst k'. apply wp_ret. cbn [tail].
  split_and!; try done.
  destruct (set_slot_ok t _ _ (b ++ next) (u32 (nel t - 1)) Hok Hc) as (Hok'&rest&He&He').
  - apply StronglySorted_app in Hsort as (Hbc&?&[_ ?]%StronglySorted_cons). apply StronglySorted_app.
    split_and!; try done. intros ????. apply Hbc; [done|by right].
  - intros kd Hin. rewrite Hi. eapply ok_hash in Hc as ->; [done..|]. revert Hin. set_solver.
  - eexists. split_and!; [done..| |].
    + rewrite He, He'. apply perm_middle.
    + pose proof (entries_NoDup t Hok) as Hnd. set (t1 := set_slot _ _ _ _) in *.
      assert (entries t ≡ₚ (k, d) :: entries t1) as Hp.
      { rewrite He, He'. apply perm_middle. }
      rewrite Hp in Hnd. apply NoDup_cons in Hnd as [Hnk _].
      rewrite (map_of_perm t _ Hok Hp). rewrite list_to_map_cons. unfold hashtab_map_of.
      rewrite delete_insert_id; [done|]. by apply not_elem_of_list_to_map_1.
Qed.

(** [hashtab_replace] updates the map but never the element count *)
Lemma hashtab_replace_wp t k d h :
  hashtab_ok t →
  wp (hashtab_replace (Some t) k d) (λ '(rc, t', destroyed) h',
    mem_step h h' (rc = SEPOL_OK) ∧
    ((∃ t1, rc = SEPOL_OK ∧ t' = Some t1 ∧ hashtab_ok t1 ∧ nel t1 = nel t ∧
        destroyed = pair k <$> hashtab_map_of t !! k ∧ hashtab_map_of t1 = <[k := d]> (hashtab_map_of t))
     ∨ hashtab_map_of t !! k = None ∧ rc = SEPOL_ENOMEM ∧ t' = Some t ∧ destroyed = None)) h.
Proof.
  intros Hok. destruct (walk_in_table t k Hok) as (b&cur&Hs&Hc&Hi&Hw&Hsort&Hb&Hat).
  unfold hashtab_replace. eapply wp_bind, wp_deref; [done|]. rewrite Hw.
  destruct (at_key k cur) as [[k' d']|].
  - destruct Hat as ([next ->]&Hk&Hl). simpl in Hk; subst k'. rewrite Hl. apply wp_ret. cbn [tail].
    split; [by apply mem_step_refl|left].
    destruct (set_slot_ok t _ _ (b ++ (k, d) :: next) (nel t) Hok Hc) as (Hok'&rest&He&He').
    + apply StronglySorted_app in Hsort as (Hbc&?&[Hh Hn]%StronglySorted_cons). apply sorted_insert_middle.
      * apply StronglySorted_app. split_and!; try done. intros ????. apply Hbc; [done|by right].
      * done.
      * rewrite Forall_forall in Hh. intros nd Hnd. apply (Hh nd Hnd).
    + intros kd Hin. rewrite Hi. rewrite elem_of_app, elem_of_cons in Hin.
      assert (kd = (k, d) ∨ kd ∈ b ++ (k, d') :: next) as [->|Hin'] by set_solver; [done|].
      rewrite <- Hi. by eapply ok_hash.
    + eexists. split_and!; [done..|]. set (t1 := set_slot _ _ _ _) in *.
      assert (entries t ≡ₚ (k, d') :: (b ++ next) ++ rest) as Hp.
      { rewrite He. apply perm_middle. }
      assert (entries t1 ≡ₚ (k, d) :: (b ++ next) ++ rest) as Hp1.
      { rewrite He'. apply perm_middle. }
      rewrite (map_of_perm t _ Hok Hp), (map_of_perm t1 _ Hok' Hp1). rewrite !list_to_map_cons.
      by rewrite insert_insert_eq.
  - destruct Hat as [Hcur Hl]. wp_malloc a h' Hm; apply wp_ret; (split; [mem|]); [left|by right].
    destruct (set_slot_insert t k d b cur (nel t) Hok Hc Hi Hsort Hb Hcur) as (?&?&?).
    eexists. rewrite Hl. by split_and!.
Qed.
End refinement.

(** ** Calling a function on the entries *)

(** the map a table stands for, the empty one when there is no table *)
Definition table_map {K D} `{Countable K} (t : option (hashtab K D)) : gmap K D :=
  match t with Some t => hashtab_map_of t | None => ∅ end.
Definition table_ok {K D} `{HashOps K} (t : option (hashtab K D)) : Prop :=
  match t with Some t => hashtab_ok t | None => True end.
Definition table_entries {K D} (t : option (hashtab K D)) : list (K * D) :=
  match t with Some t => entries t | None => [] end.

Section map_theory.
Context {K D : Type} `{HashLaws K} `{Countable K}.

Lemma table_search_wp (t : option (hashtab K D)) k h :
  table_ok t → wp (hashtab_search t k) (λ r h', r = table_map t !! k ∧ h' = h) h.
Proof. destruct t as [t|]; [apply hashtab_search_wp|]. intros _. apply wp_ret. split; [symmetry; apply lookup_empty|done]. Qed.
Lemma table_map_lookup (t : option (hashtab K D)) k d :
  table_ok t → table_map t !! k = Some d ↔ (k, d) ∈ table_entries t.
Proof. destruct t as [t|]; cbn; [apply map_of_lookup|]. rewrite lookup_empty, elem_of_nil. done. Qed.

Lemma hashtab_map_wp {A} (t : option (hashtab K D)) (apply : K → D → A → CM (Z * A))
    (Inv : list (K * D) → A → heap → Prop) (Q : Z * A → heap → Prop) args h :
  Inv [] args h →
  (∀ k d l1 l2 args h, table_entries t = l1 ++ (k, d) :: l2 → Inv l1 args h →
    wp (apply k d args) (λ '(ret, args') h', if truth ret then Q (ret, args') h' else Inv (l1 ++ [(k, d)]) args' h') h) →
  (∀ args h, Inv (table_entries t) args h → Q (SEPOL_OK, args) h) →
  wp (hashtab_map t apply args) Q h.
Proof.
  intros HI Hb HQ. unfold hashtab_map. destruct t as [t|]; [|by apply wp_ret, HQ].
  apply wp_bind, (wp_for_list_prefix Inv); [done| |intros; by apply wp_ret, HQ].
  intros [k d] l1 l2 s h1 Hl Hl1. apply wp_bind. eapply wp_mono; [by eapply Hb|]. intros [ret args'] h2 Hr.
  apply wp_ret. destruct (truth ret); [by apply wp_ret|done].
Qed.

(** a callback that tests each entry: the answer is 0 when all pass *)
Lemma hashtab_map_all (t : option (hashtab K D)) (test : K → D → CM Z) (P : K → D → Prop) h :
  table_ok t →
  (∀ k d h, table_map t !! k = Some d → wp (test k d) (λ r h', h' = h ∧ (r = 0 ↔ P k d)) h) →
  wp (hashtab_map t (λ k d (_ : unit), r ← test k d; mret (r, ())) ()) (λ '(rc, _) h', h' = h ∧
    (rc = 0 ↔ map_Forall P (table_map t))) h.
Proof.
  intros Hok Ht. apply (hashtab_map_wp _ _ (λ l _ h', h' = h ∧ ∀ k d, (k, d) ∈ l → P k d)).
  - split; [done|]. intros k d Hin. by apply elem_of_nil in Hin.
  - intros k d l1 l2 [] h1 Hl [-> Hall].
    assert (Hk : table_map t !! k = Some d) by (apply table_map_lookup; [done|]; rewrite Hl; set_solver).
    apply wp_bind. eapply wp_mono; [by apply Ht|]. intros r h2 [-> Hr]. apply wp_ret. destruct (truth r) eqn:Et.
    + apply truth_true in Et. split; [done|]. split; [done|]. intros HP. by destruct Et; apply Hr, (HP k d).
    + apply truth_false in Et. split; [done|]. intros k' d' [Hin|[= -> ->]%list_elem_of_singleton]%elem_of_app; [by apply Hall|].
      by apply Hr.
  - intros [] h1 [-> Hall]. split; [done|]. split; [|done]. intros _ k d Hk. apply Hall. by apply table_map_lookup.
Qed.
End map_theory.

(** ** Dropping the entries a callback rejects *)

Section remove_on_error.
Context {K D : Type} `{HashLaws K} `{Countable K}.
(** the callback's verdict on an entry; the caller's state logs what was
    destroyed *)
Variable verdict : K → D → Z.

Abbreviation rejected := (λ kd : K * D, truth (verdict kd.1 kd.2)).
Let apply k d (log : list (K * D)) : CM (Z * list (K * D)) := mret (verdict k d, log).
Let destroy k d (log : list (K * D)) : list (K * D) := log ++ [(k, d)].

Lemma remove_chain_eq c n log h :
  remove_on_error_chain apply destroy c (u32 n) log h =
    Some ((filter (λ kd, rejected kd = false) c,
           u32 (n - length (filter (λ kd, rejected kd = true) c)),
           log ++ filter (λ kd, rejected kd = true) c), h).
Proof.
  revert n log h. induction c as [|[k d] c IH]; intros n log h.
  { simpl. by rewrite Z.sub_0_r, app_nil_r. }
  cbn [remove_on_error_chain]. unfold mbind, CM_bind, apply at 1, mret, CM_ret. cbn [fst snd].
  rewrite !filter_cons. cbn [fst snd]. destruct (truth (verdict k d)) eqn:E; repeat case_decide; try done.
  - rewrite u32_sub_u32, IH. unfold destroy. rewrite <- app_assoc. cbn [length app]. set (m := length _).
    by replace (n - 1 - m) with (n - S m) by lia.
  - by rewrite IH.
Qed.

Lemma remove_slots_eq slots n log h :
  remove_on_error_slots apply destroy slots (u32 n) log h =
    Some ((filter (λ kd, rejected kd = false) <$> slots,
           u32 (n - length (filter (λ kd, rejected kd = true) (concat slots))),
           log ++ filter (λ kd, rejected kd = true) (concat slots)), h).
Proof.
  revert n log h. induction slots as [|c slots IH]; intros n log h.
  { simpl. by rewrite Z.sub_0_r, app_nil_r. }
  cbn [remove_on_error_slots]. unfold mbind, CM_bind. rewrite remove_chain_eq, IH. unfold mret, CM_ret.
  cbn [concat]. rewrite filter_app, length_app, <- app_assoc.
  set (m := length _). set (m' := length _). by replace (n - (m + m')%nat) with (n - m - m') by lia.
Qed.

Lemma StronglySorted_filter {A} (R : A → A → Prop) (P : A → Prop) `{∀ x, Decision (P x)} (l : list A) :
  StronglySorted R l → StronglySorted R (filter P l).
Proof.
  induction l as [|x l IH]; [done|]. rewrite StronglySorted_cons, filter_cons. intros [Hx Hl].
  case_decide; [|by apply IH]. apply StronglySorted_cons. split; [|by apply IH].
  rewrite Forall_forall in *. intros y [_ Hy]%list_elem_of_filter. by apply Hx.
Qed.

Lemma remove_on_error_run t h :
  hashtab_wf t → ∃ t',
    hashtab_map_remove_on_error (Some t) apply destroy [] h
      = Some ((Some t', filter (λ kd, rejected kd = true) (entries t)), h) ∧
    hashtab_wf t' ∧
    hashtab_map_of t' = filter (λ kd, rejected kd = false) (hashtab_map_of t).
Proof.
  intros [Hok Hn]. unfold hashtab_map_remove_on_error, mbind, CM_bind.
  rewrite Hn, remove_slots_eq. eexists. split; [done|].
  set (t' := Hashtab _ _ _). assert (entries t' = filter (λ kd, rejected kd = false) (entries t)) as He
    by apply filter_concat.
  assert (hashtab_ok t') as Hok'.
  { destruct Hok as [Hsz Hsl Hso Hha]. split; cbn [size htable t'].
    - done.
    - by rewrite length_fmap.
    - intros i c (c0&->&Hc)%list_lookup_fmap_Some. apply StronglySorted_filter. by eapply Hso.
    - intros i c kd (c0&->&Hc)%list_lookup_fmap_Some [_ Hin]%list_elem_of_filter. by eapply Hha. }
  split; [split; [done|]|].
  - cbn [nel t']. rewrite He. f_equal. unfold entries. pose proof (filter_split_length rejected (concat (htable t))). lia.
  - apply map_eq. intros k. apply option_eq. intros d. rewrite (map_of_lookup t' k d Hok'), He.
    rewrite list_elem_of_filter, map_lookup_filter_Some, (map_of_lookup t k d Hok). naive_solver.
Qed.
End remove_on_error.

(** ** Properties *)

(** C19: a table is a finite map.  On a well-formed table [hashtab_search]
    returns the datum of the key, [hashtab_insert] adds a binding or answers
    [SEPOL_EEXIST] and changes nothing, [hashtab_remove] deletes the binding
    and hands it to [destroy] or answers [SEPOL_ENOENT]; each keeps the table
    well-formed (chains sorted, keys in their slot, exact element count), none
    has undefined behaviour, and only a failed allocation makes an insertion of
    a new key fail, leaving the table as it was. *)
Theorem hashtab_refines_map {K D : Type} `{HashLaws K} `{Countable K} (t : hashtab K D) k d h :
  hashtab_wf t →
  wp (hashtab_search (Some t) k) (λ r h', r = hashtab_map_of t !! k ∧ h' = h) h ∧
  wp (hashtab_insert (Some t) k d) (λ '(rc, t') h',
    match hashtab_map_of t !! k with
    | Some _ => rc = SEPOL_EEXIST ∧ t' = Some t
    | None => (∃ t1, rc = SEPOL_OK ∧ t' = Some t1 ∧ hashtab_wf t1 ∧
                     hashtab_map_of t1 = <[k := d]> (hashtab_map_of t))
              ∨ ¬ mem_ok h ∧ rc = SEPOL_ENOMEM ∧ t' = Some t
    end) h ∧
  wp (hashtab_remove (Some t) k) (λ '(rc, t', destroyed) h',
    match hashtab_map_of t !! k with
    | None => rc = SEPOL_ENOENT ∧ t' = Some t ∧ destroyed = None
    | Some d => rc = SEPOL_OK ∧ destroyed = Some (k, d) ∧
        ∃ t1, t' = Some t1 ∧ hashtab_wf t1 ∧ hashtab_map_of t1 = delete k (hashtab_map_of t)
    end) h.
Proof.
  intros [Hok Hn]. split_and!.
  - by apply hashtab_search_wp.
  - eapply wp_mono; [by apply hashtab_insert_wp|]. intros [rc t'] h' [Hm Hres].
    destruct (hashtab_map_of t !! k); [done|].
    destruct Hres as [(t1&->&->&Hok1&Hn1&Hp&Hmap)|[-> ->]]; [left|right].
    + exists t1. split_and!; try done. split; [done|]. by rewrite Hn1, Hn, Hp, u32_add_u32, length_cons, Nat2Z.inj_succ.
    + split_and!; try done. intros Ho. by destruct (Hm Ho).
  - eapply wp_mono; [by apply hashtab_remove_wp|]. intros [[rc t'] destroyed] h' [_ Hres].
    destruct (hashtab_map_of t !! k) as [d'|]; [|done].
    destruct Hres as (->&->&t1&->&Hok1&Hn1&Hp&Hmap). split_and!; try done. exists t1. split_and!; try done.
    split; [done|]. rewrite Hn1, Hn, Hp, u32_sub_u32, length_cons. f_equal. lia.
Qed.

(** [hashtab_replace] binds the key whether or not it was bound, but when it
    adds a node it leaves the element count behind: the table it returns is not
    well-formed any more (its count is one too small). *)
Theorem hashtab_replace_loses_count {K D : Type} `{HashLaws K} `{Countable K} (t : hashtab K D) k d h :
  hashtab_wf t → mem_ok h → length (entries t) < 2 ^ 32 - 1 →
  wp (hashtab_replace (Some t) k d) (λ '(rc, t', destroyed) h',
    rc = SEPOL_OK ∧ destroyed = pair k <$> hashtab_map_of t !! k ∧
    ∃ t1, t' = Some t1 ∧ hashtab_ok t1 ∧ hashtab_map_of t1 = <[k := d]> (hashtab_map_of t) ∧
      (hashtab_wf t1 ↔ is_Some (hashtab_map_of t !! k))) h.
Proof.
  intros [Hok Hn] Hmem Hlen. eapply wp_mono; [by apply hashtab_replace_wp|].
  intros [[rc t'] destroyed] h' [Hm [(t1&->&->&Hok1&Hn1&->&Hmap)|(_&->&_)]]; [|by destruct (Hm Hmem)].
  split_and!; try done. exists t1. split_and!; try done.
  assert (∀ s : hashtab K D, hashtab_ok s → length (entries s) = base.size (hashtab_map_of s)) as Hsize.
  { intros s Hs. unfold hashtab_map_of. rewrite map_size_list_to_map by by apply entries_NoDup. done. }
  pose proof (Hsize t Hok) as Ht. pose proof (Hsize t1 Hok1) as Ht1. rewrite Hmap in Ht1.
  unfold hashtab_wf. rewrite Hn1, Hn. split.
  - intros [_ Heq]. destruct (hashtab_map_of t !! k) eqn:E; [done|exfalso].
    rewrite map_size_insert_None in Ht1 by done. unfold u32 in Heq. rewrite !wrap_id in Heq by lia. lia.
  - intros [d' Hd]. split; [done|]. rewrite map_size_insert_Some in Ht1 by done. do 2 f_equal. lia.
Qed.

(** [hashtab_map_remove_on_error] with a callback that judges entries
    keeps exactly the entries it accepts (answer 0), in a well-formed table
    with the right count, and calls [destroy] on the others, once each. *)
Theorem hashtab_map_remove_on_error_filters {K D : Type} `{HashLaws K} `{Countable K}
    (verdict : K → D → Z) (t : hashtab K D) h :
  hashtab_wf t → ∃ t',
    hashtab_map_remove_on_error (Some t) (λ k d log, mret (M := CM) (verdict k d, log))
        (λ k d log, log ++ [(k, d)]) [] h
      = Some ((Some t', filter (λ kd, truth (verdict kd.1 kd.2) = true) (entries t)), h) ∧
    hashtab_wf t' ∧
    hashtab_map_of t' = filter (λ kd, truth (verdict kd.1 kd.2) = false) (hashtab_map_of t).
Proof. apply remove_on_error_run. Qed.
