(* ===== verification/Symtab.v ===== *)
(** * Symbol tables ([symtab.c], [symtab.h])

    Hash tables keyed by C strings; the hash and the comparison implement the
    interface of [Hashtab].  A [char *] is the string before its terminator. *)

From S2P Require Import Prelude Hashtab.
From Stdlib Require Import Ascii.

Section operations.
Context `{Target}.

(** the value of a [char] of the string as an [unsigned int] operand *)
Definition char_val (c : ascii) : Z :=
  let n := Z.of_N (N_of_ascii c) in
  if char_is_signed && (128 <=? n) then u32 (n - 256) else n.

(** one step of the loop of [symhash] *)
Definition symhash_step (val : Z) (c : ascii) : Z :=
  Z.lxor (Z.lor (u32 (Z.shiftl val 4)) (Z.shiftr val (8 * 4 - 4))) (char_val c).
Fixpoint symhash_loop (p : string) (val : Z) : Z :=
  match p with
  | EmptyString => val
  | String c p => symhash_loop p (symhash_step val c)
  end.
Definition symhash (sz : Z) (key : string) : Z := Z.land (symhash_loop key 0) (u32 (sz - 1)).

(** [strcmp] of the C library: the sign of the first difference, as
    [unsigned char] *)
Fixpoint strcmp (s1 s2 : string) : Z :=
  match s1, s2 with
  | EmptyString, EmptyString => 0
  | EmptyString, String _ _ => -1
  | String _ _, EmptyString => 1
  | String a s1, String b s2 =>
      match (N_of_ascii a ?= N_of_ascii b)%N with
      | Lt => -1
      | Gt => 1
      | Eq => strcmp s1 s2
      end
  end.
Definition symcmp (key1 key2 : string) : Z := strcmp key1 key2.

#[export] Instance string_hash_ops : HashOps string :=
  { hash_value := symhash; keycmp := symcmp }.
End operations.

Record symtab (D : Type) := Symtab { table : option (hashtab string D); nprim : Z }.
Arguments Symtab {D}.
Arguments table {D}.
Arguments nprim {D}.

Section symtab_operations.
Context `{Target} {D : Type}.

(** the code and the initialised table; on failure [nprim] is not written *)
Definition symtab_init (s : symtab D) (sz : Z) : CM (Z * symtab D) :=
  t ← hashtab_create sz;
  match t with
  | None => mret (-1, Symtab None (nprim s))
  | Some _ => mret (0, Symtab t 0)
  end.

Definition symtab_destroy (s : option (symtab D)) : option (symtab D) :=
  match s with
  | None => None
  | Some s => Some (Symtab (match table s with Some t => hashtab_destroy (Some t) | None => None end) (nprim s))
  end.
End symtab_operations.

(** ** The laws of the interface *)

Section laws.
Context `{Target}.

Lemma symhash_step_range val c : 0 ≤ val < 2 ^ 32 → 0 ≤ symhash_step val c < 2 ^ 32.
Proof.
  intros Hv. assert (0 ≤ char_val c < 2 ^ 32) as Hc.
  { unfold char_val. pose proof (N_ascii_bounded c). destruct (_ && _); [apply u32_range|]. lia. }
  unfold symhash_step. change (8 * 4 - 4) with 28. assert (0 ≤ Z.lor (u32 (Z.shiftl val 4)) (Z.shiftr val 28) < 2 ^ 32) as Hl.
  { apply lor_range; [lia|apply u32_range|]. rewrite Z.shiftr_div_pow2 by lia.
    split; [apply Z.div_pos; lia|]. apply Z.div_lt_upper_bound; lia. }
  split; [apply Z.lxor_nonneg; lia|]. apply range_of_bits; [lia|apply Z.lxor_nonneg; lia|].
  intros j Hj. by rewrite Z.lxor_spec, !(testbit_high 32) by lia.
Qed.

Lemma symhash_loop_range p val : 0 ≤ val < 2 ^ 32 → 0 ≤ symhash_loop p val < 2 ^ 32.
Proof.
  revert val. induction p as [|c p IH]; intros val Hv; [done|]. simpl. apply IH. by apply symhash_step_range.
Qed.

Lemma symhash_range sz k : 0 < sz < 2 ^ 32 → 0 ≤ symhash sz k < sz.
Proof.
  intros. unfold symhash. pose proof (symhash_loop_range k 0 ltac:(lia)).
  unfold u32. rewrite wrap_id by lia. pose proof (land_le_r (symhash_loop k 0) (sz - 1)).
  split; [apply Z.land_nonneg; lia|lia].
Qed.

Lemma strcmp_zero a b : strcmp a b = 0 ↔ a = b.
Proof.
  revert b. induction a as [|x a IH]; intros [|y b]; simpl; try done.
  destruct (N.compare_spec (N_of_ascii x) (N_of_ascii y)) as [He|?|?].
  - rewrite IH. apply (f_equal ascii_of_N) in He. rewrite !ascii_N_embedding in He. naive_solver.
  - split; [done|]. intros [= -> ->]. lia.
  - split; [done|]. intros [= -> ->]. lia.
Qed.

Lemma strcmp_swap a b : strcmp b a = - strcmp a b.
Proof.
  revert b. induction a as [|x a IH]; intros [|y b]; simpl; try done.
  rewrite (N.compare_antisym (N_of_ascii x) (N_of_ascii y)). destruct (_ ?= _)%N; simpl; [apply IH|done..].
Qed.

Lemma strcmp_trans a b c : 0 < strcmp a b → 0 < strcmp b c → 0 < strcmp a c.
Proof.
  revert b c. induction a as [|x a IH]; intros [|y b] [|z c]; simpl; try done.
  destruct (N.compare_spec (N_of_ascii x) (N_of_ascii y)) as [Hxy|?|?]; try lia;
    destruct (N.compare_spec (N_of_ascii y) (N_of_ascii z)) as [Hyz|?|?]; try lia; intros;
    destruct (N.compare_spec (N_of_ascii x) (N_of_ascii z)) as [?|?|?]; try lia. eauto.
Qed.

#[export] Instance string_hash_laws : HashLaws string.
Proof.
  split.
  - apply symhash_range.
  - apply strcmp_zero.
  - intros a b. change (0 < strcmp a b ↔ strcmp b a < 0). rewrite (strcmp_swap a b). lia.
  - apply strcmp_trans.
Qed.
End laws.

(** ** Properties *)

Lemma hashtab_empty_wf {K D : Type} `{HashLaws K} sz :
  0 < sz < 2 ^ 31 → hashtab_wf (Hashtab (replicate (Z.to_nat sz) ([] : list (K * D))) sz 0).
Proof.
  intros Hsz. split; [split; cbn [Hashtab.size htable]|].
  - done.
  - rewrite length_replicate. lia.
  - intros i c [-> _]%lookup_replicate. constructor.
  - intros i c kd [-> _]%lookup_replicate Hin. by apply elem_of_nil in Hin.
  - cbn [nel]. unfold entries. simpl. generalize (Z.to_nat sz) as n. intros n. by induction n.
Qed.
Lemma hashtab_empty_map {K D : Type} `{HashOps K} `{Countable K} n sz :
  hashtab_map_of (Hashtab (replicate n ([] : list (K * D))) sz 0) = ∅.
Proof. unfold hashtab_map_of, entries. simpl. by induction n. Qed.

(** [symtab_init] with a size between 1 and 2^31 - 1 yields a well-formed
    empty table keyed by strings (its hash stays inside the slots whatever the
    sign of [char], its comparison is a strict total order) and resets the
    count of primary names, or fails with -1 for want of memory. *)
Theorem symtab_init_empty `{Target} {D : Type} (s : symtab D) sz h :
  0 < sz < 2 ^ 31 →
  wp (symtab_init s sz) (λ '(rc, s') h', (mem_ok h → rc = 0) ∧
    (rc = 0 ∧ nprim s' = 0 ∧ (∃ t, table s' = Some t ∧ hashtab_wf t ∧ hashtab_map_of t = ∅)
     ∨ rc = -1 ∧ table s' = None)) h.
Proof.
  intros Hsz. unfold symtab_init, hashtab_create. apply wp_bind.
  wp_malloc a h1 Hm1; [|apply wp_ret, wp_ret; split; [intros Ho; by destruct (Hm1 Ho)|by right]].
  wp_malloc b h2 Hm2; [|apply wp_ret, wp_ret; split; [|by right]].
  - apply wp_ret, wp_ret. split; [done|left]. split_and!; [done..|]. eexists.
    split_and!; [done|by apply hashtab_empty_wf|apply hashtab_empty_map].
  - intros Ho. destruct (Hm1 Ho) as [Ho1 _]. by destruct (Hm2 Ho1).
Qed.

(** a table of one slot, sorted by name *)
Lemma one_slot_ok `{Target} {D : Type} (c : list (string * D)) n :
  StronglySorted key_before c → hashtab_ok (Hashtab [c] 1 n).
Proof.
  intros Hc. split; cbn [Hashtab.size htable]; [lia|done| |].
  - intros [|i] c' Hi; by simplify_eq/=.
  - intros [|i] c' kd Hi _; simplify_eq/=. unfold symhash. by rewrite Z.land_0_r.
Qed.

(** a table of two slots with two names *)
Definition example_table : hashtab string Z :=
  Hashtab [[("b"%string, 2)]; [("a"%string, 1)]] 2 2.
Lemma example_table_wf `{Target} : hashtab_wf example_table.
Proof.
  split; [split; cbn [Hashtab.size htable example_table]|done].
  - lia.
  - done.
  - intros [|[|i]] c Hc; simplify_eq/=; repeat constructor.
  - intros [|[|i]] c kd Hc Hin; simplify_eq/=; apply list_elem_of_singleton in Hin as ->; simpl;
      unfold symhash, symhash_loop, symhash_step, char_val; by destruct char_is_signed.
Qed.

(** it applies *)
Lemma symtab_init_empty_witness :
  wp (symtab_init (D := Z) (Symtab None 7) 16) (λ '(rc, s') h', (mem_ok fresh_heap → rc = 0) ∧
    (rc = 0 ∧ nprim s' = 0 ∧ (∃ t, table s' = Some t ∧ @hashtab_wf string Z (@string_hash_ops target_arm) t
       ∧ hashtab_map_of t = ∅) ∨ rc = -1 ∧ table s' = None)) fresh_heap.
Proof. apply (@symtab_init_empty target_arm Z (Symtab None 7) 16 fresh_heap). lia. Defined.

(** witness of C19: looking up, adding and removing in a table of two names *)
Lemma hashtab_refines_map_witness :
  let t := example_table in let ops := @string_hash_ops target_arm in
  wp (hashtab_search (Some t) "a"%string) (λ r h', r = hashtab_map_of t !! "a"%string ∧ h' = fresh_heap) fresh_heap ∧
  wp (hashtab_insert (Some t) "a"%string 5) (λ '(rc, t') h',
    match hashtab_map_of t !! "a"%string with
    | Some _ => rc = SEPOL_EEXIST ∧ t' = Some t
    | None => (∃ t1, rc = SEPOL_OK ∧ t' = Some t1 ∧ hashtab_wf t1 ∧
                     hashtab_map_of t1 = <["a"%string := 5]> (hashtab_map_of t))
              ∨ ¬ mem_ok fresh_heap ∧ rc = SEPOL_ENOMEM ∧ t' = Some t
    end) fresh_heap ∧
  wp (hashtab_remove (Some t) "a"%string) (λ '(rc, t', destroyed) h',
    match hashtab_map_of t !! "a"%string with
    | None => rc = SEPOL_ENOENT ∧ t' = Some t ∧ destroyed = None
    | Some d => rc = SEPOL_OK ∧ destroyed = Some ("a"%string, d) ∧
        ∃ t1, t' = Some t1 ∧ hashtab_wf t1 ∧ hashtab_map_of t1 = delete "a"%string (hashtab_map_of t)
    end) fresh_heap.
Proof.
  apply (hashtab_refines_map (H := @string_hash_ops target_arm) example_table "a"%string 5 fresh_heap).
  apply (@example_table_wf target_arm).
Defined.

(** witness of [hashtab_replace_loses_count]: a third name gets in, the count stays 2 *)
Lemma hashtab_replace_loses_count_witness :
  let t := example_table in let ops := @string_hash_ops target_arm in
  wp (hashtab_replace (Some t) "c"%string 3) (λ '(rc, t', destroyed) h',
    rc = SEPOL_OK ∧ destroyed = pair "c"%string <$> hashtab_map_of t !! "c"%string ∧
    ∃ t1, t' = Some t1 ∧ hashtab_ok t1 ∧ hashtab_map_of t1 = <["c"%string := 3]> (hashtab_map_of t) ∧
      (hashtab_wf t1 ↔ is_Some (hashtab_map_of t !! "c"%string))) fresh_heap.
Proof.
  apply (hashtab_replace_loses_count (H := @string_hash_ops target_arm) example_table "c"%string 3 fresh_heap).
  - apply (@example_table_wf target_arm).
  - constructor.
  - vm_compute. reflexivity.
Defined.

(** witness of [hashtab_map_remove_on_error_filters]: dropping the name "b" *)
Lemma hashtab_map_remove_on_error_filters_witness :
  let t := example_table in let ops := @string_hash_ops target_arm in
  let verdict := λ (k : string) (d : Z), if d =? 2 then -1 else 0 in ∃ t',
    hashtab_map_remove_on_error (Some t) (λ k d log, mret (M := CM) (verdict k d, log))
        (λ k d log, log ++ [(k, d)]) [] fresh_heap
      = Some ((Some t', filter (λ kd, truth (verdict kd.1 kd.2) = true) (entries t)), fresh_heap) ∧
    hashtab_wf t' ∧
    hashtab_map_of t' = filter (λ kd, truth (verdict kd.1 kd.2) = false) (hashtab_map_of t).
Proof.
  apply (hashtab_map_remove_on_error_filters (H := @string_hash_ops target_arm)
    (λ (k : string) (d : Z), if d =? 2 then -1 else 0) example_table fresh_heap).
  apply (@example_table_wf target_arm).
Defined.
