(* ===== verification/Avtab.v ===== *)
(** * Access vector tables ([avtab.c], [avtab.h])

    Chained hash tables from (source type, target type, target class) and a
    set of rule kinds ([specified]) to access vectors or types.  The nodes have
    an address, because the conditional lists of the policy point into the
    table.  A pointer to a node is the rest of its chain from that node on
    ([[]] is [NULL]). *)

From S2P Require Import Prelude.

(** ** Data *)

Definition AVTAB_ALLOWED : Z := 1.
Definition AVTAB_AUDITALLOW : Z := 2.
Definition AVTAB_AUDITDENY : Z := 4.
Definition AVTAB_NEVERALLOW : Z := 128.
Definition AVTAB_AV : Z := Z.lor (Z.lor AVTAB_ALLOWED AVTAB_AUDITALLOW) AVTAB_AUDITDENY.
Definition AVTAB_TRANSITION : Z := 16.
Definition AVTAB_MEMBER : Z := 32.
Definition AVTAB_CHANGE : Z := 64.
Definition AVTAB_TYPE : Z := Z.lor (Z.lor AVTAB_TRANSITION AVTAB_MEMBER) AVTAB_CHANGE.
Definition AVTAB_ENABLED_OLD : Z := 0x80000000.
Definition AVTAB_ENABLED : Z := 0x8000.
Definition MAX_AVTAB_HASH_BITS : Z := 13.
Definition MAX_AVTAB_SIZE : Z := Z.shiftl 1 MAX_AVTAB_HASH_BITS.

Record avtab_key := AvKey {
  source_type : Z; target_type : Z; target_class : Z; specified : Z }.
Record avtab_datum := AvDatum { data : Z }.
Record avtab_node := AvNode {
  av_addr : Z; key : avtab_key; datum : avtab_datum; parse_context : Z; merged : Z }.
(** [av_htable] is [None] for a null [htable] *)
Record avtab := Avtab {
  av_htable : option (list (list avtab_node)); av_nel : Z; nslot : Z; mask : Z }.

#[export] Instance avtab_key_eq_dec : EqDecision avtab_key.
Proof. solve_decision. Defined.
#[export] Instance avtab_datum_eq_dec : EqDecision avtab_datum.
Proof. solve_decision. Defined.
#[export] Instance avtab_node_eq_dec : EqDecision avtab_node.
Proof. solve_decision. Defined.

(** ** Operations *)

Definition avtab_hash (keyp : avtab_key) (mask : Z) : Z :=
  Z.land (target_class keyp + Z.shiftl (target_type keyp) 2 + Z.shiftl (source_type keyp) 9) mask.

(** [x & ~(AVTAB_ENABLED | AVTAB_ENABLED_OLD)] *)
Definition without_enabled (x : Z) : Z := Z.land x (u32 (Z.lnot (Z.lor AVTAB_ENABLED AVTAB_ENABLED_OLD))).

(** the same three fields, and a rule kind in common with [spec] *)
Definition same_triple (k c : avtab_key) : bool :=
  (source_type k =? source_type c) && (target_type k =? target_type c) &&
  (target_class k =? target_class c).
Definition key_matches (k : avtab_key) (spec : Z) (c : avtab_key) : bool :=
  same_triple k c && truth (Z.land spec (specified c)).
(** the three tests that end a walk because the chain is sorted *)
Definition key_precedes (k c : avtab_key) : bool :=
  (source_type k <? source_type c) ||
  ((source_type k =? source_type c) && (target_type k <? target_type c)) ||
  ((source_type k =? source_type c) && (target_type k =? target_type c) &&
   (target_class k <? target_class c)).

(** [h->htable[hvalue]] of a table whose array is not null *)
Definition av_slot (t : list (list avtab_node)) (hvalue : Z) : option (list avtab_node) :=
  if hvalue <? 0 then None else t !! Z.to_nat hvalue.

(** [avtab_insert_node]: [before] are the nodes up to [prev], [cur] those after;
    returns the new node's address *)
Definition avtab_insert_node (h : avtab) (t : list (list avtab_node)) (hvalue : Z)
    (before cur : list avtab_node) (k : avtab_key) (d : avtab_datum) : CM (option Z * avtab) :=
  newnode ← malloc;
  match newnode with
  | None => mret (None, h)
  | Some a =>
      let chain := before ++ AvNode a k d 0 0 :: cur in
      mret (Some a, Avtab (Some (<[Z.to_nat hvalue := chain]> t)) (u32 (av_nel h + 1)) (nslot h) (mask h))
  end.

(** the loop of [avtab_insert]: [None] when it returns [SEPOL_EEXIST], otherwise
    the nodes passed and the rest *)
Fixpoint avtab_insert_walk (k : avtab_key) (spec : Z) (cur : list avtab_node)
    : option (list avtab_node * list avtab_node) :=
  match cur with
  | [] => Some ([], [])
  | nd :: next =>
      if key_matches k spec (key nd) then None
      else if key_precedes k (key nd) then Some ([], cur)
      else '(before, cur) ← avtab_insert_walk k spec next; Some (nd :: before, cur)
  end.

Definition avtab_insert (h : avtab) (k : avtab_key) (d : avtab_datum) : CM (Z * avtab) :=
  let spec := u16 (without_enabled (specified k)) in
  match av_htable h with
  | None => mret (SEPOL_ENOMEM, h)
  | Some t =>
      let hvalue := avtab_hash k (mask h) in
      chain ← deref (av_slot t hvalue);
      match avtab_insert_walk k spec chain with
      | None => mret (SEPOL_EEXIST, h)
      | Some (before, cur) =>
          '(newnode, h) ← avtab_insert_node h t hvalue before cur k d;
          mret (match newnode with None => SEPOL_ENOMEM | Some _ => 0 end, h)
      end
  end.

(** the loop of [avtab_insert_nonunique] *)
Fixpoint avtab_nonunique_walk (k : avtab_key) (spec : Z) (cur : list avtab_node)
    : list avtab_node * list avtab_node :=
  match cur with
  | [] => ([], [])
  | nd :: next =>
      if key_matches k spec (key nd) || key_precedes k (key nd) then ([], cur)
      else let '(before, cur) := avtab_nonunique_walk k spec next in (nd :: before, cur)
  end.

(** returns the address of the inserted node *)
Definition avtab_insert_nonunique (h : avtab) (k : avtab_key) (d : avtab_datum) : CM (option Z * avtab) :=
  let spec := u16 (without_enabled (specified k)) in
  match av_htable h with
  | None => mret (None, h)
  | Some t =>
      let hvalue := avtab_hash k (mask h) in
      chain ← deref (av_slot t hvalue);
      let '(before, cur) := avtab_nonunique_walk k spec chain in
      avtab_insert_node h t hvalue before cur k d
  end.

(** the loop of the searches: the rest of the chain from the match on *)
Fixpoint avtab_search_walk (k : avtab_key) (spec : Z) (cur : list avtab_node) : list avtab_node :=
  match cur with
  | [] => []
  | nd :: next =>
      if key_matches k spec (key nd) then cur
      else if key_precedes k (key nd) then []
      else avtab_search_walk k spec next
  end.

Definition avtab_search_node (h : avtab) (k : avtab_key) : CM (list avtab_node) :=
  let spec := u16 (without_enabled (specified k)) in
  match av_htable h with
  | None => mret []
  | Some t =>
      chain ← deref (av_slot t (avtab_hash k (mask h)));
      mret (avtab_search_walk k spec chain)
  end.

(** [avtab_search] runs the same loop and returns the datum *)
Definition avtab_search (h : avtab) (k : avtab_key) : CM (option avtab_datum) :=
  cur ← avtab_search_node h k;
  mret (datum <$> head cur).

Definition avtab_search_node_next (node : list avtab_node) (spec : Z) : list avtab_node :=
  match node with
  | [] => []
  | nd :: next => avtab_search_walk (key nd) (i32 (without_enabled (u32 spec))) next
  end.

(** the loop [for (node = avtab_search_node(h, k); node; node =
    avtab_search_node_next(node, spec))] of the clients: the nodes it visits;
    every step shortens the chain, so its length is enough fuel *)
Fixpoint avtab_iterate (fuel : nat) (node : list avtab_node) (spec : Z) : list avtab_node :=
  match fuel, node with
  | S fuel, nd :: _ => nd :: avtab_iterate fuel (avtab_search_node_next node spec) spec
  | _, _ => []
  end.
Definition avtab_search_all (h : avtab) (k : avtab_key) : CM (list avtab_node) :=
  node ← avtab_search_node h k;
  mret (avtab_iterate (length node) node (specified k)).

Definition avtab_destroy (h : avtab) : avtab :=
  match av_htable h with
  | None => h
  | Some _ => Avtab None (av_nel h) 0 0
  end.

(** [apply] works on the caller's state; a non-zero answer ends the walk *)
Definition avtab_map {A} (h : avtab) (apply : avtab_key → avtab_datum → A → CM (Z * A)) (args : A)
    : CM (Z * A) :=
  r ← for_loop 0 (nslot h) (λ i args,
        t ← deref (av_htable h);
        chain ← deref (av_slot t i);
        for_list chain (λ nd args,
          '(ret, args) ← apply (key nd) (datum nd) args;
          mret (if truth ret then inl (ret, args) else inr args)) args) args;
  mret (match r with inl ret => ret | inr args => (0, args) end).

Definition avtab_init (h : avtab) : Z * avtab := (0, Avtab None 0 (nslot h) (mask h)).

(** the [while (work)] loop of [avtab_alloc]; 32 iterations exhaust 32 bits *)
Fixpoint alloc_shift (fuel : nat) (work shift : Z) : option Z :=
  if truth work then
    match fuel with
    | O => None
    | S fuel => alloc_shift fuel (Z.shiftr work 1) (shift + 1)
    end
  else Some shift.

Definition avtab_alloc (h : avtab) (nrules : Z) : CM (Z * avtab) :=
  if nrules =? 0 then mret (0, Avtab (av_htable h) 0 0 0) else
  shift ← deref (alloc_shift 32 nrules 0);
  let shift := if 2 <? shift then shift - 2 else shift in
  let slots := u32 (Z.shiftl 1 shift) in
  let slots := if MAX_AVTAB_SIZE <? slots then MAX_AVTAB_SIZE else slots in
  let mask' := u16 (slots - 1) in
  t ← malloc;
  match t with
  | None => mret (-1, Avtab None (av_nel h) (nslot h) (mask h))
  | Some _ => mret (0, Avtab (Some (replicate (Z.to_nat slots) [])) 0 slots mask')
  end.

(** the figures [avtab_hash_eval] prints: entries, slots used, slots, longest
    chain *)
Definition avtab_hash_eval (h : avtab) : CM (Z * Z * Z * Z) :=
  r ← for_loop (R := unit) 0 (nslot h) (λ i '(used, longest),
        t ← deref (av_htable h);
        chain ← deref (av_slot t i);
        mret (inr (match chain with
                   | [] => (used, longest)
                   | _ => (used + 1, if longest <? length chain then Z.of_nat (length chain) else longest)
                   end))) (0, 0);
  mret (match r with
        | inr (used, longest) => (av_nel h, used, nslot h, longest)
        | inl _ => (av_nel h, 0, nslot h, 0)
        end).

(** ** Well-formedness *)

Definition key_wf (k : avtab_key) : Prop :=
  0 ≤ source_type k < 2 ^ 16 ∧ 0 ≤ target_type k < 2 ^ 16 ∧
  0 ≤ target_class k < 2 ^ 16 ∧ 0 ≤ specified k < 2 ^ 16.
(** the sort key of the chains *)
Definition triple_code (k : avtab_key) : Z :=
  source_type k * 2 ^ 32 + target_type k * 2 ^ 16 + target_class k.
Definition node_le (a b : avtab_node) : Prop := triple_code (key a) ≤ triple_code (key b).

Record avtab_wf (h : avtab) (t : list (list avtab_node)) : Prop := {
  av_table : av_htable h = Some t;
  av_slots : nslot h = Z.of_nat (length t) ∧ 0 < nslot h ≤ MAX_AVTAB_SIZE ∧ mask h = nslot h - 1;
  av_sorted i c : t !! i = Some c → StronglySorted node_le c;
  av_keys i c nd : t !! i = Some c → nd ∈ c →
    key_wf (key nd) ∧ avtab_hash (key nd) (mask h) = Z.of_nat i;
  av_count : av_nel h = u32 (length (concat t))
}.

(** the rules that match a key, by linear search *)
Abbreviation matching k spec := (filter (λ nd, key_matches k spec (key nd) = true)).

Section theory.
Implicit Types (c b cur : list avtab_node) (k : avtab_key) (h : avtab) (t : list (list avtab_node)).

Lemma same_triple_code k k' :
  key_wf k → key_wf k' → same_triple k k' = true ↔ triple_code k = triple_code k'.
Proof.
  unfold key_wf, same_triple, triple_code. intros. rewrite !andb_true_iff, !Z.eqb_eq.
  split; [intros [[-> ->] ->]; done|lia].
Qed.
Lemma key_precedes_code k k' :
  key_wf k → key_wf k' → key_precedes k k' = true ↔ triple_code k < triple_code k'.
Proof.
  unfold key_wf, key_precedes, triple_code. intros.
  rewrite !orb_true_iff, !andb_true_iff, !Z.eqb_eq, !Z.ltb_lt. split; lia.
Qed.
Lemma key_matches_code k spec k' :
  key_wf k → key_wf k' → key_matches k spec k' = true → triple_code k = triple_code k'.
Proof. unfold key_matches. intros ?? [Hs _]%andb_true_iff. by apply same_triple_code. Qed.

Lemma avtab_hash_range k m : 0 ≤ m → key_wf k → 0 ≤ avtab_hash k m ≤ m.
Proof.
  intros Hm (?&?&?&?). unfold avtab_hash.
  rewrite !Z.shiftl_mul_pow2 by lia. split; [apply Z.land_nonneg; lia|]. apply land_le_r; lia.
Qed.
Lemma same_triple_hash k k' m : same_triple k k' = true → avtab_hash k m = avtab_hash k' m.
Proof.
  unfold same_triple, avtab_hash. rewrite !andb_true_iff, !Z.eqb_eq. by intros [[-> ->] ->].
Qed.

(** The searches stop early because the chain is sorted; they find what a
    linear search finds. *)
Lemma search_walk_spec k spec c :
  key_wf k → (∀ nd, nd ∈ c → key_wf (key nd)) → StronglySorted node_le c →
  matching k spec (avtab_search_walk k spec c) = matching k spec c ∧
  match avtab_search_walk k spec c with
  | [] => True
  | nd :: _ => key_matches k spec (key nd) = true
  end ∧ ∃ b, c = b ++ avtab_search_walk k spec c ∨ avtab_search_walk k spec c = [].
Proof.
  intros Hk Hkeys Hs. induction c as [|nd c IH]; cbn [avtab_search_walk]; [split_and!; try done; exists []; by right|].
  apply StronglySorted_cons in Hs as [Hall Hs]. rewrite Forall_forall in Hall.
  destruct (key_matches k spec (key nd)) eqn:Em; [split_and!; try done; exists []; by left|].
  destruct (key_precedes k (key nd)) eqn:Ep.
  - split_and!; [|done|exists []; by right]. symmetry. apply filter_none.
    intros nd' Hin Hm. apply key_precedes_code in Ep; [|done|apply Hkeys; by left].
    apply key_matches_code in Hm; [|done|by apply Hkeys].
    apply elem_of_cons in Hin as [->|Hin]; [lia|]. specialize (Hall _ Hin). unfold node_le in Hall. lia.
  - destruct IH as (IH1&IH2&b&IH3); [intros ??; apply Hkeys; by right|done|].
    rewrite filter_cons_False by by rewrite Em. split_and!; [done..|].
    destruct IH3 as [Heq|Heq]; [exists (nd :: b); left; simpl; by f_equal|exists []; by right].
Qed.

(** where the insertions put the new node *)
Definition splits_at k c b cur : Prop :=
  c = b ++ cur ∧ (∀ nd, nd ∈ b → triple_code (key nd) ≤ triple_code k) ∧
  (∀ nd, nd ∈ cur → triple_code k ≤ triple_code (key nd)).

Lemma splits_at_nil k : splits_at k [] [] [].
Proof. split_and!; [done|by intros ? ?%elem_of_nil..]. Qed.
Lemma splits_at_cons k nd c b cur :
  triple_code (key nd) ≤ triple_code k → splits_at k c b cur → splits_at k (nd :: c) (nd :: b) cur.
Proof. intros Hle (->&Hb&Hcur). split_and!; [done| |done]. by intros nd' [->|?]%elem_of_cons; [|apply Hb]. Qed.
Lemma splits_at_here k nd c :
  triple_code k ≤ triple_code (key nd) → StronglySorted node_le (nd :: c) → splits_at k (nd :: c) [] (nd :: c).
Proof.
  intros Hle [Hall _]%StronglySorted_cons. rewrite Forall_forall in Hall.
  split_and!; [done|by intros ? ?%elem_of_nil|]. intros nd' [->|Hin]%elem_of_cons; [done|].
  specialize (Hall _ Hin). unfold node_le in Hall. lia.
Qed.

Lemma insert_walk_spec k spec c :
  key_wf k → (∀ nd, nd ∈ c → key_wf (key nd)) → StronglySorted node_le c →
  match avtab_insert_walk k spec c with
  | None => matching k spec c ≠ []
  | Some (b, cur) => splits_at k c b cur ∧ matching k spec c = []
  end.
Proof.
  intros Hk Hkeys Hs. induction c as [|nd c IH]; cbn [avtab_insert_walk]; [split; [apply splits_at_nil|done]|].
  pose proof Hs as [Hall Hs']%StronglySorted_cons. assert (key_wf (key nd)) as Hnd by (apply Hkeys; by left).
  destruct (key_matches k spec (key nd)) eqn:Em; [by rewrite filter_cons_True|].
  rewrite filter_cons_False by by rewrite Em.
  destruct (key_precedes k (key nd)) eqn:Ep.
  - apply key_precedes_code in Ep; [|done..]. split; [by apply splits_at_here; [lia|]|].
    apply filter_none. intros nd' Hin Hm. apply key_matches_code in Hm; [|done|by apply Hkeys; right].
    rewrite Forall_forall in Hall. specialize (Hall _ Hin). unfold node_le in Hall. lia.
  - assert (triple_code (key nd) ≤ triple_code k).
    { destruct (Z.le_gt_cases (triple_code (key nd)) (triple_code k)) as [|Hgt]; [done|].
      assert (key_precedes k (key nd) = true) by (apply key_precedes_code; (done || lia)). congruence. }
    specialize (IH ltac:(intros ??; apply Hkeys; by right) Hs').
    destruct (avtab_insert_walk k spec c) as [[b cur]|]; simpl; [|done].
    destruct IH. split; [by apply splits_at_cons|done].
Qed.

Lemma nonunique_walk_spec k spec c :
  key_wf k → (∀ nd, nd ∈ c → key_wf (key nd)) → StronglySorted node_le c →
  let '(b, cur) := avtab_nonunique_walk k spec c in
  splits_at k c b cur ∧ matching k spec b = [].
Proof.
  intros Hk Hkeys Hs. induction c as [|nd c IH]; cbn [avtab_nonunique_walk]; [split; [apply splits_at_nil|done]|].
  pose proof Hs as [Hall Hs']%StronglySorted_cons. assert (key_wf (key nd)) as Hnd by (apply Hkeys; by left).
  destruct (key_matches k spec (key nd)) eqn:Em; cbn [orb].
  { split; [|done]. apply splits_at_here; [|done]. apply key_matches_code in Em; (done || lia). }
  destruct (key_precedes k (key nd)) eqn:Ep.
  - apply key_precedes_code in Ep; [|done..]. split; [by apply splits_at_here; [lia|]|done].
  - assert (triple_code (key nd) ≤ triple_code k).
    { destruct (Z.le_gt_cases (triple_code (key nd)) (triple_code k)) as [|Hgt]; [done|].
      assert (key_precedes k (key nd) = true) by (apply key_precedes_code; (done || lia)). congruence. }
    specialize (IH ltac:(intros ??; apply Hkeys; by right) Hs').
    destruct (avtab_nonunique_walk k spec c) as [b cur]. destruct IH.
    split; [by apply splits_at_cons|]. by rewrite filter_cons_False by by rewrite Em.
Qed.

(** the slot of a key *)
Lemma av_slot_ok h t k :
  avtab_wf h t → key_wf k → ∃ c, av_slot t (avtab_hash k (mask h)) = Some c ∧
    t !! Z.to_nat (avtab_hash k (mask h)) = Some c ∧ 0 ≤ avtab_hash k (mask h).
Proof.
  intros Hwf Hk. destruct (av_slots _ _ Hwf) as (Hl&Hn&Hm).
  pose proof (avtab_hash_range k (mask h) ltac:(lia) Hk) as Hr.
  destruct (lookup_lt_is_Some_2 t (Z.to_nat (avtab_hash k (mask h)))) as [c Hc]; [lia|].
  exists c. unfold av_slot. rewrite (proj2 (Z.ltb_ge _ _)) by lia. split_and!; [done|done|lia].
Qed.

Lemma slot_matching h t k spec c :
  avtab_wf h t → key_wf k → t !! Z.to_nat (avtab_hash k (mask h)) = Some c →
  matching k spec (concat t) = matching k spec c.
Proof.
  intros Hwf Hk Hc. apply (filter_concat_single _ _ _ _ Hc). intros j d nd Hj Hin [Hs _]%andb_true_iff.
  destruct (av_keys _ _ Hwf _ _ _ Hj Hin) as [_ Hh]. rewrite (same_triple_hash _ _ _ Hs), Hh. lia.
Qed.

(** the loop over [avtab_search_node] and [avtab_search_node_next] starts at the
    first rule a linear search finds *)
Lemma avtab_search_node_wp h t k hp :
  avtab_wf h t → key_wf k →
  let spec := u16 (without_enabled (specified k)) in
  wp (avtab_search_node h k) (λ cur hp', hp' = hp ∧
    matching k spec cur = matching k spec (concat t) ∧
    match cur with [] => True | nd :: _ => key_matches k spec (key nd) = true end ∧
    StronglySorted node_le cur ∧ ∀ nd, nd ∈ cur → nd ∈ concat t ∧ key_wf (key nd)) hp.
Proof.
  intros Hwf Hk spec. unfold avtab_search_node. rewrite (av_table _ _ Hwf).
  destruct (av_slot_ok h t k Hwf Hk) as (c&Hs&Hc&_). eapply wp_bind, wp_deref; [done|]. apply wp_ret.
  rewrite (slot_matching h t k spec c Hwf Hk Hc). pose proof (av_sorted _ _ Hwf _ _ Hc) as Hsort.
  destruct (search_walk_spec k spec c Hk (λ nd Hin, proj1 (av_keys _ _ Hwf _ _ _ Hc Hin)) Hsort)
    as (H1&H2&b&H3). fold spec. split_and!; [done..| |].
  - destruct H3 as [He| ->]; [|constructor]. rewrite He in Hsort. by eapply StronglySorted_app_1_r.
  - intros nd Hin. assert (nd ∈ c) as Hin'.
    { destruct H3 as [-> |H3]; [apply elem_of_app; by right|]. rewrite H3 in Hin. by apply elem_of_nil in Hin. }
    split; [apply elem_of_concat; eauto|]. by eapply av_keys.
Qed.

(** inserting a node between [b] and [cur] *)
Lemma insert_node_wf h t k d b cur a :
  avtab_wf h t → key_wf k →
  let i := avtab_hash k (mask h) in
  t !! Z.to_nat i = Some (b ++ cur) → 0 ≤ i → splits_at k (b ++ cur) b cur →
  let t' := <[Z.to_nat i := b ++ AvNode a k d 0 0 :: cur]> t in
  let h' := Avtab (Some t') (u32 (av_nel h + 1)) (nslot h) (mask h) in
  avtab_wf h' t' ∧ concat t' ≡ₚ AvNode a k d 0 0 :: concat t.
Proof.
  intros Hwf Hk i Hc Hi (_&Hb&Hcur) t' h'.
  destruct (concat_insert t (Z.to_nat i) (b ++ cur) Hc) as (rest&Hr&Hr').
  assert (concat t' ≡ₚ AvNode a k d 0 0 :: concat t) as Hp.
  { unfold t'. rewrite Hr', Hr. apply perm_middle. }
  split; [|done]. pose proof (av_slots _ _ Hwf) as (Hl&Hn&Hm). split; cbn [av_htable av_nel nslot mask h'].
  - done.
  - unfold t'. by rewrite length_insert.
  - intros j c. unfold t'. destruct (decide (Z.to_nat i = j)) as [<-|Hne].
    + rewrite list_lookup_insert_eq by (by eapply lookup_lt_Some). intros [= <-].
      pose proof (av_sorted _ _ Hwf _ _ Hc) as (Hbc&Hsb&Hsc)%StronglySorted_app.
      apply StronglySorted_app. split_and!; [|done|].
      * intros x y Hx [->|Hy]%elem_of_cons; [by apply Hb|by apply Hbc].
      * apply StronglySorted_cons. split; [|done]. apply Forall_forall. intros x Hx. by apply Hcur.
    + rewrite list_lookup_insert_ne by done. apply (av_sorted _ _ Hwf).
  - intros j c nd. unfold t'. destruct (decide (Z.to_nat i = j)) as [<-|Hne].
    + rewrite list_lookup_insert_eq by (by eapply lookup_lt_Some). intros [= <-].
      rewrite elem_of_app, elem_of_cons. intros Hin.
      assert (nd = AvNode a k d 0 0 ∨ nd ∈ b ++ cur) as [-> |Hin'] by (rewrite elem_of_app; tauto).
      * split; [done|]. cbn [key]. unfold i. lia.
      * by eapply av_keys.
    + rewrite list_lookup_insert_ne by done. apply (av_keys _ _ Hwf).
  - by rewrite Hp, (av_count _ _ Hwf), u32_add_u32, length_cons, Nat2Z.inj_succ.
Qed.

(** [avtab_insert]: refused exactly when a rule with the same triple shares a
    kind with the new one *)
Lemma avtab_insert_wp h t k d hp :
  avtab_wf h t → key_wf k →
  let spec := u16 (without_enabled (specified k)) in
  wp (avtab_insert h k d) (λ '(rc, h') hp', mem_step hp hp' (rc ≠ SEPOL_ENOMEM) ∧
    if decide (matching k spec (concat t) = []) then
      (∃ a t', rc = 0 ∧ avtab_wf h' t' ∧ concat t' ≡ₚ AvNode a k d 0 0 :: concat t ∧
               nslot h' = nslot h ∧ av_nel h' = u32 (av_nel h + 1) ∧ a = h_next hp ∧ h_next hp' = h_next hp + 1)
      ∨ rc = SEPOL_ENOMEM ∧ h' = h
    else rc = SEPOL_EEXIST ∧ h' = h) hp.
Proof.
  intros Hwf Hk spec. unfold avtab_insert. rewrite (av_table _ _ Hwf). fold spec.
  destruct (av_slot_ok h t k Hwf Hk) as (c&Hs&Hc&Hi). eapply wp_bind, wp_deref; [done|].
  pose proof (insert_walk_spec k spec c Hk (λ nd Hin, proj1 (av_keys _ _ Hwf _ _ _ Hc Hin)) (av_sorted _ _ Hwf _ _ Hc)) as Hw.
  rewrite (slot_matching h t k spec c Hwf Hk Hc).
  destruct (avtab_insert_walk k spec c) as [[b cur]|]; cycle 1.
  { apply wp_ret. rewrite decide_False by done. split; [by apply mem_step_refl|done]. }
  destruct Hw as [Hsp Hnone]. pose proof Hsp as (->&_).
  apply wp_bind. unfold avtab_insert_node.
  apply wp_bind, wp_malloc_addr; intros hp1 Hm Ha; apply wp_ret, wp_ret; (split; [mem|]); rewrite decide_True by done; [left|by right].
  destruct (insert_node_wf h t k d b cur (h_next hp) Hwf Hk Hc Hi Hsp). by do 2 eexists.
Qed.

(** [avtab_insert_nonunique] always inserts, before the rules it matches *)
Lemma avtab_insert_nonunique_wp h t k d hp :
  avtab_wf h t → key_wf k →
  wp (avtab_insert_nonunique h k d) (λ '(r, h') hp', mem_step hp hp' (r ≠ None) ∧
    match r with
    | Some a => (∃ t', avtab_wf h' t' ∧ concat t' ≡ₚ AvNode a k d 0 0 :: concat t) ∧ nslot h' = nslot h ∧
                  a = h_next hp ∧ h_next hp' = h_next hp + 1
    | None => h' = h
    end) hp.
Proof.
  intros Hwf Hk. unfold avtab_insert_nonunique. rewrite (av_table _ _ Hwf).
  destruct (av_slot_ok h t k Hwf Hk) as (c&Hs&Hc&Hi). eapply wp_bind, wp_deref; [done|].
  set (spec := u16 (without_enabled (specified k))).
  pose proof (nonunique_walk_spec k spec c Hk (λ nd Hin, proj1 (av_keys _ _ Hwf _ _ _ Hc Hin)) (av_sorted _ _ Hwf _ _ Hc)) as Hw.
  destruct (avtab_nonunique_walk k spec c) as [b cur]. destruct Hw as [Hsp _]. pose proof Hsp as (->&_).
  unfold avtab_insert_node. apply wp_bind, wp_malloc_addr; intros hp1 Hm Ha; apply wp_ret; (split; [mem|]); [|done].
  destruct (insert_node_wf h t k d b cur (h_next hp) Hwf Hk Hc Hi Hsp). split; [by eexists|done].
Qed.

Lemma without_enabled_range x : 0 ≤ x < 2 ^ 16 → 0 ≤ without_enabled x < 2 ^ 15 ∧
  u16 (without_enabled x) = without_enabled x ∧ i32 (without_enabled (u32 x)) = without_enabled x.
Proof.
  intros Hx. assert (u32 x = x) as -> by (apply (wrap_id 32); lia).
  assert (0 ≤ without_enabled x < 2 ^ 15) as Hr.
  { unfold without_enabled. change (u32 _) with 0x7fff7fff. split; [apply Z.land_nonneg; lia|].
    apply range_of_bits; [lia|apply Z.land_nonneg; lia|]. intros j Hj. rewrite Z.land_spec.
    destruct (decide (j = 15)) as [-> |]; [apply andb_false_r|]. by rewrite (testbit_high 16) by lia. }
  split_and!; [lia..|apply (wrap_id 16); lia|].
  unfold i32. rewrite wrap_id by lia. lia.
Qed.

Lemma same_triple_eq k k' : same_triple k k' = true ↔
  source_type k = source_type k' ∧ target_type k = target_type k' ∧ target_class k = target_class k'.
Proof. unfold same_triple. rewrite !andb_true_iff, !Z.eqb_eq. naive_solver. Qed.
Lemma key_matches_triple k k' spec x : same_triple k k' = true → key_matches k spec x = key_matches k' spec x.
Proof. intros (H1&H2&H3)%same_triple_eq. unfold key_matches, same_triple. by rewrite H1, H2, H3. Qed.
Lemma search_walk_triple k k' spec c :
  same_triple k k' = true → avtab_search_walk k spec c = avtab_search_walk k' spec c.
Proof.
  intros He. induction c as [|nd c IH]; [done|]. cbn [avtab_search_walk].
  rewrite (key_matches_triple _ _ _ _ He), IH.
  apply same_triple_eq in He as (H1&H2&H3). unfold key_precedes. by rewrite H1, H2, H3.
Qed.

Lemma search_walk_length k spec c : (length (avtab_search_walk k spec c) ≤ length c)%nat.
Proof. induction c as [|nd c IH]; [done|]. cbn [avtab_search_walk]. repeat case_match; simpl in *; lia. Qed.

Lemma avtab_iterate_spec k fuel c :
  key_wf k → (∀ nd, nd ∈ c → key_wf (key nd)) → StronglySorted node_le c → (length c ≤ fuel)%nat →
  match c with [] => True | nd :: _ => key_matches k (without_enabled (specified k)) (key nd) = true end →
  avtab_iterate fuel c (specified k) = matching k (without_enabled (specified k)) c.
Proof.
  intros Hk. revert c. induction fuel as [|fuel IH]; intros [|nd c] Hkeys Hs Hl Hm; simpl in Hl; try done; [lia|].
  cbn [avtab_iterate avtab_search_node_next].
  destruct (without_enabled_range (specified k)) as (_&_&->); [apply Hk|].
  rewrite filter_cons_True by done. f_equal.
  apply andb_true_iff in Hm as [Hst _]. rewrite <- (search_walk_triple k (key nd) _ _ Hst).
  apply StronglySorted_cons in Hs as [_ Hs].
  destruct (search_walk_spec k (without_enabled (specified k)) c Hk ltac:(intros; apply Hkeys; by right) Hs)
    as (H1&H2&b&H3). rewrite <- H1. apply IH; [| | |done].
  - intros x Hx. apply Hkeys. right. destruct H3 as [-> |H3]; [apply elem_of_app; by right|].
    rewrite H3 in Hx. by apply elem_of_nil in Hx.
  - destruct H3 as [He| ->]; [|constructor]. rewrite He in Hs. by eapply StronglySorted_app_1_r.
  - pose proof (search_walk_length k (without_enabled (specified k)) c). lia.
Qed.

Lemma avtab_search_all_wp h t k hp :
  avtab_wf h t → key_wf k →
  let found := matching k (without_enabled (specified k)) (concat t) in
  wp (avtab_search_all h k) (λ nodes hp', hp' = hp ∧ nodes = found) hp ∧
  wp (avtab_search h k) (λ r hp', hp' = hp ∧ r = datum <$> head found) hp.
Proof.
  intros Hwf Hk found. pose proof (avtab_search_node_wp h t k hp Hwf Hk) as Hn.
  destruct (without_enabled_range (specified k)) as (_&Hu&_); [apply Hk|]. rewrite Hu in Hn.
  split; apply wp_bind; (eapply wp_mono; [exact Hn|]); intros cur hp' (->&Heq&Hhd&Hs&Hin); apply wp_ret;
    (split; [done|]); subst found; rewrite <- Heq.
  - apply avtab_iterate_spec; [done| |done|done|done]. intros nd ?. by apply Hin.
  - destruct cur as [|nd cur]; [done|]. by rewrite filter_cons_True.
Qed.

Lemma matching_self a k d :
  key_matches k (without_enabled (specified k)) (key (AvNode a k d 0 0)) = truth (without_enabled (specified k)).
Proof.
  unfold key_matches, same_triple. cbn [key]. rewrite !Z.eqb_refl. cbn [andb]. f_equal.
  unfold without_enabled. rewrite <- Z.land_assoc, (Z.land_comm (u32 _)), Z.land_assoc. by rewrite Z.land_diag.
Qed.

Lemma matching_perm k spec l l' : l ≡ₚ l' → matching k spec l ≡ₚ matching k spec l'.
Proof. by intros ->. Qed.

(** C35: the searches, which stop early because the chains are sorted, agree
    with a linear search of the whole table: the clients' loop over
    [avtab_search_node] and [avtab_search_node_next] visits exactly the rules
    with the same triple and a common kind, each once, and [avtab_search]
    returns the datum of the first. *)
Theorem avtab_search_is_linear h t k hp :
  avtab_wf h t → key_wf k →
  let found := matching k (without_enabled (specified k)) (concat t) in
  wp (avtab_search_all h k) (λ nodes hp', hp' = hp ∧ nodes = found) hp ∧
  wp (avtab_search h k) (λ r hp', hp' = hp ∧ r = datum <$> head found) hp.
Proof. apply avtab_search_all_wp. Qed.

(** C20: when a rule of the table has the same triple and a kind in common,
    [avtab_insert] returns [SEPOL_EEXIST] and leaves the table alone; otherwise
    it returns 0, having added the rule, which a later search for the key finds
    alone, or [SEPOL_ENOMEM], and then there was no memory and the table is as it
    was.  [avtab_insert_nonunique] adds the rule next to those it matches, or
    fails for want of memory.  Both keep the table well-formed. *)
Theorem avtab_insertions_correct h t k d hp :
  avtab_wf h t → key_wf k → truth (without_enabled (specified k)) = true →
  let found l := matching k (without_enabled (specified k)) l in
  wp (avtab_insert h k d) (λ '(rc, h') hp', mem_step hp hp' (rc ≠ SEPOL_ENOMEM) ∧
    (found (concat t) ≠ [] → rc = SEPOL_EEXIST ∧ h' = h) ∧
    (found (concat t) = [] →
       rc = 0 ∧ (∃ a t', avtab_wf h' t' ∧ concat t' ≡ₚ AvNode a k d 0 0 :: concat t ∧
                  found (concat t') = [AvNode a k d 0 0])
       ∨ rc = SEPOL_ENOMEM ∧ h' = h)) hp ∧
  wp (avtab_insert_nonunique h k d) (λ '(r, h') hp', mem_step hp hp' (r ≠ None) ∧
    match r with
    | Some a => ∃ t', avtab_wf h' t' ∧ concat t' ≡ₚ AvNode a k d 0 0 :: concat t ∧
                  found (concat t') ≡ₚ AvNode a k d 0 0 :: found (concat t)
    | None => h' = h
    end) hp.
Proof.
  intros Hwf Hk Hspec found. destruct (without_enabled_range (specified k)) as (_&Hu&_); [apply Hk|].
  assert (∀ t' a, concat t' ≡ₚ AvNode a k d 0 0 :: concat t →
    found (concat t') ≡ₚ AvNode a k d 0 0 :: found (concat t)) as Hadd.
  { intros t' a Hp. unfold found. rewrite (matching_perm _ _ _ _ Hp).
    by rewrite filter_cons_True by by rewrite matching_self. }
  split; (eapply wp_mono; [first [by apply avtab_insert_wp | by apply avtab_insert_nonunique_wp]|]).
  - intros [rc h'] hp' [Hm Hr]. rewrite Hu in Hr. fold (found (concat t)) in Hr.
    destruct (decide (found (concat t) = [])) as [Hf|Hf]; [|by destruct Hr as [-> ->]].
    split_and!; [done|done|]. intros _. destruct Hr as [(a&t'&->&Hwf'&Hp&_)|[-> ->]]; [left|by right].
    split; [done|]. exists a, t'. split_and!; [done..|].
    pose proof (Hadd _ _ Hp) as Hp'. rewrite Hf in Hp'. by apply Permutation_singleton_r in Hp'.
  - intros [[a|] h'] hp' [Hm Hr]; (split; [done|]); [|done].
    destruct Hr as ((t'&Hwf'&Hp)&_). eauto.
Qed.
End theory.

(** ** A concrete table *)

Module Example.
Definition allow_rule : avtab_node := AvNode 10 (AvKey 1 2 1 AVTAB_ALLOWED) (AvDatum 6) 0 0.
Definition trans_rule : avtab_node := AvNode 11 (AvKey 1 2 3 AVTAB_TRANSITION) (AvDatum 5) 0 0.
Definition slots : list (list avtab_node) := [[]; [allow_rule; trans_rule]].
Definition table : avtab := Avtab (Some slots) 2 2 1.

Lemma table_wf : avtab_wf table slots.
Proof.
  split; [done|done| | |done].
  - intros [|[|i]] c Hc; simplify_eq/=; repeat constructor; unfold node_le; vm_compute; discriminate.
  - intros [|[|i]] c nd Hc Hin; simplify_eq/=; [by apply elem_of_nil in Hin|].
    repeat (apply elem_of_cons in Hin as [-> |Hin]; [by vm_compute|]). by apply elem_of_nil in Hin.
Qed.
End Example.

(** witness of C35 *)
Lemma avtab_search_is_linear_witness :
  let found := [Example.allow_rule] in
  wp (avtab_search_all Example.table (AvKey 1 2 1 AVTAB_ALLOWED)) (λ nodes hp', hp' = fresh_heap ∧ nodes = found) fresh_heap ∧
  wp (avtab_search Example.table (AvKey 1 2 1 AVTAB_ALLOWED)) (λ r hp', hp' = fresh_heap ∧ r = datum <$> head found) fresh_heap.
Proof.
  apply (avtab_search_is_linear Example.table Example.slots (AvKey 1 2 1 AVTAB_ALLOWED) fresh_heap).
  - apply Example.table_wf.
  - by vm_compute.
Defined.

(** witness of C20 *)
Lemma avtab_insertions_correct_witness :
  let k := AvKey 1 2 1 AVTAB_AUDITALLOW in
  let found l := matching k (without_enabled (specified k)) l in
  wp (avtab_insert Example.table k (AvDatum 9)) (λ '(rc, h') hp', mem_step fresh_heap hp' (rc ≠ SEPOL_ENOMEM) ∧
    (found (concat Example.slots) ≠ [] → rc = SEPOL_EEXIST ∧ h' = Example.table) ∧
    (found (concat Example.slots) = [] →
       rc = 0 ∧ (∃ a t', avtab_wf h' t' ∧ concat t' ≡ₚ AvNode a k (AvDatum 9) 0 0 :: concat Example.slots ∧
                  found (concat t') = [AvNode a k (AvDatum 9) 0 0])
       ∨ rc = SEPOL_ENOMEM ∧ h' = Example.table)) fresh_heap ∧
  wp (avtab_insert_nonunique Example.table k (AvDatum 9)) (λ '(r, h') hp', mem_step fresh_heap hp' (r ≠ None) ∧
    match r with
    | Some a => ∃ t', avtab_wf h' t' ∧ concat t' ≡ₚ AvNode a k (AvDatum 9) 0 0 :: concat Example.slots ∧
                  found (concat t') ≡ₚ AvNode a k (AvDatum 9) 0 0 :: found (concat Example.slots)
    | None => h' = Example.table
    end) fresh_heap.
Proof.
  apply (avtab_insertions_correct Example.table Example.slots (AvKey 1 2 1 AVTAB_AUDITALLOW) (AvDatum 9) fresh_heap).
  - apply Example.table_wf.
  - by vm_compute.
  - by vm_compute.
Defined.
