(* ===== verification/AvtabIO.v ===== *)
(** * Access vector tables in policy files ([avtab_read_item], [avtab_read] of
    [avtab.c], [avtab_write_item], [avtab_write] of [write.c]) *)

From S2P Require Import Prelude PolicyFile Avtab.

Definition POLICYDB_VERSION_AVTAB : Z := 20.
Definition POLICY_KERN : Z := 0.

(** the order of the data of a merged rule in the format before version 20 *)
Definition spec_order : list Z :=
  [AVTAB_ALLOWED; AVTAB_AUDITDENY; AVTAB_AUDITALLOW; AVTAB_TRANSITION; AVTAB_CHANGE; AVTAB_MEMBER].

Section io.
Context `{Target}.

(** ** Reading *)

(** [buf32[i]] of the seven-word buffer of [avtab_read_item]: words past those
    the file filled have the value of the uninitialised memory [junk]; an index
    of 7 or more is out of bounds *)
Definition read_buf32 (junk buf : list byte) (i : Z) : CM Z :=
  deref (if i <? 7 then Some (le_to_cpu 4 (buf ++ drop (length buf) junk) (Z.to_nat i)) else None).

Section read_item.
Context {A : Type} (insertf : avtab_key → avtab_datum → A → CM (Z * A)).

(** the loop over [spec_order] of the old format; [inl] is a return of
    [insertf]'s error *)
Definition read_item_old_loop (word : Z → CM Z) (k : avtab_key) (val enabled : Z) (items : Z) (a : A)
    : CM ((Z * A) + (Z * A)) :=
  for_list spec_order (λ spec '(items, a),
    if truth (Z.land val spec) then
      data ← word items;
      let key := AvKey (source_type k) (target_type k) (target_class k) (Z.lor spec enabled) in
      '(rc, a) ← insertf key (AvDatum data) a;
      mret (if truth rc then inl (rc, a) else inr (items + 1, a))
    else mret (inr (items, a))) (items, a).

Definition avtab_read_item_old (junk : list byte) (fp : policy_file) (a : A) : CM (Z * A * policy_file) :=
  '(rc, buf, fp) ← next_entry fp 4;
  if rc <? 0 then mret (-1, a, fp) else
  let items2 := le_to_cpu 4 buf 0 in
  if (items2 <? 5) || (7 <? items2) then mret (-1, a, fp) else
  '(rc, buf, fp) ← next_entry fp (szt (4 * items2));
  if rc <? 0 then mret (-1, a, fp) else
  let word := read_buf32 junk buf in
  val ← word 0;
  if negb (u16 val =? val) then mret (-1, a, fp) else
  let source := u16 val in
  val ← word 1;
  if negb (u16 val =? val) then mret (-1, a, fp) else
  let target := u16 val in
  val ← word 2;
  if negb (u16 val =? val) then mret (-1, a, fp) else
  let class := u16 val in
  val ← word 3;
  let enabled := if truth (Z.land val AVTAB_ENABLED_OLD) then AVTAB_ENABLED else 0 in
  if negb (truth (Z.land val (Z.lor AVTAB_AV AVTAB_TYPE))) then mret (-1, a, fp) else
  if truth (Z.land val AVTAB_AV) && truth (Z.land val AVTAB_TYPE) then mret (-1, a, fp) else
  r ← read_item_old_loop word (AvKey source target class 0) val enabled 4 a;
  mret (match r with
        | inl (rc, a) => (rc, a, fp)
        | inr (items, a) => if negb (items =? items2) then (-1, a, fp) else (0, a, fp)
        end).

Definition avtab_read_item_new (fp : policy_file) (a : A) : CM (Z * A * policy_file) :=
  '(rc, buf16, fp) ← next_entry fp 8;
  if rc <? 0 then mret (-1, a, fp) else
  let key := AvKey (le_to_cpu 2 buf16 0) (le_to_cpu 2 buf16 1) (le_to_cpu 2 buf16 2) (le_to_cpu 2 buf16 3) in
  let set := Z.of_nat (length (filter (λ s, truth (Z.land (specified key) s) = true) spec_order)) in
  if negb (truth set) || (1 <? set) then mret (-1, a, fp) else
  '(rc, buf32, fp) ← next_entry fp 4;
  if rc <? 0 then mret (-1, a, fp) else
  '(rc, a) ← insertf key (AvDatum (le_to_cpu 4 buf32 0)) a;
  mret (rc, a, fp).

Definition avtab_read_item (junk : list byte) (fp : policy_file) (vers : Z) (a : A)
    : CM (Z * A * policy_file) :=
  if vers <? POLICYDB_VERSION_AVTAB then avtab_read_item_old junk fp a else avtab_read_item_new fp a.
End read_item.

Definition avtab_insertf (k : avtab_key) (d : avtab_datum) (a : avtab) : CM (Z * avtab) :=
  avtab_insert a k d.

Definition avtab_read (junk : list byte) (a : avtab) (fp : policy_file) (vers : Z)
    : CM (Z * avtab * policy_file) :=
  '(rc, buf, fp) ← next_entry fp 4;
  if rc <? 0 then mret (-1, avtab_destroy a, fp) else
  let nel := le_to_cpu 4 buf 0 in
  if negb (truth nel) then mret (-1, avtab_destroy a, fp) else
  '(rc, a) ← avtab_alloc a nel;
  if truth rc then mret (-1, avtab_destroy a, fp) else
  r ← for_loop 0 nel (λ _ '(a, fp),
        '(rc, a, fp) ← avtab_read_item avtab_insertf junk fp vers a;
        mret (if truth rc then inl (a, fp) else inr (a, fp))) (a, fp);
  mret (match r with
        | inl (a, fp) => (-1, avtab_destroy a, fp)
        | inr (a, fp) => (0, a, fp)
        end).

(** ** Writing *)

(** the format from version 20 on *)
Definition avtab_write_item_new (nd : avtab_node) (fp : policy_file) : Z * policy_file :=
  let k := key nd in
  let '(items, fp) := put_entry (cpu_to_le 2 [source_type k; target_type k; target_class k; specified k]) 2 4 fp in
  if negb (items =? 4) then (-1, fp) else
  let '(items, fp) := put_entry (cpu_to_le 4 [data (datum nd)]) 4 1 fp in
  if negb (items =? 1) then (-1, fp) else (0, fp).

(** [avtab_write] of a table to such a policy *)
Definition avtab_write_new (a : avtab) (fp : policy_file) : CM (Z * policy_file) :=
  let '(items, fp) := put_entry (cpu_to_le 4 [av_nel a]) 4 1 fp in
  if negb (items =? 1) then mret (-1, fp) else
  r ← for_loop 0 (nslot a) (λ i fp,
        t ← deref (av_htable a);
        chain ← deref (av_slot t i);
        for_list chain (λ nd fp,
          let '(rc, fp) := avtab_write_item_new nd fp in
          mret (if truth rc then inl fp else inr fp)) fp) fp;
  mret (match r with inl fp => (-1, fp) | inr fp => (0, fp) end).
End io.

(** ** Theory *)

(** every rule is the only one its own key finds *)
Definition rules_unique (l : list avtab_node) : Prop :=
  Forall (λ nd, matching (key nd) (without_enabled (specified (key nd))) l = [nd]) l.

(** what a rule stands for, without the node it is stored in *)
Definition rule_of (nd : avtab_node) : avtab_key * avtab_datum := (key nd, datum nd).

(** exactly one of the kinds of [spec_order] *)
Definition single_kind (k : avtab_key) : Prop :=
  length (filter (λ s, truth (Z.land (specified k) s) = true) spec_order) = 1%nat.

Definition rule_bytes (r : avtab_key * avtab_datum) : list byte :=
  cpu_to_le 2 [source_type r.1; target_type r.1; target_class r.1; specified r.1] ++ cpu_to_le 4 [data r.2].

Section theory.
Context `{Target}.
Implicit Types (k : avtab_key) (nd : avtab_node) (l : list avtab_node) (h : avtab) (t : list (list avtab_node)).

Lemma land_without_enabled a b :
  Z.land (without_enabled a) b = Z.land (without_enabled a) (without_enabled b).
Proof.
  unfold without_enabled. set (m := u32 _). rewrite (Z.land_comm b m), Z.land_assoc, <- (Z.land_assoc a m m).
  by rewrite Z.land_diag.
Qed.
Lemma key_matches_sym k k' :
  key_matches k (without_enabled (specified k)) k' = key_matches k' (without_enabled (specified k')) k.
Proof.
  unfold key_matches, same_triple.
  rewrite (Z.eqb_sym (source_type k)), (Z.eqb_sym (target_type k)), (Z.eqb_sym (target_class k)).
  do 2 f_equal. by rewrite land_without_enabled, Z.land_comm, <- land_without_enabled.
Qed.

Lemma rules_unique_perm l l' : l ≡ₚ l' → rules_unique l → rules_unique l'.
Proof.
  intros Hp Hu. unfold rules_unique. rewrite <- Hp. eapply Forall_impl; [done|]. intros nd Hnd. simpl in Hnd.
  apply Permutation_singleton_r. by rewrite <- Hnd, Hp.
Qed.
Lemma rules_unique_cons a k d l :
  truth (without_enabled (specified k)) = true →
  matching k (without_enabled (specified k)) l = [] → rules_unique l →
  rules_unique (AvNode a k d 0 0 :: l).
Proof.
  intros Ht Hn Hu. constructor.
  - cbn [key]. rewrite filter_cons_True by (by rewrite matching_self). by rewrite Hn.
  - unfold rules_unique in Hu. rewrite Forall_forall in Hu |- *. intros nd Hin.
    rewrite filter_cons_False; [by apply Hu|]. cbn [key]. rewrite key_matches_sym.
    intros Hm. rewrite filter_none in Hn. by apply (Hn nd).
Qed.

(** a table that holds at least one kind per rule *)
Definition avtab_ok h t : Prop := avtab_wf h t ∧ rules_unique (concat t).

Lemma avtab_insertf_ok h t k d hp :
  avtab_ok h t → key_wf k → truth (without_enabled (specified k)) = true →
  wp (avtab_insertf k d h) (λ '(rc, h') hp', ∃ t', avtab_ok h' t' ∧ rc ≠ -1) hp.
Proof.
  intros [Hwf Hu] Hk Ht. eapply wp_mono; [by apply avtab_insert_wp|]. intros [rc h'] hp' [_ Hr].
  destruct (without_enabled_range (specified k)) as (_&Hs&_); [apply Hk|]. rewrite Hs in Hr.
  destruct (decide _) as [Hn|]; [|by destruct Hr as [-> ->]; exists t].
  destruct Hr as [(a&t'&->&Hwf'&Hp&_)|[-> ->]]; [|by exists t].
  exists t'. split; [|done]. split; [done|]. eapply rules_unique_perm; [by symmetry|].
  by apply rules_unique_cons.
Qed.

Lemma alloc_shift_spec (fuel : nat) work shift :
  0 ≤ work < 2 ^ fuel → ∃ s, alloc_shift fuel work shift = Some s ∧ shift ≤ s ≤ shift + fuel.
Proof.
  revert work shift. induction fuel as [|fuel IH]; intros work shift Hw.
  - exists shift. simpl in Hw. replace work with 0 by lia. simpl. split; [done|lia].
  - cbn [alloc_shift]. destruct (truth work); [|exists shift; split; [done|lia]].
    destruct (IH (Z.shiftr work 1) (shift + 1)) as (s&->&Hs); [|exists s; split; [done|lia]].
    rewrite Nat2Z.inj_succ, Z.pow_succ_r in Hw by lia. rewrite Z.shiftr_div_pow2 by lia. change (2 ^ 1) with 2. split; [apply Z.div_pos; lia|apply Z.div_lt_upper_bound; lia].
Qed.

Lemma concat_replicate_nil {A} n : concat (replicate n ([] : list A)) = [].
Proof. by induction n. Qed.

(** an allocated table is empty and well-formed; at most 2^13 slots *)
Lemma avtab_alloc_wp h nrules hp :
  0 < nrules < 2 ^ 32 →
  wp (avtab_alloc h nrules) (λ '(rc, h') hp', mem_step hp hp' (rc = 0) ∧
    (rc = 0 ∧ (∃ t, avtab_wf h' t ∧ concat t = []) ∧ av_nel h' = 0 ∧ h_next hp ≤ h_next hp'
     ∨ rc = -1 ∧ av_htable h' = None)) hp.
Proof.
  intros Hn. unfold avtab_alloc. rewrite (proj2 (Z.eqb_neq _ _)) by lia.
  destruct (alloc_shift_spec 32 nrules 0) as (s&Hs&Hr); [lia|]. eapply wp_bind, wp_deref; [done|].
  set (sh := if 2 <? s then s - 2 else s). assert (0 ≤ sh ≤ 30) as Hsh by (unfold sh; destruct (Z.ltb_spec 2 s); lia).
  assert (u32 (Z.shiftl 1 sh) = 2 ^ sh) as ->.
  { rewrite Z.shiftl_1_l. apply (wrap_id 32). split; [apply Z.pow_nonneg; lia|].
    apply Z.pow_lt_mono_r; lia. }
  set (sl := if MAX_AVTAB_SIZE <? 2 ^ sh then MAX_AVTAB_SIZE else 2 ^ sh).
  assert (∃ e, 0 ≤ e ≤ 13 ∧ sl = 2 ^ e) as (e&He&Hsl).
  { unfold sl. destruct (Z.ltb_spec MAX_AVTAB_SIZE (2 ^ sh)) as [|Hle]; [by exists 13|].
    exists sh. split; [|done]. split; [lia|]. apply (Z.pow_le_mono_r_iff 2); [lia..|]. done. }
  assert (0 < sl ≤ 2 ^ 13) as Hpos.
  { rewrite Hsl. split; [apply Z.pow_pos_nonneg; lia|]. apply Z.pow_le_mono_r; lia. }
  apply wp_bind, wp_malloc_addr; intros hp1 Hm Ha; apply wp_ret; (split; [mem|]); [left|right; done].
  split_and!; [done| |done|lia]. exists (replicate (Z.to_nat sl) []). split; [|apply concat_replicate_nil].
  split; cbn [av_htable nslot mask av_nel].
  - done.
  - rewrite length_replicate. split_and!; [lia|lia|change MAX_AVTAB_SIZE with (2 ^ 13); lia|].
    apply (wrap_id 16); lia.
  - intros i c Hc%lookup_replicate_1. destruct Hc as [-> _]. constructor.
  - intros i c nd Hc%lookup_replicate_1. destruct Hc as [-> _]. by intros ?%elem_of_nil.
  - by rewrite concat_replicate_nil.
Qed.

Lemma truth_land_lor x a b : truth (Z.land x (Z.lor a b)) = truth (Z.land x a) || truth (Z.land x b).
Proof.
  rewrite Z.land_lor_distr_r. apply eq_true_iff_eq. rewrite orb_true_iff, !truth_true, Z.lor_eq_0_iff.
  destruct (decide (Z.land x a = 0)), (decide (Z.land x b = 0)); naive_solver.
Qed.

(** a rule holds access vectors or types, so at most three data *)
Lemma spec_order_count val :
  truth (Z.land val AVTAB_AV) && truth (Z.land val AVTAB_TYPE) = false →
  (length (filter (λ s, truth (Z.land val s) = true) spec_order) ≤ 3)%nat.
Proof.
  unfold AVTAB_AV, AVTAB_TYPE, spec_order. rewrite !truth_land_lor, !filter_cons.
  intros Hv. destruct (truth (Z.land val AVTAB_ALLOWED)), (truth (Z.land val AVTAB_AUDITALLOW)),
    (truth (Z.land val AVTAB_AUDITDENY)); simpl in Hv;
    repeat case_decide; simpl; try lia; exfalso;
    repeat match goal with H : truth _ = true |- _ => rewrite H in Hv; clear H end;
    rewrite ?orb_true_r in Hv; done.
Qed.

Lemma wp_word junk buf i (Q : Z → heap → Prop) hp :
  0 ≤ i < 7 → (∀ v, 0 ≤ v < 2 ^ 32 → Q v hp) → wp (read_buf32 junk buf i) Q hp.
Proof.
  intros Hi HQ. eapply wp_deref; [by rewrite (proj2 (Z.ltb_lt _ _)) by lia|].
  apply HQ. pose proof (le_to_cpu_range 4 (buf ++ drop (length buf) junk) (Z.to_nat i)) as Hr.
  change (256 ^ 4%nat) with (2 ^ 32) in Hr. lia.
Qed.

(** the kinds of [spec_order] are not flags *)
Lemma single_kind_enabled k :
  length (filter (λ s, truth (Z.land (specified k) s) = true) spec_order) ≠ 0%nat →
  truth (without_enabled (specified k)) = true.
Proof.
  intros Hn. destruct (filter _ spec_order) as [|s l] eqn:E; [done|].
  assert (s ∈ filter (λ s, truth (Z.land (specified k) s) = true) spec_order) as [Ht Hin]%list_elem_of_filter
    by (rewrite E; by left).
  rewrite truth_true in Ht |- *. intros H0. apply Ht. rewrite Z.land_comm.
  assert (Z.land s (u32 (Z.lnot (Z.lor AVTAB_ENABLED AVTAB_ENABLED_OLD))) = s) as <-.
  { repeat (apply elem_of_cons in Hin as [-> |Hin]; [done|]). by apply elem_of_nil in Hin. }
  rewrite <- Z.land_assoc, (Z.land_comm (u32 _)). unfold without_enabled in H0. by rewrite H0, Z.land_0_r.
Qed.

(** Reading an item is safe on any bytes, whatever the uninitialised words of
    the buffer hold, and keeps what [insertf] keeps of well-formed rules when it
    succeeds. *)
Section read_item.
Context {A : Type} (insertf : avtab_key → avtab_datum → A → CM (Z * A)) (I : A → heap → Prop).
Context (insertf_ok : ∀ k d a hp, key_wf k → truth (without_enabled (specified k)) = true → I a hp →
  wp (insertf k d a) (λ '(rc, a') hp', truth rc = false → I a' hp') hp).

Lemma read_item_old_loop_ok junk buf k val enabled items a hp :
  key_wf k → (enabled = 0 ∨ enabled = AVTAB_ENABLED) → 0 ≤ items →
  items + length (filter (λ s, truth (Z.land val s) = true) spec_order) ≤ 7 → I a hp →
  wp (read_item_old_loop insertf (read_buf32 junk buf) k val enabled items a)
    (λ r hp', match r with inl (rc, _) => truth rc = true | inr (_, a') => I a' hp' end) hp.
Proof.
  intros (Hs&Ht&Hc&_) He Hit Hn Ha. unfold read_item_old_loop.
  apply (wp_for_list (λ rest '(items, a) hp, 0 ≤ items ∧ I a hp ∧
    items + length (filter (λ s, truth (Z.land val s) = true) rest) ≤ 7)); [done| |by intros [] ? (?&?&?)].
  clear items a hp Hit Hn Ha. intros spec rest [items a] hp Hin (Hit&Ha&Hn). rewrite filter_cons in Hn.
  destruct (truth (Z.land val spec)); cycle 1.
  { rewrite decide_False in Hn by done. by apply wp_ret. }
  rewrite decide_True in Hn by done. cbn [length] in Hn. apply wp_bind, wp_word; [lia|]. intros v Hv.
  apply wp_bind. eapply wp_mono.
  - apply insertf_ok; [| |exact Ha].
    + split_and!; [cbn; lia..| |]; cbn [specified];
        (destruct He as [-> | ->]; repeat (apply elem_of_cons in Hin as [-> |Hin]; [by vm_compute|]);
         by apply elem_of_nil in Hin).
    + cbn [specified]. destruct He as [-> | ->]; repeat (apply elem_of_cons in Hin as [-> |Hin]; [by vm_compute|]);
         by apply elem_of_nil in Hin.
  - intros [rc a'] hp' Ha'. apply wp_ret. destruct (truth rc) eqn:Et; [done|]. split_and!; [lia|by apply Ha'|lia].
Qed.

Lemma avtab_read_item_sound junk bs vers a hp :
  I a hp → wp (avtab_read_item insertf junk (mem_input bs) vers a) (λ '(rc, a', fp) hp',
    (truth rc = false → I a' hp') ∧ ∃ bs', fp = mem_input bs' ∧ length bs' ≤ length bs) hp.
Proof.
  intros Ha. unfold avtab_read_item.
  assert (Hbad : ∀ a bs' hp', length bs' ≤ length bs → wp (mret (-1, a, mem_input bs')) (λ '(rc, a', fp) hp',
    (truth rc = false → I a' hp') ∧ ∃ bs', fp = mem_input bs' ∧ length bs' ≤ length bs) hp').
  { intros a' bs' hp' Hl. apply wp_ret. split; [done|by exists bs']. }
  destruct (vers <? POLICYDB_VERSION_AVTAB); [unfold avtab_read_item_old|unfold avtab_read_item_new].
  - apply wp_bind. unfold wp at 1. destruct (mem_input_next bs 4 hp ltac:(lia)) as (rc&buf&bs1&->&_&Hl1).
    destruct (rc <? 0); [apply Hbad; lia|].
    destruct (_ || _); [apply Hbad; lia|]. pose proof (le_to_cpu_range 4 buf 0) as Hr.
    set (items2 := le_to_cpu 4 buf 0) in *. apply wp_bind. unfold wp at 1.
    destruct (mem_input_next bs1 (szt (4 * items2)) hp) as (rc2&buf2&bs2&->&_&Hl2).
    { apply wrap_range. pose proof size_t_ge. lia. }
    destruct (rc2 <? 0); [apply Hbad; lia|].
    apply wp_bind, wp_word; [lia|]. intros v0 _. destruct (negb _); [apply Hbad; lia|].
    apply wp_bind, wp_word; [lia|]. intros v1 _. destruct (negb _); [apply Hbad; lia|].
    apply wp_bind, wp_word; [lia|]. intros v2 _. destruct (negb _); [apply Hbad; lia|].
    apply wp_bind, wp_word; [lia|]. intros v3 _. destruct (negb _); [apply Hbad; lia|].
    destruct (_ && _) eqn:Eb; [apply Hbad; lia|]. apply spec_order_count in Eb.
    apply wp_bind. eapply wp_mono; [apply read_item_old_loop_ok; [| |lia|lia|exact Ha]|].
    + split_and!; cbn; try apply wrap_range; lia.
    + destruct (truth _); auto.
    + intros [[rc3 a3]|[items a3]] hp3 Ha3; [apply wp_ret; split; [by rewrite Ha3|exists bs2; split; [done|lia]]|].
      destruct (negb _); [apply Hbad; lia|]. apply wp_ret. split; [done|exists bs2; split; [done|lia]].
  - apply wp_bind. unfold wp at 1. destruct (mem_input_next bs 8 hp ltac:(lia)) as (rc&buf&bs1&->&_&Hl1).
    destruct (rc <? 0); [apply Hbad; lia|].
    set (k := AvKey _ _ _ _). set (n := length _). destruct (_ || _) eqn:En; [apply Hbad; lia|].
    apply wp_bind. unfold wp at 1. destruct (mem_input_next bs1 4 hp ltac:(lia)) as (rc2&buf2&bs2&->&_&Hl2).
    destruct (rc2 <? 0); [apply Hbad; lia|].
    apply orb_false_iff in En as [E0 _]. apply negb_false_iff, truth_true in E0.
    apply wp_bind. eapply wp_mono; [apply insertf_ok; [| |exact Ha]|].
    + unfold k. refine (conj _ (conj _ (conj _ _))); apply (le_to_cpu_range 2).
    + apply single_kind_enabled. unfold n in E0. lia.
    + intros [rc3 a3] hp3 Ha3. apply wp_ret. split; [done|exists bs2; split; [done|lia]].
Qed.
End read_item.

Lemma avtab_destroy_table h : av_htable (avtab_destroy h) = None.
Proof. unfold avtab_destroy. by destruct (av_htable h) eqn:E. Qed.

Lemma avtab_read_checks junk h bs vers hp :
  wp (avtab_read junk h (mem_input bs) vers) (λ '(rc, h', fp) _,
    (rc = 0 ∧ (∃ t, avtab_ok h' t) ∨ rc = -1 ∧ av_htable h' = None) ∧ ∃ bs', fp = mem_input bs' ∧ length bs' ≤ length bs) hp.
Proof.
  assert (Hbad : ∀ h bs' hp, length bs' ≤ length bs → wp (mret (-1, avtab_destroy h, mem_input bs')) (λ '(rc, h', fp) _,
    (rc = 0 ∧ (∃ t, avtab_ok h' t) ∨ rc = -1 ∧ av_htable h' = None) ∧ ∃ bs', fp = mem_input bs' ∧ length bs' ≤ length bs) hp).
  { intros. apply wp_ret. split; [right; split; [done|apply avtab_destroy_table]|by eexists]. }
  unfold avtab_read. apply wp_bind. unfold wp at 1.
  destruct (mem_input_next bs 4 hp ltac:(lia)) as (rc&buf&bs1&->&_&Hl1). destruct (rc <? 0); [by apply Hbad|].
  pose proof (le_to_cpu_range 4 buf 0) as Hr. change (256 ^ 4%nat) with (2 ^ 32) in Hr.
  set (nel := le_to_cpu 4 buf 0) in *. destruct (truth nel) eqn:En; cbn [negb]; [|by apply Hbad].
  apply truth_true in En. apply wp_bind. eapply wp_mono; [apply avtab_alloc_wp; lia|].
  intros [rc1 h1] hp1 [_ Ha]. destruct (truth rc1) eqn:Et; [by apply Hbad|]. apply truth_false in Et.
  destruct Ha as [(_&(t&Hwf&Hc)&_)|[? _]]; [|lia]. apply wp_bind.
  apply (wp_for_loop (λ _ '(h, fp) _, (∃ t, avtab_ok h t) ∧ ∃ bs', fp = mem_input bs' ∧ length bs' ≤ length bs)).
  - split; [|by eexists]. exists t. split; [done|]. rewrite Hc. constructor.
  - intros i [h2 fp] hp2 _ [Hok (bs2&->&Hl2)]. apply wp_bind. eapply wp_mono.
    + apply (avtab_read_item_sound avtab_insertf (λ h _, ∃ t, avtab_ok h t)); [|exact Hok].
      intros k d a hp' Hk Ht [t' Hok']. eapply wp_mono; [by apply (avtab_insertf_ok a t')|].
      intros [rc3 a3] _ (t3&?&_) _. by exists t3.
    + intros [[rc3 h3] fp] hp3 [Hok' (bs3&->&Hl3)]. apply wp_ret. destruct (truth rc3); [apply Hbad; lia|].
      split; [by apply Hok'|]. exists bs3. split; [done|lia].
  - intros [h2 fp] hp2 [Hok (bs2&->&Hl2)]. apply wp_ret. split; [by left|by eexists].
Qed.

Lemma length_rule_bytes r : length (rule_bytes r) = 12%nat.
Proof. unfold rule_bytes. by rewrite length_app, !length_cpu_to_le. Qed.

Lemma write_item_mem nd out room :
  12 ≤ room →
  avtab_write_item_new nd (mem_output out room) = (0, mem_output (out ++ rule_bytes (rule_of nd)) (room - 12)).
Proof.
  intros Hroom. unfold avtab_write_item_new.
  rewrite put_entry_mem by (rewrite ?length_cpu_to_le; simpl; lia). cbn [Z.eqb negb Pos.eqb].
  rewrite put_entry_mem by (rewrite ?length_cpu_to_le; simpl; lia). cbn [Z.eqb negb Pos.eqb].
  unfold rule_bytes, rule_of. cbn [fst snd]. rewrite app_assoc. do 2 f_equal. lia.
Qed.

Definition rules_bytes l : list byte := l ≫= (λ nd, rule_bytes (rule_of nd)).
Lemma length_rules_bytes l : length (rules_bytes l) = (12 * length l)%nat.
Proof.
  unfold rules_bytes. induction l as [|nd l IH]; [done|].
  rewrite bind_cons, length_app, length_rule_bytes, IH. cbn [length]. lia.
Qed.
Lemma rules_bytes_app l l' : rules_bytes (l ++ l') = rules_bytes l ++ rules_bytes l'.
Proof. apply bind_app. Qed.

Lemma write_chain_mem l out room hp (Q : policy_file + policy_file → heap → Prop) :
  12 * length l ≤ room → Q (inr (mem_output (out ++ rules_bytes l) (room - 12 * length l))) hp →
  wp (for_list l (λ nd fp, let '(rc, fp) := avtab_write_item_new nd fp in
                   mret (if truth rc then inl fp else inr fp)) (mem_output out room)) Q hp.
Proof.
  revert out room. induction l as [|nd l IH]; intros out room Hroom HQ.
  { apply wp_ret. unfold rules_bytes in HQ. by rewrite app_nil_r, Z.sub_0_r in HQ. }
  cbn [for_list length] in *. rewrite write_item_mem by lia. apply wp_bind, wp_ret.
  cbn [truth negb Z.eqb]. apply IH; [lia|]. unfold rules_bytes in HQ. rewrite bind_cons, app_assoc in HQ.
  match goal with |- Q (inr (mem_output _ ?r)) _ => replace r with (room - 12 * S (length l)) by lia end. done.
Qed.

(** [avtab_write] to memory writes the number of rules and the rules in the
    order of the slots *)
Lemma avtab_write_mem h t out room hp :
  avtab_wf h t → 4 + 12 * length (concat t) ≤ room →
  wp (avtab_write_new h (mem_output out room)) (λ '(rc, fp) hp', rc = 0 ∧ hp' = hp ∧
    fp = mem_output (out ++ cpu_to_le 4 [av_nel h] ++ rules_bytes (concat t)) (room - 4 - 12 * length (concat t))) hp.
Proof.
  intros Hwf Hroom. unfold avtab_write_new.
  rewrite put_entry_mem by (rewrite ?length_cpu_to_le; simpl; lia). cbn [Z.eqb negb Pos.eqb].
  destruct (av_slots _ _ Hwf) as (Hl&Hn&_). apply wp_bind.
  apply (wp_for_loop (λ i fp hp', hp' = hp ∧
    fp = mem_output (out ++ cpu_to_le 4 [av_nel h] ++ rules_bytes (concat (take (Z.to_nat i) t)))
           (room - 4 - 12 * length (concat (take (Z.to_nat i) t))))).
  - split; [done|]. change (rules_bytes (concat (take (Z.to_nat 0) t))) with (@nil byte). change (concat (take (Z.to_nat 0) t)) with (@nil avtab_node). rewrite app_nil_r. cbn [length]. f_equal. lia.
  - intros i fp hp' Hi [-> ->]. rewrite (av_table _ _ Hwf). apply wp_bind. eapply wp_deref; [done|].
    destruct (lookup_lt_is_Some_2 t (Z.to_nat i)) as [c Hc]; [lia|].
    assert (av_slot t i = Some c) as Hs by (unfold av_slot; by rewrite (proj2 (Z.ltb_ge _ _)) by lia).
    eapply wp_bind, wp_deref; [done|].
    assert (concat (take (Z.to_nat (i + 1)) t) = concat (take (Z.to_nat i) t) ++ c) as Htake.
    { replace (Z.to_nat (i + 1)) with (S (Z.to_nat i)) by lia. erewrite take_S_r by done.
      rewrite concat_app. simpl. by rewrite app_nil_r. }
    assert (concat t = concat (take (Z.to_nat (i + 1)) t) ++ concat (drop (Z.to_nat (i + 1)) t)) as Hct
      by by rewrite <- concat_app, take_drop.
    rewrite Hct, Htake, !length_app in Hroom. apply write_chain_mem; [lia|]. split; [done|].
    rewrite Htake, rules_bytes_app, <- !app_assoc, length_app. f_equal. lia.
  - intros fp hp' [-> ->]. apply wp_ret. split_and!; [done..|].
    replace (Z.to_nat (0 `max` nslot h)) with (length t) by lia. by rewrite firstn_all.
Qed.

(** reading one rule from the bytes it was written as *)
Lemma read_item_bytes {A} (insertf : avtab_key → avtab_datum → A → CM (Z * A)) junk vers nd rest a hp (Q : Z * A * policy_file → heap → Prop) :
  POLICYDB_VERSION_AVTAB ≤ vers → key_wf (key nd) → 0 ≤ data (datum nd) < 2 ^ 32 → single_kind (key nd) →
  wp (insertf (key nd) (datum nd) a) (λ '(rc, a'), Q (rc, a', mem_input rest)) hp →
  wp (avtab_read_item insertf junk (mem_input (rule_bytes (rule_of nd) ++ rest)) vers a) Q hp.
Proof.
  intros Hv Hk Hd Hs HQ. unfold avtab_read_item. rewrite (proj2 (Z.ltb_ge _ _)) by done.
  unfold avtab_read_item_new, rule_bytes, rule_of. cbn [fst snd]. rewrite <- app_assoc.
  apply wp_bind. unfold wp at 1. rewrite next_entry_app by (by rewrite length_cpu_to_le).
  cbn [Z.ltb Z.compare]. set (words := cpu_to_le 2 _).
  assert (∀ i z, [source_type (key nd); target_type (key nd); target_class (key nd); specified (key nd)] !! i = Some z →
    0 ≤ z < 2 ^ 16 → le_to_cpu 2 words i = z) as Hw.
  { intros i z Hi Hz. unfold words. rewrite <- (app_nil_r (cpu_to_le 2 _)).
    erewrite le_to_cpu_to_le by done. by apply Z.mod_small. }
  destruct Hk as (H0&H1&H2&H3).
  rewrite (Hw 0%nat (source_type (key nd))), (Hw 1%nat (target_type (key nd))),
    (Hw 2%nat (target_class (key nd))), (Hw 3%nat (specified (key nd))) by done.
  cbn [specified]. unfold single_kind in Hs. rewrite Hs. change (negb (truth 1%nat) || (1 <? 1%nat)) with false. cbv iota.
  apply wp_bind. unfold wp at 1. rewrite next_entry_app by (by rewrite length_cpu_to_le).
  cbn [Z.ltb Z.compare]. rewrite <- (app_nil_r (cpu_to_le 4 _)). erewrite le_to_cpu_to_le by done.
  rewrite Z.mod_small by done.
  replace (AvKey _ _ _ _) with (key nd) by by destruct (key nd).
  replace (AvDatum (data (datum nd))) with (datum nd) by by destruct (datum nd).
  apply wp_bind. eapply wp_mono; [exact HQ|]. intros [rc a'] hp' Hr. by apply wp_ret.
Qed.
Lemma read_item_mem junk vers nd h t rest hp :
  POLICYDB_VERSION_AVTAB ≤ vers → avtab_wf h t → key_wf (key nd) → 0 ≤ data (datum nd) < 2 ^ 32 →
  single_kind (key nd) → matching (key nd) (without_enabled (specified (key nd))) (concat t) = [] →
  wp (avtab_read_item avtab_insertf junk (mem_input (rule_bytes (rule_of nd) ++ rest)) vers h)
    (λ '(rc, h', fp) hp', mem_step hp hp' (rc = 0) ∧ fp = mem_input rest ∧
      (rc = 0 → ∃ a t', avtab_wf h' t' ∧ concat t' ≡ₚ AvNode a (key nd) (datum nd) 0 0 :: concat t)) hp.
Proof.
  intros Hv Hwf Hk Hd Hs Hm. apply read_item_bytes; [done..|].
  eapply wp_mono; [by apply avtab_insert_wp|]. intros [rc h'] hp' [Hmem Hr].
  destruct (without_enabled_range (specified (key nd))) as (_&Hu&_); [apply Hk|]. rewrite Hu, decide_True in Hr by done.
  destruct Hr as [(a&t'&->&Hwf'&Hp&_)|[-> ->]].
  - split_and!; [mem|done|]. intros _. by exists a, t'.
  - split_and!; [|done|done]. intros Ho. by destruct (Hmem Ho).
Qed.

Lemma matching_rules k spec l l' :
  rule_of <$> l ≡ₚ rule_of <$> l' → matching k spec l = [] → matching k spec l' = [].
Proof.
  rewrite !filter_none. intros Hp Hn nd Hin Hm.
  assert (rule_of nd ∈ rule_of <$> l) as (nd'&He&Hin')%list_elem_of_fmap by (rewrite Hp; apply list_elem_of_fmap_2; done).
  apply (Hn nd' Hin'). unfold rule_of in He. by injection He as <- _.
Qed.
Lemma rules_unique_before done nd todo :
  rules_unique (done ++ nd :: todo) → matching (key nd) (without_enabled (specified (key nd))) done = [].
Proof.
  intros Hu. unfold rules_unique in Hu. rewrite Forall_forall in Hu.
  assert (nd ∈ done ++ nd :: todo) as Hin by (apply elem_of_app; right; by left).
  pose proof (Hu nd Hin) as Hnd. rewrite filter_app in Hnd.
  assert (nd ∈ matching (key nd) (without_enabled (specified (key nd))) (nd :: todo)) as Hin'.
  { apply list_elem_of_filter. split; [|by left].
    assert (nd ∈ [nd]) as Hx by by left. rewrite <- Hnd, <- filter_app in Hx.
    by apply list_elem_of_filter in Hx as [? _]. }
  destruct (matching _ _ done) as [|x d]; [done|]. destruct (matching _ _ (nd :: todo)); [by apply elem_of_nil in Hin'|].
  apply (f_equal length) in Hnd. rewrite length_app in Hnd. simpl in Hnd. lia.
Qed.

Definition writable_rule nd : Prop :=
  key_wf (key nd) ∧ 0 ≤ data (datum nd) < 2 ^ 32 ∧ single_kind (key nd).

Lemma avtab_read_mem junk vers h rules rest hp :
  POLICYDB_VERSION_AVTAB ≤ vers → rules_unique rules → Forall writable_rule rules →
  0 < length rules < 2 ^ 32 →
  wp (avtab_read junk h (mem_input (cpu_to_le 4 [Z.of_nat (length rules)] ++ rules_bytes rules ++ rest)) vers)
    (λ '(rc, h', fp) hp', mem_step hp hp' (rc = 0) ∧
      (rc = 0 ∧ fp = mem_input rest ∧ (∃ t', avtab_wf h' t' ∧ rule_of <$> concat t' ≡ₚ rule_of <$> rules)
       ∨ rc = -1 ∧ av_htable h' = None)) hp.
Proof.
  intros Hv Hu Hwr Hn. unfold avtab_read. apply wp_bind. unfold wp at 1.
  rewrite next_entry_app by (by rewrite length_cpu_to_le). cbn [Z.ltb Z.compare].
  rewrite <- (app_nil_r (cpu_to_le 4 _)). erewrite le_to_cpu_to_le by done. rewrite Z.mod_small by (simpl; lia).
  rewrite (proj2 (truth_true _)) by lia. cbn [negb]. apply wp_bind.
  eapply wp_mono; [apply avtab_alloc_wp; lia|]. intros [rc1 h1] hp1 [Hm1 Ha].
  destruct Ha as [(->&(t1&Hwf1&Hc1)&_)|[-> Hnone]]; cycle 1.
  { apply wp_ret. split; [intros Ho; by destruct (Hm1 Ho)|right; split; [done|apply avtab_destroy_table]]. }
  change (truth 0) with false. cbv iota. apply wp_bind.
  apply (wp_for_loop (λ i '(h, fp) hp', mem_step hp hp' True ∧ ∃ before todo t, rules = before ++ todo ∧
    i = length before ∧ fp = mem_input (rules_bytes todo ++ rest) ∧ avtab_wf h t ∧
    rule_of <$> concat t ≡ₚ rule_of <$> before)).
  - split; [mem|]. exists [], rules, t1. by rewrite Hc1.
  - intros i [h2 fp] hp2 Hi (Hm2&before&todo&t2&->&->&->&Hwf2&Hp2).
    destruct todo as [|nd todo]; [rewrite app_nil_r in Hi; lia|].
    assert (writable_rule nd) as (Hk&Hd&Hs) by by apply Forall_app in Hwr as [_ [? _]%Forall_cons].
    unfold rules_bytes. rewrite bind_cons, <- app_assoc. apply wp_bind.
    eapply wp_mono; [apply (read_item_mem junk vers nd h2 t2); try done|].
    { eapply matching_rules; [by symmetry|]. by eapply rules_unique_before. }
    intros [[rc h3] fp] hp3 (Hm3&->&Hr). apply wp_ret. destruct (truth rc) eqn:Et.
    + apply truth_true in Et. apply wp_ret. split; [|right; split; [done|apply avtab_destroy_table]].
      intros Ho. destruct (Hm2 Ho) as [Ho2 _]. by destruct (Hm3 Ho2).
    + apply truth_false in Et. split; [mem|]. destruct (Hr Et) as (a&t'&Hwf'&Hp').
      exists (before ++ [nd]), todo, t'. rewrite <- app_assoc, length_app. split_and!; [done|simpl; lia|done..|].
      rewrite Hp', fmap_cons, Hp2, fmap_app. simpl. by rewrite Permutation_app_comm.
  - intros [h2 fp] hp2 (Hm2&before&todo&t2&->&Hl&->&Hwf2&Hp2). apply wp_ret. rewrite length_app in Hl.
    assert (todo = []) as -> by (apply length_zero_iff_nil; lia). rewrite app_nil_r.
    split; [mem|left]. split_and!; [done..|]. by exists t2.
Qed.
End theory.

(** ** Properties *)

(** on any bytes, in either format and whatever the uninitialised words of
    the item buffer hold, [avtab_read] terminates without undefined behaviour;
    a table it accepts is well-formed and no two of its rules overlap; when it
    fails the table has no array left. *)
Theorem avtab_read_sound `{Target} junk h bs vers hp :
  wp (avtab_read junk h (mem_input bs) vers) (λ '(rc, h', fp) _,
    (rc = 0 ∧ (∃ t, avtab_wf h' t ∧ rules_unique (concat t)) ∨ rc = -1 ∧ av_htable h' = None) ∧
    ∃ bs', fp = mem_input bs') hp.
Proof. eapply wp_mono; [apply avtab_read_checks|]. intros [[rc h'] fp] hp' [Hr (bs'&->&_)]. split; [done|by exists bs']. Qed.

(** round trip.  Writing a non-empty table of rules that do not overlap to
    a memory buffer with enough room succeeds, and reading the bytes back
    yields a well-formed table of the same rules and leaves the file just
    after them, or fails without a table when an allocation fails. *)
Theorem avtab_write_read `{Target} junk vers h0 h t room rest hp :
  avtab_wf h t → rules_unique (concat t) → Forall writable_rule (concat t) →
  0 < length (concat t) < 2 ^ 32 → 4 + 12 * length (concat t) ≤ room → POLICYDB_VERSION_AVTAB ≤ vers →
  wp (avtab_write_new h (mem_output [] room)) (λ '(rc, out) hp', rc = 0 ∧ hp' = hp ∧
    wp (avtab_read junk h0 (mem_input (pf_out out ++ rest)) vers) (λ '(rc, h', fp) hp', (mem_ok hp → rc = 0) ∧
      (rc = 0 ∧ fp = mem_input rest ∧ (∃ t', avtab_wf h' t' ∧ rule_of <$> concat t' ≡ₚ rule_of <$> concat t)
       ∨ rc = -1 ∧ av_htable h' = None)) hp) hp.
Proof.
  intros Hwf Hu Hwr Hn Hroom Hv. eapply wp_mono; [by apply avtab_write_mem|].
  intros [rc out] hp' (->&->&->). split_and!; [done..|]. cbn [pf_out mem_output app].
  rewrite (av_count _ _ Hwf), <- app_assoc. unfold u32. rewrite wrap_id by lia.
  eapply wp_mono; [by apply avtab_read_mem|]. intros [[rc h'] fp] hp' [Hm Hr]. split; [|done].
  intros Ho. by destruct (Hm Ho).
Qed.

(** witness of [avtab_write_read] *)
Lemma avtab_write_read_witness :
  let h := Example.table in let t := Example.slots in
  wp (@avtab_write_new target_arm h (mem_output [] 100)) (λ '(rc, out) hp', rc = 0 ∧ hp' = fresh_heap ∧
    wp (@avtab_read target_arm [] h (mem_input (pf_out out ++ [x2a])) 26) (λ '(rc, h', fp) hp', (mem_ok fresh_heap → rc = 0) ∧
      (rc = 0 ∧ fp = mem_input [x2a] ∧ (∃ t', avtab_wf h' t' ∧ rule_of <$> concat t' ≡ₚ rule_of <$> concat t)
       ∨ rc = -1 ∧ av_htable h' = None)) fresh_heap) fresh_heap.
Proof.
  apply (@avtab_write_read target_arm [] 26 Example.table Example.table Example.slots 100 [x2a] fresh_heap).
  - apply Example.table_wf.
  - by repeat constructor.
  - by repeat constructor.
  - done.
  - done.
  - done.
Defined.
