(* ===== verification/Context.v ===== *)
(** * Security contexts and MLS levels ([mls_types.h], [context.h], the
    semantic levels of [mls.c])

    A level is a sensitivity with a set of categories; a range is a pair of
    levels; a context is a user, a role, a type and a range.  The copies
    allocate, and may leave part of the destination written when they fail. *)

From S2P Require Import Prelude Ebitmap.

(** ** Data *)

Record mls_level := MlsLevel { sens : Z; cat : ebitmap }.
(** [low_level] is [level[0]], [high_level] is [level[1]] *)
Record mls_range := MlsRange { low_level : mls_level; high_level : mls_level }.
Record context_struct := Context { c_user : Z; c_role : Z; c_type : Z; c_range : mls_range }.

(** the closed intervals of categories of a level as written in a policy *)
Record mls_semantic_cat := SemCat { sc_low : Z; sc_high : Z }.
Record mls_semantic_level := SemLevel { sl_sens : Z; sl_cat : list mls_semantic_cat }.
Record mls_semantic_range := SemRange { sr_low : mls_semantic_level; sr_high : mls_semantic_level }.

#[export] Instance mls_level_eq_dec : EqDecision mls_level.
Proof. solve_decision. Defined.
#[export] Instance mls_range_eq_dec : EqDecision mls_range.
Proof. solve_decision. Defined.
#[export] Instance context_struct_eq_dec : EqDecision context_struct.
Proof. solve_decision. Defined.

(** ** Levels *)

Definition mls_level_init : mls_level := MlsLevel 0 (Ebitmap [] 0).
Definition mls_level_destroy (level : mls_level) : mls_level := mls_level_init.

(** returns the code and the destination, which is written in any case *)
Definition mls_level_cpy (src : mls_level) : CM (Z * mls_level) :=
  '(rc, c) ← ebitmap_cpy (cat src);
  mret (if rc <? 0 then -1 else 0, MlsLevel (sens src) c).

Definition mls_level_eq (l1 l2 : mls_level) : bool :=
  (sens l1 =? sens l2) && truth (ebitmap_cmp (cat l1) (cat l2)).
Definition mls_level_dom (l1 l2 : mls_level) : bool :=
  (sens l2 <=? sens l1) && truth (ebitmap_contains (cat l1) (cat l2)).
Definition mls_level_incomp (l1 l2 : mls_level) : bool :=
  negb (mls_level_dom l1 l2) && negb (mls_level_dom l2 l1).
Definition mls_level_between (l1 l2 l3 : mls_level) : bool :=
  mls_level_dom l1 l2 && mls_level_dom l3 l1.
Definition mls_range_contains (r1 r2 : mls_range) : bool :=
  mls_level_dom (low_level r2) (low_level r1) && mls_level_dom (high_level r1) (high_level r2).

(** ** Ranges and contexts *)

Definition mls_range_init : mls_range := MlsRange mls_level_init mls_level_init.
Definition mls_range_destroy (r : mls_range) : mls_range :=
  MlsRange (mls_level_destroy (low_level r)) (mls_level_destroy (high_level r)).
Definition mls_range_eq (r1 r2 : mls_range) : bool :=
  mls_level_eq (low_level r1) (low_level r2) && mls_level_eq (high_level r1) (high_level r2).

Definition mls_range_cpy (dst src : mls_range) : CM (Z * mls_range) :=
  '(rc, l0) ← mls_level_cpy (low_level src);
  if rc <? 0 then mret (-1, MlsRange l0 (high_level dst)) else
  '(rc, l1) ← mls_level_cpy (high_level src);
  if rc <? 0 then mret (-1, MlsRange (mls_level_destroy l0) l1) else mret (0, MlsRange l0 l1).

Definition context_init : context_struct := Context 0 0 0 mls_range_init.
Definition mls_context_init (c : context_struct) : context_struct :=
  Context (c_user c) (c_role c) (c_type c) mls_range_init.
Definition mls_context_destroy (c : context_struct) : context_struct :=
  mls_context_init (Context (c_user c) (c_role c) (c_type c) (mls_range_destroy (c_range c))).
Definition context_destroy (c : context_struct) : context_struct :=
  mls_context_destroy (Context 0 0 0 (c_range c)).

Definition mls_context_cpy (dst src : context_struct) : CM (Z * context_struct) :=
  '(rc, r) ← mls_range_cpy (c_range dst) (c_range src);
  mret (if rc <? 0 then -1 else 0, Context (c_user dst) (c_role dst) (c_type dst) r).
Definition context_cpy (dst src : context_struct) : CM (Z * context_struct) :=
  mls_context_cpy (Context (c_user src) (c_role src) (c_type src) (c_range dst)) src.

Definition mls_context_cmp (c1 c2 : context_struct) : bool :=
  mls_level_eq (low_level (c_range c1)) (low_level (c_range c2)) &&
  mls_level_eq (high_level (c_range c1)) (high_level (c_range c2)).
Definition context_cmp (c1 c2 : context_struct) : bool :=
  (c_user c1 =? c_user c2) && (c_role c1 =? c_role c2) && (c_type c1 =? c_type c2) &&
  mls_context_cmp c1 c2.

(** ** Semantic levels *)

Definition mls_semantic_cat_init : mls_semantic_cat := SemCat 0 0.
Definition mls_semantic_level_init : mls_semantic_level := SemLevel 0 [].
(** frees the categories; the fields keep their values, so the level must not
    be used again *)
Definition mls_semantic_level_destroy (l : mls_semantic_level) : unit := ().

(** the loop of [mls_semantic_level_cpy]: the categories copied, [None] when
    an allocation fails and the copy is destroyed *)
Fixpoint semantic_cats_cpy (c : list mls_semantic_cat) : CM (option (list mls_semantic_cat)) :=
  match c with
  | [] => mret (Some [])
  | x :: next =>
      newcat ← malloc;
      match newcat with
      | None => mret None
      | Some _ => r ← semantic_cats_cpy next; mret (cons (SemCat (sc_low x) (sc_high x)) <$> r)
      end
  end.
(** [None]: -1, and nothing of the copy is left *)
Definition mls_semantic_level_cpy (src : mls_semantic_level) : CM (option mls_semantic_level) :=
  r ← semantic_cats_cpy (sl_cat src);
  mret (SemLevel (sl_sens src) <$> r).
Definition mls_semantic_range_cpy (src : mls_semantic_range) : CM (option mls_semantic_range) :=
  l0 ← mls_semantic_level_cpy (sr_low src);
  match l0 with
  | None => mret None
  | Some l0 =>
      l1 ← mls_semantic_level_cpy (sr_high src);
      mret (SemRange l0 <$> l1)
  end.

(** ** Theory *)

Definition level_wf (l : mls_level) : Prop := ebitmap_wf (cat l).
Definition range_wf (r : mls_range) : Prop := level_wf (low_level r) ∧ level_wf (high_level r).
Definition context_wf (c : context_struct) : Prop := range_wf (c_range c).
(** the order of the levels *)
Definition level_le (l1 l2 : mls_level) : Prop :=
  sens l1 ≤ sens l2 ∧ ebitmap_set (cat l1) ⊆ ebitmap_set (cat l2).

Section theory.
Implicit Types (l : mls_level) (c : context_struct).

Lemma ebitmap_cmp_eq e1 e2 : truth (ebitmap_cmp e1 e2) = bool_decide (e1 = e2).
Proof. rewrite ebitmap_cmp_decide. apply truth_cbool. Qed.

Lemma mls_level_eq_true l1 l2 : mls_level_eq l1 l2 = true ↔ l1 = l2.
Proof.
  unfold mls_level_eq. rewrite ebitmap_cmp_eq, andb_true_iff, Z.eqb_eq, bool_decide_eq_true.
  destruct l1, l2; simpl. naive_solver.
Qed.
Lemma context_cmp_true c1 c2 : context_cmp c1 c2 = true ↔ c1 = c2.
Proof.
  unfold context_cmp, mls_context_cmp. rewrite !andb_true_iff, !Z.eqb_eq, !mls_level_eq_true.
  destruct c1 as [? ? ? []], c2 as [? ? ? []]; simpl. naive_solver.
Qed.

Lemma mls_level_dom_le l1 l2 : level_wf l1 → level_wf l2 → mls_level_dom l1 l2 = true ↔ level_le l2 l1.
Proof.
  intros. unfold mls_level_dom, level_le.
  by rewrite ebitmap_contains_set, truth_cbool, andb_true_iff, Z.leb_le, bool_decide_eq_true.
Qed.
Lemma level_le_refl l : level_le l l.
Proof. by split. Qed.
Lemma level_le_trans l1 l2 l3 : level_le l1 l2 → level_le l2 l3 → level_le l1 l3.
Proof. intros [??] [??]. split; [lia|set_solver]. Qed.
Lemma level_le_antisym l1 l2 : level_wf l1 → level_wf l2 → level_le l1 l2 → level_le l2 l1 → l1 = l2.
Proof.
  intros Hw1 Hw2 [Hs1 Hc1] [Hs2 Hc2]. assert (cat l1 = cat l2) as Hc by (apply ebitmap_set_inj; [done..|set_solver]).
  destruct l1, l2; simpl in *. f_equal; [lia|done].
Qed.

Lemma mls_level_cpy_wp l h :
  wp (mls_level_cpy l) (λ '(rc, l') h', mem_step h h' (rc = 0) ∧
    (rc = 0 ∧ l' = l ∨ rc = -1 ∧ l' = MlsLevel (sens l) ebitmap_init)) h.
Proof.
  apply wp_bind. eapply wp_mono; [apply ebitmap_cpy_wp|]. intros [rc e] h' [Hm Hr]. apply wp_ret.
  destruct Hr as [[-> ->]|[-> ->]]; (split; [mem|]); [left|by right]. by destruct l.
Qed.

Lemma mls_range_cpy_wp dst src h :
  wp (mls_range_cpy dst src) (λ '(rc, r) h', mem_step h h' (rc = 0) ∧ (rc = 0 ∧ r = src ∨ rc = -1)) h.
Proof.
  apply wp_bind. eapply wp_mono; [apply mls_level_cpy_wp|]. intros [rc l0] h1 [Hm1 Hr1].
  destruct Hr1 as [[-> ->]|[-> ->]]; [|apply wp_ret; split; [mem|by right]].
  apply wp_bind. eapply wp_mono; [apply mls_level_cpy_wp|]. intros [rc l1] h2 [Hm2 Hr2].
  destruct Hr2 as [[-> ->]|[-> ->]]; (apply wp_ret; split; [mem|]); [left|by right].
  by destruct src.
Qed.

Lemma context_cpy_wp dst src h :
  wp (context_cpy dst src) (λ '(rc, c) h', mem_step h h' (rc = 0) ∧ (rc = 0 ∧ c = src ∨ rc = -1)) h.
Proof.
  apply wp_bind. eapply wp_mono; [apply mls_range_cpy_wp|]. intros [rc r] h' [Hm Hr]. apply wp_ret.
  destruct Hr as [[-> ->]| ->]; (split; [mem|]); [left|by right]. by destruct src.
Qed.

Lemma semantic_cats_cpy_wp cs h :
  wp (semantic_cats_cpy cs) (λ r h', mem_step h h' (r = Some cs) ∧ (r = Some cs ∨ r = None)) h.
Proof.
  revert h. induction cs as [|x cs IH]; intros h; [apply wp_ret; split; [mem|by left]|].
  cbn [semantic_cats_cpy]. wp_malloc a h1 Hm1; [|apply wp_ret; split; [mem|by right]].
  apply wp_bind. eapply wp_mono; [apply IH|]. intros r h2 [Hm2 Hr]. apply wp_ret. destruct x as [lo hi]. simpl.
  destruct Hr as [-> | ->]; (split; [mem|]); [by left|by right].
Qed.
Lemma mls_semantic_level_cpy_wp sl h :
  wp (mls_semantic_level_cpy sl) (λ r h', mem_step h h' (r = Some sl) ∧ (r = Some sl ∨ r = None)) h.
Proof.
  apply wp_bind. eapply wp_mono; [apply semantic_cats_cpy_wp|]. intros r h1 [Hm Hr]. apply wp_ret.
  destruct sl. destruct Hr as [-> | ->]; (split; [mem|]); [by left|by right].
Qed.
Lemma mls_semantic_range_cpy_wp sr h :
  wp (mls_semantic_range_cpy sr) (λ r h', mem_step h h' (r = Some sr) ∧ (r = Some sr ∨ r = None)) h.
Proof.
  apply wp_bind. eapply wp_mono; [apply mls_semantic_level_cpy_wp|]. intros r h1 [Hm1 Hr].
  destruct Hr as [-> | ->]; [|apply wp_ret; split; [mem|by right]].
  apply wp_bind. eapply wp_mono; [apply mls_semantic_level_cpy_wp|]. intros r h2 [Hm2 Hr]. apply wp_ret.
  destruct sr. destruct Hr as [-> | ->]; (split; [mem|]); [by left|by right].
Qed.
End theory.

(** ** Properties *)

(** on well-formed levels [mls_level_dom] is a partial order whose
    equality is [mls_level_eq], [mls_level_incomp] holds of unordered levels,
    and [mls_range_contains] is inclusion of the intervals of levels. *)
Theorem mls_dominance_is_partial_order l1 l2 l3 r1 r2 :
  level_wf l1 → level_wf l2 → level_wf l3 → range_wf r1 → range_wf r2 →
  mls_level_dom (high_level r2) (low_level r2) = true →
  mls_level_dom l1 l1 = true ∧
  (mls_level_dom l1 l2 = true → mls_level_dom l2 l3 = true → mls_level_dom l1 l3 = true) ∧
  (mls_level_eq l1 l2 = true ↔ mls_level_dom l1 l2 = true ∧ mls_level_dom l2 l1 = true) ∧
  (mls_level_incomp l1 l2 = true ↔ ¬ level_le l1 l2 ∧ ¬ level_le l2 l1) ∧
  (mls_range_contains r1 r2 = true ↔ ∀ l, level_wf l →
     mls_level_between l (low_level r2) (high_level r2) = true →
     mls_level_between l (low_level r1) (high_level r1) = true).
Proof.
  intros H1 H2 H3 [Hr1 Hr1'] [Hr2 Hr2'] Hne. rewrite mls_level_dom_le in Hne by done.
  rewrite !mls_level_dom_le, mls_level_eq_true by done. split_and!.
  - apply level_le_refl.
  - intros. by eapply level_le_trans.
  - split; [intros ->; split; apply level_le_refl|]. intros []. by apply level_le_antisym.
  - unfold mls_level_incomp. by rewrite andb_true_iff, !negb_true_iff, <- !not_true_iff_false,
      !mls_level_dom_le, (and_comm (¬ level_le l2 l1)) by done.
  - unfold mls_range_contains, mls_level_between. rewrite andb_true_iff, !mls_level_dom_le by done. split.
    + intros [Hl Hh] l Hw. rewrite !andb_true_iff, !mls_level_dom_le by done. intros [??].
      split; by eapply level_le_trans.
    + intros Hall.
      assert (∀ l, level_wf l → level_le (low_level r2) l → level_le l (high_level r2) →
        level_le (low_level r1) l ∧ level_le l (high_level r1)) as Hall'.
      { intros l Hw ??. specialize (Hall l Hw). rewrite !andb_true_iff, !mls_level_dom_le in Hall by done. auto. }
      split; [apply (Hall' (low_level r2))|apply (Hall' (high_level r2))]; by try apply level_le_refl.
Qed.

(** witness of [mls_dominance_is_partial_order] *)
Lemma mls_dominance_is_partial_order_witness :
  let e := Ebitmap [Node 64 5] 128 in
  let l1 := MlsLevel 2 e in let l2 := MlsLevel 1 e in let l3 := MlsLevel 1 ebitmap_init in
  let r1 := MlsRange l3 l1 in let r2 := MlsRange l2 l2 in
  mls_level_dom l1 l1 = true ∧
  (mls_level_dom l1 l2 = true → mls_level_dom l2 l3 = true → mls_level_dom l1 l3 = true) ∧
  (mls_level_eq l1 l2 = true ↔ mls_level_dom l1 l2 = true ∧ mls_level_dom l2 l1 = true) ∧
  (mls_level_incomp l1 l2 = true ↔ ¬ level_le l1 l2 ∧ ¬ level_le l2 l1) ∧
  (mls_range_contains r1 r2 = true ↔ ∀ l, level_wf l →
     mls_level_between l (low_level r2) (high_level r2) = true →
     mls_level_between l (low_level r1) (high_level r1) = true).
Proof.
  pose proof set_bit_example_wf as He. pose proof ebitmap_init_wf as Hi.
  apply (mls_dominance_is_partial_order (MlsLevel 2 (Ebitmap [Node 64 5] 128)) (MlsLevel 1 (Ebitmap [Node 64 5] 128))
    (MlsLevel 1 ebitmap_init) (MlsRange (MlsLevel 1 ebitmap_init) (MlsLevel 2 (Ebitmap [Node 64 5] 128)))
    (MlsRange (MlsLevel 1 (Ebitmap [Node 64 5] 128)) (MlsLevel 1 (Ebitmap [Node 64 5] 128)))).
  - exact He.
  - exact He.
  - exact Hi.
  - split; [exact Hi|exact He].
  - split; exact He.
  - reflexivity.
Defined.

(** The copies of contexts and of semantic ranges succeed when memory
    lasts, give an equal value when they succeed, and fail otherwise. *)
Theorem context_copies_faithful dst src sr h :
  wp (context_cpy dst src) (λ '(rc, c) h', (mem_ok h → rc = 0) ∧
    (rc = 0 ∧ context_cmp c src = true ∧ c = src ∨ rc = -1)) h ∧
  wp (mls_semantic_range_cpy sr) (λ r h', (mem_ok h → r = Some sr) ∧ (r = Some sr ∨ r = None)) h.
Proof.
  split; (eapply wp_mono; [first [apply context_cpy_wp|apply mls_semantic_range_cpy_wp]|]).
  - intros [rc c] h' [Hm Hr]. split; [intros Ho; by destruct (Hm Ho)|].
    destruct Hr as [[-> ->]| ->]; [left|by right]. by rewrite context_cmp_true.
  - intros r h' [Hm Hr]. split; [intros Ho; by destruct (Hm Ho)|done].
Qed.
