(* ===== verification/Sidtab.v ===== *)
(** * Security identifier tables ([sidtab.c], [sidtab.h])

    128 chains of contexts, each sorted by identifier.  The chains are those of
    a hash table keyed by identifier, so the lemmas of [Hashtab] apply; the
    operations are those of [sidtab.c].  A null table behaves as one whose
    array is null. *)

From S2P Require Import Prelude Hashtab Ebitmap Context.

Definition SIDTAB_HASH_BITS : Z := 7.
Definition SIDTAB_HASH_BUCKETS : Z := Z.shiftl 1 SIDTAB_HASH_BITS.
Definition SIDTAB_HASH_MASK : Z := SIDTAB_HASH_BUCKETS - 1.
Definition SIDTAB_SIZE : Z := SIDTAB_HASH_BUCKETS.
Definition SIDTAB_HASH (sid : Z) : Z := Z.land sid SIDTAB_HASH_MASK.
Definition SECINITSID_UNLABELED : Z := 3.
Definition SEPOL_SECSID_NULL : Z := 0.

Abbreviation sid_node := (Z * context_struct)%type.
Record sidtab := Sidtab {
  st_htable : option (list (list sid_node)); st_nel : Z; next_sid : Z; shutdown : Z }.

(** ** Operations *)

(** the code; on failure only [htable] is written *)
Definition sepol_sidtab_init (s : sidtab) : CM (Z * sidtab) :=
  t ← malloc;
  mret (match t with
        | None => (- ENOMEM, Sidtab None (st_nel s) (next_sid s) (shutdown s))
        | Some _ => (0, Sidtab (Some (replicate (Z.to_nat SIDTAB_SIZE) [])) 0 1 0)
        end).

(** [while (cur != NULL && sid > cur->sid) { prev = cur; cur = cur->next; }] *)
Fixpoint sid_walk (sid : Z) (cur : list sid_node) : list sid_node * list sid_node :=
  match cur with
  | [] => ([], [])
  | nd :: next =>
      if nd.1 <? sid then let '(before, cur) := sid_walk sid next in (nd :: before, cur)
      else ([], cur)
  end.
(** [cur && sid == cur->sid] *)
Definition at_sid (sid : Z) (cur : list sid_node) : option context_struct :=
  match cur with nd :: _ => if sid =? nd.1 then Some nd.2 else None | [] => None end.

(** [s->htable[hvalue]]; the hash of an unsigned identifier is in range *)
Definition sid_slot (t : list (list sid_node)) (hvalue : Z) : option (list sid_node) :=
  if hvalue <? 0 then None else t !! Z.to_nat hvalue.

(** the new node starts uninitialised; a failing copy is freed with it *)
Definition sepol_sidtab_insert (s : sidtab) (sid : Z) (context : context_struct) : CM (Z * sidtab) :=
  match st_htable s with
  | None => mret (- ENOMEM, s)
  | Some t =>
      let hvalue := SIDTAB_HASH sid in
      chain ← deref (sid_slot t hvalue);
      let '(before, cur) := sid_walk sid chain in
      match at_sid sid cur with
      | Some _ => mret (- EEXIST, s)
      | None =>
          newnode ← malloc;
          match newnode with
          | None => mret (- ENOMEM, s)
          | Some _ =>
              '(rc, c) ← context_cpy context_init context;
              if truth rc then mret (- ENOMEM, s) else
              mret (0, Sidtab (Some (<[Z.to_nat hvalue := before ++ (sid, c) :: cur]> t))
                         (u32 (st_nel s + 1))
                         (if next_sid s <=? sid then u32 (sid + 1) else next_sid s) (shutdown s))
          end
      end
  end.

Definition sepol_sidtab_remove (s : sidtab) (sid : Z) : CM (Z * sidtab) :=
  match st_htable s with
  | None => mret (- ENOENT, s)
  | Some t =>
      let hvalue := SIDTAB_HASH sid in
      chain ← deref (sid_slot t hvalue);
      let '(last, cur) := sid_walk sid chain in
      match at_sid sid cur with
      | None => mret (- ENOENT, s)
      | Some _ => mret (0, Sidtab (Some (<[Z.to_nat hvalue := last ++ tail cur]> t))
                             (u32 (st_nel s - 1)) (next_sid s) (shutdown s))
      end
  end.

Definition sepol_sidtab_search (s : sidtab) (sid : Z) : CM (option context_struct) :=
  match st_htable s with
  | None => mret None
  | Some t =>
      chain ← deref (sid_slot t (SIDTAB_HASH sid));
      match at_sid sid (sid_walk sid chain).2 with
      | Some c => mret (Some c)
      | None =>
          (* remap invalid SIDs to the unlabeled SID *)
          let sid := SECINITSID_UNLABELED in
          chain ← deref (sid_slot t (SIDTAB_HASH sid));
          mret (at_sid sid (sid_walk sid chain).2)
      end
  end.

(** [apply] works on the caller's state; here no callback writes to the context *)
Definition sepol_sidtab_map {A} (s : sidtab) (apply : Z → context_struct → A → CM (Z * A)) (args : A)
    : CM (Z * A) :=
  match st_htable s with
  | None => mret (0, args)
  | Some t =>
      r ← for_loop 0 SIDTAB_SIZE (λ i args,
            chain ← deref (sid_slot t i);
            for_list chain (λ nd args,
              '(ret, args) ← apply nd.1 nd.2 args;
              mret (if truth ret then inl (ret, args) else inr args)) args) args;
      mret (match r with inl ret => ret | inr args => (0, args) end)
  end.

(** one chain of [sepol_sidtab_map_remove_on_error]: the nodes kept, the count;
    the callback may write to the context of the node *)
Fixpoint sid_remove_chain {A} (apply : Z → context_struct → A → CM (Z * context_struct * A)) (cur : list sid_node)
    (n : Z) (args : A) : CM (list sid_node * Z * A) :=
  match cur with
  | [] => mret ([], n, args)
  | nd :: next =>
      '(ret, c, args) ← apply nd.1 nd.2 args;
      if truth ret then sid_remove_chain apply next (u32 (n - 1)) args
      else '(kept, n, args) ← sid_remove_chain apply next n args; mret ((nd.1, c) :: kept, n, args)
  end.
Definition sepol_sidtab_map_remove_on_error {A} (s : sidtab)
    (apply : Z → context_struct → A → CM (Z * context_struct * A)) (args : A) : CM (sidtab * A) :=
  match st_htable s with
  | None => mret (s, args)
  | Some t =>
      r ← for_loop (R := unit) 0 SIDTAB_SIZE (λ i '(t, n, args),
            chain ← deref (sid_slot t i);
            '(kept, n, args) ← sid_remove_chain apply chain n args;
            mret (inr (<[Z.to_nat i := kept]> t, n, args))) (t, st_nel s, args);
      mret (match r with
            | inr (t, n, args) => (Sidtab (Some t) n (next_sid s) (shutdown s), args)
            | inl _ => (s, args)
            end)
  end.

(** the first node with the context, in table order; there is no test for a
    null array *)
Definition sepol_sidtab_search_context (s : sidtab) (context : context_struct) : CM Z :=
  r ← for_loop 0 SIDTAB_SIZE (λ i (_ : unit),
        t ← deref (st_htable s);
        chain ← deref (sid_slot t i);
        mret (match List.find (λ nd, context_cmp nd.2 context) chain with
              | Some nd => inl nd.1
              | None => inr ()
              end)) ();
  mret (match r with inl sid => sid | inr _ => 0 end).

(** returns the code, the table and [*out_sid] *)
Definition sepol_sidtab_context_to_sid (s : sidtab) (context : context_struct) : CM (Z * sidtab * Z) :=
  sid ← sepol_sidtab_search_context s context;
  if truth sid then mret (0, s, sid) else
  (* rescan under the lock *)
  sid ← sepol_sidtab_search_context s context;
  if truth sid then mret (0, s, sid) else
  if (next_sid s =? UINT_MAX) || truth (shutdown s) then mret (- ENOMEM, s, SEPOL_SECSID_NULL) else
  let sid := next_sid s in
  let s := Sidtab (st_htable s) (st_nel s) (u32 (next_sid s + 1)) (shutdown s) in
  '(ret, s) ← sepol_sidtab_insert s sid context;
  if truth ret then
    mret (ret, Sidtab (st_htable s) (st_nel s) (u32 (next_sid s - 1)) (shutdown s), SEPOL_SECSID_NULL)
  else mret (0, s, sid).

(** entries, slots used, slots, longest chain *)
Definition sepol_sidtab_hash_eval (s : sidtab) : CM (Z * Z * Z * Z) :=
  r ← for_loop (R := unit) 0 SIDTAB_SIZE (λ i '(used, longest),
        t ← deref (st_htable s);
        chain ← deref (sid_slot t i);
        mret (inr (match chain with
                   | [] => (used, longest)
                   | _ => (used + 1, if longest <? length chain then Z.of_nat (length chain) else longest)
                   end))) (0, 0);
  mret (match r with
        | inr (used, longest) => (st_nel s, used, SIDTAB_SIZE, longest)
        | inl _ => (st_nel s, 0, SIDTAB_SIZE, 0)
        end).

Definition sepol_sidtab_destroy (s : sidtab) : sidtab :=
  match st_htable s with
  | None => s
  | Some _ => Sidtab None 0 1 (shutdown s)
  end.
Definition sepol_sidtab_set (src : sidtab) : sidtab := Sidtab (st_htable src) (st_nel src) (next_sid src) 0.
Definition sepol_sidtab_shutdown (s : sidtab) : sidtab := Sidtab (st_htable s) (st_nel s) (next_sid s) 1.

(** ** Well-formedness and meaning *)

(** the chains as a hash table keyed by identifier *)
#[local] Instance sid_hash_ops : HashOps Z :=
  { hash_value := λ size sid, sid mod size; keycmp := λ a b, a - b }.
#[local] Instance sid_hash_laws : HashLaws Z.
Proof.
  split; cbn [hash_value keycmp sid_hash_ops]; intros; [apply Z.mod_pos_bound; lia|lia..].
Qed.
Definition sid_hashtab (t : list (list sid_node)) : hashtab Z context_struct := Hashtab t SIDTAB_SIZE 0.
Definition sid_map (t : list (list sid_node)) : gmap Z context_struct := list_to_map (concat t).

(** identifiers given out so far are positive and below [next_sid] *)
Record sidtab_wf (s : sidtab) (t : list (list sid_node)) : Prop := {
  st_table : st_htable s = Some t;
  st_slots : length t = 128%nat;
  st_sorted i c : t !! i = Some c → StronglySorted key_before c;
  st_hash i c nd : t !! i = Some c → nd ∈ c → SIDTAB_HASH nd.1 = Z.of_nat i;
  st_sids nd : nd ∈ concat t → 0 < nd.1 < next_sid s;
  st_next : 1 ≤ next_sid s ≤ UINT_MAX;
  st_count : st_nel s = u32 (length (concat t))
}.

Section theory.
Implicit Types (t : list (list sid_node)) (s : sidtab) (c : context_struct).

Lemma SIDTAB_HASH_mod sid : SIDTAB_HASH sid = sid mod 128.
Proof. unfold SIDTAB_HASH. change SIDTAB_HASH_MASK with (Z.ones 7). by rewrite Z.land_ones. Qed.

Lemma sid_walk_eq sid cur : sid_walk sid cur = chain_walk sid cur.
Proof.
  induction cur as [|nd cur IH]; [done|]. cbn [sid_walk chain_walk]. rewrite IH.
  cbn [keycmp sid_hash_ops]. destruct (Z.ltb_spec nd.1 sid), (Z.ltb_spec 0 (sid - nd.1)); (done || lia).
Qed.
Lemma at_sid_eq sid cur : at_sid sid cur = snd <$> at_key sid cur.
Proof.
  destruct cur as [|nd cur]; [done|]. cbn [at_sid at_key keycmp sid_hash_ops].
  destruct (Z.eqb_spec sid nd.1), (Z.eqb_spec (sid - nd.1) 0); (done || lia).
Qed.

Lemma sid_hashtab_ok s t : sidtab_wf s t → hashtab_ok (sid_hashtab t).
Proof.
  intros Hwf. split; cbn [size htable sid_hashtab].
  - done.
  - by rewrite (st_slots _ _ Hwf).
  - apply (st_sorted _ _ Hwf).
  - intros i ch nd Hi Hin. cbn [hash_value sid_hash_ops]. change SIDTAB_SIZE with 128.
    rewrite <- SIDTAB_HASH_mod. by eapply st_hash.
Qed.
Lemma i32_hash t sid : i32 (hash_value (size (sid_hashtab t)) sid) = SIDTAB_HASH sid.
Proof.
  rewrite SIDTAB_HASH_mod. cbn. change SIDTAB_SIZE with 128. pose proof (Z.mod_pos_bound sid 128 ltac:(lia)).
  unfold i32. rewrite wrap_id by lia. lia.
Qed.

Lemma sids_NoDup s t : sidtab_wf s t → NoDup (concat t).*1.
Proof. intros Hwf. apply (entries_NoDup (sid_hashtab t)). by eapply sid_hashtab_ok. Qed.

(** the walk to an identifier, in terms of the map *)
Lemma sid_walk_in_table s t sid :
  sidtab_wf s t → ∃ b cur,
    let i := SIDTAB_HASH sid in
    sid_slot t i = Some (b ++ cur) ∧ t !! Z.to_nat i = Some (b ++ cur) ∧
    sid_walk sid (b ++ cur) = (b, cur) ∧ at_sid sid cur = sid_map t !! sid ∧
    (sid_map t !! sid = None → (∀ c, let t' := <[Z.to_nat i := b ++ (sid, c) :: cur]> t in
       hashtab_ok (sid_hashtab t') ∧ concat t' ≡ₚ (sid, c) :: concat t ∧ sid_map t' = <[sid := c]> (sid_map t))).
Proof.
  intros Hwf. pose proof (sid_hashtab_ok s t Hwf) as Hok.
  destruct (walk_in_table (sid_hashtab t) sid Hok) as (b&cur&Hs&Hc&Hi&Hw&Hsort&Hb&Hat).
  rewrite (i32_hash t sid) in Hs, Hc, Hi. change (hashtab_map_of (sid_hashtab t)) with (sid_map t) in Hat.
  exists b, cur. split_and!; try done.
  - by rewrite sid_walk_eq.
  - rewrite at_sid_eq. destruct (at_key sid cur) as [nd|]; [by destruct Hat as (_&_&->)|by destruct Hat as [_ ->]].
  - intros Hn c t'. destruct (at_key sid cur) as [nd|]; [by destruct Hat as (_&_&?); rewrite Hn in *|].
    destruct Hat as [Hcur _].
    pose proof (set_slot_insert (sid_hashtab t) sid c b cur 0 Hok) as Hins. cbn zeta in Hins.
    rewrite (i32_hash t sid) in Hins. by apply Hins.
Qed.

Lemma sepol_sidtab_search_wp s t sid h :
  sidtab_wf s t →
  wp (sepol_sidtab_search s sid) (λ r h', h' = h ∧
    r = match sid_map t !! sid with Some c => Some c | None => sid_map t !! SECINITSID_UNLABELED end) h.
Proof.
  intros Hwf. unfold sepol_sidtab_search. rewrite (st_table _ _ Hwf).
  destruct (sid_walk_in_table s t sid Hwf) as (b&cur&Hs&_&Hw&Hat&_).
  eapply wp_bind, wp_deref; [done|]. rewrite Hw. cbn [snd]. rewrite Hat.
  destruct (sid_map t !! sid); [by apply wp_ret|].
  destruct (sid_walk_in_table s t SECINITSID_UNLABELED Hwf) as (b'&cur'&Hs'&_&Hw'&Hat'&_).
  eapply wp_bind, wp_deref; [done|]. rewrite Hw'. cbn [snd]. rewrite Hat'. by apply wp_ret.
Qed.

Lemma sid_map_elem s t sid c : sidtab_wf s t → sid_map t !! sid = Some c ↔ (sid, c) ∈ concat t.
Proof. intros Hwf. apply (map_of_lookup (sid_hashtab t)). by eapply sid_hashtab_ok. Qed.

(** a table with one more node is well-formed *)
Lemma sidtab_wf_insert s t sid c t' :
  sidtab_wf s t → 0 < sid < UINT_MAX →
  hashtab_ok (sid_hashtab t') → concat t' ≡ₚ (sid, c) :: concat t →
  sidtab_wf (Sidtab (Some t') (u32 (st_nel s + 1)) (if next_sid s <=? sid then u32 (sid + 1) else next_sid s)
               (shutdown s)) t'.
Proof.
  intros Hwf Hsid Hok Hp. pose proof (st_next _ _ Hwf) as Hn. unfold UINT_MAX in *.
  assert (u32 (sid + 1) = sid + 1) as Hu by (apply (wrap_id 32); lia). rewrite Hu.
  split; cbn [st_htable st_nel next_sid].
  - done.
  - apply Nat2Z.inj. exact (ok_slots _ Hok).
  - apply (ok_sorted _ Hok).
  - intros i ch nd Hi Hin. rewrite SIDTAB_HASH_mod. by apply (ok_hash _ Hok i ch).
  - intros nd. rewrite Hp, elem_of_cons. intros [-> |Hin]; cbn [fst]; [destruct (Z.leb_spec (next_sid s) sid); lia|].
    pose proof (st_sids _ _ Hwf _ Hin). destruct (Z.leb_spec (next_sid s) sid); lia.
  - unfold UINT_MAX. destruct (Z.leb_spec (next_sid s) sid); lia.
  - by rewrite Hp, (st_count _ _ Hwf), u32_add_u32, length_cons, Nat2Z.inj_succ.
Qed.

Lemma sepol_sidtab_insert_wp s t sid c h :
  sidtab_wf s t → 0 < sid < UINT_MAX →
  wp (sepol_sidtab_insert s sid c) (λ '(rc, s') h', mem_step h h' (rc ≠ - ENOMEM) ∧
    match sid_map t !! sid with
    | Some _ => rc = - EEXIST ∧ s' = s
    | None => rc = 0 ∧ shutdown s' = shutdown s ∧
                next_sid s' = (if next_sid s <=? sid then sid + 1 else next_sid s) ∧
                (∃ t', sidtab_wf s' t' ∧ sid_map t' = <[sid := c]> (sid_map t))
              ∨ rc = - ENOMEM ∧ s' = s
    end) h.
Proof.
  intros Hwf Hsid. unfold sepol_sidtab_insert. rewrite (st_table _ _ Hwf).
  destruct (sid_walk_in_table s t sid Hwf) as (b&cur&Hs&_&Hw&Hat&Hins).
  eapply wp_bind, wp_deref; [done|]. rewrite Hw, Hat.
  destruct (sid_map t !! sid); [apply wp_ret; split; [by apply mem_step_refl|done]|].
  wp_malloc a h1 Hm1; [|apply wp_ret; split; [mem|by right]].
  apply wp_bind. eapply wp_mono; [apply context_cpy_wp|]. intros [rc c'] h2 [Hm2 Hr].
  destruct Hr as [[-> ->]| ->]; (apply wp_ret; split; [mem|]); [left|by right].
  destruct (Hins eq_refl c) as (Hok&Hp&Hmap). unfold UINT_MAX in *.
  pose proof (wrap_id 32 (sid + 1) ltac:(lia)) as Hu. change (wrap 32 (sid + 1)) with (u32 (sid + 1)) in Hu.
  split_and!; [done|done|cbn [next_sid]; by rewrite Hu|]. eexists. split; [|done].
  apply (sidtab_wf_insert s t sid c); [done|unfold UINT_MAX; lia|done|done].
Qed.

(** the search by context *)
Lemma sepol_sidtab_search_context_wp s t c h :
  sidtab_wf s t →
  wp (sepol_sidtab_search_context s c) (λ sid h', h' = h ∧
    if decide (sid = 0) then ∀ sid, sid_map t !! sid ≠ Some c else sid_map t !! sid = Some c) h.
Proof.
  intros Hwf. unfold sepol_sidtab_search_context. apply wp_bind.
  apply (wp_for_loop (λ i _ h', h' = h ∧ ∀ nd, nd ∈ concat (take (Z.to_nat i) t) → nd.2 ≠ c)).
  - split; [done|]. by intros nd ?%elem_of_nil.
  - intros i _ h' Hi [-> Hno]. rewrite (st_table _ _ Hwf). apply wp_bind. eapply wp_deref; [done|].
    change SIDTAB_SIZE with 128 in Hi. pose proof (st_slots _ _ Hwf) as Hl.
    destruct (lookup_lt_is_Some_2 t (Z.to_nat i)) as [ch Hc]; [lia|].
    eapply wp_bind, wp_deref; [unfold sid_slot; by rewrite (proj2 (Z.ltb_ge _ _)) by lia|].
    destruct (List.find _ ch) as [nd|] eqn:Ef.
    + apply List.find_some in Ef as [Hin Heq]. apply list_elem_of_In in Hin. apply context_cmp_true in Heq.
      apply wp_ret, wp_ret. split; [done|].
      assert (nd ∈ concat t) as Hint by (apply elem_of_concat; eauto).
      pose proof (st_sids _ _ Hwf _ Hint). rewrite decide_False by lia.
      apply (sid_map_elem s t _ _ Hwf). subst c. by destruct nd.
    + apply wp_ret. split; [done|]. intros nd. replace (Z.to_nat (i + 1)) with (S (Z.to_nat i)) by lia.
      erewrite take_S_r by done. rewrite concat_app. simpl. rewrite app_nil_r, elem_of_app.
      intros [Hin|Hin]; [by apply Hno|]. intros Heq.
      eapply List.find_none in Ef; [|by apply list_elem_of_In]. rewrite Heq in Ef. simpl in Ef.
      by rewrite (proj2 (context_cmp_true c c) eq_refl) in Ef.
  - intros _ h' [-> Hno]. apply wp_ret. split; [done|]. rewrite decide_True by done.
    intros sid Hsome. apply (sid_map_elem s t _ _ Hwf) in Hsome.
    change (Z.to_nat (0 `max` SIDTAB_SIZE)) with 128%nat in Hno.
    rewrite take_ge in Hno by (rewrite (st_slots _ _ Hwf); lia). by apply (Hno _ Hsome).
Qed.

Lemma sepol_sidtab_context_to_sid_wp s t c h :
  sidtab_wf s t →
  wp (sepol_sidtab_context_to_sid s c) (λ '(rc, s', out_sid) h',
    mem_step h h' (rc = 0 ∨ next_sid s = UINT_MAX ∨ shutdown s ≠ 0) ∧
    (rc = 0 ∧ out_sid ≠ 0 ∧ (∃ t', sidtab_wf s' t' ∧ sid_map t' !! out_sid = Some c ∧
       (t' = t ∧ s' = s ∨ (∀ sid, sid_map t !! sid ≠ Some c) ∧ out_sid = next_sid s ∧
          next_sid s' = next_sid s + 1 ∧ shutdown s' = shutdown s ∧ sid_map t' = <[out_sid := c]> (sid_map t)))
     ∨ rc = - ENOMEM ∧ s' = s ∧ out_sid = SEPOL_SECSID_NULL ∧ ∀ sid, sid_map t !! sid ≠ Some c)) h.
Proof.
  intros Hwf. unfold sepol_sidtab_context_to_sid. apply wp_bind.
  eapply wp_mono; [by apply sepol_sidtab_search_context_wp|]. intros sid h' [-> Hs].
  destruct (truth sid) eqn:Et.
  { apply truth_true in Et. rewrite decide_False in Hs by done. apply wp_ret. split; [apply mem_step_refl; by left|left].
    split_and!; [done..|]. exists t. split_and!; [done..|by left]. }
  apply truth_false in Et. rewrite decide_True in Hs by done.
  apply wp_bind. eapply wp_mono; [by apply sepol_sidtab_search_context_wp|]. intros sid' h' [-> Hs'].
  destruct (truth sid') eqn:Et'.
  { apply truth_true in Et'. rewrite decide_False in Hs' by done. by destruct (Hs sid'). }
  clear sid' Et' Hs'. pose proof (st_next _ _ Hwf) as Hn.
  destruct (Z.eqb_spec (next_sid s) UINT_MAX) as [|Hlt]; cbn [orb].
  { apply wp_ret. split; [apply mem_step_refl; by right; left|by right]. }
  destruct (truth (shutdown s)) eqn:Esh.
  { apply truth_true in Esh. apply wp_ret. split; [apply mem_step_refl; by right; right|by right]. }
  unfold UINT_MAX in *. assert (u32 (next_sid s + 1) = next_sid s + 1) as Hu by (apply (wrap_id 32); lia).
  rewrite Hu. set (s1 := Sidtab _ _ _ _).
  assert (sidtab_wf s1 t) as Hwf1.
  { destruct Hwf. split; try done; cbn [next_sid s1]; [|unfold UINT_MAX; lia].
    intros nd Hin. specialize (st_sids0 nd Hin). lia. }
  assert (sid_map t !! next_sid s = None) as Hnew.
  { destruct (sid_map t !! next_sid s) eqn:E; [|done]. apply (sid_map_elem s t _ _ Hwf) in E.
    apply (st_sids _ _ Hwf) in E. simpl in E. lia. }
  apply wp_bind. eapply wp_mono; [apply (sepol_sidtab_insert_wp s1 t); [done|unfold UINT_MAX; lia]|].
  intros [rc s'] h' [Hm Hr]. rewrite Hnew in Hr.
  destruct Hr as [(->&Hsh&Hnext&t'&Hwf'&Hmap)|[-> ->]]; cbn [truth Z.eqb negb]; apply wp_ret.
  - cbn [next_sid s1] in Hnext. rewrite (proj2 (Z.leb_gt _ _)) in Hnext by lia.
    split; [mem|left]. split_and!; [done|lia|]. exists t'.
    split_and!; [done|by rewrite Hmap, lookup_insert_eq|right]. cbn [shutdown s1] in Hsh. by rewrite Hnext, Hsh.
  - split; [mem|right]. split_and!; [done| |done|done]. cbn [st_htable st_nel next_sid shutdown s1].
    replace (u32 (next_sid s + 1 - 1)) with (next_sid s); [by destruct s|].
    symmetry. rewrite Z.add_simpl_r. apply (wrap_id 32). lia.
Qed.

Lemma sepol_sidtab_remove_wp s t sid h :
  sidtab_wf s t →
  wp (sepol_sidtab_remove s sid) (λ '(rc, s') h', h' = h ∧
    match sid_map t !! sid with
    | None => rc = - ENOENT ∧ s' = s
    | Some _ => rc = 0 ∧ ∃ t', sidtab_wf s' t' ∧ sid_map t' = delete sid (sid_map t) ∧ next_sid s' = next_sid s
    end) h.
Proof.
  intros Hwf. unfold sepol_sidtab_remove. rewrite (st_table _ _ Hwf).
  destruct (sid_walk_in_table s t sid Hwf) as (b&cur&Hs&Hc&Hw&Hat&_).
  eapply wp_bind, wp_deref; [done|]. rewrite Hw, Hat.
  destruct (sid_map t !! sid) as [c|] eqn:Em; [|by apply wp_ret].
  destruct cur as [|[sid' c'] next]; [done|]. cbn [at_sid fst snd] in Hat.
  destruct (Z.eqb_spec sid sid') as [<-|]; [|done]. injection Hat as ->. cbn [tail].
  apply wp_ret. split; [done|]. split; [done|].
  pose proof (sid_hashtab_ok s t Hwf) as Hok. pose proof (st_sorted _ _ Hwf _ _ Hc) as Hsort.
  destruct (set_slot_ok (sid_hashtab t) (SIDTAB_HASH sid) _ (b ++ next) 0 Hok Hc) as (Hok'&rest&He&He').
  { apply StronglySorted_app in Hsort as (Hbc&?&[_ ?]%StronglySorted_cons). apply StronglySorted_app.
    split_and!; try done. intros ????. apply Hbc; [done|by right]. }
  { intros nd Hin. cbn. change SIDTAB_SIZE with 128. rewrite <- SIDTAB_HASH_mod.
    eapply st_hash; [done..|]. revert Hin. set_solver. }
  set (t' := <[_ := b ++ next]> t). change (entries (set_slot _ _ _ _)) with (concat t') in He'.
  change (entries (sid_hashtab t)) with (concat t) in He.
  assert (concat t ≡ₚ (sid, c) :: concat t') as Hp by (rewrite He, He'; apply perm_middle).
  exists t'. split_and!; [| |done].
  - split; cbn [st_htable st_nel next_sid]; [done|apply Nat2Z.inj; exact (ok_slots _ Hok')|apply (ok_sorted _ Hok')| | | |].
    + intros i ch nd Hi Hin. rewrite SIDTAB_HASH_mod. by apply (ok_hash _ Hok' i ch).
    + intros nd Hin. apply (st_sids _ _ Hwf). rewrite Hp. by right.
    + apply (st_next _ _ Hwf).
    + rewrite (st_count _ _ Hwf), u32_sub_u32, Hp. cbn [length]. f_equal. lia.
  - pose proof (entries_NoDup _ Hok) as Hnd. change (entries (sid_hashtab t)) with (concat t) in Hnd.
    unfold sid_map. rewrite (list_to_map_proper (M := gmap Z) _ _ Hnd Hp).
    rewrite Hp in Hnd. apply NoDup_cons in Hnd as [Hnk _]. rewrite list_to_map_cons.
    rewrite delete_insert_id; [done|]. by apply not_elem_of_list_to_map_1.
Qed.

(** a callback on the nodes, in table order; [Inv] is about those it has seen *)
Lemma sepol_sidtab_map_wp {A} s t (apply : Z → context_struct → A → CM (Z * A))
    (Inv : list sid_node → A → heap → Prop) (Q : Z * A → heap → Prop) args h :
  sidtab_wf s t → Inv [] args h →
  (∀ sid c l1 l2 args h, concat t = l1 ++ (sid, c) :: l2 → Inv l1 args h →
    wp (apply sid c args) (λ '(ret, args') h', if truth ret then Q (ret, args') h' else Inv (l1 ++ [(sid, c)]) args' h') h) →
  (∀ args h, Inv (concat t) args h → Q (0, args) h) →
  wp (sepol_sidtab_map s apply args) Q h.
Proof.
  intros Hwf HI Hb HQ. unfold sepol_sidtab_map. rewrite (st_table _ _ Hwf). apply wp_bind.
  pose proof (st_slots _ _ Hwf) as Hl.
  apply (wp_for_loop (λ i args h, Inv (concat (take (Z.to_nat i) t)) args h)); [done| |].
  - intros i args1 h1 Hi H1. change SIDTAB_SIZE with 128 in Hi.
    destruct (lookup_lt_is_Some_2 t (Z.to_nat i)) as [ch Hc]; [lia|].
    eapply wp_bind, wp_deref; [unfold sid_slot; by rewrite (proj2 (Z.ltb_ge _ _)) by lia|].
    assert (Hcat : concat t = concat (take (Z.to_nat i) t) ++ ch ++ concat (drop (S (Z.to_nat i)) t)).
    { rewrite <- (take_drop_middle t (Z.to_nat i) ch Hc) at 1. by rewrite concat_app. }
    apply (wp_for_list_prefix (λ l args h, Inv (concat (take (Z.to_nat i) t) ++ l) args h)); [by rewrite app_nil_r| |].
    + intros [sid c] l1 l2 args2 h2 Hch H2. apply wp_bind.
      eapply wp_mono; [eapply (Hb sid c _ (l2 ++ concat (drop (S (Z.to_nat i)) t)) args2 h2); [|exact H2]|].
      { rewrite Hcat, Hch, <- !app_assoc. done. }
      intros [ret args'] h3 Hr. apply wp_ret. destruct (truth ret); [by apply wp_ret|]. by rewrite app_assoc.
    + intros args2 h2 H2. replace (Z.to_nat (i + 1)) with (S (Z.to_nat i)) by lia. erewrite take_S_r by done.
      rewrite concat_app. cbn [concat]. by rewrite app_nil_r.
  - intros args1 h1 H1. change (Z.to_nat (0 `max` SIDTAB_SIZE)) with 128%nat in *. rewrite take_ge in H1 by lia.
    by apply wp_ret, HQ.
Qed.

Section remove_on_error.
(** a callback that may convert the context of an entry; [P] holds of what it
    answers, [Inv] of the entries it has seen and of its state *)
Context {A : Type} (apply : Z → context_struct → A → CM (Z * context_struct * A)).
Context (P : Z → context_struct → Z → context_struct → Prop) (Inv : list sid_node → A → heap → Prop).

(** the nodes left of a list: the rejected ones are gone, the others converted *)
Inductive pruned : list sid_node → list sid_node → Prop :=
  | pruned_nil : pruned [] []
  | pruned_keep sid c ret c' l l' :
      P sid c ret c' → truth ret = false → pruned l l' → pruned ((sid, c) :: l) ((sid, c') :: l')
  | pruned_drop sid c ret c' l l' :
      P sid c ret c' → truth ret = true → pruned l l' → pruned ((sid, c) :: l) l'.

Lemma pruned_app l1 l1' l2 l2' : pruned l1 l1' → pruned l2 l2' → pruned (l1 ++ l2) (l1' ++ l2').
Proof. intros H1 H2. induction H1; cbn; [done| |]; econstructor; eauto. Qed.
Lemma pruned_sub l l' : pruned l l' → l'.*1 `sublist_of` l.*1.
Proof. induction 1; cbn; by constructor. Qed.
Lemma pruned_length l l' : pruned l l' → (length l' ≤ length l)%nat.
Proof. intros Hp%pruned_sub%sublist_length. by rewrite !length_fmap in Hp. Qed.
Lemma pruned_elem l l' sid c' :
  pruned l l' → (sid, c') ∈ l' → ∃ c ret, (sid, c) ∈ l ∧ truth ret = false ∧ P sid c ret c'.
Proof.
  induction 1 as [|sid0 c0 ret0 c0' l l' HP Hr Hl IH|sid0 c0 ret0 c0' l l' HP Hr Hl IH]; intros Hin.
  - by apply elem_of_nil in Hin.
  - apply elem_of_cons in Hin as [[= -> ->]|Hin]; [exists c0, ret0; split; [by left|done]|].
    destruct (IH Hin) as (c&ret&?&?). exists c, ret. split; [by right|done].
  - destruct (IH Hin) as (c&ret&?&?). exists c, ret. split; [by right|done].
Qed.
Lemma pruned_elem_conv l l' sid c :
  pruned l l' → (sid, c) ∈ l → ∃ ret c', P sid c ret c' ∧ (truth ret = true ∨ (sid, c') ∈ l').
Proof.
  induction 1 as [|sid0 c0 ret0 c0' l l' HP Hr Hl IH|sid0 c0 ret0 c0' l l' HP Hr Hl IH]; intros Hin.
  - by apply elem_of_nil in Hin.
  - apply elem_of_cons in Hin as [[= -> ->]|Hin]; [exists ret0, c0'; split; [done|right; by left]|].
    destruct (IH Hin) as (ret&c'&?&[?|?]); exists ret, c'; (split; [done|]); [by left|right; by right].
  - apply elem_of_cons in Hin as [[= -> ->]|Hin]; [exists ret0, c0'; split; [done|by left]|]. by apply IH.
Qed.
Lemma pruned_sorted l l' : pruned l l' → StronglySorted key_before l → StronglySorted key_before l'.
Proof.
  assert (Hk : ∀ l : list sid_node, StronglySorted key_before l ↔ StronglySorted (λ a b, 0 < b - a) l.*1).
  { clear. induction l as [|[a x] l IH]; [split; constructor|]. rewrite fmap_cons.
    assert (Hf : Forall (key_before (a, x)) l ↔ Forall (λ b, 0 < b - a) l.*1) by by rewrite Forall_fmap.
    split; intros [Hs Hl]%StronglySorted_inv; constructor; first [by apply IH|by apply Hf]. }
  rewrite !Hk. intros Hp%pruned_sub. induction Hp as [|x k1 k2 Hp IH|x k1 k2 Hp IH]; intros Hs; [done| |].
  - apply StronglySorted_inv in Hs as [Hs Hf]. constructor; [by apply IH|]. rewrite Forall_forall in *. intros y Hy. by eapply Hf, elem_of_submseteq, sublist_submseteq.
  - apply StronglySorted_inv in Hs as [Hs Hf]. by apply IH.
Qed.

(** the callback, called on the entries of a list one after the other *)
Definition apply_ok (l : list sid_node) : Prop :=
  ∀ sid c l1 l2 args h, l = l1 ++ (sid, c) :: l2 → Inv l1 args h →
    wp (apply sid c args) (λ '(ret, c', args') h', Inv (l1 ++ [(sid, c)]) args' h' ∧ P sid c ret c') h.

Lemma sid_remove_chain_wp l1 ch l2 n args h :
  apply_ok (l1 ++ ch ++ l2) → Inv l1 args h →
  wp (sid_remove_chain apply ch (u32 n) args) (λ '(ch', n', args') h', Inv (l1 ++ ch) args' h' ∧ pruned ch ch' ∧
    n' = u32 (n - (length ch - length ch'))) h.
Proof.
  intros Hok. revert l1 n args h Hok. induction ch as [|[sid c] ch IH]; intros l1 n args h Hok HI; cbn [sid_remove_chain].
  { apply wp_ret. rewrite app_nil_r. cbn [length]. split_and!; [done|constructor|f_equal; lia]. }
  assert (Hrest : apply_ok ((l1 ++ [(sid, c)]) ++ ch ++ l2)) by by rewrite <- app_assoc.
  apply wp_bind. eapply wp_mono; [by eapply (Hok sid c l1 (ch ++ l2))|]. intros [[ret c'] args'] h1 [HI1 HP].
  rewrite (app_assoc l1 [(sid, c)] ch : l1 ++ (sid, c) :: ch = _). destruct (truth ret) eqn:Er.
  - rewrite u32_sub_u32. eapply wp_mono; [by apply IH|]. intros [[ch' n'] args2] h2 (?&Hp&->).
    pose proof (pruned_length _ _ Hp). split_and!; [done|by econstructor|]. f_equal. cbn [length]. lia.
  - apply wp_bind. eapply wp_mono; [by apply IH|]. intros [[ch' n'] args2] h2 (?&Hp&->). apply wp_ret.
    split_and!; [done|by econstructor|]. f_equal. cbn [length]. lia.
Qed.

(** the tables whose first [i] chains are pruned *)
Definition pruned_to (t : list (list sid_node)) (i : nat) (ti : list (list sid_node)) : Prop :=
  Forall2 pruned (take i t) (take i ti) ∧ drop i ti = drop i t.
Lemma pruned_to_insert t ti i ch ch' :
  pruned_to t i ti → t !! i = Some ch → pruned ch ch' →
  ti !! i = Some ch ∧ pruned_to t (S i) (<[i := ch']> ti) ∧
  ∃ r, length (concat ti) = (length ch + r)%nat ∧ length (concat (<[i := ch']> ti)) = (length ch' + r)%nat.
Proof.
  intros [Hf Hd] Ht Hp. assert (Hti : ti !! i = Some ch).
  { rewrite <- (Nat.add_0_r i), <- lookup_drop, Hd, lookup_drop, Nat.add_0_r. done. }
  pose proof (lookup_lt_Some _ _ _ Hti). split; [done|]. split.
  - split; [|rewrite drop_insert_lt by lia; replace (S i) with (i + 1)%nat by lia; by rewrite <- !drop_drop, Hd].
    erewrite (take_S_r t) by done. erewrite take_S_r by (by apply list_lookup_insert_eq).
    rewrite take_insert_ge by lia. by apply Forall2_app; [|constructor].
  - destruct (concat_insert ti i ch Hti) as (rest&Hp1&Hp2). exists (length rest).
    by rewrite (Permutation_length Hp1), (Permutation_length (Hp2 ch')), !length_app.
Qed.
Lemma pruned_concat t t' : Forall2 pruned t t' → pruned (concat t) (concat t').
Proof. induction 1; cbn; [constructor|by apply pruned_app]. Qed.

(** a table of pruned chains is well-formed *)
Lemma pruned_wf s t t' n :
  sidtab_wf s t → Forall2 pruned t t' → n = u32 (length (concat t')) →
  sidtab_wf (Sidtab (Some t') n (next_sid s) (shutdown s)) t'.
Proof.
  intros Hwf Hf ->. split; cbn [st_htable st_nel next_sid]; [done| | | | |apply (st_next _ _ Hwf)|done].
  - rewrite <- (Forall2_length _ _ _ Hf). apply (st_slots _ _ Hwf).
  - intros i c' Hc'. destruct (Forall2_lookup_r _ _ _ _ _ Hf Hc') as (c&Hc&Hp).
    eapply pruned_sorted; [done|by eapply st_sorted].
  - intros i c' [sid x] Hc' Hin. destruct (Forall2_lookup_r _ _ _ _ _ Hf Hc') as (c&Hc&Hp).
    destruct (pruned_elem _ _ _ _ Hp Hin) as (x0&?&Hin0&_). by apply (st_hash _ _ Hwf i c (sid, x0)).
  - intros [sid x] Hin. destruct (pruned_elem _ _ _ _ (pruned_concat _ _ Hf) Hin) as (x0&?&Hin0&_).
    by apply (st_sids _ _ Hwf) in Hin0.
Qed.

Lemma sidtab_remove_on_error_wp s t args h :
  sidtab_wf s t → apply_ok (concat t) → Inv [] args h →
  wp (sepol_sidtab_map_remove_on_error s apply args) (λ '(s', args') h', Inv (concat t) args' h' ∧
    ∃ t', sidtab_wf s' t' ∧ pruned (concat t) (concat t') ∧ next_sid s' = next_sid s) h.
Proof.
  intros Hwf Hok HI. unfold sepol_sidtab_map_remove_on_error. rewrite (st_table _ _ Hwf). apply wp_bind.
  pose proof (st_slots _ _ Hwf) as Hl.
  apply (wp_for_loop (λ i '(ti, n, args) h', Inv (concat (take (Z.to_nat i) t)) args h' ∧
    pruned_to t (Z.to_nat i) ti ∧ n = u32 (length (concat ti)))).
  - split_and!; [done|by split|apply (st_count _ _ Hwf)].
  - intros i [[ti n] args'] h' Hi (HIi&Hpi&->). change SIDTAB_SIZE with 128 in Hi.
    destruct (lookup_lt_is_Some_2 t (Z.to_nat i)) as [ch Hc]; [lia|].
    assert (Hci : ti !! Z.to_nat i = Some ch).
    { destruct Hpi as [_ Hd]. by rewrite <- (Nat.add_0_r (Z.to_nat i)), <- lookup_drop, Hd, lookup_drop, Nat.add_0_r. }
    eapply wp_bind, wp_deref; [unfold sid_slot; by rewrite (proj2 (Z.ltb_ge _ _)) by lia|]. apply wp_bind.
    assert (Hcat : concat t = concat (take (Z.to_nat i) t) ++ ch ++ concat (drop (S (Z.to_nat i)) t)).
    { rewrite <- (take_drop_middle t (Z.to_nat i) ch Hc) at 1. by rewrite concat_app. }
    rewrite Hcat in Hok. eapply wp_mono; [by eapply sid_remove_chain_wp|].
    intros [[ch' n'] args2] h2 (HI2&Hp&->). apply wp_ret.
    destruct (pruned_to_insert _ _ _ _ _ Hpi Hc Hp) as (_&Hpi'&r&Hr1&Hr2).
    replace (Z.to_nat (i + 1)) with (S (Z.to_nat i)) by lia. split_and!; [|done|f_equal; lia].
    erewrite take_S_r by done. rewrite concat_app. cbn [concat]. by rewrite app_nil_r.
  - intros [[ti n] args'] h' (HIe&[Hf Hd]&->). change (Z.to_nat (0 `max` SIDTAB_SIZE)) with 128%nat in *.
    rewrite take_ge in HIe by lia. rewrite (take_ge t) in Hf by lia. rewrite (drop_ge t) in Hd by lia.
    assert (Hti : take 128 ti = ti) by (pose proof (take_drop 128 ti) as E; by rewrite Hd, app_nil_r in E).
    rewrite Hti in Hf. apply wp_ret. split; [done|]. exists ti.
    split_and!; [by eapply pruned_wf|by apply pruned_concat|done].
Qed.
End remove_on_error.

(** the state after [sepol_sidtab_init] *)
Lemma sidtab_init_wf : sidtab_wf (Sidtab (Some (replicate 128 [])) 0 1 0) (replicate 128 []).
Proof.
  split; try done.
  - intros i c [-> _]%lookup_replicate_1. constructor.
  - intros i c nd [-> _]%lookup_replicate_1. by intros ?%elem_of_nil.
  - intros nd Hin. apply elem_of_concat in Hin as (i&c&[-> _]%lookup_replicate_1&Hin). by apply elem_of_nil in Hin.
Qed.
End theory.

(** ** Properties *)

(** C21: a table is a finite map from identifiers to contexts.
    [sepol_sidtab_init] makes an empty one; [sepol_sidtab_insert] adds a binding
    or answers [-EEXIST]; [sepol_sidtab_remove] deletes one or answers
    [-ENOENT]; [sepol_sidtab_search] returns the context of the identifier and,
    for an unknown one, that of the unlabeled identifier.  All keep the
    invariant, by which every identifier is below [next_sid]. *)
Theorem sidtab_refines_map s t sid c h :
  sidtab_wf s t → 0 < sid < UINT_MAX →
  wp (sepol_sidtab_init s) (λ '(rc, s') h', (mem_ok h → rc = 0) ∧
    (rc = 0 ∧ (∃ t', sidtab_wf s' t' ∧ sid_map t' = ∅) ∨ rc = - ENOMEM ∧ st_htable s' = None)) h ∧
  wp (sepol_sidtab_search s sid) (λ r h', h' = h ∧
    r = match sid_map t !! sid with Some c => Some c | None => sid_map t !! SECINITSID_UNLABELED end) h ∧
  wp (sepol_sidtab_insert s sid c) (λ '(rc, s') h', (mem_ok h → rc ≠ - ENOMEM) ∧
    match sid_map t !! sid with
    | Some _ => rc = - EEXIST ∧ s' = s
    | None => rc = 0 ∧ (∃ t', sidtab_wf s' t' ∧ sid_map t' = <[sid := c]> (sid_map t))
              ∨ rc = - ENOMEM ∧ s' = s
    end) h ∧
  wp (sepol_sidtab_remove s sid) (λ '(rc, s') h', h' = h ∧
    match sid_map t !! sid with
    | None => rc = - ENOENT ∧ s' = s
    | Some _ => rc = 0 ∧ ∃ t', sidtab_wf s' t' ∧ sid_map t' = delete sid (sid_map t)
    end) h.
Proof.
  intros Hwf Hsid. split_and!.
  - unfold sepol_sidtab_init. wp_malloc a h1 Hm; apply wp_ret; (split; [intros Ho; by destruct (Hm Ho)|]); [left|by right].
    split; [done|]. exists (replicate 128 []). split; [apply sidtab_init_wf|done].
  - by apply sepol_sidtab_search_wp.
  - eapply wp_mono; [by apply sepol_sidtab_insert_wp|]. intros [rc s'] h' [Hm Hr].
    split; [intros Ho; by destruct (Hm Ho)|]. destruct (sid_map t !! sid); [done|].
    destruct Hr as [(?&_&_&?)|?]; [by left|by right].
  - eapply wp_mono; [by apply sepol_sidtab_remove_wp|]. intros [rc s'] h' [-> Hr]. split; [done|].
    destruct (sid_map t !! sid); [|done]. destruct Hr as (?&t'&?&?&_). eauto.
Qed.

(** [sepol_sidtab_context_to_sid] never answers the null identifier with
    success: it returns an identifier whose context is the given one, the old
    one if the context is in the table and otherwise [next_sid], which it then
    binds and increments; it fails only when memory, the identifiers or the
    table (after a shutdown) are exhausted, and then changes nothing. *)
Theorem sidtab_context_to_sid_correct s t c h :
  sidtab_wf s t →
  wp (sepol_sidtab_context_to_sid s c) (λ '(rc, s', out_sid) h',
    (mem_ok h → rc = 0 ∨ next_sid s = UINT_MAX ∨ shutdown s ≠ 0) ∧
    (rc = 0 ∧ out_sid ≠ SEPOL_SECSID_NULL ∧ (∃ t', sidtab_wf s' t' ∧ sid_map t' !! out_sid = Some c ∧
       (t' = t ∧ s' = s ∨ (∀ sid, sid_map t !! sid ≠ Some c) ∧ out_sid = next_sid s ∧
          next_sid s' = next_sid s + 1 ∧ shutdown s' = shutdown s ∧ sid_map t' = <[out_sid := c]> (sid_map t)))
     ∨ rc = - ENOMEM ∧ s' = s ∧ out_sid = SEPOL_SECSID_NULL ∧ ∀ sid, sid_map t !! sid ≠ Some c)) h.
Proof.
  intros Hwf. eapply wp_mono; [by apply sepol_sidtab_context_to_sid_wp|].
  intros [[rc s'] out] h' [Hm Hr]. split; [|done]. intros Ho. by destruct (Hm Ho).
Qed.

(** [sepol_sidtab_map_remove_on_error] shows every node to the callback
    once, in table order, and keeps exactly the nodes it accepts, with the
    contexts the callback left in them, with the right count and without
    reusing their identifiers. *)
Theorem sidtab_map_remove_on_error_filters (verdict : Z → context_struct → Z)
    (convert : Z → context_struct → context_struct) s t h :
  sidtab_wf s t →
  wp (sepol_sidtab_map_remove_on_error s
       (λ sid c log, mret (M := CM) (verdict sid c, convert sid c, log ++ [(sid, c)])) [])
    (λ '(s', log) h', h' = h ∧ log = concat t ∧
      ∃ t', sidtab_wf s' t' ∧ next_sid s' = next_sid s ∧
        concat t' = (λ nd, (nd.1, convert nd.1 nd.2)) <$> filter (λ nd, truth (verdict nd.1 nd.2) = false) (concat t)) h.
Proof.
  intros Hwf. eapply wp_mono; [apply (sidtab_remove_on_error_wp _ (λ sid c ret c', ret = verdict sid c ∧ c' = convert sid c)
    (λ l log h', h' = h ∧ log = l)); [done| |done]|].
  - intros sid c l1 l2 log h' _ [-> ->]. apply wp_ret. done.
  - intros [s' log] h' ([-> ->]&t'&Hwf'&Hp&Hn). split_and!; [done|done|]. exists t'. split_and!; [done|done|]. clear -Hp.
    induction Hp as [|sid c ret c' l l' [-> ->] Hr Hp IH|sid c ret c' l l' [-> ->] Hr Hp IH]; [done|..]; rewrite filter_cons;
      cbn [fst snd]; rewrite Hr; cbn; [by rewrite IH|done].
Qed.

(** [sepol_sidtab_insert] accepts the identifier [UINT_MAX] and wraps
    [next_sid] to 0; the next new context then gets the null identifier with
    success, and another identifier at the next call. *)
Theorem sidtab_insert_wraps_next_sid :
  let s0 := Sidtab (Some (replicate 128 [])) 0 1 0 in
  let c1 := Context 1 1 1 mls_range_init in let c2 := Context 2 1 1 mls_range_init in
  ∃ s1 s2 s3 h,
    sepol_sidtab_insert s0 UINT_MAX c1 fresh_heap = Some ((0, s1), h) ∧ next_sid s1 = 0 ∧
    (∃ h', sepol_sidtab_context_to_sid s1 c2 h = Some ((0, s2, SEPOL_SECSID_NULL), h') ∧
      ∃ h'', sepol_sidtab_context_to_sid s2 c2 h' = Some ((0, s3, 1), h'')).
Proof.
  intros s0 c1 c2. do 4 eexists. split; [by vm_compute|]. split; [by vm_compute|].
  eexists. split; [by vm_compute|]. eexists. by vm_compute.
Qed.

(** witness of C21 *)
Lemma sidtab_refines_map_witness :
  let t := replicate 128 [] in let s := Sidtab (Some t) 0 1 0 in let h := fresh_heap in
  let c := context_init in
  wp (sepol_sidtab_init s) (λ '(rc, s') h', (mem_ok h → rc = 0) ∧
    (rc = 0 ∧ (∃ t', sidtab_wf s' t' ∧ sid_map t' = ∅) ∨ rc = - ENOMEM ∧ st_htable s' = None)) h ∧
  wp (sepol_sidtab_search s 5) (λ r h', h' = h ∧
    r = match sid_map t !! 5 with Some c => Some c | None => sid_map t !! SECINITSID_UNLABELED end) h ∧
  wp (sepol_sidtab_insert s 5 c) (λ '(rc, s') h', (mem_ok h → rc ≠ - ENOMEM) ∧
    match sid_map t !! 5 with
    | Some _ => rc = - EEXIST ∧ s' = s
    | None => rc = 0 ∧ (∃ t', sidtab_wf s' t' ∧ sid_map t' = <[5 := c]> (sid_map t))
              ∨ rc = - ENOMEM ∧ s' = s
    end) h ∧
  wp (sepol_sidtab_remove s 5) (λ '(rc, s') h', h' = h ∧
    match sid_map t !! 5 with
    | None => rc = - ENOENT ∧ s' = s
    | Some _ => rc = 0 ∧ ∃ t', sidtab_wf s' t' ∧ sid_map t' = delete 5 (sid_map t)
    end) h.
Proof.
  apply (sidtab_refines_map (Sidtab (Some (replicate 128 [])) 0 1 0) (replicate 128 []) 5 context_init fresh_heap).
  - exact sidtab_init_wf.
  - done.
Defined.

(** witness of [sidtab_context_to_sid_correct] *)
Lemma sidtab_context_to_sid_correct_witness :
  let t := replicate 128 [] in let s := Sidtab (Some t) 0 1 0 in let c := context_init in
  wp (sepol_sidtab_context_to_sid s c) (λ '(rc, s', out_sid) h',
    (mem_ok fresh_heap → rc = 0 ∨ next_sid s = UINT_MAX ∨ shutdown s ≠ 0) ∧
    (rc = 0 ∧ out_sid ≠ SEPOL_SECSID_NULL ∧ (∃ t', sidtab_wf s' t' ∧ sid_map t' !! out_sid = Some c ∧
       (t' = t ∧ s' = s ∨ (∀ sid, sid_map t !! sid ≠ Some c) ∧ out_sid = next_sid s ∧
          next_sid s' = next_sid s + 1 ∧ shutdown s' = shutdown s ∧ sid_map t' = <[out_sid := c]> (sid_map t)))
     ∨ rc = - ENOMEM ∧ s' = s ∧ out_sid = SEPOL_SECSID_NULL ∧ ∀ sid, sid_map t !! sid ≠ Some c)) fresh_heap.
Proof. apply sidtab_context_to_sid_correct. exact sidtab_init_wf. Defined.

(** it applies *)
Lemma sidtab_map_remove_on_error_filters_witness :
  let t := replicate 128 [] in let s := Sidtab (Some t) 0 1 0 in let verdict := λ sid (c : context_struct), sid - 5 in
  let convert := λ (sid : Z) (c : context_struct), context_init in
  wp (sepol_sidtab_map_remove_on_error s (λ sid c log, mret (M := CM) (verdict sid c, convert sid c, log ++ [(sid, c)])) [])
    (λ '(s', log) h', h' = fresh_heap ∧ log = concat t ∧
      ∃ t', sidtab_wf s' t' ∧ next_sid s' = next_sid s ∧
        concat t' = (λ nd, (nd.1, convert nd.1 nd.2)) <$> filter (λ nd, truth (verdict nd.1 nd.2) = false) (concat t)) fresh_heap.
Proof. apply sidtab_map_remove_on_error_filters. exact sidtab_init_wf. Defined.
