(* ===== verification/Policydb.v ===== *)
(** * The policy database ([policydb.h], [constraint.h], [conditional.h])

    The data of a policy that the other files compute with: symbols, constraint
    and conditional expressions, rules.  An array indexed by (value - 1) is a
    list whose [None]s are entries that were never filled in; [at_val] is the
    access, undefined outside the array and on such an entry. *)

From S2P Require Import Prelude Hashtab Symtab Ebitmap Context Avtab.

(** ** Sets of types and roles *)

Definition TYPE_STAR : Z := 1.
Definition TYPE_COMP : Z := 2.
Definition ROLE_STAR : Z := 1.
Definition ROLE_COMP : Z := 2.
Record type_set := TypeSet { ts_types : ebitmap; ts_negset : ebitmap; ts_flags : Z }.
Record role_set := RoleSet { rs_roles : ebitmap; rs_flags : Z }.

(** ** Constraints *)

Definition CEXPR_MAXDEPTH : Z := 5.
Definition CEXPR_NOT : Z := 1.
Definition CEXPR_AND : Z := 2.
Definition CEXPR_OR : Z := 3.
Definition CEXPR_ATTR : Z := 4.
Definition CEXPR_NAMES : Z := 5.
Definition CEXPR_USER : Z := 1.
Definition CEXPR_ROLE : Z := 2.
Definition CEXPR_TYPE : Z := 4.
Definition CEXPR_TARGET : Z := 8.
Definition CEXPR_XTARGET : Z := 16.
Definition CEXPR_L1L2 : Z := 32.
Definition CEXPR_L1H2 : Z := 64.
Definition CEXPR_H1L2 : Z := 128.
Definition CEXPR_H1H2 : Z := 256.
Definition CEXPR_L1H1 : Z := 512.
Definition CEXPR_L2H2 : Z := 1024.
Definition CEXPR_EQ : Z := 1.
Definition CEXPR_NEQ : Z := 2.
Definition CEXPR_DOM : Z := 3.
Definition CEXPR_DOMBY : Z := 4.
Definition CEXPR_INCOMP : Z := 5.
Record constraint_expr := CExpr {
  ce_expr_type : Z; ce_attr : Z; ce_op : Z; ce_names : ebitmap; ce_type_names : option type_set }.
Record constraint_node := CNode { cn_permissions : Z; cn_expr : list constraint_expr }.

(** ** Symbols *)

Record common_datum := CommonDatum { common_value : Z; common_permissions : symtab Z }.
(** a [perm_datum] is its value *)
Record class_datum := ClassDatum {
  class_value : Z; class_comkey : option string; class_comdatum : option common_datum;
  class_permissions : symtab Z; class_constraints : list constraint_node;
  class_validatetrans : list constraint_node;
  default_user : Z; default_role : Z; default_type : Z; default_range : Z }.
Definition ROLE_ROLE : Z := 0.
Definition ROLE_ATTRIB : Z := 1.
Record role_datum := RoleDatum {
  role_value : Z; role_dominates : ebitmap; role_types : type_set; role_cache : ebitmap;
  role_bounds : Z; role_flavor : Z; role_roles : ebitmap }.
Definition TYPE_TYPE : Z := 0.
Definition TYPE_ATTRIB : Z := 1.
Definition TYPE_ALIAS : Z := 2.
Record type_datum := TypeDatum {
  type_value : Z; type_primary : Z; type_flavor : Z; type_types : ebitmap; type_flags : Z; type_bounds : Z }.
Record user_datum := UserDatum {
  user_value : Z; user_roles : role_set; user_range : mls_semantic_range;
  user_dfltlevel : mls_semantic_level; user_cache : ebitmap;
  user_exp_range : mls_range; user_exp_dfltlevel : mls_level; user_bounds : Z }.
Record level_datum := LevelDatum { ld_level : mls_level; ld_isalias : Z; ld_defined : Z }.
Record cat_datum := CatDatum { cat_value : Z; cat_isalias : Z }.
Record cond_bool_datum := BoolDatum { bool_value : Z; bool_state : Z; bool_flags : Z }.

(** ** Rules *)

Record role_trans := RoleTrans { rt_role : Z; rt_type : Z; rt_tclass : Z; rt_new_role : Z }.
Record role_allow := RoleAllow { ra_role : Z; ra_new_role : Z }.
Record filename_trans := FilenameTrans {
  ft_stype : Z; ft_ttype : Z; ft_tclass : Z; ft_name : string; ft_otype : Z }.
Record range_trans := RangeTrans {
  rtr_source_type : Z; rtr_target_type : Z; rtr_target_class : Z; rtr_target_range : mls_range }.
Record class_perm_node := ClassPerm { cp_class : Z; cp_data : Z }.
Record avrule := AvRule {
  avr_specified : Z; avr_flags : Z; avr_stypes : type_set; avr_ttypes : type_set;
  avr_perms : list class_perm_node; avr_line : Z }.

(** ** Conditionals *)

Definition COND_EXPR_MAXDEPTH : Z := 10.
Definition COND_MAX_BOOLS : Z := 5.
Definition COND_BOOL : Z := 1.
Definition COND_NOT : Z := 2.
Definition COND_OR : Z := 3.
Definition COND_AND : Z := 4.
Definition COND_XOR : Z := 5.
Definition COND_EQ : Z := 6.
Definition COND_NEQ : Z := 7.
Definition COND_LAST : Z := COND_NEQ.
Record cond_expr := CondExpr { cond_type : Z; cond_bool : Z }.
(** a [cond_av_list] is the list of the addresses of its nodes, which are in
    [te_cond_avtab]; [bool_ids] has the five entries of the array *)
Record cond_node := CondNode {
  cur_state : Z; cn_cond_expr : list cond_expr; true_list : list Z; false_list : list Z;
  avtrue_list : list avrule; avfalse_list : list avrule;
  nbools : Z; bool_ids : list Z; expr_pre_comp : Z; cond_flags : Z }.

(** ** Object contexts *)

(** the union [u] by its member; the names of initial identifiers, file
    systems, interfaces, file system types and paths are one member *)
Inductive ocontext_u :=
  | UName (name : string)
  | UPort (protocol low_port high_port : Z)
  | UNode (addr mask : Z)
  | UNode6 (addr6 mask6 : list Z)
  | UDevice (device : Z)
  | UPirq (pirq : Z)
  | UIomem (low_iomem high_iomem : Z)
  | UIoport (low_ioport high_ioport : Z).
(** [oc_v] is the union of a class and a behaviour, both of 32 bits *)
Record ocontext := OContext {
  oc_u : ocontext_u; oc_v : Z; oc_context0 : context_struct; oc_context1 : context_struct;
  oc_sid0 : Z; oc_sid1 : Z }.
Record genfs := Genfs { fstype : string; gf_head : list ocontext }.
Definition OCON_ISID : nat := 0.
Definition OCON_FS : nat := 1.
Definition OCON_PORT : nat := 2.
Definition OCON_NETIF : nat := 3.
Definition OCON_NODE : nat := 4.
Definition OCON_FSUSE : nat := 5.
Definition OCON_NODE6 : nat := 6.
Definition OCON_NUM : nat := 7.

(** ** The database *)

(** [ocontexts] has the [OCON_NUM] lists of the array *)
Record policydb := Policydb {
  policy_type : Z; policyvers : Z; mls : Z;
  p_classes : symtab class_datum; p_roles : symtab role_datum; p_types : symtab type_datum;
  p_users : symtab user_datum; p_bools : symtab cond_bool_datum;
  p_levels : symtab level_datum; p_cats : symtab cat_datum;
  p_sens_val_to_name : list (option string); p_cat_val_to_name : list (option string);
  p_class_val_to_name : list (option string); p_role_val_to_name : list (option string);
  p_type_val_to_name : list (option string); p_user_val_to_name : list (option string);
  class_val_to_struct : list (option class_datum); role_val_to_struct : list (option role_datum);
  user_val_to_struct : list (option user_datum); type_val_to_struct : list (option type_datum);
  te_avtab : avtab; te_cond_avtab : avtab;
  bool_val_to_struct : list (option cond_bool_datum); cond_list : list cond_node;
  p_role_tr : list role_trans; p_filename_trans : list filename_trans; p_role_allow : list role_allow;
  p_range_tr : list range_trans; type_attr_map : list ebitmap; permissive_map : ebitmap;
  attr_type_map : list ebitmap; ocontexts : list (list ocontext); p_genfs : list genfs }.

(** [a[v - 1]] of an array indexed by value *)
Definition at_val {A} (a : list (option A)) (v : Z) : option A :=
  if v <? 1 then None else mjoin (a !! Z.to_nat (v - 1)).

(** the stores [p->bool_val_to_struct = a] and to the conditional rules *)
Definition with_bools (p : policydb) (b : list (option cond_bool_datum)) : policydb :=
  Policydb (policy_type p) (policyvers p) (mls p) (p_classes p) (p_roles p) (p_types p) (p_users p) (p_bools p)
    (p_levels p) (p_cats p) (p_sens_val_to_name p) (p_cat_val_to_name p) (p_class_val_to_name p)
    (p_role_val_to_name p) (p_type_val_to_name p) (p_user_val_to_name p) (class_val_to_struct p)
    (role_val_to_struct p) (user_val_to_struct p) (type_val_to_struct p) (te_avtab p) (te_cond_avtab p)
    b (cond_list p) (p_role_tr p) (p_filename_trans p) (p_role_allow p) (p_range_tr p) (type_attr_map p)
    (permissive_map p) (attr_type_map p) (ocontexts p) (p_genfs p).
Definition with_conds (p : policydb) (t : avtab) (l : list cond_node) : policydb :=
  Policydb (policy_type p) (policyvers p) (mls p) (p_classes p) (p_roles p) (p_types p) (p_users p) (p_bools p)
    (p_levels p) (p_cats p) (p_sens_val_to_name p) (p_cat_val_to_name p) (p_class_val_to_name p)
    (p_role_val_to_name p) (p_type_val_to_name p) (p_user_val_to_name p) (class_val_to_struct p)
    (role_val_to_struct p) (user_val_to_struct p) (type_val_to_struct p) (te_avtab p) t
    (bool_val_to_struct p) l (p_role_tr p) (p_filename_trans p) (p_role_allow p) (p_range_tr p)
    (type_attr_map p) (permissive_map p) (attr_type_map p) (ocontexts p) (p_genfs p).

Definition with_ocontexts (p : policydb) (o : list (list ocontext)) (g : list genfs) : policydb :=
  Policydb (policy_type p) (policyvers p) (mls p) (p_classes p) (p_roles p) (p_types p) (p_users p) (p_bools p)
    (p_levels p) (p_cats p) (p_sens_val_to_name p) (p_cat_val_to_name p) (p_class_val_to_name p)
    (p_role_val_to_name p) (p_type_val_to_name p) (p_user_val_to_name p) (class_val_to_struct p)
    (role_val_to_struct p) (user_val_to_struct p) (type_val_to_struct p) (te_avtab p) (te_cond_avtab p)
    (bool_val_to_struct p) (cond_list p) (p_role_tr p) (p_filename_trans p) (p_role_allow p) (p_range_tr p)
    (type_attr_map p) (permissive_map p) (attr_type_map p) o g.

(** an empty database, as [policydb_init] leaves the fields modelled here *)
Definition empty_symtab {D} : symtab D := Symtab None 0.
Definition empty_avtab : avtab := Avtab None 0 0 0.
Definition empty_policydb : policydb :=
  Policydb 0 0 0 empty_symtab empty_symtab empty_symtab empty_symtab empty_symtab empty_symtab empty_symtab
    [] [] [] [] [] [] [] [] [] [] empty_avtab empty_avtab [] [] [] [] [] [] [] (Ebitmap [] 0) [] (replicate OCON_NUM []) [].

Lemma at_val_lookup {A} (a : list (option A)) v x :
  at_val a v = Some x ↔ 1 ≤ v ∧ a !! Z.to_nat (v - 1) = Some (Some x).
Proof.
  unfold at_val. destruct (Z.ltb_spec v 1); [naive_solver lia|].
  destruct (a !! Z.to_nat (v - 1)) as [[y|]|]; naive_solver.
Qed.
