(* ===== verification/Conditional.v ===== *)
(** * Conditional expressions ([conditional.c], first part)

    Boolean expressions in reverse polish notation: evaluation on a bounded
    stack, copies, the normal form with its table of precomputed outcomes, and
    the test for equal expressions. *)

From S2P Require Import Prelude Policydb.

(** ** Operations *)

(** [p->bool_val_to_struct[b - 1]->state] *)
Definition bool_get (bools : list (option cond_bool_datum)) (b : Z) : option Z := bool_state <$> at_val bools b.

(** One expression of the loop of [cond_evaluate_expr].  [s] is [s[sp], ..., s[0]];
    [inl] is the early return of -1. *)
Definition cond_eval_step (get : Z → option Z) (e : cond_expr) (s : list Z) : CM (Z + list Z) :=
  let binary (op : Z → Z → Z) : CM (Z + list Z) :=
    mret (match s with y :: x :: s' => inr (op x y :: s') | _ => inl (-1) end) in
  if cond_type e =? COND_BOOL then
    if Z.of_nat (length s) =? COND_EXPR_MAXDEPTH then mret (inl (-1)) else
    v ← deref (get (cond_bool e)); mret (inr (v :: s))
  else if cond_type e =? COND_NOT then
    mret (match s with x :: s' => inr (cbool (negb (truth x)) :: s') | [] => inl (-1) end)
  else if cond_type e =? COND_OR then binary Z.lor
  else if cond_type e =? COND_AND then binary Z.land
  else if cond_type e =? COND_XOR then binary Z.lxor
  else if cond_type e =? COND_EQ then binary (λ x y, cbool (x =? y))
  else if cond_type e =? COND_NEQ then binary (λ x y, cbool (negb (x =? y)))
  else mret (inl (-1)).
Definition cond_eval_loop (get : Z → option Z) (expr : list cond_expr) (s : list Z) : CM (Z + list Z) :=
  for_list expr (cond_eval_step get) s.
(** the value returned is [s[0]], -1 before the first push *)
Definition cond_eval_result (r : Z + list Z) : Z :=
  match r with inl v => v | inr s => default (-1) (last s) end.
Definition cond_evaluate_expr (p : policydb) (expr : list cond_expr) : CM Z :=
  cond_eval_result <$> cond_eval_loop (bool_get (bool_val_to_struct p)) expr [].

(** [None] is a null result: no memory, or nothing to copy *)
Fixpoint cond_copy_loop (expr : list cond_expr) : CM (option (list cond_expr)) :=
  match expr with
  | [] => mret (Some [])
  | e :: next =>
      new_expr ← malloc;
      match new_expr with
      | None => mret None
      | Some _ => r ← cond_copy_loop next; mret (cons (CondExpr (cond_type e) (cond_bool e)) <$> r)
      end
  end.
Definition cond_copy_expr (expr : list cond_expr) : CM (option (list cond_expr)) :=
  r ← cond_copy_loop expr;
  mret (match r with Some [] => None | _ => r end).

Definition bool_present (target : Z) (bools : list Z) (num_bools : Z) : bool :=
  if COND_MAX_BOOLS <? num_bools then false
  else existsb (Z.eqb target) (take (Z.to_nat num_bools) bools).
Definition same_bools (a b : cond_node) : bool :=
  (nbools a =? nbools b) &&
  forallb (λ id, bool_present id (bool_ids b) (nbools a)) (take (Z.to_nat (nbools a)) (bool_ids a)).

(** the comparison of long expressions *)
Fixpoint same_exprs (a b : list cond_expr) : bool :=
  match a, b with
  | [], [] => true
  | x :: a, y :: b =>
      if negb (cond_type x =? cond_type y) then false
      else if (cond_type x =? COND_BOOL) && negb (cond_bool x =? cond_bool y) then false
      else same_exprs a b
  | _, _ => false
  end.
(** the arguments are not null *)
Definition cond_expr_equal (a b : cond_node) : bool :=
  if negb (nbools a =? nbools b) then false
  else if (nbools a <=? COND_MAX_BOOLS) && (nbools b <=? COND_MAX_BOOLS) then
    if negb (same_bools a b) then false else expr_pre_comp a =? expr_pre_comp b
  else same_exprs (cn_cond_expr a) (cn_cond_expr b).

(** the loop that finds the booleans of an expression: [nbools], [bool_ids] *)
Fixpoint find_bools (expr : list cond_expr) (n : Z) (ids : list Z) : Z * list Z :=
  match expr with
  | [] => (n, ids)
  | e :: next =>
      if cond_type e =? COND_BOOL then
        if bool_present (cond_bool e) ids n then find_bools next n ids
        else if n <? COND_MAX_BOOLS then find_bools next (n + 1) (<[Z.to_nat n := cond_bool e]> ids)
        else find_bools next (u32 (n + 1)) ids
      else find_bools next n ids
  end.

(** [p->bool_val_to_struct[id - 1]->state = v] *)
Definition set_bool (bools : list (option cond_bool_datum)) (id v : Z) : CM (list (option cond_bool_datum)) :=
  d ← deref (at_val bools id);
  mret (<[Z.to_nat (id - 1) := Some (BoolDatum (bool_value d) v (bool_flags d))]> bools).
(** the inner loop: every boolean gets its bit of [test] *)
Fixpoint set_bools (ids : list Z) (j test : Z) (bools : list (option cond_bool_datum))
    : CM (list (option cond_bool_datum)) :=
  match ids with
  | [] => mret bools
  | id :: ids =>
      bools ← set_bool bools id (if truth (Z.land test (Z.shiftl 1 j)) then 1 else 0);
      set_bools ids (j + 1) test bools
  end.
Fixpoint save_bools (ids : list Z) (bools : list (option cond_bool_datum)) : CM (list Z) :=
  match ids with
  | [] => mret []
  | id :: ids => v ← deref (bool_get bools id); vs ← save_bools ids bools; mret (u32 v :: vs)
  end.
Fixpoint restore_bools (ids vs : list Z) (bools : list (option cond_bool_datum))
    : CM (list (option cond_bool_datum)) :=
  match ids, vs with
  | id :: ids, v :: vs => bools ← set_bool bools id (i32 v); restore_bools ids vs bools
  | _, _ => mret bools
  end.
(** the loop over all combinations, with the booleans and the table so far;
    [inl] is the return of -1 *)
Definition precompute (expr : list cond_expr) (ids : list Z) (bools : list (option cond_bool_datum))
    : CM (list (option cond_bool_datum) * Z + list (option cond_bool_datum) * Z) :=
  for_loop 0 (Z.shiftl 1 (length ids)) (λ test '(bools, pre_comp),
    bools ← set_bools ids 0 test bools;
    k ← (cond_eval_result <$> cond_eval_loop (bool_get bools) expr []);
    mret (if k =? -1 then inl (bools, pre_comp)
          else inr (bools, if truth k then Z.lor pre_comp (u32 (Z.shiftl 1 test)) else pre_comp)))
    (bools, 0).

(** returns the code, the database (whose boolean states the loop changes) and
    the node *)
Definition cond_normalize_expr (p : policydb) (cn : cond_node) : CM (Z * policydb * cond_node) :=
  e ← deref (last (cn_cond_expr cn));
  let negated := cond_type e =? COND_NOT in
  if negated && (length (cn_cond_expr cn) =? 1) then
    mret (-1, p, CondNode (cur_state cn) (cn_cond_expr cn) (true_list cn) (false_list cn)
                   (avtrue_list cn) (avfalse_list cn) 0 (replicate 5 0) 0 (cond_flags cn))
  else
  let '(expr, tl, fl, avtl, avfl) :=
    if negated then (removelast (cn_cond_expr cn), false_list cn, true_list cn, avfalse_list cn, avtrue_list cn)
    else (cn_cond_expr cn, true_list cn, false_list cn, avtrue_list cn, avfalse_list cn) in
  let '(n, ids) := find_bools expr 0 (replicate 5 0) in
  let node pre_comp := CondNode (cur_state cn) expr tl fl avtl avfl n ids pre_comp (cond_flags cn) in
  if n <=? COND_MAX_BOOLS then
    let used := take (Z.to_nat n) ids in
    orig_value ← save_bools used (bool_val_to_struct p);
    r ← precompute expr used (bool_val_to_struct p);
    match r with
    | inl (bools, pre_comp) => mret (-1, with_bools p bools, node pre_comp)
    | inr (bools, pre_comp) =>
        bools ← restore_bools used orig_value bools;
        mret (0, with_bools p bools, node pre_comp)
    end
  else mret (0, p, node 0).

(** [None]: no memory.  Only the first [min(nbools, 5)] identifiers are copied *)
Definition cond_node_create (p : policydb) (node : option cond_node) : CM (option cond_node) :=
  new_node ← malloc;
  match new_node with
  | None => mret None
  | Some _ =>
      match node with
      | None => mret (Some (CondNode 0 [] [] [] [] [] 0 (replicate 5 0) 0 0))
      | Some node =>
          e ← cond_copy_expr (cn_cond_expr node);
          match e with
          | None => mret None
          | Some e =>
              st ← cond_evaluate_expr p e;
              let k := Z.to_nat (nbools node `min` COND_MAX_BOOLS) in
              mret (Some (CondNode st e [] [] [] [] (nbools node)
                            (take k (bool_ids node) ++ replicate (5 - k) 0)
                            (expr_pre_comp node) (cond_flags node)))
          end
      end
  end.

(** the position of the node found in [haystack], or the node created *)
Definition cond_node_find (p : policydb) (needle : cond_node) (haystack : list cond_node)
    : CM (nat + option cond_node) :=
  match list_find (λ n, cond_expr_equal needle n = true) haystack with
  | Some (i, _) => mret (inl i)
  | None => r ← cond_node_create p (Some needle); mret (inr r)
  end.
(** returns the database and the node found or added in front of its list *)
Definition cond_node_search (p : policydb) (list : list cond_node) (cn : cond_node)
    : CM (policydb * option cond_node) :=
  r ← cond_node_find p cn list;
  match r with
  | inl i => mret (p, list !! i)
  | inr None => mret (p, None)
  | inr (Some result) => mret (with_conds p (te_cond_avtab p) (result :: cond_list p), Some result)
  end.

(** ** Expressions as trees *)

Inductive bexp :=
  | BBool (id : Z)
  | BNot (e : bexp)
  | BOr (a b : bexp) | BAnd (a b : bexp) | BXor (a b : bexp) | BEq (a b : bexp) | BNeq (a b : bexp).

Fixpoint rpn (e : bexp) : list cond_expr :=
  match e with
  | BBool id => [CondExpr COND_BOOL id]
  | BNot e => rpn e ++ [CondExpr COND_NOT 0]
  | BOr a b => rpn a ++ rpn b ++ [CondExpr COND_OR 0]
  | BAnd a b => rpn a ++ rpn b ++ [CondExpr COND_AND 0]
  | BXor a b => rpn a ++ rpn b ++ [CondExpr COND_XOR 0]
  | BEq a b => rpn a ++ rpn b ++ [CondExpr COND_EQ 0]
  | BNeq a b => rpn a ++ rpn b ++ [CondExpr COND_NEQ 0]
  end.
Fixpoint bval (env : Z → bool) (e : bexp) : bool :=
  match e with
  | BBool id => env id
  | BNot e => negb (bval env e)
  | BOr a b => bval env a || bval env b
  | BAnd a b => bval env a && bval env b
  | BXor a b | BNeq a b => xorb (bval env a) (bval env b)
  | BEq a b => eqb (bval env a) (bval env b)
  end.
(** the stack the evaluation needs *)
Fixpoint bdepth (e : bexp) : nat :=
  match e with
  | BBool _ => 1
  | BNot e => bdepth e
  | BOr a b | BAnd a b | BXor a b | BEq a b | BNeq a b => bdepth a `max` S (bdepth b)
  end.
Fixpoint bids (e : bexp) : list Z :=
  match e with
  | BBool id => [id]
  | BNot e => bids e
  | BOr a b | BAnd a b | BXor a b | BEq a b | BNeq a b => bids a ++ bids b
  end.

Section evaluation.
Implicit Types (get : Z → option Z) (env : Z → bool) (s : list Z).

Lemma eval_loop_app get l1 l2 s h :
  cond_eval_loop get (l1 ++ l2) s h =
    match cond_eval_loop get l1 s h with
    | Some (inr s', h') => cond_eval_loop get l2 s' h'
    | r => r
    end.
Proof.
  unfold cond_eval_loop. revert s h. induction l1 as [|e l1 IH]; intros s h; [done|].
  cbn [app for_list]. unfold mbind, CM_bind. destruct (cond_eval_step get e s h) as [[[v|s'] h']|]; [done|apply IH|done].
Qed.

Definition reads get env (e : bexp) : Prop := ∀ id, id ∈ bids e → get id = Some (cbool (env id)).

Ltac binary IHa IHb :=
  rewrite eval_loop_app, IHa by (try (intros ??; set_solver); simpl in *; lia);
  rewrite eval_loop_app, IHb by (try (intros ??; set_solver); simpl in *; lia).

Lemma eval_rpn get env e s h :
  reads get env e → (length s + bdepth e ≤ 10)%nat →
  cond_eval_loop get (rpn e) s h = Some (inr (cbool (bval env e) :: s), h).
Proof.
  unfold reads. revert s. induction e as [id|e IH|a IHa b IHb|a IHa b IHb|a IHa b IHb|a IHa b IHb|a IHa b IHb];
    intros s Hr Hd; cbn [rpn bids bdepth bval] in *.
  - unfold cond_eval_loop. cbn [for_list]. unfold cond_eval_step, mbind, CM_bind. cbn [cond_type cond_bool].
    rewrite (Hr id) by by left. rewrite (proj2 (Z.eqb_neq (length s) COND_EXPR_MAXDEPTH)); [done|].
    unfold COND_EXPR_MAXDEPTH. lia.
  - rewrite eval_loop_app, IH by done. by destruct (bval env e).
  - binary IHa IHb. by destruct (bval env a), (bval env b).
  - binary IHa IHb. by destruct (bval env a), (bval env b).
  - binary IHa IHb. by destruct (bval env a), (bval env b).
  - binary IHa IHb. by destruct (bval env a), (bval env b).
  - binary IHa IHb. by destruct (bval env a), (bval env b).
Qed.

Lemma eval_rpn_overflow get env e s h :
  reads get env e → (length s ≤ 10)%nat → (10 < length s + bdepth e)%nat →
  cond_eval_loop get (rpn e) s h = Some (inl (-1), h).
Proof.
  unfold reads. revert s. assert (Hbin : ∀ (a b : bexp) t s,
    (∀ s, (∀ id, id ∈ bids a → get id = Some (cbool (env id))) → (length s ≤ 10)%nat →
      (10 < length s + bdepth a)%nat → cond_eval_loop get (rpn a) s h = Some (inl (-1), h)) →
    (∀ s, (∀ id, id ∈ bids b → get id = Some (cbool (env id))) → (length s ≤ 10)%nat →
      (10 < length s + bdepth b)%nat → cond_eval_loop get (rpn b) s h = Some (inl (-1), h)) →
    (∀ id, id ∈ bids a ++ bids b → get id = Some (cbool (env id))) → (length s ≤ 10)%nat →
    (10 < length s + (bdepth a `max` S (bdepth b)))%nat →
    cond_eval_loop get (rpn a ++ rpn b ++ [CondExpr t 0]) s h = Some (inl (-1), h)).
  { intros a b t s IHa IHb Hr Hs Hd. rewrite eval_loop_app.
    destruct (decide (10 < length s + bdepth a)%nat) as [|Hle].
    - by rewrite IHa by (set_solver || lia).
    - rewrite (eval_rpn get env) by (unfold reads; set_solver || lia).
      assert (0 < bdepth a)%nat by (clear; induction a; simpl; lia).
      rewrite eval_loop_app, IHb; [done|set_solver|simpl; lia..]. }
  induction e as [id|e IH|a IHa b IHb|a IHa b IHb|a IHa b IHb|a IHa b IHb|a IHa b IHb];
    intros s Hr Hs Hd; cbn [rpn bids bdepth] in *; try (by apply Hbin).
  - unfold cond_eval_loop. cbn [for_list]. unfold cond_eval_step, mbind, CM_bind. cbn [cond_type cond_bool].
    rewrite (proj2 (Z.eqb_eq (length s) COND_EXPR_MAXDEPTH)); [done|]. unfold COND_EXPR_MAXDEPTH. lia.
  - by rewrite eval_loop_app, IH.
Qed.

(** the booleans a list of expressions reads *)
Definition expr_ids (expr : list cond_expr) : list Z :=
  cond_bool <$> filter (λ e, cond_type e = COND_BOOL) expr.
Lemma expr_ids_app l1 l2 : expr_ids (l1 ++ l2) = expr_ids l1 ++ expr_ids l2.
Proof. unfold expr_ids. by rewrite filter_app, fmap_app. Qed.
Lemma expr_ids_rpn e : expr_ids (rpn e) = bids e.
Proof. induction e; cbn [rpn bids]; rewrite ?expr_ids_app; try done; by rewrite ?IHe, ?IHe1, ?IHe2, ?app_nil_r. Qed.

(** any list of expressions whose booleans are there evaluates to -1, 0 or 1 *)
Lemma eval_loop_safe get expr s h :
  (∀ id, id ∈ expr_ids expr → ∃ v, get id = Some v ∧ (v = 0 ∨ v = 1)) →
  Forall (λ v, v = 0 ∨ v = 1) s → (length s ≤ 10)%nat →
  wp (cond_eval_loop get expr s) (λ r h', h' = h ∧ match r with
    | inl v => v = -1
    | inr s' => Forall (λ v, v = 0 ∨ v = 1) s' ∧ (s ≠ [] → s' ≠ [])
    end) h.
Proof.
  assert (Hbit : ∀ b, cbool b = 0 ∨ cbool b = 1) by (intros []; auto).
  revert s. induction expr as [|e expr IH]; intros s Hids Hs Hl; [by apply wp_ret|].
  assert (∀ id, id ∈ expr_ids expr → ∃ v, get id = Some v ∧ (v = 0 ∨ v = 1)) as Hids'.
  { intros id Hin. apply Hids. unfold expr_ids in *. rewrite filter_cons. case_decide; [by right|done]. }
  unfold cond_eval_loop. cbn [for_list]. apply wp_bind.
  apply (wp_mono _ (λ r h', h' = h ∧ match r with
    | inl v => v = -1
    | inr s' => Forall (λ v, v = 0 ∨ v = 1) s' ∧ (length s' ≤ 10)%nat ∧ s' ≠ []
    end)).
  - unfold cond_eval_step. destruct (Z.eqb_spec (cond_type e) COND_BOOL) as [Ht|_].
    { destruct (Z.eqb_spec (length s) COND_EXPR_MAXDEPTH) as [|Hne]; [by apply wp_ret|].
      destruct (Hids (cond_bool e)) as (v&Hv&H01).
      { unfold expr_ids. rewrite filter_cons_True by done. by left. }
      eapply wp_bind, wp_deref; [done|]. apply wp_ret. split_and!; [done|by constructor| |done].
      unfold COND_EXPR_MAXDEPTH in Hne. simpl. lia. }
    repeat match goal with |- context [Z.eqb (cond_type e) ?t] => destruct (Z.eqb (cond_type e) t) end;
      apply wp_ret; (split; [done|]); try done;
      destruct s as [|y [|x s']]; try done; simpl in Hl;
      apply Forall_cons in Hs as [Hy Hs]; try apply Forall_cons in Hs as [Hx Hs];
      (split_and!; [|simpl; lia|done]); (constructor; [|try constructor; done]);
      try apply Hbit; destruct Hy as [-> | ->]; try (destruct Hx as [-> | ->]); auto.
  - intros [v|s'] h' [-> Hr]; [by apply wp_ret|]. destruct Hr as (Hs'&Hl'&Hne).
    eapply wp_mono; [by apply IH|]. intros [v|s''] h'' [-> Hr]; (split; [done|]); [done|].
    destruct Hr as [? Hne']. split; [done|]. auto.
Qed.
End evaluation.

(** ** Assignments to the booleans of an expression *)

Section assignment.
Implicit Types (ids vs ws : list Z) (b : list (option cond_bool_datum)).

Definition with_state (id v : Z) b : list (option cond_bool_datum) :=
  alter (fmap (λ d, BoolDatum (bool_value d) v (bool_flags d))) (Z.to_nat (id - 1)) b.
Fixpoint assign ids vs b : list (option cond_bool_datum) :=
  match ids, vs with
  | id :: ids, v :: vs => assign ids vs (with_state id v b)
  | _, _ => b
  end.
(** every identifier is that of a boolean *)
Definition present ids b : Prop := ∀ id, id ∈ ids → is_Some (at_val b id).

Lemma at_with_state id v b id' : 1 ≤ id →
  at_val (with_state id v b) id' =
    if decide (id' = id) then (λ d, BoolDatum (bool_value d) v (bool_flags d)) <$> at_val b id' else at_val b id'.
Proof.
  intros Hid. unfold at_val, with_state. destruct (Z.ltb_spec id' 1); [by case_decide|].
  case_decide as Hd.
  - subst. rewrite list_lookup_alter_eq. by destruct (b !! Z.to_nat (id - 1)) as [[]|].
  - by rewrite list_lookup_alter_ne by lia.
Qed.
Lemma present_pos ids b id : present ids b → id ∈ ids → 1 ≤ id.
Proof. intros Hp Hin. destruct (Hp id Hin) as [d Hd]. by apply at_val_lookup in Hd as [? _]. Qed.
Lemma present_with_state ids id v b : 1 ≤ id → present ids b → present ids (with_state id v b).
Proof.
  intros Hid Hp id' Hin. rewrite at_with_state by done. case_decide; [|by apply Hp].
  apply fmap_is_Some. by apply Hp.
Qed.

Lemma with_state_twice id v w b : with_state id v (with_state id w b) = with_state id v b.
Proof.
  unfold with_state. rewrite list_alter_alter_eq. apply list_alter_ext; [|done].
  by intros [d|] _.
Qed.
Lemma with_state_comm id id' v w b : 1 ≤ id → 1 ≤ id' → id ≠ id' →
  with_state id v (with_state id' w b) = with_state id' w (with_state id v b).
Proof. intros. unfold with_state. apply list_alter_alter_ne. lia. Qed.
Lemma with_state_same id b : 1 ≤ id →
  with_state id (default 0 (bool_get b id)) b = b.
Proof.
  intros Hid. unfold with_state. apply list_eq. intros i.
  destruct (decide (i = Z.to_nat (id - 1))) as [-> |]; [|by rewrite list_lookup_alter_ne by done].
  rewrite list_lookup_alter_eq. unfold bool_get, at_val. rewrite (proj2 (Z.ltb_ge _ _)) by lia.
  destruct (b !! Z.to_nat (id - 1)) as [[d|]|]; try done. simpl. by destruct d.
Qed.

Lemma set_bool_eq b id v h : is_Some (at_val b id) → set_bool b id v h = Some (with_state id v b, h).
Proof.
  intros [d Hd]. unfold set_bool, mbind, CM_bind. rewrite Hd. cbn. unfold mret, CM_ret. do 2 f_equal.
  apply at_val_lookup in Hd as [_ Hd]. unfold with_state. apply list_eq. intros i.
  destruct (decide (i = Z.to_nat (id - 1))) as [-> |].
  - rewrite list_lookup_alter_eq, Hd. rewrite list_lookup_insert_eq; [done|]. by eapply lookup_lt_Some.
  - by rewrite list_lookup_alter_ne, list_lookup_insert_ne by done.
Qed.

Lemma present_cons id ids b : present (id :: ids) b → 1 ≤ id ∧ present ids b ∧ is_Some (at_val b id).
Proof.
  intros Hp. split_and!; [eapply present_pos; [done|by left]| |apply Hp; by left].
  intros ??. apply Hp. by right.
Qed.
Lemma present_assign ids ids' vs b : present ids b → present ids' b → present ids' (assign ids vs b).
Proof.
  revert vs b. induction ids as [|id ids IH]; intros [|v vs] b Hp Hp'; try done.
  apply present_cons in Hp as (?&?&?). cbn [assign]. apply IH; by apply present_with_state.
Qed.

Lemma assign_with_state id v ids vs b : present (id :: ids) b → id ∉ ids →
  assign ids vs (with_state id v b) = with_state id v (assign ids vs b).
Proof.
  revert vs b. induction ids as [|id' ids IH]; intros [|w vs] b Hp Hn; try done.
  apply present_cons in Hp as (Hid&Hp&Hs). pose proof (present_cons _ _ _ Hp) as (Hid'&Hp'&_).
  apply not_elem_of_cons in Hn as [Hne Hn]. cbn [assign]. rewrite with_state_comm by done. apply IH; [|done].
  intros x Hx. apply (present_with_state [x]); [lia| |by left]. intros y ->%list_elem_of_singleton.
  apply elem_of_cons in Hx as [-> |?]; [done|by apply Hp'].
Qed.
Lemma assign_assign ids vs ws b : NoDup ids → present ids b → length vs = length ids → length ws = length ids →
  assign ids vs (assign ids ws b) = assign ids vs b.
Proof.
  revert vs ws b. induction ids as [|id ids IH]; intros [|v vs] [|w ws] b Hnd Hp Hv Hw; try done.
  apply NoDup_cons in Hnd as [Hn Hnd]. pose proof (present_cons _ _ _ Hp) as (Hid&Hp'&_). cbn [assign].
  rewrite <- (assign_with_state id v ids ws) by (by try apply present_with_state).
  rewrite with_state_twice. apply IH; [done|by apply present_with_state|simpl in *; lia..].
Qed.

Definition states ids b : list Z := (λ id, default 0 (bool_get b id)) <$> ids.
Lemma assign_states ids b : present ids b → assign ids (states ids b) b = b.
Proof.
  induction ids as [|id ids IH]; intros Hp; [done|]. apply present_cons in Hp as (Hid&Hp&_).
  cbn [states fmap list_fmap assign]. rewrite with_state_same by done. by apply IH.
Qed.

Lemma bool_get_assign ids vs b k id v : NoDup ids → present ids b →
  ids !! k = Some id → vs !! k = Some v → bool_get (assign ids vs b) id = Some v.
Proof.
  revert k vs b. induction ids as [|id0 ids IH]; intros [|k] [|v0 vs] b Hnd Hp Hk Hv; try done;
    apply NoDup_cons in Hnd as [Hn Hnd]; pose proof (present_cons _ _ _ Hp) as (Hid&Hp'&Hs); cbn [assign lookup list_lookup] in *.
  - injection Hk as ->. injection Hv as ->. rewrite assign_with_state by done. unfold bool_get.
    rewrite at_with_state, decide_True by done. destruct (present_assign ids [id] vs b) with (id := id) as [d ->];
      [done| |by left|done]. by intros ? ->%list_elem_of_singleton.
  - apply (IH k); [done|by apply present_with_state|done|done].
Qed.

Lemma set_bools_eq ids j test b h : present ids b → 0 ≤ j →
  set_bools ids j test b h = Some (assign ids ((λ k, cbool (Z.testbit test k)) <$> seqZ j (length ids)) b, h).
Proof.
  revert j b. induction ids as [|id ids IH]; intros j b Hp Hj; [done|].
  pose proof (present_cons _ _ _ Hp) as (Hid&Hp'&Hs). cbn [set_bools]. unfold mbind, CM_bind.
  rewrite set_bool_eq, IH by (done || lia || by apply present_with_state).
  rewrite truth_land_bit by done. rewrite (seqZ_cons j) by (cbn [length]; lia). rewrite fmap_cons. cbn [assign length].
  replace (Z.pred (S (length ids))) with (Z.of_nat (length ids)) by lia.
  replace (Z.succ j) with (j + 1) by lia. by destruct (Z.testbit test j).
Qed.
Lemma save_bools_eq ids b h : present ids b → save_bools ids b h = Some (u32 <$> states ids b, h).
Proof.
  induction ids as [|id ids IH]; intros Hp; [done|]. apply present_cons in Hp as (Hid&Hp&[d Hd]).
  cbn [save_bools]. unfold mbind, CM_bind. assert (bool_get b id = Some (bool_state d)) as Hg by (unfold bool_get; by rewrite Hd).
  rewrite Hg. cbn [deref mret CM_ret]. rewrite IH by done. unfold states. cbn [fmap list_fmap]. by rewrite Hg.
Qed.
Lemma restore_bools_eq ids vs b h : present ids b → restore_bools ids vs b h = Some (assign ids (i32 <$> vs) b, h).
Proof.
  revert vs b. induction ids as [|id ids IH]; intros [|v vs] b Hp; try done.
  pose proof (present_cons _ _ _ Hp) as (Hid&Hp'&Hs). cbn [restore_bools]. unfold mbind, CM_bind.
  rewrite set_bool_eq by done. by rewrite IH by by apply present_with_state.
Qed.

(** the number whose bits are the values of the booleans *)
Fixpoint env_index ids (env : Z → bool) : Z :=
  match ids with [] => 0 | id :: ids => cbool (env id) + 2 * env_index ids env end.
Lemma env_index_range ids env : 0 ≤ env_index ids env < 2 ^ length ids.
Proof.
  induction ids as [|id ids IH]; [simpl; lia|]. cbn [env_index length]. rewrite Nat2Z.inj_succ, Z.pow_succ_r by lia.
  destruct (env id); cbn [cbool]; lia.
Qed.
Lemma env_index_bit ids env k id : ids !! k = Some id → Z.testbit (env_index ids env) (Z.of_nat k) = env id.
Proof.
  revert k. induction ids as [|id0 ids IH]; intros [|k] Hk; try done; cbn [env_index lookup list_lookup] in *.
  - injection Hk as ->. change (Z.of_nat 0) with 0. rewrite Z.add_comm. destruct (env id); cbn [cbool].
    + apply Z.testbit_odd_0.
    + rewrite Z.add_0_r. apply Z.testbit_even_0.
  - rewrite Nat2Z.inj_succ, <- (IH k Hk). rewrite Z.add_comm. destruct (env id0); cbn [cbool].
    + by rewrite Z.testbit_odd_succ by lia.
    + by rewrite Z.add_0_r, Z.testbit_even_succ by lia.
Qed.

(** the environment an index stands for *)
Definition index_env ids (test : Z) (id : Z) : bool :=
  match list_find (λ x, x = id) ids with Some (k, _) => Z.testbit test (Z.of_nat k) | None => false end.
Lemma index_env_lookup ids test (k : nat) id : NoDup ids → ids !! k = Some id → index_env ids test id = Z.testbit test k.
Proof.
  intros Hnd Hk. unfold index_env. destruct (list_find (λ x, x = id) ids) as [[k' x]|] eqn:E.
  - apply list_find_Some in E as (Hk'&->&_). by rewrite (NoDup_lookup _ _ _ _ Hnd Hk Hk').
  - apply list_find_None in E. rewrite Forall_forall in E. destruct (E id); [|done].
    by eapply list_elem_of_lookup_2.
Qed.

Lemma bval_ext env env' e : (∀ id, id ∈ bids e → env id = env' id) → bval env e = bval env' e.
Proof.
  induction e; cbn [bids bval]; intros He; [apply He; by left|by rewrite IHe|..];
    rewrite IHe1, IHe2; (done || set_solver).
Qed.
Lemma bval_index_env ids env e : NoDup ids → (∀ id, id ∈ bids e → id ∈ ids) →
  bval (index_env ids (env_index ids env)) e = bval env e.
Proof.
  intros Hnd Hin. apply bval_ext. intros id Hid. apply Hin, list_elem_of_lookup in Hid as [k Hk].
  by rewrite (index_env_lookup _ _ k), (env_index_bit _ _ _ id) by done.
Qed.

(** evaluation under the assignment of a combination *)
Lemma reads_assign ids test b e : NoDup ids → present ids b → (∀ id, id ∈ bids e → id ∈ ids) →
  reads (bool_get (assign ids ((λ k, cbool (Z.testbit test k)) <$> seqZ 0 (length ids)) b)) (index_env ids test) e.
Proof.
  intros Hnd Hp Hin id Hid. apply Hin, list_elem_of_lookup in Hid as [k Hk].
  rewrite (index_env_lookup _ _ k) by done. apply (bool_get_assign _ _ _ k); [done..|].
  pose proof (lookup_lt_Some _ _ _ Hk). rewrite list_lookup_fmap, lookup_seqZ_lt by lia. done.
Qed.
End assignment.

(** ** The table of outcomes *)

Section precompute.
Implicit Types (ids : list Z) (b : list (option cond_bool_datum)).

Lemma u32_one_shift k : 0 ≤ k < 32 → u32 (Z.shiftl 1 k) = Z.shiftl 1 k.
Proof. intros Hk. pose proof (one_shift_range 32 k Hk). apply (wrap_id 32). lia. Qed.

Lemma wp_precompute e ids b h :
  NoDup ids → present ids b → (∀ id, id ∈ bids e → id ∈ ids) → (length ids ≤ 5)%nat → (bdepth e ≤ 10)%nat →
  wp (precompute (rpn e) ids b) (λ r h', h' = h ∧ match r with
    | inl _ => False
    | inr (b', pre_comp) => (∃ ws, length ws = length ids ∧ b' = assign ids ws b) ∧
        0 ≤ pre_comp < 2 ^ 2 ^ length ids ∧
        ∀ t, 0 ≤ t < 2 ^ length ids → Z.testbit pre_comp t = bval (index_env ids t) e
    end) h.
Proof.
  intros Hnd Hp Hin Hlen Hd. unfold precompute. rewrite Z.shiftl_1_l.
  assert (2 ^ length ids ≤ 2 ^ 5) as Hpow by (apply Z.pow_le_mono_r; lia).
  assert (0 < 2 ^ length ids) by (apply Z.pow_pos_nonneg; lia).
  apply (wp_for_loop (λ i '(b', pre_comp) h', h' = h ∧ (∃ ws, length ws = length ids ∧ b' = assign ids ws b) ∧
    0 ≤ pre_comp < 2 ^ i ∧ ∀ t, 0 ≤ t < i → Z.testbit pre_comp t = bval (index_env ids t) e)).
  - split_and!; [done| |done|done|intros; lia]. exists (states ids b).
    unfold states. rewrite length_fmap. split; [done|]. symmetry. by apply assign_states.
  - intros i [b' pc] h' Hi (->&(ws&Hws&->)&Hpc&Hbits).
    set (vs := (λ k, cbool (Z.testbit i k)) <$> seqZ 0 (length ids)).
    assert (length vs = length ids) as Hvs by (unfold vs; rewrite length_fmap, length_seqZ; lia).
    apply wp_bind. unfold wp at 1. rewrite set_bools_eq by (done || by apply present_assign). fold vs.
    rewrite assign_assign by done. apply wp_bind, wp_fmap. unfold wp at 1.
    rewrite (eval_rpn _ (index_env ids i)) by (done || by apply reads_assign).
    apply wp_ret. destruct (bval (index_env ids i) e) eqn:Eb; cbn [cbool cond_eval_result last default from_option].
    all: change (truth (id 1)) with true || change (truth (id 0)) with false; cbv iota.
    + refine (conj eq_refl (conj _ (conj _ _))); [by exists vs| |].
      * rewrite u32_one_shift by lia. rewrite Z.pow_add_r, Z.pow_1_r by lia.
        pose proof (lor_range (i + 1) pc (Z.shiftl 1 i) ltac:(lia)) as Hr. rewrite Z.pow_add_r, Z.pow_1_r in Hr by lia.
        apply Hr; [lia|]. rewrite Z.shiftl_1_l. lia.
      * intros t Ht. rewrite u32_one_shift, testbit_set by lia. destruct (Z.eqb_spec t i) as [-> |].
        { rewrite Eb. apply orb_true_r. }
        rewrite orb_false_r. apply Hbits. lia.
    + refine (conj eq_refl (conj _ (conj _ _))); [by exists vs|rewrite Z.pow_add_r by lia; lia|].
      intros t Ht. destruct (decide (t = i)) as [-> |]; [|apply Hbits; lia]. rewrite Eb. by apply (testbit_high i).
  - intros [b' pc] h' (->&Hws&Hpc&Hbits). rewrite Z.max_r in * by lia. done.
Qed.

(** the distinct booleans in the order of their first occurrence *)
Fixpoint first_seen (acc l : list Z) : list Z :=
  match l with
  | [] => acc
  | x :: l => if decide (x ∈ acc) then first_seen acc l else first_seen (acc ++ [x]) l
  end.
Lemma first_seen_spec acc l : NoDup acc →
  NoDup (first_seen acc l) ∧ (∀ x, x ∈ first_seen acc l ↔ x ∈ acc ∨ x ∈ l) ∧
  (length acc ≤ length (first_seen acc l))%nat.
Proof.
  revert acc. induction l as [|x l IH]; intros acc Hnd; cbn [first_seen].
  { split_and!; [done|set_solver|lia]. }
  case_decide as Hx.
  - destruct (IH acc Hnd) as (?&Hm&?). split_and!; [done| |done]. intros y. rewrite Hm. set_solver.
  - destruct (IH (acc ++ [x])) as (?&Hm&Hl).
    { apply NoDup_app. split_and!; [done|set_solver|apply NoDup_singleton]. }
    rewrite length_app in Hl. simpl in Hl. split_and!; [done| |lia]. intros y. rewrite Hm. set_solver.
Qed.

Lemma existsb_elem x l : existsb (Z.eqb x) l = bool_decide (x ∈ l).
Proof.
  apply eq_true_iff_eq. rewrite existsb_exists, bool_decide_eq_true. split.
  - intros (y&Hy&->%Z.eqb_eq). by apply list_elem_of_In.
  - intros Hx. exists x. split; [by apply list_elem_of_In|apply Z.eqb_refl].
Qed.

Lemma find_bools_many expr n ids : 5 < n → n + length expr < 2 ^ 32 → 5 < (find_bools expr n ids).1.
Proof.
  revert n ids. induction expr as [|e expr IH]; intros n ids Hn Hl; [done|]. cbn [find_bools length] in *.
  unfold bool_present, COND_MAX_BOOLS. rewrite (proj2 (Z.ltb_lt 5 n)), (proj2 (Z.ltb_ge n 5)) by lia.
  destruct (_ =? _); [|apply IH; lia]. unfold u32. rewrite wrap_id by lia. apply IH; lia.
Qed.

Lemma find_bools_spec expr acc ids :
  NoDup acc → (length acc ≤ 5)%nat → length ids = 5%nat → take (length acc) ids = acc →
  length acc + length expr < 2 ^ 32 →
  let seen := first_seen acc (expr_ids expr) in
  let '(n, ids') := find_bools expr (length acc) ids in
  if decide (length seen ≤ 5)%nat then n = length seen ∧ take (length seen) ids' = seen else 5 < n.
Proof.
  revert acc ids. induction expr as [|e expr IH]; intros acc ids Hnd Hl Hids Ht Hlen; cbn [find_bools length].
  { cbn. by rewrite decide_True. }
  unfold expr_ids. rewrite filter_cons. destruct (Z.eqb_spec (cond_type e) COND_BOOL) as [He|He].
  2:{ rewrite decide_False by done. cbn [length] in Hlen. apply IH; (done || lia). }
  rewrite decide_True by done. rewrite fmap_cons. cbn [first_seen length] in *. fold (expr_ids expr).
  unfold bool_present. unfold COND_MAX_BOOLS at 1. rewrite (proj2 (Z.ltb_ge 5 _)) by lia.
  rewrite Nat2Z.id, Ht, existsb_elem. destruct (decide (cond_bool e ∈ acc)) as [Hin|Hin].
  { rewrite bool_decide_eq_true_2 by done. apply IH; (done || lia). }
  rewrite bool_decide_eq_false_2 by done. unfold COND_MAX_BOOLS.
  assert (NoDup (acc ++ [cond_bool e])) as Hnd' by (apply NoDup_app; split_and!; [done|set_solver|apply NoDup_singleton]).
  destruct (Z.ltb_spec (length acc) 5) as [Hlt|Hge].
  - replace (length acc + 1) with (Z.of_nat (length (acc ++ [cond_bool e]))) by (rewrite length_app; simpl; lia).
    apply IH; rewrite ?length_app, ?length_insert; cbn [length]; try (done || lia).
    rewrite Nat.add_1_r. erewrite take_S_r by (apply list_lookup_insert_eq; lia).
    by rewrite take_insert_ge, Ht by lia.
  - assert (length acc = 5%nat) as Hacc by lia.
    destruct (first_seen_spec (acc ++ [cond_bool e]) (expr_ids expr) Hnd') as (_&_&Hge').
    rewrite length_app in Hge'. simpl in Hge'.
    pose proof (find_bools_many expr (u32 (length acc + 1)) ids) as Hm. unfold u32 in *. rewrite wrap_id in * by lia.
    destruct (find_bools expr _ ids) as [n ids']. rewrite decide_False by lia. apply Hm; lia.
Qed.
End precompute.

(** ** Normal forms *)

(** the expression without a final negation, and whether there was one *)
Definition strip (e : bexp) : bexp * bool := match e with BNot e => (e, true) | _ => (e, false) end.

(** [cn] holds the expression [e], its booleans and, for at most five of them,
    its value under every assignment *)
Definition tabulates (cn : cond_node) (e : bexp) : Prop :=
  let ids := first_seen [] (bids e) in
  cn_cond_expr cn = rpn e ∧
  if decide (length ids ≤ 5)%nat then
    nbools cn = length ids ∧ take (length ids) (bool_ids cn) = ids ∧
    0 ≤ expr_pre_comp cn < 2 ^ 2 ^ length ids ∧
    ∀ env, Z.testbit (expr_pre_comp cn) (env_index ids env) = bval env e
  else 5 < nbools cn.

(** the states are values of an [int] *)
Definition int_states (p : policydb) (ids : list Z) : Prop :=
  ∀ id v, id ∈ ids → bool_get (bool_val_to_struct p) id = Some v → - 2 ^ 31 ≤ v < 2 ^ 31.

Section normal_form.

Lemma with_bools_same p : with_bools p (bool_val_to_struct p) = p.
Proof. by destruct p. Qed.

Lemma rpn_nonempty e : rpn e ≠ [].
Proof. destruct e; cbn [rpn]; try done; intros Hx; apply (f_equal length) in Hx; rewrite ?length_app in Hx; simpl in Hx; lia. Qed.
Lemma rpn_last e : ∃ l x, rpn e = l ++ [x] ∧ (cond_type x =? COND_NOT) = (strip e).2.
Proof.
  destruct e; cbn [rpn strip snd]; [exists []|exists (rpn e)|exists (rpn e1 ++ rpn e2)..];
    eexists; rewrite <- ?app_assoc; done.
Qed.
Lemma i32_u32_states p ids : int_states p ids → present ids (bool_val_to_struct p) →
  i32 <$> (u32 <$> states ids (bool_val_to_struct p)) = states ids (bool_val_to_struct p).
Proof.
  intros Hi Hp. rewrite <- list_fmap_compose. rewrite <- list_fmap_id. apply list_fmap_ext.
  intros k v Hk. unfold states in Hk. apply list_lookup_fmap_Some in Hk as (id&->&Hid). cbn.
  assert (id ∈ ids) as Hin by by eapply list_elem_of_lookup_2. destruct (Hp id Hin) as [d Hd].
  specialize (Hi id (bool_state d) Hin). unfold bool_get in *. rewrite Hd in *. simpl in *. specialize (Hi eq_refl).
  unfold i32, u32, wrap. rewrite Zplus_mod_idemp_l, Z.mod_small by lia. lia.
Qed.

Lemma cond_normalize_expr_wp p cn e h :
  cn_cond_expr cn = rpn e → (bdepth e ≤ 10)%nat → length (rpn e) < 2 ^ 32 →
  present (bids e) (bool_val_to_struct p) → int_states p (bids e) →
  wp (cond_normalize_expr p cn) (λ '(rc, p', cn') h', h' = h ∧ rc = 0 ∧ p' = p ∧ tabulates cn' (strip e).1 ∧
    (true_list cn', false_list cn', avtrue_list cn', avfalse_list cn') =
      (if (strip e).2 then (false_list cn, true_list cn, avfalse_list cn, avtrue_list cn)
       else (true_list cn, false_list cn, avtrue_list cn, avfalse_list cn)) ∧
    cur_state cn' = cur_state cn) h.
Proof.
  intros He Hd Hlen Hp Hint. unfold cond_normalize_expr. rewrite He.
  destruct (rpn_last e) as (l&x&Hl&Hx). eapply wp_bind, wp_deref; [rewrite Hl; apply last_snoc|]. rewrite Hx.
  set (e' := (strip e).1).
  assert (rpn e' = (if (strip e).2 then removelast (rpn e) else rpn e) ∧ bids e' = bids e ∧ bdepth e' = bdepth e) as (Hr&Hb&Hde).
  { unfold e'. destruct e; try done. cbn [strip fst snd rpn bids bdepth]. by rewrite removelast_last. }
  assert ((strip e).2 && (length (rpn e) =? 1) = false) as ->.
  { destruct e; try done. cbn [strip snd rpn andb]. apply Z.eqb_neq. rewrite length_app. simpl.
    pose proof (rpn_nonempty e) as Hne. destruct (rpn e); [done|]. simpl. lia. }
  set (sel := if (strip e).2 then _ else _).
  assert (sel = (rpn e', if (strip e).2 then false_list cn else true_list cn, if (strip e).2 then true_list cn else false_list cn,
    if (strip e).2 then avfalse_list cn else avtrue_list cn, if (strip e).2 then avtrue_list cn else avfalse_list cn)) as ->.
  { unfold sel. rewrite Hr. by destruct (strip e).2. }
  set (ids := first_seen [] (bids e')).
  destruct (first_seen_spec [] (bids e') (NoDup_nil_2)) as (Hnd&Hin&_). fold ids in Hnd, Hin.
  assert (length (rpn e') < 2 ^ 32) as Hlen'.
  { rewrite Hr. destruct (strip e).2; [|done]. rewrite Hl, removelast_last in *. rewrite length_app in Hlen. lia. }
  pose proof (find_bools_spec (rpn e') [] (replicate 5 0) NoDup_nil_2 ltac:(simpl; lia) eq_refl eq_refl ltac:(simpl; lia)) as Hf.
  rewrite expr_ids_rpn in Hf. fold ids in Hf. cbn [length] in Hf. change (Z.of_nat 0) with 0 in Hf.
  destruct (find_bools (rpn e') 0 (replicate 5 0)) as [n fids]. unfold tabulates. fold ids.
  destruct (decide (length ids ≤ 5)%nat) as [Hle|Hgt]; cycle 1.
  { unfold COND_MAX_BOOLS. rewrite (proj2 (Z.leb_gt n 5)) by lia. apply wp_ret.
    split_and!; try done. cbn. by destruct (strip e).2. }
  destruct Hf as [-> Ht]. unfold COND_MAX_BOOLS. rewrite (proj2 (Z.leb_le _ _)) by lia. rewrite Nat2Z.id, Ht.
  assert (present ids (bool_val_to_struct p)) as Hpi.
  { intros id Hid. apply Hp. rewrite <- Hb. apply Hin in Hid as [?%elem_of_nil|?]; done. }
  assert (int_states p ids) as Hii.
  { intros id v Hid. apply Hint. rewrite <- Hb. apply Hin in Hid as [?%elem_of_nil|?]; done. }
  apply wp_bind. unfold wp at 1. rewrite save_bools_eq by done. apply wp_bind.
  eapply wp_mono; [apply wp_precompute; [done|done|intros; apply Hin; by right|done|lia]|].
  intros [?|[b' pc]] h' [-> Hpc]; [done|]. destruct Hpc as ((ws&Hws&->)&Hr1&Hbits).
  apply wp_bind. unfold wp at 1. rewrite restore_bools_eq by by apply present_assign.
  rewrite i32_u32_states, assign_assign, assign_states, with_bools_same by (done || by unfold states; rewrite length_fmap).
  apply wp_ret. split_and!; try done; cbn [cn_cond_expr nbools bool_ids expr_pre_comp]; try lia.
  - intros env. rewrite Hbits by apply env_index_range. apply bval_index_env; [done|]. intros; apply Hin. by right.
  - cbn. by destruct (strip e).2.
Qed.

Lemma same_exprs_eval get a b s h :
  same_exprs a b = true → cond_eval_loop get a s h = cond_eval_loop get b s h.
Proof.
  unfold cond_eval_loop. revert b s h. induction a as [|x a IH]; intros [|y b] s h; cbn [same_exprs]; try done.
  destruct (Z.eqb_spec (cond_type x) (cond_type y)) as [Ht|]; [|done]. cbn [negb for_list].
  assert (cond_type x = COND_BOOL → cond_bool x ≠ cond_bool y → (cond_type x =? COND_BOOL) && negb (cond_bool x =? cond_bool y) = true) as Hne.
  { intros -> Hne. by rewrite (proj2 (Z.eqb_neq _ _) Hne). }
  destruct (_ && _); [done|]. intros Hs. unfold mbind, CM_bind.
  assert (cond_eval_step get x s = cond_eval_step get y s) as ->.
  { unfold cond_eval_step. rewrite <- Ht. destruct (Z.eqb_spec (cond_type x) COND_BOOL) as [Hb|]; [|done].
    destruct (decide (cond_bool x = cond_bool y)) as [->|Hx]; [done|]. by specialize (Hne Hb Hx). }
  destruct (cond_eval_step get y s h) as [[[v|s'] h']|]; [done|by apply IH|done].
Qed.

Lemma cond_expr_equal_sound a b ea eb env :
  tabulates a ea → tabulates b eb → (bdepth ea ≤ 10)%nat → (bdepth eb ≤ 10)%nat →
  first_seen [] (bids ea) = first_seen [] (bids eb) → cond_expr_equal a b = true → bval env ea = bval env eb.
Proof.
  intros [Hea Ha] [Heb Hb] Hda Hdb Hids Heq. rewrite <- Hids in Hb. unfold cond_expr_equal in Heq.
  destruct (decide (length (first_seen [] (bids ea)) ≤ 5)%nat) as [Hle|Hgt].
  - destruct Ha as (Hna&_&_&Ha), Hb as (Hnb&_&_&Hb). rewrite Hna, Hnb, Z.eqb_refl in Heq.
    unfold COND_MAX_BOOLS in Heq. rewrite (proj2 (Z.leb_le _ 5)) in Heq by lia. cbn [negb andb] in Heq.
    destruct (same_bools a b); [|done]. cbn [negb] in Heq. apply Z.eqb_eq in Heq. by rewrite <- Ha, Heq, Hb.
  - unfold COND_MAX_BOOLS in Heq. destruct (negb (nbools a =? nbools b)); [done|].
    rewrite (proj2 (Z.leb_gt (nbools a) 5)) in Heq by lia. cbn [andb] in Heq. rewrite Hea, Heb in Heq.
    pose proof (same_exprs_eval (λ id, Some (cbool (env id))) _ _ [] fresh_heap Heq) as Hev.
    rewrite !(eval_rpn _ env) in Hev by (done || simpl; lia). injection Hev as Hev.
    by destruct (bval env ea), (bval env eb).
Qed.
End normal_form.

(** ** Properties *)

(** C22: [cond_evaluate_expr] computes the value of the tree whose reverse
    polish notation it is given, whenever the tree needs at most the
    [COND_EXPR_MAXDEPTH] cells of the stack, and answers -1 when it needs
    more. *)
Theorem cond_evaluate_expr_correct p e env h :
  reads (bool_get (bool_val_to_struct p)) env e →
  cond_evaluate_expr p (rpn e) h =
    Some (if decide (bdepth e ≤ 10)%nat then cbool (bval env e) else -1, h).
Proof.
  intros Hr. unfold cond_evaluate_expr, fmap, CM_fmap, mbind, CM_bind. case_decide.
  - by rewrite (eval_rpn _ env) by (done || simpl; lia).
  - by rewrite (eval_rpn_overflow _ env) by (done || simpl; lia).
Qed.

(** on any list of expressions, well formed or not, whose booleans exist
    and are 0 or 1, [cond_evaluate_expr] has no undefined behaviour and
    answers -1, 0 or 1. *)
Theorem cond_evaluate_expr_safe p expr h :
  (∀ id, id ∈ expr_ids expr → ∃ v, bool_get (bool_val_to_struct p) id = Some v ∧ (v = 0 ∨ v = 1)) →
  wp (cond_evaluate_expr p expr) (λ v h', h' = h ∧ (v = -1 ∨ v = 0 ∨ v = 1)) h.
Proof.
  intros Hids. apply wp_fmap. eapply wp_mono; [apply eval_loop_safe; [done|constructor|simpl; lia]|].
  intros [v|s] h' [-> Hr]; (split; [done|]); [by left|]. destruct Hr as [Hs _]. cbn [cond_eval_result].
  destruct (last s) as [v|] eqn:El; [|by left]. right. rewrite Forall_forall in Hs. apply Hs.
  by apply last_Some_elem_of.
Qed.

(** [cond_normalize_expr] takes off a final negation and then exchanges the
    true and false lists, tabulates the value of the expression under every
    assignment to its booleans when there are at most five, and leaves every
    boolean in the state it had. *)
Theorem cond_normalize_expr_correct p cn e h :
  cn_cond_expr cn = rpn e → (bdepth e ≤ 10)%nat → length (rpn e) < 2 ^ 32 →
  present (bids e) (bool_val_to_struct p) → int_states p (bids e) →
  wp (cond_normalize_expr p cn) (λ '(rc, p', cn') h', h' = h ∧ rc = 0 ∧ p' = p ∧ tabulates cn' (strip e).1 ∧
    (true_list cn', false_list cn', avtrue_list cn', avfalse_list cn') =
      (if (strip e).2 then (false_list cn, true_list cn, avfalse_list cn, avtrue_list cn)
       else (true_list cn, false_list cn, avtrue_list cn, avfalse_list cn)) ∧
    cur_state cn' = cur_state cn) h.
Proof. apply cond_normalize_expr_wp. Qed.

(** for normalised expressions whose booleans first occur in the same
    order, a positive answer of [cond_expr_equal] means that they have the same
    value under every assignment. *)
Theorem cond_expr_equal_same_order a b ea eb env :
  tabulates a ea → tabulates b eb → (bdepth ea ≤ 10)%nat → (bdepth eb ≤ 10)%nat →
  first_seen [] (bids ea) = first_seen [] (bids eb) → cond_expr_equal a b = true → bval env ea = bval env eb.
Proof. apply cond_expr_equal_sound. Qed.

(** two booleans, the first true and the second false *)
Definition two_bools : policydb := with_bools empty_policydb [Some (BoolDatum 1 1 0); Some (BoolDatum 2 0 0)].
Definition cond_of (e : bexp) : cond_node := CondNode (-1) (rpn e) [] [] [] [] 0 (replicate 5 0) 0 0.

(** without that proviso the answer is wrong: the tables of
    [b1 && !b2] and [b2 && !b1], each indexed by its own order of booleans,
    are the same, so [cond_expr_equal] identifies two conditions with opposite
    values, and [cond_node_find] returns the wrong one. *)
Theorem cond_expr_equal_ignores_order :
  let ea := BAnd (BBool 1) (BNot (BBool 2)) in let eb := BAnd (BBool 2) (BNot (BBool 1)) in
  ∃ a b, cond_normalize_expr two_bools (cond_of ea) fresh_heap = Some ((0, two_bools, a), fresh_heap) ∧
    cond_normalize_expr two_bools (cond_of eb) fresh_heap = Some ((0, two_bools, b), fresh_heap) ∧
    cond_expr_equal b a = true ∧ cond_node_find two_bools b [a] fresh_heap = Some (inl 0%nat, fresh_heap) ∧
    cond_evaluate_expr two_bools (cn_cond_expr a) fresh_heap = Some (1, fresh_heap) ∧
    cond_evaluate_expr two_bools (cn_cond_expr b) fresh_heap = Some (0, fresh_heap).
Proof. do 2 eexists. split_and!; by vm_compute. Qed.

(** after an expression that does not evaluate, the booleans keep the last
    combination that was tried *)
Example cond_normalize_expr_error_keeps_states :
  let cn := CondNode (-1) [CondExpr COND_BOOL 1; CondExpr COND_AND 0] [] [] [] [] 0 (replicate 5 0) 0 0 in
  ∃ p' cn', cond_normalize_expr two_bools cn fresh_heap = Some ((-1, p', cn'), fresh_heap) ∧
    bool_get (bool_val_to_struct two_bools) 1 = Some 1 ∧ bool_get (bool_val_to_struct p') 1 = Some 0.
Proof. do 2 eexists. split_and!; by vm_compute. Qed.

Lemma two_bools_reads e : Forall (λ id, id = 1 ∨ id = 2) (bids e) →
  reads (bool_get (bool_val_to_struct two_bools)) (Z.eqb 1) e.
Proof. rewrite Forall_forall. intros He id Hin. by destruct (He id Hin) as [-> | ->]. Qed.

(** witness of C22 *)
Lemma cond_evaluate_expr_correct_witness :
  let e := BAnd (BBool 1) (BNot (BBool 2)) in
  cond_evaluate_expr two_bools (rpn e) fresh_heap =
    Some (if decide (bdepth e ≤ 10)%nat then cbool (bval (Z.eqb 1) e) else -1, fresh_heap).
Proof.
  apply cond_evaluate_expr_correct. apply two_bools_reads.
  constructor; [by left|]. constructor; [by right|constructor].
Defined.

(** witness of [cond_evaluate_expr_safe] *)
Lemma cond_evaluate_expr_safe_witness :
  wp (cond_evaluate_expr two_bools [CondExpr COND_BOOL 1; CondExpr COND_OR 0])
    (λ v h', h' = fresh_heap ∧ (v = -1 ∨ v = 0 ∨ v = 1)) fresh_heap.
Proof.
  apply cond_evaluate_expr_safe. intros id Hin. apply list_elem_of_singleton in Hin as ->.
  exists 1. split; [reflexivity|by right].
Defined.

(** witness of [cond_normalize_expr_correct] *)
Lemma cond_normalize_expr_correct_witness :
  let e := BNot (BOr (BBool 1) (BBool 2)) in let p := two_bools in let cn := cond_of e in
  wp (cond_normalize_expr p cn) (λ '(rc, p', cn') h', h' = fresh_heap ∧ rc = 0 ∧ p' = p ∧ tabulates cn' (strip e).1 ∧
    (true_list cn', false_list cn', avtrue_list cn', avfalse_list cn') =
      (if (strip e).2 then (false_list cn, true_list cn, avfalse_list cn, avtrue_list cn)
       else (true_list cn, false_list cn, avtrue_list cn, avfalse_list cn)) ∧
    cur_state cn' = cur_state cn) fresh_heap.
Proof.
  apply (cond_normalize_expr_correct two_bools (cond_of (BNot (BOr (BBool 1) (BBool 2)))) (BNot (BOr (BBool 1) (BBool 2)))).
  - reflexivity.
  - simpl; lia.
  - simpl; lia.
  - intros id Hin. repeat (apply elem_of_cons in Hin as [-> |Hin]; [by eexists|]). by apply elem_of_nil in Hin.
  - intros id v Hin. repeat (apply elem_of_cons in Hin as [-> |Hin]; [by intros [= <-]|]). by apply elem_of_nil in Hin.
Defined.

(** witness of [cond_expr_equal_same_order]: [b1 || b2] and [b1 != (!b1 && b2)] *)
Lemma cond_expr_equal_same_order_witness :
  let ea := BOr (BBool 1) (BBool 2) in let eb := BNeq (BBool 1) (BAnd (BNot (BBool 1)) (BBool 2)) in
  let node e := CondNode (-1) (rpn e) [] [] [] [] 2 [1; 2; 0; 0; 0] 14 0 in
  cond_expr_equal (node ea) (node eb) = true ∧ bval (Z.eqb 2) ea = bval (Z.eqb 2) eb.
Proof.
  split; [reflexivity|].
  apply (cond_expr_equal_same_order
    (CondNode (-1) (rpn (BOr (BBool 1) (BBool 2))) [] [] [] [] 2 [1; 2; 0; 0; 0] 14 0)
    (CondNode (-1) (rpn (BNeq (BBool 1) (BAnd (BNot (BBool 1)) (BBool 2)))) [] [] [] [] 2 [1; 2; 0; 0; 0] 14 0)).
  - split; [reflexivity|]. rewrite decide_True by (simpl; lia). split_and!; try done.
    intros env. simpl. by destruct (env 1), (env 2).
  - split; [reflexivity|]. rewrite decide_True by (simpl; lia). split_and!; try done.
    intros env. simpl. by destruct (env 1), (env 2).
  - simpl; lia.
  - simpl; lia.
  - reflexivity.
  - reflexivity.
Defined.
