(* ===== verification/CondList.v ===== *)
(** * Conditional rules ([conditional.c], second part)

    The rules of the conditionals live in the table [te_cond_avtab]; the true
    and false lists of a conditional point to their nodes, and switching a
    conditional sets or clears the bit [AVTAB_ENABLED] of the nodes in place.
    A pointer to a node is its address. *)

From S2P Require Import Prelude Policydb Avtab Conditional.

(** ** Nodes by address *)

(** [*a]: undefined when no node of the table is at [a] *)
Definition av_find (h : avtab) (a : Z) : option avtab_node :=
  t ← av_htable h; snd <$> list_find (λ nd, av_addr nd = a) (concat t).
(** a store to the node at [a] *)
Definition av_update (h : avtab) (a : Z) (f : avtab_node → avtab_node) : avtab :=
  Avtab (fmap (M := list) (fmap (M := list) (λ nd, if av_addr nd =? a then f nd else nd)) <$> av_htable h)
    (av_nel h) (nslot h) (mask h).
Definition with_specified (nd : avtab_node) (s : Z) : avtab_node :=
  AvNode (av_addr nd)
    (AvKey (source_type (key nd)) (target_type (key nd)) (target_class (key nd)) s)
    (datum nd) (parse_context nd) (merged nd).

(** ** Operations *)

(** the loop of [cond_optimize]: [front] is the list from [top] to [p], [cur]
    the rest *)
Fixpoint optimize_loop (h : avtab) (front cur : list Z) : CM (list Z) :=
  match cur with
  | [] => mret front
  | a :: next =>
      nd ← deref (av_find h a);
      if truth (Z.land (specified (key nd)) AVTAB_TYPE) && negb (bool_decide (front = [])) then
        optimize_loop h (a :: front) next
      else optimize_loop h (front ++ [a]) next
  end.
Definition cond_optimize (h : avtab) (l : list Z) : CM (list Z) := optimize_loop h [] l.
Fixpoint cond_optimize_lists (h : avtab) (cl : list cond_node) : CM (list cond_node) :=
  match cl with
  | [] => mret []
  | n :: next =>
      tl ← cond_optimize h (true_list n);
      fl ← cond_optimize h (false_list n);
      rest ← cond_optimize_lists h next;
      mret (CondNode (cur_state n) (cn_cond_expr n) tl fl (avtrue_list n) (avfalse_list n)
              (nbools n) (bool_ids n) (expr_pre_comp n) (cond_flags n) :: rest)
  end.

(** [cur->node->key.specified |= AVTAB_ENABLED] and [&= ~AVTAB_ENABLED] *)
Definition set_enabled (on : bool) (nd : avtab_node) : avtab_node :=
  with_specified nd
    (if on then Z.lor (specified (key nd)) AVTAB_ENABLED
     else Z.land (specified (key nd)) (u16 (Z.lnot AVTAB_ENABLED))).
Fixpoint switch_rules (on : bool) (l : list Z) (h : avtab) : CM avtab :=
  match l with
  | [] => mret h
  | a :: l => _ ← deref (av_find h a); switch_rules on l (av_update h a (set_enabled on))
  end.

(** the node and the table of the conditional rules *)
Definition evaluate_cond_node (p : policydb) (ctab : avtab) (n : cond_node) : CM (Z * avtab * cond_node) :=
  new_state ← cond_evaluate_expr p (cn_cond_expr n);
  if new_state =? cur_state n then mret (0, ctab, n) else
  ctab ← switch_rules (negb (new_state <=? 0)) (true_list n) ctab;
  ctab ← switch_rules (negb (truth new_state)) (false_list n) ctab;
  mret (0, ctab, CondNode new_state (cn_cond_expr n) (true_list n) (false_list n) (avtrue_list n)
                   (avfalse_list n) (nbools n) (bool_ids n) (expr_pre_comp n) (cond_flags n)).
Fixpoint evaluate_conds_loop (p : policydb) (cl : list cond_node) (ctab : avtab)
    : CM (Z * avtab * list cond_node) :=
  match cl with
  | [] => mret (0, ctab, [])
  | n :: next =>
      '(ret, ctab, n) ← evaluate_cond_node p ctab n;
      if truth ret then mret (ret, ctab, n :: next) else
      '(ret, ctab, next) ← evaluate_conds_loop p next ctab;
      mret (ret, ctab, n :: next)
  end.
Definition evaluate_conds (p : policydb) : CM (Z * policydb) :=
  '(ret, ctab, cl) ← evaluate_conds_loop p (cond_list p) (te_cond_avtab p);
  mret (ret, with_conds p ctab cl).

(** [struct sepol_av_decision] *)
Record av_decision := AvDecision {
  av_allowed : Z; av_decided : Z; av_auditallow : Z; av_auditdeny : Z; av_seqno : Z }.

(** the body of the loop of [cond_compute_av] *)
Definition compute_av_step (avd : av_decision) (nd : avtab_node) : av_decision :=
  let enabled kind := u16 (Z.lor kind AVTAB_ENABLED) =? Z.land (specified (key nd)) (Z.lor kind AVTAB_ENABLED) in
  AvDecision
    (if enabled AVTAB_ALLOWED then Z.lor (av_allowed avd) (data (datum nd)) else av_allowed avd)
    (av_decided avd)
    (if enabled AVTAB_AUDITALLOW then Z.lor (av_auditallow avd) (data (datum nd)) else av_auditallow avd)
    (if enabled AVTAB_AUDITDENY then Z.land (av_auditdeny avd) (data (datum nd)) else av_auditdeny avd)
    (av_seqno avd).
Definition cond_compute_av (ctab : avtab) (key : avtab_key) (avd : av_decision) : CM av_decision :=
  nodes ← avtab_search_all ctab key;
  mret (fold_left compute_av_step nodes avd).

Fixpoint cond_av_list_search (h : avtab) (k : avtab_key) (l : list Z) : CM (option avtab_datum) :=
  match l with
  | [] => mret None
  | a :: l =>
      nd ← deref (av_find h a);
      if same_triple (key nd) k then mret (Some (datum nd)) else cond_av_list_search h k l
  end.

(** ** Theory *)

Definition type_rule (h : avtab) (a : Z) : bool :=
  match av_find h a with Some nd => truth (Z.land (specified (key nd)) AVTAB_TYPE) | None => false end.
(** every address is that of a node *)
Definition nodes_of (h : avtab) (l : list Z) : Prop := ∀ a, a ∈ l → is_Some (av_find h a).
(** the rules at [a] are switched [on] *)
Definition enabled_at (h : avtab) (a : Z) (on : bool) : Prop :=
  ∃ nd, av_find h a = Some nd ∧ Z.testbit (specified (key nd)) 15 = on.
(** the state of a conditional and that of its rules agree *)
Definition synced (h : avtab) (n : cond_node) : Prop :=
  (∀ a, a ∈ true_list n → enabled_at h a (0 <? cur_state n)) ∧
  (∀ a, a ∈ false_list n → enabled_at h a (cur_state n =? 0)).
(** a rule with its [AVTAB_ENABLED] bit cleared *)
Definition erase (nd : avtab_node) : avtab_node := set_enabled false nd.

Section theory.
Implicit Types (h : avtab) (l : list Z) (p : policydb).

Lemma optimize_loop_eq h front cur hp :
  front ≠ [] → nodes_of h cur → optimize_loop h front cur hp =
    Some (rev (filter (λ a, type_rule h a = true) cur) ++ front ++ filter (λ a, type_rule h a = false) cur, hp).
Proof.
  revert front. induction cur as [|a cur IH]; intros front Hf Hn; [by rewrite app_nil_r|].
  cbn [optimize_loop]. destruct (Hn a) as [nd Hnd]; [by left|]. unfold mbind, CM_bind. rewrite Hnd. cbn [deref mret CM_ret].
  rewrite (bool_decide_eq_false_2 _ Hf), andb_true_r, !filter_cons.
  assert (type_rule h a = truth (Z.land (specified (key nd)) AVTAB_TYPE)) as Ht by (unfold type_rule; by rewrite Hnd).
  rewrite Ht. destruct (truth _); repeat case_decide; try done.
  - rewrite IH by (done || by intros ??; apply Hn; right). cbn [rev]. by rewrite <- app_assoc.
  - rewrite IH; [by rewrite <- app_assoc|by destruct front|by intros ??; apply Hn; right].
Qed.
Lemma cond_optimize_eq h l hp : nodes_of h l →
  cond_optimize h l hp =
    Some (rev (filter (λ a, type_rule h a = true) l) ++ filter (λ a, type_rule h a = false) l, hp).
Proof.
  intros Hn. unfold cond_optimize. destruct l as [|a l]; [done|]. cbn [optimize_loop].
  destruct (Hn a) as [nd Hnd]; [by left|]. unfold mbind, CM_bind. rewrite Hnd. cbn [deref mret CM_ret].
  rewrite (bool_decide_eq_true_2 ([] = []) eq_refl), andb_false_r. cbn [app].
  rewrite optimize_loop_eq by (done || by intros ??; apply Hn; right). do 2 f_equal.
  rewrite !filter_cons. destruct (type_rule h a); repeat case_decide; try done. cbn [rev]. by rewrite <- app_assoc.
Qed.

Lemma cond_optimize_lists_wp h cl hp :
  (∀ n, n ∈ cl → nodes_of h (true_list n) ∧ nodes_of h (false_list n)) →
  let opt l := rev (filter (λ a, type_rule h a = true) l) ++ filter (λ a, type_rule h a = false) l in
  wp (cond_optimize_lists h cl) (λ cl' hp', hp' = hp ∧
    true_list <$> cl' = opt ∘ true_list <$> cl ∧ false_list <$> cl' = opt ∘ false_list <$> cl ∧
    cn_cond_expr <$> cl' = cn_cond_expr <$> cl ∧ cur_state <$> cl' = cur_state <$> cl) hp.
Proof.
  intros Hn opt. induction cl as [|n cl IH]; [by apply wp_ret|]. cbn [cond_optimize_lists].
  destruct (Hn n) as [Ht Hf]; [by left|]. apply wp_bind. unfold wp at 1. rewrite cond_optimize_eq by done.
  apply wp_bind. unfold wp at 1. rewrite cond_optimize_eq by done. apply wp_bind.
  eapply wp_mono; [apply IH; intros ??; apply Hn; by right|]. intros cl' hp' (->&H1&H2&H3&H4). apply wp_ret.
  rewrite !fmap_cons. cbn [true_list false_list cn_cond_expr cur_state]. by rewrite H1, H2, H3, H4.
Qed.

(** reading and writing nodes *)
Lemma av_find_update h a f a' : (∀ nd, av_addr (f nd) = av_addr nd) →
  av_find (av_update h a f) a' = if decide (a' = a) then f <$> av_find h a' else av_find h a'.
Proof.
  intros Hf. unfold av_find, av_update. cbn [av_htable]. destruct (av_htable h) as [t|]; [|by case_decide].
  cbn [fmap option_fmap option_map mbind option_bind]. set (g nd := if av_addr nd =? a then f nd else nd).
  assert (∀ nd, av_addr (g nd) = av_addr nd) as Hg by (intros nd; unfold g; by destruct (_ =? _)).
  assert (concat (fmap (M := list) (fmap (M := list) g) t) = g <$> concat t) as -> by (symmetry; apply concat_map).
  rewrite list_find_fmap. rewrite (list_find_ext _ (λ nd, av_addr nd = a')) by (intros; cbn; by rewrite Hg).
  destruct (list_find (λ nd, av_addr nd = a') (concat t)) as [[i nd]|] eqn:E; cbn; [|by case_decide].
  apply list_find_Some in E as (_&<-&_). unfold g. case_decide as Hd.
  - by rewrite (proj2 (Z.eqb_eq _ _) Hd).
  - by rewrite (proj2 (Z.eqb_neq _ _) Hd).
Qed.
Lemma nodes_of_update h a f l : (∀ nd, av_addr (f nd) = av_addr nd) → nodes_of h l → nodes_of (av_update h a f) l.
Proof.
  intros Hf Hn a' Hin. rewrite av_find_update by done. case_decide; [|by apply Hn].
  apply fmap_is_Some. by apply Hn.
Qed.

Lemma set_enabled_bit on nd : Z.testbit (specified (key (set_enabled on nd))) 15 = on.
Proof.
  unfold set_enabled, with_specified. cbn [key specified]. change AVTAB_ENABLED with (Z.shiftl 1 15). destruct on.
  - by rewrite testbit_set, orb_true_r by lia.
  - rewrite Z.land_spec. change (Z.testbit (u16 (Z.lnot (Z.shiftl 1 15))) 15) with false. apply andb_false_r.
Qed.
Lemma erase_set_enabled on nd : erase (set_enabled on nd) = erase nd.
Proof.
  unfold erase, set_enabled, with_specified. cbn [key datum av_addr parse_context merged source_type target_type target_class specified].
  do 2 f_equal. set (m := u16 _). destruct on; [|by rewrite <- Z.land_assoc, Z.land_diag].
  apply Z.bits_inj'. intros j Hj. rewrite !Z.land_spec, Z.lor_spec. change AVTAB_ENABLED with (Z.shiftl 1 15).
  rewrite testbit_one_shift by lia. destruct (Z.eqb_spec j 15) as [-> |]; [|by rewrite orb_false_r].
  change (Z.testbit m 15) with false. by rewrite !andb_false_r.
Qed.

(** what switching changes: nothing but the bit of the rules of [l] *)
Definition same_rules h h' l : Prop :=
  (∀ a, erase <$> av_find h' a = erase <$> av_find h a) ∧ (∀ a, a ∉ l → av_find h' a = av_find h a) ∧
  fmap (M := list) (fmap (M := list) erase) <$> av_htable h' = fmap (M := list) (fmap (M := list) erase) <$> av_htable h ∧
  av_nel h' = av_nel h ∧ nslot h' = nslot h ∧ mask h' = mask h.
Lemma same_rules_refl h l : same_rules h h l.
Proof. by split_and!. Qed.
Lemma same_rules_trans h1 h2 h3 l1 l2 :
  same_rules h1 h2 l1 → same_rules h2 h3 l2 → same_rules h1 h3 (l1 ++ l2).
Proof.
  intros (E1&F1&T1&?&?&?) (E2&F2&T2&?&?&?). split_and!; [intros a; by rewrite E2| |by rewrite T2|congruence..].
  intros a Ha. rewrite F2, F1 by set_solver. done.
Qed.
Lemma same_rules_nodes h h' l l' : same_rules h h' l → nodes_of h l' → nodes_of h' l'.
Proof.
  intros (E&_) Hn a Ha. specialize (E a). destruct (Hn a Ha) as [nd Hnd]. rewrite Hnd in E.
  destruct (av_find h' a); [by eexists|done].
Qed.
Lemma same_rules_enabled h h' l a on : same_rules h h' l → a ∉ l → enabled_at h a on → enabled_at h' a on.
Proof. intros (_&F&_) Ha (nd&Hnd&?). exists nd. by rewrite F. Qed.

Lemma same_rules_update h a on : same_rules h (av_update h a (set_enabled on)) [a].
Proof.
  split_and!; try done.
  - intros a'. rewrite av_find_update by done. case_decide; [|done]. destruct (av_find h a'); [|done].
    cbn. by rewrite erase_set_enabled.
  - intros a' Ha. rewrite av_find_update, decide_False by (done || set_solver). done.
  - unfold av_update. cbn [av_htable]. destruct (av_htable h) as [t|]; [|done]. cbn. f_equal.
    rewrite <- list_fmap_compose. apply list_fmap_ext. intros _ ch _. cbn. rewrite <- list_fmap_compose.
    apply list_fmap_ext. intros _ nd _. cbn. destruct (_ =? _); [apply erase_set_enabled|done].
Qed.

Lemma switch_rules_wp on l h hp : nodes_of h l →
  wp (switch_rules on l h) (λ h' hp', hp' = hp ∧ same_rules h h' l ∧ ∀ a, a ∈ l → enabled_at h' a on) hp.
Proof.
  revert h. induction l as [|a l IH]; intros h Hn; cbn [switch_rules].
  { apply wp_ret. split_and!; [done|apply same_rules_refl|]. by intros a ?%elem_of_nil. }
  destruct (Hn a) as [nd Hnd]; [by left|]. eapply wp_bind, wp_deref; [done|].
  eapply wp_mono; [apply IH, nodes_of_update; [done|by intros ??; apply Hn; right]|].
  intros h' hp' (->&Hs&Hen). split_and!; [done|apply (same_rules_trans _ _ _ [a] l (same_rules_update h a on) Hs)|].
  intros a' [-> |Hin]%elem_of_cons; [|by apply Hen]. destruct (decide (a ∈ l)); [by apply Hen|].
  eapply same_rules_enabled; [done..|]. exists (set_enabled on nd).
  by rewrite av_find_update, decide_True, Hnd, set_enabled_bit by done.
Qed.

(** evaluation does not depend on the heap *)
Lemma eval_loop_pure (get : Z → option Z) expr s :
  (∀ id, id ∈ expr_ids expr → is_Some (get id)) → ∃ r, ∀ hp, cond_eval_loop get expr s hp = Some (r, hp).
Proof.
  revert s. induction expr as [|e expr IH]; intros s Hids; [by exists (inr s)|].
  assert (∃ r, ∀ hp, cond_eval_step get e s hp = Some (r, hp)) as [r Hr].
  { unfold cond_eval_step. destruct (Z.eqb_spec (cond_type e) COND_BOOL) as [Hb|].
    - destruct (_ =? _); [by eexists|]. destruct (Hids (cond_bool e)) as [v Hv].
      { unfold expr_ids. rewrite filter_cons_True by done. by left. }
      eexists. intros hp. unfold mbind, CM_bind. by rewrite Hv.
    - repeat match goal with |- context [Z.eqb (cond_type e) ?t] => destruct (Z.eqb (cond_type e) t) end; by eexists. }
  assert (∀ id, id ∈ expr_ids expr → is_Some (get id)) as Hids'.
  { intros id Hin. apply Hids. unfold expr_ids in *. rewrite filter_cons. case_decide; [by right|done]. }
  destruct r as [v|s']; [exists (inl v)|destruct (IH s' Hids') as [r' Hr']; exists r'];
    intros hp; unfold cond_eval_loop; cbn [for_list]; unfold mbind, CM_bind; rewrite Hr; first [done|apply Hr'].
Qed.

(** the value of a list of expressions *)
Definition cond_value p (expr : list cond_expr) : Z :=
  match cond_evaluate_expr p expr fresh_heap with Some (v, _) => v | None => -1 end.
Definition bools_of p (expr : list cond_expr) : Prop :=
  ∀ id, id ∈ expr_ids expr → is_Some (bool_get (bool_val_to_struct p) id).
Lemma cond_value_eq p expr hp : bools_of p expr → cond_evaluate_expr p expr hp = Some (cond_value p expr, hp).
Proof.
  intros Hids. destruct (eval_loop_pure (bool_get (bool_val_to_struct p)) expr [] Hids) as [r Hr].
  unfold cond_value, cond_evaluate_expr, fmap, CM_fmap, mbind, CM_bind. by rewrite !Hr.
Qed.

Definition rules_of (n : cond_node) : list Z := true_list n ++ false_list n.
(** what the evaluation of [n] in the table [h] gives *)
Definition evaluated p h h' (n n' : cond_node) : Prop :=
  cn_cond_expr n' = cn_cond_expr n ∧ true_list n' = true_list n ∧ false_list n' = false_list n ∧
  cur_state n' = cond_value p (cn_cond_expr n) ∧
  (synced h n ∨ cond_value p (cn_cond_expr n) ≠ cur_state n → synced h' n').

Lemma synced_same h h' n n' l :
  same_rules h h' l → (∀ a, a ∈ rules_of n → a ∉ l) → true_list n' = true_list n → false_list n' = false_list n →
  cur_state n' = cur_state n → synced h n → synced h' n'.
Proof.
  intros Hs Hd Ht Hf Hc [H1 H2]. unfold rules_of in Hd. unfold synced. rewrite Ht, Hf, Hc.
  split; intros a Ha; (eapply same_rules_enabled; [done|set_solver|auto]).
Qed.

Lemma evaluate_cond_node_wp p ctab n hp :
  bools_of p (cn_cond_expr n) → nodes_of ctab (rules_of n) → NoDup (rules_of n) →
  wp (evaluate_cond_node p ctab n) (λ '(rc, ctab', n') hp', hp' = hp ∧ rc = 0 ∧
    same_rules ctab ctab' (rules_of n) ∧ evaluated p ctab ctab' n n') hp.
Proof.
  intros Hb Hn Hnd. unfold evaluate_cond_node. apply wp_bind. unfold wp at 1. rewrite cond_value_eq by done.
  set (v := cond_value p (cn_cond_expr n)).
  destruct (Z.eqb_spec v (cur_state n)) as [He|Hne].
  { apply wp_ret. refine (conj eq_refl (conj eq_refl (conj (same_rules_refl _ _) _))).
    refine (conj eq_refl (conj eq_refl (conj eq_refl (conj (eq_sym He) _)))). by intros [Hs|Hne]. }
  apply wp_bind. eapply wp_mono; [apply switch_rules_wp|].
  { intros a Ha. apply Hn, elem_of_app. by left. }
  intros c1 hp1 (->&Hs1&He1). apply wp_bind. eapply wp_mono; [apply switch_rules_wp|].
  { eapply same_rules_nodes; [exact Hs1|]. intros a Ha. apply Hn, elem_of_app. by right. }
  intros c2 hp2 (->&Hs2&He2). apply wp_ret. refine (conj eq_refl (conj eq_refl (conj _ _))); [by eapply same_rules_trans|].
  refine (conj eq_refl (conj eq_refl (conj eq_refl (conj eq_refl _)))).
  intros _. apply NoDup_app in Hnd as (_&Hdisj&_). split; cbn [true_list false_list cur_state]; intros a Ha.
  - eapply same_rules_enabled; [exact Hs2|by apply Hdisj|]. apply He1 in Ha.
    by replace (0 <? v) with (negb (v <=? 0)) by (destruct (Z.leb_spec v 0), (Z.ltb_spec 0 v); lia || done).
  - apply He2 in Ha. unfold truth in Ha. by rewrite negb_involutive in Ha.
Qed.

Lemma evaluate_conds_loop_wp p cl h0 ctab hp :
  (∀ n, n ∈ cl → synced h0 n → synced ctab n) →
  (∀ n, n ∈ cl → bools_of p (cn_cond_expr n)) → nodes_of ctab (cl ≫= rules_of) → NoDup (cl ≫= rules_of) →
  wp (evaluate_conds_loop p cl ctab) (λ '(rc, ctab', cl') hp', hp' = hp ∧ rc = 0 ∧
    same_rules ctab ctab' (cl ≫= rules_of) ∧ Forall2 (evaluated p h0 ctab') cl cl') hp.
Proof.
  revert ctab. induction cl as [|n cl IH]; intros ctab H0 Hb Hn Hnd; cbn [evaluate_conds_loop].
  { apply wp_ret. refine (conj eq_refl (conj eq_refl (conj (same_rules_refl _ _) _))). constructor. }
  rewrite bind_cons in *. apply NoDup_app in Hnd as (Hnd1&Hdisj&Hnd2).
  apply wp_bind. eapply wp_mono; [apply evaluate_cond_node_wp; [apply Hb; by left| |done]|].
  { intros a Ha. apply Hn, elem_of_app. by left. }
  intros [[rc c1] n1] hp1 (->&->&Hs1&Hev1). cbn [truth Z.eqb negb]. apply wp_bind.
  eapply wp_mono; [apply (IH c1); [|by intros ??; apply Hb; right| |done]|].
  { intros x Hx Hsx. eapply synced_same; [exact Hs1| |done..|apply H0; [by right|done]].
    intros a Ha Hin. apply (Hdisj a Hin), list_elem_of_bind. eauto. }
  { eapply same_rules_nodes; [exact Hs1|]. intros a Ha. apply Hn, elem_of_app. by right. }
  intros [[rc c2] cl'] hp2 (->&->&Hs2&Hev2). apply wp_ret. refine (conj eq_refl (conj eq_refl (conj _ _))); [by eapply same_rules_trans|].
  constructor; [|done]. destruct Hev1 as (E&T&F&C&S). refine (conj E (conj T (conj F (conj C _)))). intros Hpre.
  assert (synced c1 n1) as Hs. { apply S. destruct Hpre as [Hpre|]; [left; apply H0; [by left|done]|by right]. }
  apply (synced_same c1 c2 n1 n1 (cl ≫= rules_of)); [exact Hs2| |done..|exact Hs]. unfold rules_of. rewrite T, F. apply Hdisj.
Qed.

(** a rule that is switched on and of the kind of bit [k] *)
Definition active (k : Z) (nd : avtab_node) : bool :=
  Z.testbit (specified (key nd)) 15 && Z.testbit (specified (key nd)) k.
Lemma active_mask k nd : 0 ≤ k < 15 →
  (u16 (Z.lor (Z.shiftl 1 k) AVTAB_ENABLED) =? Z.land (specified (key nd)) (Z.lor (Z.shiftl 1 k) AVTAB_ENABLED))
  = active k nd.
Proof.
  intros Hk. change AVTAB_ENABLED with (Z.shiftl 1 15).
  pose proof (one_shift_range 16 k ltac:(lia)). pose proof (one_shift_range 16 15 ltac:(lia)).
  pose proof (lor_range 16 (Z.shiftl 1 k) (Z.shiftl 1 15)).
  unfold u16. rewrite wrap_id by lia. set (m := Z.lor _ _). set (s := specified (key nd)).
  assert (∀ j, 0 ≤ j → Z.testbit m j = (j =? k) || (j =? 15)) as Hm.
  { intros j Hj. unfold m. by rewrite Z.lor_spec, !testbit_one_shift by lia. }
  apply eq_true_iff_eq. unfold active. fold s. rewrite Z.eqb_eq, andb_true_iff. split.
  - intros He. assert (∀ j, 0 ≤ j → Z.testbit m j = Z.testbit s j && Z.testbit m j) as Hj.
    { intros j Hj. by rewrite <- Z.land_spec, <- He. }
    pose proof (Hj 15 ltac:(lia)) as H15. pose proof (Hj k ltac:(lia)) as Hkk.
    rewrite Hm, Z.eqb_refl, orb_true_r, andb_true_r in H15 by lia. rewrite Hm, Z.eqb_refl, andb_true_r in Hkk by lia. done.
  - intros [H15 Hkb]. apply Z.bits_inj'. intros j Hj. rewrite Z.land_spec, Hm by done.
    destruct (Z.eqb_spec j k) as [-> |]; [by rewrite Hkb|]. destruct (Z.eqb_spec j 15) as [-> |]; [by rewrite H15|].
    by rewrite andb_false_r.
Qed.

Lemma compute_av_step_eq avd nd :
  compute_av_step avd nd = AvDecision
    (if active 0 nd then Z.lor (av_allowed avd) (data (datum nd)) else av_allowed avd) (av_decided avd)
    (if active 1 nd then Z.lor (av_auditallow avd) (data (datum nd)) else av_auditallow avd)
    (if active 2 nd then Z.land (av_auditdeny avd) (data (datum nd)) else av_auditdeny avd) (av_seqno avd).
Proof.
  unfold compute_av_step. by rewrite <- (active_mask 0 nd), <- (active_mask 1 nd), <- (active_mask 2 nd) by lia.
Qed.

Lemma compute_av_fold nodes avd i :
  let avd' := fold_left compute_av_step nodes avd in
  Z.testbit (av_allowed avd') i = Z.testbit (av_allowed avd) i || existsb (λ nd, active 0 nd && Z.testbit (data (datum nd)) i) nodes ∧
  Z.testbit (av_auditallow avd') i = Z.testbit (av_auditallow avd) i || existsb (λ nd, active 1 nd && Z.testbit (data (datum nd)) i) nodes ∧
  Z.testbit (av_auditdeny avd') i = Z.testbit (av_auditdeny avd) i && forallb (λ nd, negb (active 2 nd) || Z.testbit (data (datum nd)) i) nodes ∧
  av_decided avd' = av_decided avd ∧ av_seqno avd' = av_seqno avd.
Proof.
  revert avd. induction nodes as [|nd nodes IH]; intros avd; cbn [fold_left existsb forallb].
  { by rewrite !orb_false_r, andb_true_r. }
  destruct (IH (compute_av_step avd nd)) as (H1&H2&H3&H4&H5). rewrite H1, H2, H3, H4, H5.
  rewrite compute_av_step_eq. cbn [av_allowed av_auditallow av_auditdeny av_decided av_seqno].
  split_and!; try done.
  - destruct (active 0 nd); [by rewrite Z.lor_spec, orb_assoc|done].
  - destruct (active 1 nd); [by rewrite Z.lor_spec, orb_assoc|done].
  - destruct (active 2 nd); [by rewrite Z.land_spec, andb_assoc|done].
Qed.
End theory.

(** ** Properties *)

(** [evaluate_conds] sets every conditional to the value of its expression.
    When the conditionals share no rule, each conditional whose rules agreed
    with its old state, or whose state changes, has afterwards its true rules
    switched on exactly when the value is 1 and its false rules exactly when it
    is 0 (none of them for an undefined value); nothing but the bit
    [AVTAB_ENABLED] of the listed rules changes. *)
Theorem evaluate_conds_correct p hp :
  let cl := cond_list p in let h := te_cond_avtab p in
  (∀ n, n ∈ cl → bools_of p (cn_cond_expr n)) → nodes_of h (cl ≫= rules_of) → NoDup (cl ≫= rules_of) →
  wp (evaluate_conds p) (λ '(rc, p') hp', hp' = hp ∧ rc = 0 ∧
    p' = with_conds p (te_cond_avtab p') (cond_list p') ∧
    same_rules h (te_cond_avtab p') (cl ≫= rules_of) ∧
    Forall2 (evaluated p h (te_cond_avtab p')) cl (cond_list p')) hp.
Proof.
  intros cl h Hb Hn Hnd. apply wp_bind. eapply wp_mono; [by apply (evaluate_conds_loop_wp p cl h h)|].
  intros [[rc h'] cl'] hp' (->&->&Hs&He). apply wp_ret. done.
Qed.

(** C23: [cond_compute_av] grants, audits and silences exactly what the
    switched-on rules for the key do: a permission is allowed (audited when
    allowed) if it was or some active rule of that kind has it, and audited
    when denied if it was and every active rule of that kind has it. *)
Theorem cond_compute_av_correct h t k avd hp :
  avtab_wf h t → key_wf k →
  let found := matching k (without_enabled (specified k)) (concat t) in
  wp (cond_compute_av h k avd) (λ avd' hp', hp' = hp ∧ ∀ i,
    Z.testbit (av_allowed avd') i = Z.testbit (av_allowed avd) i || existsb (λ nd, active 0 nd && Z.testbit (data (datum nd)) i) found ∧
    Z.testbit (av_auditallow avd') i = Z.testbit (av_auditallow avd) i || existsb (λ nd, active 1 nd && Z.testbit (data (datum nd)) i) found ∧
    Z.testbit (av_auditdeny avd') i = Z.testbit (av_auditdeny avd) i && forallb (λ nd, negb (active 2 nd) || Z.testbit (data (datum nd)) i) found ∧
    av_decided avd' = av_decided avd ∧ av_seqno avd' = av_seqno avd) hp.
Proof.
  intros Hwf Hk found. apply wp_bind. destruct (avtab_search_all_wp h t k hp Hwf Hk) as [Hs _].
  eapply wp_mono; [exact Hs|]. intros nodes hp' [-> ->]. apply wp_ret. split; [done|]. intros i. apply compute_av_fold.
Qed.

(** [cond_optimize_lists] permutes each list: the type rules first, the
    last of them in front, then the other rules in their order; so the rules,
    states and expressions are the same. *)
Theorem cond_optimize_lists_sorts h cl hp :
  (∀ n, n ∈ cl → nodes_of h (true_list n) ∧ nodes_of h (false_list n)) →
  let opt l := rev (filter (λ a, type_rule h a = true) l) ++ filter (λ a, type_rule h a = false) l in
  wp (cond_optimize_lists h cl) (λ cl' hp', hp' = hp ∧
    true_list <$> cl' = opt ∘ true_list <$> cl ∧ false_list <$> cl' = opt ∘ false_list <$> cl ∧
    cn_cond_expr <$> cl' = cn_cond_expr <$> cl ∧ cur_state <$> cl' = cur_state <$> cl) hp ∧
  ∀ l, opt l ≡ₚ l.
Proof.
  intros Hn opt. split; [by apply cond_optimize_lists_wp|]. intros l. unfold opt.
  rewrite <- Permutation_rev. clear -l. induction l as [|a l IH]; [done|]. rewrite !filter_cons.
  destruct (type_rule h a); repeat case_decide; try done; cbn [app]; [by rewrite IH|].
  by rewrite <- Permutation_middle, IH.
Qed.

(** a policy with the concrete table of [Avtab] as its conditional rules *)
Definition example_policy : policydb :=
  with_conds two_bools Example.table [CondNode 0 (rpn (BBool 1)) [10] [11] [] [] 1 [1; 0; 0; 0; 0] 2 0].

(** witness of [evaluate_conds_correct] *)
Lemma evaluate_conds_correct_witness :
  let p := example_policy in let cl := cond_list p in let h := te_cond_avtab p in
  wp (evaluate_conds p) (λ '(rc, p') hp', hp' = fresh_heap ∧ rc = 0 ∧
    p' = with_conds p (te_cond_avtab p') (cond_list p') ∧
    same_rules h (te_cond_avtab p') (cl ≫= rules_of) ∧
    Forall2 (evaluated p h (te_cond_avtab p')) cl (cond_list p')) fresh_heap.
Proof.
  apply (evaluate_conds_correct example_policy fresh_heap).
  - intros n Hn. apply list_elem_of_singleton in Hn as ->. intros id Hin.
    apply list_elem_of_singleton in Hin as ->. by eexists.
  - intros a Ha. repeat (apply elem_of_cons in Ha as [-> |Ha]; [by eexists|]). by apply elem_of_nil in Ha.
  - vm_compute. apply NoDup_cons. split; [|apply NoDup_singleton]. intros Hx. apply list_elem_of_singleton in Hx. done.
Defined.

(** witness of C23 *)
Lemma cond_compute_av_correct_witness :
  let h := Example.table in let k := AvKey 1 2 1 AVTAB_ALLOWED in let avd := AvDecision 1 0 0 7 0 in
  let found := matching k (without_enabled (specified k)) (concat Example.slots) in
  wp (cond_compute_av h k avd) (λ avd' hp', hp' = fresh_heap ∧ ∀ i,
    Z.testbit (av_allowed avd') i = Z.testbit (av_allowed avd) i || existsb (λ nd, active 0 nd && Z.testbit (data (datum nd)) i) found ∧
    Z.testbit (av_auditallow avd') i = Z.testbit (av_auditallow avd) i || existsb (λ nd, active 1 nd && Z.testbit (data (datum nd)) i) found ∧
    Z.testbit (av_auditdeny avd') i = Z.testbit (av_auditdeny avd) i && forallb (λ nd, negb (active 2 nd) || Z.testbit (data (datum nd)) i) found ∧
    av_decided avd' = av_decided avd ∧ av_seqno avd' = av_seqno avd) fresh_heap.
Proof.
  apply (cond_compute_av_correct Example.table Example.slots).
  - apply Example.table_wf.
  - by vm_compute.
Defined.

(** witness of [cond_optimize_lists_sorts] *)
Lemma cond_optimize_lists_sorts_witness :
  let h := Example.table in let cl := cond_list example_policy in
  let opt l := rev (filter (λ a, type_rule h a = true) l) ++ filter (λ a, type_rule h a = false) l in
  wp (cond_optimize_lists h cl) (λ cl' hp', hp' = fresh_heap ∧
    true_list <$> cl' = opt ∘ true_list <$> cl ∧ false_list <$> cl' = opt ∘ false_list <$> cl ∧
    cn_cond_expr <$> cl' = cn_cond_expr <$> cl ∧ cur_state <$> cl' = cur_state <$> cl) fresh_heap ∧
  ∀ l, opt l ≡ₚ l.
Proof.
  apply (cond_optimize_lists_sorts Example.table (cond_list example_policy) fresh_heap).
  intros n Hn. apply list_elem_of_singleton in Hn as ->. split; intros a Ha;
    apply list_elem_of_singleton in Ha as ->; by eexists.
Defined.
