(* ===== verification/Mls.v ===== *)
(** * Multi-level security ([mls.c])

    The text of the MLS fields of a context, their validity, and the range a
    new context gets.  Strings are without their terminator; text is appended
    to the output instead of stored through a moving pointer. *)

From S2P Require Import Prelude Hashtab Symtab Ebitmap Context Avtab Policydb.
From Stdlib Require Import Ascii.

Definition STATUS_SUCCESS : Z := 0.
Definition STATUS_ERR : Z := -1.
Definition OBJECT_R_VAL : Z := 1.
Definition SECCLASS_PROCESS : Z := 2.

(** characters of the text *)
Definition colon : ascii := ":"%char.
Definition dash : ascii := "-"%char.
Definition comma : ascii := ","%char.
Definition dot : ascii := "."%char.

Definition strlen (s : string) : Z := Z.of_nat (String.length s).

Section operations.
Context `{Target}.

(** [level[l]] of a range *)
Definition get_level (r : mls_range) (l : Z) : mls_level := if l =? 0 then low_level r else high_level r.
Definition set_level (r : mls_range) (l : Z) (x : mls_level) : mls_range :=
  if l =? 0 then MlsRange x (high_level r) else MlsRange (low_level r) x.
Definition with_range (c : context_struct) (r : mls_range) : context_struct :=
  Context (c_user c) (c_role c) (c_type c) r.
Definition with_level (c : context_struct) (l : Z) (x : mls_level) : context_struct :=
  with_range c (set_level (c_range c) l x).

(** [policydb->p_cat_val_to_name[i]] *)
Definition cat_name (p : policydb) (i : Z) : option string := at_val (p_cat_val_to_name p) (i + 1).

(** ** Context to text *)

(** the step of the loop over the categories: the length and the run so far *)
Definition cat_len_step (p : policydb) (bit : bool) (i : Z) (st : Z * Z) : CM (unit + (Z * Z)) :=
  let '(len, range) := st in
  if bit then
    if truth range then mret (inr (len, u32 (range + 1))) else
    name ← deref (cat_name p i);
    mret (inr (u32 (len + strlen name + 1), u32 (range + 1)))
  else if 1 <? range then
    name ← deref (cat_name p (i - 1));
    mret (inr (u32 (len + strlen name + 1), 0))
  else mret (inr (len, 0)).
(** the length [len] grows by that of a level *)
Definition level_len (p : policydb) (lev : mls_level) (len : Z) : CM Z :=
  name ← deref (at_val (p_sens_val_to_name p) (sens lev));
  r ← ebitmap_for_each_bit (cat lev) (cat_len_step p) (u32 (len + strlen name), 0);
  match r with
  | inr ((len, range), i) =>
      if 1 <? range then
        name ← deref (cat_name p (i - 1)); mret (u32 (len + strlen name + 1))
      else mret len
  | inl _ => mret len
  end.
Definition mls_compute_context_len (p : policydb) (context : context_struct) : CM Z :=
  if negb (truth (mls p)) then mret 0 else
  let r := c_range context in
  len ← level_len p (low_level r) 1;
  if mls_level_eq (low_level r) (high_level r) then mret (i32 len) else
  len ← level_len p (high_level r) (u32 (len + 1));
  mret (i32 len).

(** the text so far, the run and [wrote_sep] *)
Definition cat_text_step (p : policydb) (bit : bool) (i : Z) (st : string * Z * bool)
    : CM (unit + (string * Z * bool)) :=
  let '(text, range, wrote_sep) := st in
  if bit then
    if truth range then mret (inr (text, u32 (range + 1), wrote_sep)) else
    name ← deref (cat_name p i);
    let sep := if wrote_sep then comma else colon in
    mret (inr (text +:+ String sep name, u32 (range + 1), true))
  else if 1 <? range then
    name ← deref (cat_name p (i - 1));
    mret (inr (text +:+ String (if 2 <? range then dot else comma) name, 0, wrote_sep))
  else mret (inr (text, 0, wrote_sep)).
Definition level_text (p : policydb) (lev : mls_level) (text : string) : CM string :=
  name ← deref (at_val (p_sens_val_to_name p) (sens lev));
  r ← ebitmap_for_each_bit (cat lev) (cat_text_step p) (text +:+ name, 0, false);
  match r with
  | inr ((text, range, _), i) =>
      if 1 <? range then
        name ← deref (cat_name p (i - 1));
        mret (text +:+ String (if 2 <? range then dot else comma) name)
      else mret text
  | inl _ => mret text
  end.
Definition mls_sid_to_context (p : policydb) (context : context_struct) : CM string :=
  if negb (truth (mls p)) then mret EmptyString else
  let r := c_range context in
  text ← level_text p (low_level r) (String colon EmptyString);
  if mls_level_eq (low_level r) (high_level r) then mret text else
  level_text p (high_level r) (text +:+ String dash EmptyString).

(** The text is written to a buffer of [len] bytes and the part after the first
    ':' copied to one of [len - 1]; [ptr -= len - 1] goes back to the start of
    the buffer only if that many characters were written. *)
Definition mls_to_string (p : policydb) (context : context_struct) : CM (Z * option string) :=
  n ← mls_compute_context_len p context;
  let len := n + 1 in
  ptr ← malloc;
  if bool_decide (ptr = None) then mret (STATUS_ERR, None) else
  ptr2 ← malloc;
  if bool_decide (ptr2 = None) then mret (STATUS_ERR, None) else
  text ← mls_sid_to_context p context;
  match text with
  | String _ rest => if strlen text =? len - 1 then mret (STATUS_SUCCESS, Some rest) else undefined
  | EmptyString => undefined
  end.

(** ** Text to context *)

(** [while ( *p && !stop( *p)) p++; delim = *p; if (delim) *p++ = 0;]: the token,
    the delimiter ([None] for 0) and the rest *)
Fixpoint scan (stop : list ascii) (p : string) : string * option ascii * string :=
  match p with
  | EmptyString => (EmptyString, None, EmptyString)
  | String c rest =>
      if bool_decide (c ∈ stop) then (EmptyString, Some c, rest)
      else let '(tok, delim, rest) := scan stop rest in (String c tok, delim, rest)
  end.
Definition is_delim (delim : option ascii) (c : ascii) : bool := bool_decide (delim = Some c).

(** the categories of one element, "c" or "c.c"; [None] is [goto err] *)
Definition parse_cat (p : policydb) (tok : string) (cats : ebitmap) : CM (bool * ebitmap) :=
  let '(first, point, rng) := scan [dot] tok in
  catdatum ← hashtab_search (table (p_cats p)) first;
  match catdatum with
  | None => mret (false, cats)
  | Some catdatum =>
      '(rc, cats) ← ebitmap_set_bit cats (u32 (cat_value catdatum - 1)) 1;
      if truth rc then mret (false, cats) else
      if negb (is_delim point dot) then mret (true, cats) else
      rngdatum ← hashtab_search (table (p_cats p)) rng;
      match rngdatum with
      | None => mret (false, cats)
      | Some rngdatum =>
          if cat_value rngdatum <=? cat_value catdatum then mret (false, cats) else
          r ← for_loop (cat_value catdatum) (cat_value rngdatum) (λ i cats,
                '(rc, cats) ← ebitmap_set_bit cats i 1;
                mret (if truth rc then inl cats else inr cats)) cats;
          mret (match r with inl cats => (false, cats) | inr cats => (true, cats) end)
      end
  end.
(** the loop over the elements; every step uses up a character of [s] *)
Fixpoint parse_cats (fuel : nat) (p : policydb) (s : string) (cats : ebitmap)
    : CM (bool * ebitmap * option ascii * string) :=
  match fuel with
  | O => undefined
  | S fuel =>
      let '(tok, delim, rest) := scan [comma; dash] s in
      '(ok, cats) ← parse_cat p tok cats;
      if negb ok then mret (false, cats, delim, rest)
      else if is_delim delim comma then parse_cats fuel p rest cats
      else mret (true, cats, delim, rest)
  end.
(** one round of the loop over the levels *)
Definition parse_level (p : policydb) (l : Z) (tok : string) (delim : option ascii) (rest : string)
    (context : context_struct) : CM (bool * context_struct * option ascii * string) :=
  levdatum ← hashtab_search (table (p_levels p)) tok;
  match levdatum with
  | None => mret (false, context, delim, rest)
  | Some levdatum =>
      let cats := cat (get_level (c_range context) l) in
      let context := with_level context l (MlsLevel (sens (ld_level levdatum)) cats) in
      if is_delim delim colon then
        '(ok, cats, delim, rest) ← parse_cats (S (String.length rest)) p rest cats;
        mret (ok, with_level context l (MlsLevel (sens (ld_level levdatum)) cats), delim, rest)
      else mret (true, context, delim, rest)
  end.
(** returns the code and the context; the callers modelled here do not use the
    updated [*scontext] *)
Definition mls_context_to_sid (p : policydb) (oldc : bool) (scontext : string) (context : context_struct)
    : CM (Z * context_struct) :=
  if negb (truth (mls p)) then mret (0, context) else
  if negb oldc then mret (STATUS_ERR, context) else
  let '(tok, delim, rest) := scan [colon; dash] scontext in
  '(ok, context, delim, rest) ← parse_level p 0 tok delim rest context;
  if negb ok then mret (STATUS_ERR, context) else
  if is_delim delim dash then
    let '(tok, delim, rest) := scan [colon] rest in
    '(ok, context, delim, rest) ← parse_level p 1 tok delim rest context;
    mret (if (ok : bool) then STATUS_SUCCESS else STATUS_ERR, context)
  else
    '(rc, high) ← mls_level_cpy (low_level (c_range context));
    let context := with_level context 1 high in
    mret (if rc <? 0 then STATUS_ERR else STATUS_SUCCESS, context).
Definition mls_from_string (p : policydb) (str : string) (context : context_struct) : CM (Z * context_struct) :=
  tmp ← malloc;
  if bool_decide (tmp = None) then mret (STATUS_ERR, context) else
  '(rc, context) ← mls_context_to_sid p true str context;
  mret (if rc <? 0 then STATUS_ERR else STATUS_SUCCESS, context).

(** ** Validity *)

Definition level_isvalid (p : policydb) (lev : mls_level) : CM bool :=
  if negb (truth (sens lev)) || (nprim (p_levels p) <? sens lev) then mret false else
  name ← deref (at_val (p_sens_val_to_name p) (sens lev));
  levdatum ← hashtab_search (table (p_levels p)) name;
  match levdatum with
  | None => mret false
  | Some levdatum =>
      r ← ebitmap_for_each_bit (cat lev) (λ bit i (_ : unit),
            if bit then
              if nprim (p_cats p) <? i then mret (inl ())
              else if negb (truth (ebitmap_get_bit (cat (ld_level levdatum)) i)) then mret (inl ())
              else mret (inr ())
            else mret (inr ())) ();
      mret (match r with inl _ => false | inr _ => true end)
  end.
Definition mls_context_isvalid (p : policydb) (c : context_struct) : CM bool :=
  if negb (truth (mls p)) then mret true else
  if negb (mls_level_dom (high_level (c_range c)) (low_level (c_range c))) then mret false else
  ok ← level_isvalid p (low_level (c_range c));
  if negb ok then mret false else
  ok ← level_isvalid p (high_level (c_range c));
  if negb ok then mret false else
  if c_role c =? OBJECT_R_VAL then mret true else
  if negb (truth (c_user c)) || (nprim (p_users p) <? c_user c) then mret false else
  usrdatum ← deref (at_val (user_val_to_struct p) (c_user c));
  mret (mls_range_contains (user_exp_range usrdatum) (c_range c)).

(** ** Ranges of new contexts *)

(** [sens] and [cat] of both levels of [dst] from two levels; the second level
    is left alone when the first copy fails *)
Definition copy_levels (dst : context_struct) (l0 l1 : mls_level) : CM (Z * context_struct) :=
  '(rc, c) ← ebitmap_cpy (cat l0);
  let dst := with_level dst 0 (MlsLevel (sens l0) c) in
  if truth rc then mret (rc, dst) else
  '(rc, c) ← ebitmap_cpy (cat l1);
  mret (rc, with_level dst 1 (MlsLevel (sens l1) c)).
Definition mls_copy_context (dst src : context_struct) : CM (Z * context_struct) :=
  copy_levels dst (low_level (c_range src)) (high_level (c_range src)).
Definition mls_scopy_context (dst src : context_struct) : CM (Z * context_struct) :=
  copy_levels dst (low_level (c_range src)) (low_level (c_range src)).
Definition mls_range_set (context : context_struct) (range : mls_range) : CM (Z * context_struct) :=
  copy_levels context (low_level range) (high_level range).

(** the levels are assigned as structures; the clearance is not written when
    the sensitivity is refused *)
Definition mls_setup_user_range (fromcon : context_struct) (user : user_datum) (usercon : context_struct)
    (is_mls : Z) : Z * context_struct :=
  if negb (truth is_mls) then (0, usercon) else
  let fromcon_sen := low_level (c_range fromcon) in
  let fromcon_clr := high_level (c_range fromcon) in
  let user_low := low_level (user_exp_range user) in
  let user_clr := high_level (user_exp_range user) in
  let user_def := user_exp_dfltlevel user in
  let clearance usercon :=
    if mls_level_dom user_clr fromcon_clr then (0, with_level usercon 1 fromcon_clr)
    else if mls_level_dom fromcon_clr user_clr then (0, with_level usercon 1 user_clr)
    else (- EINVAL, usercon) in
  if mls_level_between user_def fromcon_sen fromcon_clr then clearance (with_level usercon 0 user_def)
  else if mls_level_between fromcon_sen user_def user_clr then clearance (with_level usercon 0 fromcon_sen)
  else if mls_level_between fromcon_clr user_low user_def then clearance (with_level usercon 0 user_low)
  else (- EINVAL, usercon).

(** one level of [mls_convert_context]; on an error the context keeps the new
    sensitivity and the old categories, and [bitmap] leaks *)
Definition convert_level (oldp newp : policydb) (l : Z) (c : context_struct) : CM (Z * context_struct) :=
  name ← deref (at_val (p_sens_val_to_name oldp) (sens (get_level (c_range c) l)));
  levdatum ← hashtab_search (table (p_levels newp)) name;
  match levdatum with
  | None => mret (- EINVAL, c)
  | Some levdatum =>
      let cats := cat (get_level (c_range c) l) in
      let c := with_level c l (MlsLevel (sens (ld_level levdatum)) cats) in
      r ← ebitmap_for_each_bit cats (λ bit i bitmap,
            if bit then
              name ← deref (cat_name oldp i);
              catdatum ← hashtab_search (table (p_cats newp)) name;
              match catdatum with
              | None => mret (inl (- EINVAL))
              | Some catdatum =>
                  '(rc, bitmap) ← ebitmap_set_bit bitmap (u32 (cat_value catdatum - 1)) 1;
                  mret (if truth rc then inl rc else inr bitmap)
              end
            else mret (inr bitmap)) ebitmap_init;
      match r with
      | inl rc => mret (rc, c)
      | inr (bitmap, _) => mret (0, with_level c l (MlsLevel (sens (ld_level levdatum)) bitmap))
      end
  end.
Definition mls_convert_context (oldp newp : policydb) (c : context_struct) : CM (Z * context_struct) :=
  if negb (truth (mls oldp)) then mret (0, c) else
  '(rc, c) ← convert_level oldp newp 0 c;
  if truth rc then mret (rc, c) else convert_level oldp newp 1 c.

Definition mls_compute_sid (p : policydb) (scontext tcontext : context_struct) (tclass specified : Z)
    (newcontext : context_struct) : CM (Z * context_struct) :=
  if negb (truth (mls p)) then mret (0, newcontext) else
  let change :=
    if tclass =? SECCLASS_PROCESS then mls_copy_context newcontext scontext
    else mls_scopy_context newcontext scontext in
  if specified =? AVTAB_TRANSITION then
    match List.find (λ rtr, (rtr_source_type rtr =? c_type scontext) && (rtr_target_type rtr =? c_type tcontext) &&
                            (rtr_target_class rtr =? tclass)) (p_range_tr p) with
    | Some rtr => mls_range_set newcontext (rtr_target_range rtr)
    | None => change
    end
  else if specified =? AVTAB_CHANGE then change
  else if specified =? AVTAB_MEMBER then
    if negb (c_type newcontext =? c_type tcontext) then mls_scopy_context newcontext scontext
    else mls_copy_context newcontext tcontext
  else mret (- EINVAL, newcontext).

(** The answer is [None] when the call fails.  When only one of the contexts
    could be allocated it is destroyed before it is initialised, which follows
    wild pointers. *)
Definition sepol_mls_contains (p : policydb) (mls1 mls2 : string) : CM (Z * option bool) :=
  ctx1 ← malloc;
  ctx2 ← malloc;
  if bool_decide (ctx1 = None) || bool_decide (ctx2 = None) then
    if bool_decide (ctx1 = None) && bool_decide (ctx2 = None) then mret (STATUS_ERR, None)
    else undefined
  else
  '(rc, c1) ← mls_from_string p mls1 context_init;
  if rc <? 0 then mret (STATUS_ERR, None) else
  '(rc, c2) ← mls_from_string p mls2 context_init;
  if rc <? 0 then mret (STATUS_ERR, None) else
  mret (STATUS_SUCCESS, Some (mls_range_contains (c_range c1) (c_range c2))).
Definition sepol_mls_check (p : policydb) (str : string) : CM Z :=
  con ← malloc;
  if bool_decide (con = None) then mret STATUS_ERR else
  '(ret, _) ← mls_from_string p str context_init;
  mret ret.
End operations.

(** ** Theory: the length and the text *)

(** the categories below [n] have names *)
Definition cats_named (p : policydb) (n : Z) : Prop := ∀ j, 0 ≤ j < n → is_Some (cat_name p j).
(** the sensitivity of a level has a name, and its categories are below [n] *)
Definition level_named (p : policydb) (n : Z) (lev : mls_level) : Prop :=
  level_wf lev ∧ is_Some (at_val (p_sens_val_to_name p) (sens lev)) ∧
  ∀ i, nodes_bit (node (cat lev)) i = true → i < n.

Section text.
Context `{Target}.

Lemma strlen_app a b : strlen (a +:+ b) = strlen a + strlen b.
Proof. unfold strlen. induction a as [|c a IH]; [done|]. simpl in *. lia. Qed.
Lemma strlen_cons c s : strlen (String c s) = strlen s + 1.
Proof. unfold strlen. simpl. lia. Qed.
Lemma string_app_assoc (a b c : string) : (a +:+ b) +:+ c = a +:+ (b +:+ c).
Proof. induction a as [|x a IH]; [done|]. exact (f_equal (String x) IH). Qed.
Lemma string_app_nil (a : string) : a +:+ EmptyString = a.
Proof. induction a as [|x a IH]; [done|]. exact (f_equal (String x) IH). Qed.

#[local] Instance heap_eq_dec : EqDecision heap.
Proof. solve_decision. Defined.

(** two loops over the same bitmap, related at each position *)
Lemma for_each_bit_two {S1 S2} e (b1 : bool → Z → S1 → CM (unit + S1)) (b2 : bool → Z → S2 → CM (unit + S2))
    (Inv : Z → S1 → S2 → Prop) s1 s2 h :
  ebitmap_wf e → Inv (ebitmap_startbit e) s1 s2 →
  (∀ i s1 s2, ebitmap_startbit e ≤ i < highbit e → Inv i s1 s2 → ∃ s1' s2',
    b1 (nodes_bit (node e) i) i s1 h = Some (inr s1', h) ∧ b2 (nodes_bit (node e) i) i s2 h = Some (inr s2', h) ∧
    Inv (i + 1) s1' s2') →
  (∀ m m' s1 s2, gap (node e) m m' → Inv (startbit m + 64) s1 s2 → Inv (startbit m') s1 s2) →
  ∃ s1' s2', ebitmap_for_each_bit e b1 s1 h = Some (inr (s1', highbit e), h) ∧
    ebitmap_for_each_bit e b2 s2 h = Some (inr (s2', highbit e), h) ∧ Inv (highbit e) s1' s2'.
Proof.
  intros Hw HI Hb Hj.
  set (b12 bit i (st : S1 * S2) := λ h0 : heap, match b1 bit i st.1 h, b2 bit i st.2 h with
    | Some (inr s1', h1), Some (inr s2', h2) =>
        if bool_decide (h1 = h ∧ h2 = h) then Some (inr (A := unit) (s1', s2'), h) else None
    | _, _ => None
    end).
  assert (wp (ebitmap_for_each_bit e b12 (s1, s2)) (λ r h', h' = h ∧ match r with
    | inr ((s1', s2'), i) => i = highbit e ∧ Inv i s1' s2'
    | inl _ => False end) h) as Hwp.
  { apply (wp_ebitmap_for_each_bit (λ i st h', h' = h ∧ Inv i st.1 st.2)); [done|done| | |].
    - intros i [t1 t2] h' Hi [-> HI']. destruct (Hb i t1 t2 Hi HI') as (t1'&t2'&E1&E2&HI''). unfold wp, b12.
      cbn [fst snd]. by rewrite E1, E2, bool_decide_eq_true_2.
    - intros m m' [t1 t2] h' Hg [-> HI']. split; [done|]. by apply (Hj m).
    - intros [t1 t2] h' [-> HI']. done. }
  apply wp_run in Hwp as ([[]|[[s1' s2'] i]]&h'&Hrun&[-> Hi]); [done|]. destruct Hi as [-> HI'].
  exists s1', s2'. rewrite !ebitmap_for_each_bit_eq in * by done.
  assert (for_list (nodes_span (node e)) (λ i, b12 (nodes_bit (node e) i) i) (s1, s2) h = Some (inr (s1', s2'), h)) as Hrun'.
  { revert Hrun. unfold fmap, CM_fmap, mbind, CM_bind. destruct (for_list _ _ _ _) as [[[|[]] ?]|]; try done.
    by intros [= -> -> ->]. }
  assert (∀ l t1 t2, for_list l (λ i, b12 (nodes_bit (node e) i) i) (t1, t2) h = Some (inr (s1', s2'), h) →
    for_list l (λ i, b1 (nodes_bit (node e) i) i) t1 h = Some (inr s1', h) ∧
    for_list l (λ i, b2 (nodes_bit (node e) i) i) t2 h = Some (inr s2', h)) as Hl.
  { clear. intros l. induction l as [|i l IH]; intros t1 t2; cbn [for_list]; [by intros [= -> ->]|].
    unfold mbind, CM_bind, b12 at 1. cbn [fst snd].
    destruct (b1 _ i t1 h) as [[[|t1'] h1]|] eqn:E1; try done.
    destruct (b2 _ i t2 h) as [[[|t2'] h2]|] eqn:E2; try done.
    case_bool_decide as Hh; [|done]. destruct Hh as [-> ->]. intros Hx. by apply IH. }
  apply Hl in Hrun' as [F1 F2]. unfold fmap, CM_fmap, mbind, CM_bind. by rewrite F1, F2.
Qed.

Lemma u32_add a b : u32 (u32 a + b) = u32 (a + b).
Proof. apply u32_add_u32. Qed.

Lemma cat_name_below p n e m m' :
  ebitmap_wf e → (∀ i, nodes_bit (node e) i = true → i < n) → cats_named p n → gap (node e) m m' →
  is_Some (cat_name p (startbit m' - 1)).
Proof.
  intros Hw Hn Hc Hg. destruct (gap_member e m m' Hw Hg) as (?&j&?&Hj). apply Hc. specialize (Hn _ Hj).
  destruct Hg as [_ ?]. lia.
Qed.

(** the text of a level is as long as [level_len] says, and neither loop reads
    a name that is not there *)
Lemma level_text_len p n lev text h :
  level_named p n lev → cats_named p n →
  ∃ suffix, level_text p lev text h = Some (text +:+ suffix, h) ∧
    level_len p lev (u32 (strlen text)) h = Some (u32 (strlen (text +:+ suffix)), h).
Proof.
  intros (Hw&[name Hname]&Hmem) Hcats.
  destruct (for_each_bit_two (cat lev) (cat_text_step p) (cat_len_step p)
    (λ i st1 st2, (∃ sfx, st1.1.1 = text +:+ sfx) ∧ st2 = (u32 (strlen st1.1.1), st1.1.2) ∧
      (1 < st1.1.2 → is_Some (cat_name p (i - 1))))
    (text +:+ name, 0, false) (u32 (u32 (strlen text) + strlen name), 0) h Hw)
    as ([[text' range] sep]&[len range']&E1&E2&(sfx&Ht)&Heq&Hr).
  - cbn [fst snd]. split_and!; [by exists name|by rewrite u32_add, strlen_app|done].
  - intros i [[t range] sep] st2 Hi ((sfx&Ht)&->&Hr). cbn [fst snd] in *. unfold cat_text_step, cat_len_step.
    destruct (nodes_bit (node (cat lev)) i) eqn:Eb.
    + destruct (Hcats i) as [nm Hnm]; [pose proof (Hmem _ Eb); pose proof (nodes_bit_range _ _ Hw Eb); lia|].
      destruct (truth range) eqn:Et.
      * do 2 eexists. split; [done|]. split; [done|]. split_and!; [by exists sfx|done|].
        intros _. rewrite Z.add_simpl_r. by eexists.
      * unfold mbind, CM_bind. rewrite Hnm. do 2 eexists. split; [done|]. split; [done|]. cbn [fst snd].
        split_and!; [subst t; rewrite string_app_assoc; by eexists| |].
        { by rewrite <- Z.add_assoc, u32_add, strlen_app, strlen_cons. }
        intros _. rewrite Z.add_simpl_r. by eexists.
    + destruct (Z.ltb_spec 1 range) as [Hlt|].
      * destruct (Hr Hlt) as [nm Hnm]. unfold mbind, CM_bind. rewrite Hnm. do 2 eexists. split; [done|]. split; [done|].
        cbn [fst snd]. split_and!; [subst t; rewrite string_app_assoc; by eexists| |lia].
        by rewrite <- Z.add_assoc, u32_add, strlen_app, strlen_cons.
      * do 2 eexists. split; [done|]. split; [done|]. split_and!; [by exists sfx|done|simpl; lia].
  - intros m m' [[t range] sep] st2 Hg (Ht&->&Hr). split_and!; [done|done|]. intros _. by eapply cat_name_below.
  - cbn [fst snd] in *. injection Heq as -> ->. unfold level_text, level_len, mbind, CM_bind. rewrite Hname.
    cbn [deref mret CM_ret]. rewrite E1, E2. destruct (Z.ltb_spec 1 range) as [Hlt|]; [|exists sfx; by subst text'].
    destruct (Hr Hlt) as [nm Hnm]. rewrite Hnm. cbn [deref mret CM_ret]. subst text'.
    exists (sfx +:+ String (if 2 <? range then dot else comma) nm). rewrite <- string_app_assoc. split; [done|].
    by rewrite <- Z.add_assoc, u32_add, (strlen_app (text +:+ sfx)), strlen_cons.
Qed.

(** computations that neither read nor change the heap *)
Definition pure {A} (m : CM A) : Prop := ∃ o, ∀ h, m h = (λ x, (x, h)) <$> o.
Lemma pure_ret {A} (x : A) : pure (mret x).
Proof. by exists (Some x). Qed.
Lemma pure_deref {A} (o : option A) : pure (deref o).
Proof. exists o. by destruct o. Qed.
Lemma pure_bind {A B} (m : CM A) (f : A → CM B) : pure m → (∀ x, pure (f x)) → pure (m ≫= f).
Proof.
  intros [[x|] Hm] Hf; [|exists None; intros h; unfold mbind, CM_bind; by rewrite Hm].
  destruct (Hf x) as [o Ho]. exists o. intros h. unfold mbind, CM_bind. rewrite Hm. cbn. apply Ho.
Qed.
Lemma pure_for_list {I S R} (l : list I) (body : I → S → CM (R + S)) s :
  (∀ i s, pure (body i s)) → pure (for_list l body s).
Proof.
  intros Hb. revert s. induction l as [|i l IH]; intros s; [apply pure_ret|].
  apply pure_bind; [apply Hb|]. intros [x|s']; [apply pure_ret|apply IH].
Qed.
Lemma pure_ext {A} (m m' : CM A) : (∀ h, m h = m' h) → pure m' → pure m.
Proof. intros Hm [o Ho]. exists o. intros h. by rewrite Hm. Qed.
Lemma pure_for_each {S R} e (body : bool → Z → S → CM (R + S)) s :
  ebitmap_wf e → (∀ b i s, pure (body b i s)) → pure (ebitmap_for_each_bit e body s).
Proof.
  intros Hw Hb. eapply pure_ext; [intros h; by apply ebitmap_for_each_bit_eq|].
  apply pure_bind; [by apply pure_for_list|]. intros r. apply pure_ret.
Qed.
Lemma pure_level_text p lev text : level_wf lev → pure (level_text p lev text).
Proof.
  intros Hw. apply pure_bind; [apply pure_deref|]. intros name. apply pure_bind.
  - apply pure_for_each; [done|]. intros b i [[t range] sep]. unfold cat_text_step.
    destruct b; [destruct (truth range)|destruct (1 <? range)]; try apply pure_ret;
      (apply pure_bind; [apply pure_deref|intros ?; apply pure_ret]).
  - intros [|[[[t range] sep] i]]; [apply pure_ret|]. destruct (1 <? range); [|apply pure_ret].
    apply pure_bind; [apply pure_deref|intros ?; apply pure_ret].
Qed.
Lemma pure_mls_sid_to_context p c : context_wf c → pure (mls_sid_to_context p c).
Proof.
  intros [Hl Hh]. unfold mls_sid_to_context. destruct (negb _); [apply pure_ret|].
  apply pure_bind; [by apply pure_level_text|]. intros t. destruct (mls_level_eq _ _); [apply pure_ret|].
  by apply pure_level_text.
Qed.
Lemma pure_heap {A} (m : CM A) h h' x : pure m → m h = Some (x, h) → m h' = Some (x, h').
Proof. intros [[y|] Ho]; rewrite !Ho; [|done]. by intros [= ->]. Qed.

(** the text of a context and its length *)
Lemma mls_text_len p n c h :
  mls p ≠ 0 → level_named p n (low_level (c_range c)) → level_named p n (high_level (c_range c)) → cats_named p n →
  ∃ rest, mls_sid_to_context p c h = Some (String colon rest, h) ∧
    mls_compute_context_len p c h = Some (i32 (u32 (strlen (String colon rest))), h).
Proof.
  intros Hm Hl Hh Hc. unfold mls_sid_to_context, mls_compute_context_len.
  rewrite (proj2 (truth_true _) Hm). cbn [negb]. unfold mbind, CM_bind.
  destruct (level_text_len p n _ (String colon EmptyString) h Hl Hc) as (s1&E1&L1).
  rewrite E1. change (u32 (strlen (String colon EmptyString))) with 1 in L1. rewrite L1.
  destruct (mls_level_eq _ _); [by exists s1|].
  destruct (level_text_len p n _ ((String colon EmptyString +:+ s1) +:+ String dash EmptyString) h Hh Hc) as (s2&E2&L2).
  rewrite E2. assert (u32 (u32 (strlen (String colon EmptyString +:+ s1)) + 1) =
    u32 (strlen ((String colon EmptyString +:+ s1) +:+ String dash EmptyString))) as Hu.
  { rewrite u32_add, (strlen_app _ (String dash EmptyString)). done. }
  rewrite Hu, L2. exists ((s1 +:+ String dash EmptyString) +:+ s2). done.
Qed.
Lemma mls_to_string_wp p n c h :
  mls p ≠ 0 → level_named p n (low_level (c_range c)) → level_named p n (high_level (c_range c)) → cats_named p n →
  (∀ text h', mls_sid_to_context p c h = Some (text, h') → strlen text < 2 ^ 31 - 1) →
  ∃ rest, mls_sid_to_context p c h = Some (String colon rest, h) ∧
    mls_compute_context_len p c h = Some (strlen (String colon rest), h) ∧
    wp (mls_to_string p c) (λ '(rc, s) h', mem_step h h' (rc = STATUS_SUCCESS) ∧
      (rc = STATUS_SUCCESS ∧ s = Some rest ∨ rc = STATUS_ERR ∧ s = None)) h.
Proof.
  intros Hm Hl Hh Hc Hlen. destruct (mls_text_len p n c h Hm Hl Hh Hc) as (rest&Ht&Hn). exists rest. split; [done|].
  specialize (Hlen _ _ Ht). assert (i32 (u32 (strlen (String colon rest))) = strlen (String colon rest)) as Hi.
  { assert (0 ≤ strlen (String colon rest)) by (unfold strlen; lia). unfold i32, u32. rewrite !wrap_id; [lia|..];
      rewrite ?wrap_id; lia. }
  rewrite Hi in Hn. split; [done|]. apply wp_bind. unfold wp at 1. rewrite Hn.
  wp_malloc a1 h1 M1; [|apply wp_ret; split; [intros Ho; by destruct (M1 Ho)|by right]].
  wp_malloc a2 h2 M2; [|apply wp_ret; split; [intros Ho; destruct (M1 Ho) as [Ho' _]; by destruct (M2 Ho')|by right]].
  rewrite !bool_decide_eq_false_2 by done. apply wp_bind. unfold wp at 1.
  rewrite (pure_heap _ h h2 _ (pure_mls_sid_to_context p c (conj (proj1 Hl) (proj1 Hh))) Ht).
  rewrite (proj2 (Z.eqb_eq _ _)) by lia. apply wp_ret. split; [mem|by left].
Qed.
End text.

(** ** Theory: validity and conversion *)

Section tables.
Context `{Target}.

Lemma members_of (e : ebitmap) i : ebitmap_wf e → i ∈ ebitmap_bits e ↔ i ∈ ebitmap_set e.
Proof. intros Hw. by rewrite elem_of_ebitmap_bits, elem_of_ebitmap_set. Qed.

(** a loop whose body ignores clear bits runs over the members *)
Lemma wp_for_each_member {S R} e (body : bool → Z → S → CM (R + S)) s (Q : R + S * Z → heap → Prop) h :
  ebitmap_wf e → (∀ i s, body false i s = mret (inr s)) →
  wp (for_list (ebitmap_bits e) (body true) s) (λ r h', Q (with_bit (highbit e) r) h') h →
  wp (ebitmap_for_each_bit e body s) Q h.
Proof. intros Hw Hb Hl. unfold wp. rewrite ebitmap_for_each_member by done. by apply wp_fmap in Hl. Qed.

(** a level of a policy with [n] categories is valid: it has a known
    sensitivity, and each of its categories is one of the [n] (they are numbered
    from 0) and goes with that sensitivity *)
Definition level_among (n : Z) (p : policydb) (levels : gmap string level_datum) (lev : mls_level) : Prop :=
  1 ≤ sens lev ≤ nprim (p_levels p) ∧ ∃ name d,
    at_val (p_sens_val_to_name p) (sens lev) = Some name ∧ levels !! name = Some d ∧
    ∀ i, i ∈ ebitmap_set (cat lev) → i < n ∧ i ∈ ebitmap_set (cat (ld_level d)).

(** the tables of a policy are in order *)
Record mls_tables (p : policydb) (tl : hashtab string level_datum) : Prop := {
  mt_levels : table (p_levels p) = Some tl;
  mt_ok : hashtab_ok tl;
  mt_level_wf name d : hashtab_map_of tl !! name = Some d → level_wf (ld_level d);
  mt_names s : 1 ≤ s ≤ nprim (p_levels p) → is_Some (at_val (p_sens_val_to_name p) s);
  mt_users u : 1 ≤ u ≤ nprim (p_users p) → ∃ d, at_val (user_val_to_struct p) u = Some d ∧ range_wf (user_exp_range d)
}.

Lemma level_isvalid_wp p tl lev h :
  mls_tables p tl → level_wf lev → 0 ≤ sens lev →
  wp (level_isvalid p lev) (λ b h', h' = h ∧
    (b = true ↔ level_among (nprim (p_cats p) + 1) p (hashtab_map_of tl) lev)) h.
Proof.
  intros Ht Hw Hs. unfold level_isvalid, level_among.
  destruct (truth (sens lev)) eqn:Et; cbn [negb orb]; cycle 1.
  { apply truth_false in Et. apply wp_ret. split; [done|]. split; [done|]. intros [??]; lia. }
  apply truth_true in Et. destruct (Z.ltb_spec (nprim (p_levels p)) (sens lev)) as [|Hle].
  { apply wp_ret. split; [done|]. split; [done|]. intros [??]; lia. }
  destruct (mt_names _ _ Ht (sens lev)) as [name Hname]; [lia|]. rewrite Hname.
  eapply wp_bind, wp_deref; [done|]. rewrite (mt_levels _ _ Ht). apply wp_bind.
  eapply wp_mono; [apply hashtab_search_wp, (mt_ok _ _ Ht)|]. intros r h' [-> ->].
  destruct (hashtab_map_of tl !! name) as [d|] eqn:Ed; cycle 1.
  { apply wp_ret. split; [done|]. split; [done|]. intros (_&nm&d&[= <-]&Hd&_). congruence. }
  pose proof (mt_level_wf _ _ Ht _ _ Ed) as Hwd. apply wp_bind, wp_for_each_member; [done|by intros ? []|].
  apply (wp_for_list (λ rest _ h', h' = h ∧ ∀ i, i ∈ ebitmap_set (cat lev) →
    i ∈ rest ∨ i < nprim (p_cats p) + 1 ∧ i ∈ ebitmap_set (cat (ld_level d)))).
  - split; [done|]. intros i Hi. left. by apply members_of.
  - intros i rest [] h' Hi [-> Hrest]. apply members_of in Hi; [|done].
    assert (Hno : ¬ (i < nprim (p_cats p) + 1 ∧ i ∈ ebitmap_set (cat (ld_level d))) →
      ¬ ∃ nm d0, Some name = Some nm ∧ hashtab_map_of tl !! nm = Some d0 ∧
        ∀ i, i ∈ ebitmap_set (cat lev) → i < nprim (p_cats p) + 1 ∧ i ∈ ebitmap_set (cat (ld_level d0))).
    { intros Hn (nm&d0&[= <-]&Hd0&Hall). rewrite Ed in Hd0. injection Hd0 as <-. by apply Hn, Hall. }
    destruct (Z.ltb_spec (nprim (p_cats p)) i) as [Hgt|Hile].
    { apply wp_ret, wp_ret. split; [done|]. split; [done|]. intros [_ Hx]. exfalso. revert Hx. apply Hno. lia. }
    rewrite ebitmap_get_bit_eq, truth_cbool by done.
    destruct (nodes_bit (node (cat (ld_level d))) i) eqn:Eb; cbn [negb].
    + apply wp_ret. split; [done|]. intros j Hj. destruct (Hrest j Hj) as [[-> |?]%elem_of_cons|?]; [|by left|by right].
      right. split; [lia|]. by apply elem_of_ebitmap_set.
    + apply wp_ret, wp_ret. split; [done|]. split; [done|]. intros [_ Hx]. exfalso. revert Hx. apply Hno.
      rewrite elem_of_ebitmap_set by done. rewrite Eb. by intros [_ ?].
  - intros [] h' [-> Hall]. apply wp_ret. split; [done|]. split; [|done]. intros _. split; [lia|].
    exists name, d. split_and!; [done|done|]. intros i Hi. by destruct (Hall i Hi) as [?%elem_of_nil|?].
Qed.

(** the MLS fields of a context are valid, in a policy with [n] categories:
    ordered and valid levels, and a user who is cleared for them unless the role
    is that of objects *)
Definition mls_among (n : Z) (p : policydb) (tl : hashtab string level_datum) (c : context_struct) : Prop :=
  level_le (low_level (c_range c)) (high_level (c_range c)) ∧
  level_among n p (hashtab_map_of tl) (low_level (c_range c)) ∧
  level_among n p (hashtab_map_of tl) (high_level (c_range c)) ∧
  (c_role c = OBJECT_R_VAL ∨ 1 ≤ c_user c ≤ nprim (p_users p) ∧ ∃ d,
     at_val (user_val_to_struct p) (c_user c) = Some d ∧
     level_le (low_level (user_exp_range d)) (low_level (c_range c)) ∧
     level_le (high_level (c_range c)) (high_level (user_exp_range d))).
(** validity in the policy *)
Definition mls_valid (p : policydb) (tl : hashtab string level_datum) (c : context_struct) : Prop :=
  mls_among (nprim (p_cats p)) p tl c.
(** what the code accepts: it counts one category too many *)
Definition mls_accepted (p : policydb) (tl : hashtab string level_datum) (c : context_struct) : Prop :=
  mls_among (nprim (p_cats p) + 1) p tl c.
(** the levels of the policy have categories of the policy only *)
Definition levels_known (p : policydb) (tl : hashtab string level_datum) : Prop :=
  ∀ name d i, hashtab_map_of tl !! name = Some d → i ∈ ebitmap_set (cat (ld_level d)) → i < nprim (p_cats p).

Lemma level_among_mono n n' p levels lev : n ≤ n' → level_among n p levels lev → level_among n' p levels lev.
Proof.
  intros Hn (Hs&name&d&Hname&Hd&Hall). split; [done|]. exists name, d. split_and!; [done..|].
  intros i Hi. destruct (Hall i Hi). split; [lia|done].
Qed.
Lemma mls_valid_accepted p tl c : mls_valid p tl c → mls_accepted p tl c.
Proof. intros (?&?&?&?). split_and!; [done|eapply level_among_mono; [|done]; lia..|done]. Qed.
Lemma mls_accepted_valid p tl c : levels_known p tl → mls_accepted p tl c → mls_valid p tl c.
Proof.
  intros Hk (?&H1&H2&?). assert (Hl : ∀ lev, level_among (nprim (p_cats p) + 1) p (hashtab_map_of tl) lev →
    level_among (nprim (p_cats p)) p (hashtab_map_of tl) lev); [|split_and!; auto].
  intros lev (Hs&name&d&Hname&Hd&Hall). split; [done|]. exists name, d. split_and!; [done..|].
  intros i Hi. destruct (Hall i Hi) as [_ Hin]. split; [by eapply Hk|done].
Qed.

Lemma mls_context_isvalid_wp p tl c h :
  mls_tables p tl → mls p ≠ 0 → context_wf c → 0 ≤ sens (low_level (c_range c)) → 0 ≤ sens (high_level (c_range c)) →
  0 ≤ c_user c →
  wp (mls_context_isvalid p c) (λ b h', h' = h ∧ (b = true ↔ mls_accepted p tl c)) h.
Proof.
  intros Ht Hm [Hwl Hwh] Hsl Hsh Hu. unfold mls_context_isvalid, mls_accepted, mls_among.
  rewrite (proj2 (truth_true _) Hm). cbn [negb].
  destruct (mls_level_dom _ _) eqn:Ed; cbn [negb]; cycle 1.
  { apply not_true_iff_false in Ed. rewrite mls_level_dom_le in Ed by done. apply wp_ret. split; [done|].
    split; [done|]. by intros [? _]. }
  apply mls_level_dom_le in Ed; [|done..]. apply wp_bind. eapply wp_mono; [by apply level_isvalid_wp|].
  intros [] h' [-> H1]; cbn [negb]; [|apply wp_ret; split; [done|]; split; [done|]; intros (_&Hx&_); by apply H1 in Hx].
  apply wp_bind. eapply wp_mono; [by apply level_isvalid_wp|].
  intros [] h' [-> H2]; cbn [negb]; [|apply wp_ret; split; [done|]; split; [done|]; intros (_&_&Hx&_); by apply H2 in Hx].
  destruct H1 as [H1 _], H2 as [H2 _]. specialize (H1 eq_refl). specialize (H2 eq_refl).
  destruct (Z.eqb_spec (c_role c) OBJECT_R_VAL) as [|Hr].
  { apply wp_ret. split; [done|]. split; [|done]. intros _. split_and!; [done..|by left]. }
  destruct (truth (c_user c)) eqn:Et; cbn [negb orb]; cycle 1.
  { apply truth_false in Et. apply wp_ret. split; [done|]. split; [done|]. intros (_&_&_&[?|[? _]]); [done|lia]. }
  apply truth_true in Et. destruct (Z.ltb_spec (nprim (p_users p)) (c_user c)) as [|Hle].
  { apply wp_ret. split; [done|]. split; [done|]. intros (_&_&_&[?|[? _]]); [done|lia]. }
  destruct (mt_users _ _ Ht (c_user c)) as (d&Hd&Hwd1&Hwd2); [lia|]. eapply wp_bind, wp_deref; [done|].
  apply wp_ret. split; [done|]. unfold mls_range_contains. rewrite andb_true_iff, !mls_level_dom_le by done.
  split.
  - intros [??]. split_and!; [done..|right]. split; [lia|]. by exists d.
  - intros (_&_&_&[?|(_&d'&Hd'&?&?)]); [done|]. rewrite Hd in Hd'. by injection Hd' as <-.
Qed.

(** the category the new policy gives a category of the old one *)
Definition converted (oldp : policydb) (cats : gmap string cat_datum) (i j : Z) : Prop :=
  ∃ name d, cat_name oldp i = Some name ∧ cats !! name = Some d ∧ j = cat_value d - 1.
(** every category of [X] has a name, and values fit in a bitmap *)
Definition convertible (oldp : policydb) (cats : gmap string cat_datum) (X : gset Z) : Prop :=
  (∀ i, i ∈ X → is_Some (cat_name oldp i)) ∧ ∀ name d, cats !! name = Some d → 1 ≤ cat_value d ≤ 2 ^ 32 - 64.

Lemma convert_level_wp oldp newp tl tc l c name h :
  table (p_levels newp) = Some tl → hashtab_ok tl → table (p_cats newp) = Some tc → hashtab_ok tc →
  let lev := get_level (c_range c) l in
  level_wf lev → at_val (p_sens_val_to_name oldp) (sens lev) = Some name →
  convertible oldp (hashtab_map_of tc) (ebitmap_set (cat lev)) →
  wp (convert_level oldp newp l c) (λ '(rc, c') h', (mem_ok h → mem_ok h' ∧ rc ≠ - ENOMEM) ∧
    (rc = 0 ∧ (∃ d lev', hashtab_map_of tl !! name = Some d ∧ c' = with_level c l lev' ∧ level_wf lev' ∧
       sens lev' = sens (ld_level d) ∧
       (∀ j, j ∈ ebitmap_set (cat lev') ↔ ∃ i, i ∈ ebitmap_set (cat lev) ∧ converted oldp (hashtab_map_of tc) i j) ∧
       ∀ i, i ∈ ebitmap_set (cat lev) → ∃ j, converted oldp (hashtab_map_of tc) i j)
     ∨ rc = - EINVAL ∧ (hashtab_map_of tl !! name = None ∨
         ∃ i, i ∈ ebitmap_set (cat lev) ∧ ∀ j, ¬ converted oldp (hashtab_map_of tc) i j)
     ∨ rc = - ENOMEM)) h.
Proof.
  intros Htl Hokl Htc Hokc lev Hw Hname [Hnm Hval]. unfold convert_level. fold lev. rewrite Hname, Htl.
  eapply wp_bind, wp_deref; [done|]. apply wp_bind. eapply wp_mono; [by apply hashtab_search_wp|].
  intros r h' [-> ->]. destruct (hashtab_map_of tl !! name) as [d|] eqn:Ed; cycle 1.
  { apply wp_ret. split; [done|right; left]. split; [done|by left]. }
  apply wp_bind, wp_for_each_member; [done..|]. rewrite Htc.
  apply (wp_for_list (λ rest bm h', mem_step h h' True ∧ ebitmap_wf bm ∧
    (∀ j, j ∈ ebitmap_set bm ↔ ∃ i, i ∈ ebitmap_set (cat lev) ∧ i ∉ rest ∧ converted oldp (hashtab_map_of tc) i j) ∧
    (∀ i, i ∈ ebitmap_set (cat lev) → i ∈ rest ∨ ∃ j, converted oldp (hashtab_map_of tc) i j) ∧
    ∃ before, ebitmap_bits (cat lev) = before ++ rest)).
  - split_and!; [mem|apply ebitmap_init_wf| | |by exists []].
    + intros j. rewrite ebitmap_init_set. split; [set_solver|]. intros (i&Hi&Hn&_). apply members_of in Hi; done.
    + intros i Hi. left. by apply members_of.
  - intros i rest bm h' Hi (Hm&Hwb&Hset&Hall&[before Hbits]). apply members_of in Hi; [|done].
    destruct (Hnm i Hi) as [nm Hcat]. rewrite Hcat. eapply wp_bind, wp_deref; [done|].
    apply wp_bind. eapply wp_mono; [by apply hashtab_search_wp|]. intros r h'' [-> ->].
    destruct (hashtab_map_of tc !! nm) as [cd|] eqn:Ec; cycle 1.
    { apply wp_ret, wp_ret. split; [intros Ho; by destruct (Hm Ho)|right; left]. split; [done|right].
      exists i. split; [done|]. intros j (nm'&cd&Hc'&Hd&_). rewrite Hcat in Hc'. injection Hc' as <-. congruence. }
    specialize (Hval _ _ Ec). assert (u32 (cat_value cd - 1) = cat_value cd - 1) as -> by (apply (wrap_id 32); lia).
    apply wp_bind. eapply wp_mono; [apply ebitmap_set_bit_wp; [done|lia]|].
    intros [rc bm'] h2 (Hm2&Hwb'&Hr). destruct Hr as [[-> Hbit]|[-> ->]]; cycle 1.
    { apply wp_ret, wp_ret. split; [|by right; right]. intros Ho. destruct (Hm Ho) as [Ho' _]. by destruct (Hm2 Ho'). }
    apply wp_ret. cbn [truth Z.eqb negb]. change (truth 1) with true in Hbit.
    assert (NoDup (ebitmap_bits (cat lev))) as Hnd by by apply ebitmap_bits_NoDup.
    rewrite Hbits in Hnd. apply NoDup_app in Hnd as (_&_&[Hir _]%NoDup_cons).
    split_and!; [mem|done| | |exists (before ++ [i]); by rewrite <- app_assoc].
    + intros j. rewrite elem_of_ebitmap_set, Hbit by done. destruct (Z.eqb_spec j (cat_value cd - 1)) as [->|Hne].
      * split; [|done]. intros _. exists i. split_and!; [done..|]. by exists nm, cd.
      * rewrite <- elem_of_ebitmap_set, Hset by done. split; intros (i'&Hi'&Hn'&Hc').
        { exists i'. split_and!; [done|set_solver|done]. }
        exists i'. split_and!; [done| |done]. intros [-> |?]%elem_of_cons; [|done].
        destruct Hc' as (nm'&cd'&Hc1&Hc2&->). rewrite Hcat in Hc1. injection Hc1 as <-. rewrite Ec in Hc2. by injection Hc2 as <-.
    + intros i' Hi'. destruct (Hall i' Hi') as [[-> |?]%elem_of_cons|?]; [right|by left|by right].
      eexists. by exists nm, cd.
  - intros bm h' (Hm&Hwb&Hset&Hall&_). apply wp_ret. split; [intros Ho; by destruct (Hm Ho)|left].
    split; [done|]. exists d, (MlsLevel (sens (ld_level d)) bm). split_and!; [done| |done|done| |].
    + unfold with_level, with_range, set_level. cbn [c_range c_user c_role c_type]. by destruct (l =? 0).
    + intros j. cbn [cat]. rewrite Hset. split; intros (i&?&?); exists i; [naive_solver|].
      split_and!; [done|apply not_elem_of_nil|done].
    + intros i Hi. by destruct (Hall i Hi) as [?%elem_of_nil|?].
Qed.

(** a level of the old policy has the meaning of [lev'] in the new one *)
Definition level_converted (oldp : policydb) (levels : gmap string level_datum) (cats : gmap string cat_datum)
    (lev lev' : mls_level) : Prop :=
  ∃ name d, at_val (p_sens_val_to_name oldp) (sens lev) = Some name ∧ levels !! name = Some d ∧
    level_wf lev' ∧ sens lev' = sens (ld_level d) ∧
    (∀ j, j ∈ ebitmap_set (cat lev') ↔ ∃ i, i ∈ ebitmap_set (cat lev) ∧ converted oldp cats i j) ∧
    ∀ i, i ∈ ebitmap_set (cat lev) → ∃ j, converted oldp cats i j.
(** the new policy does not know the sensitivity or a category of a level *)
Definition level_unknown (oldp : policydb) (levels : gmap string level_datum) (cats : gmap string cat_datum)
    (lev : mls_level) : Prop :=
  (∃ name, at_val (p_sens_val_to_name oldp) (sens lev) = Some name ∧ levels !! name = None) ∨
  ∃ i, i ∈ ebitmap_set (cat lev) ∧ ∀ j, ¬ converted oldp cats i j.

Lemma mls_convert_context_wp oldp newp tl tc c h :
  table (p_levels newp) = Some tl → hashtab_ok tl → table (p_cats newp) = Some tc → hashtab_ok tc →
  mls oldp ≠ 0 → context_wf c →
  is_Some (at_val (p_sens_val_to_name oldp) (sens (low_level (c_range c)))) →
  is_Some (at_val (p_sens_val_to_name oldp) (sens (high_level (c_range c)))) →
  convertible oldp (hashtab_map_of tc)
    (ebitmap_set (cat (low_level (c_range c))) ∪ ebitmap_set (cat (high_level (c_range c)))) →
  let known lev lev' := level_converted oldp (hashtab_map_of tl) (hashtab_map_of tc) lev lev' in
  let unknown lev := level_unknown oldp (hashtab_map_of tl) (hashtab_map_of tc) lev in
  wp (mls_convert_context oldp newp c) (λ '(rc, c') h', (mem_ok h → mem_ok h' ∧ rc ≠ - ENOMEM) ∧
    (rc = 0 ∧ c' = with_range c (c_range c') ∧ known (low_level (c_range c)) (low_level (c_range c')) ∧
       known (high_level (c_range c)) (high_level (c_range c'))
     ∨ rc = - EINVAL ∧ (unknown (low_level (c_range c)) ∨ unknown (high_level (c_range c)))
     ∨ rc = - ENOMEM)) h.
Proof.
  intros Htl Hokl Htc Hokc Hm [Hwl Hwh] [n0 Hn0] [n1 Hn1] [Hnm Hv] known unknown. unfold mls_convert_context.
  rewrite (proj2 (truth_true _) Hm). cbn [negb]. apply wp_bind.
  eapply wp_mono; [apply (convert_level_wp oldp newp tl tc 0 c n0); try done; by split; [set_solver|]|].
  intros [rc c1] h1 [Hm1 Hr]. destruct Hr as [(->&d&lev'&Hd&->&Hw&Hs&Hset&Hall)|[[-> Hun]| ->]]; cbn [truth Z.eqb negb]; cycle 1.
  { apply wp_ret. split; [intros Ho; by destruct (Hm1 Ho)|right; left]. split; [done|left].
    destruct Hun as [?|?]; [left; by exists n0|by right]. }
  { apply wp_ret. split; [intros Ho; by destruct (Hm1 Ho)|by right; right]. }
  eapply wp_mono; [apply (convert_level_wp oldp newp tl tc 1 _ n1); try done; by split; [set_solver|]|].
  intros [rc c2] h2 [Hm2 Hr]. split; [intros Ho; destruct (Hm1 Ho) as [Ho' _]; by destruct (Hm2 Ho')|].
  destruct Hr as [(->&d2&lev2&Hd2&->&Hw2&Hs2&Hset2&Hall2)|[[-> Hun]| ->]]; [left|right; left|by right; right].
  - split_and!; [done|done|by exists n0, d|by exists n1, d2].
  - split; [done|right]. destruct Hun as [?|?]; [left; by exists n1|by right].
Qed.

(** the range a user gets from the context it comes from *)
Lemma mls_setup_user_range_spec from u con m :
  m ≠ 0 → range_wf (c_range from) → range_wf (user_exp_range u) → level_wf (user_exp_dfltlevel u) →
  level_le (low_level (c_range from)) (high_level (c_range from)) →
  level_le (low_level (user_exp_range u)) (user_exp_dfltlevel u) →
  level_le (user_exp_dfltlevel u) (high_level (user_exp_range u)) →
  let '(rc, con') := mls_setup_user_range from u con m in
  let r := c_range con' in
  rc = 0 ∧ level_le (low_level r) (high_level r) ∧
    level_le (low_level (user_exp_range u)) (low_level r) ∧ level_le (high_level r) (high_level (user_exp_range u)) ∧
    level_le (high_level r) (high_level (c_range from)) ∧
    c_user con' = c_user con ∧ c_role con' = c_role con ∧ c_type con' = c_type con
  ∨ rc = - EINVAL.
Proof.
  intros Hm [Hf1 Hf2] [Hu1 Hu2] Hd Hfrom Hlow Hhigh. unfold mls_setup_user_range.
  rewrite (proj2 (truth_true _) Hm). cbn [negb]. unfold mls_level_between.
  set (sen := low_level (c_range from)) in *. set (clr := high_level (c_range from)) in *.
  set (ulow := low_level (user_exp_range u)) in *. set (uclr := high_level (user_exp_range u)) in *.
  set (udef := user_exp_dfltlevel u) in *.
  assert (Hclear : ∀ x, level_wf x → level_le x clr → level_le x uclr → level_le ulow x →
    let '(rc, con') := (if mls_level_dom uclr clr then (0, with_level (with_level con 0 x) 1 clr)
      else if mls_level_dom clr uclr then (0, with_level (with_level con 0 x) 1 uclr)
      else (- EINVAL, with_level con 0 x)) in
    let r := c_range con' in
    rc = 0 ∧ level_le (low_level r) (high_level r) ∧ level_le ulow (low_level r) ∧ level_le (high_level r) uclr ∧
      level_le (high_level r) clr ∧ c_user con' = c_user con ∧ c_role con' = c_role con ∧ c_type con' = c_type con
    ∨ rc = - EINVAL).
  { intros x Hx Hxc Hxu Hux. destruct (mls_level_dom uclr clr) eqn:E1; [|destruct (mls_level_dom clr uclr) eqn:E2; [|by right]].
    - apply mls_level_dom_le in E1; [|done..]. left. cbn. split_and!; try done; apply level_le_refl.
    - apply mls_level_dom_le in E2; [|done..]. left. cbn. split_and!; try done; apply level_le_refl. }
  destruct (mls_level_dom udef sen && mls_level_dom clr udef) eqn:E1.
  { apply andb_true_iff in E1 as [E1 E1']. rewrite !mls_level_dom_le in * by done. by apply Hclear. }
  destruct (mls_level_dom sen udef && mls_level_dom uclr sen) eqn:E2.
  { apply andb_true_iff in E2 as [E2 E2']. rewrite !mls_level_dom_le in * by done.
    apply Hclear; try done. by eapply level_le_trans. }
  destruct (mls_level_dom clr ulow && mls_level_dom udef clr) eqn:E3; [|by right].
  apply andb_true_iff in E3 as [E3 E3']. rewrite !mls_level_dom_le in * by done.
  apply Hclear; [done|done|exact (level_le_trans _ _ _ Hlow Hhigh)|apply level_le_refl].
Qed.

Lemma copy_levels_wp dst l0 l1 h :
  wp (copy_levels dst l0 l1) (λ '(rc, c) h', mem_step h h' (rc = 0) ∧
    (rc = 0 ∧ c = with_range dst (MlsRange l0 l1) ∨ rc = - ENOMEM)) h.
Proof.
  apply wp_bind. eapply wp_mono; [apply ebitmap_cpy_wp|]. intros [rc e0] h1 [Hm1 Hr1].
  destruct Hr1 as [[-> ->]|[-> ->]]; [|apply wp_ret; split; [mem|by right]].
  cbn [truth Z.eqb negb]. apply wp_bind. eapply wp_mono; [apply ebitmap_cpy_wp|]. intros [rc e1] h2 [Hm2 Hr2].
  destruct Hr2 as [[-> ->]|[-> ->]]; (apply wp_ret; split; [mem|]); [left|by right].
  split; [done|]. by destruct l0, l1.
Qed.

(** the range a new context gets, as a function *)
Definition new_range (p : policydb) (sc tc : context_struct) (tclass specified : Z) (nc : context_struct) : option mls_range :=
  let effective r := MlsRange (low_level r) (low_level r) in
  let change := if tclass =? SECCLASS_PROCESS then c_range sc else effective (c_range sc) in
  if specified =? AVTAB_TRANSITION then
    Some (from_option rtr_target_range change (List.find (λ r, (rtr_source_type r =? c_type sc) &&
      (rtr_target_type r =? c_type tc) && (rtr_target_class r =? tclass)) (p_range_tr p)))
  else if specified =? AVTAB_CHANGE then Some change
  else if specified =? AVTAB_MEMBER then
    Some (if c_type nc =? c_type tc then c_range tc else effective (c_range sc))
  else None.

Lemma mls_compute_sid_wp p sc tc tclass spec nc h :
  mls p ≠ 0 →
  wp (mls_compute_sid p sc tc tclass spec nc) (λ '(rc, nc') h', mem_step h h' (rc ≠ - ENOMEM) ∧
    match new_range p sc tc tclass spec nc with
    | Some r => rc = 0 ∧ nc' = with_range nc r ∨ rc = - ENOMEM
    | None => rc = - EINVAL ∧ nc' = nc
    end) h.
Proof.
  intros Hm. unfold mls_compute_sid, new_range. rewrite (proj2 (truth_true _) Hm). cbn [negb].
  assert (Hcopy : ∀ l0 l1, wp (copy_levels nc l0 l1) (λ '(rc, c) h', mem_step h h' (rc ≠ - ENOMEM) ∧
    (rc = 0 ∧ c = with_range nc (MlsRange l0 l1) ∨ rc = - ENOMEM)) h).
  { intros l0 l1. eapply wp_mono; [apply copy_levels_wp|]. intros [rc c] h' [Hmem Hr]. split; [|done].
    intros Ho. by destruct (Hmem Ho) as [? ->]. }
  assert (Hr : ∀ r, MlsRange (low_level r) (high_level r) = r) by by intros [].
  assert (Hchange : wp (if tclass =? SECCLASS_PROCESS then mls_copy_context nc sc else mls_scopy_context nc sc)
    (λ '(rc, c) h', mem_step h h' (rc ≠ - ENOMEM) ∧
      (rc = 0 ∧ c = with_range nc (if tclass =? SECCLASS_PROCESS then c_range sc
        else MlsRange (low_level (c_range sc)) (low_level (c_range sc))) ∨ rc = - ENOMEM)) h).
  { unfold mls_copy_context, mls_scopy_context. destruct (tclass =? SECCLASS_PROCESS); [|apply Hcopy].
    pose proof (Hcopy (low_level (c_range sc)) (high_level (c_range sc))) as Hx. by rewrite Hr in Hx. }
  destruct (spec =? AVTAB_TRANSITION).
  - destruct (List.find _ (p_range_tr p)) as [rtr|]; [|done]. unfold mls_range_set. cbn [from_option].
    pose proof (Hcopy (low_level (rtr_target_range rtr)) (high_level (rtr_target_range rtr))) as Hx. by rewrite Hr in Hx.
  - destruct (spec =? AVTAB_CHANGE); [done|]. destruct (spec =? AVTAB_MEMBER); [|apply wp_ret; split; [mem|done]].
    unfold mls_copy_context, mls_scopy_context. destruct (c_type nc =? c_type tc); cbn [negb]; [|apply Hcopy].
    pose proof (Hcopy (low_level (c_range tc)) (high_level (c_range tc))) as Hx. by rewrite Hr in Hx.
Qed.
End tables.

(** ** An example policy *)

Module ExampleMls.
Definition cats012 : ebitmap := Ebitmap [Node 0 7] 64.
Definition s0 : mls_level := MlsLevel 1 (Ebitmap [] 0).
Definition s1 : mls_level := MlsLevel 2 cats012.
Definition levels : hashtab string level_datum :=
  Hashtab [[("s0"%string, LevelDatum (MlsLevel 1 cats012) 0 1); ("s1"%string, LevelDatum s1 0 1)]] 1 2.
Definition cats : hashtab string cat_datum :=
  Hashtab [[("c0"%string, CatDatum 1 0); ("c1"%string, CatDatum 2 0); ("c2"%string, CatDatum 3 0)]] 1 3.
Definition user : user_datum :=
  UserDatum 1 (RoleSet (Ebitmap [] 0) 0) (SemRange (SemLevel 1 []) (SemLevel 2 [SemCat 1 3])) (SemLevel 1 [])
    (Ebitmap [] 0) (MlsRange s0 s1) s0 0.
Definition trans : range_trans := RangeTrans 5 6 SECCLASS_PROCESS (MlsRange s1 s1).
(** a policy of two sensitivities, three categories and one user *)
Definition policy : policydb :=
  Policydb 0 30 1 empty_symtab empty_symtab empty_symtab (Symtab None 1) empty_symtab (Symtab (Some levels) 2)
    (Symtab (Some cats) 3) [Some "s0"%string; Some "s1"%string] [Some "c0"%string; Some "c1"%string; Some "c2"%string]
    [] [] [] [] [] [] [Some user] [] empty_avtab empty_avtab [] [] [] [] [] [trans] [] (Ebitmap [] 0)
    [] (replicate OCON_NUM []) [].
(** the context u:r:t:s0-s1:c0.c2 *)
Definition con : context_struct := Context 1 2 5 (MlsRange s0 s1).

Lemma cats012_wf : ebitmap_wf cats012.
Proof. split; [cbn; split_and!; try lia; exists 0; lia|reflexivity]. Qed.
Lemma levels_ok `{Target} : hashtab_ok levels.
Proof.
  split; cbn [Hashtab.size htable levels]; [lia|done| |].
  - intros [|i] c Hc; simplify_eq/=. repeat constructor; unfold key_before; vm_compute; reflexivity.
  - intros [|i] c kd Hc Hin; simplify_eq/=. unfold symhash. by rewrite Z.land_0_r.
Qed.
Lemma cats_ok `{Target} : hashtab_ok cats.
Proof.
  split; cbn [Hashtab.size htable cats]; [lia|done| |].
  - intros [|i] c Hc; simplify_eq/=. repeat constructor; unfold key_before; vm_compute; reflexivity.
  - intros [|i] c kd Hc Hin; simplify_eq/=. unfold symhash. by rewrite Z.land_0_r.
Qed.
Lemma s0_wf : level_wf s0.
Proof. apply ebitmap_init_wf. Qed.
Lemma s1_wf : level_wf s1.
Proof. apply cats012_wf. Qed.
Lemma user_wf : range_wf (user_exp_range user).
Proof. split; [apply s0_wf|apply s1_wf]. Qed.
(** the members of the bitmap of three categories *)
Lemma cats012_member i : nodes_bit (node cats012) i = true → 0 ≤ i < 3.
Proof.
  intros Hb. pose proof (nodes_bit_range _ _ cats012_wf Hb). cbn [highbit cats012] in *.
  destruct (Z.lt_ge_cases i 3); [lia|]. exfalso. cbn [node cats012] in Hb.
  rewrite nodes_bit_cons_in in Hb by (cbn; lia). cbn [startbit map] in Hb. by rewrite (testbit_high 3) in Hb by lia.
Qed.
Lemma names3 : cats_named policy 3.
Proof. intros j Hj. assert (j = 0 ∨ j = 1 ∨ j = 2) as [->|[->| ->]] by lia; by eexists. Qed.
Lemma s0_named : level_named policy 3 s0.
Proof. split_and!; [apply s0_wf|by eexists|done]. Qed.
Lemma s1_named : level_named policy 3 s1.
Proof. split_and!; [apply s1_wf|by eexists|]. intros i Hi. by apply cats012_member. Qed.
Lemma policy_tables `{Target} : mls_tables policy levels.
Proof.
  split; [done|apply levels_ok| | |].
  - intros name d Hd. apply elem_of_list_to_map_2 in Hd. unfold entries in Hd. cbn in Hd.
    repeat (apply elem_of_cons in Hd as [[= _ ->]|Hd]; [apply cats012_wf|]). by apply elem_of_nil in Hd.
  - intros s Hs. cbn in Hs. assert (s = 1 ∨ s = 2) as [->| ->] by lia; by eexists.
  - intros u Hu. cbn in Hu. assert (u = 1) as -> by lia. exists user. split; [done|apply user_wf].
Qed.
Lemma cats012_set i : i ∈ ebitmap_set cats012 → 0 ≤ i < 3.
Proof. intros Hi. apply elem_of_ebitmap_set in Hi; [|apply cats012_wf]. by apply cats012_member. Qed.
Lemma convertible_cats : convertible policy (hashtab_map_of cats)
  (ebitmap_set (cat (low_level (c_range con))) ∪ ebitmap_set (cat (high_level (c_range con)))).
Proof.
  split.
  - intros i [Hi|Hi]%elem_of_union; [by apply elem_of_empty in Hi|]. by apply names3, cats012_set.
  - intros name d Hd. apply elem_of_list_to_map_2 in Hd. unfold entries in Hd. cbn in Hd.
    repeat (apply elem_of_cons in Hd as [[= _ ->]|Hd]; [cbn; lia|]). by apply elem_of_nil in Hd.
Qed.

(** a policy with one category whose level has the bit after it, and a context
    of that level *)
Definition bad_level : mls_level := MlsLevel 1 (Ebitmap [Node 0 2] 64).
Definition bad_policy : policydb :=
  Policydb 0 30 1 empty_symtab empty_symtab empty_symtab empty_symtab empty_symtab
    (Symtab (Some (Hashtab [[("s0"%string, LevelDatum bad_level 0 1)]] 1 1)) 1)
    (Symtab (Some (Hashtab [[("c0"%string, CatDatum 1 0)]] 1 1)) 1) [Some "s0"%string] [Some "c0"%string]
    [] [] [] [] [] [] [] [] empty_avtab empty_avtab [] [] [] [] [] [] [] (Ebitmap [] 0)
    [] (replicate OCON_NUM []) [].
Definition bad_con : context_struct := Context 1 OBJECT_R_VAL 1 (MlsRange bad_level bad_level).
End ExampleMls.

(** ** Properties *)

(** for a policy that names what the levels mention, the length computed
    first is that of the text written after it, so [mls_to_string] fills its
    buffer exactly; it fails only for want of memory. *)
Theorem mls_to_string_fits `{Target} p n c h :
  mls p ≠ 0 → level_named p n (low_level (c_range c)) → level_named p n (high_level (c_range c)) → cats_named p n →
  (∀ text h', mls_sid_to_context p c h = Some (text, h') → strlen text < 2 ^ 31 - 1) →
  ∃ rest, mls_sid_to_context p c h = Some (String colon rest, h) ∧
    mls_compute_context_len p c h = Some (strlen (String colon rest), h) ∧
    wp (mls_to_string p c) (λ '(rc, s) h', mem_step h h' (rc = STATUS_SUCCESS) ∧
      (rc = STATUS_SUCCESS ∧ s = Some rest ∨ rc = STATUS_ERR ∧ s = None)) h.
Proof. apply mls_to_string_wp. Qed.

(** witness of [mls_to_string_fits]: the text "s0-s1:c0.c2" *)
Lemma mls_to_string_fits_witness :
  let T := target_arm in let p := ExampleMls.policy in let c := ExampleMls.con in
  ∃ rest, mls_sid_to_context p c fresh_heap = Some (String colon rest, fresh_heap) ∧
    mls_compute_context_len p c fresh_heap = Some (strlen (String colon rest), fresh_heap) ∧
    wp (mls_to_string p c) (λ '(rc, s) h', mem_step fresh_heap h' (rc = STATUS_SUCCESS) ∧
      (rc = STATUS_SUCCESS ∧ s = Some rest ∨ rc = STATUS_ERR ∧ s = None)) fresh_heap.
Proof.
  apply (@mls_to_string_fits target_arm ExampleMls.policy 3 ExampleMls.con fresh_heap).
  - discriminate.
  - apply ExampleMls.s0_named.
  - apply ExampleMls.s1_named.
  - apply ExampleMls.names3.
  - intros text h' Ht. vm_compute in Ht. by injection Ht as <- _.
Defined.

(** C25: the range [mls_setup_user_range] gives a user is an interval inside
    the clearance of the user and below that of the context the user comes
    from; nothing else of the context changes. *)
Theorem mls_setup_user_range_secure from u con m :
  m ≠ 0 → range_wf (c_range from) → range_wf (user_exp_range u) → level_wf (user_exp_dfltlevel u) →
  level_le (low_level (c_range from)) (high_level (c_range from)) →
  level_le (low_level (user_exp_range u)) (user_exp_dfltlevel u) →
  level_le (user_exp_dfltlevel u) (high_level (user_exp_range u)) →
  let '(rc, con') := mls_setup_user_range from u con m in
  let r := c_range con' in
  rc = 0 ∧ level_le (low_level r) (high_level r) ∧
    level_le (low_level (user_exp_range u)) (low_level r) ∧ level_le (high_level r) (high_level (user_exp_range u)) ∧
    level_le (high_level r) (high_level (c_range from)) ∧
    c_user con' = c_user con ∧ c_role con' = c_role con ∧ c_type con' = c_type con
  ∨ rc = - EINVAL.
Proof. apply mls_setup_user_range_spec. Qed.

(** witness of C25 *)
Lemma mls_setup_user_range_secure_witness :
  let from := ExampleMls.con in let u := ExampleMls.user in
  let '(rc, con') := mls_setup_user_range from u context_init 1 in
  let r := c_range con' in
  rc = 0 ∧ level_le (low_level r) (high_level r) ∧
    level_le (low_level (user_exp_range u)) (low_level r) ∧ level_le (high_level r) (high_level (user_exp_range u)) ∧
    level_le (high_level r) (high_level (c_range from)) ∧
    c_user con' = c_user context_init ∧ c_role con' = c_role context_init ∧ c_type con' = c_type context_init
  ∨ rc = - EINVAL.
Proof.
  pose proof ExampleMls.s0_wf. pose proof ExampleMls.s1_wf.
  apply (mls_setup_user_range_secure ExampleMls.con ExampleMls.user context_init 1); try done; split; (done || set_solver).
Defined.

(** C24: [mls_context_isvalid] accepts every context whose MLS fields are
    valid: ordered levels, known sensitivities that have the categories, and a
    user who is cleared for the range unless the role is that of objects.  What
    it accepts is valid in a policy with one category more, and so valid when
    the levels of the policy name no category that does not exist. *)
Theorem mls_context_isvalid_exact `{Target} p tl c h :
  mls_tables p tl → mls p ≠ 0 → context_wf c → 0 ≤ sens (low_level (c_range c)) → 0 ≤ sens (high_level (c_range c)) →
  0 ≤ c_user c →
  wp (mls_context_isvalid p c) (λ b h', h' = h ∧ (mls_valid p tl c → b = true) ∧
    (b = true ↔ mls_among (nprim (p_cats p) + 1) p tl c) ∧
    (levels_known p tl → (b = true ↔ mls_valid p tl c))) h.
Proof.
  intros. eapply wp_mono; [by apply mls_context_isvalid_wp|]. intros b h' [-> Hb]. split_and!; [done| |done|].
  - intros Hv. by apply Hb, mls_valid_accepted.
  - intros Hk. rewrite Hb. split; [by apply mls_accepted_valid|by apply mls_valid_accepted].
Qed.

(** witness of C24 *)
Lemma mls_context_isvalid_exact_witness :
  let p := ExampleMls.policy in let tl := ExampleMls.levels in let c := ExampleMls.con in
  wp (@mls_context_isvalid target_arm p c)
    (λ b h', h' = fresh_heap ∧ (mls_valid p tl c → b = true) ∧ (b = true ↔ mls_among (nprim (p_cats p) + 1) p tl c) ∧
      (levels_known p tl → (b = true ↔ mls_valid p tl c))) fresh_heap.
Proof.
  apply (@mls_context_isvalid_exact target_arm ExampleMls.policy ExampleMls.levels ExampleMls.con fresh_heap); try done.
  - apply ExampleMls.policy_tables.
  - split; [apply ExampleMls.s0_wf|apply ExampleMls.s1_wf].
Defined.

(** [mls_compute_sid] gives the new context the range of the first
    matching range transition, that of the source (processes) or its low level,
    or for members that of the target; it fails only for want of memory or on
    an unknown kind of rule. *)
Theorem mls_compute_sid_correct `{Target} p sc tc tclass spec nc h :
  mls p ≠ 0 →
  wp (mls_compute_sid p sc tc tclass spec nc) (λ '(rc, nc') h', mem_step h h' (rc ≠ - ENOMEM) ∧
    match new_range p sc tc tclass spec nc with
    | Some r => rc = 0 ∧ nc' = with_range nc r ∨ rc = - ENOMEM
    | None => rc = - EINVAL ∧ nc' = nc
    end) h.
Proof. apply mls_compute_sid_wp. Qed.

(** witness of [mls_compute_sid_correct] *)
Lemma mls_compute_sid_correct_witness :
  let T := target_arm in let p := ExampleMls.policy in let c := ExampleMls.con in let t := Context 1 2 6 (c_range c) in
  wp (mls_compute_sid p c t SECCLASS_PROCESS AVTAB_TRANSITION t) (λ '(rc, nc') h', mem_step fresh_heap h' (rc ≠ - ENOMEM) ∧
    match new_range p c t SECCLASS_PROCESS AVTAB_TRANSITION t with
    | Some r => rc = 0 ∧ nc' = with_range t r ∨ rc = - ENOMEM
    | None => rc = - EINVAL ∧ nc' = t
    end) fresh_heap.
Proof.
  apply (@mls_compute_sid_correct target_arm ExampleMls.policy ExampleMls.con
    (Context 1 2 6 (c_range ExampleMls.con)) SECCLASS_PROCESS AVTAB_TRANSITION
    (Context 1 2 6 (c_range ExampleMls.con)) fresh_heap). discriminate.
Defined.

(** [mls_convert_context] gives both levels the values the new policy has
    for their names, and fails only when the new policy does not know a
    sensitivity or category of them, or for want of memory. *)
Theorem mls_convert_context_correct `{Target} oldp newp tl tc c h :
  table (p_levels newp) = Some tl → hashtab_ok tl → table (p_cats newp) = Some tc → hashtab_ok tc →
  mls oldp ≠ 0 → context_wf c →
  is_Some (at_val (p_sens_val_to_name oldp) (sens (low_level (c_range c)))) →
  is_Some (at_val (p_sens_val_to_name oldp) (sens (high_level (c_range c)))) →
  convertible oldp (hashtab_map_of tc)
    (ebitmap_set (cat (low_level (c_range c))) ∪ ebitmap_set (cat (high_level (c_range c)))) →
  let known lev lev' := level_converted oldp (hashtab_map_of tl) (hashtab_map_of tc) lev lev' in
  let unknown lev := level_unknown oldp (hashtab_map_of tl) (hashtab_map_of tc) lev in
  wp (mls_convert_context oldp newp c) (λ '(rc, c') h', (mem_ok h → mem_ok h' ∧ rc ≠ - ENOMEM) ∧
    (rc = 0 ∧ c' = with_range c (c_range c') ∧ known (low_level (c_range c)) (low_level (c_range c')) ∧
       known (high_level (c_range c)) (high_level (c_range c'))
     ∨ rc = - EINVAL ∧ (unknown (low_level (c_range c)) ∨ unknown (high_level (c_range c)))
     ∨ rc = - ENOMEM)) h.
Proof. apply mls_convert_context_wp. Qed.

(** witness of [mls_convert_context_correct]: into the same policy *)
Lemma mls_convert_context_correct_witness :
  let T := target_arm in let p := ExampleMls.policy in let c := ExampleMls.con in
  let known lev lev' := level_converted p (hashtab_map_of ExampleMls.levels) (hashtab_map_of ExampleMls.cats) lev lev' in
  let unknown lev := level_unknown p (hashtab_map_of ExampleMls.levels) (hashtab_map_of ExampleMls.cats) lev in
  wp (mls_convert_context p p c) (λ '(rc, c') h', (mem_ok fresh_heap → mem_ok h' ∧ rc ≠ - ENOMEM) ∧
    (rc = 0 ∧ c' = with_range c (c_range c') ∧ known (low_level (c_range c)) (low_level (c_range c')) ∧
       known (high_level (c_range c)) (high_level (c_range c'))
     ∨ rc = - EINVAL ∧ (unknown (low_level (c_range c)) ∨ unknown (high_level (c_range c)))
     ∨ rc = - ENOMEM)) fresh_heap.
Proof.
  apply (@mls_convert_context_correct target_arm ExampleMls.policy ExampleMls.policy ExampleMls.levels ExampleMls.cats
    ExampleMls.con fresh_heap); try done.
  - apply ExampleMls.levels_ok.
  - apply ExampleMls.cats_ok.
  - split; [apply ExampleMls.s0_wf|apply ExampleMls.s1_wf].
  - apply ExampleMls.convertible_cats.
Defined.

(** [mls_context_isvalid] lets a category through that is one past the
    last of the policy (it tests [i > nprim] of an index from 0) when the level
    of the policy has it; printing such a context reads past the names. *)
Theorem mls_context_isvalid_off_by_one `{Target} h :
  ∃ p c, mls_context_isvalid p c h = Some (true, h) ∧ nprim (p_cats p) = 1 ∧
    Z.of_nat (length (p_cat_val_to_name p)) = 1 ∧ 1 ∈ ebitmap_set (cat (high_level (c_range c))) ∧
    mls_sid_to_context p c h = None.
Proof.
  exists ExampleMls.bad_policy, ExampleMls.bad_con. split_and!; [|done|done|vm_compute; tauto|done].
  destruct H as [b [] [-> | ->]]; vm_compute; reflexivity.
Qed.
