(* ===== verification/MlsText.v ===== *)
(** * The text of MLS fields read back ([mls_sid_to_context] and
    [mls_context_to_sid] of [mls.c])

    The printer shows the categories as elements "c" and "c.c"; the parser sets
    them again.  The two agree when no run of categories is carried over a gap
    between two nodes of the bitmap; otherwise the printer writes a wrong
    text. *)

From S2P Require Import Prelude Hashtab Symtab Ebitmap Context Policydb Mls.
From stdpp Require Import pretty.
From Stdlib Require Import Ascii.
#[local] Open Scope Z_scope.

(** ** The elements of the text *)

Definition cname (p : policydb) (i : Z) : string := default EmptyString (cat_name p i).
(** an interval of categories: "c" when it is one, "c.c" otherwise *)
Definition elem_text (p : policydb) (x : Z * Z) : string :=
  if x.1 =? x.2 then cname p x.1 else cname p x.1 +:+ String dot (cname p x.2).
Fixpoint more_text (p : policydb) (E : list (Z * Z)) : string :=
  match E with [] => EmptyString | x :: E => String comma (elem_text p x +:+ more_text p E) end.
Definition cats_text (p : policydb) (E : list (Z * Z)) : string :=
  match E with [] => EmptyString | x :: E => String colon (elem_text p x +:+ more_text p E) end.
Definition in_elems (E : list (Z * Z)) (j : Z) : Prop := ∃ x, x ∈ E ∧ x.1 ≤ j ≤ x.2.

(** no run goes on over a gap: the last position before a gap is not set *)
Definition no_bridge (e : ebitmap) : Prop :=
  ∀ m m', gap (node e) m m' → nodes_bit (node e) (startbit m + 63) = false.

Section printing.
Context `{Target} (p : policydb).
Implicit Types (E : list (Z * Z)).

Lemma more_text_app E E' : more_text p (E ++ E') = more_text p E +:+ more_text p E'.
Proof.
  induction E as [|x E IH]; [done|]. cbn [app more_text]. rewrite IH.
  change (String comma (elem_text p x +:+ (more_text p E +:+ more_text p E')) =
    String comma ((elem_text p x +:+ more_text p E) +:+ more_text p E')). by rewrite string_app_assoc.
Qed.
(** adding an element at the end *)
Lemma cats_text_snoc E x :
  cats_text p (E ++ [x]) = cats_text p E +:+ String (if bool_decide (E = []) then colon else comma) (elem_text p x).
Proof.
  destruct E as [|y E]; [cbn; by rewrite string_app_nil|]. rewrite bool_decide_eq_false_2 by done.
  cbn [app cats_text]. rewrite more_text_app. cbn [more_text]. rewrite string_app_nil.
  change (String colon (elem_text p y +:+ (more_text p E +:+ String comma (elem_text p x))) =
    String colon ((elem_text p y +:+ more_text p E) +:+ String comma (elem_text p x))). by rewrite string_app_assoc.
Qed.
(** widening the last element *)
Lemma cats_text_widen E lo hi : lo < hi →
  cats_text p (E ++ [(lo, hi)]) = cats_text p (E ++ [(lo, lo)]) +:+ String dot (cname p hi).
Proof.
  intros Hlt. rewrite !cats_text_snoc, string_app_assoc. do 2 f_equal. unfold elem_text. cbn [fst snd].
  by rewrite Z.eqb_refl, (proj2 (Z.eqb_neq lo hi)) by lia.
Qed.

(** the elements [E] of the positions before [i], the last of them the start of
    a run of [range] *)
Record printed (e : ebitmap) (i : Z) E (range : Z) : Prop := {
  pr_range : 0 ≤ range ≤ i;
  pr_all : Forall (λ x, 0 ≤ x.1 ≤ x.2 ∧ nodes_bit (node e) x.1 = true ∧ nodes_bit (node e) x.2 = true) E;
  pr_run j : i - range ≤ j < i → nodes_bit (node e) j = true;
  pr_set j : in_elems E j ∨ i - range ≤ j < i ↔ nodes_bit (node e) j = true ∧ j < i;
  pr_last : range = 0 ∨ ∃ E0, E = E0 ++ [(i - range, i - range)]
}.

(** the end of a run *)
Definition close_run (p : policydb) E (i range : Z) : list (Z * Z) :=
  if 1 <? range then
    if 2 <? range then removelast E ++ [(i - range, i - 1)] else E ++ [(i - 1, i - 1)]
  else E.
Lemma in_elems_app E E' j : in_elems (E ++ E') j ↔ in_elems E j ∨ in_elems E' j.
Proof. unfold in_elems. setoid_rewrite elem_of_app. naive_solver. Qed.
Lemma in_elems_one lo hi j : in_elems [(lo, hi)] j ↔ lo ≤ j ≤ hi.
Proof. unfold in_elems. setoid_rewrite list_elem_of_singleton. naive_solver. Qed.

Lemma printed_close e i E range :
  printed e i E range → printed e i (close_run p E i range) 0 ∧
  cats_text p (close_run p E i range) = cats_text p E +:+
    (if 1 <? range then String (if 2 <? range then dot else comma) (cname p (i - 1)) else EmptyString) ∧
  (close_run p E i range = [] ↔ E = []).
Proof.
  intros [Hr Hall Hrun Hset HE]. unfold close_run. destruct (Z.ltb_spec 1 range) as [Hgt|Hle]; cycle 1.
  { rewrite string_app_nil. refine (conj _ (conj eq_refl (iff_refl _))). constructor; try done; try lia.
    intros j. rewrite <- Hset. split; [intros [?|?]; [by left|lia]|]. intros [?|?]; [by left|].
    destruct HE as [->|[E0 ->]]; [lia|]. left. apply in_elems_app. right. apply in_elems_one. lia. }
  destruct HE as [->|[E0 ->]]; [lia|]. rewrite Forall_app in Hall. destruct Hall as [Hall0 Hlast].
  assert (Hb : nodes_bit (node e) (i - 1) = true) by (apply Hrun; lia).
  assert (Hb' : nodes_bit (node e) (i - range) = true) by (apply Hrun; lia).
  destruct (Z.ltb_spec 2 range) as [Hgt2|Hle2].
  - rewrite removelast_last. refine (conj _ (conj _ _)); [|by rewrite cats_text_widen by lia|by destruct E0].
    constructor; try lia.
    + apply Forall_app. split; [done|]. constructor; [|done]. cbn. split_and!; (lia || done).
    + intros j. rewrite <- Hset, !in_elems_app, !in_elems_one. split; [intros [[?|?]|?]; (tauto || lia || right; lia)|].
      intros [[?|?]|?]; [by left; left|left; right; lia|left; right; lia].
  - assert (range = 2) as -> by lia. refine (conj _ (conj _ _)); [| |by destruct E0].
    + constructor; try lia.
      * apply Forall_app. split; [by apply Forall_app|]. constructor; [|done]. cbn. split_and!; (lia || done).
      * intros j. rewrite <- Hset, !in_elems_app, !in_elems_one.
        split; [intros [[[?|?]|?]|?]; (tauto || lia || right; lia)|].
        intros [[?|?]|?]; [by left; left; left|left; left; right; lia|].
        destruct (decide (j = i - 1)); [left; right; lia|left; left; right; lia].
    + rewrite (cats_text_snoc (E0 ++ _)), bool_decide_eq_false_2 by (by destruct E0). unfold elem_text.
      cbn [fst snd]. by rewrite Z.eqb_refl.
Qed.
End printing.

Section level.
Context `{Target} (p : policydb).
Implicit Types (E : list (Z * Z)).

Lemma cat_name_cname i : is_Some (cat_name p i) → cat_name p i = Some (cname p i).
Proof. intros [nm Hnm]. unfold cname. by rewrite Hnm. Qed.

(** a member extends the run or starts one *)
Lemma printed_bit e i E range :
  0 ≤ i → printed e i E range → nodes_bit (node e) i = true →
  printed e (i + 1) (if range =? 0 then E ++ [(i, i)] else E) (range + 1).
Proof.
  intros Hi [Hr Hall Hrun Hset HE] Hb. constructor; [lia| | | |].
  - destruct (range =? 0); [|done]. apply Forall_app. split; [done|]. constructor; [|done]. cbn. split_and!; (lia || done).
  - intros j Hj. destruct (decide (j = i)) as [->|]; [done|]. apply Hrun. lia.
  - intros j. replace (i + 1 - (range + 1)) with (i - range) by lia.
    assert (nodes_bit (node e) j = true ∧ j < i + 1 ↔ (nodes_bit (node e) j = true ∧ j < i) ∨ j = i) as ->.
    { split; [intros [??]; destruct (decide (j = i)); [by right|left; split; [done|lia]]|].
      intros [[??]| ->]; (split; [done|lia]). }
    rewrite <- Hset. assert (in_elems (if range =? 0 then E ++ [(i, i)] else E) j ↔ in_elems E j ∨ (range = 0 ∧ j = i)) as ->.
    { destruct (Z.eqb_spec range 0); [rewrite in_elems_app, in_elems_one|]; intuition lia. }
    assert (i - range ≤ j < i + 1 ↔ i - range ≤ j < i ∨ j = i) as -> by lia. clear. intuition.
  - right. destruct (Z.eqb_spec range 0) as [->|Hne].
    + exists E. by replace (i + 1 - (0 + 1)) with i by lia.
    + destruct HE as [?|[E0 ->]]; [done|]. exists E0. by replace (i + 1 - (range + 1)) with (i - range) by lia.
Qed.
(** a position that is not a member, after the run is closed *)
Lemma printed_skip e i i' E :
  i ≤ i' → printed e i E 0 → (∀ j, i ≤ j < i' → nodes_bit (node e) j = false) → printed e i' E 0.
Proof.
  intros Hle [Hr Hall Hrun Hset HE] Hno. constructor; [lia|done|intros; lia| |by left].
  intros j. assert (nodes_bit (node e) j = true ∧ j < i' ↔ nodes_bit (node e) j = true ∧ j < i) as ->.
  { split; [|intros [??]; split; [done|lia]]. intros [Hj ?]. split; [done|].
    destruct (Z.lt_ge_cases j i); [done|]. by rewrite Hno in Hj by lia. }
  rewrite <- Hset. split; (intros [?|?]; [by left|lia]).
Qed.

(** the state of the printer at position [i], after the text [pre] *)
Definition shown (e : ebitmap) (pre : string) (i : Z) (st : string * Z * bool) : Prop :=
  let '(t, range, sep) := st in
  ∃ E, printed e i E range ∧ t = pre +:+ cats_text p E ∧ sep = negb (bool_decide (E = [])).

Lemma cat_text_step_shown n e pre i st h :
  ebitmap_wf e → (∀ j, nodes_bit (node e) j = true → j < n) → cats_named p n →
  ebitmap_startbit e ≤ i < highbit e → shown e pre i st →
  wp (cat_text_step p (nodes_bit (node e) i) i st) (λ r h', h' = h ∧ match r with
    | inr st' => shown e pre (i + 1) st' | inl _ => False end) h.
Proof.
  intros Hw Hmem Hcats Hi. destruct st as [[t range] sep]. intros (E&Hpr&->&->). unfold cat_text_step.
  pose proof (ebitmap_startbit_range _ Hw). pose proof (ebitmap_highbit_range _ Hw). pose proof (pr_range _ _ _ _ Hpr).
  assert (u32 (range + 1) = range + 1) as Hu by (apply (wrap_id 32); lia).
  destruct (nodes_bit (node e) i) eqn:Eb.
  - pose proof (printed_bit e i E range ltac:(lia) Hpr Eb) as Hpr'. rewrite Hu. unfold truth.
    destruct (Z.eqb_spec range 0) as [->|]; cbn [negb]; [|apply wp_ret; split; [done|]; exists E; by split_and!].
    eapply wp_bind, wp_deref; [apply cat_name_cname, Hcats; specialize (Hmem _ Eb); lia|].
    apply wp_ret. split; [done|]. exists (E ++ [(i, i)]). split_and!; [done| |by destruct E].
    rewrite cats_text_snoc, string_app_assoc. do 3 f_equal; [by destruct E|]. unfold elem_text. cbn. by rewrite Z.eqb_refl.
  - destruct (printed_close p _ _ _ _ Hpr) as (Hpc&Htc&Hnil).
    assert (shown e pre (i + 1) ((pre +:+ cats_text p E) +:+
      (if 1 <? range then String (if 2 <? range then dot else comma) (cname p (i - 1)) else EmptyString),
      0, negb (bool_decide (E = [])))) as Hsh.
    { exists (close_run p E i range). split_and!; [|by rewrite Htc, string_app_assoc|f_equal; by apply bool_decide_ext].
      eapply printed_skip; [|done|]; [lia|]. intros j Hj. by replace j with i by lia. }
    destruct (Z.ltb_spec 1 range) as [Hlt|]; [|apply wp_ret; split; [done|]; by rewrite string_app_nil in Hsh].
    eapply wp_bind, wp_deref; [|by apply wp_ret].
    assert (nodes_bit (node e) (i - 1) = true) as Hb1 by (apply (pr_run _ _ _ _ Hpr); lia).
    apply cat_name_cname, Hcats. specialize (Hmem _ Hb1). lia.
Qed.
Lemma shown_gap e pre m m' st :
  ebitmap_wf e → no_bridge e → gap (node e) m m' → shown e pre (startbit m + 64) st → shown e pre (startbit m') st.
Proof.
  intros Hw Hnb Hg. destruct st as [[t range] sep]. intros (E&Hpr&->&->). exists E. split_and!; try done.
  pose proof (Hnb _ _ Hg) as Hlast. destruct (gap_member _ _ _ Hw Hg) as [Hm0 _].
  assert (range = 0) as ->.
  { pose proof (pr_range _ _ _ _ Hpr). destruct (decide (range = 0)) as [|Hne]; [done|].
    rewrite (pr_run _ _ _ _ Hpr) in Hlast by lia. done. }
  pose proof Hg as [_ Hlt]. eapply printed_skip; [|done|]; [lia|]. intros j Hj. by eapply gap_clear.
Qed.
Lemma shown_start e pre : ebitmap_wf e → shown e pre (ebitmap_startbit e) (pre, 0, false).
Proof.
  intros Hw. exists []. pose proof (ebitmap_startbit_range _ Hw). split_and!; [|by rewrite string_app_nil|done].
  constructor; [lia|constructor|intros; lia| |by left]. intros j. split.
  - intros [(x&Hx&_)|?]; [by apply elem_of_nil in Hx|lia].
  - intros [Hj ?]. apply nodes_bit_startbit in Hj; [lia|done].
Qed.

Lemma level_text_elems n lev text h :
  level_named p n lev → cats_named p n → no_bridge (cat lev) →
  ∃ name E, at_val (p_sens_val_to_name p) (sens lev) = Some name ∧
    level_text p lev text h = Some (text +:+ name +:+ cats_text p E, h) ∧
    (∀ j, in_elems E j ↔ j ∈ ebitmap_set (cat lev)) ∧ Forall (λ x, 0 ≤ x.1 ≤ x.2 ∧ x.2 < n) E.
Proof.
  intros (Hw&[name Hname]&Hmem) Hcats Hnb. exists name.
  assert (wp (ebitmap_for_each_bit (cat lev) (cat_text_step p) (text +:+ name, 0, false)) (λ r h', h' = h ∧ match r with
    | inr (st, i) => i = highbit (cat lev) ∧ shown (cat lev) (text +:+ name) i st
    | inl _ => False end) h) as Hwp.
  { apply (wp_ebitmap_for_each_bit (λ i st h', h' = h ∧ shown (cat lev) (text +:+ name) i st)); [done| | | |].
    - split; [done|by apply shown_start].
    - intros i st h' Hi [-> Hsh]. eapply wp_mono; [by eapply (cat_text_step_shown n)|]. intros [[]|st'] h' [-> ?]; done.
    - intros m m' st h' Hg [-> Hsh]. split; [done|]. by eapply shown_gap.
    - intros st h' [-> Hsh]. done. }
  apply wp_run in Hwp as ([[]|[[[t range] sep] i]]&h'&Hrun&->&Hi); [done|]. destruct Hi as (->&E&Hpr&->&_).
  destruct (printed_close p _ _ _ _ Hpr) as (Hpc&Htc&_). exists (close_run p E (highbit (cat lev)) range).
  split; [done|]. rewrite Htc. split.
  { unfold level_text, mbind, CM_bind. rewrite Hname. cbn [deref mret CM_ret]. rewrite Hrun.
    destruct (Z.ltb_spec 1 range) as [Hlt|]; [|by rewrite string_app_nil, !string_app_assoc].
    assert (nodes_bit (node (cat lev)) (highbit (cat lev) - 1) = true) as Hb1 by (apply (pr_run _ _ _ _ Hpr); lia).
    pose proof (pr_range _ _ _ _ Hpr). specialize (Hmem _ Hb1).
    rewrite cat_name_cname by (apply Hcats; lia). cbn [deref mret CM_ret]. by rewrite !string_app_assoc. }
  split.
  - intros j. rewrite elem_of_ebitmap_set by done. pose proof (pr_set _ _ _ _ Hpc j) as Hs. split.
    + intros Hin. by destruct (proj1 Hs (or_introl Hin)).
    + intros Hb. pose proof (nodes_bit_range _ _ Hw Hb). destruct (proj2 Hs) as [|?]; [by split; [|lia]|done|lia].
  - eapply Forall_impl; [apply (pr_all _ _ _ _ Hpc)|]. intros x (?&_&Hb). split; [done|]. by apply Hmem.
Qed.
End level.

(** ** Reading the text *)

(** no character of [s] is in [stop] *)
Fixpoint avoids (stop : list ascii) (s : string) : Prop :=
  match s with EmptyString => True | String c s => c ∉ stop ∧ avoids stop s end.
(** a name the text can hold: it has no separator *)
Definition clean (s : string) : Prop := avoids [colon; dash; comma; dot] s.
(** the names of the policy lead back to their values *)
Record text_tables (p : policydb) (n : Z) (tl : hashtab string level_datum) (tc : hashtab string cat_datum) : Prop := {
  tt_range : 0 ≤ n ≤ 2 ^ 31;
  tt_levels : table (p_levels p) = Some tl;
  tt_levels_ok `{Target} : hashtab_ok tl;
  tt_cats : table (p_cats p) = Some tc;
  tt_cats_ok `{Target} : hashtab_ok tc;
  tt_sens s name : at_val (p_sens_val_to_name p) s = Some name →
    clean name ∧ ∃ d, hashtab_map_of tl !! name = Some d ∧ sens (ld_level d) = s;
  tt_cat i : 0 ≤ i < n → ∃ name d, cat_name p i = Some name ∧ clean name ∧
    hashtab_map_of tc !! name = Some d ∧ cat_value d = i + 1
}.
(** what [scan] returns at the end of a token *)
Definition at_stop (tok tail : string) : string * option ascii * string :=
  match tail with EmptyString => (tok, None, EmptyString) | String c r => (tok, Some c, r) end.

Lemma scan_token stop tok tail :
  avoids stop tok → match tail with String c _ => c ∈ stop | EmptyString => True end →
  scan stop (tok +:+ tail) = at_stop tok tail.
Proof.
  intros Ha Ht. induction tok as [|c tok IH].
  - destruct tail as [|c r]; [done|]. change (EmptyString +:+ String c r) with (String c r).
    cbn [scan]. by rewrite bool_decide_eq_true_2.
  - destruct Ha as [Hc Ha]. change (String c tok +:+ tail) with (String c (tok +:+ tail)). cbn [scan].
    rewrite bool_decide_eq_false_2, IH by done. by destruct tail.
Qed.
Lemma avoids_app stop a b : avoids stop (a +:+ b) ↔ avoids stop a ∧ avoids stop b.
Proof.
  induction a as [|c a IH]; [by cbn; intuition|]. change (String c a +:+ b) with (String c (a +:+ b)).
  cbn [avoids]. rewrite IH. intuition.
Qed.
Lemma avoids_sub stop stop' s : (∀ c, c ∈ stop' → c ∈ stop) → avoids stop s → avoids stop' s.
Proof. intros Hs. induction s as [|c s IH]; [done|]. cbn. intros [Hc Ha]. split; [intros Hx; by apply Hc, Hs|by apply IH]. Qed.
Lemma clean_avoids s stop : clean s → (∀ c, c ∈ stop → c ∈ [colon; dash; comma; dot]) → avoids stop s.
Proof. intros Hc Hs. by apply (avoids_sub _ _ _ Hs). Qed.
Ltac stops := intros ?; rewrite !elem_of_cons, elem_of_nil; tauto.

Section parsing.
Context `{Target} (p : policydb) (n : Z) (tl : hashtab string level_datum) (tc : hashtab string cat_datum).
Context (Ht : text_tables p n tl tc).
Implicit Types (E : list (Z * Z)).

Lemma cname_cat i : 0 ≤ i < n → clean (cname p i) ∧
  ∃ d, hashtab_map_of tc !! cname p i = Some d ∧ cat_value d = i + 1.
Proof. intros Hi. destruct (tt_cat _ _ _ _ Ht i Hi) as (nm&d&Hn&Hc&Hd&Hv). unfold cname. rewrite Hn. eauto. Qed.

(** the categories one element sets *)
Definition sets (x : ebitmap) (P : Z → Prop) (x' : ebitmap) : Prop :=
  ebitmap_wf x' ∧ ∀ j, j ∈ ebitmap_set x' ↔ j ∈ ebitmap_set x ∨ P j.

Lemma set_bit_sets x i h :
  ebitmap_wf x → 0 ≤ i < 2 ^ 31 →
  wp (ebitmap_set_bit x i 1) (λ '(rc, x') h', mem_step h h' (rc = 0) ∧
    (rc = 0 ∧ sets x (eq i) x' ∨ rc = - ENOMEM)) h.
Proof.
  intros Hw Hi. eapply wp_mono; [apply ebitmap_set_bit_wp; [done|lia]|].
  intros [rc x'] h' (Hm&Hw'&Hr). split; [done|]. destruct Hr as [[-> Hb]|[-> ->]]; [left|by right].
  split; [done|]. split; [done|]. intros j. rewrite !elem_of_ebitmap_set, Hb by done.
  destruct (Z.eqb_spec j i); intuition.
Qed.

Lemma parse_cat_wp lo hi x h :
  0 ≤ lo ≤ hi → hi < n → ebitmap_wf x →
  wp (parse_cat p (elem_text p (lo, hi)) x) (λ '(ok, x') h', mem_step h h' (ok = true) ∧
    (ok = true ∧ sets x (λ j, lo ≤ j ≤ hi) x' ∨ ok = false)) h.
Proof.
  intros Hlo Hhi Hw. destruct (cname_cat lo) as (Hcl&d&Hd&Hv); [lia|]. destruct (cname_cat hi) as (Hch&d'&Hd'&Hv'); [lia|].
  pose proof (tt_range _ _ _ _ Ht). unfold parse_cat, elem_text. cbn [fst snd].
  assert (Hu : u32 lo = lo) by (apply (wrap_id 32); lia).
  assert (Hfirst : wp (ebitmap_set_bit x (u32 (cat_value d - 1)) 1) (λ '(rc, x') h',
    mem_step h h' (rc = 0) ∧ (rc = 0 ∧ sets x (eq lo) x' ∨ rc = - ENOMEM)) h).
  { rewrite Hv, Z.add_simpl_r, Hu. apply set_bit_sets; [done|lia]. }
  destruct (Z.eqb_spec lo hi) as [<-|Hne].
  - rewrite <- (string_app_nil (cname p lo)), scan_token by (done || (apply clean_avoids; [done|stops])).
    cbn [at_stop]. rewrite (tt_cats _ _ _ _ Ht). apply wp_bind.
    eapply wp_mono; [apply hashtab_search_wp, (tt_cats_ok _ _ _ _ Ht)|]. intros r h' [-> ->]. rewrite Hd.
    apply wp_bind. eapply wp_mono; [exact Hfirst|]. intros [rc x'] h' [Hm [[-> Hs]| ->]].
    + apply wp_ret. split; [mem|left]. split; [done|]. destruct Hs as [? Hs]. split; [done|].
      intros j. rewrite Hs. intuition lia.
    + apply wp_ret. split; [intros Ho; by destruct (Hm Ho)|by right].
  - rewrite scan_token by ((apply clean_avoids; [done|stops]) || by left). cbn [at_stop].
    rewrite (tt_cats _ _ _ _ Ht). apply wp_bind.
    eapply wp_mono; [apply hashtab_search_wp, (tt_cats_ok _ _ _ _ Ht)|]. intros r h' [-> ->]. rewrite Hd.
    apply wp_bind. eapply wp_mono; [exact Hfirst|]. intros [rc x'] h' [Hm [[-> [Hw' Hs]]| ->]]; cycle 1.
    { apply wp_ret. split; [intros Ho; by destruct (Hm Ho)|by right]. }
    cbn [truth Z.eqb negb is_delim]. apply wp_bind.
    eapply wp_mono; [apply hashtab_search_wp, (tt_cats_ok _ _ _ _ Ht)|]. intros r h2 [-> ->]. rewrite Hd'.
    rewrite (proj2 (Z.leb_gt _ _)) by lia. apply wp_bind. rewrite Hv, Hv'.
    apply (wp_for_loop (λ i y h'', mem_step h h'' True ∧ sets x (λ j, lo ≤ j < i) y)).
    + split; [mem|]. split; [done|]. intros j. rewrite Hs. intuition lia.
    + intros i y h2 Hi (Hm2&Hwy&Hy). apply wp_bind. eapply wp_mono; [apply set_bit_sets; [done|lia]|].
      intros [rc y'] h3 [Hm3 [[-> [Hw3 Hs3]]| ->]]; apply wp_ret; cbn [truth Z.eqb negb].
      * split; [mem|]. split; [done|]. intros j. rewrite Hs3, Hy. intuition lia.
      * split; [intros Ho; destruct (Hm2 Ho) as [Ho' _]; by destruct (Hm3 Ho')|by right].
    + intros y h2 (Hm2&Hwy&Hy). apply wp_ret. split; [mem|left]. split; [done|]. split; [done|].
      intros j. rewrite Hy. intuition lia.
Qed.

(** the text after a level is nothing, or the dash before the other level *)
Definition ended (tail : string) : Prop := match tail with EmptyString => True | String c _ => c = dash end.
Lemma at_stop_tok tok tail : at_stop tok tail = (tok, (at_stop EmptyString tail).1.2, (at_stop EmptyString tail).2).
Proof. by destruct tail. Qed.
Lemma elem_text_avoids x : 0 ≤ x.1 < n → 0 ≤ x.2 < n → avoids [comma; dash] (elem_text p x).
Proof.
  intros H1 H2. unfold elem_text. destruct (cname_cat _ H1) as [Hc1 _], (cname_cat _ H2) as [Hc2 _].
  destruct (x.1 =? x.2); [apply clean_avoids; [done|stops]|]. apply avoids_app. split; [apply clean_avoids; [done|stops]|].
  split; [by rewrite !elem_of_cons, elem_of_nil; intros [|[|]]|]. apply clean_avoids; [done|stops].
Qed.
Definition elem_ok (x : Z * Z) : Prop := 0 ≤ x.1 ≤ x.2 ∧ x.2 < n.
Lemma string_app_length a b : String.length (a +:+ b) = (String.length a + String.length b)%nat.
Proof. induction a as [|c a IH]; [done|]. simpl in *. by rewrite IH. Qed.

Lemma parse_cats_wp E x tail fuel bm h :
  (String.length (elem_text p x +:+ more_text p E +:+ tail) < fuel)%nat → ended tail → Forall elem_ok (x :: E) →
  ebitmap_wf bm →
  wp (parse_cats fuel p (elem_text p x +:+ more_text p E +:+ tail) bm) (λ '(ok, bm', delim, rest) h',
    mem_step h h' (ok = true) ∧
    (ok = true ∧ sets bm (in_elems (x :: E)) bm' ∧ at_stop EmptyString tail = (EmptyString, delim, rest) ∨ ok = false)) h.
Proof.
  revert x fuel bm h. induction E as [|y E IH]; intros [lo hi] fuel bm h Hf Hend Hok Hw;
    (destruct fuel as [|fuel]; [lia|]); apply Forall_cons in Hok as [[Hx Hxn] Hok]; cbn [fst snd] in *; cbn [parse_cats].
  - rewrite scan_token; [|apply elem_text_avoids; cbn; lia|].
    2:{ cbn [more_text]. change (EmptyString +:+ tail) with tail. destruct tail as [|c r]; [done|]. cbn in Hend. subst c.
        right. by left. }
    rewrite at_stop_tok. cbn [more_text]. change (EmptyString +:+ tail) with tail. apply wp_bind.
    eapply wp_mono; [by apply parse_cat_wp|]. intros [ok bm'] h' [Hm [[-> [Hw' Hs]]| ->]]; cbn [negb]; cycle 1.
    { apply wp_ret. split; [intros Ho; by destruct (Hm Ho)|by right]. }
    assert (is_delim (at_stop EmptyString tail).1.2 comma = false) as ->.
    { destruct tail as [|c r]; [done|]. cbn in Hend. by subst c. }
    apply wp_ret. split; [done|left]. refine (conj eq_refl (conj (conj Hw' _) _)); [|by destruct tail].
    intros j. by rewrite Hs, in_elems_one.
  - change (more_text p (y :: E) +:+ tail) with (String comma ((elem_text p y +:+ more_text p E) +:+ tail)) in *.
    rewrite string_app_assoc in *. rewrite scan_token by ((apply elem_text_avoids; cbn; lia) || by left).
    cbn [at_stop]. apply wp_bind.
    eapply wp_mono; [by apply parse_cat_wp|]. intros [ok bm'] h' [Hm [[-> [Hw' Hs]]| ->]]; cbn [negb]; cycle 1.
    { apply wp_ret. split; [intros Ho; by destruct (Hm Ho)|by right]. }
    change (is_delim (Some comma) comma) with true. cbv iota.
    eapply wp_mono; [apply IH; [|done..]|].
    { rewrite string_app_length in Hf. cbn [String.length] in Hf. lia. }
    intros [[[ok bm2] delim] rest] h2 [Hm2 Hr]. split; [mem|]. destruct Hr as [(->&[Hw2 Hs2]&Hd)| ->]; [left|by right].
    refine (conj eq_refl (conj (conj Hw2 _) Hd)). intros j. rewrite Hs2, Hs. change ((lo, hi) :: y :: E) with ([(lo, hi)] ++ y :: E).
    rewrite in_elems_app, in_elems_one. tauto.
Qed.

Lemma parse_level_wp l s name E tail delim rest c h :
  at_val (p_sens_val_to_name p) s = Some name → Forall elem_ok E → ended tail → level_wf (get_level (c_range c) l) →
  at_stop name (cats_text p E +:+ tail) = (name, delim, rest) →
  wp (parse_level p l name delim rest c) (λ '(ok, c', delim, rest) h', mem_step h h' (ok = true) ∧
    (ok = true ∧ (∃ x, sets (cat (get_level (c_range c) l)) (in_elems E) x ∧ c' = with_level c l (MlsLevel s x)) ∧
       at_stop EmptyString tail = (EmptyString, delim, rest) ∨ ok = false)) h.
Proof.
  intros Hs HE Hend Hw Hat. destruct (tt_sens _ _ _ _ Ht _ _ Hs) as (_&d&Hd&Hds). unfold parse_level.
  rewrite (tt_levels _ _ _ _ Ht). apply wp_bind.
  eapply wp_mono; [apply hashtab_search_wp, (tt_levels_ok _ _ _ _ Ht)|]. intros r h' [-> ->]. rewrite Hd, Hds.
  destruct E as [|x E].
  - cbn [cats_text] in Hat. change (EmptyString +:+ tail) with tail in Hat.
    rewrite at_stop_tok in Hat. injection Hat as Hdl Hrs.
    assert (is_delim delim colon = false) as ->.
    { rewrite <- Hdl. destruct tail as [|c' r]; [done|]. cbn in Hend. by subst c'. }
    apply wp_ret. split; [mem|left]. split_and!; [done| |subst; by destruct tail].
    eexists. split; [|done]. split; [done|]. intros j. split; [by left|]. intros [?|(x&Hx&_)]; [done|by apply elem_of_nil in Hx].
  - change (cats_text p (x :: E) +:+ tail) with (String colon ((elem_text p x +:+ more_text p E) +:+ tail)) in Hat.
    rewrite string_app_assoc in Hat. cbn [at_stop] in Hat. injection Hat as <- <-.
    change (is_delim (Some colon) colon) with true. cbv iota. apply wp_bind.
    eapply wp_mono; [apply parse_cats_wp; [lia|done..]|]. intros [[[ok x'] delim] rest] h' [Hm Hr]. apply wp_ret.
    split; [done|]. destruct Hr as [(->&Hx&Hat)| ->]; [left|by right]. split_and!; [done| |done].
    exists x'. split; [done|]. unfold with_level, with_range, set_level. cbn. by destruct (l =? 0).
Qed.

(** the name and elements a level is printed as *)
Definition level_shown (name : string) E (lev : mls_level) : Prop :=
  at_val (p_sens_val_to_name p) (sens lev) = Some name ∧ level_wf lev ∧
  (∀ j, in_elems E j ↔ j ∈ ebitmap_set (cat lev)) ∧ Forall elem_ok E.
(** the text a range is printed as *)
Definition range_shown (s : string) (r : mls_range) : Prop :=
  ∃ name E tail, s = name +:+ cats_text p E +:+ tail ∧ level_shown name E (low_level r) ∧
    (tail = EmptyString ∧ low_level r = high_level r ∨
     ∃ name1 E1, tail = String dash (name1 +:+ cats_text p E1) ∧ level_shown name1 E1 (high_level r)).

Lemma sets_level name E lev x : level_shown name E lev → sets ebitmap_init (in_elems E) x → MlsLevel (sens lev) x = lev.
Proof.
  intros (_&Hw&Hel&_) [Hwx Hx]. assert (x = cat lev) as ->; [|by destruct lev].
  apply ebitmap_set_inj; [done..|]. apply set_eq. intros j. rewrite Hx, ebitmap_init_set, Hel. set_solver.
Qed.

Lemma shown_level_wp l name E lev tail delim rest c h :
  level_shown name E lev → ended tail → cat (get_level (c_range c) l) = ebitmap_init →
  at_stop name (cats_text p E +:+ tail) = (name, delim, rest) →
  wp (parse_level p l name delim rest c) (λ '(ok, c', delim, rest) h', mem_step h h' (ok = true) ∧
    (ok = true ∧ c' = with_level c l lev ∧ at_stop EmptyString tail = (EmptyString, delim, rest) ∨ ok = false)) h.
Proof.
  intros Hsh Hend Hc Hat. pose proof Hsh as (Hs&_&_&HE).
  eapply wp_mono; [eapply parse_level_wp; try done; unfold level_wf; rewrite Hc; apply ebitmap_init_wf|].
  intros [[[ok c'] delim'] rest'] h' [Hm Hr]. split; [done|]. destruct Hr as [(->&(x&Hx&->)&Ht')| ->]; [left|by right].
  rewrite Hc in Hx. split_and!; [done| |done]. by rewrite (sets_level _ _ _ _ Hsh Hx).
Qed.
(** the first token of the text of a level is its name *)
Lemma shown_scan stop name E lev tail :
  level_shown name E lev → colon ∈ stop → (∀ c, c ∈ stop → c ∈ [colon; dash; comma; dot]) →
  match tail with EmptyString => True | String c _ => c ∈ stop end →
  scan stop (name +:+ cats_text p E +:+ tail) = at_stop name (cats_text p E +:+ tail).
Proof.
  intros (Hs&_) Hcol Hst Htl. apply scan_token.
  - apply clean_avoids; [|done]. by destruct (tt_sens _ _ _ _ Ht _ _ Hs).
  - by destruct E.
Qed.

Lemma mls_from_string_wp s r c0 h :
  mls p ≠ 0 → range_shown s r → c_range c0 = mls_range_init →
  wp (mls_from_string p s c0) (λ '(rc, c) h', mem_step h h' (rc = STATUS_SUCCESS) ∧
    (rc = STATUS_SUCCESS ∧ c = with_range c0 r ∨ rc = STATUS_ERR)) h.
Proof.
  intros Hm (name&E&tail&->&Hsh&Htail) Hc0. unfold mls_from_string.
  wp_malloc a h1 M1; [|apply wp_ret; split; [intros Ho; by destruct (M1 Ho)|by right]].
  rewrite bool_decide_eq_false_2 by done.
  assert (wp (mls_context_to_sid p true (name +:+ cats_text p E +:+ tail) c0) (λ '(rc, c) h',
    mem_step h1 h' (rc = STATUS_SUCCESS) ∧ (rc = STATUS_SUCCESS ∧ c = with_range c0 r ∨ rc = STATUS_ERR)) h1) as Hwp; cycle 1.
  { apply wp_bind. eapply wp_mono; [exact Hwp|]. intros [rc c] h2 [M2 Hr].
    apply wp_ret. destruct Hr as [[-> ->]| ->]; (split; [mem|]); [by left|by right]. }
  clear M1 h a. rename h1 into h. unfold mls_context_to_sid. rewrite (proj2 (truth_true _) Hm). cbn [negb].
  assert (ended tail) as Hend by by destruct Htail as [[-> _]|(?&?&->&_)].
  rewrite (shown_scan _ _ _ _ _ Hsh); [|by left|stops|].
  2:{ destruct tail as [|c t]; [done|]. cbn in Hend. subst c. right. by left. }
  rewrite at_stop_tok. apply wp_bind.
  eapply wp_mono; [eapply shown_level_wp; [done|done|by rewrite Hc0|apply at_stop_tok]|].
  intros [[[ok c1] delim] rest] h1 [M1 Hr]. destruct Hr as [(->&->&Hat)| ->]; cbn [negb]; cycle 1.
  { apply wp_ret. split; [intros Ho; by destruct (M1 Ho)|by right]. }
  destruct Htail as [[-> Heq]|(name1&E1&->&Hsh1)].
  - injection Hat as <- <-. change (is_delim None dash) with false. cbv iota. apply wp_bind.
    eapply wp_mono; [apply mls_level_cpy_wp|]. intros [rc lev] h2 [M2 Hr]. apply wp_ret.
    destruct Hr as [[-> ->]|[-> ?]]; (split; [mem|]); [left|by right].
    split; [done|]. unfold with_level, with_range, set_level. cbn. destruct r as [lo hi]. cbn in *. by rewrite Heq.
  - injection Hat as <- <-. change (is_delim (Some dash) dash) with true. cbv iota.
    pose proof (shown_scan [colon] name1 E1 _ EmptyString Hsh1) as Hsc. rewrite !string_app_nil in Hsc.
    rewrite Hsc; [|by left|stops|done]. rewrite at_stop_tok. apply wp_bind.
    eapply wp_mono; [eapply (shown_level_wp 1 name1 E1 _ EmptyString); [done|done|unfold with_level, with_range; cbn; by rewrite Hc0|]|].
    { rewrite string_app_nil. apply at_stop_tok. }
    intros [[[ok c2] delim2] rest2] h2 [M2 Hr]. apply wp_ret. destruct Hr as [(->&->&_)| ->]; (split; [mem|]); [left|by right].
    split; [done|]. unfold with_level, with_range, set_level. cbn. by destruct r.
Qed.

Lemma mls_text_shown c h :
  mls p ≠ 0 → level_named p n (low_level (c_range c)) → level_named p n (high_level (c_range c)) → cats_named p n →
  no_bridge (cat (low_level (c_range c))) → no_bridge (cat (high_level (c_range c))) →
  ∃ rest, mls_sid_to_context p c h = Some (String colon rest, h) ∧ range_shown rest (c_range c).
Proof.
  intros Hm Hl Hh Hc Hb0 Hb1. unfold mls_sid_to_context. rewrite (proj2 (truth_true _) Hm). cbn [negb].
  destruct (level_text_elems p n _ (String colon EmptyString) h Hl Hc Hb0) as (name&E&Hn&Ht0&HE&HF).
  unfold mbind, CM_bind. rewrite Ht0.
  assert (level_shown name E (low_level (c_range c))) as Hsh by (split_and!; [done|apply Hl|done|]; done).
  destruct (mls_level_eq _ _) eqn:Eq.
  - apply mls_level_eq_true in Eq. exists (name +:+ cats_text p E). split; [done|].
    exists name, E, EmptyString. rewrite string_app_nil. split_and!; [done|done|by left].
  - destruct (level_text_elems p n _ ((String colon EmptyString +:+ name +:+ cats_text p E) +:+ String dash EmptyString) h
      Hh Hc Hb1) as (name1&E1&Hn1&Ht1&HE1&HF1). rewrite Ht1.
    exists (name +:+ cats_text p E +:+ String dash (name1 +:+ cats_text p E1)). split.
    + do 2 f_equal. rewrite !string_app_assoc. done.
    + exists name, E, (String dash (name1 +:+ cats_text p E1)). split_and!; [done|done|right].
      exists name1, E1. split; [done|]. split_and!; [done|apply Hh|done|done].
Qed.
End parsing.

(** ** Contexts of both directions *)

Section roundtrip.
Context `{Target} (p : policydb) (n : Z) (tl : hashtab string level_datum) (tc : hashtab string cat_datum).
Context (Ht : text_tables p n tl tc).

Lemma text_tables_named : cats_named p n.
Proof. intros i Hi. destruct (tt_cat _ _ _ _ Ht i Hi) as (nm&_&Hn&_). by exists nm. Qed.

(** what the printer can show: named levels, no run carried over a gap, and a
    text that is shorter than 2^31 - 1 *)
Record printable (c : context_struct) : Prop := {
  pb_low : level_named p n (low_level (c_range c));
  pb_high : level_named p n (high_level (c_range c));
  pb_low_gaps : no_bridge (cat (low_level (c_range c)));
  pb_high_gaps : no_bridge (cat (high_level (c_range c)));
  pb_short h text h' : mls_sid_to_context p c h = Some (text, h') → strlen text < 2 ^ 31 - 1
}.

Lemma mls_text_roundtrip_wp c c0 h :
  mls p ≠ 0 → printable c → c_range c0 = mls_range_init →
  wp ('(rc, s) ← mls_to_string p c; match s with Some s => mls_from_string p s c0 | None => mret (rc, c0) end)
    (λ '(rc, c') h', (mem_ok h → rc = STATUS_SUCCESS) ∧
       (rc = STATUS_SUCCESS ∧ c' = with_range c0 (c_range c) ∨ rc = STATUS_ERR)) h.
Proof.
  intros Hm [Hl Hh Hbl Hbh Hs] Hc0.
  destruct (mls_to_string_wp p n c h Hm Hl Hh text_tables_named (Hs h)) as (rest&Htx&_&Hw).
  destruct (mls_text_shown p n c h Hm Hl Hh text_tables_named Hbl Hbh) as (rest'&Htx'&Hsh).
  rewrite Htx in Htx'. injection Htx' as <-. apply wp_bind. eapply wp_mono; [exact Hw|].
  intros [rc s] h1 [M1 [[-> ->]|[-> ->]]]; [|apply wp_ret; split; [intros Ho; by destruct (M1 Ho)|by right]].
  eapply wp_mono; [by eapply (mls_from_string_wp p n)|]. intros [rc c'] h2 [M2 Hr]. split; [|done].
  intros Ho. destruct (M1 Ho) as [Ho' _]. by destruct (M2 Ho').
Qed.

(** whether call [k] of [malloc] fails *)
Definition alloc_fails (h : heap) (k : nat) : bool := bool_decide (h_oracle h !! k = Some false).

Lemma sepol_mls_contains_wp c1 c2 s1 s2 h :
  mls p ≠ 0 → printable c1 → printable c2 →
  mls_sid_to_context p c1 h = Some (String colon s1, h) → mls_sid_to_context p c2 h = Some (String colon s2, h) →
  if xorb (alloc_fails h 0) (alloc_fails h 1) then sepol_mls_contains p s1 s2 h = None
  else wp (sepol_mls_contains p s1 s2) (λ '(rc, ans) h', (mem_ok h → rc = STATUS_SUCCESS) ∧
    (rc = STATUS_SUCCESS ∧ ans = Some (mls_range_contains (c_range c1) (c_range c2)) ∨
     rc = STATUS_ERR ∧ ans = None)) h.
Proof.
  intros Hm [Hl1 Hh1 Hbl1 Hbh1 _] [Hl2 Hh2 Hbl2 Hbh2 _] Ht1 Ht2.
  destruct (mls_text_shown p n c1 h Hm Hl1 Hh1 text_tables_named Hbl1 Hbh1) as (r1&Hr1&Hsh1).
  destruct (mls_text_shown p n c2 h Hm Hl2 Hh2 text_tables_named Hbl2 Hbh2) as (r2&Hr2&Hsh2).
  rewrite Hr1 in Ht1. injection Ht1 as Heq1. rewrite Hr2 in Ht2. injection Ht2 as Heq2. subst r1 r2.
  assert (Hboth : ∀ h0, (mem_ok h → mem_ok h0) → wp ('(rc, c1) ← mls_from_string p s1 context_init;
    if rc <? 0 then mret (STATUS_ERR, None) else
    '(rc, c2) ← mls_from_string p s2 context_init;
    if rc <? 0 then mret (STATUS_ERR, None) else
    mret (STATUS_SUCCESS, Some (mls_range_contains (c_range c1) (c_range c2)))) (λ '(rc, ans) h',
      (mem_ok h → rc = STATUS_SUCCESS) ∧
      (rc = STATUS_SUCCESS ∧ ans = Some (mls_range_contains (c_range c1) (c_range c2)) ∨ rc = STATUS_ERR ∧ ans = None)) h0).
  { intros h0 Hmem. apply wp_bind. eapply wp_mono; [by apply (mls_from_string_wp p n tl tc Ht s1 (c_range c1))|].
    intros [rc d1] h1 [M1 [[-> ->]| ->]]; [|apply wp_ret; split; [intros Ho; by destruct (M1 (Hmem Ho))|by right]].
    apply wp_bind. eapply wp_mono; [by apply (mls_from_string_wp p n tl tc Ht s2 (c_range c2))|].
    intros [rc d2] h2 [M2 [[-> ->]| ->]]; apply wp_ret; [split; [done|by left]|].
    split; [intros Ho; destruct (M1 (Hmem Ho)) as [Ho' _]; by destruct (M2 Ho')|by right]. }
  unfold alloc_fails, sepol_mls_contains. destruct h as [[|[] [|[] o]] nx]; cbn [h_oracle lookup list_lookup];
    first [reflexivity | apply (Hboth (Heap [] (nx + 1 + 1))); intros _; constructor
          | apply (Hboth (Heap o (nx + 1 + 1))); by intros [_ [_ ?]%Forall_cons]%Forall_cons
          | split; [by intros [? _]%Forall_cons|by right]].
Qed.
End roundtrip.

(** ** Examples *)

Module ExampleText.
Import ExampleMls.
Lemma tables : text_tables policy 3 levels cats.
Proof.
  split; [lia|done|intros; apply levels_ok|done|intros; apply cats_ok| |].
  - intros s name Hs. apply at_val_lookup in Hs as [Hs1 Hs]. cbn [p_sens_val_to_name policy] in Hs.
    assert (s = 1 ∨ s = 2) as [->| ->]; [apply lookup_lt_Some in Hs; cbn in Hs; lia|..];
      injection Hs as <-; (split; [cbn; split_and!; try done; by rewrite !elem_of_cons, elem_of_nil; intros [|[|[|[|]]]]|
        eexists; split; [vm_compute; reflexivity|done]]).
  - intros i Hi. assert (i = 0 ∨ i = 1 ∨ i = 2) as [->|[->| ->]] by lia; do 2 eexists;
      (split; [vm_compute; reflexivity|split; [|split; [vm_compute; reflexivity|done]]]);
      cbn; split_and!; try done; by rewrite !elem_of_cons, elem_of_nil; intros [|[|[|[|]]]].
Qed.
Lemma one_node n : no_bridge (Ebitmap [n] 64).
Proof. intros m m' [(l1&l2&Hl) _]. by destruct l1 as [|? [|]]. Qed.
Lemma con_printable : @printable target_arm policy 3 con.
Proof.
  split; [apply s0_named|apply s1_named| |apply one_node|].
  - intros m m' [(l1&l2&Hl) _]. by destruct l1.
  - intros h text h' Ht. vm_compute in Ht. by injection Ht as <- _.
Qed.
End ExampleText.

(** a policy of 131 categories c0 to c130 *)
Module Gaps.
Definition name (i : Z) : string := String "c" (pretty (Z.to_N i)).
Definition name_le (a b : string * cat_datum) : Prop := strcmp a.1 b.1 ≤ 0.
#[local] Instance name_le_dec a b : Decision (name_le a b).
Proof. unfold name_le. apply _. Defined.
Definition entries : list (string * cat_datum) := merge_sort name_le ((λ i, (name i, CatDatum (i + 1) 0)) <$> seqZ 0 131).
Definition cats : hashtab string cat_datum := Hashtab [entries] 1 131.
Definition level (ns : list ebitmap_node) : mls_level := MlsLevel 1 (Ebitmap ns 192).
Definition all_cats : mls_level := level [Node 0 (2 ^ 64 - 1); Node 64 (2 ^ 64 - 1); Node 128 7].
Definition levels : hashtab string level_datum := Hashtab [[("s0"%string, LevelDatum all_cats 0 1)]] 1 1.
Definition policy : policydb :=
  Policydb 0 30 1 empty_symtab empty_symtab empty_symtab empty_symtab empty_symtab (Symtab (Some levels) 1)
    (Symtab (Some cats) 131) [Some "s0"%string] ((λ i, Some (name i)) <$> seqZ 0 131)
    [] [] [] [] [] [] [] [] empty_avtab empty_avtab [] [] [] [] [] [] [] (Ebitmap [] 0)
    [] (replicate OCON_NUM []) [].
Definition con (ns : list ebitmap_node) : context_struct := Context 1 OBJECT_R_VAL 1 (MlsRange (level ns) (level ns)).
Definition c128 := con [Node 0 (3 * 2 ^ 62); Node 128 1].
Definition c130 := con [Node 0 (3 * 2 ^ 62); Node 128 4].
End Gaps.

(** ** Properties *)

(** C26: parsing the text [mls_to_string] makes of a context gives its range
    back, if no run of its categories goes on over a gap of the bitmap; both
    fail only for want of memory. *)
Theorem mls_text_roundtrip `{Target} p n tl tc c c0 h :
  text_tables p n tl tc → mls p ≠ 0 → printable p n c → c_range c0 = mls_range_init →
  wp ('(rc, s) ← mls_to_string p c; match s with Some s => mls_from_string p s c0 | None => mret (rc, c0) end)
    (λ '(rc, c') h', (mem_ok h → rc = STATUS_SUCCESS) ∧
       (rc = STATUS_SUCCESS ∧ c' = with_range c0 (c_range c) ∨ rc = STATUS_ERR)) h.
Proof. intros Ht. by eapply mls_text_roundtrip_wp. Qed.

(** witness of C26: "s0-s1:c0.c2" *)
Lemma mls_text_roundtrip_witness :
  let T := target_arm in let p := ExampleMls.policy in let c := ExampleMls.con in
  wp ('(rc, s) ← mls_to_string p c; match s with Some s => mls_from_string p s context_init | None => mret (rc, context_init) end)
    (λ '(rc, c') h', (mem_ok fresh_heap → rc = STATUS_SUCCESS) ∧
       (rc = STATUS_SUCCESS ∧ c' = with_range context_init (c_range c) ∨ rc = STATUS_ERR)) fresh_heap.
Proof.
  apply (@mls_text_roundtrip target_arm ExampleMls.policy 3 ExampleMls.levels ExampleMls.cats ExampleMls.con
    context_init fresh_heap); [apply ExampleText.tables|discriminate|apply ExampleText.con_printable|done].
Defined.

(** [sepol_mls_contains] answers whether the range of the first text
    contains that of the second, failing only for want of memory; but when just
    one of its two contexts cannot be allocated it destroys the other, which
    has not been initialised. *)
Theorem sepol_mls_contains_correct `{Target} p n tl tc c1 c2 s1 s2 h :
  text_tables p n tl tc → mls p ≠ 0 → printable p n c1 → printable p n c2 →
  mls_sid_to_context p c1 h = Some (String colon s1, h) → mls_sid_to_context p c2 h = Some (String colon s2, h) →
  if xorb (alloc_fails h 0) (alloc_fails h 1) then sepol_mls_contains p s1 s2 h = None
  else wp (sepol_mls_contains p s1 s2) (λ '(rc, ans) h', (mem_ok h → rc = STATUS_SUCCESS) ∧
    (rc = STATUS_SUCCESS ∧ ans = Some (mls_range_contains (c_range c1) (c_range c2)) ∨
     rc = STATUS_ERR ∧ ans = None)) h.
Proof. intros Ht. by eapply sepol_mls_contains_wp. Qed.

(** witness of [sepol_mls_contains_correct] *)
Lemma sepol_mls_contains_correct_witness :
  let T := target_arm in let p := ExampleMls.policy in let c := ExampleMls.con in
  wp (sepol_mls_contains p "s0-s1:c0.c2" "s0-s1:c0.c2") (λ '(rc, ans) h', (mem_ok fresh_heap → rc = STATUS_SUCCESS) ∧
    (rc = STATUS_SUCCESS ∧ ans = Some (mls_range_contains (c_range c) (c_range c)) ∨
     rc = STATUS_ERR ∧ ans = None)) fresh_heap.
Proof.
  apply (@sepol_mls_contains_correct target_arm ExampleMls.policy 3 ExampleMls.levels ExampleMls.cats ExampleMls.con
    ExampleMls.con "s0-s1:c0.c2" "s0-s1:c0.c2" fresh_heap).
  - apply ExampleText.tables.
  - discriminate.
  - apply ExampleText.con_printable.
  - apply ExampleText.con_printable.
  - vm_compute. reflexivity.
  - vm_compute. reflexivity.
Defined.

(** the loop over the categories does not see the gaps between the nodes
    of a bitmap.  The categories 62, 63 and 128 are printed as "c62.c128", which
    is parsed as 62 to 128; 62, 63 and 130 as "c62,c127,c130".  Both contexts
    are valid. *)
Theorem mls_to_string_bridges_gaps `{Target} :
  mls_context_isvalid Gaps.policy Gaps.c128 fresh_heap = Some (true, fresh_heap) ∧
  mls_context_isvalid Gaps.policy Gaps.c130 fresh_heap = Some (true, fresh_heap) ∧
  fst <$> mls_to_string Gaps.policy Gaps.c128 fresh_heap = Some (STATUS_SUCCESS, Some "s0:c62.c128"%string) ∧
  fst <$> mls_to_string Gaps.policy Gaps.c130 fresh_heap = Some (STATUS_SUCCESS, Some "s0:c62,c127,c130"%string) ∧
  ebitmap_bits (cat (low_level (c_range Gaps.c128))) = [62; 63; 128] ∧
  ∃ c, fst <$> mls_from_string Gaps.policy "s0:c62.c128" context_init fresh_heap = Some (STATUS_SUCCESS, c) ∧
    ebitmap_bits (cat (low_level (c_range c))) = seqZ 62 67.
Proof.
  destruct H as [b [] [-> | ->]]; split_and!; try (vm_compute; reflexivity);
    (eexists; split; [vm_compute; reflexivity|vm_compute; reflexivity]).
Qed.
