(* ===== verification/Constraint.v ===== *)
(** * Constraints ([services.c], first part; [sepol_av_to_string] of [util.c])

    The evaluation of one constraint on a pair of contexts, with the text that
    explains it: every expression gets a text, the texts are turned from
    reverse polish into infix notation with a stack that outlives the call, and
    the result is added to the buffer of the caller.  A buffer is the string up
    to its first null byte, the characters used and the size allocated. *)

From S2P Require Import Prelude Hashtab Symtab Ebitmap Context Policydb Mls.
From Stdlib Require Import Ascii.
#[local] Open Scope string_scope.
#[local] Open Scope list_scope.
#[local] Open Scope Z_scope.

Definition REASON_BUF_SIZE : Z := 2048.
Definition EXPR_BUF_SIZE : Z := 1024.
Definition STACK_LEN : Z := 32.
Definition AVBUF_SIZE : Z := 1024.
Definition TMP_BUF_SIZE : Z := 128.
Definition POLICY_KERN : Z := 0.
Definition POLICYDB_VERSION_CONSTRAINT_NAMES : Z := 29.
Definition SHOW_GRANTED : Z := 1.

(** The static variables: the buffer of [sepol_av_to_string], the size of the
    stack and its entries, the last pushed first. *)
Record sec_state := SecState { avbuf : string; stack_len : Z; stack : list string }.
Record expr_buf := ExprBuf { eb_text : string; eb_used : Z; eb_len : Z }.
(** [ *r_buf], [reason_buf_len]; [reason_buf_used] is the length of the text *)
Record reason_buf := ReasonBuf { rb_text : string; rb_len : Z }.

(** the first [n] characters *)
Definition stake (n : Z) (s : string) : string := String.substring 0 (Z.to_nat n) s.

Section operations.
Context `{Target}.

(** [a[v - 1]] where the element may be null *)
Definition at_index {A} (a : list A) (v : Z) : option A := if v <? 1 then None else a !! Z.to_nat (v - 1).

(** ** The stack *)

(** an entry is dropped when the stack cannot grow *)
Definition push (st : sec_state) (x : string) : CM sec_state :=
  if stack_len st <=? length (stack st) then
    new_stack ← malloc;
    match new_stack with
    | None => mret st
    | Some _ =>
        mret (SecState (avbuf st) (if stack_len st =? 0 then STACK_LEN else stack_len st * 2) (x :: stack st))
    end
  else mret (SecState (avbuf st) (stack_len st) (x :: stack st)).
Definition pop (st : sec_state) : option string * sec_state :=
  match stack st with
  | x :: s => (Some x, SecState (avbuf st) (stack_len st) s)
  | [] => (None, st)
  end.

(** ** Texts *)

Definition strdup (s : string) : CM (option string) := a ← malloc; mret ((λ _, s) <$> a).

Fixpoint cat_expr_buf_loop (fuel : nat) (b : expr_buf) (s : string) : CM expr_buf :=
  let room := eb_len b - eb_used b in
  if room <=? strlen s then
    let text := stake (eb_used b) (eb_text b) +:+ stake (room - 1) s in
    new_buf ← malloc;
    match new_buf, fuel with
    | None, _ => mret (ExprBuf text (eb_used b) (eb_len b))
    | Some _, O => undefined
    | Some _, S fuel => cat_expr_buf_loop fuel (ExprBuf text (eb_used b) (eb_len b + EXPR_BUF_SIZE)) s
    end
  else mret (ExprBuf (stake (eb_used b) (eb_text b) +:+ s) (eb_used b + strlen s) (eb_len b)).
Definition cat_expr_buf (b : expr_buf) (s : string) : CM expr_buf :=
  cat_expr_buf_loop (S (String.length s)) b s.
(** [snprintf(tmp_buf, sizeof(tmp_buf), ...)] *)
Definition snprintf_tmp (s : string) : string := stake (TMP_BUF_SIZE - 1) s.

(** [policydb->p_..._val_to_name[i]] of the kind [type] *)
Definition kind_name (p : policydb) (type i : Z) : CM string :=
  deref (at_val (if type =? CEXPR_USER then p_user_val_to_name p
                 else if type =? CEXPR_ROLE then p_role_val_to_name p else p_type_val_to_name p) (i + 1)).
Definition get_name_list (p : policydb) (e : constraint_expr) (type : Z) (src : option string) (op : string)
    (failed : bool) (b : expr_buf) : CM expr_buf :=
  types ← (if (policy_type p =? POLICY_KERN) && (POLICYDB_VERSION_CONSTRAINT_NAMES <=? policyvers p) &&
              (type =? CEXPR_TYPE)
           then ts_types <$> deref (ce_type_names e) else mret (ce_names e));
  counter ← (r ← for_loop (R := unit) (ebitmap_startbit types) (ebitmap_length types) (λ i n,
      mret (inr (if ebitmap_get_bit types i =? 0 then n else n + 1))) 0;
    mret (match r with inr n => n | inl _ => 0 end));
  src ← deref src;
  b ← cat_expr_buf b (snprintf_tmp ("(" +:+ src +:+ op));
  b ← (if counter =? 0 then cat_expr_buf b "<empty_set> " else mret b);
  b ← (if 1 <? counter then cat_expr_buf b " {" else mret b);
  b ← (if 1 <=? counter then
        r ← for_loop (R := unit) (ebitmap_startbit types) (ebitmap_length types) (λ i b,
          if ebitmap_get_bit types i =? 0 then mret (inr b) else
          name ← kind_name p type i;
          inr <$> cat_expr_buf b (snprintf_tmp (" " +:+ name))) b;
        mret (match r with inr b => b | inl _ => b end)
       else mret b);
  b ← (if 1 <? counter then cat_expr_buf b " }" else mret b);
  cat_expr_buf b (if failed then " -Fail-) " else ") ").
Definition msgcat (src tgt : option string) (op : string) (failed : bool) (b : expr_buf) : CM expr_buf :=
  src ← deref src;
  tgt ← deref tgt;
  cat_expr_buf b (snprintf_tmp ("(" +:+ src +:+ " " +:+ op +:+ " " +:+ tgt +:+ (if failed then " -Fail-) " else ") "))).

(** The name of the permission of value [val], looked up in the table of the
    class and then in that of its common. *)
Definition perm_name (val : Z) (h : option (hashtab string Z)) (name : option string) : CM (Z * option string) :=
  hashtab_map h (λ key perdatum name,
    mret (if val =? perdatum then (1, Some key) else (0, name))) name.
(** The text, [None] when it is too long; the static buffer keeps its old text
    when there is nothing to write. *)
Definition sepol_av_to_string (p : policydb) (tclass av : Z) (old : string) : CM (option string * string) :=
  cladatum ← deref (at_val (class_val_to_struct p) tclass);
  r ← for_loop 0 (nprim (class_permissions cladatum)) (λ i '(perm, text),
    if 32 <=? i then undefined else
    if negb (truth (Z.land av (Z.shiftl 1 i))) then mret (inr (perm, text)) else
    '(rc, name) ← perm_name (i + 1) (table (class_permissions cladatum)) None;
    '(rc, name) ← (match class_comdatum cladatum with
      | Some com => if truth rc then mret (rc, name) else perm_name (i + 1) (table (common_permissions com)) name
      | None => mret (rc, name)
      end);
    let perm := if truth rc then name else perm in
    match perm with
    | None => mret (inr (perm, text))
    | Some name =>
        let written := default EmptyString text in
        let room := AVBUF_SIZE - strlen written in
        if room <=? strlen name + 1 then mret (inl (written +:+ stake (room - 1) (String " " name)))
        else mret (inr (perm, Some (written +:+ String " " name)))
    end) (None, None);
  mret (match r with
        | inl text => (None, text)
        | inr (_, text) => let text := default old text in (Some text, text)
        end).

(** class, kind of statement and permissions; [None]: no memory *)
Definition class_info_text (p : policydb) (tclass : Z) (constraint : constraint_node)
    (xcontext : option context_struct) (st : sec_state) : CM (string * sec_state) :=
  let mls := existsb (λ e, CEXPR_L1L2 <=? ce_attr e) (cn_expr constraint) in
  let statement := match xcontext, mls with
    | None, false => "constrain " | None, true => "mlsconstrain "
    | Some _, false => "validatetrans " | Some _, true => "mlsvalidatetrans " end in
  name ← deref (at_val (p_class_val_to_name p) tclass);
  '(perms, text) ← sepol_av_to_string p tclass (cn_permissions constraint) (avbuf st);
  perms ← deref perms;
  mret (statement +:+ name +:+ " {" +:+ perms +:+ " } (", SecState text (stack_len st) (stack st)).
(** The buffer is enlarged and the text written again until it fits; the text
    is the same every time. *)
Fixpoint class_info_loop (fuel : nat) (text : string) (class_buf_len : Z) : CM (option string) :=
  if strlen text <? class_buf_len then mret (Some text) else
  new_class_buf ← malloc;
  match new_class_buf, fuel with
  | None, _ => mret None
  | Some _, O => undefined
  | Some _, S fuel => class_info_loop fuel text (class_buf_len + EXPR_BUF_SIZE)
  end.
Definition get_class_info (p : policydb) (tclass : Z) (constraint : constraint_node)
    (xcontext : option context_struct) (st : sec_state) : CM (option string * sec_state) :=
  new_class_buf ← malloc;
  if bool_decide (new_class_buf = None) then mret (None, st) else
  '(text, st) ← class_info_text p tclass constraint xcontext st;
  class_buf ← class_info_loop (S (String.length text)) text EXPR_BUF_SIZE;
  mret (class_buf, st).

(** ** Evaluation *)

(** one expression: [goto out], or the stack of values (the last pushed first)
    and the text *)
Inductive outcome :=
  | Bug
  | Next (s : list Z) (b : expr_buf).

Definition mls_op (op : Z) (l1 l2 : mls_level) : option (bool * string) :=
  if op =? CEXPR_EQ then Some (mls_level_eq l1 l2, "eq")
  else if op =? CEXPR_NEQ then Some (negb (mls_level_eq l1 l2), "!=")
  else if op =? CEXPR_DOM then Some (mls_level_dom l1 l2, "dom")
  else if op =? CEXPR_DOMBY then Some (mls_level_dom l2 l1, "domby")
  else if op =? CEXPR_INCOMP then Some (mls_level_incomp l2 l1, "incomp")
  else None.
Definition value_op (op val1 val2 : Z) : option (bool * string) :=
  if op =? CEXPR_EQ then Some (val1 =? val2, "==")
  else if op =? CEXPR_NEQ then Some (negb (val1 =? val2), "!=")
  else None.
Definition role_op (op val1 val2 : Z) (r1 r2 : option role_datum) : CM (option (bool * string)) :=
  let dominates r val := r ← deref r; mret (truth (ebitmap_get_bit (role_dominates r) (u32 (val - 1)))) in
  if op =? CEXPR_DOM then b ← dominates r1 val2; mret (Some (b, "dom"))
  else if op =? CEXPR_DOMBY then b ← dominates r2 val1; mret (Some (b, "domby"))
  else if op =? CEXPR_INCOMP then
    b ← dominates r1 val2;
    if (b : bool) then mret (Some (false, "incomp")) else
    b ← dominates r2 val1; mret (Some (negb b, "incomp"))
  else mret (value_op op val1 val2).
(** the levels an MLS attribute compares, and their names *)
Definition attr_levels (r1 r2 : mls_range) (attr : Z) : option (mls_level * mls_level * string * string) :=
  if attr =? CEXPR_L1L2 then Some (low_level r1, low_level r2, "l1", "l2")
  else if attr =? CEXPR_L1H2 then Some (low_level r1, high_level r2, "l1", "h2")
  else if attr =? CEXPR_H1L2 then Some (high_level r1, low_level r2, "h1", "l2")
  else if attr =? CEXPR_H1H2 then Some (high_level r1, high_level r2, "h1", "h2")
  else if attr =? CEXPR_L1H1 then Some (low_level r1, high_level r1, "l1", "h1")
  else if attr =? CEXPR_L2H2 then Some (low_level r2, high_level r2, "l2", "h2")
  else None.
(** the value of a [CEXPR_ATTR] expression, the operator, and the names of its
    sides; [None] is [goto out] *)
Definition eval_attr (p : policydb) (sc tc : context_struct) (e : constraint_expr)
    : CM (option (bool * string) * option string * option string) :=
  let attr := ce_attr e in
  if attr =? CEXPR_USER then
    src ← strdup "u1"; tgt ← strdup "u2"; mret (value_op (ce_op e) (c_user sc) (c_user tc), src, tgt)
  else if attr =? CEXPR_TYPE then
    src ← strdup "t1"; tgt ← strdup "t2"; mret (value_op (ce_op e) (c_type sc) (c_type tc), src, tgt)
  else if attr =? CEXPR_ROLE then
    r1 ← deref (at_index (role_val_to_struct p) (c_role sc));
    r2 ← deref (at_index (role_val_to_struct p) (c_role tc));
    src ← strdup "r1"; tgt ← strdup "r2";
    v ← role_op (ce_op e) (c_role sc) (c_role tc) r1 r2;
    mret (v, src, tgt)
  else
    match attr_levels (c_range sc) (c_range tc) attr with
    | Some (l1, l2, n1, n2) => src ← strdup n1; tgt ← strdup n2; mret (mls_op (ce_op e) l1 l2, src, tgt)
    | None => mret (None, None, None)
    end.
(** the context, its number, and the kind and value a [CEXPR_NAMES] expression
    tests *)
Definition names_context (sc tc : context_struct) (xc : option context_struct) (attr : Z)
    : option context_struct * string :=
  if truth (Z.land attr CEXPR_TARGET) then (Some tc, "2")
  else if truth (Z.land attr CEXPR_XTARGET) then (xc, "3") else (Some sc, "1").
Definition names_kind (c : context_struct) (attr : Z) : option (Z * Z * string) :=
  if truth (Z.land attr CEXPR_USER) then Some (CEXPR_USER, c_user c, "u")
  else if truth (Z.land attr CEXPR_ROLE) then Some (CEXPR_ROLE, c_role c, "r")
  else if truth (Z.land attr CEXPR_TYPE) then Some (CEXPR_TYPE, c_type c, "t")
  else None.
Definition eval_names (p : policydb) (sc tc : context_struct) (xc : option context_struct) (e : constraint_expr)
    (s : list Z) (b : expr_buf) : CM outcome :=
  let '(c, num) := names_context sc tc xc (ce_attr e) in
  match c with
  | None => mret Bug
  | Some c =>
      match names_kind c (ce_attr e) with
      | None => mret Bug
      | Some (u_r_t, val1, letter) =>
          src ← strdup (letter +:+ num +:+ " ");
          let v := truth (ebitmap_get_bit (ce_names e) (u32 (val1 - 1))) in
          if ce_op e =? CEXPR_EQ then
            b ← get_name_list p e u_r_t src "==" (negb v) b; mret (Next (cbool v :: s) b)
          else if ce_op e =? CEXPR_NEQ then
            b ← get_name_list p e u_r_t src "!=" v b; mret (Next (cbool (negb v) :: s) b)
          else mret Bug
      end
  end.
(** [switch (e->expr_type)]; an operator without operands reads or writes
    outside the array [s] *)
Definition eval_step (p : policydb) (sc tc : context_struct) (xc : option context_struct) (e : constraint_expr)
    (s : list Z) (b : expr_buf) : CM outcome :=
  if ce_expr_type e =? CEXPR_NOT then
    match s with x :: s => Next (cbool (negb (truth x)) :: s) <$> cat_expr_buf b "not" | [] => undefined end
  else if ce_expr_type e =? CEXPR_AND then
    match s with y :: x :: s => Next (Z.land x y :: s) <$> cat_expr_buf b "and" | _ => undefined end
  else if ce_expr_type e =? CEXPR_OR then
    match s with y :: x :: s => Next (Z.lor x y :: s) <$> cat_expr_buf b "or" | _ => undefined end
  else if ce_expr_type e =? CEXPR_ATTR then
    if Z.of_nat (length s) =? CEXPR_MAXDEPTH then mret Bug else
    '(r, src, tgt) ← eval_attr p sc tc e;
    match r with
    | Some (v, op) => b ← msgcat src tgt op (negb v) b; mret (Next (cbool v :: s) b)
    | None => mret Bug
    end
  else if ce_expr_type e =? CEXPR_NAMES then
    if Z.of_nat (length s) =? CEXPR_MAXDEPTH then mret Bug else eval_names p sc tc xc e s b
  else mret Bug.

(** The loop over the expressions: the code returned by [goto out], or the
    values and the texts.  The texts are freed at [out] up to the first null
    entry of [expr_list] when the counter is not 0: past the entry of an
    expression that was refused, and past the end of the array, there is none. *)
Fixpoint eval_loop (p : policydb) (sc tc : context_struct) (xc : option context_struct)
    (expr : list constraint_expr) (expr_list_len : Z) (s : list Z) (texts : list string)
    : CM (Z + list Z * list string) :=
  match expr with
  | [] => mret (inr (s, texts))
  | e :: next =>
      let counter := Z.of_nat (length texts) in
      let full := expr_list_len <=? counter in
      new_expr_list ← (if full then malloc else mret (Some 0));
      if bool_decide (new_expr_list = None) then
        if counter =? 0 then mret (inl (- ENOMEM)) else undefined
      else
      let expr_list_len :=
        if full then if expr_list_len =? 0 then STACK_LEN else expr_list_len * 2 else expr_list_len in
      buf ← malloc;
      if bool_decide (buf = None) then mret (inl (- ENOMEM)) else
      r ← eval_step p sc tc xc e s (ExprBuf EmptyString 0 EXPR_BUF_SIZE);
      match r with
      | Bug => if counter =? 0 then mret (inl 0) else undefined
      | Next s b => eval_loop p sc tc xc next expr_list_len s (texts ++ [eb_text b])
      end
  end.

(** ** Infix notation *)

(** [None]: no memory for an answer; the popped entries are lost *)
Definition infix_step (st : sec_state) (x : string) : CM (option sec_state * sec_state) :=
  if String.prefix "and" x || String.prefix "or" x then
    let '(b, st) := pop st in
    b ← deref b;
    let '(a, st) := pop st in
    a ← deref a;
    answer ← malloc;
    if bool_decide (answer = None) then mret (None, st) else
    let text := a +:+ " " +:+ x +:+ " " +:+ b in
    if strlen text <? strlen a + strlen b + 8 then st ← push st text; mret (Some st, st) else undefined
  else if String.prefix "not" x then
    let '(b, st) := pop st in
    b ← deref b;
    answer ← malloc;
    if bool_decide (answer = None) then mret (None, st) else
    let text := if String.prefix "not" b then x +:+ " (" +:+ b +:+ ")" else x +:+ b in
    if strlen text <? strlen b + 8 then st ← push st text; mret (Some st, st) else undefined
  else st ← push st x; mret (Some st, st).
Fixpoint infix_loop (st : sec_state) (texts : list string) : CM (bool * sec_state) :=
  match texts with
  | [] => mret (true, st)
  | x :: texts =>
      '(r, st) ← infix_step st x;
      match r with Some st => infix_loop st texts | None => mret (false, st) end
  end.

(** ** The buffer of the caller *)

(** [if (!new_buf)] tests the address of the pointer: after a failed [realloc]
    the null pointer is read *)
Fixpoint reason_cat_loop (fuel : nat) (rb : reason_buf) (s : string) : CM reason_buf :=
  if rb_len rb - strlen (rb_text rb) <=? strlen s then
    new_buf ← malloc;
    match new_buf, fuel with
    | Some _, S fuel => reason_cat_loop fuel (ReasonBuf (rb_text rb) (rb_len rb + REASON_BUF_SIZE)) s
    | _, _ => undefined
    end
  else mret (ReasonBuf (rb_text rb +:+ s) (rb_len rb)).
Definition reason_cat (rb : reason_buf) (s : string) : CM reason_buf :=
  reason_cat_loop (S (String.length (rb_text rb +:+ s))) rb s.
Fixpoint reason_cat_all (rb : reason_buf) (l : list string) : CM reason_buf :=
  match l with [] => mret rb | s :: l => rb ← reason_cat rb s; reason_cat_all rb l end.

Definition newline : string := String (ascii_of_nat 10) EmptyString.

(** the code, the static variables and the buffer [ *r_buf], if there is one *)
Definition constraint_expr_eval_reason (p : policydb) (st : sec_state) (sc tc : context_struct)
    (xc : option context_struct) (tclass : Z) (constraint : constraint_node) (r_buf : option reason_buf) (flags : Z)
    : CM (Z * sec_state * option reason_buf) :=
  '(class_buf, st) ← get_class_info p tclass constraint xc st;
  match class_buf with
  | None => mret (- ENOMEM, st, r_buf)
  | Some class_buf =>
      r ← eval_loop p sc tc xc (cn_expr constraint) 0 [] [];
      match r with
      | inl rc => mret (rc, st, r_buf)
      | inr (s, texts) =>
          answer_list ← malloc;
          if bool_decide (answer_list = None) then mret (- ENOMEM, st, r_buf) else
          '(ok, st) ← infix_loop st texts;
          if negb ok then mret (- ENOMEM, st, r_buf) else
          let '(a, st) := pop st in
          s0 ← deref (last s);
          let granted := "Constraint " +:+ (if truth s0 then "GRANTED" else "DENIED") +:+ newline in
          let buffers := match a with Some a => [class_buf; a; "); "; granted] | None => [class_buf] end in
          match r_buf with
          | Some rb =>
              if (s0 =? 0) || (s0 =? 1) && (Z.land flags SHOW_GRANTED =? SHOW_GRANTED) then
                rb ← reason_cat_all rb buffers; mret (s0, st, Some rb)
              else mret (s0, st, r_buf)
          | None => mret (s0, st, r_buf)
          end
      end
  end.
End operations.

(** ** What an explanation says *)

(** the members of a set below [n] and all its members, in increasing order *)
Definition bits_upto (e : ebitmap) (n : Z) : list Z := filter (λ i, i ∈ ebitmap_set e) (seqZ 0 n).
Definition set_bits (e : ebitmap) : list Z := bits_upto e (highbit e).
Definition concat_texts (l : list string) : string := foldr String.append EmptyString l.
Definition verdict (v : bool) : string := if v then ") " else " -Fail-) ".

Section explanation.
Context (p : policydb).

(** the user, role or type of value [i + 1] *)
Definition symbol_name (kind i : Z) : option string :=
  if kind =? CEXPR_USER then at_val (p_user_val_to_name p) (i + 1)
  else if kind =? CEXPR_ROLE then at_val (p_role_val_to_name p) (i + 1)
  else at_val (p_type_val_to_name p) (i + 1).
(** a space and the name, cut to the 127 characters of the buffer *)
Definition listed_name (kind i : Z) : string := stake 127 (" " +:+ default EmptyString (symbol_name kind i)).
(** no name, one name, or several between braces *)
Definition names_text (kind : Z) (types : ebitmap) : string :=
  match set_bits types with
  | [] => "<empty_set> "
  | [i] => listed_name kind i
  | l => " {" +:+ concat_texts (listed_name kind <$> l) +:+ " }"
  end.
(** the names a [CEXPR_NAMES] expression prints: the types and attributes of
    the source where the kernel policy has them *)
Definition printed_names (e : constraint_expr) (kind : Z) : option ebitmap :=
  if (policy_type p =? POLICY_KERN) && (POLICYDB_VERSION_CONSTRAINT_NAMES <=? policyvers p) && (kind =? CEXPR_TYPE)
  then ts_types <$> ce_type_names e else Some (ce_names e).
Definition names_known (kind : Z) (types : ebitmap) : Prop :=
  ∀ i, i ∈ ebitmap_set types → is_Some (symbol_name kind i).
End explanation.

Lemma string_app_nil_r s : s +:+ EmptyString = s.
Proof. induction s as [|c s IH]; [done|]. change (String c (s +:+ EmptyString) = String c s). by rewrite IH. Qed.
Lemma concat_texts_app l k : concat_texts (l ++ k) = concat_texts l +:+ concat_texts k.
Proof.
  induction l as [|x l IH]; [done|]. change (x +:+ concat_texts (l ++ k) = (x +:+ concat_texts l) +:+ concat_texts k).
  by rewrite IH, string_app_assoc.
Qed.

(** ** Theory: texts when there is memory *)

Section texts.
Context `{Target}.

Lemma stake_all s : stake (strlen s) s = s.
Proof.
  unfold stake, strlen. rewrite Nat2Z.id. induction s as [|c s IH]; [done|]. cbn [String.length String.substring]. by rewrite IH.
Qed.
Lemma strlen_nonneg s : 0 ≤ strlen s.
Proof. unfold strlen. lia. Qed.
Lemma snprintf_tmp_cons c s : ∃ s', snprintf_tmp (String c s) = String c s'.
Proof. unfold snprintf_tmp, stake. change (Z.to_nat (TMP_BUF_SIZE - 1)) with 127%nat. cbn. by eexists. Qed.

(** a buffer that holds a whole text *)
Definition buf_ok (b : expr_buf) : Prop := eb_used b = strlen (eb_text b) ∧ eb_used b < eb_len b.

Lemma stake_app text s : stake (strlen text) (text +:+ s) = text.
Proof.
  unfold stake, strlen. rewrite Nat2Z.id. induction text as [|c t IH]; [by destruct s|].
  change (String c t +:+ s) with (String c (t +:+ s)). cbn [String.length String.substring]. by rewrite IH.
Qed.
Lemma cat_loop_ok fuel full text len s h :
  mem_ok h → stake (strlen text) full = text → strlen text < len → strlen s < len - strlen text + 1024 * Z.of_nat fuel →
  wp (cat_expr_buf_loop fuel (ExprBuf full (strlen text) len) s)
    (λ b h', mem_ok h' ∧ buf_ok b ∧ eb_text b = text +:+ s) h.
Proof.
  revert full len h. induction fuel as [|fuel IH]; intros full len h Ho Ht Hl Hf;
    cbn [cat_expr_buf_loop eb_len eb_used eb_text]; rewrite Ht;
    (destruct (Z.leb_spec (len - strlen text) (strlen s)) as [Hle|Hgt];
      [|apply wp_ret; split; [done|]; split; [|done]; unfold buf_ok; cbn; rewrite strlen_app; lia]); [lia|].
  apply wp_bind, wp_malloc_ok; [done|]. intros a h' Ho'. apply IH; [done|apply stake_app|unfold EXPR_BUF_SIZE; lia..].
Qed.
Lemma cat_expr_buf_ok b s h :
  mem_ok h → buf_ok b → wp (cat_expr_buf b s) (λ b' h', mem_ok h' ∧ buf_ok b' ∧ eb_text b' = eb_text b +:+ s) h.
Proof.
  intros Ho [Hu Hl]. destruct b as [text used len]. cbn [eb_used eb_text eb_len] in *. subst used. unfold cat_expr_buf.
  apply cat_loop_ok; [done|apply stake_all|done|]. unfold strlen in *. lia.
Qed.

Lemma strdup_ok s (Q : option string → heap → Prop) h :
  mem_ok h → (∀ h', mem_ok h' → Q (Some s) h') → wp (strdup s) Q h.
Proof. intros Ho HQ. apply wp_bind, wp_malloc_ok; [done|]. intros a h' Ho'. by apply HQ. Qed.

(** the text starts with a parenthesis *)
Definition opens (s : string) : Prop := ∃ s', s = String "(" s'.
(** a text that [snprintf] does not cut *)
Lemma snprintf_tmp_all s : strlen s ≤ 127 → snprintf_tmp s = s.
Proof.
  unfold snprintf_tmp, strlen, stake, TMP_BUF_SIZE. rewrite <- (Nat2Z.id (String.length s)) at 1. change (128 - 1) with (Z.of_nat 127).
  rewrite Nat2Z.id, Nat2Z.id. intros Hl. assert (String.length s ≤ 127)%nat as Hl' by lia. clear Hl. revert Hl'. generalize 127%nat as n.
  induction s as [|c s IH]; intros [|n] Hl; cbn in *; [done|done|lia|]. by rewrite IH by lia.
Qed.
Lemma snprintf_tmp_verdict x op y (v : bool) :
  strlen x + strlen op + strlen y ≤ 110 →
  snprintf_tmp ("(" +:+ x +:+ " " +:+ op +:+ " " +:+ y +:+ (if negb v then " -Fail-) " else ") ")) =
    "(" +:+ x +:+ " " +:+ op +:+ " " +:+ y +:+ verdict v.
Proof.
  intros Hl. rewrite snprintf_tmp_all; [by destruct v|]. rewrite !strlen_app.
  destruct v; unfold strlen in *; cbn; lia.
Qed.

Lemma msgcat_ok x y op v b h :
  mem_ok h → buf_ok b → eb_text b = EmptyString → strlen x + strlen op + strlen y ≤ 110 →
  wp (msgcat (Some x) (Some y) op (negb v) b) (λ b' h', mem_ok h' ∧ buf_ok b' ∧
    eb_text b' = "(" +:+ x +:+ " " +:+ op +:+ " " +:+ y +:+ verdict v) h.
Proof.
  intros Ho Hb He Hl. unfold msgcat. eapply wp_bind, wp_deref; [done|]. eapply wp_bind, wp_deref; [done|].
  eapply wp_mono; [by apply cat_expr_buf_ok|]. intros b' h' (Ho'&Hb'&->). split_and!; [done|done|].
  by rewrite He, snprintf_tmp_verdict.
Qed.

(** *** The lists of names *)

Lemma bits_upto_succ e i : 0 ≤ i → ebitmap_wf e →
  bits_upto e (i + 1) = bits_upto e i ++ (if ebitmap_get_bit e i =? 0 then [] else [i]).
Proof.
  intros Hi Hw. unfold bits_upto. rewrite seqZ_app by lia. rewrite filter_app. f_equal.
  change (seqZ (0 + i) 1) with [0 + i]. rewrite Z.add_0_l, ebitmap_get_bit_eq by done. cbn [filter list_filter].
  case_decide as Hd; rewrite elem_of_ebitmap_set in Hd by done; destruct (nodes_bit (node e) i); done.
Qed.
Lemma bits_upto_start e : ebitmap_wf e → bits_upto e (ebitmap_startbit e) = [].
Proof.
  intros Hw. unfold bits_upto. destruct (filter _ _) as [|i l] eqn:E; [done|]. exfalso.
  assert (i ∈ filter (λ i, i ∈ ebitmap_set e) (seqZ 0 (ebitmap_startbit e))) as Hi by (rewrite E; by left).
  apply list_elem_of_filter in Hi as [Hi Hr]. rewrite elem_of_ebitmap_set in Hi by done. apply elem_of_seqZ in Hr.
  pose proof (nodes_bit_startbit _ _ Hw Hi). lia.
Qed.
Lemma count_names_ok types h :
  ebitmap_wf types →
  wp (r ← for_loop (R := unit) (ebitmap_startbit types) (ebitmap_length types) (λ i n,
      mret (inr (if ebitmap_get_bit types i =? 0 then n else n + 1))) 0;
    mret (match r with inr n => n | inl _ => 0 end)) (λ n h', h' = h ∧ n = length (set_bits types)) h.
Proof.
  intros Hw. pose proof (ebitmap_startbit_range types Hw). apply wp_bind, (wp_for_loop (λ i (n : Z) h', h' = h ∧ n = length (bits_upto types i))).
  - by rewrite bits_upto_start.
  - intros i n h' Hi [-> ->]. apply wp_ret. split; [done|]. rewrite bits_upto_succ, length_app by (done || lia).
    destruct (_ =? _); cbn [length]; lia.
  - intros n h' [-> ->]. apply wp_ret. split; [done|]. by rewrite Z.max_r by (unfold ebitmap_length; lia).
Qed.
Lemma kind_name_ok p kind i name h : symbol_name p kind i = Some name → wp (kind_name p kind i) (λ r h', h' = h ∧ r = name) h.
Proof.
  unfold symbol_name, kind_name. intros Hn.
  destruct (kind =? CEXPR_USER); [|destruct (kind =? CEXPR_ROLE)]; by apply wp_deref with (x := name).
Qed.
Lemma list_names_ok p kind types b h :
  mem_ok h → buf_ok b → ebitmap_wf types → names_known p kind types →
  wp (r ← for_loop (R := unit) (ebitmap_startbit types) (ebitmap_length types) (λ i b,
          if ebitmap_get_bit types i =? 0 then mret (inr b) else
          name ← kind_name p kind i;
          inr <$> cat_expr_buf b (snprintf_tmp (" " +:+ name))) b;
      mret (match r with inr b => b | inl _ => b end))
    (λ b' h', mem_ok h' ∧ buf_ok b' ∧ eb_text b' = eb_text b +:+ concat_texts (listed_name p kind <$> set_bits types)) h.
Proof.
  intros Ho Hb Hw Hk. pose proof (ebitmap_startbit_range types Hw). apply wp_bind, (wp_for_loop (λ i b' h', mem_ok h' ∧ buf_ok b' ∧
    eb_text b' = eb_text b +:+ concat_texts (listed_name p kind <$> bits_upto types i))).
  - rewrite bits_upto_start by done. split_and!; [done|done|]. cbn. by rewrite string_app_nil_r.
  - intros i b' h' Hi (Ho'&Hb'&Ht). rewrite bits_upto_succ by (done || lia). rewrite ebitmap_get_bit_eq by done.
    destruct (nodes_bit (node types) i) eqn:Eb; cbn [cbool Z.eqb]; [|apply wp_ret; by rewrite app_nil_r].
    destruct (Hk i) as [name Hname]; [by apply elem_of_ebitmap_set|].
    apply wp_bind. eapply wp_mono; [by apply kind_name_ok|]. intros n h2 [-> ->]. apply wp_fmap.
    eapply wp_mono; [by apply cat_expr_buf_ok|]. intros b2 h3 (?&?&->). split_and!; [done|done|].
    rewrite Ht, fmap_app, concat_texts_app, string_app_assoc. cbn [fmap list_fmap concat_texts foldr]. unfold listed_name.
    by rewrite Hname, string_app_nil_r.
  - intros b' h' (?&?&Ht). apply wp_ret. by rewrite Z.max_r in Ht by (unfold ebitmap_length; lia).
Qed.

Lemma get_name_list_ok p e kind src op v types b h :
  mem_ok h → buf_ok b → eb_text b = EmptyString → strlen src + strlen op ≤ 110 →
  printed_names p e kind = Some types → ebitmap_wf types → names_known p kind types →
  wp (get_name_list p e kind (Some src) op (negb v) b) (λ b' h', mem_ok h' ∧ buf_ok b' ∧
    eb_text b' = "(" +:+ src +:+ op +:+ names_text p kind types +:+ verdict v) h.
Proof.
  intros Ho Hb He Hl Htypes Hw Hk. unfold get_name_list. unfold printed_names in Htypes.
  assert (Htl : wp (if (policy_type p =? POLICY_KERN) && (POLICYDB_VERSION_CONSTRAINT_NAMES <=? policyvers p) &&
              (kind =? CEXPR_TYPE)
           then ts_types <$> deref (ce_type_names e) else mret (ce_names e)) (λ t h', h' = h ∧ t = types) h).
  { destruct (_ && _); [|by injection Htypes as <-]. destruct (ce_type_names e); [|done]. by injection Htypes as <-. }
  apply wp_bind. eapply wp_mono; [exact Htl|]. intros t h0 [-> ->]. apply wp_bind.
  eapply wp_mono; [by apply count_names_ok|]. intros n h0 [-> ->]. eapply wp_bind, wp_deref; [done|]. cbn beta.
  set (good t b' h' := mem_ok h' ∧ buf_ok b' ∧ eb_text b' = t).
  assert (Hcat : ∀ t b' s h', good t b' h' → wp (cat_expr_buf b' s) (good (t +:+ s)) h').
  { intros t b' s h' (Ho'&Hb'&Ht). eapply wp_mono; [by apply cat_expr_buf_ok|]. intros b2 h2 (?&?&Ht2).
    split_and!; [done|done|]. by rewrite Ht2, Ht. }
  apply wp_bind. eapply (wp_mono _ (good ("(" +:+ src +:+ op))).
  { eapply wp_mono; [by apply cat_expr_buf_ok|]. intros b' h' (Ho'&Hb'&Ht). split_and!; [done|done|]. rewrite Ht, He.
    rewrite snprintf_tmp_all; [done|]. rewrite !strlen_app. unfold strlen in *. cbn. lia. }
  intros b1 h1 Hg1. unfold names_text.
  assert (Hend : ∀ b' h', good ("(" +:+ src +:+ op +:+ names_text p kind types) b' h' →
    wp (cat_expr_buf b' (if negb v then " -Fail-) " else ") "))
      (good ("(" +:+ src +:+ op +:+ names_text p kind types +:+ verdict v)) h').
  { intros b' h' Hg. apply (Hcat _ _ (if negb v then " -Fail-) " else ") ")) in Hg. eapply wp_mono; [exact Hg|].
    intros b2 h2 (?&?&Ht). split_and!; [done|done|]. rewrite Ht, !string_app_assoc. by destruct v. }
  unfold names_text in Hend. pose proof (λ b h Ho Hb, list_names_ok p kind types b h Ho Hb Hw Hk) as Hlist.
  destruct (set_bits types) as [|i [|j l]]; cbn [length] in *.
  - change (Z.of_nat 0 =? 0) with true. change (1 <? Z.of_nat 0) with false. change (1 <=? Z.of_nat 0) with false.
    apply wp_bind. eapply wp_mono; [by eapply Hcat|]. intros b2 h2 Hg2. do 3 (apply wp_bind, wp_ret). apply Hend.
    by rewrite !string_app_assoc in Hg2.
  - change (Z.of_nat 1 =? 0) with false. change (1 <? Z.of_nat 1) with false. change (1 <=? Z.of_nat 1) with true.
    do 2 (apply wp_bind, wp_ret). apply wp_bind. destruct Hg1 as (Ho1&Hb1&Ht1). eapply wp_mono; [by apply Hlist|].
    intros b2 h2 (?&?&Ht2). apply wp_bind, wp_ret. apply Hend. split_and!; [done|done|]. rewrite Ht2, Ht1. cbn.
    by rewrite string_app_nil_r, !string_app_assoc.
  - set (n := Z.of_nat (S (S (length l)))). assert (1 < n) as Hn by lia.
    rewrite (proj2 (Z.eqb_neq n 0)), (proj2 (Z.ltb_lt 1 n)), (proj2 (Z.leb_le 1 n)) by lia.
    apply wp_bind, wp_ret. apply wp_bind.
    eapply wp_mono; [by eapply Hcat|]. intros b2 h2 (Ho2&Hb2&Ht2). apply wp_bind. eapply wp_mono; [by apply Hlist|].
    intros b3 h3 (Ho3&Hb3&Ht3). apply wp_bind. eapply wp_mono; [by apply cat_expr_buf_ok|]. intros b4 h4 (Ho4&Hb4&Ht4). apply Hend.
    split_and!; [done|done|]. by rewrite Ht4, Ht3, Ht2, !string_app_assoc.
Qed.
End texts.

(** ** Theory: the class and the permissions *)

(** the names of the permissions of a class *)
Definition perm_entries (cd : class_datum) : list (string * Z) :=
  default [] (entries <$> table (class_permissions cd)) ++
  default [] (com ← class_comdatum cd; entries <$> table (common_permissions com)).
(** the class has a name, and its permissions fit in a word and in [avbuf] *)
Definition class_described (p : policydb) (tclass : Z) : Prop :=
  is_Some (at_val (p_class_val_to_name p) tclass) ∧ ∃ cd, at_val (class_val_to_struct p) tclass = Some cd ∧
    nprim (class_permissions cd) ≤ 32 ∧ ∀ name v, (name, v) ∈ perm_entries cd → strlen name ≤ 30.

(** the members of an access vector below [n], in increasing order, and the
    text that lists them: a name of the class or of its common for each, and
    the old text when there is none *)
Definition av_bits (av n : Z) : list Z := filter (λ i, Z.testbit av i = true) (seqZ 0 n).
Definition perm_named (cd : class_datum) (i : Z) (name : string) : Prop := (name, i + 1) ∈ perm_entries cd.
Definition perms_text (cd : class_datum) (av n : Z) (text : option string) : Prop :=
  (∀ i, i ∈ av_bits av n → ∃ name, perm_named cd i name) →
  ∃ names, Forall2 (perm_named cd) (av_bits av n) names ∧
    text = if decide (names = []) then None else Some (concat_texts ((λ name, " " +:+ name) <$> names)).
Definition perms_listed (cd : class_datum) (av : Z) (old text : string) : Prop :=
  ∃ t, perms_text cd av (nprim (class_permissions cd)) t ∧ text = default old t.

Lemma av_bits_succ av i : 0 ≤ i → av_bits av (i + 1) = av_bits av i ++ (if Z.testbit av i then [i] else []).
Proof.
  intros Hi. unfold av_bits. rewrite seqZ_app by lia. rewrite filter_app. f_equal.
  change (seqZ (0 + i) 1) with [0 + i]. rewrite Z.add_0_l. cbn [filter list_filter].
  case_decide as Hd; [by rewrite Hd|]. by destruct (Z.testbit av i).
Qed.
Lemma perms_text_skip cd av i t : 0 ≤ i → Z.testbit av i = false → perms_text cd av i t → perms_text cd av (i + 1) t.
Proof. intros Hi Hb Ht. unfold perms_text. by rewrite av_bits_succ, Hb, app_nil_r. Qed.
Lemma perms_text_add cd av i t name :
  0 ≤ i → Z.testbit av i = true → perm_named cd i name → perms_text cd av i t →
  perms_text cd av (i + 1) (Some (default EmptyString t +:+ String " " name)).
Proof.
  intros Hi Hb Hn Ht. unfold perms_text. rewrite av_bits_succ, Hb by done. intros Hall.
  destruct Ht as (names&Hf&->); [intros j Hj; apply Hall, elem_of_app; by left|].
  exists (names ++ [name]). split; [apply Forall2_app; [done|by repeat constructor]|].
  rewrite (decide_False (P := names ++ [name] = [])) by (intros Hnil; by destruct names). f_equal. rewrite fmap_app, concat_texts_app.
  change (concat_texts ((λ name, " " +:+ name) <$> [name])) with (String " " name +:+ EmptyString). rewrite string_app_nil_r.
  by case_decide as Hd; [rewrite Hd|].
Qed.
Lemma perms_text_unnamed cd av i t :
  0 ≤ i → Z.testbit av i = true → (∀ name, ¬ perm_named cd i name) → perms_text cd av (i + 1) t.
Proof.
  intros Hi Hb Hn Hall. destruct (Hall i) as [name Hname]; [|by destruct (Hn name)].
  rewrite av_bits_succ, Hb by done. apply elem_of_app. right. by left.
Qed.

Lemma perms_text_max cd av n t : perms_text cd av (0 `max` n) t = perms_text cd av n t.
Proof.
  unfold perms_text, av_bits. destruct (Z.le_gt_cases 0 n); [by rewrite Z.max_r by lia|].
  by rewrite Z.max_l, !seqZ_nil by lia.
Qed.

Section class_info.
Context `{Target}.

Lemma perm_name_ok val t name h :
  wp (perm_name val t name) (λ '(rc, name') h', h' = h ∧
    (rc = 1 ∧ (∃ k, name' = Some k ∧ (k, val) ∈ default [] (entries <$> t)) ∨
     rc = 0 ∧ name' = name ∧ ∀ k, (k, val) ∉ default [] (entries <$> t))) h.
Proof.
  destruct t as [t|]; [|apply wp_ret; split; [done|right; split_and!; [done|done|by intros k ?%elem_of_nil]]].
  unfold perm_name, hashtab_map.
  apply wp_bind. change (concat (htable t)) with (entries t). cbn [default fmap option_fmap option_map].
  apply (wp_for_list_prefix (λ l n h', h' = h ∧ n = name ∧ ∀ k, (k, val) ∉ l)).
  - split_and!; [done|done|by intros k ?%elem_of_nil].
  - intros [k v] l1 l2 n h' Hl (->&->&Hl1). apply wp_bind, wp_ret. cbn [fst snd].
    destruct (Z.eqb_spec val v) as [->|Hne]; apply wp_ret; cbn [truth Z.eqb negb].
    + apply wp_ret. split; [done|left]. split; [done|]. exists k. split; [done|]. rewrite Hl. apply elem_of_app. right. by left.
    + split_and!; [done|done|]. intros k' [?|[= -> ->]%list_elem_of_singleton]%elem_of_app; [by eapply Hl1|done].
  - intros n h' (->&->&Hl). apply wp_ret. split; [done|right]. done.
Qed.

(** the permission of bit [i]: looked up in the class, then in its common *)
Lemma perm_of_bit_ok cd i h :
  wp (perm_name (i + 1) (table (class_permissions cd)) None) (λ '(rc, name), wp
      (match class_comdatum cd with
       | Some com => if truth rc then mret (rc, name) else perm_name (i + 1) (table (common_permissions com)) name
       | None => mret (rc, name)
       end)
    (λ '(rc, name) h', h' = h ∧ if truth rc then ∃ k, name = Some k ∧ perm_named cd i k
                                else ∀ k, ¬ perm_named cd i k)) h.
Proof.
  unfold perm_named, perm_entries. eapply wp_mono; [apply perm_name_ok|]. intros [rc name] h' [-> Hr].
  destruct (class_comdatum cd) as [com|]; cycle 1.
  - apply wp_ret. split; [done|]. destruct Hr as [[-> (k&->&Hk)]|(->&->&Hk)]; cbn.
    + exists k. rewrite app_nil_r. done.
    + intros k. rewrite app_nil_r. apply Hk.
  - destruct Hr as [[-> (k&->&Hk)]|(->&->&Hk)]; cbn [truth Z.eqb negb].
    + apply wp_ret. split; [done|]. exists k. split; [done|]. apply elem_of_app. by left.
    + eapply wp_mono; [apply perm_name_ok|]. intros [rc name] h' [-> [[-> (k&->&Hk')]|(->&->&Hk')]]; (split; [done|]).
      * exists k. split; [done|]. apply elem_of_app. by right.
      * intros k [Hin|Hin]%elem_of_app; [by eapply Hk|by eapply Hk'].
Qed.

Lemma sepol_av_to_string_ok p tclass cd av old h :
  class_described p tclass → at_val (class_val_to_struct p) tclass = Some cd →
  wp (sepol_av_to_string p tclass av old) (λ '(r, _) h', h' = h ∧ ∃ text, r = Some text ∧ perms_listed cd av old text) h.
Proof.
  intros (_&cd'&Hcd'&Hn&Hshort) Hcd. rewrite Hcd in Hcd'. injection Hcd' as <-. unfold sepol_av_to_string.
  eapply wp_bind, wp_deref; [done|]. apply wp_bind.
  apply (wp_for_loop (λ i '(perm, text) h', h' = h ∧ (∀ k, perm = Some k → strlen k ≤ 30) ∧
    strlen (default EmptyString text) ≤ 31 * i ∧ perms_text cd av i text)).
  - split_and!; [done|done|done|]. intros _. by exists [].
  - intros i [perm text] h' Hi (->&Hp&Ht&Hlist). rewrite (proj2 (Z.leb_gt _ _)) by lia.
    rewrite truth_land_bit by lia. destruct (Z.testbit av i) eqn:Eb; cbn [negb];
      [|apply wp_ret; split_and!; [done|done|lia|by apply perms_text_skip; [lia|..]]].
    apply wp_bind. eapply wp_mono; [apply perm_of_bit_ok|]. intros [rc0 name0] h0 Hw. apply wp_bind.
    eapply wp_mono; [exact Hw|]. clear rc0 name0 h0 Hw. intros [rc name] h' [-> Hr].
    assert (Hp' : ∀ k, (if truth rc then name else perm) = Some k → strlen k ≤ 30 ∧
      perms_text cd av (i + 1) (Some (default EmptyString text +:+ String " " k))).
    { intros k. destruct (truth rc).
      - destruct Hr as (k'&->&Hk). intros [= <-]. split; [by eapply Hshort|]. apply perms_text_add; [lia|done..].
      - intros Hk. split; [by apply Hp|]. apply perms_text_unnamed; [lia|done..]. }
    destruct (if truth rc then name else perm) as [k|] eqn:Ek.
    + destruct (Hp' k eq_refl) as [Hk Hl]. unfold AVBUF_SIZE. rewrite (proj2 (Z.leb_gt _ _)) by lia.
      apply wp_ret. split_and!; [done|by intros k' [= <-]| |done].
      change (strlen (default EmptyString text +:+ String " " k) ≤ 31 * (i + 1)). rewrite strlen_app, strlen_cons. lia.
    + destruct (truth rc); [by destruct Hr as (k&->&_)|]. apply wp_ret. split_and!; [done|done|lia|].
      apply perms_text_unnamed; [lia|done..].
  - intros [perm text] h' (->&_&_&Hl). apply wp_ret. split; [done|]. exists (default old text). split; [done|].
    exists text. by rewrite perms_text_max in Hl.
Qed.

(** the statement is an MLS one when an expression has a number of the MLS ones *)
Definition statement_word (c : constraint_node) (xc : option context_struct) : string :=
  (if bool_decide (Exists (λ e, CEXPR_L1L2 ≤ ce_attr e) (cn_expr c)) then "mls" else "") +:+
  (match xc with Some _ => "validatetrans " | None => "constrain " end).
(** what the explanation of a constraint begins with *)
Definition class_text (p : policydb) (tclass : Z) (c : constraint_node) (xc : option context_struct) (st : sec_state)
    (text : string) : Prop :=
  ∃ name cd perms, at_val (p_class_val_to_name p) tclass = Some name ∧ at_val (class_val_to_struct p) tclass = Some cd ∧
    perms_listed cd (cn_permissions c) (avbuf st) perms ∧
    text = statement_word c xc +:+ name +:+ " {" +:+ perms +:+ " } (".
Lemma mls_statement l : bool_decide (Exists (λ e, CEXPR_L1L2 ≤ ce_attr e) l) = existsb (λ e, CEXPR_L1L2 <=? ce_attr e) l.
Proof.
  induction l as [|e l IH]; [done|]. cbn [existsb]. rewrite <- IH. apply eq_true_iff_eq.
  rewrite orb_true_iff, !bool_decide_eq_true, Z.leb_le. apply Exists_cons.
Qed.

Lemma class_info_loop_ok fuel text len h :
  mem_ok h → strlen text < len + 1024 * Z.of_nat fuel →
  wp (class_info_loop fuel text len) (λ r h', mem_ok h' ∧ r = Some text) h.
Proof.
  revert len h. induction fuel as [|fuel IH]; intros len h Ho Hf; cbn [class_info_loop];
    (destruct (Z.ltb_spec (strlen text) len) as [|Hge]; [by apply wp_ret|]); [lia|].
  apply wp_bind, wp_malloc_ok; [done|]. intros a h' Ho'. apply IH; [done|unfold EXPR_BUF_SIZE; lia].
Qed.
Lemma get_class_info_ok p tclass c xc st h :
  mem_ok h → class_described p tclass →
  wp (get_class_info p tclass c xc st) (λ '(r, st') h', mem_ok h' ∧ (∃ text, r = Some text ∧ class_text p tclass c xc st text) ∧
    stack_len st' = stack_len st ∧ stack st' = stack st) h.
Proof.
  intros Ho Hd. unfold get_class_info. apply wp_bind, wp_malloc_ok; [done|]. intros a h1 Ho1.
  rewrite bool_decide_eq_false_2 by done. apply wp_bind. unfold class_info_text.
  destruct (proj1 Hd) as [name Hname], (proj2 Hd) as (cd&Hcd&_).
  eapply wp_bind, wp_deref; [done|]. apply wp_bind. eapply wp_mono; [by apply sepol_av_to_string_ok|].
  intros [r old] h2 [-> (perms&->&Hperms)]. eapply wp_bind, wp_deref; [done|]. apply wp_ret. apply wp_bind.
  eapply wp_mono; [apply class_info_loop_ok; [done|unfold strlen, EXPR_BUF_SIZE; lia]|].
  intros r h2 [Ho2 ->]. apply wp_ret. split_and!; [done| |done|done]. eexists. split; [done|].
  exists name, cd, perms. split_and!; [done..|]. unfold statement_word. rewrite mls_statement. by destruct (existsb _ _), xc.
Qed.
End class_info.

(** ** What a constraint means *)

#[export] Instance level_le_dec l1 l2 : Decision (level_le l1 l2).
Proof. unfold level_le. apply _. Defined.

Section meaning.
Context (p : policydb) (sc tc : context_struct) (xc : option context_struct).

Definition level_rel (op : Z) (l1 l2 : mls_level) : option bool :=
  if op =? CEXPR_EQ then Some (bool_decide (l1 = l2))
  else if op =? CEXPR_NEQ then Some (bool_decide (l1 ≠ l2))
  else if op =? CEXPR_DOM then Some (bool_decide (level_le l2 l1))
  else if op =? CEXPR_DOMBY then Some (bool_decide (level_le l1 l2))
  else if op =? CEXPR_INCOMP then Some (bool_decide (¬ level_le l1 l2 ∧ ¬ level_le l2 l1))
  else None.
Definition value_rel (op v1 v2 : Z) : option bool :=
  if op =? CEXPR_EQ then Some (bool_decide (v1 = v2))
  else if op =? CEXPR_NEQ then Some (bool_decide (v1 ≠ v2)) else None.
(** role [r] dominates the role of value [v] *)
Definition role_over (r : role_datum) (v : Z) : Prop := u32 (v - 1) ∈ ebitmap_set (role_dominates r).
#[local] Instance role_over_dec r v : Decision (role_over r v).
Proof. unfold role_over. apply _. Defined.
Definition role_rel (op v1 v2 : Z) : option bool :=
  match at_index (role_val_to_struct p) v1, at_index (role_val_to_struct p) v2 with
  | Some r1, Some r2 =>
      if op =? CEXPR_DOM then r1 ← r1; Some (bool_decide (role_over r1 v2))
      else if op =? CEXPR_DOMBY then r2 ← r2; Some (bool_decide (role_over r2 v1))
      else if op =? CEXPR_INCOMP then r1 ← r1; r2 ← r2; Some (bool_decide (¬ role_over r1 v2 ∧ ¬ role_over r2 v1))
      else value_rel op v1 v2
  | _, _ => None
  end.
(** the four levels of a pair of contexts *)
Inductive side := SrcLow | SrcHigh | TgtLow | TgtHigh.
Definition side_level (s : side) : mls_level :=
  match s with
  | SrcLow => low_level (c_range sc) | SrcHigh => high_level (c_range sc)
  | TgtLow => low_level (c_range tc) | TgtHigh => high_level (c_range tc)
  end.
Definition side_word (s : side) : string := match s with SrcLow => "l1" | SrcHigh => "h1" | TgtLow => "l2" | TgtHigh => "h2" end.
(** what the MLS attributes compare *)
Inductive compares : Z → side → side → Prop :=
  | compares_l1l2 : compares CEXPR_L1L2 SrcLow TgtLow
  | compares_l1h2 : compares CEXPR_L1H2 SrcLow TgtHigh
  | compares_h1l2 : compares CEXPR_H1L2 SrcHigh TgtLow
  | compares_h1h2 : compares CEXPR_H1H2 SrcHigh TgtHigh
  | compares_l1h1 : compares CEXPR_L1H1 SrcLow SrcHigh
  | compares_l2h2 : compares CEXPR_L2H2 TgtLow TgtHigh.
(** the operators, with the word that equality has between values or levels *)
Inductive op_word (eq_word : string) : Z → string → Prop :=
  | word_eq : op_word eq_word CEXPR_EQ eq_word
  | word_neq : op_word eq_word CEXPR_NEQ "!="
  | word_dom : op_word eq_word CEXPR_DOM "dom"
  | word_domby : op_word eq_word CEXPR_DOMBY "domby"
  | word_incomp : op_word eq_word CEXPR_INCOMP "incomp".
(** [attr_means e v x op y]: the comparison [e] has the value [v]; its operands
    and its operator read [x], [y] and [op] *)
Inductive attr_means (e : constraint_expr) (v : bool) (op : string) : string → string → Prop :=
  | means_user : ce_attr e = CEXPR_USER → value_rel (ce_op e) (c_user sc) (c_user tc) = Some v →
      op_word "==" (ce_op e) op → attr_means e v op "u1" "u2"
  | means_role : ce_attr e = CEXPR_ROLE → role_rel (ce_op e) (c_role sc) (c_role tc) = Some v →
      op_word "==" (ce_op e) op → attr_means e v op "r1" "r2"
  | means_type : ce_attr e = CEXPR_TYPE → value_rel (ce_op e) (c_type sc) (c_type tc) = Some v →
      op_word "==" (ce_op e) op → attr_means e v op "t1" "t2"
  | means_levels x y : compares (ce_attr e) x y → level_rel (ce_op e) (side_level x) (side_level y) = Some v →
      op_word "eq" (ce_op e) op → attr_means e v op (side_word x) (side_word y).

(** the context whose user, role or type a [CEXPR_NAMES] expression tests, with
    its number: the target (bit 3), the third context (bit 4) or the source *)
Inductive tested_context (attr : Z) : context_struct → string → Prop :=
  | tests_target : Z.testbit attr 3 = true → tested_context attr tc "2"
  | tests_third c : Z.testbit attr 3 = false → Z.testbit attr 4 = true → xc = Some c → tested_context attr c "3"
  | tests_source : Z.testbit attr 3 = false → Z.testbit attr 4 = false → tested_context attr sc "1".
(** the user (bit 0), the role (bit 1) or the type (bit 2), with its letter *)
Inductive tested_value (attr : Z) (c : context_struct) : Z → Z → string → Prop :=
  | tests_user : Z.testbit attr 0 = true → tested_value attr c CEXPR_USER (c_user c) "u"
  | tests_role : Z.testbit attr 0 = false → Z.testbit attr 1 = true → tested_value attr c CEXPR_ROLE (c_role c) "r"
  | tests_type : Z.testbit attr 0 = false → Z.testbit attr 1 = false → Z.testbit attr 2 = true →
      tested_value attr c CEXPR_TYPE (c_type c) "t".
(** whether the value is one of those listed, and the names printed *)
Inductive names_means (e : constraint_expr) : bool → string → Prop :=
  names_means_intro c num kind val letter v op types :
    tested_context (ce_attr e) c num → tested_value (ce_attr e) c kind val letter →
    (let listed := u32 (val - 1) ∈ ebitmap_set (ce_names e) in
     ce_op e = CEXPR_EQ ∧ op = "==" ∧ v = bool_decide listed ∨ ce_op e = CEXPR_NEQ ∧ op = "!=" ∧ v = bool_decide (¬ listed)) →
    printed_names p e kind = Some types → ebitmap_wf types → names_known p kind types →
    names_means e v ("(" +:+ letter +:+ num +:+ " " +:+ op +:+ names_text p kind types +:+ verdict v).

(** the value of an expression without operands, and its text *)
Inductive leaf_means (e : constraint_expr) (v : bool) : string → Prop :=
  | leaf_attr op x y : ce_expr_type e = CEXPR_ATTR → attr_means e v op x y →
      leaf_means e v ("(" +:+ x +:+ " " +:+ op +:+ " " +:+ y +:+ verdict v)
  | leaf_names t : ce_expr_type e = CEXPR_NAMES → ebitmap_wf (ce_names e) → names_means e v t → leaf_means e v t.
Definition leaf_val (e : constraint_expr) (v : bool) : Prop := ∃ t, leaf_means e v t.

(** the text of a negation: an operand that starts with "not" is put between
    parentheses *)
Definition not_text (x : string) : string :=
  if String.prefix "not" x then "not (" +:+ x +:+ ")" else "not" +:+ x.

(** [means l v x d]: the expressions [l] are an expression in reverse polish
    notation of value [v] that needs a stack of [d] values and reads [x] in
    infix notation *)
Inductive means : list constraint_expr → bool → string → nat → Prop :=
  | means_leaf e v x : leaf_means e v x → means [e] v x 1
  | means_not l e v x d : means l v x d → ce_expr_type e = CEXPR_NOT → means (l ++ [e]) (negb v) (not_text x) d
  | means_and l1 l2 e v1 v2 x1 x2 d1 d2 : means l1 v1 x1 d1 → means l2 v2 x2 d2 → ce_expr_type e = CEXPR_AND →
      means (l1 ++ l2 ++ [e]) (v1 && v2) (x1 +:+ " and " +:+ x2) (d1 `max` S d2)
  | means_or l1 l2 e v1 v2 x1 x2 d1 d2 : means l1 v1 x1 d1 → means l2 v2 x2 d2 → ce_expr_type e = CEXPR_OR →
      means (l1 ++ l2 ++ [e]) (v1 || v2) (x1 +:+ " or " +:+ x2) (d1 `max` S d2).
(** the value without the text *)
Definition denotes (l : list constraint_expr) (v : bool) (d : nat) : Prop := ∃ x, means l v x d.

Lemma denotes_leaf e v : leaf_val e v → denotes [e] v 1.
Proof. intros [x Hx]. exists x. by apply means_leaf. Qed.
Lemma denotes_not l e v d : denotes l v d → ce_expr_type e = CEXPR_NOT → denotes (l ++ [e]) (negb v) d.
Proof. intros [x Hx] He. eexists. by apply means_not. Qed.
Lemma denotes_and l1 l2 e v1 v2 d1 d2 :
  denotes l1 v1 d1 → denotes l2 v2 d2 → ce_expr_type e = CEXPR_AND → denotes (l1 ++ l2 ++ [e]) (v1 && v2) (d1 `max` S d2).
Proof. intros [x1 H1] [x2 H2] He. eexists. by apply means_and. Qed.
Lemma denotes_or l1 l2 e v1 v2 d1 d2 :
  denotes l1 v1 d1 → denotes l2 v2 d2 → ce_expr_type e = CEXPR_OR → denotes (l1 ++ l2 ++ [e]) (v1 || v2) (d1 `max` S d2).
Proof. intros [x1 H1] [x2 H2] He. eexists. by apply means_or. Qed.

(** the contexts and roles are well-formed *)
Record meaning_wf : Prop := {
  mw_sc : context_wf sc;
  mw_tc : context_wf tc;
  mw_roles r v : at_index (role_val_to_struct p) v = Some (Some r) → ebitmap_wf (role_dominates r)
}.
End meaning.

(** ** Theory: evaluation *)

Section evaluation.
Context `{Target} (p : policydb) (sc tc : context_struct) (xc : option context_struct).
Context (Hwf : meaning_wf p sc tc).

Lemma get_bit_in e i : ebitmap_wf e → truth (ebitmap_get_bit e i) = bool_decide (i ∈ ebitmap_set e).
Proof.
  intros Hw. rewrite ebitmap_get_bit_eq, truth_cbool by done. apply eq_true_iff_eq.
  by rewrite bool_decide_eq_true, elem_of_ebitmap_set.
Qed.
Lemma value_op_rel op v1 v2 v w : value_rel op v1 v2 = Some v → op_word "==" op w → value_op op v1 v2 = Some (v, w).
Proof.
  intros Hv Hw. destruct Hw; unfold value_rel, value_op in *; cbn [Z.eqb CEXPR_EQ CEXPR_NEQ CEXPR_DOM CEXPR_DOMBY CEXPR_INCOMP Pos.eqb] in *;
    try done; injection Hv as <-; do 2 f_equal; apply eq_true_iff_eq;
    by rewrite bool_decide_eq_true, ?negb_true_iff, ?Z.eqb_eq, ?Z.eqb_neq.
Qed.
Lemma mls_op_rel op l1 l2 v w :
  level_wf l1 → level_wf l2 → level_rel op l1 l2 = Some v → op_word "eq" op w → mls_op op l1 l2 = Some (v, w).
Proof.
  intros H1 H2 Hv Hw.
  assert (∀ a b, level_wf a → level_wf b → mls_level_dom a b = bool_decide (level_le b a)) as Hd.
  { intros. apply eq_true_iff_eq. by rewrite bool_decide_eq_true, mls_level_dom_le. }
  assert (mls_level_eq l1 l2 = bool_decide (l1 = l2)) as He.
  { apply eq_true_iff_eq. by rewrite bool_decide_eq_true, mls_level_eq_true. }
  destruct Hw; unfold level_rel, mls_op in *; cbn [Z.eqb CEXPR_EQ CEXPR_NEQ CEXPR_DOM CEXPR_DOMBY CEXPR_INCOMP Pos.eqb] in *;
    injection Hv as <-; do 2 f_equal; [done|by rewrite He, bool_decide_not|by apply Hd..|].
  unfold mls_level_incomp. rewrite !Hd by done. rewrite <- !bool_decide_not.
  apply eq_true_iff_eq. rewrite andb_true_iff, !bool_decide_eq_true. tauto.
Qed.
Lemma attr_levels_compares attr x y : compares attr x y →
  attr_levels (c_range sc) (c_range tc) attr =
    Some (side_level sc tc x, side_level sc tc y, side_word x, side_word y).
Proof. by destruct 1. Qed.
Lemma side_level_wf x : level_wf (side_level sc tc x).
Proof. destruct Hwf as [[? ?] [? ?] _]. by destruct x. Qed.
Lemma role_op_ok op v1 v2 r1 r2 v w h :
  at_index (role_val_to_struct p) v1 = Some r1 → at_index (role_val_to_struct p) v2 = Some r2 →
  role_rel p op v1 v2 = Some v → op_word "==" op w →
  wp (role_op op v1 v2 r1 r2) (λ r h', h' = h ∧ r = Some (v, w)) h.
Proof.
  intros H1 H2 Hv Hw. unfold role_rel, role_op in *. rewrite H1, H2 in Hv.
  assert (Hd : ∀ r w u, at_index (role_val_to_struct p) u = Some (Some r) →
    truth (ebitmap_get_bit (role_dominates r) (u32 (w - 1))) = bool_decide (u32 (w - 1) ∈ ebitmap_set (role_dominates r))).
  { intros r z u Hr. apply get_bit_in. by eapply mw_roles. }
  destruct Hw; cbn [Z.eqb CEXPR_EQ CEXPR_NEQ CEXPR_DOM CEXPR_DOMBY CEXPR_INCOMP Pos.eqb] in *;
    [apply wp_ret; split; [done|]; apply value_op_rel; [done|constructor]..| | |].
  - destruct r1 as [r1|]; [|done]. injection Hv as <-. apply wp_bind. eapply wp_bind, wp_deref; [done|].
    apply wp_ret, wp_ret. split; [done|]. by erewrite Hd.
  - destruct r2 as [r2|]; [|done]. injection Hv as <-. apply wp_bind. eapply wp_bind, wp_deref; [done|].
    apply wp_ret, wp_ret. split; [done|]. by erewrite Hd.
  - destruct r1 as [r1|], r2 as [r2|]; try done. injection Hv as <-. unfold role_over.
    apply wp_bind. eapply wp_bind, wp_deref; [done|]. apply wp_ret. erewrite Hd by done. case_bool_decide as E1.
    + apply wp_ret. split; [done|]. by rewrite bool_decide_eq_false_2 by tauto.
    + apply wp_bind. eapply wp_bind, wp_deref; [done|]. apply wp_ret, wp_ret. erewrite Hd by done. split; [done|]. do 2 f_equal.
      rewrite <- bool_decide_not. apply bool_decide_ext. tauto.
Qed.

Lemma eval_attr_ok e v op x y h :
  mem_ok h → attr_means p sc tc e v op x y →
  wp (eval_attr p sc tc e) (λ '(r, src, tgt) h', mem_ok h' ∧ r = Some (v, op) ∧ src = Some x ∧ tgt = Some y) h.
Proof.
  intros Ho Hv. unfold eval_attr.
  assert (Hdup : ∀ n1 n2, wp (src ← strdup n1; tgt ← strdup n2; mret (Some (v, op), src, tgt))
    (λ '(r, src, tgt) h', mem_ok h' ∧ r = Some (v, op) ∧ src = Some n1 ∧ tgt = Some n2) h).
  { intros n1 n2. apply wp_bind, strdup_ok; [done|]. intros h1 Ho1. apply wp_bind, strdup_ok; [done|].
    intros h2 Ho2. by apply wp_ret. }
  destruct Hv as [He Hv Hw|He Hv Hw|He Hv Hw|x y Hc Hv Hw].
  - rewrite He. cbn [Z.eqb CEXPR_USER Pos.eqb]. erewrite value_op_rel by done. apply Hdup.
  - rewrite He. cbn [Z.eqb CEXPR_USER CEXPR_TYPE CEXPR_ROLE Pos.eqb]. pose proof Hv as Hr. unfold role_rel in Hr.
    destruct (at_index _ (c_role sc)) as [r1|] eqn:E1; [|done].
    destruct (at_index _ (c_role tc)) as [r2|] eqn:E2; [|done]. clear Hr.
    eapply wp_bind, wp_deref; [done|]. eapply wp_bind, wp_deref; [done|].
    apply wp_bind, strdup_ok; [done|]. intros h1 Ho1. apply wp_bind, strdup_ok; [done|]. intros h2 Ho2.
    apply wp_bind. eapply wp_mono; [by eapply role_op_ok|]. intros r h3 [-> ->]. by apply wp_ret.
  - rewrite He. cbn [Z.eqb CEXPR_USER CEXPR_TYPE Pos.eqb]. erewrite value_op_rel by done. apply Hdup.
  - assert ((ce_attr e =? CEXPR_USER) = false ∧ (ce_attr e =? CEXPR_TYPE) = false ∧ (ce_attr e =? CEXPR_ROLE) = false)
      as (->&->&->) by by destruct Hc.
    rewrite (attr_levels_compares _ _ _ Hc). erewrite mls_op_rel by (done || apply side_level_wf). apply Hdup.
Qed.
Lemma words_short e v op x y : attr_means p sc tc e v op x y → strlen x + strlen op + strlen y ≤ 110.
Proof.
  assert (∀ s, strlen (side_word s) = 2) as Hs by by intros [].
  intros [_ _ Hw|_ _ Hw|_ _ Hw|a b _ _ Hw]; destruct Hw; rewrite ?Hs; unfold strlen; cbn; lia.
Qed.

Lemma tested_context_eq attr c num : tested_context sc tc xc attr c num → names_context sc tc xc attr = (Some c, num).
Proof.
  unfold names_context. change CEXPR_TARGET with (Z.shiftl 1 3). change CEXPR_XTARGET with (Z.shiftl 1 4).
  rewrite !truth_land_bit by lia. intros [Ha|c' Ha Hb Hc|Ha Hb]; rewrite Ha, ?Hb, ?Hc; done.
Qed.
Lemma tested_value_eq attr c kind val letter : tested_value attr c kind val letter → names_kind c attr = Some (kind, val, letter).
Proof.
  unfold names_kind. change (Z.land attr CEXPR_USER) with (Z.land attr (Z.shiftl 1 0)).
  change (Z.land attr CEXPR_ROLE) with (Z.land attr (Z.shiftl 1 1)). change (Z.land attr CEXPR_TYPE) with (Z.land attr (Z.shiftl 1 2)).
  rewrite !truth_land_bit by lia. intros [Ha|Ha Hb|Ha Hb Hc]; rewrite Ha, ?Hb, ?Hc; done.
Qed.
Lemma eval_names_ok e v t s b h :
  mem_ok h → buf_ok b → eb_text b = EmptyString → ebitmap_wf (ce_names e) → names_means p sc tc xc e v t →
  wp (eval_names p sc tc xc e s b) (λ r h', mem_ok h' ∧ ∃ b', r = Next (cbool v :: s) b' ∧ eb_text b' = t) h.
Proof.
  intros Ho Hb He Hw [c num kind val letter v' op types Hc Hk Hop Hty Htw Hkn]. unfold eval_names.
  rewrite (tested_context_eq _ _ _ Hc), (tested_value_eq _ _ _ _ _ Hk). apply wp_bind, strdup_ok; [done|]. intros h1 Ho1.
  rewrite get_bit_in by done.
  assert (Hshort : strlen (letter +:+ num +:+ " ") + strlen op ≤ 110).
  { destruct Hop as [(_&->&_)|(_&->&_)], Hc, Hk; done. }
  destruct Hop as [(->&->&->)|(->&->&->)]; cbn [Z.eqb CEXPR_EQ CEXPR_NEQ Pos.eqb].
  - apply wp_bind. eapply wp_mono; [by eapply get_name_list_ok|]. intros b' h2 (Ho2&_&Ht). apply wp_ret.
    split; [done|]. exists b'. split; [done|]. by rewrite Ht, !string_app_assoc.
  - apply wp_bind. eapply wp_mono; [rewrite <- (negb_involutive (bool_decide (u32 _ ∈ _))); by eapply get_name_list_ok|].
    intros b' h2 (Ho2&_&Ht). apply wp_ret.
    split; [done|]. exists b'. rewrite bool_decide_not. split; [done|]. by rewrite Ht, !string_app_assoc.
Qed.

Lemma eval_leaf_ok e v t s b h :
  mem_ok h → buf_ok b → eb_text b = EmptyString → leaf_means p sc tc xc e v t → (length s < 5)%nat →
  wp (eval_step p sc tc xc e s b) (λ r h', mem_ok h' ∧ ∃ b', r = Next (cbool v :: s) b' ∧ eb_text b' = t) h.
Proof.
  intros Ho Hb He Hl Hs. unfold eval_step.
  assert (Z.of_nat (length s) =? CEXPR_MAXDEPTH = false) as Hd by (unfold CEXPR_MAXDEPTH; lia).
  destruct Hl as [op x y -> Hv|t -> Hw Hn]; cbn [Z.eqb CEXPR_ATTR CEXPR_NAMES CEXPR_NOT CEXPR_AND CEXPR_OR Pos.eqb];
    rewrite Hd; [|by apply eval_names_ok].
  apply wp_bind. eapply wp_mono; [by apply eval_attr_ok|]. intros [[r src] tgt] h1 (Ho1&->&->&->).
  apply wp_bind. eapply wp_mono; [by apply msgcat_ok; [..|eapply words_short]|]. intros b' h2 (Ho2&_&Hop).
  apply wp_ret. split; [done|]. by exists b'.
Qed.
Lemma leaf_opens e v t : leaf_means p sc tc xc e v t → opens t.
Proof. intros [op x y _ _|t' _ _ Hn]; [|destruct Hn]; by eexists. Qed.

(** *** The texts in infix notation *)

Lemma push_ok st x h : mem_ok h → wp (push st x) (λ st' h', mem_ok h' ∧ stack st' = x :: stack st) h.
Proof.
  intros Ho. unfold push. destruct (_ <=? _); [|by apply wp_ret].
  apply wp_bind, wp_malloc_ok; [done|]. intros a h' Ho'. by apply wp_ret.
Qed.
(** the texts leave one entry more on the stack *)
Definition pushes (ts : list string) (x : string) : Prop :=
  ∀ more st Q h, mem_ok h →
    (∀ st' h', mem_ok h' → stack st' = x :: stack st → wp (infix_loop st' more) Q h') →
    wp (infix_loop st (ts ++ more)) Q h.

Lemma opens_pushes x : opens x → pushes [x] x.
Proof.
  intros [x' ->] more st Q h Ho HQ. cbn [app infix_loop]. apply wp_bind. unfold infix_step. cbn [String.prefix].
  cbn. apply wp_bind. eapply wp_mono; [by apply push_ok|]. intros st' h' [Ho' Hs]. apply wp_ret. by eapply HQ.
Qed.
Lemma not_pushes ts x : pushes ts x → pushes (ts ++ ["not"]) (not_text x).
Proof.
  intros Hts more st Q h Ho HQ. rewrite <- app_assoc. apply Hts; [done|]. intros st1 h1 Ho1 Hs1.
  cbn [app infix_loop]. apply wp_bind. unfold infix_step, pop. cbn [String.prefix]. cbn. rewrite Hs1.
  eapply wp_bind, wp_deref; [done|]. apply wp_bind, wp_malloc_ok; [done|]. intros a h2 Ho2.
  rewrite bool_decide_eq_false_2 by done.
  rewrite (proj2 (Z.ltb_lt _ _)).
  - apply wp_bind. eapply wp_mono; [by apply push_ok|]. intros st' h' [Ho' Hs]. apply wp_ret. apply HQ; [done|].
    rewrite Hs. unfold not_text. by destruct (String.prefix "not" x).
  - pose proof (strlen_nonneg x). destruct (String.prefix "not" x); rewrite !strlen_app; unfold strlen; cbn; lia.
Qed.
Lemma binary_pushes op ts1 ts2 x1 x2 :
  op = "and" ∨ op = "or" → pushes ts1 x1 → pushes ts2 x2 →
  pushes (ts1 ++ ts2 ++ [op]) (x1 +:+ " " +:+ op +:+ " " +:+ x2).
Proof.
  intros Hx H1 H2 more st Q h Ho HQ. rewrite <- !app_assoc. apply H1; [done|]. intros st1 h1 Ho1 Hs1.
  apply H2; [done|]. intros st2 h2 Ho2 Hs2. cbn [app infix_loop]. apply wp_bind. unfold infix_step, pop.
  assert (String.prefix "and" op || String.prefix "or" op = true) as -> by by destruct Hx as [-> | ->].
  rewrite Hs2. eapply wp_bind, wp_deref; [done|]. cbn [stack]. rewrite Hs1. eapply wp_bind, wp_deref; [done|].
  apply wp_bind, wp_malloc_ok; [done|]. intros aa h3 Ho3. rewrite bool_decide_eq_false_2 by done.
  rewrite (proj2 (Z.ltb_lt _ _)).
  - apply wp_bind. eapply wp_mono; [by apply push_ok|]. intros st' h' [Ho' Hs]. apply wp_ret. by eapply HQ.
  - rewrite !strlen_app. destruct Hx as [-> | ->]; unfold strlen; cbn; lia.
Qed.

(** *** The values *)

Lemma eval_loop_step e rest len s texts (Q : Z + list Z * list string → heap → Prop) h :
  mem_ok h →
  (∀ h', mem_ok h' → wp (eval_step p sc tc xc e s (ExprBuf EmptyString 0 EXPR_BUF_SIZE)) (λ r h2,
     ∃ s' b', r = Next s' b' ∧ ∀ len', wp (eval_loop p sc tc xc rest len' s' (texts ++ [eb_text b'])) Q h2) h') →
  wp (eval_loop p sc tc xc (e :: rest) len s texts) Q h.
Proof.
  intros Ho Hstep. cbn [eval_loop]. apply wp_bind. eapply (wp_mono _ (λ r h', mem_ok h' ∧ r ≠ None)).
  { destruct (len <=? _); [|by apply wp_ret]. by apply wp_malloc_ok. }
  intros r h1 [Ho1 Hr]. rewrite bool_decide_eq_false_2 by done. apply wp_bind, wp_malloc_ok; [done|]. intros a h2 Ho2.
  rewrite bool_decide_eq_false_2 by done. apply wp_bind. eapply wp_mono; [by apply Hstep|].
  intros r' h3 (s'&b'&->&Hw). apply Hw.
Qed.
Lemma buf_ok_empty : buf_ok (ExprBuf EmptyString 0 EXPR_BUF_SIZE).
Proof. by split. Qed.

Lemma means_depth l v x d : means p sc tc xc l v x d → (1 ≤ d)%nat.
Proof. induction 1; lia. Qed.

Lemma eval_loop_means l v x d : means p sc tc xc l v x d →
  ∀ rest len s texts (Q : Z + list Z * list string → heap → Prop) h, mem_ok h → (length s + d ≤ 5)%nat →
    (∀ len' ts h', mem_ok h' → pushes ts x → wp (eval_loop p sc tc xc rest len' (cbool v :: s) (texts ++ ts)) Q h') →
    wp (eval_loop p sc tc xc (l ++ rest) len s texts) Q h.
Proof.
  assert (Hop : ∀ t h, mem_ok h → wp (cat_expr_buf (ExprBuf EmptyString 0 EXPR_BUF_SIZE) t)
    (λ b' h', mem_ok h' ∧ eb_text b' = t) h).
  { intros t h Ho. eapply wp_mono; [apply cat_expr_buf_ok; [done|apply buf_ok_empty]|]. by intros b' h' (?&_&->). }
  induction 1 as [e v x Hl|l e v x d _ IH He|l1 l2 e v1 v2 x1 x2 d1 d2 _ IH1 Hd2 IH2 He|l1 l2 e v1 v2 x1 x2 d1 d2 _ IH1 Hd2 IH2 He];
    intros rest len s texts Q h Ho Hlen HQ.
  - apply eval_loop_step; [done|]. intros h1 Ho1.
    eapply wp_mono; [eapply eval_leaf_ok; [done|apply buf_ok_empty|done|done|lia]|].
    intros r h2 (Ho2&b'&->&Hop2). exists (cbool v :: s), b'. split; [done|]. intros len'. rewrite Hop2.
    apply HQ; [done|]. eapply opens_pushes, leaf_opens, Hl.
  - rewrite <- app_assoc. apply IH; [done|lia|]. intros len1 ts h1 Ho1 Hts. apply eval_loop_step; [done|]. intros h2 Ho2.
    unfold eval_step. rewrite He. cbn [Z.eqb CEXPR_NOT Pos.eqb]. apply wp_fmap. eapply wp_mono; [by apply Hop|].
    intros b' h3 [Ho3 Hb']. exists (cbool (negb (truth (cbool v))) :: s), b'. split; [done|]. intros len'.
    rewrite truth_cbool, Hb', <- app_assoc. apply HQ; [done|by apply not_pushes].
  - rewrite <- !app_assoc. pose proof (means_depth _ _ _ _ Hd2). apply IH1; [done|lia|]. intros len1 ts1 h1 Ho1 Hts1.
    apply IH2; [done|cbn; lia|]. intros len2 ts2 h2 Ho2 Hts2. apply eval_loop_step; [done|]. intros h3 Ho3.
    unfold eval_step. rewrite He. cbn [Z.eqb CEXPR_NOT CEXPR_AND Pos.eqb]. apply wp_fmap. eapply wp_mono; [by apply Hop|].
    intros b' h4 [Ho4 Hb']. exists (Z.land (cbool v1) (cbool v2) :: s), b'. split; [done|]. intros len'.
    assert (Z.land (cbool v1) (cbool v2) = cbool (v1 && v2)) as -> by by destruct v1, v2.
    rewrite Hb', <- !app_assoc. apply HQ; [done|]. apply (binary_pushes "and"); auto.
  - rewrite <- !app_assoc. pose proof (means_depth _ _ _ _ Hd2). apply IH1; [done|lia|]. intros len1 ts1 h1 Ho1 Hts1.
    apply IH2; [done|cbn; lia|]. intros len2 ts2 h2 Ho2 Hts2. apply eval_loop_step; [done|]. intros h3 Ho3.
    unfold eval_step. rewrite He. cbn [Z.eqb CEXPR_NOT CEXPR_AND CEXPR_OR Pos.eqb]. apply wp_fmap. eapply wp_mono; [by apply Hop|].
    intros b' h4 [Ho4 Hb']. exists (Z.lor (cbool v1) (cbool v2) :: s), b'. split; [done|]. intros len'.
    assert (Z.lor (cbool v1) (cbool v2) = cbool (v1 || v2)) as -> by by destruct v1, v2.
    rewrite Hb', <- !app_assoc. apply HQ; [done|]. apply (binary_pushes "or"); auto.
Qed.
End evaluation.

(** ** Theory: the whole function *)

Section whole.
Context `{Target}.

Definition reason_ok (rb : reason_buf) : Prop := strlen (rb_text rb) ≤ rb_len rb.

Lemma reason_cat_ok rb s h :
  mem_ok h → reason_ok rb →
  wp (reason_cat rb s) (λ rb' h', mem_ok h' ∧ reason_ok rb' ∧ rb_text rb' = rb_text rb +:+ s) h.
Proof.
  intros Ho Hr. unfold reason_cat, reason_ok in *.
  assert (Hf : strlen s < rb_len rb - strlen (rb_text rb) + 2048 * Z.of_nat (S (String.length (rb_text rb +:+ s)))).
  { pose proof (strlen_app (rb_text rb) s) as Ha. pose proof (strlen_nonneg (rb_text rb)). unfold strlen in *. lia. }
  revert Hf. generalize (S (String.length (rb_text rb +:+ s))) as fuel. intros fuel. revert rb h Ho Hr.
  induction fuel as [|fuel IH]; intros rb h Ho Hr Hf; cbn [reason_cat_loop];
    (destruct (Z.leb_spec (rb_len rb - strlen (rb_text rb)) (strlen s));
      [|apply wp_ret; split_and!; [done|cbn; rewrite strlen_app; lia|done]]); [lia|].
  apply wp_bind, wp_malloc_ok; [done|]. intros a h' Ho'.
  apply (IH (ReasonBuf (rb_text rb) (rb_len rb + REASON_BUF_SIZE))); [done|unfold REASON_BUF_SIZE; cbn; lia..].
Qed.
Lemma reason_cat_all_ok rb l h :
  mem_ok h → reason_ok rb →
  wp (reason_cat_all rb l) (λ rb' h', mem_ok h' ∧ reason_ok rb' ∧ rb_text rb' = foldl (λ a b, a +:+ b) (rb_text rb) l) h.
Proof.
  revert rb h. induction l as [|s l IH]; intros rb h Ho Hr; [by apply wp_ret|]. cbn [reason_cat_all].
  apply wp_bind. eapply wp_mono; [by apply reason_cat_ok|]. intros rb' h' (Ho'&Hr'&Ht).
  eapply wp_mono; [by apply IH|]. intros rb2 h2 (?&?&->). by rewrite Ht.
Qed.

(** What is added to the buffer of the caller: nothing, or the class, the
    kind of statement and the permissions [intro], the expression [x] and the
    verdict. *)
Definition explained (intro : string → Prop) (x : string) (v : bool) (flags : Z) (rb rb' : option reason_buf) : Prop :=
  match rb, rb' with
  | None, None => True
  | Some rb, Some rb' =>
      if negb v || (Z.land flags SHOW_GRANTED =? SHOW_GRANTED)
      then reason_ok rb' ∧ ∃ text, intro text ∧ rb_text rb' =
        rb_text rb +:+ text +:+ x +:+ "); " +:+ "Constraint " +:+ (if v then "GRANTED" else "DENIED") +:+ newline
      else rb' = rb
  | _, _ => False
  end.

Lemma constraint_eval_ok p st sc tc xc tclass c rb flags v x d h :
  mem_ok h → meaning_wf p sc tc → class_described p tclass → means p sc tc xc (cn_expr c) v x d → (d ≤ 5)%nat →
  (∀ b, rb = Some b → reason_ok b) →
  wp (constraint_expr_eval_reason p st sc tc xc tclass c rb flags) (λ '(rc, st', rb') h', mem_ok h' ∧
    rc = cbool v ∧ stack st' = stack st ∧ explained (class_text p tclass c xc st) x v flags rb rb') h.
Proof.
  intros Ho Hwf Hd Hden Hdep Hrb. unfold constraint_expr_eval_reason. apply wp_bind.
  eapply wp_mono; [by apply get_class_info_ok|]. intros [cb st1] h1 (Ho1&(class_buf&->&Hcb)&_&Hs1). apply wp_bind.
  rewrite <- (app_nil_r (cn_expr c)). eapply eval_loop_means; [done|done|done|cbn; lia|].
  intros len ts h2 Ho2 Hts. apply wp_ret. apply wp_bind, wp_malloc_ok; [done|]. intros a h3 Ho3.
  rewrite bool_decide_eq_false_2 by done. apply wp_bind. rewrite app_nil_l, <- (app_nil_r ts). apply Hts; [done|].
  intros st4 h4 Ho4 Hs4. apply wp_ret. cbn [negb]. unfold pop. rewrite Hs4, Hs1.
  eapply wp_bind, wp_deref; [done|]. rewrite truth_cbool.
  destruct rb as [rb|]; [|by apply wp_ret].
  assert (((cbool v =? 0) || (cbool v =? 1) && (Z.land flags SHOW_GRANTED =? SHOW_GRANTED)) =
    (negb v || (Z.land flags SHOW_GRANTED =? SHOW_GRANTED))) as -> by by destruct v.
  destruct (negb v || _) eqn:Ev; [|apply wp_ret; split_and!; [done..|]; cbn [explained]; by rewrite Ev].
  apply wp_bind. eapply wp_mono; [apply reason_cat_all_ok; [done|by apply Hrb]|]. intros rb' h5 (Ho5&Hr5&Ht5).
  apply wp_ret. split_and!; [done..|]. cbn [explained]. rewrite Ev. split; [done|]. exists class_buf. split; [done|].
  rewrite Ht5. cbn [foldl]. by rewrite !string_app_assoc.
Qed.
End whole.

(** ** Properties *)

(** C2: with memory, the evaluation of a constraint whose expressions are a
    well-formed expression in reverse polish notation that needs at most five
    values returns its truth value, leaves the stack of texts as it was, and,
    when the constraint is refused or grants are asked for too, adds to the
    buffer of the caller the kind of statement, the class and the permissions,
    the expression in infix notation, with the comparisons and names that
    failed marked, and the verdict. *)
Theorem constraint_expr_eval_reason_correct `{Target} p st sc tc xc tclass c rb flags v x d h :
  mem_ok h → meaning_wf p sc tc → class_described p tclass → means p sc tc xc (cn_expr c) v x d → (d ≤ 5)%nat →
  (∀ b, rb = Some b → reason_ok b) →
  wp (constraint_expr_eval_reason p st sc tc xc tclass c rb flags) (λ '(rc, st', rb') h', mem_ok h' ∧
    rc = cbool v ∧ stack st' = stack st ∧ explained (class_text p tclass c xc st) x v flags rb rb') h.
Proof. apply constraint_eval_ok. Qed.
