(* ===== verification/Services.v ===== *)
(** * The security server ([services.c], second part; [context_is_valid])

    Access decisions, the validity of transitions and the labels of new
    objects.  The policy and the table of identifiers that the C code keeps in
    static variables are arguments. *)

From S2P Require Import Prelude Hashtab Symtab Ebitmap Context Avtab Sidtab Policydb CondList Mls Constraint.

Definition SEPOL_COMPUTEAV_TE : Z := 1.
Definition SEPOL_COMPUTEAV_CONS : Z := 2.
Definition SEPOL_COMPUTEAV_RBAC : Z := 4.
Definition PROCESS__TRANSITION : Z := 0x00000002.
Definition PROCESS__DYNTRANSITION : Z := 0x00800000.
(** [latest_granting] is never written *)
Definition latest_granting : Z := 0.

Section operations.
Context `{Target}.

(** ** Access decisions *)

(** the rules of [te_avtab]; they are compared with [==], not tested for a bit *)
Definition te_av_step (avd : av_decision) (nd : avtab_node) : av_decision :=
  if specified (key nd) =? AVTAB_ALLOWED then
    AvDecision (Z.lor (av_allowed avd) (data (datum nd))) (av_decided avd) (av_auditallow avd) (av_auditdeny avd) (av_seqno avd)
  else if specified (key nd) =? AVTAB_AUDITALLOW then
    AvDecision (av_allowed avd) (av_decided avd) (Z.lor (av_auditallow avd) (data (datum nd))) (av_auditdeny avd) (av_seqno avd)
  else if specified (key nd) =? AVTAB_AUDITDENY then
    AvDecision (av_allowed avd) (av_decided avd) (av_auditallow avd) (Z.land (av_auditdeny avd) (data (datum nd))) (av_seqno avd)
  else avd.
Definition pair_av (p : policydb) (tclass i j : Z) (avd : av_decision) : CM av_decision :=
  let avkey := AvKey (u16 (i + 1)) (u16 (j + 1)) tclass AVTAB_AV in
  nodes ← avtab_search_all (te_avtab p) avkey;
  cond_compute_av (te_cond_avtab p) avkey (fold_left te_av_step nodes avd).
(** the loops over the attributes of both types *)
Definition attrs_av (p : policydb) (tclass : Z) (sattr tattr : ebitmap) (avd : av_decision) : CM av_decision :=
  r ← ebitmap_for_each_bit (R := unit) sattr (λ bit i avd,
    if bit then
      r ← ebitmap_for_each_bit (R := unit) tattr (λ bit j avd,
        if bit then inr <$> pair_av p tclass i j avd else mret (inr avd)) avd;
      mret (match r with inr (avd, _) => inr avd | inl x => inl x end)
    else mret (inr avd)) avd;
  mret (match r with inr (avd, _) => avd | inl _ => avd end).

Definition with_allowed (avd : av_decision) (a : Z) : av_decision :=
  AvDecision a (av_decided avd) (av_auditallow avd) (av_auditdeny avd) (av_seqno avd).
Definition without (allowed perms : Z) : Z := Z.land allowed (u32 (Z.lnot perms)).

Fixpoint constraints_av (p : policydb) (st : sec_state) (sc tc : context_struct) (tclass : Z)
    (constraints : list constraint_node) (allowed : Z) (r_buf : option reason_buf) (flags : Z)
    : CM (Z * sec_state * option reason_buf) :=
  match constraints with
  | [] => mret (allowed, st, r_buf)
  | c :: next =>
      if truth (Z.land (cn_permissions c) allowed) then
        '(rc, st, r_buf) ← constraint_expr_eval_reason p st sc tc None tclass c r_buf flags;
        constraints_av p st sc tc tclass next (if truth rc then allowed else without allowed (cn_permissions c)) r_buf flags
      else constraints_av p st sc tc tclass next allowed r_buf flags
  end.
(** [if (requested & ~allowed) { reason |= why; requested &= allowed; }] *)
Definition note_reason (requested allowed reason why : Z) : Z * Z :=
  if truth (without requested allowed) then (Z.land requested allowed, Z.lor reason why) else (requested, reason).

(** the code, the decision, the reason, the static variables, the buffer *)
Definition context_struct_compute_av (p : policydb) (st : sec_state) (sc tc : context_struct) (tclass requested : Z)
    (avd : av_decision) (reason : Z) (r_buf : option reason_buf) (flags : Z)
    : CM (Z * av_decision * Z * sec_state * option reason_buf) :=
  if negb (truth tclass) || (nprim (p_classes p) <? tclass) then mret (- EINVAL, avd, reason, st, r_buf) else
  tclass_datum ← deref (at_index (class_val_to_struct p) tclass);
  let avd := AvDecision 0 (2 ^ 32 - 1) 0 (2 ^ 32 - 1) latest_granting in
  sattr ← deref (at_index (type_attr_map p) (c_type sc));
  tattr ← deref (at_index (type_attr_map p) (c_type tc));
  avd ← attrs_av p tclass sattr tattr avd;
  let '(requested, reason) := note_reason requested (av_allowed avd) 0 SEPOL_COMPUTEAV_TE in
  tclass_datum ← deref tclass_datum;
  '(allowed, st, r_buf) ← constraints_av p st sc tc tclass (class_constraints tclass_datum) (av_allowed avd) r_buf flags;
  let '(requested, reason) := note_reason requested allowed reason SEPOL_COMPUTEAV_CONS in
  let transition := Z.lor PROCESS__TRANSITION PROCESS__DYNTRANSITION in
  let allowed :=
    if (tclass =? SECCLASS_PROCESS) && truth (Z.land allowed transition) && negb (c_role sc =? c_role tc) &&
       bool_decide (List.find (λ ra, (c_role sc =? ra_role ra) && (c_role tc =? ra_new_role ra)) (p_role_allow p) = None)
    then without allowed transition else allowed in
  let '(requested, reason) := note_reason requested allowed reason SEPOL_COMPUTEAV_RBAC in
  mret (0, with_allowed avd allowed, reason, st, r_buf).

Definition sepol_compute_av_reason (p : policydb) (sids : sidtab) (st : sec_state) (ssid tsid tclass requested : Z)
    (avd : av_decision) (reason : Z) : CM (Z * av_decision * Z * sec_state) :=
  scontext ← sepol_sidtab_search sids ssid;
  match scontext with
  | None => mret (- EINVAL, avd, reason, st)
  | Some sc =>
      tcontext ← sepol_sidtab_search sids tsid;
      match tcontext with
      | None => mret (- EINVAL, avd, reason, st)
      | Some tc =>
          '(rc, avd, reason, st, _) ← context_struct_compute_av p st sc tc tclass requested avd reason None 0;
          mret (rc, avd, reason, st)
      end
  end.
Definition sepol_compute_av_reason_buffer (p : policydb) (sids : sidtab) (st : sec_state)
    (ssid tsid tclass requested : Z) (avd : av_decision) (reason : Z) (r_buf : option reason_buf) (flags : Z)
    : CM (Z * av_decision * Z * sec_state * option reason_buf) :=
  scontext ← sepol_sidtab_search sids ssid;
  match scontext with
  | None => mret (- EINVAL, avd, reason, st, r_buf)
  | Some sc =>
      tcontext ← sepol_sidtab_search sids tsid;
      match tcontext with
      | None => mret (- EINVAL, avd, reason, st, r_buf)
      | Some tc =>
          context_struct_compute_av p st sc tc tclass requested avd reason (Some (ReasonBuf EmptyString 0)) flags
      end
  end.
Definition sepol_compute_av (p : policydb) (sids : sidtab) (st : sec_state) (ssid tsid tclass requested : Z)
    (avd : av_decision) : CM (Z * av_decision * sec_state) :=
  '(rc, avd, _, st) ← sepol_compute_av_reason p sids st ssid tsid tclass requested avd 0;
  mret (rc, avd, st).

(** ** Transitions *)

Fixpoint validatetrans_loop (p : policydb) (st : sec_state) (oc nc tc : context_struct) (constraints : list constraint_node)
    : CM (Z * sec_state) :=
  match constraints with
  | [] => mret (0, st)
  | c :: next =>
      '(rc, st, _) ← constraint_expr_eval_reason p st oc nc (Some tc) 0 c None 0;
      if truth rc then validatetrans_loop p st oc nc tc next else mret (- EPERM, st)
  end.
Definition sepol_validate_transition (p : policydb) (sids : sidtab) (st : sec_state) (oldsid newsid tasksid tclass : Z)
    : CM (Z * sec_state) :=
  if negb (truth tclass) || (nprim (p_classes p) <? tclass) then mret (- EINVAL, st) else
  tclass_datum ← deref (at_index (class_val_to_struct p) tclass);
  ocontext ← sepol_sidtab_search sids oldsid;
  match ocontext with
  | None => mret (- EINVAL, st)
  | Some oc =>
      ncontext ← sepol_sidtab_search sids newsid;
      match ncontext with
      | None => mret (- EINVAL, st)
      | Some nc =>
          tcontext ← sepol_sidtab_search sids tasksid;
          match tcontext with
          | None => mret (- EINVAL, st)
          | Some tc =>
              tclass_datum ← deref tclass_datum;
              validatetrans_loop p st oc nc tc (class_validatetrans tclass_datum)
          end
      end
  end.

(** ** Names *)

(** the loop ends at a null name; the array has no entry after the last class *)
Fixpoint class_search (names : list (option string)) (id : Z) (class_name : string) : CM (option Z) :=
  match names with
  | [] => undefined
  | None :: _ => mret None
  | Some class :: names => if strcmp class class_name =? 0 then mret (Some id) else class_search names (u16 (id + 1)) class_name
  end.
Definition sepol_string_to_security_class (p : policydb) (class_name : string) : CM (Z * option Z) :=
  r ← class_search (p_class_val_to_name p) 1 class_name;
  mret (match r with Some id => (STATUS_SUCCESS, Some id) | None => (STATUS_ERR, None) end).
(** [0x1 << (value - 1)] *)
Definition perm_bit (value : Z) : CM Z :=
  if (1 <=? value) && (value <=? 32) then mret (Z.shiftl 1 (value - 1)) else undefined.
Definition sepol_string_to_av_perm (p : policydb) (tclass : Z) (perm_name : string) : CM (Z * option Z) :=
  if negb (truth tclass) || (nprim (p_classes p) <? tclass) then mret (- EINVAL, None) else
  tclass_datum ← deref (at_val (class_val_to_struct p) tclass);
  perm_datum ← hashtab_search (table (class_permissions tclass_datum)) perm_name;
  match perm_datum with
  | Some value => av ← perm_bit value; mret (STATUS_SUCCESS, Some av)
  | None =>
      match class_comdatum tclass_datum with
      | None => mret (STATUS_ERR, None)
      | Some com =>
          perm_datum ← hashtab_search (table (common_permissions com)) perm_name;
          match perm_datum with
          | Some value => av ← perm_bit value; mret (STATUS_SUCCESS, Some av)
          | None => mret (STATUS_ERR, None)
          end
      end
  end.

(** ** New contexts *)

Definition context_is_valid (p : policydb) (c : context_struct) : CM bool :=
  if negb (truth (c_role c)) || (nprim (p_roles p) <? c_role c) then mret false else
  if negb (truth (c_user c)) || (nprim (p_users p) <? c_user c) then mret false else
  if negb (truth (c_type c)) || (nprim (p_types p) <? c_type c) then mret false else
  ok ← (if c_role c =? OBJECT_R_VAL then mret true else
    role ← deref (at_val (role_val_to_struct p) (c_role c));
    if negb (truth (ebitmap_get_bit (role_cache role) (u32 (c_type c - 1)))) then mret false else
    usrdatum ← deref (at_index (user_val_to_struct p) (c_user c));
    match usrdatum with
    | None => mret false
    | Some usrdatum => mret (truth (ebitmap_get_bit (user_cache usrdatum) (u32 (c_role c - 1))))
    end);
  if negb ok then mret false else mls_context_isvalid p c.

(** [selinux_enforcing] is 1 and never written *)
Definition compute_sid_handle_invalid_context : Z := - EACCES.

(** the type of the new object: a rule of [te_avtab], else the first enabled
    conditional rule *)
Definition type_rule_data (p : policydb) (avkey : avtab_key) : CM (option avtab_datum) :=
  avdatum ← avtab_search (te_avtab p) avkey;
  match avdatum with
  | Some d => mret (Some d)
  | None =>
      nodes ← avtab_search_all (te_cond_avtab p) avkey;
      mret (datum <$> List.find (λ nd, truth (Z.land (specified (key nd)) AVTAB_ENABLED)) nodes)
  end.
(** user, role and type of the new context *)
Definition new_context (p : policydb) (sc tc : context_struct) (tclass specified : Z) (avdatum : option avtab_datum)
    : context_struct :=
  let user :=
    if (specified =? AVTAB_TRANSITION) || (specified =? AVTAB_CHANGE) then c_user sc
    else if specified =? AVTAB_MEMBER then c_user tc else 0 in
  let process := tclass =? SECCLASS_PROCESS in
  let role := if process then c_role sc else OBJECT_R_VAL in
  let type := match avdatum with Some d => data d | None => if process then c_type sc else c_type tc end in
  let role :=
    if process && truth (Z.land specified AVTAB_TRANSITION) then
      match List.find (λ r, (rt_role r =? c_role sc) && (rt_type r =? c_type tc)) (p_role_tr p) with
      | Some r => rt_new_role r
      | None => role
      end
    else role in
  Context user role type mls_range_init.
(** The code, the table of identifiers, the identifier if it was written.  For an
    unknown identifier the function goes to [out], where it destroys [newcontext]
    before its initialisation and follows wild pointers. *)
Definition sepol_compute_sid (p : policydb) (sids : sidtab) (ssid tsid tclass specified : Z)
    : CM (Z * sidtab * option Z) :=
  scontext ← sepol_sidtab_search sids ssid;
  match scontext with
  | None => undefined
  | Some sc =>
      tcontext ← sepol_sidtab_search sids tsid;
      match tcontext with
      | None => undefined
      | Some tc =>
          avdatum ← type_rule_data p (AvKey (u16 (c_type sc)) (u16 (c_type tc)) tclass (u16 specified));
          let newcontext := new_context p sc tc tclass specified avdatum in
          '(rc, newcontext) ← mls_compute_sid p sc tc tclass specified newcontext;
          if truth rc then mret (rc, sids, None) else
          ok ← context_is_valid p newcontext;
          if negb ok then mret (compute_sid_handle_invalid_context, sids, None) else
          '(rc, sids, out_sid) ← sepol_sidtab_context_to_sid sids newcontext;
          mret (rc, sids, Some out_sid)
      end
  end.
Definition sepol_transition_sid (p : policydb) (sids : sidtab) (ssid tsid tclass : Z) : CM (Z * sidtab * option Z) :=
  sepol_compute_sid p sids ssid tsid tclass AVTAB_TRANSITION.
Definition sepol_member_sid (p : policydb) (sids : sidtab) (ssid tsid tclass : Z) : CM (Z * sidtab * option Z) :=
  sepol_compute_sid p sids ssid tsid tclass AVTAB_MEMBER.
Definition sepol_change_sid (p : policydb) (sids : sidtab) (ssid tsid tclass : Z) : CM (Z * sidtab * option Z) :=
  sepol_compute_sid p sids ssid tsid tclass AVTAB_CHANGE.
End operations.

(** ** Theory: type enforcement *)

(** [y] is [x] with the permissions [A] allowed, [U] audited, and only those of
    [D] audited when denied *)
Definition av_adds (A U D : Z → bool) (x y : av_decision) : Prop :=
  (∀ b, Z.testbit (av_allowed y) b = Z.testbit (av_allowed x) b || A b) ∧
  (∀ b, Z.testbit (av_auditallow y) b = Z.testbit (av_auditallow x) b || U b) ∧
  (∀ b, Z.testbit (av_auditdeny y) b = Z.testbit (av_auditdeny x) b && D b) ∧
  av_decided y = av_decided x ∧ av_seqno y = av_seqno x.

(** a rule of the kind gives the permission *)
Definition gives (kind : Z) (b : Z) (nd : avtab_node) : bool :=
  (specified (key nd) =? kind) && Z.testbit (data (datum nd)) b.
Definition active_gives (k : Z) (b : Z) (nd : avtab_node) : bool := active k nd && Z.testbit (data (datum nd)) b.
(** every rule of the kind gives it *)
Definition keeps (kind : Z) (b : Z) (nd : avtab_node) : bool :=
  negb (specified (key nd) =? kind) || Z.testbit (data (datum nd)) b.
Definition active_keeps (k : Z) (b : Z) (nd : avtab_node) : bool := negb (active k nd) || Z.testbit (data (datum nd)) b.

Section te.
Context `{Target} (p : policydb) (t ct : list (list avtab_node)).
Context (Ht : avtab_wf (te_avtab p) t) (Hct : avtab_wf (te_cond_avtab p) ct).

(** the rules for a pair of types (given by their bits) and a class *)
Definition rules_for (l : list (list avtab_node)) (tclass i j : Z) : list avtab_node :=
  matching (AvKey (u16 (i + 1)) (u16 (j + 1)) tclass AVTAB_AV) AVTAB_AV (concat l).
Definition pair_allows (tclass b i j : Z) : bool :=
  existsb (gives AVTAB_ALLOWED b) (rules_for t tclass i j) || existsb (active_gives 0 b) (rules_for ct tclass i j).
Definition pair_audits (tclass b i j : Z) : bool :=
  existsb (gives AVTAB_AUDITALLOW b) (rules_for t tclass i j) || existsb (active_gives 1 b) (rules_for ct tclass i j).
Definition pair_noisy (tclass b i j : Z) : bool :=
  forallb (keeps AVTAB_AUDITDENY b) (rules_for t tclass i j) && forallb (active_keeps 2 b) (rules_for ct tclass i j).

Lemma av_adds_trans A1 U1 D1 A2 U2 D2 x y z :
  av_adds A1 U1 D1 x y → av_adds A2 U2 D2 y z →
  av_adds (λ b, A1 b || A2 b) (λ b, U1 b || U2 b) (λ b, D1 b && D2 b) x z.
Proof.
  intros (HA&HU&HD&Hd&Hs) (HA'&HU'&HD'&Hd'&Hs'). split_and!; [intros b..|congruence|congruence].
  - by rewrite HA', HA, orb_assoc.
  - by rewrite HU', HU, orb_assoc.
  - by rewrite HD', HD, andb_assoc.
Qed.
Lemma av_adds_ext A1 U1 D1 A2 U2 D2 x y :
  (∀ b, A1 b = A2 b) → (∀ b, U1 b = U2 b) → (∀ b, D1 b = D2 b) → av_adds A1 U1 D1 x y → av_adds A2 U2 D2 x y.
Proof.
  intros HA HU HD (H1&H2&H3&?&?). split_and!; [intros b; rewrite <- ?HA, <- ?HU, <- ?HD; auto..|done|done].
Qed.
Lemma av_adds_refl x : av_adds (λ _, false) (λ _, false) (λ _, true) x x.
Proof. split_and!; [intros b; by rewrite ?orb_false_r, ?andb_true_r..|done|done]. Qed.

Lemma te_av_fold nodes x :
  av_adds (λ b, existsb (gives AVTAB_ALLOWED b) nodes) (λ b, existsb (gives AVTAB_AUDITALLOW b) nodes)
    (λ b, forallb (keeps AVTAB_AUDITDENY b) nodes) x (fold_left te_av_step nodes x).
Proof.
  revert x. induction nodes as [|nd nodes IH]; intros x; [apply av_adds_refl|]. cbn [fold_left].
  eapply av_adds_trans; [|apply IH]. unfold te_av_step, gives, keeps.
  destruct (Z.eqb_spec (specified (key nd)) AVTAB_ALLOWED) as [E|]; [rewrite E|
    destruct (Z.eqb_spec (specified (key nd)) AVTAB_AUDITALLOW) as [E|]; [rewrite ?E|
    destruct (Z.eqb_spec (specified (key nd)) AVTAB_AUDITDENY) as [E|]]];
    (split_and!; [intros b; cbn; rewrite ?Z.lor_spec, ?Z.land_spec, ?orb_false_r, ?andb_true_r; done..|done|done]).
Qed.

Lemma pair_av_wp tclass i j avd h :
  0 ≤ tclass < 2 ^ 16 →
  wp (pair_av p tclass i j avd) (λ avd' h', h' = h ∧
    av_adds (λ b, pair_allows tclass b i j) (λ b, pair_audits tclass b i j) (λ b, pair_noisy tclass b i j) avd avd') h.
Proof.
  intros Hc. unfold pair_av. set (k := AvKey (u16 (i + 1)) (u16 (j + 1)) tclass AVTAB_AV).
  assert (key_wf k) as Hk by (split; [by apply (wrap_range 16)|split; [by apply (wrap_range 16)|done]]).
  apply wp_bind. destruct (avtab_search_all_wp _ _ k h Ht Hk) as [Hs _]. eapply wp_mono; [exact Hs|].
  intros nodes h' [-> ->]. unfold cond_compute_av. apply wp_bind.
  destruct (avtab_search_all_wp _ _ k h Hct Hk) as [Hs' _]. eapply wp_mono; [exact Hs'|].
  intros nodes h' [-> ->]. apply wp_ret. split; [done|].
  change (without_enabled (specified k)) with AVTAB_AV. fold (rules_for t tclass i j) (rules_for ct tclass i j).
  eapply av_adds_trans; [apply te_av_fold|]. pose proof (compute_av_fold (rules_for ct tclass i j)) as Hf.
  split_and!; [intros b; by apply Hf..|by apply (Hf _ 0)|by apply (Hf _ 0)].
Qed.

(** some, every pair of attributes *)
Definition some_pair (sattr tattr : ebitmap) (f : Z → Z → bool) : bool :=
  existsb (λ i, existsb (f i) (ebitmap_bits tattr)) (ebitmap_bits sattr).
Definition every_pair (sattr tattr : ebitmap) (f : Z → Z → bool) : bool :=
  forallb (λ i, forallb (f i) (ebitmap_bits tattr)) (ebitmap_bits sattr).

Lemma wp_av_list {I} (l : list I) (body : I → av_decision → CM (unit + av_decision)) (A U D : Z → I → bool) avd h :
  (∀ i x h, i ∈ l → wp (body i x) (λ r h', h' = h ∧ ∃ y, r = inr y ∧
     av_adds (λ b, A b i) (λ b, U b i) (λ b, D b i) x y) h) →
  wp (for_list l body avd) (λ r h', h' = h ∧ ∃ y, r = inr y ∧
    av_adds (λ b, existsb (A b) l) (λ b, existsb (U b) l) (λ b, forallb (D b) l) avd y) h.
Proof.
  revert avd h. induction l as [|i l IH]; intros avd h Hb; cbn [for_list].
  { apply wp_ret. split; [done|]. exists avd. split; [done|apply av_adds_refl]. }
  apply wp_bind. eapply wp_mono; [apply Hb; by left|]. intros r h' (->&y&->&Hy).
  eapply wp_mono; [apply IH; intros; apply Hb; by right|]. intros r h' (->&z&->&Hz). split; [done|].
  exists z. split; [done|]. by eapply av_adds_trans.
Qed.

Lemma attrs_av_wp tclass sattr tattr avd h :
  0 ≤ tclass < 2 ^ 16 → ebitmap_wf sattr → ebitmap_wf tattr →
  wp (attrs_av p tclass sattr tattr avd) (λ avd' h', h' = h ∧
    av_adds (λ b, some_pair sattr tattr (pair_allows tclass b)) (λ b, some_pair sattr tattr (pair_audits tclass b))
      (λ b, every_pair sattr tattr (pair_noisy tclass b)) avd avd') h.
Proof.
  intros Hc Hs Htw. unfold attrs_av. apply wp_bind, wp_for_each_member; [done|done|].
  eapply wp_mono; [apply (wp_av_list _ _ (λ b i, existsb (pair_allows tclass b i) (ebitmap_bits tattr))
    (λ b i, existsb (pair_audits tclass b i) (ebitmap_bits tattr))
    (λ b i, forallb (pair_noisy tclass b i) (ebitmap_bits tattr)))|].
  - intros i x h1 _. apply wp_bind, wp_for_each_member; [done|done|].
    eapply wp_mono; [apply (wp_av_list _ _ (λ b j, pair_allows tclass b i j) (λ b j, pair_audits tclass b i j)
      (λ b j, pair_noisy tclass b i j))|].
    + intros j y h2 _. apply wp_fmap. eapply wp_mono; [by apply pair_av_wp|]. intros z h3 [-> Hz]. split; [done|]. by exists z.
    + intros r h2 (->&y&->&Hy). apply wp_ret. split; [done|]. by exists y.
  - intros r h1 (->&y&->&Hy). apply wp_ret. by split.
Qed.
End te.

(** ** Theory: constraints and the decision *)

(** a permission of the class: a bit of a word *)
Definition perm (b : Z) : Prop := 0 ≤ b < 32.

Section decision.
Context `{Target}.

Lemma testbit_without a q b : perm b → Z.testbit (without a q) b = Z.testbit a b && negb (Z.testbit q b).
Proof.
  intros Hb. unfold without, u32. unfold perm in Hb. rewrite Z.land_spec, testbit_wrap, Z.lnot_spec by lia.
  by rewrite (proj2 (Z.ltb_lt b 32)) by lia.
Qed.
Lemma truth_land_false a q b : truth (Z.land a q) = false → Z.testbit a b && Z.testbit q b = false.
Proof. intros Hf. apply truth_false in Hf. by rewrite <- Z.land_spec, Hf, Z.bits_0. Qed.

(** what the constraints leave: all that have the permission must hold *)
Definition constrained (val : constraint_node → bool) (cs : list constraint_node) (b : Z) : bool :=
  forallb (λ c, negb (Z.testbit (cn_permissions c) b) || val c) cs.

Lemma constraints_av_ok p st sc tc tclass cs allowed rb flags (val : constraint_node → bool) h :
  mem_ok h → meaning_wf p sc tc → class_described p tclass →
  (∀ c, c ∈ cs → ∃ d, denotes p sc tc None (cn_expr c) (val c) d ∧ (d ≤ 5)%nat) →
  (∀ b, rb = Some b → reason_ok b) →
  wp (constraints_av p st sc tc tclass cs allowed rb flags) (λ '(a, _, _) h', mem_ok h' ∧
    ∀ b, perm b → Z.testbit a b = Z.testbit allowed b && constrained val cs b) h.
Proof.
  intros Ho Hwf Hd. revert st allowed rb h Ho. induction cs as [|c cs IH]; intros st allowed rb h Ho Hcs Hrb; cbn [constraints_av].
  { apply wp_ret. split; [done|]. intros b _. by rewrite andb_true_r. }
  assert (Hcs' : ∀ c, c ∈ cs → ∃ d, denotes p sc tc None (cn_expr c) (val c) d ∧ (d ≤ 5)%nat) by (intros; apply Hcs; by right).
  destruct (truth (Z.land (cn_permissions c) allowed)) eqn:Et.
  - destruct (Hcs c) as (d&[x Hden]&Hdep); [by left|]. apply wp_bind.
    eapply wp_mono; [by apply (constraint_eval_ok p st sc tc None tclass c rb flags (val c) x d)|].
    intros [[rc st'] rb'] h1 (Ho1&->&_&Hex). rewrite truth_cbool.
    assert (Hrb' : ∀ b, rb' = Some b → reason_ok b).
    { intros b ->. unfold explained in Hex. destruct rb as [rb|]; [|done]. destruct (_ || _); [by destruct Hex|]. subst b. by apply Hrb. }
    eapply wp_mono; [by apply IH|]. intros [[a st2] rb2] h2 [Ho2 Ha]. split; [done|]. intros b Hb. rewrite Ha by done.
    cbn [constrained forallb]. fold (constrained val cs b).
    destruct (val c); [by rewrite orb_true_r|]. rewrite testbit_without, orb_false_r by done. by rewrite andb_assoc.
  - eapply wp_mono; [by apply IH|]. intros [[a st2] rb2] h2 [Ho2 Ha]. split; [done|]. intros b Hb. rewrite Ha by done.
    cbn [constrained forallb]. fold (constrained val cs b). pose proof (truth_land_false _ _ b Et) as Hf.
    by destruct (Z.testbit (cn_permissions c) b), (Z.testbit allowed b), (val c).
Qed.

(** the reason a step adds and what it leaves of the request *)
Lemma note_reason_spec req allowed reason why req' reason' :
  0 ≤ req < 2 ^ 32 → note_reason req allowed reason why = (req', reason') →
  0 ≤ req' < 2 ^ 32 ∧ (∀ b, perm b → Z.testbit req' b = Z.testbit req b && Z.testbit allowed b) ∧
  (reason' = Z.lor reason why ∧ (∃ b, perm b ∧ Z.testbit req b = true ∧ Z.testbit allowed b = false) ∨
   reason' = reason ∧ ∀ b, perm b → Z.testbit req b = true → Z.testbit allowed b = true).
Proof.
  intros Hr. unfold note_reason. destruct (truth (without req allowed)) eqn:Et; intros [= <- <-].
  - split.
    { split; [apply Z.land_nonneg; lia|]. apply range_of_bits; [lia|apply Z.land_nonneg; lia|].
      intros j Hj. by rewrite Z.land_spec, (testbit_high 32) by lia. }
    split; [intros b _; apply Z.land_spec|left]. split; [done|]. apply truth_true in Et.
    assert (0 ≤ without req allowed) as Hn by (apply Z.land_nonneg; lia).
    destruct (nonzero_bit (without req allowed)) as (b&Hb0&Hb); [lia|]. exists b.
    assert (b < 32) as Hb32.
    { destruct (Z.lt_ge_cases b 32); [done|]. unfold without in Hb. rewrite Z.land_spec, (testbit_high 32 req) in Hb by lia. done. }
    rewrite testbit_without in Hb by done. apply andb_true_iff in Hb as [? ?%negb_true_iff]. done.
  - apply truth_false in Et. assert (∀ b, perm b → Z.testbit req b = true → Z.testbit allowed b = true) as Hall.
    { intros b Hb Hq. pose proof (testbit_without req allowed b Hb) as Hw. rewrite Et, Z.bits_0, Hq in Hw.
      by destruct (Z.testbit allowed b). }
    split_and!; [lia|lia| |by right]. intros b Hb. specialize (Hall b Hb). destruct (Z.testbit req b); [|done]. by rewrite Hall.
Qed.

(** a change of role must be allowed *)
Definition role_change_ok (p : policydb) (sc tc : context_struct) (tclass b : Z) : bool :=
  negb ((tclass =? SECCLASS_PROCESS) && ((b =? 1) || (b =? 23))) || (c_role sc =? c_role tc) ||
  existsb (λ ra, (c_role sc =? ra_role ra) && (c_role tc =? ra_new_role ra)) (p_role_allow p).

Lemma find_none_existsb {A} (f : A → bool) l : bool_decide (List.find f l = None) = negb (existsb f l).
Proof. induction l as [|x l IH]; [done|]. cbn. by destruct (f x). Qed.

Lemma role_step_bit p sc tc tclass allowed b :
  perm b →
  let transition := Z.lor PROCESS__TRANSITION PROCESS__DYNTRANSITION in
  Z.testbit (if (tclass =? SECCLASS_PROCESS) && truth (Z.land allowed transition) && negb (c_role sc =? c_role tc) &&
       bool_decide (List.find (λ ra, (c_role sc =? ra_role ra) && (c_role tc =? ra_new_role ra)) (p_role_allow p) = None)
    then without allowed transition else allowed) b = Z.testbit allowed b && role_change_ok p sc tc tclass b.
Proof.
  intros Hb transition. rewrite find_none_existsb.
  assert (Z.testbit transition b = (b =? 1) || (b =? 23)) as Ht.
  { change transition with (Z.lor (Z.shiftl 1 1) (Z.shiftl 1 23)). by rewrite Z.lor_spec, !testbit_one_shift by lia. }
  unfold role_change_ok. destruct (tclass =? SECCLASS_PROCESS); cbn [andb orb negb]; [|by rewrite andb_true_r].
  destruct (truth (Z.land allowed transition)) eqn:Et; cbn [andb].
  - destruct (c_role sc =? c_role tc); cbn [andb orb negb]; [by rewrite orb_true_r, andb_true_r|].
    rewrite orb_false_r. destruct (existsb _ _); cbn [negb]; [by rewrite orb_true_r, andb_true_r|].
    by rewrite testbit_without, Ht, orb_false_r.
  - pose proof (truth_land_false _ _ b Et) as Hf. rewrite Ht in Hf.
    by destruct (Z.testbit allowed b), ((b =? 1) || (b =? 23)), (c_role sc =? c_role tc), (existsb _ _).
Qed.

(** the three reasons of a decision *)
Lemma reasons_spec req a1 a2 a3 r1 e1 r2 e2 r3 e3 (te cons rbac : Z → bool) :
  0 ≤ req < 2 ^ 32 → (∀ b, Z.testbit a1 b = te b) → (∀ b, perm b → Z.testbit a2 b = Z.testbit a1 b && cons b) →
  (∀ b, perm b → Z.testbit a3 b = te b && cons b && rbac b) →
  note_reason req a1 0 SEPOL_COMPUTEAV_TE = (r1, e1) → note_reason r1 a2 e1 SEPOL_COMPUTEAV_CONS = (r2, e2) →
  note_reason r2 a3 e2 SEPOL_COMPUTEAV_RBAC = (r3, e3) →
  let because (f : Z → bool) := ∃ b, perm b ∧ Z.testbit req b = true ∧ f b = true in
  (Z.testbit e3 0 = true ↔ because (λ b, negb (te b))) ∧
  (Z.testbit e3 1 = true ↔ because (λ b, te b && negb (cons b))) ∧
  (Z.testbit e3 2 = true ↔ because (λ b, te b && cons b && negb (rbac b))).
Proof.
  intros Hreq H1 H2 H3 E1 E2 E3 because.
  destruct (note_reason_spec _ _ _ _ _ _ Hreq E1) as (Hr1&Hb1&Hw1).
  destruct (note_reason_spec _ _ _ _ _ _ Hr1 E2) as (Hr2&Hb2&Hw2).
  destruct (note_reason_spec _ _ _ _ _ _ Hr2 E3) as (_&_&Hw3).
  assert (X1 : e1 = 1 ∧ because (λ b, negb (te b)) ∨ e1 = 0 ∧ ¬ because (λ b, negb (te b))).
  { destruct Hw1 as [(->&b&Hb&Hq&Ha)|(->&Hall)]; [left|right]; (split; [done|]).
    - exists b. by rewrite <- H1, Ha.
    - intros (b&Hb&Hq&Hf). rewrite <- H1, Hall in Hf by done. done. }
  assert (X2 : e2 = Z.lor e1 2 ∧ because (λ b, te b && negb (cons b)) ∨ e2 = e1 ∧ ¬ because (λ b, te b && negb (cons b))).
  { destruct Hw2 as [(->&b&Hb&Hq&Ha)|(->&Hall)]; [left|right]; (split; [done|]).
    - rewrite Hb1, H1 in Hq by done. rewrite H2, H1 in Ha by done. exists b.
      destruct (Z.testbit req b), (te b), (cons b); done.
    - intros (b&Hb&Hq&Hf). specialize (Hall b Hb). rewrite Hb1, H2, !H1, Hq in Hall by done.
      destruct (te b), (cons b); try done; by specialize (Hall eq_refl). }
  assert (X3 : e3 = Z.lor e2 4 ∧ because (λ b, te b && cons b && negb (rbac b)) ∨
    e3 = e2 ∧ ¬ because (λ b, te b && cons b && negb (rbac b))).
  { destruct Hw3 as [(->&b&Hb&Hq&Ha)|(->&Hall)]; [left|right]; (split; [done|]).
    - rewrite Hb2, Hb1, H2, H1 in Hq by done. rewrite H3 in Ha by done. exists b.
      destruct (Z.testbit req b), (te b), (cons b), (rbac b); done.
    - intros (b&Hb&Hq&Hf). specialize (Hall b Hb). rewrite Hb2, Hb1, H2, H3, !H1, Hq in Hall by done.
      destruct (te b), (cons b), (rbac b); try done; by specialize (Hall eq_refl). }
  destruct X1 as [[-> X1]|[-> X1]], X2 as [[-> X2]|[-> X2]], X3 as [[-> X3]|[-> X3]]; cbn; split_and!; split; intros ?; first [done|tauto|by exfalso].
Qed.

(** the tables a decision reads *)
Record decision_wf (p : policydb) (t ct : list (list avtab_node)) (sc tc : context_struct) (tclass : Z)
    (cd : class_datum) (sattr tattr : ebitmap) : Prop := {
  dw_meaning : meaning_wf p sc tc;
  dw_class : 1 ≤ tclass ≤ nprim (p_classes p) ∧ tclass < 2 ^ 16;
  dw_described : class_described p tclass;
  dw_datum : at_val (class_val_to_struct p) tclass = Some cd;
  dw_te : avtab_wf (te_avtab p) t;
  dw_cond : avtab_wf (te_cond_avtab p) ct;
  dw_sattr : at_index (type_attr_map p) (c_type sc) = Some sattr ∧ ebitmap_wf sattr;
  dw_tattr : at_index (type_attr_map p) (c_type tc) = Some tattr ∧ ebitmap_wf tattr
}.

Lemma at_val_index {A} (a : list (option A)) v x : at_val a v = Some x → at_index a v = Some (Some x).
Proof. unfold at_val, at_index. destruct (v <? 1); [done|]. destruct (a !! _) as [[]|]; naive_solver. Qed.

Lemma testbit_allowed_init b : perm b → Z.testbit (2 ^ 32 - 1) b = true.
Proof. intros Hb. unfold perm in Hb. change (2 ^ 32 - 1) with (Z.ones 32). apply Z.ones_spec_low. lia. Qed.

(** a decision, whatever the constraints of the class leave *)
Lemma compute_av_gen p t ct st sc tc tclass requested avd0 reason0 rb flags cd sattr tattr (cons : Z → bool) (R : heap → Prop) h :
  decision_wf p t ct sc tc tclass cd sattr tattr → 0 ≤ requested < 2 ^ 32 →
  (∀ allowed, wp (constraints_av p st sc tc tclass (class_constraints cd) allowed rb flags)
    (λ '(a, _, _) h', R h' ∧ ∀ b, perm b → Z.testbit a b = Z.testbit allowed b && cons b) h) →
  let te b := some_pair sattr tattr (pair_allows t ct tclass b) in
  let rbac b := role_change_ok p sc tc tclass b in
  let because (f : Z → bool) := ∃ b, perm b ∧ Z.testbit requested b = true ∧ f b = true in
  wp (context_struct_compute_av p st sc tc tclass requested avd0 reason0 rb flags) (λ '(rc, avd, reason, _, _) h',
    R h' ∧ rc = 0 ∧ (∀ b, perm b →
      Z.testbit (av_allowed avd) b = te b && cons b && rbac b ∧
      Z.testbit (av_auditallow avd) b = some_pair sattr tattr (pair_audits t ct tclass b) ∧
      Z.testbit (av_auditdeny avd) b = every_pair sattr tattr (pair_noisy t ct tclass b)) ∧
    (Z.testbit reason 0 = true ↔ because (λ b, negb (te b))) ∧
    (Z.testbit reason 1 = true ↔ because (λ b, te b && negb (cons b))) ∧
    (Z.testbit reason 2 = true ↔ because (λ b, te b && cons b && negb (rbac b)))) h.
Proof.
  intros Hwf Hreq Hcons te rbac because. destruct Hwf as [_ [[H1 H2] H3] _ Hcd Hte Hcond [Hs Hsw] [Ht Htw]].
  unfold context_struct_compute_av.
  assert (truth tclass = true) as -> by (apply truth_true; lia). rewrite (proj2 (Z.ltb_ge _ _)) by lia. cbn [negb orb].
  eapply wp_bind, wp_deref; [by apply at_val_index|]. eapply wp_bind, wp_deref; [done|].
  eapply wp_bind, wp_deref; [done|]. apply wp_bind. eapply wp_mono; [apply (attrs_av_wp p t ct); (done || lia)|].
  intros avd h1 (->&HA&HU&HD&_&_). cbn [av_allowed av_auditallow av_auditdeny] in HA, HU, HD.
  destruct (note_reason requested _ 0 _) as [req1 reason1] eqn:E1. eapply wp_bind, wp_deref; [done|]. apply wp_bind.
  eapply wp_mono; [apply Hcons|]. intros [[allowed st2] rb2] h2 [HR Ha].
  destruct (note_reason req1 _ _ _) as [req2 reason2] eqn:E2. destruct (note_reason req2 _ _ _) as [req3 reason3] eqn:E3.
  apply wp_ret. split; [done|]. split; [done|]. cbn [av_allowed with_allowed av_auditallow av_auditdeny].
  assert (Hte' : ∀ b, Z.testbit (av_allowed avd) b = te b) by (intros b; by rewrite HA, Z.bits_0).
  split.
  { intros b Hb. rewrite role_step_bit, Ha, Hte' by done. split_and!; [done|by rewrite HU, Z.bits_0|].
    rewrite HD, testbit_allowed_init by done. done. }
  eapply (reasons_spec requested (av_allowed avd) allowed); [done|exact Hte'|exact Ha| |exact E1|exact E2|exact E3].
  intros b Hb. by rewrite role_step_bit, Ha, Hte'.
Qed.

(** with memory, what a decision allows *)
Lemma compute_av_allowed p t ct st sc tc tclass requested avd0 reason0 rb flags cd sattr tattr val h :
  mem_ok h → decision_wf p t ct sc tc tclass cd sattr tattr → 0 ≤ requested < 2 ^ 32 →
  (∀ c, c ∈ class_constraints cd → ∃ d, denotes p sc tc None (cn_expr c) (val c) d ∧ (d ≤ 5)%nat) →
  (∀ b, rb = Some b → reason_ok b) →
  wp (context_struct_compute_av p st sc tc tclass requested avd0 reason0 rb flags) (λ '(rc, avd, _, _, _) h',
    mem_ok h' ∧ rc = 0 ∧ ∀ b, perm b → Z.testbit (av_allowed avd) b =
      some_pair sattr tattr (pair_allows t ct tclass b) && constrained val (class_constraints cd) b &&
      role_change_ok p sc tc tclass b) h.
Proof.
  intros Ho Hwf Hreq Hcs Hrb. eapply wp_mono; [apply (compute_av_gen p t ct) with (R := mem_ok) (cd := cd)
    (cons := constrained val (class_constraints cd)); [done|done|]|].
  - intros allowed. apply (constraints_av_ok p st sc tc tclass _ _ rb flags val); try done; by destruct Hwf.
  - intros [[[[rc avd] ?] ?] ?] h' (?&->&Hb&_). split_and!; [done|done|]. intros b Hp. by destruct (Hb b Hp).
Qed.

(** without memory the constraints deny nothing *)
Lemma constraints_av_exhausted p st sc tc tclass cs allowed rb flags n a :
  (length cs ≤ n)%nat →
  wp (constraints_av p st sc tc tclass cs allowed rb flags) (λ '(a, _, _) _, a = allowed) (Heap (replicate n false) a).
Proof.
  revert n. induction cs as [|c cs IH]; intros n Hn; cbn [constraints_av]; [by apply wp_ret|]. cbn [length] in Hn.
  destruct (truth (Z.land _ _)); [|apply IH; lia]. destruct n as [|n]; [lia|]. apply wp_bind. unfold wp at 1. cbn. apply IH. lia.
Qed.
End decision.

(** ** Theory: labels of new objects *)

(** fields are unsigned *)
Definition range_ok (r : mls_range) : Prop :=
  range_wf r ∧ 0 ≤ sens (low_level r) ∧ 0 ≤ sens (high_level r).
Definition context_ok (c : context_struct) : Prop :=
  0 ≤ c_user c ∧ 0 ≤ c_role c ∧ 0 ≤ c_type c ∧ range_ok (c_range c).

(** the tables a label is computed from *)
Record label_wf `{Target} (p : policydb) (t ct : list (list avtab_node)) (tl : hashtab string level_datum) : Prop := {
  lw_mls : mls_tables p tl;
  lw_on : mls p ≠ 0;
  lw_te : avtab_wf (te_avtab p) t;
  lw_cond : avtab_wf (te_cond_avtab p) ct;
  lw_roles r : 1 ≤ r ≤ nprim (p_roles p) → ∃ d, at_val (role_val_to_struct p) r = Some d ∧ ebitmap_wf (role_cache d);
  lw_users u d : at_val (user_val_to_struct p) u = Some d → ebitmap_wf (user_cache d);
  lw_role_tr r : r ∈ p_role_tr p → 0 ≤ rt_new_role r;
  lw_range_tr r : r ∈ p_range_tr p → range_ok (rtr_target_range r)
}.

(** what makes a context valid for [policydb_context_isvalid], which counts one
    category too many ([mls_accepted]) *)
Definition context_valid (p : policydb) (tl : hashtab string level_datum) (c : context_struct) : Prop :=
  1 ≤ c_role c ≤ nprim (p_roles p) ∧ 1 ≤ c_user c ≤ nprim (p_users p) ∧
  (c_type c ≠ 0 ∧ c_type c ≤ nprim (p_types p)) ∧
  (c_role c = OBJECT_R_VAL ∨ ∃ r u, at_val (role_val_to_struct p) (c_role c) = Some r ∧
     at_val (user_val_to_struct p) (c_user c) = Some u ∧
     u32 (c_type c - 1) ∈ ebitmap_set (role_cache r) ∧ u32 (c_role c - 1) ∈ ebitmap_set (user_cache u)) ∧
  mls_accepted p tl c.

(** [x] is the first element of the list that satisfies [P] *)
Inductive first {A} (P : A → Prop) : list A → A → Prop :=
  | first_here x l : P x → first P (x :: l) x
  | first_later y x l : ¬ P y → first P l x → first P (y :: l) x.
Lemma find_first {A} (f : A → bool) (P : A → Prop) l :
  (∀ x, f x = true ↔ P x) →
  match List.find f l with Some x => first P l x | None => ∀ x, x ∈ l → ¬ P x end.
Proof.
  intros Hf. induction l as [|y l IH]; [by intros x ?%elem_of_nil|]. cbn [List.find].
  destruct (f y) eqn:E; [by apply first_here, Hf|]. assert (¬ P y) as Hy by (intros ?%Hf; congruence).
  destruct (List.find f l); [by apply first_later|]. by intros x [->|?]%elem_of_cons; [|apply IH].
Qed.
Lemma first_unique {A} (P : A → Prop) l x y : first P l x → first P l y → x = y.
Proof. induction 1; inversion 1; subst; try done. auto. Qed.
Lemma first_elem {A} (P : A → Prop) l x : first P l x → x ∈ l ∧ P x.
Proof. induction 1 as [|y x l _ _ [IH ?]]; [split; [by left|done]|]. split; [by right|done]. Qed.

(** The rule that gives the type: one of [te_avtab], else the first enabled
    conditional one. *)
Definition type_for (t ct : list (list avtab_node)) (k : avtab_key) : option avtab_datum :=
  match matching k (without_enabled (specified k)) (concat t) with
  | nd :: _ => Some (datum nd)
  | [] => datum <$> List.find (λ nd, truth (Z.land (specified (key nd)) AVTAB_ENABLED))
            (matching k (without_enabled (specified k)) (concat ct))
  end.
(** [c] is the context that the rules give an object of class [tclass] that a
    process of context [sc] makes, changes or selects a member of, next to an
    object of context [tc]. *)
Definition role_rule_for (sc tc : context_struct) (r : role_trans) : Prop := rt_role r = c_role sc ∧ rt_type r = c_type tc.
Definition range_rule_for (sc tc : context_struct) (tclass : Z) (r : range_trans) : Prop :=
  rtr_source_type r = c_type sc ∧ rtr_target_type r = c_type tc ∧ rtr_target_class r = tclass.
Definition low_only (c : context_struct) : mls_range := MlsRange (low_level (c_range c)) (low_level (c_range c)).
Record labelled (p : policydb) (t ct : list (list avtab_node)) (sc tc : context_struct) (tclass spec : Z)
    (c : context_struct) : Prop := {
  (** the user of the process, and that of the object for a member *)
  lb_user : spec = AVTAB_TRANSITION ∨ spec = AVTAB_CHANGE → c_user c = c_user sc;
  lb_user_member : spec = AVTAB_MEMBER → c_user c = c_user tc;
  (** the type of the type rule, else that of the process for a process and of
      the object for the other classes *)
  lb_type_rule d : type_for t ct (AvKey (u16 (c_type sc)) (u16 (c_type tc)) tclass (u16 spec)) = Some d → c_type c = data d;
  lb_type_process : type_for t ct (AvKey (u16 (c_type sc)) (u16 (c_type tc)) tclass (u16 spec)) = None →
    tclass = SECCLASS_PROCESS → c_type c = c_type sc;
  lb_type_object : type_for t ct (AvKey (u16 (c_type sc)) (u16 (c_type tc)) tclass (u16 spec)) = None →
    tclass ≠ SECCLASS_PROCESS → c_type c = c_type tc;
  (** the role of objects; for a process that of the first role transition, or
      its own *)
  lb_role_object : tclass ≠ SECCLASS_PROCESS → c_role c = OBJECT_R_VAL;
  lb_role_rule r : tclass = SECCLASS_PROCESS → spec = AVTAB_TRANSITION → first (role_rule_for sc tc) (p_role_tr p) r →
    c_role c = rt_new_role r;
  lb_role_process : tclass = SECCLASS_PROCESS →
    spec ≠ AVTAB_TRANSITION ∨ (∀ r, r ∈ p_role_tr p → ¬ role_rule_for sc tc r) → c_role c = c_role sc;
  (** the levels of the first range transition; else those of the process for a
      process, and its low level for the other classes; a member has the levels
      of the object unless its type is another *)
  lb_range_rule r : spec = AVTAB_TRANSITION → first (range_rule_for sc tc tclass) (p_range_tr p) r →
    c_range c = rtr_target_range r;
  lb_range : spec = AVTAB_CHANGE ∨ spec = AVTAB_TRANSITION ∧ (∀ r, r ∈ p_range_tr p → ¬ range_rule_for sc tc tclass r) →
    c_range c = if decide (tclass = SECCLASS_PROCESS) then c_range sc else low_only sc;
  lb_range_member : spec = AVTAB_MEMBER →
    c_range c = if decide (c_type c = c_type tc) then c_range tc else low_only sc
}.

Section labels.
Context `{Target} (p : policydb) (t ct : list (list avtab_node)) (tl : hashtab string level_datum).
Context (Hlw : label_wf p t ct tl).

Lemma context_is_valid_wp c h :
  0 ≤ c_user c → 0 ≤ c_role c → range_ok (c_range c) →
  wp (context_is_valid p c) (λ b h', h' = h ∧ (b = true ↔ context_valid p tl c)) h.
Proof.
  intros Hu Hr (Hw&Hs1&Hs2). unfold context_is_valid, context_valid.
  assert (Hno : ∀ P : Prop, (P → False) → wp (mret (M := CM) false) (λ b h', h' = h ∧ (b = true ↔ P)) h).
  { intros P HP. apply wp_ret. split; [done|]. split; [done|]. by intros ?%HP. }
  destruct (truth (c_role c)) eqn:E1; cbn [negb orb]; [|apply Hno; apply truth_false in E1; lia]. apply truth_true in E1.
  destruct (Z.ltb_spec (nprim (p_roles p)) (c_role c)); [apply Hno; lia|].
  destruct (truth (c_user c)) eqn:E2; cbn [negb orb]; [|apply Hno; apply truth_false in E2; lia]. apply truth_true in E2.
  destruct (Z.ltb_spec (nprim (p_users p)) (c_user c)); [apply Hno; lia|].
  destruct (truth (c_type c)) eqn:E3; cbn [negb orb]; [|apply Hno; apply truth_false in E3; intuition lia]. apply truth_true in E3.
  destruct (Z.ltb_spec (nprim (p_types p)) (c_type c)); [apply Hno; intuition lia|].
  destruct (mt_users _ _ (lw_mls _ _ _ _ Hlw) (c_user c)) as (u&Hud&_); [lia|].
  apply wp_bind. apply (wp_mono _ (λ ok h', h' = h ∧ (ok = true ↔ (c_role c = OBJECT_R_VAL ∨
     ∃ r u, at_val (role_val_to_struct p) (c_role c) = Some r ∧ at_val (user_val_to_struct p) (c_user c) = Some u ∧
     u32 (c_type c - 1) ∈ ebitmap_set (role_cache r) ∧ u32 (c_role c - 1) ∈ ebitmap_set (user_cache u))))).
  - destruct (Z.eqb_spec (c_role c) OBJECT_R_VAL) as [|Hne]; [apply wp_ret; split; [done|]; tauto|].
    destruct (lw_roles _ _ _ _ Hlw (c_role c)) as (r&Hrd&Hrw); [lia|]. eapply wp_bind, wp_deref; [done|].
    rewrite get_bit_in by done. case_bool_decide as E4; cbn [negb]; cycle 1.
    { apply wp_ret. split; [done|]. split; [done|]. intros [?|(r'&u'&Hr'&_&?&_)]; [done|]. rewrite Hrd in Hr'. by injection Hr' as <-. }
    eapply wp_bind, wp_deref; [by apply at_val_index|]. apply wp_ret. split; [done|].
    rewrite get_bit_in by (by eapply lw_users). rewrite bool_decide_eq_true. split.
    + intros ?. right. by exists r, u.
    + intros [?|(r'&u'&_&Hu'&_&?)]; [done|]. rewrite Hud in Hu'. by injection Hu' as <-.
  - intros [] h' [-> Hok]; cbn [negb]; cycle 1.
    { apply Hno. intros (_&_&_&Hx&_). by apply Hok in Hx. }
    destruct Hok as [Hok _]. specialize (Hok eq_refl).
    eapply wp_mono; [apply (mls_context_isvalid_wp p tl); try done; [apply (lw_mls _ _ _ _ Hlw)|apply (lw_on _ _ _ _ Hlw)]|].
    intros b h' [-> Hb]. split; [done|]. rewrite Hb. split; [|by intros (_&_&_&_&?)]. intros ?. split_and!; (done || lia).
Qed.

Lemma type_rule_data_wp k h : key_wf k → wp (type_rule_data p k) (λ r h', h' = h ∧ r = type_for t ct k) h.
Proof.
  intros Hk. unfold type_rule_data, type_for. apply wp_bind.
  destruct (avtab_search_all_wp _ _ k h (lw_te _ _ _ _ Hlw) Hk) as [_ Hs]. eapply wp_mono; [exact Hs|].
  intros r h' [-> ->]. destruct (matching _ _ (concat t)) as [|nd l]; [|by apply wp_ret]. cbn [head fmap option_fmap option_map].
  apply wp_bind. destruct (avtab_search_all_wp _ _ k h (lw_cond _ _ _ _ Hlw) Hk) as [Hs' _].
  eapply wp_mono; [exact Hs'|]. intros nodes h' [-> ->]. by apply wp_ret.
Qed.

Lemma new_range_ok sc tc tclass spec nc r :
  range_ok (c_range sc) → range_ok (c_range tc) → new_range p sc tc tclass spec nc = Some r → range_ok r.
Proof.
  intros Hsc Htc. assert (Heff : range_ok (MlsRange (low_level (c_range sc)) (low_level (c_range sc)))).
  { destruct Hsc as ([? _]&?&_). split_and!; try done; by split. }
  unfold new_range. assert (Hch : range_ok (if tclass =? SECCLASS_PROCESS then c_range sc
    else MlsRange (low_level (c_range sc)) (low_level (c_range sc)))) by by destruct (tclass =? SECCLASS_PROCESS).
  destruct (spec =? AVTAB_TRANSITION).
  - destruct (List.find _ _) as [rtr|] eqn:Ef; intros [= <-]; [|done].
    apply List.find_some in Ef as [Hin _]. by apply (lw_range_tr _ _ _ _ Hlw), list_elem_of_In.
  - destruct (spec =? AVTAB_CHANGE); [by intros [= <-]|]. destruct (spec =? AVTAB_MEMBER); [|done].
    intros [= <-]. by destruct (c_type nc =? c_type tc).
Qed.
Lemma new_context_role sc tc tclass spec d : 0 ≤ c_role sc → 0 ≤ c_role (new_context p sc tc tclass spec d).
Proof.
  intros Hr. unfold new_context. cbn [c_role]. destruct (tclass =? SECCLASS_PROCESS); cbn [andb]; [|done].
  destruct (truth _); [|done]. destruct (List.find _ _) as [r|] eqn:Ef; [|done].
  apply List.find_some in Ef as [Hin _]. by apply (lw_role_tr _ _ _ _ Hlw), list_elem_of_In.
Qed.
Lemma new_context_user sc tc tclass spec d :
  0 ≤ c_user sc → 0 ≤ c_user tc → 0 ≤ c_user (new_context p sc tc tclass spec d).
Proof. intros ??. unfold new_context. cbn [c_user]. by repeat case_match. Qed.

(** what the code computes is what the rules give *)
Lemma new_context_labelled sc tc tclass spec :
  spec = AVTAB_TRANSITION ∨ spec = AVTAB_CHANGE ∨ spec = AVTAB_MEMBER →
  let nc := new_context p sc tc tclass spec (type_for t ct (AvKey (u16 (c_type sc)) (u16 (c_type tc)) tclass (u16 spec))) in
  ∃ r, new_range p sc tc tclass spec nc = Some r ∧ labelled p t ct sc tc tclass spec (with_range nc r).
Proof.
  intros Hspec nc.
  pose proof (find_first (λ r, (rt_role r =? c_role sc) && (rt_type r =? c_type tc)) (role_rule_for sc tc) (p_role_tr p)
    ltac:(intros r; unfold role_rule_for; lia)) as Hrole.
  pose proof (find_first (λ r, (rtr_source_type r =? c_type sc) && (rtr_target_type r =? c_type tc) &&
    (rtr_target_class r =? tclass)) (range_rule_for sc tc tclass) (p_range_tr p)
    ltac:(intros r; unfold range_rule_for; lia)) as Hrange.
  assert (∃ r, new_range p sc tc tclass spec nc = Some r) as [r Hr].
  { unfold new_range. destruct Hspec as [->|[->| ->]]; by eexists. }
  exists r. split; [done|]. unfold nc, new_context, new_range in *.
  split; cbn [with_range c_user c_role c_type c_range].
  - by intros [->| ->].
  - by intros ->.
  - by intros d ->.
  - intros -> ->. done.
  - intros -> ?. by rewrite (proj2 (Z.eqb_neq _ _)).
  - intros Hp. by rewrite (proj2 (Z.eqb_neq _ _)).
  - intros r' -> -> Hf. cbn. destruct (List.find _ (p_role_tr p)) as [r0|]; [by rewrite (first_unique _ _ _ _ Hf Hrole)|].
    destruct (first_elem _ _ _ Hf) as [Hin ?]. by destruct (Hrole _ Hin).
  - intros -> Hno. cbn. destruct (truth (Z.land spec AVTAB_TRANSITION)) eqn:Et; [|done].
    destruct (List.find _ (p_role_tr p)) as [r0|]; [|done]. destruct (first_elem _ _ _ Hrole) as [Hin ?].
    destruct Hno as [Hne|Hno]; [|by destruct (Hno _ Hin)]. destruct Hspec as [?|[->| ->]]; done.
  - intros r' -> Hf. cbn in Hr. injection Hr as <-. destruct (List.find _ (p_range_tr p)) as [r0|];
      [by rewrite (first_unique _ _ _ _ Hf Hrange)|]. destruct (first_elem _ _ _ Hf) as [Hin ?]. by destruct (Hrange _ Hin).
  - assert (Hchange : (if tclass =? SECCLASS_PROCESS then c_range sc else low_only sc) =
      if decide (tclass = SECCLASS_PROCESS) then c_range sc else low_only sc).
    { case_decide as Hd; [by rewrite Hd|]. by rewrite (proj2 (Z.eqb_neq _ _)). }
    intros [->|[-> Hno]]; cbn in Hr; injection Hr as <-; [done|]. destruct (List.find _ (p_range_tr p)) as [r0|]; [|done].
    destruct (first_elem _ _ _ Hrange) as [Hin ?]. by destruct (Hno _ Hin).
  - intros ->. cbn in Hr. injection Hr as <-. case_decide as Hd; [by rewrite (proj2 (Z.eqb_eq _ _))|].
    by rewrite (proj2 (Z.eqb_neq _ _)).
Qed.

(** the identifier a search answers for *)
Definition sid_context (m : gmap Z context_struct) (sid : Z) : option context_struct :=
  match m !! sid with Some c => Some c | None => m !! SECINITSID_UNLABELED end.

Lemma compute_sid_wp sids st ssid tsid tclass spec sc tc r h :
  sidtab_wf sids st → sid_context (sid_map st) ssid = Some sc → sid_context (sid_map st) tsid = Some tc →
  context_ok sc → context_ok tc → 0 ≤ tclass < 2 ^ 16 →
  let d := type_for t ct (AvKey (u16 (c_type sc)) (u16 (c_type tc)) tclass (u16 spec)) in
  let nc := new_context p sc tc tclass spec d in
  new_range p sc tc tclass spec nc = Some r →
  let c := with_range nc r in
  wp (sepol_compute_sid p sids ssid tsid tclass spec) (λ '(rc, sids', out) h',
    (mem_ok h → rc = - ENOMEM → next_sid sids = UINT_MAX ∨ shutdown sids ≠ 0) ∧
    (rc = 0 ∧ context_valid p tl c ∧ (∃ sid st', out = Some sid ∧ sid ≠ SEPOL_SECSID_NULL ∧ sidtab_wf sids' st' ∧
       sid_map st' !! sid = Some c ∧ sid_map st ⊆ sid_map st')
     ∨ rc = - EACCES ∧ ¬ context_valid p tl c ∧ sids' = sids ∧ out = None
     ∨ rc = - ENOMEM ∧ sids' = sids)) h.
Proof.
  intros Hsid Hsc Htc (Hus&Hrs&_&Hgs) (Hut&_&_&Hgt) Hcl d nc Hr c. unfold sepol_compute_sid, sid_context in *.
  apply wp_bind. eapply wp_mono; [by apply sepol_sidtab_search_wp|]. intros r1 h1 [-> ->]. rewrite Hsc.
  apply wp_bind. eapply wp_mono; [by apply sepol_sidtab_search_wp|]. intros r2 h1 [-> ->]. rewrite Htc.
  apply wp_bind. eapply wp_mono; [apply type_rule_data_wp|].
  { split; [by apply (wrap_range 16)|split; [by apply (wrap_range 16)|split; [done|by apply (wrap_range 16)]]]. }
  intros d' h1 [-> ->]. fold d. fold nc. apply wp_bind.
  eapply wp_mono; [apply mls_compute_sid_wp, (lw_on _ _ _ _ Hlw)|]. intros [rc nc'] h1 [Hm1 Hr1]. rewrite Hr in Hr1.
  destruct Hr1 as [[-> ->]| ->]; cycle 1.
  { apply wp_ret. split; [intros Ho; by destruct (Hm1 Ho)|by right; right]. }
  cbn [truth Z.eqb negb]. apply wp_bind.
  eapply wp_mono; [apply context_is_valid_wp; [by apply new_context_user|by apply new_context_role|exact (new_range_ok _ _ _ _ _ _ Hgs Hgt Hr)]|].
  intros ok h2 [-> Hok]. fold c in Hok |- *. destruct ok; cbn [negb]; cycle 1.
  { apply wp_ret. split; [done|right; left]. split_and!; [done| |done|done]. by intros ?%Hok. }
  apply wp_bind. eapply wp_mono; [by apply sepol_sidtab_context_to_sid_wp|]. intros [[rc sids'] out] h3 [Hm3 Hr3]. apply wp_ret.
  split; [intros Ho ->; destruct (Hm1 Ho) as [Ho1 _]; by destruct (Hm3 Ho1) as [_ [?|?]]|].
  destruct Hr3 as [(->&Hout&st'&Hwf'&Hl&Hcase)|(->&->&_)]; [left|by right; right].
  split; [done|]. split; [by apply Hok|]. exists out, st'. split_and!; try done.
  destruct Hcase as [[-> _]|(_&->&_&_&->)]; [done|]. apply insert_subseteq.
  destruct (sid_map st !! next_sid sids) as [c'|] eqn:E; [|done]. apply elem_of_list_to_map_2 in E.
  pose proof (st_sids _ _ Hsid _ E) as Hlt. cbn in Hlt. lia.
Qed.
End labels.

(** ** Properties *)

(** C1: with memory, [context_struct_compute_av] allows exactly the permissions
    that some rule gives a pair of attributes of the two types (a rule of
    [te_avtab] or a conditional rule that is switched on), that every constraint
    on them grants, and, for a change of role, that a role rule permits; the
    audit vectors collect the audit rules, and the reason names each of the
    three checks that took a requested permission away. *)
Theorem context_struct_compute_av_correct `{Target} p t ct st sc tc tclass requested avd0 reason0 rb flags cd sattr tattr val h :
  mem_ok h → decision_wf p t ct sc tc tclass cd sattr tattr → 0 ≤ requested < 2 ^ 32 →
  (∀ c, c ∈ class_constraints cd → ∃ d, denotes p sc tc None (cn_expr c) (val c) d ∧ (d ≤ 5)%nat) →
  (∀ b, rb = Some b → reason_ok b) →
  let te b := some_pair sattr tattr (pair_allows t ct tclass b) in
  let cons b := constrained val (class_constraints cd) b in
  let rbac b := role_change_ok p sc tc tclass b in
  let because (f : Z → bool) := ∃ b, perm b ∧ Z.testbit requested b = true ∧ f b = true in
  wp (context_struct_compute_av p st sc tc tclass requested avd0 reason0 rb flags) (λ '(rc, avd, reason, _, _) _,
    rc = 0 ∧ (∀ b, perm b →
      Z.testbit (av_allowed avd) b = te b && cons b && rbac b ∧
      Z.testbit (av_auditallow avd) b = some_pair sattr tattr (pair_audits t ct tclass b) ∧
      Z.testbit (av_auditdeny avd) b = every_pair sattr tattr (pair_noisy t ct tclass b)) ∧
    (Z.testbit reason 0 = true ↔ because (λ b, negb (te b))) ∧
    (Z.testbit reason 1 = true ↔ because (λ b, te b && negb (cons b))) ∧
    (Z.testbit reason 2 = true ↔ because (λ b, te b && cons b && negb (rbac b)))) h.
Proof.
  intros Ho Hwf Hreq Hcs Hrb te cons.
  eapply wp_mono; [apply (compute_av_gen p t ct) with (R := mem_ok) (cd := cd) (cons := cons); [done|done|]|].
  - intros allowed. apply (constraints_av_ok p st sc tc tclass _ _ rb flags val); try done; by destruct Hwf.
  - by intros [[[[rc avd] ?] ?] ?] h' [_ ?].
Qed.

(** C37: [context_struct_compute_av] fails open.  When no memory can be had, the
    evaluation of a constraint returns [-ENOMEM], which is taken for true: the
    decision succeeds and allows what type enforcement and the role rules allow,
    whatever the constraints (among them the MLS policy) say. *)
Theorem context_struct_compute_av_fails_open `{Target} p t ct st sc tc tclass requested avd0 reason0 rb flags cd sattr tattr n a :
  decision_wf p t ct sc tc tclass cd sattr tattr → 0 ≤ requested < 2 ^ 32 → (length (class_constraints cd) ≤ n)%nat →
  wp (context_struct_compute_av p st sc tc tclass requested avd0 reason0 rb flags) (λ '(rc, avd, _, _, _) _,
    rc = 0 ∧ ∀ b, perm b → Z.testbit (av_allowed avd) b =
      some_pair sattr tattr (pair_allows t ct tclass b) && role_change_ok p sc tc tclass b) (Heap (replicate n false) a).
Proof.
  intros Hwf Hreq Hn. eapply wp_mono; [apply (compute_av_gen p t ct) with (R := λ _, True) (cd := cd)
    (cons := λ _, true); [done|done|]|].
  - intros allowed. eapply wp_mono; [by apply constraints_av_exhausted|]. intros [[x ?] ?] h' ->. split; [done|].
    intros b _. by rewrite andb_true_r.
  - intros [[[[rc avd] ?] ?] ?] h' (_&->&Hb&_). split; [done|]. intros b Hp. destruct (Hb b Hp) as [-> _]. by rewrite andb_true_r.
Qed.

(** [sepol_validate_transition] passes class 0 to the evaluation of a
    constraint, which reads the name of the class at index -1: with memory,
    every check that reaches a constraint has undefined behaviour. *)
Theorem sepol_validate_transition_undefined `{Target} p sids t st oldsid newsid tasksid tclass cd c cs oc nc tc h :
  mem_ok h → sidtab_wf sids t → 1 ≤ tclass ≤ nprim (p_classes p) →
  at_val (class_val_to_struct p) tclass = Some cd → class_validatetrans cd = c :: cs →
  sid_context (sid_map t) oldsid = Some oc → sid_context (sid_map t) newsid = Some nc →
  sid_context (sid_map t) tasksid = Some tc →
  sepol_validate_transition p sids st oldsid newsid tasksid tclass h = None.
Proof.
  intros Ho Hwf Hc Hcd Hv Hoc Hnc Htc. unfold sepol_validate_transition.
  assert (truth tclass = true) as -> by (apply truth_true; lia). rewrite (proj2 (Z.ltb_ge _ _)) by lia. cbn [negb orb].
  assert (Hs : ∀ sid x, sid_context (sid_map t) sid = Some x → sepol_sidtab_search sids sid h = Some (Some x, h)).
  { intros sid x Hx. destruct (wp_run _ _ _ (sepol_sidtab_search_wp sids t sid h Hwf)) as (r&h'&->&->&->).
    unfold sid_context in Hx. by rewrite Hx. }
  unfold mbind, CM_bind. rewrite (at_val_index _ _ _ Hcd). cbn [deref mret CM_ret].
  rewrite (Hs _ _ Hoc), (Hs _ _ Hnc), (Hs _ _ Htc), Hv. cbn [deref mret CM_ret validatetrans_loop].
  unfold constraint_expr_eval_reason, get_class_info, class_info_text, mbind, CM_bind.
  destruct (wp_run malloc (λ r _, r ≠ None) h) as (r&h'&->&Hr); [by apply wp_malloc_ok|].
  rewrite bool_decide_eq_false_2 by done. cbn. done.
Qed.

(** C3: the identifier [sepol_compute_sid] gives a new, changed or member
    object is that of the context the rules say ([labelled]: user and role by the
    class and the kind of rule, type by the type rule, role by the role
    transition, levels by the range transition), if [policydb_context_isvalid]
    takes that context for valid; known identifiers keep their contexts.  An
    invalid context is refused, and other failures are for want of memory or
    identifiers. *)
Theorem sepol_compute_sid_correct `{Target} p t ct tl sids st ssid tsid tclass spec sc tc h :
  label_wf p t ct tl → sidtab_wf sids st →
  sid_context (sid_map st) ssid = Some sc → sid_context (sid_map st) tsid = Some tc →
  context_ok sc → context_ok tc → 0 ≤ tclass < 2 ^ 16 →
  spec = AVTAB_TRANSITION ∨ spec = AVTAB_CHANGE ∨ spec = AVTAB_MEMBER →
  ∃ c, labelled p t ct sc tc tclass spec c ∧
  wp (sepol_compute_sid p sids ssid tsid tclass spec) (λ '(rc, sids', out) h',
    (mem_ok h → rc = - ENOMEM → next_sid sids = UINT_MAX ∨ shutdown sids ≠ 0) ∧
    (rc = 0 ∧ context_valid p tl c ∧ (∃ sid st', out = Some sid ∧ sid ≠ SEPOL_SECSID_NULL ∧ sidtab_wf sids' st' ∧
       sid_map st' !! sid = Some c ∧ sid_map st ⊆ sid_map st')
     ∨ rc = - EACCES ∧ ¬ context_valid p tl c ∧ sids' = sids ∧ out = None
     ∨ rc = - ENOMEM ∧ sids' = sids)) h.
Proof.
  intros Hlw Hsid Hsc Htc Hosc Hotc Hcl Hspec. destruct (new_context_labelled p t ct sc tc tclass spec Hspec) as (r&Hr&Hl).
  eexists. split; [exact Hl|]. by apply compute_sid_wp.
Qed.

(** ** An example policy *)

Module ExampleSec.
Definition user_eq : constraint_expr := CExpr CEXPR_ATTR CEXPR_USER CEXPR_EQ (Ebitmap [] 0) None.
(** t2 == user_t *)
Definition target_is_user : constraint_expr :=
  CExpr CEXPR_NAMES (Z.lor CEXPR_TYPE CEXPR_TARGET) CEXPR_EQ (Ebitmap [Node 0 1] 64)
    (Some (TypeSet (Ebitmap [Node 0 1] 64) (Ebitmap [] 0) 0)).
Definition both : constraint_expr := CExpr CEXPR_AND 0 0 (Ebitmap [] 0) None.
(** constrain file { write } (u1 == u2 and t2 == user_t) *)
Definition constraint : constraint_node := CNode 2 [user_eq; target_is_user; both].
Definition perms : hashtab string Z := Hashtab [[("exec"%string, 3); ("read"%string, 1); ("write"%string, 2)]] 1 3.
Definition file : class_datum :=
  ClassDatum 1 None None (Symtab (Some perms) 3) [constraint] [constraint] 0 0 0 0.
Definition role (v : Z) : role_datum :=
  RoleDatum v (Ebitmap [Node 0 1] 64) (TypeSet (Ebitmap [] 0) (Ebitmap [] 0) 0) (Ebitmap [Node 0 1] 64) 0 0 (Ebitmap [] 0).
Definition attr (m : Z) : ebitmap := Ebitmap [Node 0 m] 64.
Definition policy : policydb :=
  Policydb 0 30 1 (Symtab None 3) (Symtab None 2) (Symtab None 5) (Symtab None 1) empty_symtab
    (Symtab (Some ExampleMls.levels) 2) (Symtab (Some ExampleMls.cats) 3)
    [Some "s0"%string; Some "s1"%string] [Some "c0"%string; Some "c1"%string; Some "c2"%string]
    [Some "file"%string] [Some "object_r"%string; Some "user_r"%string] [Some "user_t"%string; Some "file_t"%string]
    [Some "user_u"%string] [Some file] [Some (role 1); Some (role 2)] [Some ExampleMls.user] []
    Example.table Example.table [] [] [] [] [] [] [attr 1; attr 2] (Ebitmap [] 0)
    [attr 1; attr 2] (replicate OCON_NUM []) [].
Definition user_con : context_struct := Context 1 2 1 (MlsRange ExampleMls.s0 ExampleMls.s1).
Definition file_con : context_struct := Context 1 1 2 (MlsRange ExampleMls.s0 ExampleMls.s0).
Definition slots : list (list sid_node) := [[]; [(1, user_con)]; [(2, file_con)]] ++ replicate 125 [].
Definition sids : sidtab := Sidtab (Some slots) 2 3 0.

Lemma attr_wf m : 0 < m < 2 ^ 64 → ebitmap_wf (attr m).
Proof. intros Hm. split; [cbn; split_and!; try lia; exists 0; lia|done]. Qed.
Lemma sids_wf : sidtab_wf sids slots.
Proof.
  assert (Hcase : ∀ i c, slots !! i = Some c → c = [] ∨ i = 1%nat ∧ c = [(1, user_con)] ∨ i = 2%nat ∧ c = [(2, file_con)]).
  { intros [|[|[|i]]] c; [intros [= <-]; auto|intros [= <-]; auto|intros [= <-]; auto|]. intros Hi.
    apply lookup_replicate in Hi as [-> _]. by left. }
  split; [done|done| | | |by vm_compute|done].
  - intros i c Hc. destruct (Hcase i c Hc) as [->|[[_ ->]|[_ ->]]]; repeat constructor.
  - intros i c nd Hc Hin. destruct (Hcase i c Hc) as [->|[[-> ->]|[-> ->]]];
      [by apply elem_of_nil in Hin|by apply list_elem_of_singleton in Hin as ->..].
  - intros nd (i&c&Hc&Hin)%elem_of_concat. destruct (Hcase i c Hc) as [->|[[-> ->]|[-> ->]]];
      [by apply elem_of_nil in Hin|by apply list_elem_of_singleton in Hin as ->..].
Qed.
Lemma meaning : meaning_wf policy user_con file_con.
Proof.
  split; [split; [apply ExampleMls.s0_wf|apply ExampleMls.s1_wf]|split; apply ExampleMls.s0_wf|].
  intros r v Hr. unfold at_index in Hr. destruct (v <? 1); [done|].
  destruct (Z.to_nat (v - 1)) as [|[|]]; [injection Hr as <-|injection Hr as <-|done]; by apply attr_wf.
Qed.
Lemma described : class_described policy 1.
Proof.
  split; [by eexists|]. exists file. split_and!; [done|done|]. intros name v Hin.
  unfold perm_entries in Hin. cbn in Hin. repeat (apply elem_of_cons in Hin as [[= -> _]|Hin]; [done|]).
  by apply elem_of_nil in Hin.
Qed.
(** the constraint is not satisfied: the target is file_t *)
Definition constraint_read : string :=
  "(u1 == u2) " +:+ " and " +:+ "(" +:+ "t" +:+ "2" +:+ " " +:+ "==" +:+ " user_t" +:+ " -Fail-) ".
Lemma constraint_means : means policy user_con file_con None (cn_expr constraint) false constraint_read 2.
Proof.
  change (cn_expr constraint) with ([user_eq] ++ [target_is_user] ++ [both]).
  apply (means_and _ _ _ _ [user_eq] [target_is_user] both true false
    ("(" +:+ "u1" +:+ " " +:+ "==" +:+ " " +:+ "u2" +:+ verdict true)
    ("(" +:+ "t" +:+ "2" +:+ " " +:+ "==" +:+ names_text policy CEXPR_TYPE (attr 1) +:+ verdict false) 1 1);
    [| |done]; apply means_leaf.
  - apply leaf_attr; [done|]. apply means_user; [done|by vm_compute|constructor].
  - apply leaf_names; [done|by apply (attr_wf 1)|].
    apply (names_means_intro _ _ _ _ target_is_user file_con "2" CEXPR_TYPE 2 "t").
    + by apply tests_target.
    + by apply tests_type.
    + left. split_and!; [done|done|by vm_compute].
    + by vm_compute.
    + by apply attr_wf.
    + intros i Hi%elem_of_ebitmap_set; [|by apply attr_wf].
      pose proof (nodes_bit_range _ _ (attr_wf 1 ltac:(done)) Hi) as Hr. cbn [highbit attr] in Hr.
      cbn [node attr] in Hi. rewrite nodes_bit_cons_in in Hi by (cbn; lia). cbn [startbit map] in Hi.
      assert (i = 0) as ->; [|by eexists]. destruct (Z.lt_ge_cases i 1); [lia|]. by rewrite (testbit_high 1) in Hi by lia.
Qed.
Lemma constraint_denotes : denotes policy user_con file_con None (cn_expr constraint) false 2.
Proof. eexists. apply constraint_means. Qed.
Lemma decision : decision_wf policy Example.slots Example.slots user_con file_con 1 file (attr 1) (attr 2).
Proof.
  split; [apply meaning|done|apply described|done|apply Example.table_wf|apply Example.table_wf| |];
    (split; [done|by apply attr_wf]).
Qed.
Lemma labels `{Target} : label_wf policy Example.slots Example.slots ExampleMls.levels.
Proof.
  split; [|done|apply Example.table_wf|apply Example.table_wf| | | |].
  - destruct (ExampleMls.policy_tables) as [? ? ? H4 H5]. split; [done|done|done|done|exact H5].
  - intros r Hr. cbn in Hr. assert (r = 1 ∨ r = 2) as [->| ->] by lia; eexists; (split; [done|by apply (attr_wf 1)]).
  - intros u d Hd. apply at_val_lookup in Hd as [_ Hd]. destruct (Z.to_nat (u - 1)) as [|k]; [|done]. injection Hd as <-.
    apply ebitmap_init_wf.
  - intros r Hr. by apply elem_of_nil in Hr.
  - intros r Hr. by apply elem_of_nil in Hr.
Qed.
Lemma user_con_ok : context_ok user_con.
Proof. refine (conj _ (conj _ (conj _ (conj (conj _ _) (conj _ _))))); first [apply ExampleMls.s0_wf|apply ExampleMls.s1_wf|done]. Qed.
Lemma file_con_ok : context_ok file_con.
Proof. refine (conj _ (conj _ (conj _ (conj (conj _ _) (conj _ _))))); first [apply ExampleMls.s0_wf|done]. Qed.
End ExampleSec.

(** ** Witnesses *)

(** witness of C2: the write permission is refused, with its explanation *)
Lemma constraint_expr_eval_reason_correct_witness :
  let T := target_arm in let p := ExampleSec.policy in let st := SecState EmptyString 0 [] in
  let rb := Some (ReasonBuf EmptyString 0) in
  wp (constraint_expr_eval_reason p st ExampleSec.user_con ExampleSec.file_con None 1 ExampleSec.constraint rb 0)
    (λ '(rc, st', rb') h', mem_ok h' ∧ rc = cbool false ∧ stack st' = stack st ∧
      explained (class_text p 1 ExampleSec.constraint None st) ExampleSec.constraint_read false 0 rb rb') fresh_heap.
Proof.
  apply (@constraint_expr_eval_reason_correct target_arm ExampleSec.policy (SecState EmptyString 0 []) ExampleSec.user_con
    ExampleSec.file_con None 1 ExampleSec.constraint (Some (ReasonBuf EmptyString 0)) 0 false ExampleSec.constraint_read 2 fresh_heap).
  - constructor.
  - apply ExampleSec.meaning.
  - apply ExampleSec.described.
  - apply ExampleSec.constraint_means.
  - lia.
  - by intros b [= <-].
Defined.

(** witness of C1 *)
Lemma context_struct_compute_av_correct_witness :
  let T := target_arm in let p := ExampleSec.policy in let st := SecState EmptyString 0 [] in
  let sc := ExampleSec.user_con in let tc := ExampleSec.file_con in
  let cs := class_constraints ExampleSec.file in let slots := Example.slots in
  let te b := some_pair (ExampleSec.attr 1) (ExampleSec.attr 2) (pair_allows slots slots 1 b) in
  let cons b := constrained (λ _, false) cs b in
  let rbac b := role_change_ok p sc tc 1 b in
  let because (f : Z → bool) := ∃ b, perm b ∧ Z.testbit 6 b = true ∧ f b = true in
  wp (context_struct_compute_av p st sc tc 1 6 (AvDecision 0 0 0 0 0) 0 None 0) (λ '(rc, avd, reason, _, _) _,
    rc = 0 ∧ (∀ b, perm b →
      Z.testbit (av_allowed avd) b = te b && cons b && rbac b ∧
      Z.testbit (av_auditallow avd) b = some_pair (ExampleSec.attr 1) (ExampleSec.attr 2) (pair_audits slots slots 1 b) ∧
      Z.testbit (av_auditdeny avd) b = every_pair (ExampleSec.attr 1) (ExampleSec.attr 2) (pair_noisy slots slots 1 b)) ∧
    (Z.testbit reason 0 = true ↔ because (λ b, negb (te b))) ∧
    (Z.testbit reason 1 = true ↔ because (λ b, te b && negb (cons b))) ∧
    (Z.testbit reason 2 = true ↔ because (λ b, te b && cons b && negb (rbac b)))) fresh_heap.
Proof.
  apply (@context_struct_compute_av_correct target_arm ExampleSec.policy Example.slots Example.slots (SecState EmptyString 0 [])
    ExampleSec.user_con ExampleSec.file_con 1 6 (AvDecision 0 0 0 0 0) 0 None 0 ExampleSec.file (ExampleSec.attr 1)
    (ExampleSec.attr 2) (λ _, false) fresh_heap).
  - constructor.
  - apply ExampleSec.decision.
  - lia.
  - intros c Hc. apply list_elem_of_singleton in Hc as ->. exists 2%nat. split; [apply ExampleSec.constraint_denotes|lia].
  - discriminate.
Defined.

(** witness of C37 *)
Lemma context_struct_compute_av_fails_open_witness :
  let T := target_arm in let p := ExampleSec.policy in
  let sc := ExampleSec.user_con in let tc := ExampleSec.file_con in let slots := Example.slots in
  wp (context_struct_compute_av p (SecState EmptyString 0 []) sc tc 1 6 (AvDecision 0 0 0 0 0) 0 None 0) (λ '(rc, avd, _, _, _) _,
    rc = 0 ∧ ∀ b, perm b → Z.testbit (av_allowed avd) b =
      some_pair (ExampleSec.attr 1) (ExampleSec.attr 2) (pair_allows slots slots 1 b) && role_change_ok p sc tc 1 b)
    (Heap (replicate 1 false) 1).
Proof.
  apply (@context_struct_compute_av_fails_open target_arm ExampleSec.policy Example.slots Example.slots
    (SecState EmptyString 0 []) ExampleSec.user_con ExampleSec.file_con 1 6 (AvDecision 0 0 0 0 0) 0 None 0 ExampleSec.file
    (ExampleSec.attr 1) (ExampleSec.attr 2) 1 1).
  - apply ExampleSec.decision.
  - lia.
  - reflexivity.
Defined.

(** witness of [sepol_validate_transition_undefined] *)
Lemma sepol_validate_transition_undefined_witness :
  @sepol_validate_transition target_arm ExampleSec.policy ExampleSec.sids (SecState EmptyString 0 []) 2 2 1 1 fresh_heap = None.
Proof.
  apply (@sepol_validate_transition_undefined target_arm ExampleSec.policy ExampleSec.sids ExampleSec.slots
    (SecState EmptyString 0 []) 2 2 1 1 ExampleSec.file ExampleSec.constraint [] ExampleSec.file_con ExampleSec.file_con
    ExampleSec.user_con fresh_heap).
  - constructor.
  - apply ExampleSec.sids_wf.
  - by split.
  - reflexivity.
  - reflexivity.
  - by vm_compute.
  - by vm_compute.
  - by vm_compute.
Defined.

(** witness of C3: a new object of class 3 *)
Lemma sepol_compute_sid_correct_witness :
  let T := target_arm in let p := ExampleSec.policy in let sids := ExampleSec.sids in
  let sc := ExampleSec.user_con in let tc := ExampleSec.file_con in
  ∃ c, labelled p Example.slots Example.slots sc tc 3 AVTAB_TRANSITION c ∧
  wp (sepol_compute_sid p sids 1 2 3 AVTAB_TRANSITION) (λ '(rc, sids', out) h',
    (mem_ok fresh_heap → rc = - ENOMEM → next_sid sids = UINT_MAX ∨ shutdown sids ≠ 0) ∧
    (rc = 0 ∧ context_valid p ExampleMls.levels c ∧ (∃ sid st', out = Some sid ∧ sid ≠ SEPOL_SECSID_NULL ∧ sidtab_wf sids' st' ∧
       sid_map st' !! sid = Some c ∧ sid_map ExampleSec.slots ⊆ sid_map st')
     ∨ rc = - EACCES ∧ ¬ context_valid p ExampleMls.levels c ∧ sids' = sids ∧ out = None
     ∨ rc = - ENOMEM ∧ sids' = sids)) fresh_heap.
Proof.
  apply (@sepol_compute_sid_correct target_arm ExampleSec.policy Example.slots Example.slots ExampleMls.levels ExampleSec.sids
    ExampleSec.slots 1 2 3 AVTAB_TRANSITION ExampleSec.user_con ExampleSec.file_con fresh_heap).
  - apply ExampleSec.labels.
  - apply ExampleSec.sids_wf.
  - by vm_compute.
  - by vm_compute.
  - apply ExampleSec.user_con_ok.
  - apply ExampleSec.file_con_ok.
  - lia.
  - by left.
Defined.
