(* ===== verification/ContextText.v ===== *)
(** * The text of security contexts ([context.c], [context_record.c], the
    conversions of [services.c])

    A context is written "user:role:type:range".  It is read in two steps: the
    text becomes a record of strings, the record a context of the policy, which
    must be valid. *)

From S2P Require Import Prelude Hashtab Symtab Ebitmap Context Avtab Sidtab Policydb Mls MlsText Services.
From Stdlib Require Import Ascii.

(** ** Records *)

(** [struct sepol_context]; a null member is [None] *)
Record sepol_context := SepolContext {
  r_user : option string; r_role : option string; r_type : option string; r_mls : option string }.

Section records.
Context `{Target}.

(** [strdup]; the null pointer is not allowed *)
Definition strdup (s : string) : CM (option string) :=
  p ← malloc; mret (match p with Some _ => Some s | None => None end).
Definition strdup_ptr (s : option string) : CM (option string) := s ← deref s; strdup s.

Definition sepol_context_get_user (con : sepol_context) : option string := r_user con.
Definition sepol_context_get_role (con : sepol_context) : option string := r_role con.
Definition sepol_context_get_type (con : sepol_context) : option string := r_type con.
Definition sepol_context_get_mls (con : sepol_context) : option string := r_mls con.

Definition sepol_context_set_user (con : sepol_context) (user : string) : CM (Z * sepol_context) :=
  tmp_user ← strdup user;
  mret (match tmp_user with
        | None => (STATUS_ERR, con)
        | Some _ => (STATUS_SUCCESS, SepolContext tmp_user (r_role con) (r_type con) (r_mls con))
        end).
Definition sepol_context_set_role (con : sepol_context) (role : string) : CM (Z * sepol_context) :=
  tmp_role ← strdup role;
  mret (match tmp_role with
        | None => (STATUS_ERR, con)
        | Some _ => (STATUS_SUCCESS, SepolContext (r_user con) tmp_role (r_type con) (r_mls con))
        end).
Definition sepol_context_set_type (con : sepol_context) (type : string) : CM (Z * sepol_context) :=
  tmp_type ← strdup type;
  mret (match tmp_type with
        | None => (STATUS_ERR, con)
        | Some _ => (STATUS_SUCCESS, SepolContext (r_user con) (r_role con) tmp_type (r_mls con))
        end).
Definition sepol_context_set_mls (con : sepol_context) (mls : string) : CM (Z * sepol_context) :=
  tmp_mls ← strdup mls;
  mret (match tmp_mls with
        | None => (STATUS_ERR, con)
        | Some _ => (STATUS_SUCCESS, SepolContext (r_user con) (r_role con) (r_type con) tmp_mls)
        end).

(** the code and the value of [*con_ptr] if it was written *)
Definition sepol_context_create : CM (Z * option sepol_context) :=
  con ← malloc;
  mret (match con with
        | None => (STATUS_ERR, None)
        | Some _ => (STATUS_SUCCESS, Some (SepolContext None None None None))
        end).
(** the outer option is whether [*con_ptr] was written *)
Definition sepol_context_clone (con : option sepol_context) : CM (Z * option (option sepol_context)) :=
  match con with
  | None => mret (0, Some None)
  | Some con =>
      '(rc, new_con) ← sepol_context_create;
      if rc <? 0 then mret (STATUS_ERR, None) else
      user ← strdup_ptr (r_user con);
      if bool_decide (user = None) then mret (STATUS_ERR, None) else
      role ← strdup_ptr (r_role con);
      if bool_decide (role = None) then mret (STATUS_ERR, None) else
      type ← strdup_ptr (r_type con);
      if bool_decide (type = None) then mret (STATUS_ERR, None) else
      match r_mls con with
      | None => mret (STATUS_SUCCESS, Some (Some (SepolContext user role type None)))
      | Some m =>
          m ← strdup m;
          if bool_decide (m = None) then mret (STATUS_ERR, None) else
          mret (STATUS_SUCCESS, Some (Some (SepolContext user role type m)))
      end
  end.

(** The code and [*con], which keeps its value [con] on an error.  [scan] is
    [strchr] and the store of the terminator. *)
Definition sepol_context_from_string (str : string) (con : option sepol_context) : CM (Z * option sepol_context) :=
  if strcmp str "<<none>>" =? 0 then mret (STATUS_SUCCESS, None) else
  '(rc, tmp_con) ← sepol_context_create;
  if rc <? 0 then mret (STATUS_ERR, con) else
  tmp_con ← deref tmp_con;
  tmp ← strdup str;
  match tmp with
  | None => mret (STATUS_ERR, con)
  | Some low =>
      let '(user, delim, low) := scan [colon] low in
      if negb (is_delim delim colon) then mret (STATUS_ERR, con) else
      '(rc, tmp_con) ← sepol_context_set_user tmp_con user;
      if rc <? 0 then mret (STATUS_ERR, con) else
      let '(role, delim, low) := scan [colon] low in
      if negb (is_delim delim colon) then mret (STATUS_ERR, con) else
      '(rc, tmp_con) ← sepol_context_set_role tmp_con role;
      if rc <? 0 then mret (STATUS_ERR, con) else
      let '(type, delim, low) := scan [colon] low in
      '(rc, tmp_con) ← sepol_context_set_type tmp_con type;
      if rc <? 0 then mret (STATUS_ERR, con) else
      if negb (is_delim delim colon) then mret (STATUS_SUCCESS, Some tmp_con) else
      '(rc, tmp_con) ← sepol_context_set_mls tmp_con low;
      if rc <? 0 then mret (STATUS_ERR, con) else
      mret (STATUS_SUCCESS, Some tmp_con)
  end.

(** the sum of the lengths is of type [int]; [snprintf] returns the length of
    the whole text and writes at most [total_sz + 1] bytes *)
Definition sepol_context_to_string (con : sepol_context) : CM (Z * option string) :=
  user ← deref (r_user con);
  role ← deref (r_role con);
  type ← deref (r_type con);
  let mls_sz := match r_mls con with Some m => i32 (strlen m) | None => 0 end in
  let total_sz := i32 (strlen user) + i32 (strlen role) + i32 (strlen type) + mls_sz +
                  match r_mls con with Some _ => 3 | None => 2 end in
  if 2 ^ 31 - 1 <=? total_sz then undefined else
  str ← malloc;
  if bool_decide (str = None) then mret (STATUS_ERR, None) else
  let text := match r_mls con with
              | Some m => user +:+ String colon (role +:+ String colon (type +:+ String colon m))
              | None => user +:+ String colon (role +:+ String colon type)
              end in
  let rc := i32 (strlen text) in
  if (rc <? 0) || (total_sz + 1 <=? rc) then mret (STATUS_ERR, None) else mret (STATUS_SUCCESS, Some text).
End records.

(** ** Contexts *)

Section operations.
Context `{Target}.

Definition policydb_context_isvalid (p : policydb) (c : context_struct) : CM bool := context_is_valid p c.

(** The code, the text and its length with the terminator.  The text of the
    names is written by [sprintf] and that of the range behind it, each with a
    terminator; writing past the buffer is undefined. *)
Definition context_to_string (p : policydb) (context : context_struct) : CM (Z * option (string * Z)) :=
  user ← deref (at_val (p_user_val_to_name p) (c_user context));
  role ← deref (at_val (p_role_val_to_name p) (c_role context));
  type ← deref (at_val (p_type_val_to_name p) (c_type context));
  n ← mls_compute_context_len p context;
  let scontext_len := szt (strlen user + 1 + (strlen role + 1) + strlen type + n + 1) in
  scontext ← malloc;
  if bool_decide (scontext = None) then mret (STATUS_ERR, None) else
  range ← mls_sid_to_context p context;
  let text := user +:+ String colon (role +:+ String colon (type +:+ range)) in
  if strlen text + 1 <=? scontext_len then mret (STATUS_SUCCESS, Some (text, scontext_len)) else undefined.

(** the code and [*cptr] if it was written; all three names are duplicated
    before the results are tested *)
Definition context_from_record (p : policydb) (record : option sepol_context) : CM (Z * option context_struct) :=
  record ← deref record;
  user ← strdup_ptr (sepol_context_get_user record);
  role ← strdup_ptr (sepol_context_get_role record);
  type ← strdup_ptr (sepol_context_get_type record);
  let str := sepol_context_get_mls record in
  scontext ← malloc;
  match user, role, type, scontext with
  | Some user, Some role, Some type, Some _ =>
      usrdatum ← hashtab_search (table (p_users p)) user;
      match usrdatum with
      | None => mret (STATUS_ERR, None)
      | Some usrdatum =>
          roldatum ← hashtab_search (table (p_roles p)) role;
          match roldatum with
          | None => mret (STATUS_ERR, None)
          | Some roldatum =>
              typdatum ← hashtab_search (table (p_types p)) type;
              match typdatum with
              | None => mret (STATUS_ERR, None)
              | Some typdatum =>
                  if type_flavor typdatum =? TYPE_ATTRIB then mret (STATUS_ERR, None) else
                  let c := Context (user_value usrdatum) (role_value roldatum) (type_value typdatum) mls_range_init in
                  if bool_decide (str ≠ None) && negb (truth (mls p)) then mret (STATUS_ERR, None) else
                  if bool_decide (str = None) && truth (mls p) then mret (STATUS_ERR, None) else
                  '(rc, c) ← match str with Some str => mls_from_string p str c | None => mret (0, c) end;
                  if rc <? 0 then mret (STATUS_ERR, None) else
                  ok ← context_is_valid p c;
                  mret (if (ok : bool) then (STATUS_SUCCESS, Some c) else (STATUS_ERR, None))
              end
          end
      end
  | _, _, _, _ => mret (STATUS_ERR, None)
  end.

(** the code and [*record] if it was written *)
Definition context_to_record (p : policydb) (context : context_struct) : CM (Z * option sepol_context) :=
  '(rc, tmp_record) ← sepol_context_create;
  if rc <? 0 then mret (STATUS_ERR, None) else
  tmp_record ← deref tmp_record;
  user ← deref (at_val (p_user_val_to_name p) (c_user context));
  '(rc, tmp_record) ← sepol_context_set_user tmp_record user;
  if rc <? 0 then mret (STATUS_ERR, None) else
  role ← deref (at_val (p_role_val_to_name p) (c_role context));
  '(rc, tmp_record) ← sepol_context_set_role tmp_record role;
  if rc <? 0 then mret (STATUS_ERR, None) else
  type ← deref (at_val (p_type_val_to_name p) (c_type context));
  '(rc, tmp_record) ← sepol_context_set_type tmp_record type;
  if rc <? 0 then mret (STATUS_ERR, None) else
  if negb (truth (mls p)) then mret (STATUS_SUCCESS, Some tmp_record) else
  '(rc, str) ← mls_to_string p context;
  if rc <? 0 then mret (STATUS_ERR, None) else
  str ← deref str;
  '(rc, tmp_record) ← sepol_context_set_mls tmp_record str;
  if rc <? 0 then mret (STATUS_ERR, None) else
  mret (STATUS_SUCCESS, Some tmp_record).

Definition nul : ascii := "000"%char.
(** the C string at the start of some bytes *)
Definition cstr (bytes : string) : string := (scan [nul] bytes).1.1.
(** [con_str] has the [con_str_len] bytes that are copied; the string of the
    copy ends at their first null byte *)
Definition context_from_string (p : policydb) (con_str : string) : CM (Z * option context_struct) :=
  con_cpy ← malloc;
  if bool_decide (con_cpy = None) then mret (STATUS_ERR, None) else
  '(rc, ctx_record) ← sepol_context_from_string (cstr con_str) None;
  if rc <? 0 then mret (STATUS_ERR, None) else
  '(rc, c) ← context_from_record p ctx_record;
  if rc <? 0 then mret (STATUS_ERR, None) else mret (STATUS_SUCCESS, c).

Definition sepol_context_check (p : policydb) (context : option sepol_context) : CM Z :=
  '(ret, _) ← context_from_record p context; mret ret.

(** ** Identifiers *)

Definition sepol_sid_to_context (p : policydb) (sids : sidtab) (sid : Z) : CM (Z * option (string * Z)) :=
  context ← sepol_sidtab_search sids sid;
  match context with
  | None => mret (- EINVAL, None)
  | Some context => context_to_string p context
  end.
(** [want] is whether [sid] is not null; the code, the table and [*sid] if it
    was written *)
Definition sepol_context_to_sid (p : policydb) (sids : sidtab) (scontext : string) (want : bool)
    : CM (Z * sidtab * option Z) :=
  '(rc, context) ← context_from_string p scontext;
  if rc <? 0 then mret (STATUS_ERR, sids, None) else
  if negb want then mret (STATUS_SUCCESS, sids, None) else
  context ← deref context;
  '(rc, sids, sid) ← sepol_sidtab_context_to_sid sids context;
  mret (if rc <? 0 then STATUS_ERR else STATUS_SUCCESS, sids, Some sid).
Definition sepol_check_context (p : policydb) (sids : sidtab) (context : string) : CM (Z * sidtab) :=
  '(rc, sids, _) ← sepol_context_to_sid p sids (context +:+ String nul EmptyString) false;
  mret (rc, sids).
End operations.

(** ** Theory: reading any text is safe *)

Lemma scan_shorter stop s tok c rest :
  scan stop s = (tok, Some c, rest) → (String.length rest < String.length s)%nat.
Proof.
  revert tok rest. induction s as [|a s IH]; intros tok rest; cbn [scan]; [done|].
  case_bool_decide.
  - intros [= _ _ ->]. cbn. lia.
  - destruct (scan stop s) as [[tok' delim'] rest'] eqn:E. intros [= _ -> ->]. specialize (IH _ _ eq_refl). cbn. lia.
Qed.

(** the tables a text is read with: values are positive, categories small *)
Record read_tables `{Target} (p : policydb) (tl : hashtab string level_datum) (tc : hashtab string cat_datum)
    (tu : hashtab string user_datum) (tr : hashtab string role_datum) (tt : hashtab string type_datum) : Prop := {
  rd_levels : table (p_levels p) = Some tl;
  rd_levels_ok : hashtab_ok tl;
  rd_cats : table (p_cats p) = Some tc;
  rd_cats_ok : hashtab_ok tc;
  rd_users : table (p_users p) = Some tu;
  rd_users_ok : hashtab_ok tu;
  rd_roles : table (p_roles p) = Some tr;
  rd_roles_ok : hashtab_ok tr;
  rd_types : table (p_types p) = Some tt;
  rd_types_ok : hashtab_ok tt;
  rd_sens name d : hashtab_map_of tl !! name = Some d → 0 ≤ sens (ld_level d);
  rd_cat name d : hashtab_map_of tc !! name = Some d → 1 ≤ cat_value d ≤ 2 ^ 31;
  rd_user name d : hashtab_map_of tu !! name = Some d → 0 ≤ user_value d;
  rd_role name d : hashtab_map_of tr !! name = Some d → 0 ≤ role_value d;
  rd_type name d : hashtab_map_of tt !! name = Some d → 0 ≤ type_value d
}.

Section reading.
Context `{Target} (p : policydb) (tl : hashtab string level_datum) (tc : hashtab string cat_datum).
Context (tu : hashtab string user_datum) (tr : hashtab string role_datum) (tt : hashtab string type_datum).
Context (Hrd : read_tables p tl tc tu tr tt).

Lemma set_bit_safe x i h :
  ebitmap_wf x → 0 ≤ i < 2 ^ 31 → wp (ebitmap_set_bit x i 1) (λ '(rc, x') _, ebitmap_wf x') h.
Proof. intros Hw Hi. eapply wp_mono; [apply ebitmap_set_bit_wp; [done|lia]|]. by intros [rc x'] h' (_&?&_). Qed.

Lemma parse_cat_safe tok x h : ebitmap_wf x → wp (parse_cat p tok x) (λ '(ok, x') _, ebitmap_wf x') h.
Proof.
  intros Hw. unfold parse_cat. destruct (scan _ tok) as [[first point] rng]. rewrite (rd_cats _ _ _ _ _ _ Hrd).
  apply wp_bind. eapply wp_mono; [apply hashtab_search_wp, (rd_cats_ok _ _ _ _ _ _ Hrd)|]. intros d h1 [-> _].
  destruct (_ !! first) as [d|] eqn:Hd; [|by apply wp_ret]. apply (rd_cat _ _ _ _ _ _ Hrd) in Hd.
  apply wp_bind. rewrite (wrap_id 32) by lia. eapply wp_mono; [apply set_bit_safe; [done|lia]|].
  intros [rc x1] h2 Hw1. destruct (truth rc); [by apply wp_ret|]. destruct (negb _); [by apply wp_ret|].
  apply wp_bind. eapply wp_mono; [apply hashtab_search_wp, (rd_cats_ok _ _ _ _ _ _ Hrd)|]. intros d' h3 [-> _].
  destruct (_ !! rng) as [d'|] eqn:Hd'; [|by apply wp_ret]. apply (rd_cat _ _ _ _ _ _ Hrd) in Hd'.
  destruct (_ <=? _); [by apply wp_ret|]. apply wp_bind, (wp_for_loop (λ i y _, ebitmap_wf y)); [done| |].
  - intros i y h4 Hi Hy. apply wp_bind. eapply wp_mono; [apply set_bit_safe; [done|lia]|].
    intros [rc' y'] h5 Hy'. destruct (truth rc'); by repeat apply wp_ret.
  - intros y h4 Hy. by apply wp_ret.
Qed.

Lemma parse_cats_safe fuel s x h :
  (String.length s < fuel)%nat → ebitmap_wf x → wp (parse_cats fuel p s x) (λ '(ok, x', _, _) _, ebitmap_wf x') h.
Proof.
  revert s x h. induction fuel as [|fuel IH]; intros s x h Hf Hw; [lia|]. cbn [parse_cats].
  destruct (scan _ s) as [[tok delim] rest] eqn:E. apply wp_bind. eapply wp_mono; [by apply parse_cat_safe|].
  intros [ok x1] h1 Hw1. destruct (negb ok); [by apply wp_ret|]. unfold is_delim. case_bool_decide as Hd; [|by apply wp_ret].
  subst delim. apply scan_shorter in E. apply IH; [lia|done].
Qed.

(** a range that can be tested for validity *)
Lemma range_ok_level r l : range_ok r → level_wf (get_level r l) ∧ 0 ≤ sens (get_level r l).
Proof. intros ([??]&?&?). unfold get_level. by destruct (l =? 0). Qed.
Lemma range_ok_set r l x : range_ok r → level_wf x → 0 ≤ sens x → range_ok (set_level r l x).
Proof. intros ([??]&?&?) ??. unfold set_level. destruct (l =? 0); refine (conj (conj _ _) (conj _ _)); done. Qed.

Lemma parse_level_safe l tok delim rest c h :
  range_ok (c_range c) →
  wp (parse_level p l tok delim rest c) (λ '(ok, c', _, _) _, ∃ r, c' = with_range c r ∧ range_ok r) h.
Proof.
  intros Hr. unfold parse_level. rewrite (rd_levels _ _ _ _ _ _ Hrd). apply wp_bind.
  eapply wp_mono; [apply hashtab_search_wp, (rd_levels_ok _ _ _ _ _ _ Hrd)|]. intros d h1 [-> _].
  destruct (_ !! tok) as [d|] eqn:Hd; [|apply wp_ret; exists (c_range c); by destruct c].
  apply (rd_sens _ _ _ _ _ _ Hrd) in Hd. destruct (range_ok_level (c_range c) l Hr) as [Hl _].
  destruct (is_delim delim colon).
  - apply wp_bind. eapply wp_mono; [apply parse_cats_safe; [lia|exact Hl]|]. intros [[[ok x] delim'] rest'] h2 Hx. apply wp_ret.
    eexists. split; [done|]. apply range_ok_set; [|done|done]. cbn [c_range with_level with_range]. by apply range_ok_set.
  - apply wp_ret. eexists. split; [done|]. by apply range_ok_set.
Qed.

Lemma mls_from_string_safe str c h :
  range_ok (c_range c) →
  wp (mls_from_string p str c) (λ '(rc, c') _, (rc = STATUS_SUCCESS ∨ rc = STATUS_ERR) ∧
    ∃ r, c' = with_range c r ∧ range_ok r) h.
Proof.
  intros Hr. unfold mls_from_string.
  assert (Hself : ∃ r, c = with_range c r ∧ range_ok r) by (exists (c_range c); by destruct c).
  wp_malloc a h1 M1; case_bool_decide; try done; [|apply wp_ret; by split; [right|]].
  apply wp_bind. apply (wp_mono _ (λ '(_, c') _, ∃ r, c' = with_range c r ∧ range_ok r)).
  2:{ intros [rc c'] h2 Hc. apply wp_ret. split; [|done]. destruct (_ <? _); [by right|by left]. }
  unfold mls_context_to_sid. destruct (negb (truth (mls p))); [by apply wp_ret|]. cbn [negb].
  destruct (scan _ str) as [[tok delim] rest]. apply wp_bind. eapply wp_mono; [by apply parse_level_safe|].
  intros [[[ok c1] delim1] rest1] h2 (r1&->&Hr1). destruct ok; cbn [negb]; [|apply wp_ret; by exists r1].
  destruct (is_delim delim1 dash).
  - destruct (scan _ rest1) as [[tok2 delim2] rest2]. apply wp_bind. eapply wp_mono; [by apply parse_level_safe|].
    intros [[[ok2 c2] delim3] rest3] h3 (r2&->&Hr2). apply wp_ret. by exists r2.
  - apply wp_bind. eapply wp_mono; [apply mls_level_cpy_wp|]. intros [rc high] h3 (_&Hh). apply wp_ret.
    eexists. split; [done|]. cbn [c_range with_range]. destruct Hr1 as ([Hw1 Hw2]&Hs1&Hs2).
    assert (level_wf high ∧ 0 ≤ sens high) as [??].
    { destruct Hh as [[_ ->]|[_ ->]]; [done|]. split; [apply ebitmap_init_wf|done]. }
    by apply range_ok_set.
Qed.
End reading.

(** ** Theory: the fields of a text *)

(** user, role, type and range of a text: what stands between the first three
    colons and after them *)
Definition fields (str : string) : option (string * string * string * option string) :=
  let '(user, d1, rest) := scan [colon] str in
  if negb (is_delim d1 colon) then None else
  let '(role, d2, rest) := scan [colon] rest in
  if negb (is_delim d2 colon) then None else
  let '(type, d3, rest) := scan [colon] rest in
  Some (user, role, type, if is_delim d3 colon then Some rest else None).

Lemma fields_text user role type m :
  avoids [colon] user → avoids [colon] role → avoids [colon] type →
  fields (user +:+ String colon (role +:+ String colon (type +:+ String colon m))) = Some (user, role, type, Some m).
Proof.
  intros Hu Hr Ht. unfold fields. do 3 (rewrite scan_token by (done || by left); cbn [at_stop negb]).
  done.
Qed.

Section records_theory.
Context `{Target}.

Lemma strdup_wp s (Q : option string → heap → Prop) h :
  (∀ h', mem_step h h' True → Q (Some s) h') → (∀ h', mem_step h h' False → Q None h') → wp (strdup s) Q h.
Proof. intros H1 H2. unfold strdup. wp_malloc a h1 M1; apply wp_ret; auto. Qed.

Lemma bad_mem {A} h h' (P : Prop) : mem_step h h' True → mem_step h h' (is_Some (@None A) → P).
Proof. apply mem_step_mono. by intros _ [? ?]. Qed.

Lemma sepol_context_from_string_wp str con h :
  str ≠ "<<none>>"%string →
  wp (sepol_context_from_string str con) (λ '(rc, r) h', mem_step h h' (is_Some (fields str) → rc = STATUS_SUCCESS) ∧
    (rc = STATUS_ERR ∧ r = con ∨ rc = STATUS_SUCCESS ∧ ∃ user role type m,
       fields str = Some (user, role, type, m) ∧ r = Some (SepolContext (Some user) (Some role) (Some type) m))) h.
Proof.
  intros Hn. unfold sepol_context_from_string, fields.
  destruct (Z.eqb_spec (strcmp str "<<none>>") 0) as [E|_]; [by apply strcmp_zero in E|].
  unfold sepol_context_create, sepol_context_set_user, sepol_context_set_role, sepol_context_set_type, sepol_context_set_mls.
  destruct (scan [colon] str) as [[user d1] rest1] eqn:E1. destruct (scan [colon] rest1) as [[role d2] rest2] eqn:E2.
  destruct (scan [colon] rest2) as [[type d3] rest3] eqn:E3.
  apply wp_bind. wp_malloc a h1 M1; apply wp_ret; [|apply wp_ret; split; [mem|by left]].
  eapply wp_bind, wp_deref; [done|]. apply wp_bind, strdup_wp; intros h2 M2; [|apply wp_ret; split; [mem|by left]].
  cbv beta iota. rewrite E1.
  destruct (is_delim d1 colon); cbn [negb]; [|apply wp_ret; split; [|by left]; by apply bad_mem, (mem_step_trans _ _ _ _ _ M1)].
  apply wp_bind, wp_bind, strdup_wp; intros h3 M3; apply wp_ret; [|apply wp_ret; split; [mem|by left]].
  cbv beta iota. rewrite E2. cbn [Z.ltb Z.compare STATUS_SUCCESS].
  destruct (is_delim d2 colon); cbn [negb]; [|apply wp_ret; split; [|by left]; apply bad_mem; mem].
  apply wp_bind, wp_bind, strdup_wp; intros h4 M4; apply wp_ret; [|apply wp_ret; split; [mem|by left]].
  cbv beta iota. rewrite E3. cbn [Z.ltb Z.compare STATUS_SUCCESS].
  apply wp_bind, wp_bind, strdup_wp; intros h5 M5; apply wp_ret; [|apply wp_ret; split; [mem|by left]].
  cbv beta iota. cbn [Z.ltb Z.compare STATUS_SUCCESS].
  destruct (is_delim d3 colon); cbn [negb]; [|apply wp_ret; split; [mem|right; split; [done|by eexists _, _, _, _]]].
  apply wp_bind, wp_bind, strdup_wp; intros h6 M6; apply wp_ret; apply wp_ret;
    (split; [mem|]); [right; split; [done|by eexists _, _, _, _]|by left].
Qed.
End records_theory.

(** ** Theory: contexts from records and text *)

(** the names of the policy lead back to their values *)
Record name_tables (p : policydb) (tu : hashtab string user_datum) (tr : hashtab string role_datum)
    (tt : hashtab string type_datum) : Prop := {
  nm_user u name : at_val (p_user_val_to_name p) u = Some name →
    avoids [colon; nul] name ∧ ∃ d, hashtab_map_of tu !! name = Some d ∧ user_value d = u;
  nm_role r name : at_val (p_role_val_to_name p) r = Some name →
    avoids [colon; nul] name ∧ ∃ d, hashtab_map_of tr !! name = Some d ∧ role_value d = r;
  nm_type t name : at_val (p_type_val_to_name p) t = Some name →
    avoids [colon; nul] name ∧ ∃ d, hashtab_map_of tt !! name = Some d ∧ type_value d = t ∧ type_flavor d ≠ TYPE_ATTRIB
}.

Section contexts.
Context `{Target} (p : policydb) (tl : hashtab string level_datum) (tc : hashtab string cat_datum).
Context (tu : hashtab string user_datum) (tr : hashtab string role_datum) (tt : hashtab string type_datum).
Context (Hrd : read_tables p tl tc tu tr tt).
Implicit Types (Q : Z * option context_struct → heap → Prop).

Lemma wp_table_search {D} (t : option (hashtab string D)) t0 k (f : option D → CM (Z * option context_struct)) Q h :
  t = Some t0 → hashtab_ok t0 → wp (f (hashtab_map_of t0 !! k)) Q h → wp (r ← hashtab_search t k; f r) Q h.
Proof.
  intros -> Hok Hf. apply wp_bind. eapply wp_mono; [by apply hashtab_search_wp|]. by intros r h' [-> ->].
Qed.

(** the record is read up to the text of its range *)
Lemma context_from_record_gen user role type str Q h :
  mls p ≠ 0 →
  (∀ h', mem_step h h' False → Q (STATUS_ERR, None) h') →
  (∀ h', hashtab_map_of tu !! user = None ∨ hashtab_map_of tr !! role = None ∨
     match hashtab_map_of tt !! type with Some d => type_flavor d = TYPE_ATTRIB | None => True end ∨ str = None →
     Q (STATUS_ERR, None) h') →
  (∀ du dr dt s h', hashtab_map_of tu !! user = Some du → hashtab_map_of tr !! role = Some dr →
     hashtab_map_of tt !! type = Some dt → type_flavor dt ≠ TYPE_ATTRIB → str = Some s → mem_step h h' True →
     wp (mls_from_string p s (Context (user_value du) (role_value dr) (type_value dt) mls_range_init))
       (λ '(rc, c), if rc <? 0 then Q (STATUS_ERR, None) else
          wp (context_is_valid p c) (λ ok, Q (if ok then (STATUS_SUCCESS, Some c) else (STATUS_ERR, None)))) h') →
  wp (context_from_record p (Some (SepolContext (Some user) (Some role) (Some type) str))) Q h.
Proof.
  intros Hm Hoom Hunk Hok. unfold context_from_record, strdup_ptr. eapply wp_bind, wp_deref; [done|]. cbv beta.
  cbn [sepol_context_get_user sepol_context_get_role sepol_context_get_type sepol_context_get_mls r_user r_role r_type r_mls].
  assert (Hstr : ∀ s (f : option string → CM (Z * option context_struct)) h1 (P : Prop), mem_step h h1 P →
    (∀ o h2, mem_step h h2 (P ∧ o = Some s) → o = Some s ∨ o = None → wp (f o) Q h2) →
    wp (x ← (s ← deref (Some s); strdup s); f x) Q h1).
  { intros s f h1 P M Hf. apply wp_bind. eapply wp_bind, wp_deref; [done|].
    apply strdup_wp; intros h2 M2; apply Hf; (mem || auto). }
  apply (Hstr _ _ _ True); [mem|]. intros o1 h1 M1 E1. apply (Hstr _ _ _ _ M1). intros o2 h2 M2 E2.
  apply (Hstr _ _ _ _ M2). intros o3 h3 M3 E3. clear Hstr.
  wp_malloc a h4 M4; (destruct E1 as [-> | ->]; [|apply wp_ret, Hoom; mem]);
    (destruct E2 as [-> | ->]; [|apply wp_ret, Hoom; mem]); (destruct E3 as [-> | ->]; [|apply wp_ret, Hoom; mem]);
    [|apply wp_ret, Hoom; mem].
  eapply wp_table_search; [by eapply rd_users|by eapply rd_users_ok|]. destruct (_ !! user) as [du|]; [|apply wp_ret, Hunk; by left].
  eapply wp_table_search; [by eapply rd_roles|by eapply rd_roles_ok|].
  destruct (_ !! role) as [dr|]; [|apply wp_ret, Hunk; by right; left].
  eapply wp_table_search; [by eapply rd_types|by eapply rd_types_ok|].
  destruct (_ !! type) as [dt|]; [|apply wp_ret, Hunk; by right; right; left].
  destruct (Z.eqb_spec (type_flavor dt) TYPE_ATTRIB) as [|Hf]; [apply wp_ret, Hunk; by right; right; left|].
  assert (truth (mls p) = true) as -> by by apply truth_true.
  destruct str as [s|]; [|apply wp_ret, Hunk; by right; right; right]. rewrite andb_false_r. cbn [andb].
  rewrite bool_decide_eq_false_2 by done. cbn [andb]. apply wp_bind.
  eapply wp_mono; [apply (Hok du dr dt s); (done || mem)|]. intros [rc c] h5 Hc.
  destruct (rc <? 0); [by apply wp_ret|]. by apply wp_bind.
Qed.
End contexts.

(** ** Theory: the text of a context *)

Definition context_text (user role type str : string) : string :=
  user +:+ String colon (role +:+ String colon (type +:+ String colon str)).

(** the policy names all the context has, and the text is shorter than 2^31 - 1 *)
Record showable `{Target} (p : policydb) (n : Z) (c : context_struct) : Prop := {
  sh_on : mls p ≠ 0;
  sh_low : level_named p n (low_level (c_range c));
  sh_high : level_named p n (high_level (c_range c));
  sh_cats : cats_named p n;
  sh_names : is_Some (at_val (p_user_val_to_name p) (c_user c)) ∧ is_Some (at_val (p_role_val_to_name p) (c_role c)) ∧
    is_Some (at_val (p_type_val_to_name p) (c_type c));
  sh_short user role type h text h' : at_val (p_user_val_to_name p) (c_user c) = Some user →
    at_val (p_role_val_to_name p) (c_role c) = Some role → at_val (p_type_val_to_name p) (c_type c) = Some type →
    mls_sid_to_context p c h = Some (text, h') →
    strlen (user +:+ String colon (role +:+ String colon (type +:+ text))) < 2 ^ 31 - 1
}.

(** the buffer has room for exactly the text *)
Lemma showable_text `{Target} p n c h :
  showable p n c →
  ∃ user role type str, let text := context_text user role type str in
    at_val (p_user_val_to_name p) (c_user c) = Some user ∧ at_val (p_role_val_to_name p) (c_role c) = Some role ∧
    at_val (p_type_val_to_name p) (c_type c) = Some type ∧ mls_sid_to_context p c h = Some (String colon str, h) ∧
    wp (context_to_string p c) (λ '(rc, r) h', mem_step h h' (rc = STATUS_SUCCESS) ∧
      (rc = STATUS_SUCCESS ∧ r = Some (text, strlen text + 1) ∨ rc = STATUS_ERR ∧ r = None)) h.
Proof.
  intros [Hon Hl Hh Hcn ([user Hu]&[role Hr]&[type Ht]) Hsh].
  destruct (mls_text_len p n c h Hon Hl Hh Hcn) as (str&Htx&Hlen). exists user, role, type, str. cbv zeta.
  pose proof (Hsh _ _ _ _ _ _ Hu Hr Ht Htx) as Hshort. fold (context_text user role type str) in Hshort.
  assert (Hsum : strlen (context_text user role type str) =
    strlen user + 1 + (strlen role + 1) + strlen type + strlen (String colon str)).
  { unfold context_text. rewrite !strlen_app, !strlen_cons, !strlen_app, !strlen_cons, strlen_app, strlen_cons. lia. }
  split_and!; [done..|]. unfold context_to_string.
  eapply wp_bind, wp_deref; [done|]. eapply wp_bind, wp_deref; [done|]. eapply wp_bind, wp_deref; [done|].
  apply wp_bind. unfold wp at 1. rewrite Hlen.
  assert (Hcl : i32 (u32 (strlen (String colon str))) = strlen (String colon str)).
  { unfold strlen in *. unfold u32. rewrite wrap_id by lia. unfold i32, wrap. rewrite Z.mod_small; lia. }
  rewrite Hcl. wp_malloc a h1 M1; case_bool_decide; try done; [|apply wp_ret; split; [mem|by right]].
  apply wp_bind. unfold wp at 1.
  rewrite (pure_heap _ _ h1 _ (pure_mls_sid_to_context p c (conj (proj1 Hl) (proj1 Hh))) Htx).
  fold (context_text user role type str). rewrite <- Hsum.
  assert (Hsz : szt (strlen (context_text user role type str) + 1) = strlen (context_text user role type str) + 1).
  { pose proof size_t_ge as Hge. assert (2 ^ 32 ≤ 2 ^ size_t_bits) by (apply Z.pow_le_mono_r; lia).
    unfold szt. rewrite wrap_id by (unfold strlen in *; lia). lia. }
  rewrite Hsz, (proj2 (Z.leb_le _ _)) by lia. apply wp_ret. split; [mem|by left].
Qed.

Section both.
Context `{Target} (p : policydb) (t ct : list (list avtab_node)).
Context (tl : hashtab string level_datum) (tc : hashtab string cat_datum).
Context (tu : hashtab string user_datum) (tr : hashtab string role_datum) (tt : hashtab string type_datum).
Context (Hlw : label_wf p t ct tl) (Hrd : read_tables p tl tc tu tr tt).

(** the context has the values of three names *)
Definition named_by (user role type : string) (c : context_struct) : Prop :=
  (∃ d, hashtab_map_of tu !! user = Some d ∧ user_value d = c_user c) ∧
  (∃ d, hashtab_map_of tr !! role = Some d ∧ role_value d = c_role c) ∧
  ∃ d, hashtab_map_of tt !! type = Some d ∧ type_value d = c_type c ∧ type_flavor d ≠ TYPE_ATTRIB.

Lemma context_from_string_sound_wp bytes h :
  cstr bytes ≠ "<<none>>"%string →
  wp (context_from_string p bytes) (λ '(rc, r) h',
    rc = STATUS_ERR ∧ r = None ∨ rc = STATUS_SUCCESS ∧ ∃ c user role type str,
      r = Some c ∧ context_valid p tl c ∧ fields (cstr bytes) = Some (user, role, type, Some str) ∧
      named_by user role type c) h.
Proof.
  intros Hn. unfold context_from_string. wp_malloc a h1 M1; case_bool_decide; try done; [|apply wp_ret; by left].
  apply wp_bind. eapply wp_mono; [by apply sepol_context_from_string_wp|].
  intros [rc r] h2 (_&[[-> ->]|(->&user&role&type&str&Hf&->)]); [apply wp_ret; by left|]. apply wp_bind.
  pose proof (lw_on _ _ _ _ Hlw) as Hon.
  apply (context_from_record_gen p tl tc tu tr tt Hrd); [done|intros; apply wp_ret; by left|intros; apply wp_ret; by left|].
  intros du dr dt s h3 Hu Hr Ht Hfl -> _.
  eapply wp_mono; [apply (mls_from_string_safe p tl tc tu tr tt Hrd); cbn; repeat split; (lia || done)|].
  intros [rc c] h4 (Hrc&rng&->&Hrng). destruct (rc <? 0); [apply wp_ret; by left|].
  eapply wp_mono; [apply (context_is_valid_wp p t ct tl Hlw); [by eapply rd_user|by eapply rd_role|done]|].
  intros ok h5 [-> Hok]. destruct ok; apply wp_ret; [right|by left]. split; [done|].
  exists (with_range (Context (user_value du) (role_value dr) (type_value dt) mls_range_init) rng), user, role, type, s.
  refine (conj eq_refl (conj (proj1 Hok eq_refl) (conj Hf (conj _ (conj _ _))))); [by exists du|by exists dr|by exists dt].
Qed.

Context (n : Z) (Htt : text_tables p n tl tc) (Hnm : name_tables p tu tr tt).

(** a context the printer can show and the parser reads back: no run of
    categories goes on over a gap, and no name has a null byte *)
Record context_printable (c : context_struct) : Prop := {
  cp_show : showable p n c;
  cp_low_gaps : no_bridge (cat (low_level (c_range c)));
  cp_high_gaps : no_bridge (cat (high_level (c_range c)));
  cp_text h text h' : mls_sid_to_context p c h = Some (text, h') → avoids [nul] text
}.

Lemma context_to_string_wp c h :
  context_printable c →
  ∃ user role type str, let text := context_text user role type str in
    at_val (p_user_val_to_name p) (c_user c) = Some user ∧ at_val (p_role_val_to_name p) (c_role c) = Some role ∧
    at_val (p_type_val_to_name p) (c_type c) = Some type ∧ range_shown p n str (c_range c) ∧ avoids [nul] str ∧
    wp (context_to_string p c) (λ '(rc, r) h', mem_step h h' (rc = STATUS_SUCCESS) ∧
      (rc = STATUS_SUCCESS ∧ r = Some (text, strlen text + 1) ∨ rc = STATUS_ERR ∧ r = None)) h.
Proof.
  intros [Hsh Hbl Hbh Hnul]. destruct (showable_text p n c h Hsh) as (user&role&type&str&Hu&Hr&Ht&Htx&Hw).
  destruct Hsh as [Hon Hl Hh Hcn _ _]. pose proof (Hnul _ _ _ Htx) as [_ Hn2].
  destruct (mls_text_shown p n c h Hon Hl Hh Hcn Hbl Hbh) as (str'&Htx'&Hshown). rewrite Htx in Htx'. injection Htx' as <-.
  by exists user, role, type, str.
Qed.

Lemma scan_nul text : avoids [nul] text → cstr (text +:+ String nul EmptyString) = text.
Proof. intros Ha. unfold cstr. rewrite scan_token; [done|done|by left]. Qed.
Lemma text_not_none user role type str : context_text user role type str ≠ "<<none>>"%string.
Proof.
  assert (Hc : ∀ a b, ¬ avoids [colon] (a +:+ String colon b)).
  { intros a b. rewrite avoids_app. intros [_ [Hx _]]. apply Hx. by left. }
  intros E. apply (Hc user (role +:+ String colon (type +:+ String colon str))). fold (context_text user role type str).
  rewrite E. cbn. split_and!; try done; by rewrite list_elem_of_singleton.
Qed.

Lemma context_text_parsed_wp c user role type str h :
  context_valid p tl c → context_printable c →
  at_val (p_user_val_to_name p) (c_user c) = Some user → at_val (p_role_val_to_name p) (c_role c) = Some role →
  at_val (p_type_val_to_name p) (c_type c) = Some type → range_shown p n str (c_range c) → avoids [nul] str →
  wp (context_from_string p (context_text user role type str +:+ String nul EmptyString)) (λ '(rc, r) h',
    mem_step h h' (rc = STATUS_SUCCESS) ∧ (rc = STATUS_SUCCESS ∧ r = Some c ∨ rc = STATUS_ERR ∧ r = None)) h.
Proof.
  intros Hv Hp Hu Hr Ht Hsh Hns.
  destruct (nm_user _ _ _ _ Hnm _ _ Hu) as (Hau&du&Hdu&Evu). destruct (nm_role _ _ _ _ Hnm _ _ Hr) as (Har&dr&Hdr&Evr).
  destruct (nm_type _ _ _ _ Hnm _ _ Ht) as (Hat&dt&Hdt&Evt&Hfl).
  assert (Hsub : ∀ x s, x = colon ∨ x = nul → avoids [colon; nul] s → avoids [x] s).
  { intros x s Hx. apply avoids_sub. intros y ->%list_elem_of_singleton. destruct Hx as [-> | ->]; [left|right; left]. }
  unfold context_from_string. rewrite scan_nul.
  2:{ unfold context_text. rewrite !avoids_app. cbn [avoids]. rewrite !avoids_app. cbn [avoids]. rewrite avoids_app. cbn [avoids].
      split_and!; auto; by rewrite list_elem_of_singleton. }
  wp_malloc a h1 M1; case_bool_decide; try done; [|apply wp_ret; split; [mem|by right]]. apply wp_bind.
  eapply wp_mono; [apply sepol_context_from_string_wp, text_not_none|].
  intros [rc r] h2 (M2&Hcase). unfold context_text in *. rewrite fields_text in * by auto.
  destruct Hcase as [[-> ->]|(->&user'&role'&type'&m&[= <- <- <- <-]&->)];
    [apply wp_ret; split; [specialize (M2); clear -M1 M2; unfold mem_step in *; intros Ho; destruct (M1 Ho) as [Ho1 _];
      destruct (M2 Ho1) as [_ E]; by specialize (E (mk_is_Some _ _ eq_refl))|by right]|].
  assert (M3 : mem_step h h2 True) by mem. clear M1 M2. apply wp_bind. pose proof (lw_on _ _ _ _ Hlw) as Hon.
  apply (context_from_record_gen p tl tc tu tr tt Hrd); [done|intros h3 M; apply wp_ret; split; [mem|by right]| |].
  { intros h3 [E|[E|[E|E]]]; [congruence|congruence| |done]. rewrite Hdt in E. done. }
  intros du' dr' dt' s h3 Eu Er Et _ [= <-] M4. rewrite Hdu in Eu. rewrite Hdr in Er. rewrite Hdt in Et. simplify_eq.
  eapply wp_mono; [by apply (mls_from_string_wp p n tl tc Htt str (c_range c))|]. intros [rc c'] h4 [M5 [[-> ->]| ->]].
  2:{ cbn [Z.ltb Z.compare STATUS_ERR]. apply wp_ret. split; [|by right]. intros Ho. destruct (M3 Ho) as [Ho2 _], (M4 Ho2) as [Ho3 _]. by destruct (M5 Ho3). }
  cbn [Z.ltb Z.compare STATUS_SUCCESS].
  assert (Ec : with_range (Context (user_value du') (role_value dr') (type_value dt') mls_range_init) (c_range c) = c).
  { rewrite Evu, Evr, Evt. by destruct c. }
  rewrite Ec. destruct Hv as (Hv1&Hv2&Hv3&Hv4&Hv5). pose proof Hv5 as (_&(Hs1&_)&(Hs2&_)&_).
  destruct Hp as [[_ [Hw1 _] [Hw2 _] _ _ _] _ _ _].
  eapply wp_mono; [apply (context_is_valid_wp p t ct tl Hlw); [lia|lia|]|].
  { refine (conj (conj Hw1 Hw2) (conj _ _)); lia. }
  intros ok h5 [-> Hok]. rewrite (proj2 Hok) by done. apply wp_ret. split; [|by left]. mem.
Qed.

Lemma context_roundtrip_wp c h :
  context_valid p tl c → context_printable c →
  wp ('(rc, r) ← context_to_string p c;
      match r with Some (s, _) => context_from_string p (s +:+ String nul EmptyString) | None => mret (rc, None) end)
    (λ '(rc, r) h', mem_step h h' (rc = STATUS_SUCCESS) ∧
       (rc = STATUS_SUCCESS ∧ r = Some c ∨ rc = STATUS_ERR ∧ r = None)) h.
Proof.
  intros Hv Hp. destruct (context_to_string_wp c h Hp) as (user&role&type&str&Hu&Hr&Ht&Hsh&Hns&Hw).
  apply wp_bind. eapply wp_mono; [exact Hw|]. intros [rc r] h1 [M1 [[-> ->]|[-> ->]]]; [|apply wp_ret; split; [mem|by right]].
  eapply wp_mono; [by apply context_text_parsed_wp|]. intros [rc r] h2 [M2 Hr2]. split; [mem|done].
Qed.

(** an identifier through the text of its context *)
Lemma sid_roundtrip_wp sids st sid c h :
  sidtab_wf sids st → sid_map st !! sid = Some c → context_valid p tl c → context_printable c →
  wp ('(rc, r) ← sepol_sid_to_context p sids sid;
      match r with
      | Some (s, _) => sepol_context_to_sid p sids (s +:+ String nul EmptyString) true
      | None => mret (rc, sids, None)
      end)
    (λ '(rc, sids', r) h', sids' = sids ∧ (mem_ok h → rc = STATUS_SUCCESS) ∧
       (rc = STATUS_SUCCESS ∧ (∃ sid', r = Some sid' ∧ sid' ≠ 0 ∧ sid_map st !! sid' = Some c)
        ∨ rc = STATUS_ERR ∧ r = None)) h.
Proof.
  intros Hwf Hc Hv Hp. unfold sepol_sid_to_context. apply wp_bind, wp_bind.
  eapply wp_mono; [by apply sepol_sidtab_search_wp|]. intros r h1 [-> ->]. rewrite Hc.
  destruct (context_to_string_wp c h Hp) as (user&role&type&str&Hu&Hr&Ht&Hsh&Hns&Hw).
  eapply wp_mono; [exact Hw|]. intros [rc r] h1 [M1 [[-> ->]|[-> ->]]].
  2:{ apply wp_ret. split_and!; [done| |by right]. intros Ho. by destruct (M1 Ho). }
  unfold sepol_context_to_sid. apply wp_bind. eapply wp_mono; [by apply context_text_parsed_wp|].
  intros [rc r] h2 [M2 [[-> ->]|[-> ->]]].
  2:{ apply wp_ret. split_and!; [done| |by right]. intros Ho. destruct (M1 Ho) as [Ho1 _]. by destruct (M2 Ho1). }
  cbn [Z.ltb Z.compare STATUS_SUCCESS negb]. eapply wp_bind, wp_deref; [done|]. apply wp_bind.
  eapply wp_mono; [by apply sepol_sidtab_context_to_sid_wp|]. intros [[rc s'] out] h3 (_&Hcase).
  destruct Hcase as [(->&Hn&t'&Hwf'&Hout&[[-> ->]|(Hno&_)])|(_&_&_&Hno)]; [|by destruct (Hno sid)|by destruct (Hno sid)].
  apply wp_ret. split_and!; [done|done|left]. split; [done|]. by exists out.
Qed.
End both.

(** ** An example policy *)

Module ExampleCtx.
Definition users : hashtab string user_datum := Hashtab [[("user_u"%string, ExampleMls.user)]] 1 1.
Definition roles : hashtab string role_datum :=
  Hashtab [[("object_r"%string, ExampleSec.role 1); ("user_r"%string, ExampleSec.role 2)]] 1 2.
Definition type (v : Z) : type_datum := TypeDatum v 1 TYPE_TYPE (Ebitmap [] 0) 0 0.
Definition types : hashtab string type_datum := Hashtab [[("file_t"%string, type 2); ("user_t"%string, type 1)]] 1 2.
Definition policy : policydb :=
  Policydb 0 30 1 (Symtab None 3) (Symtab (Some roles) 2) (Symtab (Some types) 2) (Symtab (Some users) 1) empty_symtab
    (Symtab (Some ExampleMls.levels) 2) (Symtab (Some ExampleMls.cats) 3)
    [Some "s0"%string; Some "s1"%string] [Some "c0"%string; Some "c1"%string; Some "c2"%string]
    [Some "file"%string] [Some "object_r"%string; Some "user_r"%string] [Some "user_t"%string; Some "file_t"%string]
    [Some "user_u"%string] [Some ExampleSec.file] [Some (ExampleSec.role 1); Some (ExampleSec.role 2)]
    [Some ExampleMls.user] [Some (type 1); Some (type 2)]
    Example.table Example.table [] [] [] [] [] [] [ExampleSec.attr 1; ExampleSec.attr 2] (Ebitmap [] 0)
    [ExampleSec.attr 1; ExampleSec.attr 2] (replicate OCON_NUM []) [].
(** user_u:object_r:file_t:s0 *)
Definition con : context_struct := ExampleSec.file_con.

Lemma ctx_users_ok `{Target} : hashtab_ok users.
Proof. apply one_slot_ok. repeat constructor. Qed.
Lemma roles_ok `{Target} : hashtab_ok roles.
Proof. apply one_slot_ok. repeat constructor; unfold key_before; vm_compute; reflexivity. Qed.
Lemma types_ok `{Target} : hashtab_ok types.
Proof. apply one_slot_ok. repeat constructor; unfold key_before; vm_compute; reflexivity. Qed.
Ltac from_map Hd := unfold hashtab_map_of, entries in Hd; apply elem_of_list_to_map_2 in Hd; cbn in Hd;
  repeat (apply elem_of_cons in Hd as [[= -> ->]|Hd]; [cbn; lia|]); by apply elem_of_nil in Hd.
Lemma reads `{Target} : read_tables policy ExampleMls.levels ExampleMls.cats users roles types.
Proof.
  split; try done; [apply ExampleMls.levels_ok|apply ExampleMls.cats_ok|apply ctx_users_ok|apply roles_ok|apply types_ok|..];
    intros name d Hd; from_map Hd.
Qed.
Ltac named := eexists; split; [vm_compute; reflexivity|]; try done; split; done.
Lemma avoids_dec stop s : (fix go s := match s with EmptyString => true
  | String c s => negb (bool_decide (c ∈ stop)) && go s end) s = true → avoids stop s.
Proof.
  induction s as [|c s IH]; [done|]. intros [Hc Hs]%andb_true_iff. split; [|by apply IH].
  by apply negb_true_iff, bool_decide_eq_false in Hc.
Qed.
Lemma names : name_tables policy users roles types.
Proof.
  split; intros v name Hv; apply at_val_lookup in Hv as [Hv1 Hv]; cbn in Hv; pose proof (lookup_lt_Some _ _ _ Hv) as Hlt;
    cbn in Hlt; (assert (v = 1 ∨ v = 2) as [-> | ->] by lia);
    try (exfalso; cbn in Hlt; lia); injection Hv as <-; (split; [apply avoids_dec; reflexivity|]); named.
Qed.
Lemma ctx_labels `{Target} : label_wf policy Example.slots Example.slots ExampleMls.levels.
Proof.
  destruct ExampleSec.labels as [[? ? H3 H4 H5] ? ? ? H6 H7 ? ?]. by split; [split|..].
Qed.
Lemma ctx_tables : text_tables policy 3 ExampleMls.levels ExampleMls.cats.
Proof. destruct ExampleText.tables as [? ? ? ? ? H6 H7]. by split. Qed.
Lemma con_valid : context_valid policy ExampleMls.levels con.
Proof.
  destruct (wp_run _ _ _ (context_is_valid_wp policy Example.slots Example.slots ExampleMls.levels (ctx_labels (H := target_arm))
    con fresh_heap ltac:(done) ltac:(done) ltac:(apply ExampleSec.file_con_ok))) as (b&h'&Hrun&->&Hb).
  apply Hb. vm_compute in Hrun. by injection Hrun.
Qed.
Lemma con_showable : @showable target_arm policy 3 con.
Proof.
  split; [done|apply ExampleMls.s0_named|apply ExampleMls.s0_named|apply ExampleMls.names3|split_and!; by eexists|].
  intros user role ty h text h' Hu Hr Hty Ht. vm_compute in Ht. injection Ht as <- _.
  injection Hu as <-. injection Hr as <-. injection Hty as <-. done.
Qed.
Lemma ctx_con_printable : @context_printable target_arm policy 3 con.
Proof.
  split; [apply con_showable|..].
  - intros m m' [(l1&l2&Hl) _]. by destruct l1.
  - intros m m' [(l1&l2&Hl) _]. by destruct l1.
  - intros h text h' Ht. vm_compute in Ht. injection Ht as <- _. by apply avoids_dec.
Qed.
End ExampleCtx.

(** ** Properties *)

(** C7: the text [sepol_sid_to_context] makes of an identifier whose context is
    valid and can be printed ([context_printable]: no category at the end of a
    bitmap node that is followed by a gap, where the printer bridges the gap, and
    names without null bytes) is read back by [sepol_context_to_sid] to an
    identifier of the same context; the table stays as it was, and only a lack
    of memory makes either fail. *)
Theorem sid_text_roundtrip `{Target} p t ct tl tc tu tr tt n sids st sid c h :
  label_wf p t ct tl → read_tables p tl tc tu tr tt → text_tables p n tl tc → name_tables p tu tr tt →
  sidtab_wf sids st → sid_map st !! sid = Some c → context_valid p tl c → context_printable p n c →
  wp ('(rc, r) ← sepol_sid_to_context p sids sid;
      match r with
      | Some (s, _) => sepol_context_to_sid p sids (s +:+ String nul EmptyString) true
      | None => mret (rc, sids, None)
      end)
    (λ '(rc, sids', r) h', sids' = sids ∧ (mem_ok h → rc = STATUS_SUCCESS) ∧
       (rc = STATUS_SUCCESS ∧ (∃ sid', r = Some sid' ∧ sid' ≠ 0 ∧ sid_map st !! sid' = Some c)
        ∨ rc = STATUS_ERR ∧ r = None)) h.
Proof. intros Hlw Hrd Htt Hnm. by apply (sid_roundtrip_wp p t ct tl tc tu tr tt Hlw Hrd n Htt Hnm). Qed.

(** [context_from_string] is safe and ends on all bytes but one: it
    succeeds only with a valid context that has the values of the three names
    of the text; for the text "<<none>>" it succeeds in making no record and
    then reads the user of the null record. *)
Theorem context_from_string_sound `{Target} p t ct tl tc tu tr tt bytes h :
  label_wf p t ct tl → read_tables p tl tc tu tr tt →
  (cstr bytes ≠ "<<none>>"%string →
    wp (context_from_string p bytes) (λ '(rc, r) h',
      rc = STATUS_ERR ∧ r = None ∨ rc = STATUS_SUCCESS ∧ ∃ c user role type str,
        r = Some c ∧ context_valid p tl c ∧ fields (cstr bytes) = Some (user, role, type, Some str) ∧
        named_by tu tr tt user role type c) h) ∧
  (cstr bytes = "<<none>>"%string → mem_ok h → context_from_string p bytes h = None).
Proof.
  intros Hlw Hrd. split; [by apply (context_from_string_sound_wp p t ct tl tc tu tr tt)|].
  intros Hc Ho. unfold context_from_string, mbind, CM_bind.
  destruct (wp_run malloc (λ r _, r ≠ None) h) as (r&h'&->&Hr); [by apply wp_malloc_ok|].
  rewrite bool_decide_eq_false_2, Hc by done. done.
Qed.

(** witness of C7 *)
Lemma sid_text_roundtrip_witness :
  let T := target_arm in let p := ExampleCtx.policy in let sids := ExampleSec.sids in
  wp ('(rc, r) ← sepol_sid_to_context p sids 2;
      match r with
      | Some (s, _) => sepol_context_to_sid p sids (s +:+ String nul EmptyString) true
      | None => mret (rc, sids, None)
      end)
    (λ '(rc, sids', r) h', sids' = sids ∧ (mem_ok fresh_heap → rc = STATUS_SUCCESS) ∧
       (rc = STATUS_SUCCESS ∧ (∃ sid', r = Some sid' ∧ sid' ≠ 0 ∧ sid_map ExampleSec.slots !! sid' = Some ExampleCtx.con)
        ∨ rc = STATUS_ERR ∧ r = None)) fresh_heap.
Proof.
  apply (@sid_text_roundtrip target_arm ExampleCtx.policy Example.slots Example.slots ExampleMls.levels ExampleMls.cats
    ExampleCtx.users ExampleCtx.roles ExampleCtx.types 3 ExampleSec.sids ExampleSec.slots 2 ExampleCtx.con fresh_heap).
  - apply ExampleCtx.ctx_labels.
  - apply ExampleCtx.reads.
  - apply ExampleCtx.ctx_tables.
  - apply ExampleCtx.names.
  - apply ExampleSec.sids_wf.
  - by vm_compute.
  - apply ExampleCtx.con_valid.
  - apply ExampleCtx.ctx_con_printable.
Defined.

(** witness of [context_from_string_sound] *)
Lemma context_from_string_sound_witness :
  let T := target_arm in let p := ExampleCtx.policy in let s := "user_u:object_r:file_t:s0"%string in
  (cstr s ≠ "<<none>>"%string →
    wp (context_from_string p s) (λ '(rc, r) h',
      rc = STATUS_ERR ∧ r = None ∨ rc = STATUS_SUCCESS ∧ ∃ c user role type str,
        r = Some c ∧ context_valid p ExampleMls.levels c ∧ fields (cstr s) = Some (user, role, type, Some str) ∧
        named_by ExampleCtx.users ExampleCtx.roles ExampleCtx.types user role type c) fresh_heap) ∧
  (cstr s = "<<none>>"%string → mem_ok fresh_heap → context_from_string p s fresh_heap = None).
Proof.
  apply (@context_from_string_sound target_arm ExampleCtx.policy Example.slots Example.slots ExampleMls.levels ExampleMls.cats
    ExampleCtx.users ExampleCtx.roles ExampleCtx.types).
  - apply ExampleCtx.ctx_labels.
  - apply ExampleCtx.reads.
Defined.
