(* ===== verification/SidQueries.v ===== *)
(** * Identifiers of objects ([services.c], last part)

    The identifiers of file systems, ports, interfaces and nodes, of files by
    their path, and of the contexts a user can enter.  The first kind reads a
    context from the policy and keeps its identifier there once it has one. *)

From S2P Require Import Prelude Hashtab Symtab Ebitmap Context Avtab Sidtab Policydb CondList Mls Constraint Services.
From Stdlib Require Import Ascii.

Definition SECINITSID_FS : Z := 4.
Definition SECINITSID_FILE : Z := 5.
Definition SECINITSID_PORT : Z := 9.
Definition SECINITSID_NETIF : Z := 10.
Definition SECINITSID_NETMSG : Z := 11.
Definition SECINITSID_NODE : Z := 12.
Definition SECCLASS_DIR : Z := 7.
Definition SECURITY_FS_USE_GENFS : Z := 4.
Definition SECURITY_FS_USE_NONE : Z := 5.
(** of the C library, as on Linux *)
Definition AF_INET : Z := 2.
Definition AF_INET6 : Z := 10.

Section operations.
Context `{Target}.

(** ** Object contexts *)

(** [while (c) { if (test) break; c = c->next; }]: the entries passed and the
    rest; a test that reads another member of the union is undefined *)
Fixpoint oc_walk (test : ocontext → CM bool) (c : list ocontext) : CM (list ocontext * list ocontext) :=
  match c with
  | [] => mret ([], [])
  | oc :: next =>
      b ← test oc;
      if (b : bool) then mret ([], c)
      else '(before, cur) ← oc_walk test next; mret (oc :: before, cur)
  end.
Definition u_name (c : ocontext) : CM string := match oc_u c with UName name => mret name | _ => undefined end.
Definition with_sid0 (c : ocontext) (sid : Z) : ocontext :=
  OContext (oc_u c) (oc_v c) (oc_context0 c) (oc_context1 c) sid (oc_sid1 c).
Definition with_sid1 (c : ocontext) (sid : Z) : ocontext :=
  OContext (oc_u c) (oc_v c) (oc_context0 c) (oc_context1 c) (oc_sid0 c) sid.
(** [if (!c->sid[0]) rc = sepol_sidtab_context_to_sid(...)] *)
Definition fill_sid0 (sids : sidtab) (c : ocontext) : CM (Z * sidtab * ocontext) :=
  if truth (oc_sid0 c) then mret (0, sids, c) else
  '(rc, sids, sid) ← sepol_sidtab_context_to_sid sids (oc_context0 c);
  mret (rc, sids, with_sid0 c sid).
(** the same for both, when one of them is missing *)
Definition fill_sids (sids : sidtab) (c : ocontext) : CM (Z * sidtab * ocontext) :=
  if truth (oc_sid0 c) && truth (oc_sid1 c) then mret (0, sids, c) else
  '(rc, sids, sid) ← sepol_sidtab_context_to_sid sids (oc_context0 c);
  let c := with_sid0 c sid in
  if truth rc then mret (rc, sids, c) else
  '(rc, sids, sid) ← sepol_sidtab_context_to_sid sids (oc_context1 c);
  mret (rc, sids, with_sid1 c sid).

(** the list [k] of the policy, and the store to it *)
Definition oc_list (p : policydb) (k : nat) : CM (list ocontext) := deref (ocontexts p !! k).
Definition set_oc_list (p : policydb) (k : nat) (l : list ocontext) : policydb :=
  with_ocontexts p (<[k := l]> (ocontexts p)) (p_genfs p).

(** one identifier from the first entry that passes the test, or a fixed one;
    the code, the policy, the table and the identifier if it was written *)
Definition oc_query (p : policydb) (sids : sidtab) (k : nat) (test : ocontext → CM bool) (dflt : Z)
    : CM (Z * policydb * sidtab * option Z) :=
  l ← oc_list p k;
  '(before, cur) ← oc_walk test l;
  match cur with
  | c :: next =>
      '(rc, sids, c) ← fill_sid0 sids c;
      let p := set_oc_list p k (before ++ c :: next) in
      mret (rc, p, sids, if truth rc then None else Some (oc_sid0 c))
  | [] => mret (0, p, sids, Some dflt)
  end.
(** the same with both identifiers *)
Definition oc_query2 (p : policydb) (sids : sidtab) (k : nat) (test : ocontext → CM bool) (dflt : Z * Z)
    : CM (Z * policydb * sidtab * option (Z * Z)) :=
  l ← oc_list p k;
  '(before, cur) ← oc_walk test l;
  match cur with
  | c :: next =>
      '(rc, sids, c) ← fill_sids sids c;
      let p := set_oc_list p k (before ++ c :: next) in
      mret (rc, p, sids, if truth rc then None else Some (oc_sid0 c, oc_sid1 c))
  | [] => mret (0, p, sids, Some dflt)
  end.

Definition sepol_fs_sid (p : policydb) (sids : sidtab) (name : string) : CM (Z * policydb * sidtab * option (Z * Z)) :=
  oc_query2 p sids OCON_FS (λ c, n ← u_name c; mret (strcmp n name =? 0)) (SECINITSID_FS, SECINITSID_FILE).
Definition port_matches (protocol port : Z) (c : ocontext) : CM bool :=
  match oc_u c with
  | UPort proto low high => mret ((proto =? protocol) && (low <=? port) && (port <=? high))
  | _ => undefined
  end.
Definition sepol_port_sid (p : policydb) (sids : sidtab) (protocol port : Z) : CM (Z * policydb * sidtab * option Z) :=
  oc_query p sids OCON_PORT (port_matches protocol port) SECINITSID_PORT.
Definition sepol_netif_sid (p : policydb) (sids : sidtab) (name : string) : CM (Z * policydb * sidtab * option (Z * Z)) :=
  oc_query2 p sids OCON_NETIF (λ c, n ← u_name c; mret (strcmp name n =? 0)) (SECINITSID_NETIF, SECINITSID_NETMSG).

(** the arrays have four words *)
Definition match_ipv6_addrmask (input addr mask : list Z) : CM bool :=
  r ← for_loop 0 4 (λ i (_ : unit),
        let i := Z.to_nat i in
        a ← deref (addr !! i); x ← deref (input !! i); m ← deref (mask !! i);
        mret (if negb (a =? Z.land x m) then inl () else inr ())) ();
  mret (match r with inl _ => false | inr _ => true end).
Definition node_matches (addr : Z) (c : ocontext) : CM bool :=
  match oc_u c with UNode a m => mret (a =? Z.land addr m) | _ => undefined end.
Definition node6_matches (addrp : list Z) (c : ocontext) : CM bool :=
  match oc_u c with UNode6 a m => match_ipv6_addrmask addrp a m | _ => undefined end.
(** the address is given by its words *)
Definition sepol_node_sid (p : policydb) (sids : sidtab) (domain : Z) (addrp : list Z) (addrlen : Z)
    : CM (Z * policydb * sidtab * option Z) :=
  if domain =? AF_INET then
    if negb (addrlen =? 4) then mret (- EINVAL, p, sids, None) else
    addr ← deref (addrp !! 0%nat);
    oc_query p sids OCON_NODE (node_matches addr) SECINITSID_NODE
  else if domain =? AF_INET6 then
    if negb (addrlen =? 16) then mret (- EINVAL, p, sids, None) else
    oc_query p sids OCON_NODE6 (node6_matches addrp) SECINITSID_NODE
  else mret (0, p, sids, Some SECINITSID_NODE).

(** ** Files by path *)

(** [for (genfs...) { cmp = strcmp(fstype, genfs->fstype); if (cmp <= 0) break; }]:
    the entries passed, the rest, and [cmp] *)
Fixpoint genfs_walk (fs : string) (genfs : list genfs) (cmp : Z) : list Policydb.genfs * list Policydb.genfs * Z :=
  match genfs with
  | [] => ([], [], cmp)
  | g :: next =>
      let cmp := strcmp fs (fstype g) in
      if cmp <=? 0 then ([], genfs, cmp)
      else let '(before, cur, cmp) := genfs_walk fs next cmp in (g :: before, cur, cmp)
  end.
(** [strncmp(name, path, strlen(name)) == 0] *)
Definition path_matches (path : string) (sclass : Z) (c : ocontext) : CM bool :=
  name ← u_name c;
  mret ((negb (truth (oc_v c)) || (sclass =? oc_v c)) && String.prefix name path).
Definition sepol_genfs_sid (p : policydb) (sids : sidtab) (fs path : string) (sclass : Z)
    : CM (Z * policydb * sidtab * option Z) :=
  let '(gbefore, gcur, cmp) := genfs_walk fs (p_genfs p) 0 in
  match gcur with
  | [] => mret (- ENOENT, p, sids, Some SECINITSID_UNLABELED)
  | g :: gnext =>
      if truth cmp then mret (- ENOENT, p, sids, Some SECINITSID_UNLABELED) else
      '(before, cur) ← oc_walk (path_matches path sclass) (gf_head g);
      match cur with
      | [] => mret (- ENOENT, p, sids, Some SECINITSID_UNLABELED)
      | c :: next =>
          '(rc, sids, c) ← fill_sid0 sids c;
          let p := with_ocontexts p (ocontexts p) (gbefore ++ Genfs (fstype g) (before ++ c :: next) :: gnext) in
          mret (rc, p, sids, if truth rc then None else Some (oc_sid0 c))
      end
  end.
(** the code, the policy, the table, the behavior and the identifier *)
Definition sepol_fs_use (p : policydb) (sids : sidtab) (fs : string)
    : CM (Z * policydb * sidtab * option Z * option Z) :=
  l ← oc_list p OCON_FSUSE;
  '(before, cur) ← oc_walk (λ c, n ← u_name c; mret (strcmp fs n =? 0)) l;
  match cur with
  | c :: next =>
      let behavior := oc_v c in
      '(rc, sids, c) ← fill_sid0 sids c;
      let p := set_oc_list p OCON_FSUSE (before ++ c :: next) in
      mret (rc, p, sids, Some behavior, if truth rc then None else Some (oc_sid0 c))
  | [] =>
      '(rc, p, sids, sid) ← sepol_genfs_sid p sids fs "/" SECCLASS_DIR;
      mret (0, p, sids, Some (if truth rc then SECURITY_FS_USE_NONE else SECURITY_FS_USE_GENFS), sid)
  end.

(** ** Contexts of a user *)

Definition SIDS_NEL : Z := 25.
(** the variables of the loops: the table, the static variables of the
    evaluation of constraints, [usercon], [mysids] (as many as [mynel]),
    [maxnel], [avd], [reason] and [rc] *)
Record user_state := UserState {
  us_sids : sidtab; us_sec : sec_state; us_con : context_struct; us_mysids : list Z; us_max : Z;
  us_avd : av_decision; us_reason : Z; us_rc : Z }.
Definition us_with_con (s : user_state) (c : context_struct) : user_state :=
  UserState (us_sids s) (us_sec s) c (us_mysids s) (us_max s) (us_avd s) (us_reason s) (us_rc s).

(** [mysids[mynel++] = sid], with a larger array when it is full; the answer
    [None] is [-ENOMEM] *)
Definition add_sid (mysids : list Z) (maxnel sid : Z) : CM (option (list Z * Z)) :=
  if Z.of_nat (length mysids) <? maxnel then mret (Some (mysids ++ [sid], maxnel)) else
  mysids2 ← malloc;
  mret (match mysids2 with None => None | Some _ => Some (mysids ++ [sid], u32 (maxnel + SIDS_NEL)) end).
(** one type of a role; [inl] is an error code *)
Definition user_type_step (p : policydb) (fromcon : context_struct) (user : user_datum) (j : Z) (s : user_state)
    : CM ((Z * sidtab * sec_state) + user_state) :=
  let usercon := Context (c_user (us_con s)) (c_role (us_con s)) (u32 (j + 1)) (c_range (us_con s)) in
  if c_type usercon =? c_type fromcon then mret (inr (us_with_con s usercon)) else
  let '(err, usercon) := mls_setup_user_range fromcon user usercon (mls p) in
  if truth err then mret (inr (us_with_con s usercon)) else
  '(rc, avd, reason, sec, _) ← context_struct_compute_av p (us_sec s) fromcon usercon SECCLASS_PROCESS
     PROCESS__TRANSITION (us_avd s) (us_reason s) None 0;
  if truth rc || negb (truth (Z.land (av_allowed avd) PROCESS__TRANSITION)) then
    mret (inr (UserState (us_sids s) sec usercon (us_mysids s) (us_max s) avd reason rc)) else
  '(rc, sids, sid) ← sepol_sidtab_context_to_sid (us_sids s) usercon;
  if truth rc then mret (inl (rc, sids, sec)) else
  r ← add_sid (us_mysids s) (us_max s) sid;
  mret (match r with
        | None => inl (- ENOMEM, sids, sec)
        | Some (mysids, maxnel) => inr (UserState sids sec usercon mysids maxnel avd reason rc)
        end).
Definition user_role_step (p : policydb) (fromcon : context_struct) (user : user_datum) (i : Z) (s : user_state)
    : CM ((Z * sidtab * sec_state) + user_state) :=
  role ← deref (at_index (role_val_to_struct p) (i + 1));
  let s := us_with_con s (Context (c_user (us_con s)) (u32 (i + 1)) (c_type (us_con s)) (c_range (us_con s))) in
  role ← deref role;
  r ← ebitmap_for_each_bit (ts_types (role_types role)) (λ bit j s,
        if bit then user_type_step p fromcon user j s else mret (inr s)) s;
  mret (match r with inr (s, _) => inr s | inl x => inl x end).
(** [usercon0], [avd0] and [reason0] are what the variables hold before they
    are written; the code, the table, the static variables, and the array when
    it was written *)
Definition sepol_get_user_sids (p : policydb) (sids : sidtab) (sec : sec_state) (fromsid : Z) (username : string)
    (usercon0 : context_struct) (avd0 : av_decision) (reason0 : Z) : CM (Z * sidtab * sec_state * option (list Z)) :=
  fromcon ← sepol_sidtab_search sids fromsid;
  match fromcon with
  | None => mret (- EINVAL, sids, sec, None)
  | Some fromcon =>
      user ← hashtab_search (table (p_users p)) username;
      match user with
      | None => mret (- EINVAL, sids, sec, None)
      | Some user =>
          let usercon := Context (user_value user) (c_role usercon0) (c_type usercon0) (c_range usercon0) in
          mysids ← malloc;
          if bool_decide (mysids = None) then mret (- ENOMEM, sids, sec, None) else
          r ← ebitmap_for_each_bit (rs_roles (user_roles user)) (λ bit i s,
                if bit then user_role_step p fromcon user i s else mret (inr s))
                (UserState sids sec usercon [] SIDS_NEL avd0 reason0 0);
          mret (match r with
                | inl (rc, sids, sec) => (rc, sids, sec, None)
                | inr (s, _) => (us_rc s, us_sids s, us_sec s, Some (us_mysids s))
                end)
      end
  end.
End operations.

(** ** Meaning *)

(** the identifiers kept in the entries are those of their contexts *)
Definition kept (t : list (list sid_node)) (sid : Z) (c : context_struct) : Prop :=
  sid ≠ 0 → sid_map t !! sid = Some c.
Definition coherent (t : list (list sid_node)) (l : list ocontext) : Prop :=
  Forall (λ c, kept t (oc_sid0 c) (oc_context0 c) ∧ kept t (oc_sid1 c) (oc_context1 c)) l.

(** the answer of a query for one identifier: that of the context of the first
    entry that matches, which the policy keeps, so that the same query gives
    the same answer and changes nothing; or a fixed one *)
Definition answers (run : policydb → sidtab → CM (Z * policydb * sidtab * option Z)) (k : nat)
    (matches : ocontext → bool) (dflt : Z) (p : policydb) (s : sidtab) (t : list (list sid_node))
    (l : list ocontext) (h : heap) : Prop :=
  wp (run p s) (λ '(rc, p', s', sid) h', mem_step h h' (rc = 0 ∨ next_sid s = UINT_MAX ∨ shutdown s ≠ 0) ∧
    match List.find matches l with
    | None => rc = 0 ∧ p' = p ∧ s' = s ∧ sid = Some dflt
    | Some c =>
        (∃ t' l' v, rc = 0 ∧ sid = Some v ∧ v ≠ 0 ∧ sidtab_wf s' t' ∧ sid_map t' !! v = Some (oc_context0 c) ∧
          p' = set_oc_list p k l' ∧ coherent t' l' ∧ (∀ h, run p' s' h = Some ((0, p', s', Some v), h)))
        ∨ rc = - ENOMEM ∧ sid = None
    end) h.
(** the same for two *)
Definition answers2 (run : policydb → sidtab → CM (Z * policydb * sidtab * option (Z * Z))) (k : nat)
    (matches : ocontext → bool) (dflt : Z * Z) (p : policydb) (s : sidtab) (t : list (list sid_node))
    (l : list ocontext) (h : heap) : Prop :=
  wp (run p s) (λ '(rc, p', s', sid) h',
    mem_step h h' (rc = 0 ∨ UINT_MAX - 1 ≤ next_sid s ∨ shutdown s ≠ 0) ∧
    match List.find matches l with
    | None => rc = 0 ∧ p' = p ∧ s' = s ∧ sid = Some dflt
    | Some c =>
        (∃ t' l' v w, rc = 0 ∧ sid = Some (v, w) ∧ v ≠ 0 ∧ w ≠ 0 ∧ sidtab_wf s' t' ∧
          sid_map t' !! v = Some (oc_context0 c) ∧ sid_map t' !! w = Some (oc_context1 c) ∧
          p' = set_oc_list p k l' ∧ coherent t' l' ∧ (∀ h, run p' s' h = Some ((0, p', s', Some (v, w)), h)))
        ∨ rc = - ENOMEM ∧ sid = None
    end) h.

(** what the entries are matched against *)
Definition name_is (name : string) (c : ocontext) : bool :=
  match oc_u c with UName n => bool_decide (n = name) | _ => false end.
Definition port_in (protocol port : Z) (c : ocontext) : bool :=
  match oc_u c with UPort pr low high => (pr =? protocol) && (low <=? port) && (port <=? high) | _ => false end.
Definition node_in (addr : Z) (c : ocontext) : bool :=
  match oc_u c with UNode a m => a =? Z.land addr m | _ => false end.
Definition node6_in (addr : list Z) (c : ocontext) : bool :=
  match oc_u c with UNode6 a m => bool_decide (a = zip_with Z.land addr m) | _ => false end.
Definition path_in (path : string) (sclass : Z) (c : ocontext) : bool :=
  match oc_u c with
  | UName name => (negb (truth (oc_v c)) || (sclass =? oc_v c)) && String.prefix name path
  | _ => false
  end.

(** the entry for a path, among those of the type of file system *)
Definition genfs_of (p : policydb) (fs : string) : option genfs :=
  List.find (λ g, bool_decide (fstype g = fs)) (p_genfs p).
Definition genfs_entry (p : policydb) (fs path : string) (sclass : Z) : option ocontext :=
  g ← genfs_of p fs; List.find (path_in path sclass) (gf_head g).
(** the types of file systems are in ascending order *)
Definition genfs_before (g g' : genfs) : Prop := strcmp (fstype g) (fstype g') < 0.

(** the context of a user with a role and a type, when the user can have it *)
Definition user_con (p : policydb) (fromcon usercon0 : context_struct) (user : user_datum) (i j : Z)
    : option context_struct :=
  let usercon := Context (user_value user) (u32 (i + 1)) (u32 (j + 1)) (c_range usercon0) in
  if c_type usercon =? c_type fromcon then None else
  let '(err, usercon) := mls_setup_user_range fromcon user usercon (mls p) in
  if truth err then None else Some usercon.
Definition role_cons (p : policydb) (fromcon usercon0 : context_struct) (user : user_datum) (i : Z)
    : list context_struct :=
  match at_val (role_val_to_struct p) (i + 1) with
  | Some role => omap (user_con p fromcon usercon0 user i) (ebitmap_bits (ts_types (role_types role)))
  | None => []
  end.
(** the contexts of a user, by role and type *)
Definition user_cons (p : policydb) (fromcon usercon0 : context_struct) (user : user_datum) : list context_struct :=
  ebitmap_bits (rs_roles (user_roles user)) ≫= role_cons p fromcon usercon0 user.
(** [fromcon] may make the transition, by the rules, the constraints (of the
    truth values [val]) and the role rules *)
Definition may_enter (p : policydb) (t ct : list (list avtab_node)) (cd : class_datum)
    (val : context_struct → constraint_node → bool) (fromcon con : context_struct) : bool :=
  match at_index (type_attr_map p) (c_type fromcon), at_index (type_attr_map p) (c_type con) with
  | Some sattr, Some tattr =>
      some_pair sattr tattr (pair_allows t ct SECCLASS_PROCESS 1) && constrained (val con) (class_constraints cd) 1 &&
      role_change_ok p fromcon con SECCLASS_PROCESS 1
  | _, _ => false
  end.

Section theory.
Context `{Target}.
Implicit Types (p : policydb) (s : sidtab) (t : list (list sid_node)) (c : ocontext) (l : list ocontext) (h : heap).

Lemma kept_mono t t' s out_sid x sid y :
  (∀ sid, sid_map t !! sid ≠ Some x) → out_sid = next_sid s → sidtab_wf s t →
  sid_map t' = <[out_sid := x]> (sid_map t) → kept t sid y → kept t' sid y.
Proof.
  intros Hno -> Hwf Hm Hk Hs. specialize (Hk Hs). rewrite Hm, lookup_insert_ne; [done|].
  intros <-. apply (sid_map_elem s t _ _ Hwf) in Hk. pose proof (st_sids _ _ Hwf _ Hk). cbn in *. lia.
Qed.

(** the identifier of a context; what was in the table stays *)
Lemma context_to_sid_keeps s t x h :
  sidtab_wf s t →
  wp (sepol_sidtab_context_to_sid s x) (λ '(rc, s', sid) h',
    mem_step h h' (rc = 0 ∨ next_sid s = UINT_MAX ∨ shutdown s ≠ 0) ∧
    (rc = 0 ∧ sid ≠ 0 ∧ shutdown s' = shutdown s ∧ next_sid s ≤ next_sid s' ≤ next_sid s + 1 ∧
      (∃ t', sidtab_wf s' t' ∧ sid_map t' !! sid = Some x ∧ ∀ sid x, kept t sid x → kept t' sid x)
     ∨ rc = - ENOMEM ∧ s' = s)) h.
Proof.
  intros Hwf. pose proof (st_next _ _ Hwf) as Hn.
  eapply wp_mono; [by apply sepol_sidtab_context_to_sid_wp|]. intros [[rc s'] sid] h' [Hm Hr]. split; [done|].
  destruct Hr as [(->&Hsid&t'&Hwf'&Hl&Hcase)|(->&->&_)]; [left|by right].
  destruct Hcase as [[-> ->]|(Hno&Hs&Hn'&Hsh&Hmap)].
  - split_and!; [done..|lia|lia|]. by exists t.
  - rewrite Hn'. split_and!; [done..|lia|lia|]. exists t'. split_and!; [done..|].
    intros v c. by eapply kept_mono.
Qed.

(** ** The lists *)

Lemma oc_walk_find (test : ocontext → CM bool) (f : ocontext → bool) l :
  Forall (λ c, ∀ h, test c h = Some (f c, h)) l →
  ∃ before cur, (∀ h, oc_walk test l h = Some ((before, cur), h)) ∧ l = before ++ cur ∧
    Forall (λ c, f c = false) before ∧ List.find f l = head cur ∧ (∀ c, head cur = Some c → f c = true).
Proof.
  induction 1 as [|c l Hc _ (before&cur&Hw&->&Hb&Hf&Hh)]; [by exists [], []|]. cbn [oc_walk List.find].
  unfold mbind, CM_bind. destruct (f c) eqn:Ec.
  - exists [], (c :: before ++ cur). split_and!; [|done..|naive_solver]. intros h. by rewrite Hc.
  - exists (c :: before), cur. split_and!; [|done|by constructor|done|done].
    intros h. by rewrite Hc, Hw.
Qed.

Lemma oc_walk_at (test : ocontext → CM bool) (f : ocontext → bool) before c next h :
  Forall (λ c, ∀ h, test c h = Some (f c, h)) (before ++ [c]) → Forall (λ c, f c = false) before → f c = true →
  oc_walk test (before ++ c :: next) h = Some ((before, c :: next), h).
Proof.
  intros Ht Hb Hc. induction before as [|b before IH]; cbn [app oc_walk] in *; unfold mbind, CM_bind.
  - apply Forall_inv in Ht. by rewrite Ht, Hc.
  - apply Forall_cons_1 in Ht as [Ht1 Ht2]. apply Forall_cons_1 in Hb as [Hb1 Hb2]. rewrite Ht1, Hb1.
    by rewrite IH.
Qed.

Lemma coherent_mono t t' l :
  (∀ sid x, kept t sid x → kept t' sid x) → coherent t l → coherent t' l.
Proof. intros Hk Hl. eapply Forall_impl; [exact Hl|]. intros c [??]. eauto. Qed.

(** the entry that matched, with its identifier *)
Lemma fill_sid0_wp s t c h :
  sidtab_wf s t → kept t (oc_sid0 c) (oc_context0 c) →
  wp (fill_sid0 s c) (λ '(rc, s', c') h', mem_step h h' (rc = 0 ∨ next_sid s = UINT_MAX ∨ shutdown s ≠ 0) ∧
    ((∃ t' v, rc = 0 ∧ c' = with_sid0 c v ∧ v ≠ 0 ∧ sidtab_wf s' t' ∧ sid_map t' !! v = Some (oc_context0 c) ∧
       ∀ sid x, kept t sid x → kept t' sid x)
     ∨ rc = - ENOMEM)) h.
Proof.
  intros Hwf Hk. unfold fill_sid0. destruct (truth (oc_sid0 c)) eqn:E.
  - apply truth_true in E. apply wp_ret. split; [apply mem_step_refl; by left|left]. exists t, (oc_sid0 c).
    split_and!; [done|by destruct c|done|done|by apply Hk|done].
  - apply wp_bind. eapply wp_mono; [by apply context_to_sid_keeps|]. intros [[rc s'] v] h' [Hm Hr]. apply wp_ret.
    split; [done|]. destruct Hr as [(->&Hv&_&_&t'&Hwf'&Hl&Hmono)|[-> ->]]; [left|by right]. by exists t', v.
Qed.

Lemma fill_sids_wp s t c h :
  sidtab_wf s t → kept t (oc_sid0 c) (oc_context0 c) → kept t (oc_sid1 c) (oc_context1 c) →
  wp (fill_sids s c) (λ '(rc, s', c') h', mem_step h h' (rc = 0 ∨ UINT_MAX - 1 ≤ next_sid s ∨ shutdown s ≠ 0) ∧
    ((∃ t' v w, rc = 0 ∧ c' = with_sid1 (with_sid0 c v) w ∧ v ≠ 0 ∧ w ≠ 0 ∧ sidtab_wf s' t' ∧
       sid_map t' !! v = Some (oc_context0 c) ∧ sid_map t' !! w = Some (oc_context1 c) ∧
       ∀ sid x, kept t sid x → kept t' sid x)
     ∨ rc = - ENOMEM)) h.
Proof.
  intros Hwf Hk0 Hk1. unfold fill_sids. destruct (truth (oc_sid0 c) && truth (oc_sid1 c)) eqn:E.
  - apply andb_true_iff in E as [E0%truth_true E1%truth_true]. apply wp_ret. split; [apply mem_step_refl; by left|left].
    exists t, (oc_sid0 c), (oc_sid1 c). split_and!; [done|by destruct c|done|done|done|by apply Hk0|by apply Hk1|done].
  - clear E. apply wp_bind. eapply wp_mono; [by apply context_to_sid_keeps|]. intros [[rc s1] v] h1 [Hm1 Hr1].
    destruct Hr1 as [(->&Hv&Hsh&Hn&t1&Hwf1&Hl1&Hmono1)|[-> ->]]; cbn [truth Z.eqb negb]; cycle 1.
    { apply wp_ret. split; [|by right]. intros Ho. destruct (Hm1 Ho) as [? [?|[?|?]]]; [done|split; [done|lia]|by split; [|right; right]]. }
    apply wp_bind. eapply wp_mono; [by apply context_to_sid_keeps|]. intros [[rc s2] w] h2 [Hm2 Hr2]. apply wp_ret.
    split.
    { intros Ho. destruct (Hm1 Ho) as [Ho1 _]. destruct (Hm2 Ho1) as [? [?|[?|?]]]; (split; [done|]); [by left|right; left; lia|].
      right; right. by rewrite <- Hsh. }
    destruct Hr2 as [(->&Hw&_&_&t2&Hwf2&Hl2&Hmono2)|[-> ->]]; [left|by right]. exists t2, v, w.
    split_and!; try done; [by apply (Hmono2 v); [intros _|]|]. eauto.
Qed.

Lemma coherent_fill t t' before c c' next :
  coherent t (before ++ c :: next) → (∀ sid x, kept t sid x → kept t' sid x) →
  oc_context0 c' = oc_context0 c → oc_context1 c' = oc_context1 c →
  kept t' (oc_sid0 c') (oc_context0 c) → kept t' (oc_sid1 c') (oc_context1 c) → coherent t' (before ++ c' :: next).
Proof.
  intros Hc Hmono H0 H1 ??. apply (coherent_mono t t') in Hc; [|done]. unfold coherent in *.
  rewrite Forall_app, Forall_cons in *. rewrite H0, H1. naive_solver.
Qed.

Lemma oc_list_set p k l h : (k < length (ocontexts p))%nat → oc_list (set_oc_list p k l) k h = Some (l, h).
Proof. intros Hk. unfold oc_list, set_oc_list, with_ocontexts. cbn [ocontexts]. by rewrite list_lookup_insert_eq. Qed.
Lemma set_oc_list_twice p k l l' : set_oc_list (set_oc_list p k l) k l' = set_oc_list p k l'.
Proof. unfold set_oc_list, with_ocontexts. cbn. by rewrite list_insert_insert_eq. Qed.

(** a query through a test that reads only the key of an entry *)
Section query.
Context (k : nat) (test : ocontext → CM bool) (f : ocontext → bool).
Context (test0 : ∀ c v, test (with_sid0 c v) = test c) (test1 : ∀ c v, test (with_sid1 c v) = test c).
Context (f0 : ∀ c v, f (with_sid0 c v) = f c) (f1 : ∀ c v, f (with_sid1 c v) = f c).

Lemma oc_query_answers dflt p s t l h :
  sidtab_wf s t → ocontexts p !! k = Some l → coherent t l → Forall (λ c, ∀ h, test c h = Some (f c, h)) l →
  answers (λ p s, oc_query p s k test dflt) k f dflt p s t l h.
Proof.
  intros Hwf Hl Hcoh Ht. destruct (oc_walk_find test f l Ht) as (before&cur&Hwalk&->&Hb&Hfind&Hhd).
  unfold answers, oc_query at 1. rewrite Hfind. eapply wp_bind, wp_deref; [done|]. apply wp_bind. unfold wp at 1. rewrite Hwalk.
  destruct cur as [|c next]; cbn [head].
  { apply wp_ret. split; [apply mem_step_refl; by left|done]. }
  assert (Hkept := Hcoh). apply Forall_app in Hkept as [_ Hkept]. apply Forall_inv in Hkept as [Hk0 Hk1].
  apply wp_bind. eapply wp_mono; [by apply fill_sid0_wp|]. intros [[rc s'] c'] h' [Hm Hr]. apply wp_ret. split; [done|].
  destruct Hr as [(t'&v&->&->&Hv&Hwf'&Hlv&Hmono)| ->]; [left|by right]. exists t', (before ++ with_sid0 c v :: next), v.
  split_and!; try done.
  { apply (coherent_fill t t' _ c); cbn; try done; [by intros _|by apply Hmono]. }
  intros h0. unfold oc_query, mbind, CM_bind. rewrite oc_list_set by (by apply lookup_lt_Some in Hl).
  rewrite (oc_walk_at _ f); [|..|done|rewrite f0; by apply Hhd]; cycle 1.
  { rewrite Forall_app, Forall_singleton, test0, f0. apply Forall_app in Ht as [? ?%Forall_inv]. done. }
  unfold fill_sid0. cbn [oc_sid0 with_sid0]. rewrite (proj2 (truth_true v)) by done. cbn. by rewrite set_oc_list_twice.
Qed.

Lemma oc_query2_answers dflt p s t l h :
  sidtab_wf s t → ocontexts p !! k = Some l → coherent t l → Forall (λ c, ∀ h, test c h = Some (f c, h)) l →
  answers2 (λ p s, oc_query2 p s k test dflt) k f dflt p s t l h.
Proof.
  intros Hwf Hl Hcoh Ht. destruct (oc_walk_find test f l Ht) as (before&cur&Hwalk&->&Hb&Hfind&Hhd).
  unfold answers2, oc_query2 at 1. rewrite Hfind. eapply wp_bind, wp_deref; [done|]. apply wp_bind. unfold wp at 1. rewrite Hwalk.
  destruct cur as [|c next]; cbn [head].
  { apply wp_ret. split; [apply mem_step_refl; by left|done]. }
  assert (Hkept := Hcoh). apply Forall_app in Hkept as [_ Hkept]. apply Forall_inv in Hkept as [Hk0 Hk1].
  apply wp_bind. eapply wp_mono; [by apply fill_sids_wp|]. intros [[rc s'] c'] h' [Hm Hr]. apply wp_ret. split; [done|].
  destruct Hr as [(t'&v&w&->&->&Hv&Hw&Hwf'&Hlv&Hlw&Hmono)| ->]; [left|by right].
  exists t', (before ++ with_sid1 (with_sid0 c v) w :: next), v, w. split_and!; try done.
  { apply (coherent_fill t t' _ c); cbn; first [done | by intros _]. }
  intros h0. unfold oc_query2, mbind, CM_bind. rewrite oc_list_set by (by apply lookup_lt_Some in Hl).
  rewrite (oc_walk_at _ f); [|..|done|rewrite f1, f0; by apply Hhd]; cycle 1.
  { rewrite Forall_app, Forall_singleton, test1, test0, f1, f0. apply Forall_app in Ht as [? ?%Forall_inv]. done. }
  unfold fill_sids. cbn [oc_sid0 oc_sid1 with_sid1 with_sid0]. rewrite !(proj2 (truth_true _)) by done. cbn.
  by rewrite set_oc_list_twice.
Qed.
End query.

(** ** The tests *)

Lemma match_ipv6_addrmask_wp (x a m : list Z) h :
  length x = 4%nat → length a = 4%nat → length m = 4%nat →
  match_ipv6_addrmask x a m h = Some (bool_decide (a = zip_with Z.land x m), h).
Proof.
  intros Hx Ha Hm. destruct x as [|x0 [|x1 [|x2 [|x3 [|]]]]]; try done. destruct a as [|a0 [|a1 [|a2 [|a3 [|]]]]]; try done.
  destruct m as [|m0 [|m1 [|m2 [|m3 [|]]]]]; try done. clear Hx Ha Hm. cbn [zip_with].
  case_bool_decide as E; cbv -[Z.eqb Z.land].
  - simplify_eq. by rewrite !Z.eqb_refl.
  - destruct (Z.eqb_spec a0 (Z.land x0 m0)) as [->|]; [|done]. destruct (Z.eqb_spec a1 (Z.land x1 m1)) as [->|]; [|done].
    destruct (Z.eqb_spec a2 (Z.land x2 m2)) as [->|]; [|done]. by destruct (Z.eqb_spec a3 (Z.land x3 m3)) as [->|].
Qed.

(** the union member the entries of a list use *)
Definition named (c : ocontext) : Prop := ∃ n, oc_u c = UName n.
Definition is_port (c : ocontext) : Prop := ∃ pr low high, oc_u c = UPort pr low high.
Definition is_node (c : ocontext) : Prop := ∃ a m, oc_u c = UNode a m.
Definition is_node6 (c : ocontext) : Prop :=
  ∃ a m, oc_u c = UNode6 a m ∧ length a = 4%nat ∧ length m = 4%nat.

Lemma name_test c name h : named c → (n ← u_name c; mret (strcmp n name =? 0)) h = Some (name_is name c, h).
Proof.
  intros [n Hn]. unfold u_name, name_is. rewrite Hn.
  change (Some (strcmp n name =? 0, h) = Some (bool_decide (n = name), h)). do 2 f_equal.
  case_bool_decide as E; [by apply Z.eqb_eq, strcmp_zero|]. apply Z.eqb_neq. by rewrite strcmp_zero.
Qed.
Lemma name_test_swap c name h : named c → (n ← u_name c; mret (strcmp name n =? 0)) h = Some (name_is name c, h).
Proof.
  intros Hc. rewrite <- name_test by done. destruct Hc as [n Hn]. unfold u_name. rewrite Hn.
  change (Some (strcmp name n =? 0, h) = Some (strcmp n name =? 0, h)). do 2 f_equal.
  rewrite (strcmp_swap n name). destruct (Z.eqb_spec (strcmp n name) 0), (Z.eqb_spec (- strcmp n name) 0); lia || done.
Qed.
Lemma port_test c protocol port h : is_port c → port_matches protocol port c h = Some (port_in protocol port c, h).
Proof. intros (?&?&?&Hc). unfold port_matches, port_in. by rewrite Hc. Qed.
Lemma node_test c addr h : is_node c → node_matches addr c h = Some (node_in addr c, h).
Proof. intros (?&?&Hc). unfold node_matches, node_in. by rewrite Hc. Qed.
Lemma node6_test c addr h :
  length addr = 4%nat → is_node6 c → node6_matches addr c h = Some (node6_in addr c, h).
Proof. intros Ha (a&m&Hc&?&?). unfold node6_matches, node6_in. rewrite Hc. by apply match_ipv6_addrmask_wp. Qed.

Lemma path_test c path sclass h : named c → path_matches path sclass c h = Some (path_in path sclass c, h).
Proof. intros [n Hn]. unfold path_matches, path_in, u_name. by rewrite Hn. Qed.

(** ** Types of file systems *)

Lemma strcmp_lt_trans x y z : strcmp x y < 0 → strcmp y z < 0 → strcmp x z < 0.
Proof. rewrite (strcmp_swap y x), (strcmp_swap z y), (strcmp_swap z x). intros. pose proof (strcmp_trans z y x). lia. Qed.

Lemma find_none_all {A} (f : A → bool) (l : list A) : Forall (λ x, f x = false) l → List.find f l = None.
Proof. induction 1 as [|x l Hx _ IH]; [done|]. cbn. by rewrite Hx. Qed.

Lemma genfs_walk_find fs (l : list genfs) cmp0 :
  StronglySorted genfs_before l →
  let '(before, cur, cmp) := genfs_walk fs l cmp0 in
  match List.find (λ g, bool_decide (fstype g = fs)) l with
  | Some g => cmp = 0 ∧ ∃ next, cur = g :: next ∧ l = before ++ cur ∧ fstype g = fs ∧
      Forall (λ g', 0 < strcmp fs (fstype g')) before
  | None => cur = [] ∨ cmp ≠ 0
  end.
Proof.
  intros Hs. revert cmp0. induction Hs as [|g l Hs IH Hg]; intros cmp0; [by left|]. cbn [genfs_walk List.find].
  destruct (Z.leb_spec (strcmp fs (fstype g)) 0) as [Hle|Hgt].
  - case_bool_decide as E.
    { split; [by apply strcmp_zero|]. exists l. by split_and!. }
    assert (strcmp fs (fstype g) < 0) as Hlt.
    { destruct (decide (strcmp fs (fstype g) = 0)) as [?%strcmp_zero|]; [done|lia]. }
    rewrite find_none_all; [right; lia|]. eapply Forall_impl; [exact Hg|]. intros g' Hbefore. apply bool_decide_eq_false_2.
    intros <-. pose proof (strcmp_lt_trans _ _ _ Hlt Hbefore) as Hf. by rewrite (proj2 (strcmp_zero _ _) eq_refl) in Hf.
  - rewrite bool_decide_eq_false_2.
    2:{ intros <-. by rewrite (proj2 (strcmp_zero _ _) eq_refl) in Hgt. }
    specialize (IH (strcmp fs (fstype g))). destruct (genfs_walk fs l _) as [[before cur] cmp].
    destruct (List.find _ l) as [g1|]; [|done]. destruct IH as (->&next&->&->&Hn&Hb). split; [done|].
    exists next. split_and!; try done. by constructor.
Qed.
Lemma genfs_walk_at fs before g next cmp0 :
  Forall (λ g', 0 < strcmp fs (fstype g')) before → fstype g = fs →
  genfs_walk fs (before ++ g :: next) cmp0 = (before, g :: next, 0).
Proof.
  intros Hb Hg. revert cmp0. induction Hb as [|g' before Hg' _ IH]; intros cmp0; cbn [app genfs_walk].
  - by rewrite (proj2 (strcmp_zero fs (fstype g)) (eq_sym Hg)).
  - rewrite (proj2 (Z.leb_gt _ _)) by lia. by rewrite IH.
Qed.

(** the answer of [sepol_genfs_sid], which a second call repeats *)
Lemma sepol_genfs_sid_wp p s t fs path sclass h :
  sidtab_wf s t → StronglySorted genfs_before (p_genfs p) →
  Forall (λ g, Forall named (gf_head g) ∧ coherent t (gf_head g)) (p_genfs p) →
  wp (sepol_genfs_sid p s fs path sclass) (λ '(rc, p', s', sid) h',
    mem_step h h' (rc ≠ - ENOMEM ∨ next_sid s = UINT_MAX ∨ shutdown s ≠ 0) ∧
    match genfs_entry p fs path sclass with
    | None => rc = - ENOENT ∧ p' = p ∧ s' = s ∧ sid = Some SECINITSID_UNLABELED
    | Some c =>
        (∃ t' g' v, rc = 0 ∧ sid = Some v ∧ v ≠ 0 ∧ sidtab_wf s' t' ∧ sid_map t' !! v = Some (oc_context0 c) ∧
          p' = with_ocontexts p (ocontexts p) g' ∧ Forall (λ g, coherent t' (gf_head g)) g' ∧
          (∀ h, sepol_genfs_sid p' s' fs path sclass h = Some ((0, p', s', Some v), h)))
        ∨ rc = - ENOMEM ∧ sid = None
    end) h.
Proof.
  intros Hwf Hs Hall. unfold genfs_entry, genfs_of, sepol_genfs_sid at 1. pose proof (genfs_walk_find fs (p_genfs p) 0 Hs) as Hw.
  destruct (genfs_walk fs (p_genfs p) 0) as [[gbefore gcur] cmp].
  destruct (List.find _ (p_genfs p)) as [g|]; cbn [mbind option_bind]; cycle 1.
  { destruct gcur as [|g gnext]; [apply wp_ret; split; [apply mem_step_refl; by left|done]|]. destruct Hw as [Hw|Hw]; [done|].
    rewrite (proj2 (truth_true cmp)) by done. apply wp_ret. split; [apply mem_step_refl; by left|done]. }
  destruct Hw as (->&gnext&->&Hl&Hg&Hgb). cbn [truth Z.eqb negb]. rewrite Hl in Hall.
  apply Forall_app in Hall as [Hb [[Hnamed Hcoh] Hnext]%Forall_cons].
  assert (Forall (λ c, ∀ h, path_matches path sclass c h = Some (path_in path sclass c, h)) (gf_head g)) as Ht.
  { eapply Forall_impl; [exact Hnamed|]. intros c Hc h0. by apply path_test. }
  destruct (oc_walk_find _ _ _ Ht) as (before&cur&Hwalk&Hgl&Hob&Hfind&Hhd).
  rewrite Hfind. apply wp_bind. unfold wp at 1. rewrite Hwalk.
  destruct cur as [|c next]; cbn [head].
  { apply wp_ret. split; [apply mem_step_refl; by left|done]. }
  rewrite Hgl in Hcoh, Ht. assert (Hkept := Hcoh). apply Forall_app in Hkept as [_ Hkept]. apply Forall_inv in Hkept as [Hk0 Hk1].
  apply wp_bind. eapply wp_mono; [by apply fill_sid0_wp|]. intros [[rc s'] c'] h' [Hm Hr]. apply wp_ret.
  split. { intros Ho. destruct (Hm Ho) as [? [->|?]]; (split; [done|]); [by left|by right]. }
  destruct Hr as [(t'&v&->&->&Hv&Hwf'&Hlv&Hmono)| ->]; [left|by right].
  eexists t', _, v. split_and!; try done.
  { rewrite Forall_app, Forall_cons. cbn [gf_head]. split_and!.
    - eapply Forall_impl; [exact Hb|]. intros g0 [_ ?]. by eapply coherent_mono.
    - apply (coherent_fill t t' _ c); cbn; try done; [by intros _|by apply Hmono].
    - eapply Forall_impl; [exact Hnext|]. intros g0 [_ ?]. by eapply coherent_mono. }
  intros h0. unfold sepol_genfs_sid. cbn [with_ocontexts p_genfs ocontexts]. rewrite genfs_walk_at by done.
  change (truth 0) with false. cbn [gf_head]. unfold mbind, CM_bind. rewrite (oc_walk_at _ (path_in path sclass)); [|..|done|exact (Hhd c eq_refl)]; cycle 1.
  { rewrite Forall_app, Forall_singleton. by apply Forall_app in Ht as [? ?%Forall_inv]. }
  unfold fill_sid0. cbn [oc_sid0 with_sid0]. by rewrite (proj2 (truth_true v)) by done.
Qed.

(** the policy and the table of identifiers the queries start from *)
Record objects_wf p s t : Prop := {
  ow_sids : sidtab_wf s t;
  ow_lists : Forall (coherent t) (ocontexts p);
  ow_fs l : ocontexts p !! OCON_FS = Some l → Forall named l;
  ow_port l : ocontexts p !! OCON_PORT = Some l → Forall is_port l;
  ow_netif l : ocontexts p !! OCON_NETIF = Some l → Forall named l;
  ow_node l : ocontexts p !! OCON_NODE = Some l → Forall is_node l;
  ow_fsuse l : ocontexts p !! OCON_FSUSE = Some l → Forall named l;
  ow_node6 l : ocontexts p !! OCON_NODE6 = Some l → Forall is_node6 l;
  ow_genfs : StronglySorted genfs_before (p_genfs p) ∧
    Forall (λ g, Forall named (gf_head g) ∧ coherent t (gf_head g)) (p_genfs p)
}.

Lemma ow_coherent p s t k l : objects_wf p s t → ocontexts p !! k = Some l → coherent t l.
Proof. intros Hwf Hl. exact (Forall_lookup_1 _ _ _ _ (ow_lists _ _ _ Hwf) Hl). Qed.

(** ** Contexts of a user *)

(** the range given does not depend on the one the context had *)
Lemma mls_setup_user_range_fresh from u con con' m :
  m ≠ 0 → c_user con = c_user con' → c_role con = c_role con' → c_type con = c_type con' →
  let '(e, r) := mls_setup_user_range from u con m in let '(e', r') := mls_setup_user_range from u con' m in
  e = e' ∧ (e = 0 → r = r').
Proof.
  intros Hm H1 H2 H3. unfold mls_setup_user_range. rewrite (proj2 (truth_true _) Hm). cbn [negb].
  assert (Hw : ∀ x y, with_level (with_level con 0 x) 1 y = with_level (with_level con' 0 x) 1 y).
  { intros x y. unfold with_level, with_range. cbn. by rewrite H1, H2, H3. }
  repeat case_match; simplify_eq; split; done.
Qed.

Lemma mls_setup_user_range_user from u con m :
  c_user (mls_setup_user_range from u con m).2 = c_user con ∧ c_role (mls_setup_user_range from u con m).2 = c_role con.
Proof. unfold mls_setup_user_range. repeat case_match; done. Qed.

(** what holds of a query when it starts *)
Record user_query_wf p s t (te ct : list (list avtab_node)) (cd : class_datum)
    (val : context_struct → constraint_node → bool) fromcon usercon0 (user : user_datum) : Prop := {
  uq_sids : sidtab_wf s t;
  uq_open : shutdown s = 0;
  uq_room : next_sid s + length (filter (λ con, may_enter p te ct cd val fromcon con = true)
              (user_cons p fromcon usercon0 user)) ≤ UINT_MAX;
  uq_roles : ebitmap_wf (rs_roles (user_roles user));
  uq_types i : i ∈ ebitmap_bits (rs_roles (user_roles user)) →
    0 ≤ i ∧ ∃ role, at_val (role_val_to_struct p) (i + 1) = Some role ∧ ebitmap_wf (ts_types (role_types role));
  uq_decision con : con ∈ user_cons p fromcon usercon0 user →
    (∃ sattr tattr, decision_wf p te ct fromcon con SECCLASS_PROCESS cd sattr tattr) ∧
    ∀ cn, cn ∈ class_constraints cd → ∃ d, denotes p fromcon con None (cn_expr cn) (val con cn) d ∧ (d ≤ 5)%nat
}.

Section user_sids.
Context (p : policydb) (s : sidtab) (t : list (list sid_node)) (te ct : list (list avtab_node)) (cd : class_datum).
Context (val : context_struct → constraint_node → bool) (fromcon usercon0 : context_struct) (user : user_datum).
Context (Hwf : user_query_wf p s t te ct cd val fromcon usercon0 user).
Let enters con : Prop := may_enter p te ct cd val fromcon con = true.

(** the identifiers of the contexts seen so far that can be entered *)
Record user_inv (cons : list context_struct) (us : user_state) (h : heap) : Prop := {
  ui_mem : mem_ok h;
  ui_rc : us_rc us = 0;
  ui_user : c_user (us_con us) = user_value user;
  ui_range : mls p = 0 → c_range (us_con us) = c_range usercon0;
  ui_sids : ∃ t', sidtab_wf (us_sids us) t' ∧ shutdown (us_sids us) = 0 ∧ (∀ sid x, kept t sid x → kept t' sid x) ∧
    next_sid (us_sids us) ≤ next_sid s + length (filter enters cons) ∧
    Forall2 (λ sid con, sid ≠ 0 ∧ sid_map t' !! sid = Some con) (us_mysids us) (filter enters cons)
}.

Lemma add_sid_wp mysids maxnel sid h :
  mem_ok h → wp (add_sid mysids maxnel sid) (λ r h', mem_ok h' ∧ ∃ m, r = Some (mysids ++ [sid], m)) h.
Proof.
  intros Ho. unfold add_sid. case_match; [apply wp_ret; eauto|].
  apply wp_bind, wp_malloc_ok; [done|]. intros a h' Ho'. apply wp_ret. eauto.
Qed.

Lemma transition_bit a : truth (Z.land a PROCESS__TRANSITION) = Z.testbit a 1.
Proof. change PROCESS__TRANSITION with (Z.shiftl 1 1). by apply truth_land_bit. Qed.

(** with the context of the state replaced *)
Lemma user_inv_con cons us con h :
  user_inv cons us h → c_user con = user_value user → (mls p = 0 → c_range con = c_range usercon0) →
  user_inv cons (us_with_con us con) h.
Proof. intros [] ??. by split. Qed.

(** the candidate of a role and a type: the decision and the identifier *)
Lemma user_enter_step rest cons us con h :
  user_cons p fromcon usercon0 user = cons ++ con :: rest → user_inv cons us h →
  c_user con = user_value user → (mls p = 0 → c_range con = c_range usercon0) →
  wp ('(rc, avd, reason, sec, _) ← context_struct_compute_av p (us_sec us) fromcon con SECCLASS_PROCESS
         PROCESS__TRANSITION (us_avd us) (us_reason us) None 0;
      if truth rc || negb (truth (Z.land (av_allowed avd) PROCESS__TRANSITION)) then
        mret (inr (UserState (us_sids us) sec con (us_mysids us) (us_max us) avd reason rc)) else
      '(rc, sids, sid) ← sepol_sidtab_context_to_sid (us_sids us) con;
      if truth rc then mret (inl (rc, sids, sec)) else
      r ← add_sid (us_mysids us) (us_max us) sid;
      mret (match r with
            | None => inl (- ENOMEM, sids, sec)
            | Some (mysids, maxnel) => inr (UserState sids sec con mysids maxnel avd reason rc)
            end)) (λ r h', match r with
    | inl _ => False
    | inr us' => user_inv (cons ++ [con]) us' h' ∧ us_con us' = con
    end) h.
Proof.
  intros Hcons [Ho Hrc Hu Hr (t'&Hwf'&Hsh&Hmono&Hnext&Hsids)] Hcu Hcr.
  destruct (uq_decision _ _ _ _ _ _ _ _ _ _ Hwf con) as [(sattr&tattr&Hdec) Hden].
  { rewrite Hcons. apply elem_of_app. right. by left. }
  apply wp_bind. eapply wp_mono.
  { apply (compute_av_allowed p te ct) with (val := val con); [done|exact Hdec|done|exact Hden|done]. }
  intros [[[[rc avd] reason] sec] rb] h1 (Ho1&->&Hall). specialize (Hall 1 ltac:(done)). change (truth 0) with false. cbn [orb].
  assert (may_enter p te ct cd val fromcon con = Z.testbit (av_allowed avd) 1) as Hme.
  { destruct Hdec as [_ _ _ _ _ _ [Hsa _] [Hta _]]. unfold may_enter. by rewrite Hsa, Hta, Hall. }
  rewrite transition_bit, <- Hme. destruct (may_enter p te ct cd val fromcon con) eqn:Em; cbn [negb]; cycle 1.
  { apply wp_ret. split; [|done]. split; cbn; try done. exists t'. rewrite filter_app, filter_cons_False, app_nil_r; [done|].
    unfold enters. by rewrite Em. }
  assert (filter enters (cons ++ [con]) = filter enters cons ++ [con]) as Hf.
  { by rewrite filter_app, filter_cons_True. }
  apply wp_bind. eapply wp_mono; [by apply context_to_sid_keeps|]. intros [[rc s'] sid] h2 [Hm Hcase].
  destruct (Hm Ho1) as [Ho2 Hok]. destruct Hcase as [(->&Hsid&Hsh'&Hn&t2&Hwf2&Hl2&Hmono2)|[-> ->]]; cycle 1.
  { exfalso. pose proof (uq_room _ _ _ _ _ _ _ _ _ _ Hwf) as Hroom. fold enters in Hroom.
    rewrite Hcons, cons_middle, app_assoc, filter_app, length_app, Hf, length_app in Hroom. cbn [length] in Hroom.
    destruct Hok as [?|[?|?]]; [done|lia|done]. }
  change (truth 0) with false. cbn match. apply wp_bind. eapply wp_mono; [by apply add_sid_wp|].
  intros r h3 (Ho3&m&->). apply wp_ret. split; [|done]. split; cbn; try done.
  exists t2. rewrite Hf, length_app. cbn [length]. split_and!; [done|by rewrite Hsh'|eauto|lia|].
  apply Forall2_app; [|by constructor]. eapply Forall2_impl; [exact Hsids|]. intros v x [??]. split; [done|].
  apply (Hmono2 v x); [by intros _|done].
Qed.

Lemma user_type_step_wp rest i j cons us h :
  user_cons p fromcon usercon0 user = cons ++ option_list (user_con p fromcon usercon0 user i j) ++ rest →
  user_inv cons us h → c_role (us_con us) = u32 (i + 1) →
  wp (user_type_step p fromcon user j us) (λ r h', match r with
    | inl _ => False
    | inr us' => user_inv (cons ++ option_list (user_con p fromcon usercon0 user i j)) us' h' ∧
                 c_role (us_con us') = u32 (i + 1)
    end) h.
Proof.
  intros Hcons Hinv Hrole. pose proof Hinv as [_ _ Hu Hr _]. unfold user_type_step.
  set (con := Context _ _ _ _). unfold user_con in *. set (con0 := Context (user_value user) _ _ _) in *.
  change (c_type con) with (c_type con0). destruct (Z.eqb_spec (c_type con0) (c_type fromcon)).
  { apply wp_ret. cbn [option_list option_rect]. rewrite app_nil_r. split; [by apply user_inv_con|done]. }
  assert (let '(e, r) := mls_setup_user_range fromcon user con (mls p) in
          let '(e', r') := mls_setup_user_range fromcon user con0 (mls p) in
          e = e' ∧ (e = 0 → r = r') ∧ c_user r = user_value user ∧ (mls p = 0 → c_range r = c_range usercon0) ∧
          c_role r = u32 (i + 1)) as Hset.
  { destruct (decide (mls p = 0)) as [Hmls|Hmls].
    - unfold mls_setup_user_range. rewrite Hmls. cbn. unfold con, con0. by rewrite Hu, Hrole, Hr.
    - pose proof (mls_setup_user_range_fresh fromcon user con con0 (mls p) Hmls Hu Hrole eq_refl) as Hf.
      pose proof (mls_setup_user_range_user fromcon user con (mls p)) as [Hcu Hcr].
      destruct (mls_setup_user_range fromcon user con (mls p)) as [e r], (mls_setup_user_range _ _ con0 _) as [e' r'].
      destruct Hf as [-> Hf]. cbn in Hcu, Hcr. rewrite Hcu, Hcr. by split_and!. }
  destruct (mls_setup_user_range fromcon user con (mls p)) as [e r], (mls_setup_user_range _ _ con0 _) as [e' r'].
  destruct Hset as (->&Heq&Hcu&Hcr&Hro). destruct (truth e') eqn:Ee.
  { apply wp_ret. cbn [option_list option_rect]. rewrite app_nil_r. split; [by apply user_inv_con|done]. }
  apply truth_false in Ee. specialize (Heq Ee) as ->. cbn [option_list option_rect app] in *.
  eapply wp_mono; [by apply (user_enter_step rest cons us r')|]. intros [?|us'] h'; [done|]. intros [? ->]. by split.
Qed.

(** the loops over types and roles; both skip clear bits *)
Lemma user_role_step_wp rest i cons us h :
  i ∈ ebitmap_bits (rs_roles (user_roles user)) →
  user_cons p fromcon usercon0 user = cons ++ role_cons p fromcon usercon0 user i ++ rest →
  user_inv cons us h →
  wp (user_role_step p fromcon user i us) (λ r h', match r with
    | inl _ => False
    | inr us' => user_inv (cons ++ role_cons p fromcon usercon0 user i) us' h'
    end) h.
Proof.
  intros Hi Hcons Hinv. destruct (uq_types _ _ _ _ _ _ _ _ _ _ Hwf i Hi) as (_&role&Hrole&Htypes).
  unfold user_role_step. eapply wp_bind, wp_deref; [by apply at_val_index|]. eapply wp_bind, wp_deref; [done|].
  unfold role_cons in *. rewrite Hrole in *. set (f := user_con p fromcon usercon0 user i) in *.
  apply wp_bind, (wp_ebitmap_for_each_member
    (λ js us h, user_inv (cons ++ omap f js) us h ∧ c_role (us_con us) = u32 (i + 1))); [done|done| | |].
  - pose proof Hinv as [_ _ ?? _]. cbn [omap list_omap]. rewrite app_nil_r. split; [by apply user_inv_con|done].
  - intros j l1 l2 us1 h1 Hj [Hinv1 Hr1]. rewrite Hj, omap_app in Hcons.
    assert (∀ l : list Z, omap f (j :: l) = option_list (f j) ++ omap f l) as Hstep by (intros l; cbn; by destruct (f j)).
    eapply wp_mono; [apply (user_type_step_wp (omap f l2 ++ rest) i); [|done..]|].
    { by rewrite Hcons, Hstep, <- !app_assoc. }
    intros [?|us2] h2; [done|]. intros [Hinv2 ?]. split; [|done]. by rewrite omap_app, Hstep, app_assoc, app_nil_r.
  - intros us1 h1 [Hinv1 _]. by apply wp_ret.
Qed.

Lemma sepol_user_loop_wp sec avd0 reason0 h :
  mem_ok h →
  wp (ebitmap_for_each_bit (rs_roles (user_roles user)) (λ bit i us,
        if bit then user_role_step p fromcon user i us else mret (inr us))
        (UserState s sec (Context (user_value user) (c_role usercon0) (c_type usercon0) (c_range usercon0))
          [] SIDS_NEL avd0 reason0 0))
    (λ r h', match r with
             | inl _ => False
             | inr (us, _) => user_inv (user_cons p fromcon usercon0 user) us h'
             end) h.
Proof.
  intros Ho. set (g := role_cons p fromcon usercon0 user).
  apply (wp_ebitmap_for_each_member (λ ks us h, user_inv (ks ≫= g) us h)); [by eapply uq_roles|done| | |].
  - split; cbn; try done. exists t. split_and!; [by eapply uq_sids|by eapply uq_open|done|lia|done].
  - intros i l1 l2 us h1 Hi Hinv. eapply wp_mono; [apply (user_role_step_wp (l2 ≫= g)); [| |done]|].
    + rewrite Hi. apply elem_of_app. right. by left.
    + unfold user_cons. fold g. by rewrite Hi, bind_app.
    + intros [?|us'] h'; [done|]. intros Hinv'. rewrite bind_app. cbn. by rewrite app_nil_r.
  - done.
Qed.
End user_sids.
End theory.

(** ** Properties *)

Section properties.
Context `{Target}.
Implicit Types (p : policydb) (s : sidtab) (t : list (list sid_node)) (l : list ocontext) (h : heap).

(** C12: the identifier of a port, a node or an interface, and those of a file
    system, are the ones of the contexts of the first entry of the policy that
    matches (protocol and range of ports, address under the mask, name), or
    fixed ones when none does; the policy keeps the identifier in the entry, so
    that asking again gives the same answer and changes nothing.  They fail
    only when memory or identifiers run out; an address of the wrong length is
    refused. *)
Theorem object_sids_correct p s t h :
  objects_wf p s t →
  (∀ l protocol port, ocontexts p !! OCON_PORT = Some l →
    answers (λ p s, sepol_port_sid p s protocol port) OCON_PORT (port_in protocol port) SECINITSID_PORT p s t l h) ∧
  (∀ l addr, ocontexts p !! OCON_NODE = Some l →
    answers (λ p s, sepol_node_sid p s AF_INET [addr] 4) OCON_NODE (node_in addr) SECINITSID_NODE p s t l h) ∧
  (∀ l addr, ocontexts p !! OCON_NODE6 = Some l → length addr = 4%nat →
    answers (λ p s, sepol_node_sid p s AF_INET6 addr 16) OCON_NODE6 (node6_in addr) SECINITSID_NODE p s t l h) ∧
  (∀ l name, ocontexts p !! OCON_NETIF = Some l →
    answers2 (λ p s, sepol_netif_sid p s name) OCON_NETIF (name_is name) (SECINITSID_NETIF, SECINITSID_NETMSG) p s t l h) ∧
  (∀ l name, ocontexts p !! OCON_FS = Some l →
    answers2 (λ p s, sepol_fs_sid p s name) OCON_FS (name_is name) (SECINITSID_FS, SECINITSID_FILE) p s t l h) ∧
  (∀ domain addr len, domain = AF_INET ∧ len ≠ 4 ∨ domain = AF_INET6 ∧ len ≠ 16 →
    sepol_node_sid p s domain addr len h = Some ((- EINVAL, p, s, None), h)).
Proof.
  intros Hwf. pose proof (ow_sids _ _ _ Hwf) as Hs. split_and!.
  - intros l protocol port Hl. apply oc_query_answers; try done; [by eapply ow_coherent|].
    eapply Forall_impl; [by eapply ow_port|]. intros c Hc h'. by apply port_test.
  - intros l addr Hl. apply (oc_query_answers OCON_NODE (node_matches addr)); try done; [by eapply ow_coherent|].
    eapply Forall_impl; [by eapply ow_node|]. intros c Hc h'. by apply node_test.
  - intros l addr Hl Ha. apply (oc_query_answers OCON_NODE6 (node6_matches addr)); try done; [by eapply ow_coherent|].
    eapply Forall_impl; [by eapply ow_node6|]. intros c Hc h'. by apply node6_test.
  - intros l name Hl. apply oc_query2_answers; try done; [by eapply ow_coherent|].
    eapply Forall_impl; [by eapply ow_netif|]. intros c Hc h'. by apply name_test_swap.
  - intros l name Hl. apply oc_query2_answers; try done; [by eapply ow_coherent|].
    eapply Forall_impl; [by eapply ow_fs|]. intros c Hc h'. by apply name_test.
  - intros domain addr len [[-> Hlen]|[-> Hlen]]; unfold sepol_node_sid; cbn [Z.eqb Pos.eqb AF_INET AF_INET6];
      by rewrite (proj2 (Z.eqb_neq _ _)) by done.
Qed.

(** [sepol_fs_use] gives the behaviour and the identifier of the first
    entry for the type of file system; without one, the identifier of the root
    directory by the entries for paths, or failing that the unlabeled one.  In
    the second case, when memory runs out, it answers success without an
    identifier. *)
Theorem sepol_fs_use_correct p s t l fs h :
  objects_wf p s t → ocontexts p !! OCON_FSUSE = Some l →
  wp (sepol_fs_use p s fs) (λ '(rc, p', s', behavior, sid) h',
    (mem_ok h → next_sid s ≠ UINT_MAX → shutdown s = 0 → rc = 0 ∧ sid ≠ None) ∧
    match List.find (name_is fs) l, genfs_entry p fs "/" SECCLASS_DIR with
    | Some c, _ =>
        behavior = Some (oc_v c) ∧
        ((∃ t' v, rc = 0 ∧ sid = Some v ∧ v ≠ 0 ∧ sidtab_wf s' t' ∧ sid_map t' !! v = Some (oc_context0 c))
         ∨ rc = - ENOMEM ∧ sid = None)
    | None, Some c =>
        rc = 0 ∧
        ((∃ t' v, behavior = Some SECURITY_FS_USE_GENFS ∧ sid = Some v ∧ v ≠ 0 ∧ sidtab_wf s' t' ∧
            sid_map t' !! v = Some (oc_context0 c))
         ∨ behavior = Some SECURITY_FS_USE_NONE ∧ sid = None)
    | None, None =>
        rc = 0 ∧ p' = p ∧ s' = s ∧ behavior = Some SECURITY_FS_USE_NONE ∧ sid = Some SECINITSID_UNLABELED
    end) h.
Proof.
  intros Hwf Hl. pose proof (ow_sids _ _ _ Hwf) as Hs. pose proof (ow_coherent _ _ _ _ _ Hwf Hl) as Hcoh.
  assert (Forall (λ c, ∀ h, (n ← u_name c; mret (strcmp fs n =? 0)) h = Some (name_is fs c, h)) l) as Ht.
  { eapply Forall_impl; [by eapply ow_fsuse|]. intros c Hc h'. by apply name_test_swap. }
  destruct (oc_walk_find _ _ _ Ht) as (before&cur&Hwalk&->&Hb&Hfind&Hhd). unfold sepol_fs_use, oc_list.
  eapply wp_bind, wp_deref; [done|]. apply wp_bind. unfold wp at 1. rewrite Hwalk, Hfind.
  destruct cur as [|c next]; cbn [head].
  - destruct (ow_genfs _ _ _ Hwf) as [Hsort Hg]. apply wp_bind.
    eapply wp_mono; [by apply (sepol_genfs_sid_wp p s t)|]. intros [[[rc p'] s'] sid] h' [Hm Hr]. apply wp_ret.
    destruct (genfs_entry p fs "/" SECCLASS_DIR) as [c|].
    + destruct Hr as [(t'&g'&v&->&->&Hv&Hwf'&Hlv&_)|[-> ->]].
      * split; [done|]. split; [done|left]. by exists t', v.
      * split; [|split; [done|by right]]. intros Ho ??. by destruct (Hm Ho) as [_ [?|[?|?]]].
    + destruct Hr as (->&->&->&->). done.
  - apply Forall_app in Hcoh as [_ [Hk0 _]%Forall_inv]. apply wp_bind.
    eapply wp_mono; [by apply fill_sid0_wp|]. intros [[rc s'] c'] h' [Hm Hr]. apply wp_ret.
    destruct Hr as [(t'&v&->&->&Hv&Hwf'&Hlv&_)| ->].
    + split; [done|]. split; [done|left]. by exists t', v.
    + split; [|split; [done|by right]]. intros Ho ??. by destruct (Hm Ho) as [_ [?|[?|?]]].
Qed.

(** C11: with memory and room for the identifiers, [sepol_get_user_sids] succeeds,
    and the array it returns lists, by role and type, the identifiers of exactly
    the contexts the user can have (a role of the user, a type of the role other
    than that of [fromsid], a range the user is cleared for) to which the rules,
    the constraints and the role rules allow a transition.  What the table of
    identifiers had stays. *)
Theorem sepol_get_user_sids_correct p s t te ct cd val fromsid fromcon username user usercon0 sec avd0 reason0 h :
  mem_ok h → match sid_map t !! fromsid with Some c => Some c | None => sid_map t !! SECINITSID_UNLABELED end = Some fromcon →
  table_ok (table (p_users p)) → table_map (table (p_users p)) !! username = Some user →
  user_query_wf p s t te ct cd val fromcon usercon0 user →
  wp (sepol_get_user_sids p s sec fromsid username usercon0 avd0 reason0) (λ '(rc, s', _, sids) h',
    rc = 0 ∧ ∃ mysids t', sids = Some mysids ∧ sidtab_wf s' t' ∧ (∀ sid x, kept t sid x → kept t' sid x) ∧
      Forall2 (λ sid con, sid ≠ 0 ∧ sid_map t' !! sid = Some con) mysids
        (filter (λ con, may_enter p te ct cd val fromcon con = true) (user_cons p fromcon usercon0 user))) h.
Proof.
  intros Ho Hfrom Hok Huser Hwf. unfold sepol_get_user_sids. apply wp_bind.
  eapply wp_mono; [eapply sepol_sidtab_search_wp, uq_sids, Hwf|]. intros r h0 [-> ->]. rewrite Hfrom.
  apply wp_bind. eapply wp_mono; [by apply table_search_wp|]. intros r h0 [-> ->]. rewrite Huser.
  apply wp_bind, wp_malloc_ok; [done|]. intros a h1 Ho1. rewrite bool_decide_eq_false_2 by done.
  apply wp_bind. eapply wp_mono; [by apply (sepol_user_loop_wp p s t te ct cd val)|].
  intros [x|[us bit]] h2; [done|]. intros [_ -> _ _ (t'&?&_&?&_&?)]. apply wp_ret. split; [done|].
  by exists (us_mysids us), t'.
Qed.
End properties.

(** ** An example *)

Module ExampleUser.
(** allow user_t file_t : process { transition } *)
Definition rule : avtab_node := AvNode 10 (AvKey 1 2 SECCLASS_PROCESS AVTAB_ALLOWED) (AvDatum PROCESS__TRANSITION) 0 0.
Definition slots : list (list avtab_node) := [[rule]; []].
Definition rules : avtab := Avtab (Some slots) 1 2 1.
Definition perms : hashtab string Z := Hashtab [[("transition"%string, 2)]] 1 1.
Definition process : class_datum := ClassDatum 2 None None (Symtab (Some perms) 1) [] [] 0 0 0 0.
Definition role : role_datum :=
  RoleDatum 2 (Ebitmap [] 0) (TypeSet (Ebitmap [Node 0 3] 64) (Ebitmap [] 0) 0) (Ebitmap [] 0) 0 0 (Ebitmap [] 0).
Definition user : user_datum :=
  UserDatum 1 (RoleSet (Ebitmap [Node 0 2] 64) 0) (SemRange (SemLevel 1 []) (SemLevel 2 [SemCat 1 3])) (SemLevel 1 [])
    (Ebitmap [] 0) (MlsRange ExampleMls.s0 ExampleMls.s1) ExampleMls.s0 0.
Definition users : hashtab string user_datum := Hashtab [[("user_u"%string, user)]] 1 1.
Definition ports : list ocontext :=
  [OContext (UPort 6 80 88) 0 ExampleSec.file_con context_init 0 0;
   OContext (UPort 6 1 1023) 0 ExampleSec.user_con context_init 1 0].
Definition fs_entry (name : string) : ocontext := OContext (UName name) 2 ExampleSec.file_con ExampleSec.user_con 0 0.
Definition nodes : list ocontext := [OContext (UNode 10 255) 0 ExampleSec.file_con context_init 0 0].
Definition nodes6 : list ocontext :=
  [OContext (UNode6 [1; 0; 0; 0] [255; 0; 0; 0]) 0 ExampleSec.file_con context_init 0 0].
Definition proc_entries : list genfs := [Genfs "proc" [OContext (UName "/") 0 ExampleSec.file_con context_init 2 0]].
Definition policy : policydb :=
  Policydb 0 30 1 (Symtab None 2) (Symtab None 2) (Symtab None 5) (Symtab (Some users) 1) empty_symtab
    (Symtab (Some ExampleMls.levels) 2) (Symtab (Some ExampleMls.cats) 3)
    [Some "s0"%string; Some "s1"%string] [Some "c0"%string; Some "c1"%string; Some "c2"%string]
    [Some "file"%string; Some "process"%string] [Some "object_r"%string; Some "user_r"%string]
    [Some "user_t"%string; Some "file_t"%string] [Some "user_u"%string] [None; Some process]
    [Some (ExampleSec.role 1); Some role] [Some user] [] rules Example.table [] [] [] [] [] []
    [ExampleSec.attr 1; ExampleSec.attr 2] (Ebitmap [] 0) [ExampleSec.attr 1; ExampleSec.attr 2]
    [[]; [fs_entry "ext3"]; ports; [fs_entry "eth0"]; nodes; [fs_entry "xfs"]; nodes6] proc_entries.
Definition entered : context_struct := Context 1 2 2 (MlsRange ExampleMls.s0 ExampleMls.s1).

Lemma rules_wf : avtab_wf rules slots.
Proof.
  split; [done|done| | |done].
  - intros [|[|i]] c Hc; simplify_eq/=; repeat constructor.
  - intros [|[|i]] c nd Hc Hin; simplify_eq/=; [|by apply elem_of_nil in Hin].
    by apply list_elem_of_singleton in Hin as ->.
Qed.
Lemma user_table_ok `{Target} : hashtab_ok users.
Proof.
  split; cbn [Hashtab.size htable users]; [lia|done| |].
  - intros [|i] c Hc; simplify_eq/=. repeat constructor.
  - intros [|i] c kd Hc Hin; simplify_eq/=. unfold symhash. by rewrite Z.land_0_r.
Qed.
Lemma cons_eq : user_cons policy ExampleSec.user_con context_init user = [entered].
Proof. reflexivity. Qed.
Lemma user_decision : decision_wf policy slots Example.slots ExampleSec.user_con entered SECCLASS_PROCESS process
  (ExampleSec.attr 1) (ExampleSec.attr 2).
Proof.
  split; [|done| |done|apply rules_wf|apply Example.table_wf| |]; [| |split; [done|by apply ExampleSec.attr_wf]..].
  - split; [split; [apply ExampleMls.s0_wf|apply ExampleMls.s1_wf]..|].
    intros r v Hr. unfold at_index in Hr. destruct (v <? 1); [done|].
    destruct (Z.to_nat (v - 1)) as [|[|]]; [injection Hr as <-|injection Hr as <-|done]; [by apply (ExampleSec.attr_wf 1)|apply ebitmap_init_wf].
  - split; [by eexists|]. exists process. split_and!; [done|done|]. intros name v Hin.
    unfold perm_entries in Hin. cbn in Hin. by apply list_elem_of_singleton in Hin as [= -> _].
Qed.
Lemma query : user_query_wf policy ExampleSec.sids ExampleSec.slots slots Example.slots process (λ _ _, true)
  ExampleSec.user_con context_init user.
Proof.
  split; [apply ExampleSec.sids_wf|done| | | |].
  - by vm_compute.
  - by apply (ExampleSec.attr_wf 2).
  - intros i Hi. change (ebitmap_bits _) with [1] in Hi. apply list_elem_of_singleton in Hi as ->. split; [done|].
    exists role. split; [done|by apply (ExampleSec.attr_wf 3)].
  - intros con Hcon. rewrite cons_eq in Hcon. apply list_elem_of_singleton in Hcon as ->.
    split; [do 2 eexists; apply user_decision|]. intros c Hc. by apply elem_of_nil in Hc.
Qed.
Lemma objects : objects_wf policy ExampleSec.sids ExampleSec.slots.
Proof.
  split; [apply ExampleSec.sids_wf|..]; try (intros l [= <-]; repeat constructor; by repeat eexists).
  - cbn [policy ocontexts]. unfold coherent, kept. repeat constructor; cbn; done.
  - cbn [policy p_genfs]. unfold coherent, kept. repeat constructor; cbn; [by eexists|done..].
Qed.
End ExampleUser.

(** witness of C11 *)
Lemma sepol_get_user_sids_correct_witness :
  wp (@sepol_get_user_sids target_arm ExampleUser.policy ExampleSec.sids (SecState "" 0 []) 1 "user_u" context_init
        (AvDecision 0 0 0 0 0) 0) (λ '(rc, s', _, sids) h',
    rc = 0 ∧ ∃ mysids t', sids = Some mysids ∧ sidtab_wf s' t' ∧ (∀ sid x, kept ExampleSec.slots sid x → kept t' sid x) ∧
      Forall2 (λ sid con, sid ≠ 0 ∧ sid_map t' !! sid = Some con) mysids [ExampleUser.entered]) fresh_heap.
Proof.
  apply (@sepol_get_user_sids_correct target_arm ExampleUser.policy ExampleSec.sids ExampleSec.slots
    ExampleUser.slots Example.slots ExampleUser.process (λ _ _, true) 1 ExampleSec.user_con "user_u" ExampleUser.user);
    [constructor|by vm_compute|apply ExampleUser.user_table_ok|by vm_compute|apply ExampleUser.query].
Defined.

(** witness of C12: port 80 has no identifier yet; it gets that of its context *)
Lemma object_sids_correct_witness :
  let T := target_arm in let p := ExampleUser.policy in let s := ExampleSec.sids in let t := ExampleSec.slots in
  (∃ p' s', sepol_port_sid p s 6 80 fresh_heap = Some ((0, p', s', Some 2), fresh_heap)) ∧
  answers (λ p s, sepol_port_sid p s 6 80) OCON_PORT (port_in 6 80) SECINITSID_PORT p s t ExampleUser.ports fresh_heap ∧
  answers2 (λ p s, sepol_netif_sid p s "eth0") OCON_NETIF (name_is "eth0") (SECINITSID_NETIF, SECINITSID_NETMSG)
    p s t [ExampleUser.fs_entry "eth0"] fresh_heap.
Proof.
  intros T p s t. split; [do 2 eexists; vm_compute; reflexivity|].
  destruct (object_sids_correct p s t fresh_heap ExampleUser.objects) as (Hport&_&_&Hnetif&_).
  split; [by apply Hport|by apply Hnetif].
Defined.

(** witness of [sepol_fs_use_correct]: proc has no behaviour of its own *)
Lemma sepol_fs_use_correct_witness :
  wp (sepol_fs_use ExampleUser.policy ExampleSec.sids "proc") (λ '(rc, p', s', behavior, sid) h',
    (mem_ok fresh_heap → next_sid ExampleSec.sids ≠ UINT_MAX → shutdown ExampleSec.sids = 0 → rc = 0 ∧ sid ≠ None) ∧
    rc = 0 ∧
    ((∃ t' v, behavior = Some SECURITY_FS_USE_GENFS ∧ sid = Some v ∧ v ≠ 0 ∧ sidtab_wf s' t' ∧
        sid_map t' !! v = Some ExampleSec.file_con)
     ∨ behavior = Some SECURITY_FS_USE_NONE ∧ sid = None)) fresh_heap.
Proof.
  apply (sepol_fs_use_correct ExampleUser.policy ExampleSec.sids ExampleSec.slots
    [ExampleUser.fs_entry "xfs"] "proc" fresh_heap); [apply ExampleUser.objects|done].
Defined.
