(* ===== verification/ExpandAvtab.v ===== *)
(** * Expansion of rules ([expand.c], last part)

    A rule may name attributes, which stand for the types they have.
    [expand_avtab] makes a table of the rules of single types: a rule is added
    for every pair of types, and the rules for the same key become one.  The
    same is done for the list of the rules of a conditional, which points to the
    nodes of the new table. *)

From S2P Require Import Prelude Hashtab Symtab Ebitmap Policydb Avtab AvtabIO CondList Mls Constraint Services.

(** ** Operations *)

Definition with_datum (nd : avtab_node) (d : avtab_datum) : avtab_node :=
  AvNode (av_addr nd) (key nd) d (parse_context nd) (merged nd).
Definition with_parse_context (nd : avtab_node) (c : Z) : avtab_node :=
  AvNode (av_addr nd) (key nd) (datum nd) c (merged nd).
(** [specified & AVTAB_ENABLED] of two keys differ *)
Definition enabled_differs (k c : avtab_key) : bool :=
  negb (Z.land (specified k) AVTAB_ENABLED =? Z.land (specified c) AVTAB_ENABLED).
(** the [switch] on the kind: what becomes of the datum, [None] for a conflict *)
Definition merge_data (k : avtab_key) (old new : Z) : option Z :=
  let kind := Z.land (specified k) (Z.lnot AVTAB_ENABLED) in
  if (kind =? AVTAB_ALLOWED) || (kind =? AVTAB_AUDITALLOW) then Some (Z.lor old new)
  else if kind =? AVTAB_AUDITDENY then Some (Z.land old new)
  else None.
Definition merge_datum (a : avtab) (nd : avtab_node) (k : avtab_key) (d : avtab_datum) : Z * avtab :=
  match merge_data k (data (datum nd)) (data d) with
  | Some x => (0, av_update a (av_addr nd) (λ nd, with_datum nd (AvDatum x)))
  | None => (-1, a)
  end.

Definition expand_avtab_insert (k : avtab_key) (d : avtab_datum) (a : avtab) : CM (Z * avtab) :=
  node ← avtab_search_node a k;
  match node with
  | [] => avtab_insert a k d
  | nd :: _ =>
      if enabled_differs k (key nd) then
        '(node, a) ← avtab_insert_nonunique a k d;
        mret (match node with None => -1 | Some _ => 0 end, a)
      else mret (merge_datum a nd k d)
  end.
(** [if (!node || (k->specified & AVTAB_ENABLED) != ...)]: the node to merge
    with *)
Definition mergeable (k : avtab_key) (node : list avtab_node) : option avtab_node :=
  match node with
  | [] => None
  | nd :: _ => if enabled_differs k (key nd) then None else Some nd
  end.
(** the list and the table *)
Definition expand_cond_insert (k : avtab_key) (d : avtab_datum) '((l, expa) : list Z * avtab)
    : CM (Z * (list Z * avtab)) :=
  node ← avtab_search_node expa k;
  match mergeable k node with
  | None =>
      '(node, expa) ← avtab_insert_nonunique expa k d;
      match node with
      | None => mret (-1, (l, expa))
      | Some a =>
          let expa := av_update expa a (λ nd, with_parse_context nd 1) in
          nl ← malloc;
          mret (match nl with None => (-1, (l, expa)) | Some _ => (0, (a :: l, expa)) end)
      end
  | Some nd => let '(rc, expa) := merge_datum expa nd k d in mret (rc, (l, expa))
  end.

Section operations.
Context `{Target}.

(** a loop over the types of an attribute; an error becomes -1 *)
Definition over_types {A} (e : ebitmap) (f : Z → A → CM (Z * A)) (args : A) : CM (Z * A) :=
  r ← ebitmap_for_each_bit e (λ bit i args,
        if bit then '(rc, args) ← f i args; mret (if truth rc then inl (-1, args) else inr args)
        else mret (inr args)) args;
  mret (match r with inl x => x | inr (args, _) => (0, args) end).

(** [expand_avtab_node] and [expand_cond_av_node] differ in what they insert *)
Definition expand_node {A} (p : policydb) (ins : avtab_key → avtab_datum → A → CM (Z * A))
    (k : avtab_key) (d : avtab_datum) (args : A) : CM (Z * A) :=
  stype ← deref (at_val (type_val_to_struct p) (source_type k));
  ttype ← deref (at_val (type_val_to_struct p) (target_type k));
  let newkey s t := AvKey s t (target_class k) (specified k) in
  match type_flavor stype =? TYPE_ATTRIB, type_flavor ttype =? TYPE_ATTRIB with
  | false, false => ins k d args
  | false, true =>
      tattr ← deref (at_index (attr_type_map p) (target_type k));
      over_types tattr (λ j, ins (newkey (source_type k) (u16 (j + 1))) d) args
  | true, false =>
      sattr ← deref (at_index (attr_type_map p) (source_type k));
      over_types sattr (λ i, ins (newkey (u16 (i + 1)) (target_type k)) d) args
  | true, true =>
      sattr ← deref (at_index (attr_type_map p) (source_type k));
      tattr ← deref (at_index (attr_type_map p) (target_type k));
      over_types sattr (λ i, over_types tattr (λ j, ins (newkey (u16 (i + 1)) (u16 (j + 1))) d)) args
  end.
Definition expand_avtab_node (p : policydb) : avtab_key → avtab_datum → avtab → CM (Z * avtab) :=
  expand_node p expand_avtab_insert.
Definition expand_avtab (p : policydb) (a expa : avtab) : CM (Z * avtab) :=
  '(rc, expa) ← avtab_alloc expa MAX_AVTAB_SIZE;
  if truth rc then mret (-1, expa) else avtab_map a (expand_avtab_node p) expa.

Definition expand_cond_av_node (p : policydb) (nd : avtab_node) (newl : list Z) (expa : avtab)
    : CM (Z * (list Z * avtab)) :=
  expand_node p expand_cond_insert (key nd) (datum nd) (newl, expa).
(** the list points into [te_cond_avtab]; the new list is [None] when it was
    not written *)
Definition expand_cond_av_list (p : policydb) (l : list Z) (expa : avtab) : CM (Z * option (list Z) * avtab) :=
  '(rc, expa) ← avtab_alloc expa MAX_AVTAB_SIZE;
  if truth rc then mret (-1, None, expa) else
  r ← for_list l (λ a '(newl, expa),
        nd ← deref (av_find (te_cond_avtab p) a);
        '(rc, (newl, expa)) ← expand_cond_av_node p nd newl expa;
        mret (if truth rc then inl (rc, newl, expa) else inr (newl, expa))) ([], expa);
  mret (match r with
        | inl (rc, newl, expa) => (rc, Some newl, expa)
        | inr (newl, expa) => (0, Some newl, expa)
        end).
End operations.

(** ** Meaning *)

(** the types a type or attribute stands for, as values *)
Definition types_of (p : policydb) (v : Z) : list Z :=
  match at_val (type_val_to_struct p) v with
  | Some ty =>
      if type_flavor ty =? TYPE_ATTRIB then
        match at_index (attr_type_map p) v with
        | Some e => (λ i, u16 (i + 1)) <$> ebitmap_bits e
        | None => []
        end
      else [v]
  | None => []
  end.
(** the keys and the rules a rule stands for, in the order they are made *)
Definition expanded_keys (p : policydb) (k : avtab_key) : list avtab_key :=
  types_of p (source_type k) ≫= λ s, (λ t, AvKey s t (target_class k) (specified k)) <$> types_of p (target_type k).
Definition expanded (p : policydb) (nds : list avtab_node) : list (avtab_key * avtab_datum) :=
  nds ≫= λ nd, (λ k, (k, datum nd)) <$> expanded_keys p (key nd).

(** the value is that of a type, or of an attribute whose types have values of
    16 bits *)
Definition type_ok (p : policydb) (v : Z) : Prop :=
  ∃ ty, at_val (type_val_to_struct p) v = Some ty ∧
    (type_flavor ty = TYPE_ATTRIB →
     ∃ e, at_index (attr_type_map p) v = Some e ∧ ebitmap_wf e ∧ ∀ i, i ∈ ebitmap_bits e → i < 2 ^ 16 - 1).
(** one kind of rule *)
Definition one_kind (k : avtab_key) : Prop := ∃ i, 0 ≤ i < 15 ∧ without_enabled (specified k) = 2 ^ i.
Definition rule_ok (p : policydb) (k : avtab_key) : Prop :=
  key_wf k ∧ one_kind k ∧ type_ok p (source_type k) ∧ type_ok p (target_type k).

(** what identifies a rule of a table whose keys are all of one kind *)
Definition triple_of (k : avtab_key) : Z * Z * Z := (source_type k, target_type k, target_class k).
Definition rule_id (e : avtab_key * avtab_datum) : (Z * Z * Z) * Z := (triple_of e.1, without_enabled (specified e.1)).

(** kinds of access vectors *)
Definition av_kind (k : avtab_key) : bool :=
  let kind := without_enabled (specified k) in
  (kind =? AVTAB_ALLOWED) || (kind =? AVTAB_AUDITALLOW) || (kind =? AVTAB_AUDITDENY).
(** no two type rules for the same key: they cannot be merged *)
Definition conflict_free (l : list (avtab_key * avtab_datum)) : Prop :=
  ∀ l1 k d l2, l = l1 ++ (k, d) :: l2 → av_kind k = false → k ∉ l1.*1.

(** the kinds whose data are joined, and those whose data are met *)
Definition or_kind (k : avtab_key) : bool :=
  (without_enabled (specified k) =? AVTAB_ALLOWED) || (without_enabled (specified k) =? AVTAB_AUDITALLOW).
Definition and_kind (k : avtab_key) : bool := without_enabled (specified k) =? AVTAB_AUDITDENY.
(** some rule for the key has the bit, every rule for it has *)
Definition some_rule {A} (keyf : A → avtab_key) (dataf : A → avtab_datum) (k : avtab_key) (b : Z) (l : list A) : bool :=
  existsb (λ x, bool_decide (keyf x = k) && Z.testbit (data (dataf x)) b) l.
Definition every_rule {A} (keyf : A → avtab_key) (dataf : A → avtab_datum) (k : avtab_key) (b : Z) (l : list A) : bool :=
  forallb (λ x, negb (bool_decide (keyf x = k)) || Z.testbit (data (dataf x)) b) l.
Abbreviation some_node := (some_rule key datum).
Abbreviation every_node := (every_rule key datum).
Abbreviation some_entry := (some_rule fst snd).
Abbreviation every_entry := (every_rule fst snd).
Definition uniform (l : list (avtab_key * avtab_datum)) : Prop :=
  ∀ k k', k ∈ l.*1 → k' ∈ l.*1 → enabled_differs k k' = false.

(** the nodes [L] hold the rules of [E], merged *)
Record content (E : list (avtab_key * avtab_datum)) (L : list avtab_node) : Prop := {
  co_keys k : k ∈ key <$> L ↔ k ∈ E.*1;
  co_or k b : or_kind k = true → some_node k b L = some_entry k b E;
  co_and k b : and_kind k = true → every_node k b L = every_entry k b E;
  co_type k d : av_kind k = false → (k, d) ∈ rule_of <$> L ↔ (k, d) ∈ E;
  co_unique : uniform E → NoDup (key <$> L)
}.
(** the table holds the rules of [E] *)
Definition holds (E : list (avtab_key * avtab_datum)) (a : avtab) : Prop :=
  ∃ t, avtab_wf a t ∧ content E (concat t) ∧ Forall one_kind (key <$> concat t).
(** and its nodes were allocated before *)
Definition expands (E : list (avtab_key * avtab_datum)) (a : avtab) (h : heap) : Prop :=
  ∃ t, avtab_wf a t ∧ content E (concat t) ∧ Forall one_kind (key <$> concat t) ∧
    NoDup (av_addr <$> concat t) ∧ Forall (λ x, x < h_next h) (av_addr <$> concat t).

Lemma expands_holds E a h : expands E a h → holds E a.
Proof. intros (t&?&?&?&_). by exists t. Qed.

Section theory.
Implicit Types (k : avtab_key) (d : avtab_datum) (L : list avtab_node) (E : list (avtab_key * avtab_datum)).
Implicit Types (a : avtab) (t : list (list avtab_node)) (h : heap) (nd : avtab_node) (p : policydb).

(** ** Keys *)

Lemma kind_eq k : key_wf k → Z.land (specified k) (Z.lnot AVTAB_ENABLED) = without_enabled (specified k).
Proof.
  intros (_&_&_&Hs). unfold without_enabled. change (u32 _) with 0x7fff7fff. apply Z.bits_inj'. intros j Hj.
  rewrite !Z.land_spec, Z.lnot_spec by done. destruct (Z.lt_ge_cases j 16); [|by rewrite (testbit_high 16 (specified k))].
  f_equal. change AVTAB_ENABLED with (2 ^ 15). rewrite Z.pow2_bits_eqb by lia.
  assert (∃ n : nat, j = n ∧ (n < 16)%nat) as (n&->&Hn) by (exists (Z.to_nat j); lia).
  do 16 (destruct n as [|n]; [done|]). lia.
Qed.

(** the kind and the bit for enabled rules make up [specified] *)
Lemma specified_eq k k' :
  key_wf k → key_wf k' → without_enabled (specified k) = without_enabled (specified k') →
  enabled_differs k k' = false → specified k = specified k'.
Proof.
  intros Hk Hk' Hkind He. rewrite <- !kind_eq in Hkind by done. unfold enabled_differs in He.
  apply negb_false_iff, Z.eqb_eq in He. apply Z.bits_inj'. intros j Hj.
  apply (f_equal (λ x, Z.testbit x j)) in Hkind, He. rewrite !Z.land_spec, ?Z.lnot_spec in * by done.
  by destruct (Z.testbit (specified k) j), (Z.testbit (specified k') j), (Z.testbit AVTAB_ENABLED j).
Qed.

Lemma one_kind_matches k k' :
  one_kind k → one_kind k' → truth (Z.land (without_enabled (specified k)) (specified k')) = true →
  without_enabled (specified k) = without_enabled (specified k').
Proof.
  intros (i&Hi&Hk) (i'&Hi'&Hk') Ht. rewrite Hk, Hk'. f_equal.
  rewrite Hk, Z.land_comm, <- Z.shiftl_1_l, truth_land_bit in Ht by lia.
  assert (Z.testbit (without_enabled (specified k')) i = true) as Hb.
  { unfold without_enabled. change (u32 _) with 0x7fff7fff. rewrite Z.land_spec, Ht.
    assert (∃ n : nat, i = n ∧ (n < 15)%nat) as (n&->&Hn) by (exists (Z.to_nat i); lia).
    do 15 (destruct n as [|n]; [done|]). lia. }
  rewrite Hk', Z.pow2_bits_eqb in Hb by lia. apply Z.eqb_eq in Hb. done.
Qed.

Lemma matches_same_key k k' :
  key_wf k → key_wf k' → one_kind k → one_kind k' → key_matches k (without_enabled (specified k)) k' = true →
  enabled_differs k k' = false → k' = k.
Proof.
  intros Hk Hk' H1 H1' Hm He. unfold key_matches in Hm. apply andb_true_iff in Hm as [(E1&E2&E3)%same_triple_eq Ht].
  assert (specified k = specified k') as E4 by (apply specified_eq; try done; by apply one_kind_matches).
  destruct k, k'. cbn in *. congruence.
Qed.

Lemma kind_of_bit k : one_kind k → Z.testbit (specified k) 0 = true → without_enabled (specified k) = AVTAB_ALLOWED.
Proof.
  intros Hone Hb. symmetry. change AVTAB_ALLOWED with (without_enabled (specified (AvKey 0 0 0 AVTAB_ALLOWED))).
  apply one_kind_matches; [exists 0; by vm_compute|done|]. change (without_enabled _) with (Z.shiftl 1 0).
  by rewrite Z.land_comm, truth_land_bit.
Qed.


Lemma kind_cases k :
  av_kind k = or_kind k || and_kind k ∧ (or_kind k = true → and_kind k = false).
Proof.
  unfold av_kind, or_kind, and_kind. split; [done|]. intros [->%Z.eqb_eq| ->%Z.eqb_eq]%orb_true_iff; done.
Qed.

(** ** Contents *)

Lemma some_rule_app {A} (keyf : A → avtab_key) dataf k b (l1 l2 : list A) :
  some_rule keyf dataf k b (l1 ++ l2) = some_rule keyf dataf k b l1 || some_rule keyf dataf k b l2.
Proof. apply existsb_app. Qed.
Lemma every_rule_app {A} (keyf : A → avtab_key) dataf k b (l1 l2 : list A) :
  every_rule keyf dataf k b (l1 ++ l2) = every_rule keyf dataf k b l1 && every_rule keyf dataf k b l2.
Proof. apply forallb_app. Qed.

Lemma some_rule_true {A} (keyf : A → avtab_key) dataf k b (l : list A) :
  some_rule keyf dataf k b l = true ↔ ∃ x, x ∈ l ∧ keyf x = k ∧ Z.testbit (data (dataf x)) b = true.
Proof.
  unfold some_rule. rewrite existsb_exists. setoid_rewrite <- list_elem_of_In. setoid_rewrite andb_true_iff.
  setoid_rewrite bool_decide_eq_true. done.
Qed.


Lemma content_nil : content [] [].
Proof. split; try done. intros _. constructor. Qed.

Lemma content_perm E L L' : L ≡ₚ L' → content E L → content E L'.
Proof.
  intros Hp [Hk Ho Ha Ht Hu]. split.
  - intros k. rewrite <- Hk. by rewrite Hp.
  - intros k b Hkind. rewrite <- Ho by done. unfold some_rule. apply eq_true_iff_eq. rewrite !existsb_exists.
    setoid_rewrite <- list_elem_of_In. by setoid_rewrite Hp.
  - intros k b Hkind. rewrite <- Ha by done. unfold every_rule. apply eq_true_iff_eq. rewrite !forallb_forall.
    setoid_rewrite <- list_elem_of_In. by setoid_rewrite Hp.
  - intros k d Hkind. rewrite <- Ht by done. by rewrite Hp.
  - intros Hun. rewrite <- Hp. by apply Hu.
Qed.

(** a node of its own for a rule *)
Lemma content_add E L x k d c m :
  content E L → (uniform (E ++ [(k, d)]) → k ∉ E.*1) → content (E ++ [(k, d)]) (AvNode x k d c m :: L).
Proof.
  intros [Hk Ho Ha Ht Hu] Hnew. split.
  - intros k'. rewrite fmap_app, fmap_cons, elem_of_app, elem_of_cons, Hk. cbn. rewrite list_elem_of_singleton. tauto.
  - intros k' b Hkind. rewrite some_rule_app, <- Ho by done. cbn. by rewrite orb_false_r, orb_comm.
  - intros k' b Hkind. rewrite every_rule_app, <- Ha by done. cbn. by rewrite andb_true_r, andb_comm.
  - intros k' d' Hkind. rewrite fmap_cons, elem_of_cons, elem_of_app, list_elem_of_singleton, Ht by done. unfold rule_of. cbn. naive_solver.
  - intros Hun. cbn. constructor; [rewrite Hk; by apply Hnew|]. apply Hu. intros k1 k2 H1 H2. apply Hun; rewrite fmap_app, elem_of_app; by left.
Qed.

(** a rule merged into the node of its key *)
Lemma content_merge E L1 nd L2 k d x :
  content E (L1 ++ nd :: L2) → key_wf k → key nd = k → merge_data k (data (datum nd)) (data d) = Some x →
  content (E ++ [(k, d)]) (L1 ++ with_datum nd (AvDatum x) :: L2).
Proof.
  intros [Hk Ho Ha Ht Hu] Hwf <- Hm. unfold merge_data in Hm. rewrite kind_eq in Hm by done.
  fold (or_kind (key nd)) (and_kind (key nd)) in Hm. destruct (kind_cases (key nd)) as [Hav Hex].
  assert (Hkeys : ∀ y, key <$> (L1 ++ with_datum nd y :: L2) = key <$> (L1 ++ nd :: L2)).
  { intros y. by rewrite !fmap_app, !fmap_cons. }
  split.
  - intros k'. rewrite Hkeys, (fmap_app fst E), elem_of_app, <- Hk. cbn. rewrite list_elem_of_singleton.
    split; [by left|]. intros [?| ->]; [done|]. rewrite fmap_app, elem_of_app, fmap_cons. right. by left.
  - intros k' b Hkind. rewrite (some_rule_app fst snd), <- Ho by done. rewrite !some_rule_app. cbn. rewrite orb_false_r.
    case_bool_decide as E1; cbn; [|by rewrite orb_false_r]. subst k'. rewrite Hkind in Hm. injection Hm as <-. rewrite Z.lor_spec.
    by destruct (some_node (key nd) b L1), (Z.testbit (data (datum nd)) b), (Z.testbit (data d) b), (existsb _ L2).
  - intros k' b Hkind. rewrite (every_rule_app fst snd), <- Ha by done. rewrite !every_rule_app. cbn. rewrite andb_true_r.
    case_bool_decide as E1; cbn; [|by rewrite andb_true_r]. subst k'.
    destruct (or_kind (key nd)); [by rewrite Hex in Hkind|]. rewrite Hkind in Hm. injection Hm as <-. rewrite Z.land_spec.
    by destruct (every_node (key nd) b L1), (Z.testbit (data (datum nd)) b), (Z.testbit (data d) b), (forallb _ L2).
  - intros k' d' Hkind. assert (k' ≠ key nd) as Hne.
    { intros ->. rewrite Hav in Hkind. by destruct (or_kind (key nd)), (and_kind (key nd)). }
    specialize (Ht k' d' Hkind). rewrite fmap_app, fmap_cons, elem_of_app, elem_of_cons in Ht |- *.
    rewrite elem_of_app, list_elem_of_singleton. unfold rule_of at 2 in Ht. unfold rule_of at 2. cbn [key with_datum].
    rewrite <- Ht. naive_solver.
  - intros Hun. rewrite Hkeys. apply Hu. intros k1 k2 H1 H2. apply Hun; rewrite fmap_app, elem_of_app; by left.
Qed.

(** ** A store to a node *)

Lemma table_key_wf a t nd : avtab_wf a t → nd ∈ concat t → key_wf (key nd).
Proof. intros Hwf (i&ch&Hi&Hin)%elem_of_concat. by apply (av_keys _ _ Hwf i ch). Qed.
Lemma av_update_node (a : avtab) t L1 nd L2 f :
  avtab_wf a t → concat t = L1 ++ nd :: L2 → NoDup (av_addr <$> concat t) →
  (∀ nd, av_addr (f nd) = av_addr nd ∧ triple_of (key (f nd)) = triple_of (key nd) ∧ (key_wf (key nd) → key_wf (key (f nd)))) →
  ∃ t', avtab_wf (av_update a (av_addr nd) f) t' ∧ concat t' = L1 ++ f nd :: L2.
Proof.
  intros Hwf Hc Hnd Hf. set (g := λ x, if av_addr x =? av_addr nd then f x else x).
  assert (Hg : ∀ x, triple_of (key (g x)) = triple_of (key x) ∧ (key_wf (key x) → key_wf (key (g x))))
    by (intros x; unfold g; case_match; [apply Hf|done]).
  assert (Hcode : ∀ k k', triple_of k = triple_of k' → triple_code k = triple_code k' ∧ ∀ m, avtab_hash k m = avtab_hash k' m).
  { intros k k' [= E1 E2 E3]. unfold triple_code, avtab_hash. by rewrite E1, E2, E3. }
  exists (fmap (M := list) (fmap (M := list) g) t).
  assert (∀ (l : list (list avtab_node)), concat (fmap (M := list) (fmap (M := list) g) l) = g <$> concat l) as Hconcat.
  { induction l as [|c l IH]; [done|]. cbn. by rewrite fmap_app, <- IH. }
  split.
  - destruct Hwf as [H1 H2 H3 H4 H5]. unfold av_update. rewrite H1. split; cbn [av_htable nslot mask av_nel].
    + done.
    + by rewrite length_fmap.
    + intros i c Hi. rewrite list_lookup_fmap in Hi. apply fmap_Some in Hi as (c0&Hi&->). specialize (H3 i c0 Hi).
      apply (StronglySorted_fmap _ node_le); [|done]. intros x y. unfold node_le.
      by rewrite (proj1 (Hcode _ _ (proj1 (Hg x)))), (proj1 (Hcode _ _ (proj1 (Hg y)))).
    + intros i c x Hi Hx. rewrite list_lookup_fmap in Hi. apply fmap_Some in Hi as (c0&Hi&->). apply list_elem_of_fmap in Hx as (x0&->&Hx).
      rewrite (proj2 (Hcode _ _ (proj1 (Hg x0)))). destruct (H4 i c0 x0) as [??]; [done..|]. split; [by apply Hg|done].
    + by rewrite Hconcat, length_fmap.
  - rewrite Hconcat, Hc. rewrite Hc in Hnd. rewrite fmap_app, fmap_cons in Hnd. rewrite fmap_app, fmap_cons.
    apply NoDup_app in Hnd as (_&H1&[H2 _]%NoDup_cons).
    assert (∀ l : list avtab_node, av_addr nd ∉ av_addr <$> l → g <$> l = l) as Hid.
    { induction l as [|x l IH]; intros Hn; [done|]. rewrite fmap_cons in *. apply not_elem_of_cons in Hn as [Hn ?].
      rewrite IH by done. unfold g. by rewrite (proj2 (Z.eqb_neq _ _)) by done. }
    rewrite !Hid; [|done|]; cycle 1.
    { intros Hin. apply (H1 _ Hin). by left. }
    unfold g. by rewrite Z.eqb_refl.
Qed.
Lemma av_update_table (a : avtab) t L1 nd L2 f :
  avtab_wf a t → concat t = L1 ++ nd :: L2 → NoDup (av_addr <$> concat t) →
  (∀ nd, av_addr (f nd) = av_addr nd ∧ key (f nd) = key nd) →
  ∃ t', avtab_wf (av_update a (av_addr nd) f) t' ∧ concat t' = L1 ++ f nd :: L2.
Proof. intros Hwf Hc Hnd Hf. apply (av_update_node a t); [done..|]. intros x. destruct (Hf x) as [-> ->]. done. Qed.

(** ** Insertion *)

Lemma expands_merge E a h t nd k d x :
  avtab_wf a t → content E (concat t) → Forall one_kind (key <$> concat t) → NoDup (av_addr <$> concat t) →
  Forall (λ x, x < h_next h) (av_addr <$> concat t) → nd ∈ concat t → key nd = k →
  merge_data k (data (datum nd)) (data d) = Some x →
  expands (E ++ [(k, d)]) (av_update a (av_addr nd) (λ nd, with_datum nd (AvDatum x))) h.
Proof.
  intros Hwf Hc H1 Hnd Hlt Hin Hk Hm. apply list_elem_of_split in Hin as (L1&L2&Ht).
  destruct (av_update_table a t L1 nd L2 (λ nd, with_datum nd (AvDatum x))) as (t'&Hwf'&Ht'); [done..|].
  assert (key_wf k) as Hkwf.
  { assert (nd ∈ concat t) as (i&c&Hi&Hin)%elem_of_concat by (rewrite Ht, elem_of_app; right; by left).
    rewrite <- Hk. by apply (av_keys _ _ Hwf i c). }
  exists t'. rewrite Ht'. rewrite Ht in *. split_and!; [done|by eapply content_merge|..];
    revert H1 Hnd Hlt; rewrite !fmap_app, !fmap_cons; done.
Qed.

Lemma expands_new E h t a' t' k d c h' :
  content E (concat t) → Forall one_kind (key <$> concat t) → NoDup (av_addr <$> concat t) →
  Forall (λ x, x < h_next h) (av_addr <$> concat t) → avtab_wf a' t' →
  concat t' ≡ₚ AvNode (h_next h) k d c 0 :: concat t → one_kind k → h_next h < h_next h' →
  (uniform (E ++ [(k, d)]) → k ∉ E.*1) → expands (E ++ [(k, d)]) a' h'.
Proof.
  intros Hc H1 Hnd Hlt Hwf Hp Hk Hn Hnew. exists t'. split; [done|].
  split; [eapply content_perm; [by symmetry|by apply content_add]|]. rewrite Hp, !fmap_cons. cbn [av_addr key].
  split_and!; [by constructor|constructor; [|done]|constructor; [lia|]].
  - intros Hin. rewrite Forall_forall in Hlt. specialize (Hlt _ Hin). lia.
  - eapply Forall_impl; [done|]. cbn. lia.
Qed.

(** the node that a search finds *)
Lemma search_node_expands E a h k :
  expands E a h → key_wf k → one_kind k →
  wp (avtab_search_node a k) (λ cur h', h' = h ∧ ∃ t, avtab_wf a t ∧ content E (concat t) ∧
    Forall one_kind (key <$> concat t) ∧ NoDup (av_addr <$> concat t) ∧ Forall (λ x, x < h_next h) (av_addr <$> concat t) ∧
    match cur with
    | [] => matching k (u16 (without_enabled (specified k))) (concat t) = [] ∧ k ∉ E.*1
    | nd :: _ => nd ∈ concat t ∧ without_enabled (specified (key nd)) = without_enabled (specified k) ∧
                 (enabled_differs k (key nd) = false → key nd = k)
    end) h.
Proof.
  intros (t&Hwf&Hc&H1&Hnd&Hlt) Hk Hone. eapply wp_mono; [by apply avtab_search_node_wp|].
  intros cur h' (->&Hm&Hhd&_&Hin). split; [done|]. exists t. split_and!; try done.
  destruct (without_enabled_range (specified k)) as (_&Hu&_); [apply Hk|]. rewrite Hu in *.
  destruct cur as [|nd cur].
  - split; [done|]. rewrite <- (co_keys _ _ Hc). intros (nd&Hnd'&Hin')%list_elem_of_fmap.
    rewrite filter_nil in Hm. symmetry in Hm. rewrite filter_none in Hm. apply (Hm nd Hin'). rewrite <- Hnd'.
    unfold key_matches. apply andb_true_iff. split; [by apply same_triple_eq|]. rewrite Z.land_comm.
    destruct Hone as (i&Hi&Hw). rewrite Hw, <- Z.shiftl_1_l, truth_land_bit by lia.
    assert (Z.testbit (without_enabled (specified k)) i = true) as Hb by by (rewrite Hw, Z.pow2_bits_true by lia).
    unfold without_enabled in Hb. rewrite Z.land_spec in Hb. by apply andb_true_iff in Hb as [? _].
  - destruct (Hin nd) as [Hin' Hkwf]; [by left|]. split; [done|].
    assert (one_kind (key nd)) as Hone' by (rewrite Forall_fmap, Forall_forall in H1; by apply H1).
    split.
    + symmetry. apply one_kind_matches; [done..|]. unfold key_matches in Hhd. by apply andb_true_iff in Hhd as [_ ?].
    + intros He. by apply matches_same_key.
Qed.

Lemma merge_data_some k old new : key_wf k → av_kind k = true → is_Some (merge_data k old new).
Proof.
  intros Hk Hav. unfold merge_data. rewrite kind_eq by done. fold (or_kind k) (and_kind k).
  destruct (kind_cases k) as [Hc _]. rewrite Hc in Hav. destruct (or_kind k); [by eexists|]. destruct (and_kind k); [by eexists|done].
Qed.

Lemma expand_avtab_insert_wp E a k d h :
  expands E a h → key_wf k → one_kind k → (av_kind k = false → k ∉ E.*1) →
  wp (expand_avtab_insert k d a) (λ '(rc, a') h', mem_step h h' (rc = 0) ∧
    (rc = 0 → h_next h ≤ h_next h' ∧ expands (E ++ [(k, d)]) a' h')) h.
Proof.
  intros He Hk Hone Hconf. unfold expand_avtab_insert. apply wp_bind. eapply wp_mono; [by apply search_node_expands|].
  intros cur h1 (->&t&Hwf&Hc&H1&Hnd&Hlt&Hcur). destruct cur as [|nd cur].
  - destruct Hcur as [Hm Hnew]. eapply wp_mono; [by apply avtab_insert_wp|]. intros [rc a'] h2 [Hmem Hr].
    rewrite decide_True in Hr by done. destruct Hr as [(x&t'&->&Hwf'&Hp&_&_&->&Hn)|[-> ->]].
    + split; [mem|]. intros _. split; [lia|]. by eapply expands_new; try done; lia.
    + split; [|done]. intros Ho. by destruct (Hmem Ho).
  - destruct Hcur as (Hin&Hkind&Heq). destruct (enabled_differs k (key nd)) eqn:Ed.
    + apply wp_bind. eapply wp_mono; [by apply avtab_insert_nonunique_wp|]. intros [[x|] a'] h2 [Hmem Hr]; apply wp_ret.
      * destruct Hr as ((t'&Hwf'&Hp)&_&->&Hn). split; [mem|]. intros _. split; [lia|]. eapply expands_new; try done; [lia|].
        intros Hun. exfalso. rewrite (Hun k (key nd)) in Ed; [done|..]; rewrite fmap_app, elem_of_app; [right; by left|left].
        rewrite <- (co_keys _ _ Hc). by apply list_elem_of_fmap_2.
      * split; [|done]. intros Ho. by destruct (Hmem Ho).
    + apply wp_ret. specialize (Heq eq_refl). unfold merge_datum.
      assert (av_kind k = true) as Hav.
      { destruct (av_kind k) eqn:Ea; [done|]. exfalso. apply (Hconf eq_refl). rewrite <- (co_keys _ _ Hc), <- Heq.
        by apply list_elem_of_fmap_2. }
      destruct (merge_data_some k (data (datum nd)) (data d) Hk Hav) as [x Hx]. rewrite Hx.
      split; [by apply mem_step_refl|]. intros _. split; [lia|]. by eapply expands_merge.
Qed.

(** the list has the nodes of the table *)
Definition lists (l : list Z) (a : avtab) : Prop := ∃ t, av_htable a = Some t ∧ l ≡ₚ av_addr <$> concat t.

Lemma expand_cond_insert_wp E l a k d h :
  expands E a h → lists l a → key_wf k → one_kind k → (av_kind k = false → k ∉ E.*1) →
  wp (expand_cond_insert k d (l, a)) (λ '(rc, (l', a')) h', mem_step h h' (rc = 0) ∧
    (rc = 0 → h_next h ≤ h_next h' ∧ expands (E ++ [(k, d)]) a' h' ∧ lists l' a')) h.
Proof.
  intros He (t0&Ht0&Hl) Hk Hone Hconf. unfold expand_cond_insert. apply wp_bind. eapply wp_mono; [by apply search_node_expands|].
  intros cur h1 (->&t&Hwf&Hc&H1&Hnd&Hlt&Hcur). assert (t0 = t) as -> by (pose proof (av_table _ _ Hwf); congruence).
  destruct (mergeable k cur) as [nd|] eqn:Em.
  - destruct cur as [|nd' cur]; [done|]. cbn in Em. destruct (enabled_differs k (key nd')) eqn:Ed; [done|]. injection Em as ->.
    destruct Hcur as (Hin&_&Heq). specialize (Heq eq_refl). unfold merge_datum.
    assert (av_kind k = true) as Hav.
    { destruct (av_kind k) eqn:Ea; [done|]. exfalso. apply (Hconf eq_refl). rewrite <- (co_keys _ _ Hc), <- Heq.
      by apply list_elem_of_fmap_2. }
    destruct (merge_data_some k (data (datum nd)) (data d) Hk Hav) as [x Hx]. rewrite Hx. apply wp_ret.
    split; [by apply mem_step_refl|]. intros _. split; [lia|]. split; [by eapply expands_merge|].
    apply list_elem_of_split in Hin as (L1&L2&Hsplit).
    destruct (av_update_table a t L1 nd L2 (λ nd, with_datum nd (AvDatum x))) as (t'&Hwf'&Ht'); [done..|].
    exists t'. split; [by apply av_table|]. rewrite Hl, Ht', Hsplit. by rewrite !fmap_app, !fmap_cons.
  - assert (uniform (E ++ [(k, d)]) → k ∉ E.*1) as Hnew.
    { intros Hun. destruct cur as [|nd cur]; [by destruct Hcur|]. destruct Hcur as (Hin&_&_). cbn in Em.
      destruct (enabled_differs k (key nd)) eqn:Ed; [|done]. exfalso.
      rewrite (Hun k (key nd)) in Ed; [done|..]; rewrite fmap_app, elem_of_app; [right; by left|left].
      rewrite <- (co_keys _ _ Hc). by apply list_elem_of_fmap_2. }
    apply wp_bind. eapply wp_mono; [by apply avtab_insert_nonunique_wp|]. intros [[x|] a'] h2 [Hmem Hr]; cycle 1.
    { apply wp_ret. split; [|done]. intros Ho. by destruct (Hmem Ho). }
    destruct Hr as ((t'&Hwf'&Hp)&_&->&Hn). set (new := AvNode (h_next h) k d 0 0) in *.
    assert (new ∈ concat t') as (L1&L2&Hsplit)%list_elem_of_split by (rewrite Hp; by left).
    assert (NoDup (av_addr <$> concat t')) as Hnd'.
    { rewrite Hp, fmap_cons. constructor; [|done]. intros Hin. rewrite Forall_forall in Hlt. specialize (Hlt _ Hin). cbn in Hlt. lia. }
    destruct (av_update_table a' t' L1 new L2 (λ nd, with_parse_context nd 1)) as (t2&Hwf2&Ht2); [done..|].
    assert (concat t2 ≡ₚ AvNode (h_next h) k d 1 0 :: concat t) as Hp2.
    { rewrite Ht2. change (with_parse_context new 1) with (AvNode (h_next h) k d 1 0). rewrite <- Permutation_middle. f_equiv.
      apply (Permutation_cons_inv (a := new)). rewrite <- Hp, Hsplit. by rewrite <- Permutation_middle. }
    change (av_addr new) with (h_next h) in *. apply wp_bind, wp_malloc_addr; intros h3 Hm3 Hn3; apply wp_ret; cycle 1.
    { split; [|done]. mem. }
    split; [mem|]. intros _. split; [lia|]. split; [by eapply expands_new; try done; lia|].
    exists t2. split; [by apply av_table|]. by rewrite Hp2, fmap_cons, Hl.
Qed.
End theory.

(** ** Expansion of one rule *)

Section expansion.
Context `{Target} {A : Type}.
Implicit Types (k : avtab_key) (d : avtab_datum) (args : A) (h : heap) (p : policydb).

(** [f] on a list of things, until an error *)
Lemma over_types_wp (Inv : list Z → A → heap → Prop) (Q : Z * A → heap → Prop) e f args h :
  ebitmap_wf e → Inv [] args h →
  (∀ i l1 l2 args h, ebitmap_bits e = l1 ++ i :: l2 → Inv l1 args h →
    wp (f i args) (λ '(rc, args') h', (rc = 0 → Inv (l1 ++ [i]) args' h') ∧ (rc ≠ 0 → ∀ rc', rc' ≠ 0 → Q (rc', args') h')) h) →
  (∀ args h, Inv (ebitmap_bits e) args h → Q (0, args) h) →
  wp (over_types e f args) Q h.
Proof.
  intros He HI Hf HQ. unfold over_types. apply wp_bind, (wp_ebitmap_for_each_member Inv); [done|done|done| |].
  - intros i l1 l2 args1 h1 Hl HI1. apply wp_bind. eapply wp_mono; [by eapply Hf|]. intros [rc args2] h2 [H0 H1].
    apply wp_ret. destruct (truth rc) eqn:Et; [apply wp_ret, H1; [by apply truth_true|done]|]. by apply H0, truth_false.
  - intros args1 h1 HI1. by apply wp_ret, HQ.
Qed.

Context (p : policydb) (ins : avtab_key → avtab_datum → A → CM (Z * A)).

(** what is wanted of an error does not depend on the code *)
Definition step_ok (Inv : list avtab_key → A → heap → Prop) (Q : Z * A → heap → Prop) (l : list avtab_key)
    '((rc, args) : Z * A) (h : heap) : Prop :=
  (rc = 0 → Inv l args h) ∧ (rc ≠ 0 → ∀ rc', rc' ≠ 0 → Q (rc', args) h).

Section keys.
Context (Inv : list avtab_key → A → heap → Prop) (Q : Z * A → heap → Prop) (d : avtab_datum) (all : list avtab_key).
Context (Hins : ∀ k l1 l2 args h, all = l1 ++ k :: l2 → Inv l1 args h → wp (ins k d args) (step_ok Inv Q (l1 ++ [k])) h).

Lemma over_keys_wp pre post e (g : Z → avtab_key) args h :
  ebitmap_wf e → all = pre ++ (g <$> ebitmap_bits e) ++ post → Inv pre args h →
  wp (over_types e (λ j, ins (g j) d) args) (step_ok Inv Q (pre ++ (g <$> ebitmap_bits e))) h.
Proof.
  intros He Hall HI. apply (over_types_wp (λ l, Inv (pre ++ (g <$> l)))); [done|by rewrite app_nil_r| |done].
  intros j l1 l2 args1 h1 Hl HI1. eapply wp_mono.
  { apply (Hins _ (pre ++ (g <$> l1)) ((g <$> l2) ++ post)); [|done]. by rewrite Hall, Hl, fmap_app, fmap_cons, <- !app_assoc. }
  intros [rc args2] h2 [H0 H1]. split.
  - intros Hrc. rewrite fmap_app, app_assoc. by apply H0.
  - intros Hrc rc' Hrc'. split; [done|]. intros _. by apply H1.
Qed.

Lemma over_pairs_wp se te (g : Z → Z → avtab_key) args h :
  ebitmap_wf se → ebitmap_wf te → all = ebitmap_bits se ≫= (λ i, g i <$> ebitmap_bits te) → Inv [] args h →
  wp (over_types se (λ i, over_types te (λ j, ins (g i j) d)) args) (step_ok Inv Q all) h.
Proof.
  intros Hs Ht Hall HI. set (row := λ i, g i <$> ebitmap_bits te) in *.
  apply (over_types_wp (λ l, Inv (l ≫= row))); [done|done| |by rewrite Hall].
  intros i l1 l2 args1 h1 Hl HI1. eapply wp_mono; [apply (over_keys_wp (l1 ≫= row) (l2 ≫= row)); [done| |done]|].
  { rewrite Hall, Hl, bind_app. cbn. done. }
  intros [rc args2] h2 [H0 H1]. split.
  - intros Hrc. rewrite bind_app. cbn. rewrite app_nil_r. by apply H0.
  - intros Hrc rc' Hrc'. split; [done|]. intros _. by apply H1.
Qed.
End keys.

Lemma fmap_bind_fuse {X Y Z} (f : X → Y) (g : Y → list Z) (l : list X) : (f <$> l) ≫= g = l ≫= (λ x, g (f x)).
Proof. induction l as [|x l IH]; [done|]. cbn. by f_equal. Qed.

(** the rule is inserted for each of its keys *)
Lemma expand_node_wp (Inv : list avtab_key → A → heap → Prop) (Q : Z * A → heap → Prop) k d args h :
  type_ok p (source_type k) → type_ok p (target_type k) → Inv [] args h →
  (∀ k' l1 l2 args h, expanded_keys p k = l1 ++ k' :: l2 → Inv l1 args h →
    wp (ins k' d args) (step_ok Inv Q (l1 ++ [k'])) h) →
  (∀ args h, Inv (expanded_keys p k) args h → Q (0, args) h) →
  wp (expand_node p ins k d args) Q h.
Proof.
  intros (sty&Hs&Hsa) (tty&Ht&Hta) HI Hins HQ. assert (Hkeys := eq_refl (expanded_keys p k)). unfold expanded_keys at 2 in Hkeys.
  unfold expand_node. eapply wp_bind, wp_deref; [done|]. eapply wp_bind, wp_deref; [done|].
  assert (Hfin : ∀ m, wp m (step_ok Inv Q (expanded_keys p k)) h → wp m Q h).
  { intros m Hm. eapply wp_mono; [exact Hm|]. intros [rc args'] h' [H0 H1].
    destruct (decide (rc = 0)) as [->|Hrc]; [by apply HQ, H0|by apply H1]. }
  apply Hfin. clear Hfin HQ. unfold types_of in Hkeys. rewrite Hs, Ht in Hkeys.
  destruct (type_flavor sty =? TYPE_ATTRIB) eqn:Es, (type_flavor tty =? TYPE_ATTRIB) eqn:Et; cbn iota beta in *;
    try (apply Z.eqb_eq in Es; destruct (Hsa Es) as (se&Hse&Hsw&_); rewrite Hse in Hkeys; eapply wp_bind, wp_deref; [done|]);
    try (apply Z.eqb_eq in Et; destruct (Hta Et) as (te&Hte&Htw&_); rewrite Hte in Hkeys; eapply wp_bind, wp_deref; [done|]).
  - apply (over_pairs_wp Inv Q d (expanded_keys p k) Hins se te
      (λ i j, AvKey (u16 (i + 1)) (u16 (j + 1)) (target_class k) (specified k))); [done|done| |done].
    rewrite Hkeys, fmap_bind_fuse. apply list_bind_ext; [|done]. intros i. by rewrite <- list_fmap_compose.
  - rewrite fmap_bind_fuse in Hkeys. cbn in Hkeys.
    rewrite Hkeys. apply (over_keys_wp Inv Q d (expanded_keys p k) Hins [] []
      se (λ i, AvKey (u16 (i + 1)) (target_type k) (target_class k) (specified k))); [done| |done].
    by rewrite Hkeys, app_nil_r.
  - cbn in Hkeys. rewrite app_nil_r, <- list_fmap_compose in Hkeys.
    rewrite Hkeys. apply (over_keys_wp Inv Q d (expanded_keys p k) Hins [] []
      te (λ j, AvKey (source_type k) (u16 (j + 1)) (target_class k) (specified k))); [done| |done].
    by rewrite Hkeys, app_nil_r.
  - cbn in Hkeys. rewrite Hkeys. eapply wp_mono; [apply (Hins k [] []); [by rewrite Hkeys; destruct k|done]|].
    intros [rc args1] h1 [H0 H1]. split; [by destruct k; apply H0|done].
Qed.
End expansion.

(** ** Expansion of a table *)

(** the chains of a table, which may not have been allocated *)
Definition table_of (a : avtab) (t : list (list avtab_node)) : Prop :=
  avtab_wf a t ∨ nslot a = 0 ∧ av_htable a = None ∧ t = [].

Section tables.
Context `{Target}.
Implicit Types (k : avtab_key) (d : avtab_datum) (a : avtab) (t : list (list avtab_node)) (h : heap) (p : policydb).
Implicit Types (E : list (avtab_key * avtab_datum)) (nd : avtab_node).

(** [avtab_map] calls the function on the nodes, one after the other *)
Lemma avtab_map_wp {A} a t (apply : avtab_key → avtab_datum → A → CM (Z * A))
    (Inv : list avtab_node → A → heap → Prop) (Q : Z * A → heap → Prop) args h :
  table_of a t → Inv [] args h →
  (∀ nd l1 l2 args h, concat t = l1 ++ nd :: l2 → Inv l1 args h →
    wp (apply (key nd) (datum nd) args)
      (λ '(ret, args') h', if truth ret then Q (ret, args') h' else Inv (l1 ++ [nd]) args' h') h) →
  (∀ args h, Inv (concat t) args h → Q (0, args) h) →
  wp (avtab_map a apply args) Q h.
Proof.
  intros [Hwf|(Hn&Hnone&->)] HI Hb HQ; unfold avtab_map; apply wp_bind; cycle 1.
  { rewrite Hn. apply wp_ret, wp_ret. by apply HQ. }
  destruct (av_slots _ _ Hwf) as (Hl&Hpos&_). rewrite (av_table _ _ Hwf).
  apply (wp_for_loop (λ i args h, Inv (concat (take (Z.to_nat i) t)) args h)); [done| |].
  - intros i args1 h1 Hi H1. destruct (lookup_lt_is_Some_2 t (Z.to_nat i)) as [ch Hc]; [lia|].
    eapply wp_bind, wp_deref; [done|].
    eapply wp_bind, wp_deref; [unfold av_slot; by rewrite (proj2 (Z.ltb_ge _ _)) by lia|].
    assert (Hcat : concat t = concat (take (Z.to_nat i) t) ++ ch ++ concat (drop (S (Z.to_nat i)) t)).
    { rewrite <- (take_drop_middle t (Z.to_nat i) ch Hc) at 1. by rewrite concat_app. }
    apply (wp_for_list_prefix (λ l args h, Inv (concat (take (Z.to_nat i) t) ++ l) args h)); [by rewrite app_nil_r| |].
    + intros nd l1 l2 args2 h2 Hch H2. apply wp_bind.
      eapply wp_mono; [eapply (Hb nd _ (l2 ++ concat (drop (S (Z.to_nat i)) t)) args2 h2); [|exact H2]|].
      { rewrite Hcat, Hch, <- !app_assoc. done. }
      intros [ret args'] h3 Hr. apply wp_ret. destruct (truth ret); [by apply wp_ret|]. by rewrite app_assoc.
    + intros args2 h2 H2. replace (Z.to_nat (i + 1)) with (S (Z.to_nat i)) by lia. erewrite take_S_r by done.
      rewrite concat_app. cbn [concat]. by rewrite app_nil_r.
  - intros args1 h1 H1. rewrite take_ge in H1 by lia. by apply wp_ret, HQ.
Qed.

(** the keys of a rule are those of rules *)
Lemma expanded_key_ok p k k' : rule_ok p k → k' ∈ expanded_keys p k → key_wf k' ∧ one_kind k'.
Proof.
  intros ((Hs&Ht&Hc&Hsp)&Hone&Hst&Htt) Hin.
  assert (Htypes : ∀ v x, 0 ≤ v < 2 ^ 16 → type_ok p v → x ∈ types_of p v → 0 ≤ x < 2 ^ 16).
  { intros v x Hv (ty&Hty&Ha) Hx. unfold types_of in Hx. rewrite Hty in Hx.
    destruct (type_flavor ty =? TYPE_ATTRIB) eqn:E; [|by apply list_elem_of_singleton in Hx as ->].
    apply Z.eqb_eq in E. destruct (Ha E) as (e&He&_&_). rewrite He in Hx.
    apply list_elem_of_fmap in Hx as (i&->&_). unfold u16. by apply wrap_range. }
  apply list_elem_of_bind in Hin as (s&Hin&Hs'). apply list_elem_of_fmap in Hin as (t&->&Ht').
  split; [|done]. pose proof (Htypes _ _ Hs Hst Hs'). pose proof (Htypes _ _ Ht Htt Ht'). unfold key_wf. cbn. lia.
Qed.

(** what is made of the rules seen so far *)
Lemma expanded_app p l l' : expanded p (l ++ l') = expanded p l ++ expanded p l'.
Proof. apply bind_app. Qed.

Lemma expanded_nil_table a h t : avtab_wf a t → concat t = [] → expands [] a h.
Proof. intros Hwf Hc. exists t. rewrite Hc. split_and!; [done|apply content_nil|constructor..]. Qed.

Lemma conflict_free_key E k d l1 k' l2 rest keys :
  conflict_free (E ++ ((λ k, (k, d)) <$> keys) ++ rest) → keys = l1 ++ k' :: l2 →
  av_kind k' = false → k' ∉ (E ++ ((λ k, (k, d)) <$> l1)).*1.
Proof.
  intros Hcf -> Hk. apply (Hcf _ k' d (((λ k, (k, d)) <$> l2) ++ rest)); [|done].
  by rewrite fmap_app, fmap_cons, <- !app_assoc.
Qed.

(** the body of the walk, whatever it fills *)
Lemma expand_rule_wp {A} p (ins : avtab_key → avtab_datum → A → CM (Z * A)) (P : list (avtab_key * avtab_datum) → A → heap → Prop) nd E rest args h :
  rule_ok p (key nd) → conflict_free (E ++ expanded p [nd] ++ rest) → P E args h →
  (∀ E k d args h, P E args h → key_wf k → one_kind k → (av_kind k = false → k ∉ E.*1) →
    wp (ins k d args) (λ '(rc, args') h', mem_step h h' (rc = 0) ∧ (rc = 0 → P (E ++ [(k, d)]) args' h')) h) →
  wp (expand_node p ins (key nd) (datum nd) args) (λ '(rc, args') h', mem_step h h' (rc = 0) ∧
    (rc = 0 → P (E ++ expanded p [nd]) args' h')) h.
Proof.
  intros Hok Hcf HP Hins. pose proof Hok as (_&_&Hs&Ht).
  assert (expanded p [nd] = (λ k, (k, datum nd)) <$> expanded_keys p (key nd)) as Hexp.
  { unfold expanded. cbn. by rewrite app_nil_r. }
  rewrite Hexp in *.
  apply (expand_node_wp p ins (λ l args h', mem_step h h' True ∧ P (E ++ ((λ k, (k, datum nd)) <$> l)) args h')); [done|done| | |].
  - split; [by apply mem_step_refl|]. by rewrite app_nil_r.
  - intros k' l1 l2 args1 h1 Hl [Hm1 HP1]. destruct (expanded_key_ok p (key nd) k' Hok) as [Hkw Hk1].
    { rewrite Hl, elem_of_app. right. by left. }
    eapply wp_mono; [apply (Hins _ k' (datum nd) args1 h1 HP1 Hkw Hk1)|].
    { intros Hav. by eapply conflict_free_key. }
    intros [rc args2] h2 [Hm2 H2]. split.
    + intros ->. split; [mem|]. rewrite fmap_app, app_assoc. by apply H2.
    + intros Hrc rc' Hrc'. split; [|done]. intros Ho. destruct (Hm1 Ho) as [Ho1 _]. by destruct (Hm2 Ho1).
  - intros args1 h1 [Hm1 HP1]. split; [mem|done].
Qed.

(** with memory, [expand_avtab] makes a table of the rules of single types *)
Lemma expand_avtab_wp p a t expa h :
  table_of a t → Forall (rule_ok p) (key <$> concat t) → conflict_free (expanded p (concat t)) →
  wp (expand_avtab p a expa) (λ '(rc, expa') h', mem_step h h' (rc = 0) ∧
    (rc = 0 → h_next h ≤ h_next h' ∧ expands (expanded p (concat t)) expa' h')) h.
Proof.
  intros Ht Hrules Hcf. unfold expand_avtab. apply wp_bind. eapply wp_mono; [apply avtab_alloc_wp; by vm_compute|].
  intros [rc0 expa0] h0 [Hm0 Hr0]. destruct Hr0 as [(->&(t0&Hwf0&Hc0)&_&Hn0)|[-> _]]; cycle 1.
  { change (truth (-1)) with true. apply wp_ret. split; [|done]. intros Ho. by destruct (Hm0 Ho). }
  change (truth 0) with false. cbv iota.
  apply (avtab_map_wp a t _ (λ l expa h', mem_step h h' True ∧ h_next h ≤ h_next h' ∧ expands (expanded p l) expa h')); [done| | |].
  - split; [mem|]. split; [done|by eapply expanded_nil_table].
  - intros nd l1 l2 expa1 h1 Hl [Hm1 H1].
    assert (rule_ok p (key nd)) as Hok.
    { rewrite Forall_forall in Hrules. apply Hrules. rewrite Hl, fmap_app, fmap_cons, elem_of_app. right. by left. }
    eapply wp_mono; [apply (expand_rule_wp p expand_avtab_insert (λ E expa h', h_next h ≤ h_next h' ∧ expands E expa h') nd (expanded p l1) (expanded p l2)); [done| |done|]|].
    + rewrite Hl in Hcf. change (nd :: l2) with ([nd] ++ l2) in Hcf. by rewrite !expanded_app in Hcf.
    + intros E k d args h' [Hn HE] Hk H1k Hav. eapply wp_mono; [by apply expand_avtab_insert_wp|].
      intros [rc args'] h2 [? H2]. split; [done|]. intros Hrc. destruct (H2 Hrc). split; [lia|done].
    + intros [rc expa2] h2 [Hm2 H2]. destruct (truth rc) eqn:Et.
      * apply truth_true in Et. split; [|done]. intros Ho. destruct (Hm1 Ho) as [Ho1 _]. by destruct (Hm2 Ho1).
      * apply truth_false in Et. split; [mem|]. rewrite expanded_app. by apply H2.
  - intros expa1 h1 [Hm1 H1]. split; [mem|done].
Qed.

(** the same for the list of a conditional *)
Lemma expand_cond_av_list_wp p l nds expa h :
  Forall2 (λ x nd, av_find (te_cond_avtab p) x = Some nd) l nds → Forall (rule_ok p) (key <$> nds) →
  conflict_free (expanded p nds) →
  wp (expand_cond_av_list p l expa) (λ '(rc, newl, expa') h', mem_step h h' (rc = 0) ∧
    (rc = 0 → h_next h ≤ h_next h' ∧ ∃ l', newl = Some l' ∧ expands (expanded p nds) expa' h' ∧ lists l' expa')) h.
Proof.
  intros Hl Hrules Hcf. unfold expand_cond_av_list. apply wp_bind. eapply wp_mono; [apply avtab_alloc_wp; by vm_compute|].
  intros [rc0 expa0] h0 [Hm0 Hr0]. destruct Hr0 as [(->&(t0&Hwf0&Hc0)&_&Hn0)|[-> _]]; cycle 1.
  { change (truth (-1)) with true. apply wp_ret. split; [|done]. intros Ho. by destruct (Hm0 Ho). }
  change (truth 0) with false. cbv iota. apply wp_bind.
  apply (wp_for_list_prefix (λ l1 '(newl, expa) h', mem_step h h' True ∧ h_next h ≤ h_next h' ∧
    expands (expanded p (take (length l1) nds)) expa h' ∧ lists newl expa)).
  - split; [mem|]. split; [done|]. split; [by eapply expanded_nil_table|]. exists t0. split; [by apply av_table|by rewrite Hc0].
  - intros x l1 l2 [newl expa1] h1 -> (Hm1&Hn1'&H1&Hlists1).
    apply Forall2_app_inv_l in Hl as (n1&n2&Hn1&(nd&n2'&Hnd&_&->)%Forall2_cons_inv_l&->).
    eapply wp_bind, wp_deref; [done|]. pose proof (Forall2_length _ _ _ Hn1) as Hlen.
    rewrite Hlen, take_app_length in H1.
    assert (rule_ok p (key nd)) as Hok.
    { rewrite Forall_forall in Hrules. apply Hrules. rewrite fmap_app, fmap_cons, elem_of_app. right. by left. }
    apply wp_bind. eapply wp_mono; [apply (expand_rule_wp p expand_cond_insert (λ E '(l, a) h', h_next h ≤ h_next h' ∧ expands E a h' ∧ lists l a) nd (expanded p n1) (expanded p n2')); [done| |done|]|].
    + change (nd :: n2') with ([nd] ++ n2') in Hcf. by rewrite !expanded_app in Hcf.
    + intros E k d [l' a'] h' (Hn&HE&HL) Hk H1k Hav. eapply wp_mono; [by apply (expand_cond_insert_wp E)|].
      intros [rc [l3 a3]] h3 [? H3]. split; [done|]. intros Hrc. destruct (H3 Hrc) as (?&?&?). split_and!; [lia|done|done].
    + intros [rc [l' a']] h2 [Hm2 H2]. apply wp_ret. destruct (truth rc) eqn:Et.
      * apply truth_true in Et. apply wp_ret. split; [|done]. intros Ho. destruct (Hm1 Ho) as [Ho1 _]. by destruct (Hm2 Ho1).
      * apply truth_false in Et. split; [mem|]. rewrite length_app, Hlen. cbn [length].
        replace (length n1 + 1)%nat with (length (n1 ++ [nd])) by (by rewrite length_app).
        change (nd :: n2') with ([nd] ++ n2'). rewrite app_assoc, take_app_length, expanded_app. by apply H2.
  - intros [newl expa1] h1 (Hm1&Hn1&H1&Hlists1). apply wp_ret. split; [mem|]. intros _. split; [done|]. exists newl.
    pose proof (Forall2_length _ _ _ Hl) as Hlen. rewrite Hlen, take_ge in H1 by done. done.
Qed.
End tables.

(** ** Property *)

(** C14: with memory, [expand_avtab] makes a well-formed table whose keys are
    those of single types that the rules stand for; for a key, the access
    vector has the bits of some rule for it (of all of them, for what is not to
    be audited), the type is that of a rule, and when all rules are switched
    the same way each key has one node. *)
Theorem expand_avtab_correct `{Target} p a t expa h :
  table_of a t → Forall (rule_ok p) (key <$> concat t) → conflict_free (expanded p (concat t)) →
  wp (expand_avtab p a expa) (λ '(rc, expa') _, (mem_ok h → rc = 0) ∧
    (rc = 0 → ∃ t', avtab_wf expa' t' ∧ content (expanded p (concat t)) (concat t'))) h.
Proof.
  intros Ht Hr Hc. eapply wp_mono; [by apply expand_avtab_wp|]. intros [rc expa'] h' [Hm He]. split.
  - intros Ho. by destruct (Hm Ho).
  - intros Hrc. destruct (He Hrc) as (_&t'&?&?&_). by exists t'.
Qed.

Lemma NoDup_conflict_free l : NoDup l.*1 → conflict_free l.
Proof.
  intros Hnd l1 k d l2 -> _. rewrite fmap_app, fmap_cons in Hnd. apply NoDup_app in Hnd as (_&Hd&_).
  intros Hin. apply (Hd k Hin). by left.
Qed.

(** ** An example *)

Module ExampleExpand.
(** attribute domain has user_t; allow domain file_t : process { transition } *)
Definition type (v flavor : Z) : type_datum := TypeDatum v 1 flavor (Ebitmap [] 0) 0 0.
Definition rule : avtab_node := AvNode 10 (AvKey 3 2 2 AVTAB_ALLOWED) (AvDatum 2) 0 0.
Definition slots : list (list avtab_node) := [[rule]; []].
Definition rules : avtab := Avtab (Some slots) 1 2 1.
Definition perms : hashtab string Z := Hashtab [[("transition"%string, 2)]] 1 1.
Definition process : class_datum := ClassDatum 2 None None (Symtab (Some perms) 1) [] [] 0 0 0 0.
Definition policy : policydb :=
  Policydb 0 30 1 (Symtab None 2) (Symtab None 2) (Symtab None 5) (Symtab None 1) empty_symtab
    (Symtab (Some ExampleMls.levels) 2) (Symtab (Some ExampleMls.cats) 3)
    [Some "s0"%string; Some "s1"%string] [Some "c0"%string; Some "c1"%string; Some "c2"%string]
    [Some "file"%string; Some "process"%string] [Some "object_r"%string; Some "user_r"%string]
    [Some "user_t"%string; Some "file_t"%string; Some "domain"%string] [Some "user_u"%string] [None; Some process]
    [Some (ExampleSec.role 1); Some (ExampleSec.role 2)] [Some ExampleMls.user]
    [Some (type 1 TYPE_TYPE); Some (type 2 TYPE_TYPE); Some (type 3 TYPE_ATTRIB)] rules Example.table [] [] [] [] [] []
    [ExampleSec.attr 5; ExampleSec.attr 2; ExampleSec.attr 4] (Ebitmap [] 0)
    [ExampleSec.attr 1; ExampleSec.attr 2; ExampleSec.attr 1] (replicate OCON_NUM []) [].

Lemma te_rules_wf : avtab_wf rules slots.
Proof.
  split; [done|done| | |done].
  - intros [|[|i]] c Hc; simplify_eq/=; repeat constructor.
  - intros [|[|i]] c nd Hc Hin; simplify_eq/=; [|by apply elem_of_nil in Hin].
    by apply list_elem_of_singleton in Hin as ->.
Qed.
Lemma type_ok_ex v : v = 1 ∨ v = 2 ∨ v = 3 → type_ok policy v.
Proof.
  intros [->|[->| ->]]; (eexists; split; [done|]); try done. intros _. exists (ExampleSec.attr 1).
  split_and!; [done|by apply ExampleSec.attr_wf|]. intros i Hi. by apply list_elem_of_singleton in Hi as ->.
Qed.
Lemma te_rules : Forall (rule_ok policy) (key <$> concat slots).
Proof.
  repeat constructor; cbn; try done; [|by apply type_ok_ex; right; right|by apply type_ok_ex; right; left].
  exists 0. by vm_compute.
Qed.
Lemma cond_rules : Forall (rule_ok policy) (key <$> concat Example.slots).
Proof.
  repeat constructor; cbn; try done; try (apply type_ok_ex; lia); [exists 0|exists 4]; by vm_compute.
Qed.
Lemma te_free : conflict_free (expanded policy (concat slots)).
Proof. apply NoDup_conflict_free. apply (bool_decide_unpack _). by vm_compute. Qed.
Lemma cond_free : conflict_free (expanded policy (concat Example.slots)).
Proof. apply NoDup_conflict_free. apply (bool_decide_unpack _). by vm_compute. Qed.
End ExampleExpand.

(** witness of C14 *)
Lemma expand_avtab_correct_witness :
  let E := [(AvKey 1 2 2 AVTAB_ALLOWED, AvDatum 2)] in
  wp (@expand_avtab target_arm ExampleExpand.policy ExampleExpand.rules empty_avtab) (λ '(rc, expa') _,
    (mem_ok fresh_heap → rc = 0) ∧ (rc = 0 → ∃ t', avtab_wf expa' t' ∧ content E (concat t'))) fresh_heap.
Proof.
  apply (@expand_avtab_correct target_arm ExampleExpand.policy ExampleExpand.rules ExampleExpand.slots);
    [left; apply ExampleExpand.te_rules_wf|apply ExampleExpand.te_rules|apply ExampleExpand.te_free].
Defined.
