(* ===== verification/Assertion.v ===== *)
(** * Assertions ([assertion.c])

    A neverallow rule says that no rule may allow some permissions.
    [check_assertions] expands the rules of the policy, those of conditionals
    included, and looks for one that does. *)

From S2P Require Import Prelude Ebitmap Context Policydb Avtab AvtabIO CondList Mls Constraint Services ExpandAvtab.

Definition AVRULE_NEVERALLOW : Z := 128.
Definition RULE_SELF : Z := 1.

(** ** Operations *)

Section operations.
Context `{Target}.

(** the loop over the rules of a key: one of them has a permission of [perms] *)
Definition violating (nodes : list avtab_node) (perms : Z) : bool :=
  existsb (λ nd, truth (Z.land (data (datum nd)) perms)) nodes.
Definition check_assertion_helper (te_avtab te_cond_avtab : avtab) (stype ttype : Z) (perm : list class_perm_node) : CM Z :=
  r ← for_list perm (λ curperm (_ : unit),
        let avkey := AvKey (u16 (stype + 1)) (u16 (ttype + 1)) (u16 (cp_class curperm)) AVTAB_ALLOWED in
        nodes ← avtab_search_all te_avtab avkey;
        if violating nodes (cp_data curperm) then mret (inl (-1)) else
        nodes ← avtab_search_all te_cond_avtab avkey;
        mret (if violating nodes (cp_data curperm) then inl (-1) else inr ())) ();
  mret (match r with inl rc => rc | inr _ => 0 end).

(** the loop over the target types; [inl] leaves the function *)
Definition check_targets (te_avtab te_cond_avtab : avtab) (a : avrule) (i : Z) : CM (Z + unit) :=
  r ← ebitmap_for_each_bit (ts_types (avr_ttypes a)) (λ bit j (_ : unit),
        if bit then
          rc ← check_assertion_helper te_avtab te_cond_avtab i j (avr_perms a);
          mret (if truth rc then inl (-1) else inr ())
        else mret (inr ())) ();
  mret (match r with inl rc => inl rc | inr _ => inr () end).
Definition check_assertion (te_avtab te_cond_avtab : avtab) (a : avrule) : CM (Z + unit) :=
  if negb (truth (Z.land (avr_specified a) AVRULE_NEVERALLOW)) then mret (inr ()) else
  r ← ebitmap_for_each_bit (ts_types (avr_stypes a)) (λ bit i (_ : unit),
        if bit then
          rc ← (if truth (Z.land (avr_flags a) RULE_SELF)
                then check_assertion_helper te_avtab te_cond_avtab i i (avr_perms a) else mret 0);
          if truth rc then mret (inl (-1)) else check_targets te_avtab te_cond_avtab a i
        else mret (inr ())) ();
  mret (match r with inl rc => inl rc | inr _ => inr () end).
(** the tables hold [te0] and [cond0] before they are initialised *)
Definition check_assertions (p : policydb) (avrules : list avrule) (te0 cond0 : avtab) : CM Z :=
  match avrules with
  | [] => mret 0
  | _ =>
      let te0 := (avtab_init te0).2 in
      let cond0 := (avtab_init cond0).2 in
      '(rc, te) ← expand_avtab p (te_avtab p) te0;
      if truth rc then mret (-1) else
      '(rc, cond) ← expand_avtab p (te_cond_avtab p) cond0;
      if truth rc then mret (-1) else
      r ← for_list avrules (λ a (_ : unit), check_assertion te cond a) ();
      mret (match r with inl rc => rc | inr _ => 0 end)
  end.
End operations.

(** ** Meaning *)

(** some rule of the table gives the permission to two types *)
Definition allows_pair (p : policydb) (t : list (list avtab_node)) (stype ttype tclass b : Z) : Prop :=
  ∃ nd, nd ∈ concat t ∧ without_enabled (specified (key nd)) = AVTAB_ALLOWED ∧
    stype ∈ types_of p (source_type (key nd)) ∧ ttype ∈ types_of p (target_type (key nd)) ∧
    target_class (key nd) = tclass ∧ Z.testbit (data (datum nd)) b = true.
(** what a neverallow rule forbids *)
Definition forbids (a : avrule) (stype ttype tclass b : Z) : Prop :=
  truth (Z.land (avr_specified a) AVRULE_NEVERALLOW) = true ∧
  ∃ i j cp, stype = i + 1 ∧ ttype = j + 1 ∧ i ∈ ebitmap_bits (ts_types (avr_stypes a)) ∧
    (j ∈ ebitmap_bits (ts_types (avr_ttypes a)) ∨ truth (Z.land (avr_flags a) RULE_SELF) = true ∧ j = i) ∧
    cp ∈ avr_perms a ∧ tclass = cp_class cp ∧ Z.testbit (cp_data cp) b = true.
(** types and classes of 16 bits *)
Definition assertion_ok (a : avrule) : Prop :=
  ebitmap_wf (ts_types (avr_stypes a)) ∧ ebitmap_wf (ts_types (avr_ttypes a)) ∧
  (∀ i, i ∈ ebitmap_bits (ts_types (avr_stypes a)) → 0 ≤ i < 2 ^ 16 - 1) ∧
  (∀ i, i ∈ ebitmap_bits (ts_types (avr_ttypes a)) → 0 ≤ i < 2 ^ 16 - 1) ∧
  Forall (λ cp, 0 ≤ cp_class cp < 2 ^ 16 ∧ 0 ≤ cp_data cp) (avr_perms a).
(** the rules of both tables can be expanded *)
Record rules_wf (p : policydb) (t ct : list (list avtab_node)) : Prop := {
  rw_te : table_of (te_avtab p) t;
  rw_cond : table_of (te_cond_avtab p) ct;
  rw_te_rules : Forall (rule_ok p) (key <$> concat t);
  rw_cond_rules : Forall (rule_ok p) (key <$> concat ct);
  rw_te_free : conflict_free (expanded p (concat t));
  rw_cond_free : conflict_free (expanded p (concat ct))
}.

Section theory.
Context `{Target} (p : policydb).
Implicit Types (t ct : list (list avtab_node)) (a : avrule) (h : heap).

Lemma truth_land x y : 0 ≤ y → truth (Z.land x y) = true ↔ ∃ b, Z.testbit x b = true ∧ Z.testbit y b = true.
Proof.
  intros Hy. rewrite truth_true. split.
  - intros Hne. destruct (nonzero_bit (Z.land x y)) as (b&_&Hb).
    { assert (0 ≤ Z.land x y) by (apply Z.land_nonneg; by right). lia. }
    rewrite Z.land_spec in Hb. apply andb_true_iff in Hb. by exists b.
  - intros (b&Hx&Hy') Hz. pose proof (Z.land_spec x y b) as Hs. by rewrite Hz, Z.bits_0, Hx, Hy' in Hs.
Qed.

(** ** One search *)

Lemma elem_of_expanded nds k d : (k, d) ∈ expanded p nds ↔ ∃ nd, nd ∈ nds ∧ d = datum nd ∧ k ∈ expanded_keys p (key nd).
Proof.
  unfold expanded. rewrite list_elem_of_bind. split.
  - intros (nd&Hin&Hnd). apply list_elem_of_fmap in Hin as (k'&[= -> ->]&Hk). by exists nd.
  - intros (nd&Hnd&->&Hk). exists nd. split; [|done]. apply list_elem_of_fmap. by exists k.
Qed.

Lemma expanded_keys_elem k s u c : ∀ k', k' ∈ expanded_keys p k ∧ source_type k' = s ∧ target_type k' = u ∧ target_class k' = c ↔
  k' = AvKey s u c (specified k) ∧ s ∈ types_of p (source_type k) ∧ u ∈ types_of p (target_type k) ∧ target_class k = c.
Proof.
  intros k'. unfold expanded_keys. rewrite list_elem_of_bind. setoid_rewrite list_elem_of_fmap. split.
  - intros [(s'&(x&->&Hx)&Hs) (<-&<-&<-)]. done.
  - intros (->&Hs&Ht&<-). split; [|done]. exists s. split; [by exists u|done].
Qed.

(** what the search of an expanded table says of the rules it was made of *)
Lemma search_expanded t (a' : avtab) h s u c perms :
  holds (expanded p (concat t)) a' → Forall (rule_ok p) (key <$> concat t) →
  0 ≤ s < 2 ^ 16 → 0 ≤ u < 2 ^ 16 → 0 ≤ c < 2 ^ 16 → 0 ≤ perms →
  wp (avtab_search_all a' (AvKey s u c AVTAB_ALLOWED)) (λ nodes h', h' = h ∧
    (violating nodes perms = true ↔ ∃ b, Z.testbit perms b = true ∧ allows_pair p t s u c b)) h.
Proof.
  intros (t2&Hwf&Hc&H1) Hrules Hs Ht Hcl Hp. set (k0 := AvKey s u c AVTAB_ALLOWED).
  assert (key_wf k0) as Hk0 by (unfold key_wf; cbn; unfold AVTAB_ALLOWED; lia).
  assert (one_kind k0) as Hone0 by (exists 0; by vm_compute).
  eapply wp_mono; [apply (avtab_search_all_wp a' t2 k0); done|]. intros nodes h' [-> ->]. split; [done|].
  unfold violating. rewrite existsb_exists. setoid_rewrite <- list_elem_of_In. split.
  - intros (nd&[Hm Hin]%list_elem_of_filter&(b&Hb1&Hb2)%truth_land); [|done]. exists b. split; [done|].
    unfold key_matches in Hm. apply andb_true_iff in Hm as [(E1&E2&E3)%same_triple_eq Hkind].
    assert (one_kind (key nd)) as Hone by (rewrite Forall_fmap, Forall_forall in H1; by apply H1).
    apply one_kind_matches in Hkind; [|done..]. change (without_enabled (specified k0)) with AVTAB_ALLOWED in Hkind.
    assert (or_kind (key nd) = true) as Hor by (unfold or_kind; by rewrite <- Hkind).
    assert (some_node (key nd) b (concat t2) = true) as Hsome by (apply some_rule_true; by exists nd).
    rewrite (co_or _ _ Hc) in Hsome by done. apply some_rule_true in Hsome as ([k d]&Hin'&Hk&Hb). cbn in Hk, Hb. subst k.
    apply elem_of_expanded in Hin' as (nd0&Hnd0&->&Hk).
    destruct (proj1 (expanded_keys_elem (key nd0) s u c (key nd))) as (Heq&Hs0&Ht0&Hc0); [by split_and!|].
    exists nd0. split_and!; try done. by rewrite Heq in Hkind.
  - intros (b&Hb&nd0&Hnd0&Hkind&Hs0&Ht0&Hc0&Hd). set (k := AvKey s u c (specified (key nd0))).
    assert (k ∈ expanded_keys p (key nd0)) as Hk by by apply (expanded_keys_elem (key nd0) s u c k).
    assert ((k, datum nd0) ∈ expanded p (concat t)) as HE by (apply elem_of_expanded; by exists nd0).
    assert (or_kind k = true) as Hor by (unfold or_kind; cbn; by rewrite Hkind).
    assert (some_entry k b (expanded p (concat t)) = true) as Hsome by (apply some_rule_true; by exists (k, datum nd0)).
    rewrite <- (co_or _ _ Hc) in Hsome by done. apply some_rule_true in Hsome as (nd&Hnd&Hkey&Hb').
    exists nd. split; [|apply truth_land; [done|by exists b]]. apply list_elem_of_filter. split; [|done]. rewrite Hkey.
    unfold key_matches, same_triple. cbn. rewrite !Z.eqb_refl. cbn.
    assert (Z.testbit (specified (key nd0)) 0 = true) as Hbit.
    { apply (f_equal (λ x, Z.testbit x 0)) in Hkind. unfold without_enabled in Hkind. rewrite Z.land_spec in Hkind.
      by apply andb_true_iff in Hkind as [? _]. }
    change (without_enabled AVTAB_ALLOWED) with (Z.shiftl 1 0). by rewrite Z.land_comm, truth_land_bit.
Qed.

(** ** The loops *)

Section check.
Context (t ct : list (list avtab_node)) (te cond : avtab).

(** both tables hold the rules of the policy *)
Definition both_expanded : Prop := holds (expanded p (concat t)) te ∧ holds (expanded p (concat ct)) cond.
Definition allowed (s u c b : Z) : Prop := allows_pair p t s u c b ∨ allows_pair p ct s u c b.
Context (Hte : Forall (rule_ok p) (key <$> concat t)) (Hct : Forall (rule_ok p) (key <$> concat ct)).

(** [ret] is an error exactly when one of the things seen is bad *)
Definition judged (h : heap) (bad : Prop) (ret : Z) h' : Prop := h' = h ∧ (ret = 0 ∧ ¬ bad ∨ ret = -1 ∧ bad).
Definition judged_step (h : heap) (bad : Prop) (r : Z + unit) h' : Prop :=
  match r with inl ret => h' = h ∧ ret = -1 ∧ bad | inr _ => h' = h ∧ ¬ bad end.

Lemma check_assertion_helper_wp i j perms h :
  both_expanded → 0 ≤ i < 2 ^ 16 - 1 → 0 ≤ j < 2 ^ 16 - 1 → Forall (λ cp, 0 ≤ cp_class cp < 2 ^ 16 ∧ 0 ≤ cp_data cp) perms →
  wp (check_assertion_helper te cond i j perms)
    (judged h (∃ cp b, cp ∈ perms ∧ Z.testbit (cp_data cp) b = true ∧ allowed (i + 1) (j + 1) (cp_class cp) b)) h.
Proof.
  intros [H1 H2] Hi Hj Hperms. unfold check_assertion_helper. apply wp_bind.
  apply (wp_for_list_prefix (λ l _ h', h' = h ∧ ¬ ∃ cp b, cp ∈ l ∧ Z.testbit (cp_data cp) b = true ∧ allowed (i + 1) (j + 1) (cp_class cp) b)).
  - split; [done|]. intros (cp&b&Hin&_). by apply elem_of_nil in Hin.
  - intros cp l1 l2 [] h' -> [-> Hno]. apply Forall_app in Hperms as [_ [[Hc Hd] _]%Forall_cons].
    unfold u16. rewrite !wrap_id by lia. apply wp_bind. eapply wp_mono; [by apply (search_expanded t); try done; lia|].
    intros nodes h' [-> Hv]. destruct (violating nodes (cp_data cp)).
    { destruct (proj1 Hv eq_refl) as (b&Hb&Ha). apply wp_ret, wp_ret. split; [done|right]. split; [done|].
      exists cp, b. split_and!; [set_solver|done|by left]. }
    apply wp_bind. eapply wp_mono; [by apply (search_expanded ct); try done; lia|].
    intros nodes' h' [-> Hv']. apply wp_ret. destruct (violating nodes' (cp_data cp)).
    { destruct (proj1 Hv' eq_refl) as (b&Hb&Ha). apply wp_ret. split; [done|right]. split; [done|].
      exists cp, b. split_and!; [set_solver|done|by right]. }
    split; [done|]. intros (cp'&b&[Hin|Hin%list_elem_of_singleton]%elem_of_app&Hb&Ha); [apply Hno; by exists cp', b|].
    subst cp'. destruct Ha as [Ha|Ha]; [by discriminate (proj2 Hv (ex_intro _ b (conj Hb Ha)))|by discriminate (proj2 Hv' (ex_intro _ b (conj Hb Ha)))].
  - intros [] h' [-> Hno]. apply wp_ret. split; [done|by left].
Qed.

(** a loop over a bitmap whose body judges *)
Lemma judged_loop (e : ebitmap) (bad : Z → Prop) (body : Z → CM (Z + unit)) h :
  ebitmap_wf e → (∀ i, i ∈ ebitmap_bits e → wp (body i) (judged_step h (bad i)) h) →
  wp (r ← ebitmap_for_each_bit e (λ bit i (_ : unit), if bit then body i else mret (inr ())) ();
      mret (match r with inl rc => inl rc | inr _ => inr () end))
    (judged_step h (∃ i, i ∈ ebitmap_bits e ∧ bad i)) h.
Proof.
  intros He Hbody. apply wp_bind.
  apply (wp_ebitmap_for_each_member (λ l _ h', h' = h ∧ ¬ ∃ i, i ∈ l ∧ bad i)); [done|by intros i []| | |].
  - split; [done|]. intros (i&Hin&_). by apply elem_of_nil in Hin.
  - intros i l1 l2 [] h' Hl [-> Hno]. eapply wp_mono; [apply Hbody; rewrite Hl; set_solver|].
    intros [ret|[]] h'; [intros (->&->&Hb); apply wp_ret; split; [done|]; split; [done|]|intros [-> Hb]].
    + exists i. split; [rewrite Hl; set_solver|done].
    + split; [done|]. intros (i'&[Hin|Hin%list_elem_of_singleton]%elem_of_app&Hbad); [apply Hno; by exists i'|]. by subst.
  - intros [] h' [-> Hno]. by apply wp_ret.
Qed.
Lemma judged_truth m bad h :
  wp m (judged h bad) h → wp (rc ← m; mret (if truth rc then inl (-1) else inr ())) (judged_step h bad) h.
Proof.
  intros Hm. apply wp_bind. eapply wp_mono; [exact Hm|]. intros rc h' [-> [[-> Hb]|[-> Hb]]]; by apply wp_ret.
Qed.
Lemma judged_step_iff h bad bad' r h' : (bad ↔ bad') → judged_step h bad r h' → judged_step h bad' r h'.
Proof. intros Hb. destruct r; naive_solver. Qed.

Lemma check_assertion_wp a h :
  both_expanded → assertion_ok a →
  wp (check_assertion te cond a) (judged_step h (∃ s u c b, forbids a s u c b ∧ allowed s u c b)) h.
Proof.
  intros Hboth (Hs&Ht&Hsr&Htr&Hperms). unfold check_assertion.
  destruct (truth (Z.land (avr_specified a) AVRULE_NEVERALLOW)) eqn:En; cbn [negb]; cycle 1.
  { apply wp_ret. split; [done|]. intros (s&u&c&b&[Hf _]&_). congruence. }
  set (bad i j := ∃ cp b, cp ∈ avr_perms a ∧ Z.testbit (cp_data cp) b = true ∧ allowed (i + 1) (j + 1) (cp_class cp) b).
  set (self := truth (Z.land (avr_flags a) RULE_SELF)).
  eapply wp_mono; [apply (judged_loop _ (λ i, self = true ∧ bad i i ∨ ∃ j, j ∈ ebitmap_bits (ts_types (avr_ttypes a)) ∧ bad i j)); [done|]|].
  - intros i Hi. specialize (Hsr i Hi). apply wp_bind.
    assert (wp (if self then check_assertion_helper te cond i i (avr_perms a) else mret 0) (judged h (self = true ∧ bad i i)) h) as Hself.
    { destruct self; [|apply wp_ret; split; [done|left; by split; [|intros [? _]]]].
      eapply wp_mono; [by apply check_assertion_helper_wp|]. intros rc h' [-> Hr]. split; [done|]. unfold bad. naive_solver. }
    eapply wp_mono; [exact Hself|]. intros rc h' [-> [[-> Hno]|[-> Hbad]]]; cycle 1.
    { apply wp_ret. split; [done|]. split; [done|by left]. }
    change (truth 0) with false. cbv iota. eapply wp_mono.
    { apply (judged_loop _ (bad i)); [done|]. intros j Hj. by apply judged_truth, check_assertion_helper_wp; [done| |apply Htr|]. }
    intros r h'. apply judged_step_iff. naive_solver.
  - intros r h'. apply judged_step_iff. unfold forbids. rewrite En. unfold bad. split.
    + intros (i&Hi&[(Hself&cp&b&Hcp&Hb&Ha)|(j&Hj&cp&b&Hcp&Hb&Ha)]);
        (do 4 eexists; split; [|exact Ha]; split; [done|]).
      * exists i, i, cp. by split_and!; try done; right.
      * exists i, j, cp. by split_and!; try done; left.
    + intros (s&u&c&b&(_&i&j&cp&->&->&Hi&Hj&Hcp&->&Hb)&Ha). exists i. split; [done|]. destruct Hj as [Hj|[Hself ->]].
      * right. exists j. split; [done|]. by exists cp, b.
      * left. split; [done|]. by exists cp, b.
Qed.
End check.

(** no assertion is violated *)
Definition all_kept t ct (avrules : list avrule) : Prop :=
  ∀ a s u c b, a ∈ avrules → forbids a s u c b → ¬ allows_pair p t s u c b ∧ ¬ allows_pair p ct s u c b.

Lemma check_assertions_wp t ct avrules te0 cond0 h :
  rules_wf p t ct → Forall assertion_ok avrules →
  wp (check_assertions p avrules te0 cond0) (λ rc h', mem_step h h' True ∧ (rc = 0 ∨ rc = -1) ∧
    (rc = 0 → all_kept t ct avrules) ∧ (mem_ok h → all_kept t ct avrules → rc = 0)) h.
Proof.
  intros [Ht Hct Hr Hcr Hf Hcf] Hok. unfold check_assertions. destruct avrules as [|a0 l0] eqn:Ea.
  { apply wp_ret. split_and!; [mem|by left|intros _ a s u c b Ha; by apply elem_of_nil in Ha|done]. }
  rewrite <- Ea in *. clear Ea a0 l0. assert (Hbad : ∀ h1, mem_step h h1 False →
    wp (mret (-1)) (λ rc h', mem_step h h' True ∧ (rc = 0 ∨ rc = -1) ∧
      (rc = 0 → all_kept t ct avrules) ∧ (mem_ok h → all_kept t ct avrules → rc = 0)) h1).
  { intros h1 Hm. apply wp_ret. split_and!; [mem|by right|done|]. intros Ho. by destruct (Hm Ho). }
  apply wp_bind. eapply wp_mono; [by apply expand_avtab_wp|]. intros [rc1 te] h1 [Hm1 H1].
  destruct (truth rc1) eqn:E1; [apply truth_true in E1; apply Hbad; intros Ho; by destruct (Hm1 Ho)|].
  apply truth_false in E1. specialize (H1 E1).
  apply wp_bind. eapply wp_mono; [by apply (expand_avtab_wp p (te_cond_avtab p) ct)|]. intros [rc2 cond] h2 [Hm2 H2].
  destruct (truth rc2) eqn:E2; [apply truth_true in E2; apply Hbad; intros Ho; destruct (Hm1 Ho) as [Ho1 _]; by destruct (Hm2 Ho1)|].
  apply truth_false in E2. specialize (H2 E2). assert (mem_step h h2 True) as Hm by mem.
  destruct H1 as [_ H1%expands_holds], H2 as [_ H2%expands_holds]. apply wp_bind.
  apply (wp_for_list_prefix (λ l _ h', h' = h2 ∧ ¬ ∃ a s u c b, a ∈ l ∧ forbids a s u c b ∧ allowed t ct s u c b)).
  - split; [done|]. intros (a&s&u&c&b&Ha&_). by apply elem_of_nil in Ha.
  - intros a l1 l2 [] h' Hl [-> Hno]. assert (assertion_ok a) as Hoka by (rewrite Forall_forall in Hok; apply Hok; rewrite Hl; set_solver).
    eapply wp_mono; [by apply (check_assertion_wp t ct te cond)|].
    intros [ret|[]] h' ; [intros (->&->&s&u&c&b&Hfb&Hal); apply wp_ret|intros [-> Hno']; split; [done|]].
    + split_and!; [done|by right|done|]. intros _ Hkept. destruct (Hkept a s u c b) as [N1 N2]; [rewrite Hl; set_solver|done|].
      destruct Hal; [by destruct N1|by destruct N2].
    + intros (a'&s&u&c&b&[Ha|Ha%list_elem_of_singleton]%elem_of_app&Hfb&Hal); [apply Hno; by exists a', s, u, c, b|subst a'; apply Hno'; by exists s, u, c, b].
  - intros [] h' [-> Hno]. apply wp_ret. split_and!; [done|by left| |done]. intros _ a s u c b Ha Hfb.
    split; intros Hal; apply Hno; exists a, s, u, c, b; (split_and!; [done|done|]); [by left|by right].
Qed.

(** ** Decisions *)

(** the map from types to attributes says what the attributes say *)
Definition attrs_of (s : Z) (e : ebitmap) : Prop := ∀ i, i ∈ ebitmap_bits e → s ∈ types_of p (u16 (i + 1)).

(** what type enforcement gives is given by a rule for the two types *)
Lemma some_pair_allows t ct s u c b se ue :
  Forall (rule_ok p) (key <$> concat t) → Forall (rule_ok p) (key <$> concat ct) → attrs_of s se → attrs_of u ue →
  some_pair se ue (pair_allows t ct c b) = true → allowed t ct s u c b.
Proof.
  intros Ht Hct Hs Hu Hp. unfold some_pair in Hp. apply existsb_exists in Hp as (i&Hi%list_elem_of_In&Hp).
  apply existsb_exists in Hp as (j&Hj%list_elem_of_In&Hp).
  assert (Hrule : ∀ (l : list (list avtab_node)) nd, Forall (rule_ok p) (key <$> concat l) → nd ∈ rules_for l c i j →
    Z.testbit (specified (key nd)) 0 = true → Z.testbit (data (datum nd)) b = true → allows_pair p l s u c b).
  { intros l nd Hl Hin Hbit Hb. unfold rules_for in Hin. apply list_elem_of_filter in Hin as [Hm Hin].
    unfold key_matches in Hm. apply andb_true_iff in Hm as [(E1&E2&E3)%same_triple_eq _]. cbn in E1, E2, E3.
    rewrite Forall_fmap, Forall_forall in Hl. destruct (Hl nd Hin) as (_&Hone&_). exists nd.
    split_and!; [done|by apply kind_of_bit|rewrite <- E1; by apply Hs|rewrite <- E2; by apply Hu|done|done]. }
  unfold pair_allows in Hp. apply orb_true_iff in Hp as [Hp|Hp]; apply existsb_exists in Hp as (nd&Hin%list_elem_of_In&Hg);
    [left|right]; unfold gives, active_gives, active in Hg; rewrite !andb_true_iff in Hg.
  - destruct Hg as [Hk Hb]. apply Z.eqb_eq in Hk. apply (Hrule t nd); [done..|by rewrite Hk|done].
  - destruct Hg as [[_ Hk] Hb]. by apply (Hrule ct nd).
Qed.
End theory.

(** ** Properties *)

(** [check_assertions] accepts a policy only if no rule of it, conditional
    rules included, allows a permission that a neverallow rule forbids for the
    two types, attributes counting as the types they have; with memory it
    accepts every such policy. *)
Theorem check_assertions_correct `{Target} p t ct avrules te0 cond0 h :
  rules_wf p t ct → Forall assertion_ok avrules →
  let kept := ∀ a s u c b, a ∈ avrules → forbids a s u c b → ¬ allows_pair p t s u c b ∧ ¬ allows_pair p ct s u c b in
  wp (check_assertions p avrules te0 cond0) (λ rc _,
    (rc = 0 ∨ rc = -1) ∧ (rc = 0 → kept) ∧ (mem_ok h → kept → rc = 0)) h.
Proof. intros Hwf Hok kept. eapply wp_mono; [by apply (check_assertions_wp p t ct)|]. by intros rc h' (_&?&?&?). Qed.

(** C5: in a policy that [check_assertions] has accepted, no decision allows
    what a neverallow rule forbids, whatever conditional rules are switched
    on. *)
Theorem check_assertions_secure `{Target} p t ct avrules te0 cond0 a b st sc tc tclass requested avd0 reason0 cd sattr tattr val h :
  rules_wf p t ct → Forall assertion_ok avrules → a ∈ avrules → forbids a (c_type sc) (c_type tc) tclass b → perm b →
  mem_ok h → decision_wf p t ct sc tc tclass cd sattr tattr → 0 ≤ requested < 2 ^ 32 →
  (∀ c, c ∈ class_constraints cd → ∃ d, denotes p sc tc None (cn_expr c) (val c) d ∧ (d ≤ 5)%nat) →
  attrs_of p (c_type sc) sattr → attrs_of p (c_type tc) tattr →
  wp (rc ← check_assertions p avrules te0 cond0;
      '(_, avd, _, _, _) ← context_struct_compute_av p st sc tc tclass requested avd0 reason0 None 0;
      mret (rc, avd))
    (λ '(rc, avd) _, rc = 0 → Z.testbit (av_allowed avd) b = false) h.
Proof.
  intros Hwf Hok Ha Hf Hb Ho Hdec Hreq Hcs Hsa Hta. apply wp_bind. eapply wp_mono; [by apply (check_assertions_wp p t ct)|].
  intros rc h1 (Hm&_&Hkept&_). destruct (Hm Ho) as [Ho1 _]. apply wp_bind.
  eapply wp_mono; [by apply (compute_av_allowed p t ct) with (val := val)|].
  intros [[[[rc' avd] ?] ?] ?] h2 (_&_&Hall). apply wp_ret. intros Hrc. rewrite (Hall b Hb).
  destruct (some_pair sattr tattr (pair_allows t ct tclass b)) eqn:E; [|done]. exfalso.
  destruct (Hkept Hrc a _ _ _ _ Ha Hf) as [N1 N2]. destruct Hwf.
  by destruct (some_pair_allows p t ct (c_type sc) (c_type tc) tclass b sattr tattr).
Qed.

(** ** An example *)

Module ExampleNever.
(** neverallow user_t { file_t self } : process { fork } *)
Definition never : avrule :=
  AvRule AVRULE_NEVERALLOW RULE_SELF (TypeSet (ExampleSec.attr 1) (Ebitmap [] 0) 0)
    (TypeSet (ExampleSec.attr 2) (Ebitmap [] 0) 0) [ClassPerm 2 1] 5.
Definition entered : context_struct := Context 1 2 2 (MlsRange ExampleMls.s0 ExampleMls.s1).

Lemma policy_rules : rules_wf ExampleExpand.policy ExampleExpand.slots Example.slots.
Proof.
  split; [left; apply ExampleExpand.te_rules_wf|left; apply Example.table_wf|apply ExampleExpand.te_rules|
    apply ExampleExpand.cond_rules|apply ExampleExpand.te_free|apply ExampleExpand.cond_free].
Qed.
Lemma never_ok : assertion_ok never.
Proof.
  split_and!; [by apply ExampleSec.attr_wf|by apply ExampleSec.attr_wf|..].
  - intros i Hi. by apply list_elem_of_singleton in Hi as ->.
  - intros i Hi. by apply list_elem_of_singleton in Hi as ->.
  - by repeat constructor.
Qed.
Lemma never_forbids : forbids never 1 2 2 0.
Proof.
  split; [done|]. exists 0, 1, (ClassPerm 2 1). split_and!; [done|done|by left|by left; left|by left|done|done].
Qed.
Lemma never_decision : decision_wf ExampleExpand.policy ExampleExpand.slots Example.slots ExampleSec.user_con entered 2
  ExampleExpand.process (ExampleSec.attr 5) (ExampleSec.attr 2).
Proof.
  split; [|done| |done|apply ExampleExpand.te_rules_wf|apply Example.table_wf| |]; [| |split; [done|by apply ExampleSec.attr_wf]..].
  - destruct ExampleSec.meaning as [H1 _ H3]. split; [exact H1|split; [apply ExampleMls.s0_wf|apply ExampleMls.s1_wf]|exact H3].
  - split; [by eexists|]. exists ExampleExpand.process. split_and!; [done|done|]. intros name v Hin.
    unfold perm_entries in Hin. cbn in Hin. by apply list_elem_of_singleton in Hin as [= -> _].
Qed.
End ExampleNever.

(** witness of [check_assertions_correct] *)
Lemma check_assertions_correct_witness :
  wp (@check_assertions target_arm ExampleExpand.policy [ExampleNever.never] empty_avtab empty_avtab) (λ rc _,
    (rc = 0 ∨ rc = -1) ∧
    (rc = 0 → ∀ a s u c b, a ∈ [ExampleNever.never] → forbids a s u c b →
       ¬ allows_pair ExampleExpand.policy ExampleExpand.slots s u c b ∧ ¬ allows_pair ExampleExpand.policy Example.slots s u c b) ∧
    (mem_ok fresh_heap → (∀ a s u c b, a ∈ [ExampleNever.never] → forbids a s u c b →
       ¬ allows_pair ExampleExpand.policy ExampleExpand.slots s u c b ∧ ¬ allows_pair ExampleExpand.policy Example.slots s u c b) →
       rc = 0)) fresh_heap.
Proof.
  apply (@check_assertions_correct target_arm ExampleExpand.policy ExampleExpand.slots Example.slots [ExampleNever.never]);
    [apply ExampleNever.policy_rules|constructor; [apply ExampleNever.never_ok|constructor]].
Defined.

(** witness of C5 *)
Lemma check_assertions_secure_witness :
  wp (rc ← @check_assertions target_arm ExampleExpand.policy [ExampleNever.never] empty_avtab empty_avtab;
      '(_, avd, _, _, _) ← @context_struct_compute_av target_arm ExampleExpand.policy (SecState "" 0 []) ExampleSec.user_con
         ExampleNever.entered 2 1 (AvDecision 0 0 0 0 0) 0 None 0;
      mret (rc, avd)) (λ '(rc, avd) _, rc = 0 → Z.testbit (av_allowed avd) 0 = false) fresh_heap.
Proof.
  apply (@check_assertions_secure target_arm ExampleExpand.policy ExampleExpand.slots Example.slots [ExampleNever.never]
    empty_avtab empty_avtab ExampleNever.never 0 (SecState "" 0 []) ExampleSec.user_con ExampleNever.entered 2 1
    (AvDecision 0 0 0 0 0) 0 ExampleExpand.process (ExampleSec.attr 5) (ExampleSec.attr 2) (λ _, true)).
  - apply ExampleNever.policy_rules.
  - constructor; [apply ExampleNever.never_ok|constructor].
  - by left.
  - apply ExampleNever.never_forbids.
  - done.
  - constructor.
  - apply ExampleNever.never_decision.
  - done.
  - intros c Hc. by apply elem_of_nil in Hc.
  - intros i Hi. change (ebitmap_bits _) with [0; 2] in Hi.
    repeat (apply elem_of_cons in Hi as [-> |Hi]; [by left|]). by apply elem_of_nil in Hi.
  - intros i Hi. apply list_elem_of_singleton in Hi as ->. by left.
Defined.
