(* ===== verification/Hierarchy.v ===== *)
(** * Hierarchies ([hierarchy.c])

    A type, role or user can be bounded by another, its parent: the one it
    names, or the one whose name is its own up to the last dot.  A child may not
    have more than its parent: types of a role, roles of a user, and, for a type,
    the permissions of the rules, those of conditionals in each of their
    branches. *)

From S2P Require Import Prelude Hashtab Symtab Ebitmap Context Policydb Avtab AvtabIO CondList Constraint Services ExpandAvtab.
From Stdlib Require Import Ascii.

(** ** Operations *)

Definition dot : ascii := "."%char.
(** [strrchr(name, '.')]: the text up to the last dot *)
Fixpoint before_dot (name : string) : option string :=
  match name with
  | EmptyString => None
  | String c s =>
      match before_dot s with
      | Some pre => Some (String c pre)
      | None => if Ascii.eqb c dot then Some EmptyString else None
      end
  end.

(** [hierarchy_args] without the policy, the handle and the count of errors,
    which is threaded: the expanded table and the optional list, whose nodes
    are in a table of their own ([[]] is [NULL]) *)
Record hierarchy_args := HierarchyArgs { ha_expa : avtab; ha_cond : avtab; opt_cond_list : list Z }.

Section operations.
Context `{Target}.

(** [find_parent_template]: the code and [*parent], for a datum with its
    [bounds] and [value] *)
Definition find_parent {D} (structs : list (option D)) (names : list (option string)) (tbl : option (hashtab string D))
    (bounds value : Z) : CM (Z * option D) :=
  if truth bounds then
    parent ← deref (at_index structs bounds); mret (0, parent)
  else
    datum_name ← deref (at_val names value);
    match before_dot datum_name with
    | None => mret (0, None)
    | Some parent_name =>
        tmp ← malloc;
        match tmp with
        | None => mret (-1, None)
        | Some _ =>
            parent ← hashtab_search tbl parent_name;
            mret (match parent with None => (-1, None) | Some _ => (0, parent) end)
        end
    end.
Definition find_parent_type (p : policydb) (t : type_datum) : CM (Z * option type_datum) :=
  find_parent (type_val_to_struct p) (p_type_val_to_name p) (table (p_types p)) (type_bounds t) (type_value t).
Definition find_parent_role (p : policydb) (r : role_datum) : CM (Z * option role_datum) :=
  find_parent (role_val_to_struct p) (p_role_val_to_name p) (table (p_roles p)) (role_bounds r) (role_value r).
Definition find_parent_user (p : policydb) (u : user_datum) : CM (Z * option user_datum) :=
  find_parent (user_val_to_struct p) (p_user_val_to_name p) (table (p_users p)) (user_bounds u) (user_value u).

Definition compute_avtab_datum (args : hierarchy_args) (key : avtab_key) : CM Z :=
  avdatp ← avtab_search (ha_expa args) key;
  let av := match avdatp with Some d => data d | None => 0 end in
  if bool_decide (opt_cond_list args = []) then mret av else
  avdatp ← cond_av_list_search (ha_cond args) key (opt_cond_list args);
  mret (match avdatp with Some d => Z.lor av (data d) | None => av end).

(** the callbacks take and return the count of errors *)
Definition check_type_hierarchy_callback (p : policydb) (t : type_datum) (numerr : Z) : CM (Z * Z) :=
  if type_flavor t =? TYPE_ATTRIB then mret (0, numerr) else
  '(rc, tp) ← find_parent_type p t;
  if rc <? 0 then mret (-1, numerr) else
  mret (match tp with
        | Some tp => if type_flavor tp =? TYPE_ATTRIB then (-1, i32 (numerr + 1)) else (0, numerr)
        | None => (0, numerr)
        end).

(** [(av & d) == d] for the rule of two types *)
Definition grants_all (args : hierarchy_args) (k : avtab_key) (d stype ttype : Z) : CM bool :=
  av ← compute_avtab_datum args (AvKey stype ttype (target_class k) AVTAB_ALLOWED);
  mret (Z.land av d =? d).
Definition check_avtab_hierarchy_callback (p : policydb) (args : hierarchy_args) (k : avtab_key) (d : Z) (numerr : Z)
    : CM (Z * Z) :=
  if negb (truth (Z.land (specified k) AVTAB_ALLOWED)) then mret (0, numerr) else
  s ← deref (at_val (type_val_to_struct p) (source_type k));
  '(rc, t1) ← find_parent_type p s;
  if rc <? 0 then mret (-1, numerr) else
  ok ← match t1 with Some t1 => grants_all args k d (u16 (type_value t1)) (target_type k) | None => mret false end;
  if (ok : bool) then mret (0, numerr) else
  s ← deref (at_val (type_val_to_struct p) (target_type k));
  '(rc, t2) ← find_parent_type p s;
  if rc <? 0 then mret (-1, numerr) else
  ok ← match t2 with Some t2 => grants_all args k d (source_type k) (u16 (type_value t2)) | None => mret false end;
  if (ok : bool) then mret (0, numerr) else
  ok ← match t1, t2 with
       | Some t1, Some t2 => grants_all args k d (u16 (type_value t1)) (u16 (type_value t2))
       | _, _ => mret false
       end;
  if (ok : bool) then mret (0, numerr) else
  mret (match t1, t2 with None, None => (0, numerr) | _, _ => (0, i32 (numerr + 1)) end).

(** one rule of the true branch: what both branches give becomes unconditional *)
Definition pullup_rule (expa_false expa : avtab) (nd : avtab_node) : CM (Z * avtab) :=
  avdatp ← avtab_search expa_false (key nd);
  match avdatp with
  | None => mret (0, expa)
  | Some d =>
      let avdat := Z.land (data (datum nd)) (data d) in
      if negb (truth avdat) then mret (0, expa) else
      avnode ← avtab_search_node expa (key nd);
      match avnode with
      | nd' :: _ => mret (0, av_update expa (av_addr nd') (λ nd', with_datum nd' (AvDatum (Z.lor (data (datum nd')) avdat))))
      | [] => avtab_insert expa (key nd) (AvDatum avdat)
      end
  end.
(** [expa_true] and [expa_false] hold what was on the stack before *)
Fixpoint pullup_unconditional_perms (p : policydb) (cl : list cond_node) (junk_true junk_false expa : avtab) : CM (Z * avtab) :=
  match cl with
  | [] => mret (0, expa)
  | cur_node :: next =>
      '(rc, expl_true, expa_true) ← expand_cond_av_list p (true_list cur_node) (avtab_init junk_true).2;
      if truth rc then mret (1, expa) else
      '(rc, expl_false, expa_false) ← expand_cond_av_list p (false_list cur_node) (avtab_init junk_false).2;
      if truth rc then mret (1, expa) else
      expl_true ← deref expl_true;
      r ← for_list expl_true (λ a expa,
            nd ← deref (av_find expa_true a);
            '(rc, expa) ← pullup_rule expa_false expa nd;
            mret (if truth rc then inl expa else inr expa)) expa;
      match r with
      | inl expa => mret (1, expa)
      | inr expa => pullup_unconditional_perms p next (avtab_destroy expa_true) (avtab_destroy expa_false) expa
      end
  end.

(** one branch of a conditional; the code is 1 when it cannot be expanded *)
Definition check_cond_branch (p : policydb) (expa0 : avtab) (l : list Z) (junk : avtab) (numerr : Z) : CM (Z * avtab * Z) :=
  '(rc, expl, expa) ← expand_cond_av_list p l (avtab_init junk).2;
  if truth rc then mret (1, expa, numerr) else
  expl ← deref expl;
  let args := HierarchyArgs expa0 expa expl in
  r ← for_list (R := unit) expl (λ a numerr,
        nd ← deref (av_find expa a);
        uncond ← avtab_search expa0 (key nd);
        let avdat := match uncond with Some u => Z.lor (data (datum nd)) (data u) | None => data (datum nd) end in
        '(rc, numerr) ← check_avtab_hierarchy_callback p args (key nd) avdat numerr;
        mret (inr (if truth rc then i32 (numerr + 1) else numerr))) numerr;
  mret (0, avtab_destroy expa, match r with inr n => n | inl _ => numerr end).
Fixpoint check_cond_avtab_hierarchy (p : policydb) (cl : list cond_node) (expa0 junk : avtab) (numerr : Z) : CM (Z * Z) :=
  match cl with
  | [] => mret (0, numerr)
  | cur_node :: next =>
      '(rc, junk, numerr) ← check_cond_branch p expa0 (true_list cur_node) junk numerr;
      if truth rc then mret (1, numerr) else
      '(rc, junk, numerr) ← check_cond_branch p expa0 (false_list cur_node) junk numerr;
      if truth rc then mret (1, numerr) else
      check_cond_avtab_hierarchy p next expa0 junk numerr
  end.

Definition check_role_hierarchy_callback (p : policydb) (r : role_datum) (numerr : Z) : CM (Z * Z) :=
  '(rc, rp) ← find_parent_role p r;
  if rc <? 0 then mret (-1, numerr) else
  mret (match rp with
        | Some rp =>
            if truth (ebitmap_contains (ts_types (role_types rp)) (ts_types (role_types r)))
            then (0, numerr) else (0, i32 (numerr + 1))
        | None => (0, numerr)
        end).
Definition check_user_hierarchy_callback (p : policydb) (u : user_datum) (numerr : Z) : CM (Z * Z) :=
  '(rc, up) ← find_parent_user p u;
  if rc <? 0 then mret (-1, numerr) else
  mret (match up with
        | Some up =>
            if truth (ebitmap_contains (rs_roles (user_roles up)) (rs_roles (user_roles u)))
            then (0, numerr) else (0, i32 (numerr + 1))
        | None => (0, numerr)
        end).

(** the local tables hold [junk] before they are initialised *)
Definition hierarchy_check_constraints (p : policydb) (junk : avtab) : CM Z :=
  '(rc, expa) ← expand_avtab p (te_avtab p) (avtab_init junk).2;
  if truth rc then mret (-1) else
  '(rc, numerr) ← hashtab_map (table (p_types p)) (λ _ t numerr, check_type_hierarchy_callback p t numerr) 0;
  if truth rc then mret (-1) else
  '(rc, expa) ← pullup_unconditional_perms p (cond_list p) junk junk expa;
  if truth rc then mret (-1) else
  '(rc, numerr) ← avtab_map expa
    (λ k d numerr, check_avtab_hierarchy_callback p (HierarchyArgs expa empty_avtab []) k (data d) numerr) numerr;
  if truth rc then mret (-1) else
  '(rc, numerr) ← check_cond_avtab_hierarchy p (cond_list p) expa junk numerr;
  if truth rc then mret (-1) else
  '(rc, numerr) ← hashtab_map (table (p_roles p)) (λ _ r numerr, check_role_hierarchy_callback p r numerr) numerr;
  if truth rc then mret (-1) else
  '(rc, numerr) ← hashtab_map (table (p_users p)) (λ _ u numerr, check_user_hierarchy_callback p u numerr) numerr;
  if truth rc then mret (-1) else
  mret (if truth numerr then -1 else 0).
End operations.

(** ** Access vectors of rules

    The rules of a list as one finite map from types and class to the access
    vector allowed. *)

Definition is_allow (k : avtab_key) : bool := without_enabled (specified k) =? AVTAB_ALLOWED.
(** [rule] allows something for [x] *)
Definition allows_at (x : Z * Z * Z) (rule : avtab_key * avtab_datum) : Prop := is_allow rule.1 = true ∧ triple_of rule.1 = x.
Fixpoint allow_map (E : list (avtab_key * avtab_datum)) : gmap (Z * Z * Z) Z :=
  match E with
  | [] => ∅
  | (k, d) :: E =>
      if is_allow k then <[triple_of k := Z.lor (data d) (default 0 (allow_map E !! triple_of k))]> (allow_map E)
      else allow_map E
  end.

Section vectors.
Implicit Types (E : list (avtab_key * avtab_datum)) (x : Z * Z * Z) (M : gmap (Z * Z * Z) Z).

Lemma exists_cons {A} (P : A → Prop) (y : A) l : (∃ e, e ∈ y :: l ∧ P e) ↔ P y ∨ ∃ e, e ∈ l ∧ P e.
Proof. setoid_rewrite elem_of_cons. naive_solver. Qed.

Lemma allow_map_is_Some E x : is_Some (allow_map E !! x) ↔ ∃ e, e ∈ E ∧ allows_at x e.
Proof.
  induction E as [|[k d] E IH]; cbn [allow_map].
  - rewrite lookup_empty. split; [by intros []|]. intros (e&He&_). by apply elem_of_nil in He.
  - rewrite exists_cons. unfold allows_at at 1. cbn [fst]. destruct (is_allow k) eqn:Ek.
    + rewrite lookup_insert_is_Some', IH. intuition.
    + rewrite IH. intuition congruence.
Qed.
Lemma allow_map_bit E x b :
  Z.testbit (default 0 (allow_map E !! x)) b = true ↔ ∃ e, e ∈ E ∧ allows_at x e ∧ Z.testbit (data e.2) b = true.
Proof.
  induction E as [|[k d] E IH]; cbn [allow_map].
  - rewrite lookup_empty, Z.testbit_0_l. split; [done|]. intros (e&He&_). by apply elem_of_nil in He.
  - rewrite exists_cons. unfold allows_at at 1. cbn [fst snd]. destruct (is_allow k) eqn:Ek; [|rewrite IH; intuition congruence].
    rewrite lookup_insert. case_decide as Hx; [|rewrite IH; intuition congruence].
    cbn. rewrite Z.lor_spec, orb_true_iff, Hx, IH. intuition.
Qed.
Lemma vectors_eq M M' :
  (∀ x, is_Some (M !! x) ↔ is_Some (M' !! x)) →
  (∀ x b, Z.testbit (default 0 (M !! x)) b = true ↔ Z.testbit (default 0 (M' !! x)) b = true) → M = M'.
Proof.
  intros Hs Hb. apply map_eq. intros x. specialize (Hs x).
  assert (default 0 (M !! x) = default 0 (M' !! x)) as He by (apply Z.bits_inj; intros b; apply eq_true_iff_eq, Hb).
  destruct (M !! x), (M' !! x); cbn in He; [by subst| | |done].
  - by destruct (proj1 Hs ltac:(by eexists)).
  - by destruct (proj2 Hs ltac:(by eexists)).
Qed.
Lemma allow_map_ext E E' :
  (∀ x, (∃ e, e ∈ E ∧ allows_at x e) ↔ (∃ e, e ∈ E' ∧ allows_at x e)) →
  (∀ x b, (∃ e, e ∈ E ∧ allows_at x e ∧ Z.testbit (data e.2) b = true) ↔
          (∃ e, e ∈ E' ∧ allows_at x e ∧ Z.testbit (data e.2) b = true)) → allow_map E = allow_map E'.
Proof.
  intros Hs Hb. apply vectors_eq; [intros x|intros x b].
  - rewrite !allow_map_is_Some. by apply Hs.
  - by rewrite !allow_map_bit.
Qed.
#[export] Instance allow_map_proper : Proper (Permutation ==> eq) allow_map.
Proof. intros E E' Hp. apply allow_map_ext; intros x; [|intros b]; by setoid_rewrite Hp. Qed.

(** a rule whose types and class no other rule has *)
Lemma allow_map_cons_fresh E k d :
  is_allow k = true → (∀ e, e ∈ E → ¬ allows_at (triple_of k) e) →
  allow_map ((k, d) :: E) = <[triple_of k := data d]> (allow_map E).
Proof.
  intros Hk Hf. cbn. rewrite Hk. destruct (allow_map E !! triple_of k) eqn:E1; cbn; [|by rewrite Z.lor_0_r].
  destruct (proj1 (allow_map_is_Some E (triple_of k))) as (e&He&Ha); [by eexists|]. by destruct (Hf e He).
Qed.
Lemma allow_map_cons_other E k d : is_allow k = false → allow_map ((k, d) :: E) = allow_map E.
Proof. intros Hk. cbn. by rewrite Hk. Qed.

Lemma allow_map_size_app E E' : (base.size (allow_map E) ≤ base.size (allow_map (E ++ E')))%nat.
Proof.
  apply dom_subseteq_size. intros x. rewrite !elem_of_dom, !allow_map_is_Some. intros (e&He&Ha). exists e. set_solver.
Qed.

Lemma allows_at_id x e : allows_at x e ↔ rule_id e = (x, AVTAB_ALLOWED).
Proof. unfold allows_at, rule_id, is_allow. rewrite Z.eqb_eq. split; [intros [-> ->]|intros [=]]; done. Qed.
Lemma fresh_of_unique E e : NoDup (rule_id <$> e :: E) → is_allow e.1 = true → ∀ e', e' ∈ E → ¬ allows_at (triple_of e.1) e'.
Proof.
  intros [Hn _]%NoDup_cons Hk e' He' Ha. apply Hn. apply list_elem_of_fmap. exists e'. split; [|done].
  rewrite allows_at_id in Ha. rewrite Ha. by apply allows_at_id.
Qed.
Lemma allow_map_unique E e :
  NoDup (rule_id <$> E) → e ∈ E → is_allow e.1 = true → allow_map E !! triple_of e.1 = Some (data e.2).
Proof.
  intros Hn He Hk. apply elem_of_Permutation in He as [E' Hp]. rewrite Hp in Hn |- *.
  destruct e as [k d]. rewrite allow_map_cons_fresh; [by rewrite lookup_insert_eq|done|].
  by apply (fresh_of_unique E' (k, d)).
Qed.

(** rules merged in a table allow the same *)
Lemma content_allow_map E L :
  content E L → Forall (λ nd, key_wf (key nd)) L → allow_map (rule_of <$> L) = allow_map E.
Proof.
  intros Hc Hwf.
  assert (Hor : ∀ k, is_allow k = true → or_kind k = true) by (intros k Hk; unfold or_kind; fold (is_allow k); by rewrite Hk).
  apply allow_map_ext; intros x; [|intros b]; setoid_rewrite list_elem_of_fmap; split.
  - intros (?&(nd&->&Hnd)&Ha). assert (key nd ∈ E.*1) as (e&He&Hin)%list_elem_of_fmap
      by (apply (co_keys _ _ Hc), list_elem_of_fmap_2, Hnd). exists e. split; [done|]. unfold allows_at in *. by rewrite <- He.
  - intros (e&Hin&Ha). assert (e.1 ∈ key <$> L) as (nd&He&Hnd)%list_elem_of_fmap
      by (apply (co_keys _ _ Hc), list_elem_of_fmap_2, Hin). exists (rule_of nd). split; [by exists nd|].
    unfold allows_at in *. cbn. by rewrite <- He.
  - intros (?&(nd&->&Hnd)&Ha&Hb). assert (some_entry (key nd) b E = true) as Hs.
    { rewrite <- (co_or _ _ Hc) by (apply Hor, Ha). apply some_rule_true. by exists nd. }
    apply some_rule_true in Hs as (e&He&Hk&Hb'). exists e. unfold allows_at in *. by rewrite Hk.
  - intros (e&Hin&Ha&Hb). assert (some_node e.1 b L = true) as Hs.
    { rewrite (co_or _ _ Hc) by (apply Hor, Ha). apply some_rule_true. by exists e. }
    apply some_rule_true in Hs as (nd&Hnd&Hk&Hb'). exists (rule_of nd). split; [by exists nd|].
    unfold allows_at in *. cbn. by rewrite Hk.
Qed.
End vectors.

(** ** Meaning *)

(** the union of access vectors *)
Definition join (M M' : gmap (Z * Z * Z) Z) : gmap (Z * Z * Z) Z := union_with (λ a b, Some (Z.lor a b)) M M'.
(** what both branches allow *)
Definition both (a b : Z) : option Z := if Z.land a b =? 0 then None else Some (Z.land a b).
Definition pulled (M M' : gmap (Z * Z * Z) Z) : gmap (Z * Z * Z) Z := intersection_with both M M'.

(** the parent of a type, role or user: [None] for an orphan *)
Definition parent_in {D} (structs : list (option D)) (names : list (option string)) (tbl : option (hashtab string D))
    (bounds value : Z) : option (option D) :=
  if truth bounds then at_index structs bounds
  else match at_val names value ≫= before_dot with
       | None => Some None
       | Some parent_name => Some <$> table_map tbl !! parent_name
       end.

Section meaning.
Context `{Target} (p : policydb).
Implicit Types (s u c d : Z) (M : gmap (Z * Z * Z) Z).

Definition type_parent (t : type_datum) : option (option type_datum) :=
  parent_in (type_val_to_struct p) (p_type_val_to_name p) (table (p_types p)) (type_bounds t) (type_value t).
Definition role_parent (r : role_datum) : option (option role_datum) :=
  parent_in (role_val_to_struct p) (p_role_val_to_name p) (table (p_roles p)) (role_bounds r) (role_value r).
Definition user_parent (u : user_datum) : option (option user_datum) :=
  parent_in (user_val_to_struct p) (p_user_val_to_name p) (table (p_users p)) (user_bounds u) (user_value u).
(** the value of the parent of the type with value [s] *)
Definition parent_value s : option (option Z) :=
  match at_val (type_val_to_struct p) s with
  | Some t => option_map (option_map (λ t, u16 (type_value t))) (type_parent t)
  | None => None
  end.

(** [M] allows all of [d] *)
Definition covers M s u c d : bool := Z.land (default 0 (M !! (s, u, c))) d =? d.
(** a permission of types that have parents is one of the parent with the other
    type, of the type with the other's parent or of both parents; nothing is
    asked of types without parents.  An orphan is in error, if it is reached *)
Definition bounded M s u c d : bool :=
  match parent_value s with
  | None => false
  | Some s' =>
      match s' with Some s' => covers M s' u c d | None => false end ||
      match parent_value u with
      | None => false
      | Some u' =>
          match u' with Some u' => covers M s u' c d | None => false end ||
          match s', u' with
          | Some s', Some u' => covers M s' u' c d
          | None, None => true
          | _, _ => false
          end
      end
  end.
Definition bounded_at M (x : Z * Z * Z) d : bool := bounded M x.1.1 x.1.2 x.2 d.

(** the rules of a branch, and those that always apply: the rules of [t] and
    what both branches of a conditional allow *)
Definition branch_rules (l : list Z) : list (avtab_key * avtab_datum) := expanded p (omap (av_find (te_cond_avtab p)) l).
Definition branch (l : list Z) : gmap (Z * Z * Z) Z := allow_map (branch_rules l).
Definition add_pulled M (cn : cond_node) := join M (pulled (branch (true_list cn)) (branch (false_list cn))).
Definition unconditional (t : list (list avtab_node)) : gmap (Z * Z * Z) Z :=
  foldl add_pulled (allow_map (expanded p (concat t))) (cond_list p).
(** the rules of a branch, with those that always apply *)
Definition branch_bounded M B : Prop := map_Forall (λ x _, bounded_at (join M B) x (default 0 (join M B !! x)) = true) B.

Definition type_bounded (t : type_datum) : Prop :=
  type_flavor t = TYPE_ATTRIB ∨
  match type_parent t with None => False | Some None => True | Some (Some t') => type_flavor t' ≠ TYPE_ATTRIB end.
Definition role_bounded (r : role_datum) : Prop :=
  match role_parent r with
  | None => False
  | Some None => True
  | Some (Some r') => ebitmap_set (ts_types (role_types r)) ⊆ ebitmap_set (ts_types (role_types r'))
  end.
Definition user_bounded (u : user_datum) : Prop :=
  match user_parent u with
  | None => False
  | Some None => True
  | Some (Some u') => ebitmap_set (rs_roles (user_roles u)) ⊆ ebitmap_set (rs_roles (user_roles u'))
  end.

Definition rules_bounded t : Prop :=
  let M := unconditional t in
  map_Forall (λ x d, bounded_at M x d = true) M ∧
  ∀ cn, cn ∈ cond_list p → branch_bounded M (branch (true_list cn)) ∧ branch_bounded M (branch (false_list cn)).
(** no child has more than its parent *)
Definition hierarchical t : Prop :=
  (∀ name ty, (name, ty) ∈ table_entries (table (p_types p)) → type_bounded ty) ∧
  rules_bounded t ∧
  (∀ name r, (name, r) ∈ table_entries (table (p_roles p)) → role_bounded r) ∧
  (∀ name us, (name, us) ∈ table_entries (table (p_users p)) → user_bounded us).

(** *** Hypotheses on a policy *)

(** the parent's place in the array, or the name, is there *)
Definition named {D} (structs : list (option D)) (names : list (option string)) (bounds value : Z) : Prop :=
  if truth bounds then is_Some (at_index structs bounds) else is_Some (at_val names value).
Definition type_named (t : type_datum) : Prop :=
  named (type_val_to_struct p) (p_type_val_to_name p) (type_bounds t) (type_value t).
Definition known s : Prop := ∃ t, at_val (type_val_to_struct p) s = Some t ∧ type_named t.
Definition key_known (k : avtab_key) : Prop := known (source_type k) ∧ known (target_type k).
(** a conditional list: rules of the policy, all of which allow, and are
    switched the same way *)
Record branch_ok (l : list Z) : Prop := {
  bo_nodes : Forall (λ a, is_Some (av_find (te_cond_avtab p) a)) l;
  bo_rules : Forall (rule_ok p) (key <$> omap (av_find (te_cond_avtab p)) l);
  bo_known : Forall key_known (branch_rules l).*1;
  bo_allow : Forall (λ k, is_allow k = true) (branch_rules l).*1;
  bo_uniform : uniform (branch_rules l)
}.
(** the checks that can fail *)
Definition checks t : Z :=
  base.size (unconditional t) +
  foldr Z.add 0 ((λ cn, Z.of_nat (base.size (branch (true_list cn))) + base.size (branch (false_list cn))) <$> cond_list p) +
  length (table_entries (table (p_types p))) + length (table_entries (table (p_roles p))) +
  length (table_entries (table (p_users p))).
Record hierarchy_wf (t : list (list avtab_node)) : Prop := {
  hw_te : table_of (te_avtab p) t;
  hw_rules : Forall (rule_ok p) (key <$> concat t);
  hw_free : conflict_free (expanded p (concat t));
  hw_uniform : uniform (expanded p (concat t));
  hw_known : Forall key_known (expanded p (concat t)).*1;
  hw_branches cn : cn ∈ cond_list p → branch_ok (true_list cn) ∧ branch_ok (false_list cn);
  hw_types : table_ok (table (p_types p)) ∧ ∀ name ty, (name, ty) ∈ table_entries (table (p_types p)) → type_named ty;
  hw_roles : table_ok (table (p_roles p)) ∧ (∀ name r, (name, r) ∈ table_entries (table (p_roles p)) →
    named (role_val_to_struct p) (p_role_val_to_name p) (role_bounds r) (role_value r) ∧ ebitmap_wf (ts_types (role_types r)))
    ∧ Forall (λ r, ∀ r', r = Some r' → ebitmap_wf (ts_types (role_types r'))) (role_val_to_struct p);
  hw_users : table_ok (table (p_users p)) ∧ (∀ name us, (name, us) ∈ table_entries (table (p_users p)) →
    named (user_val_to_struct p) (p_user_val_to_name p) (user_bounds us) (user_value us) ∧ ebitmap_wf (rs_roles (user_roles us)))
    ∧ Forall (λ o, ∀ us, o = Some us → ebitmap_wf (rs_roles (user_roles us))) (user_val_to_struct p);
  hw_count : checks t < 2 ^ 31
}.
End meaning.

Section theory.
Context `{Target} (p : policydb).
Implicit Types (s u c d n : Z) (M B W T F : gmap (Z * Z * Z) Z) (x : Z * Z * Z) (h : heap) (k : avtab_key) (nd : avtab_node).

(** ** Parents *)

Lemma find_parent_wp {D} structs names (tbl : option (hashtab string D)) bounds value h :
  table_ok tbl → named structs names bounds value →
  wp (find_parent structs names tbl bounds value) (λ '(rc, par) h',
    mem_step h h' True ∧ h_next h ≤ h_next h' ∧
    (rc = 0 ∧ parent_in structs names tbl bounds value = Some par ∨
     rc = -1 ∧ (mem_ok h → parent_in structs names tbl bounds value = None))) h.
Proof.
  intros Ht Hn. unfold find_parent, parent_in, named in *. destruct (truth bounds).
  { destruct Hn as [par Hpar]. eapply wp_bind, wp_deref; [done|]. apply wp_ret. split_and!; [mem|lia|by left]. }
  destruct Hn as [name Hname]. eapply wp_bind, wp_deref; [done|]. rewrite Hname. cbn [mbind option_bind].
  destruct (before_dot name) as [pname|]; [|apply wp_ret; split_and!; [mem|lia|by left]].
  apply wp_bind, wp_malloc_addr; intros h1 Hm Hnx; [|apply wp_ret; split_and!; [mem|lia|right; split; [done|]]].
  2: { intros Ho. by destruct (Hm Ho). }
  apply wp_bind. eapply wp_mono; [by apply table_search_wp|]. intros par h2 [-> ->]. apply wp_ret.
  destruct (table_map tbl !! pname); (split_and!; [mem|lia|]); [by left|by right].
Qed.

Context (Htypes : table_ok (table (p_types p))).
Lemma find_parent_type_wp t h : type_named p t →
  wp (find_parent_type p t) (λ '(rc, par) h', mem_step h h' True ∧ h_next h ≤ h_next h' ∧
    (rc = 0 ∧ type_parent p t = Some par ∨ rc = -1 ∧ (mem_ok h → type_parent p t = None))) h.
Proof. intros Ht. by apply find_parent_wp. Qed.

(** ** One rule *)

(** the vectors that [compute_avtab_datum] computes *)
Definition computes args M : Prop := ∀ s u c h, key_wf (AvKey s u c AVTAB_ALLOWED) →
  wp (compute_avtab_datum args (AvKey s u c AVTAB_ALLOWED)) (λ av h', h' = h ∧ av = default 0 (M !! (s, u, c))) h.

Lemma grants_all_wp args M k d s u h :
  computes args M → key_wf (AvKey s u (target_class k) AVTAB_ALLOWED) →
  wp (grants_all args k d s u) (λ ok h', h' = h ∧ ok = covers M s u (target_class k) d) h.
Proof. intros Hc Hk. apply wp_bind. eapply wp_mono; [by apply Hc|]. intros av h' [-> ->]. by apply wp_ret. Qed.

(** a rule is counted when it is not bounded; an orphan, or want of memory, is
    an error *)
Definition judged_rule h (ok : bool) n '((rc, n') : Z * Z) h' : Prop :=
  mem_step h h' True ∧ h_next h ≤ h_next h' ∧
  (rc = 0 ∧ n' = (if ok then n else i32 (n + 1)) ∨ rc = -1 ∧ n' = n ∧ (mem_ok h → ok = false)).

Lemma kind_bit k : key_wf k → one_kind k → truth (Z.land (specified k) AVTAB_ALLOWED) = is_allow k.
Proof.
  intros Hk H1. unfold is_allow. change AVTAB_ALLOWED with (Z.shiftl 1 0). rewrite truth_land_bit by lia.
  apply eq_true_iff_eq. rewrite Z.eqb_eq. split; [intros Hb; by apply kind_of_bit|]. intros Hw.
  apply (f_equal (λ y, Z.testbit y 0)) in Hw. unfold without_enabled in Hw. rewrite Z.land_spec in Hw.
  by apply andb_true_iff in Hw as [? _].
Qed.

Lemma parent_bind {A} s (cont : Z * option type_datum → CM A) (Q : A → heap → Prop) h :
  known p s →
  (∀ rc par h', mem_step h h' True → h_next h ≤ h_next h' →
    (rc = 0 ∧ parent_value p s = Some (option_map (λ t, u16 (type_value t)) par) ∨
     rc = -1 ∧ (mem_ok h → parent_value p s = None)) → wp (cont (rc, par)) Q h') →
  wp (t ← deref (at_val (type_val_to_struct p) s); r ← find_parent_type p t; cont r) Q h.
Proof.
  intros (t&Ht&Hn) Hcont. eapply wp_bind, wp_deref; [done|]. apply wp_bind. eapply wp_mono; [by apply find_parent_type_wp|].
  intros [rc par] h' (Hm&Hle&Hr). apply Hcont; [done..|]. unfold parent_value. rewrite Ht.
  destruct Hr as [[-> ->]|[-> Hr]]; [by left|right]. split; [done|]. intros Ho. by rewrite (Hr Ho).
Qed.
(** one of the three attempts *)
Lemma attempt_bind {A} args M k d s u (cont : bool → CM A) (Q : A → heap → Prop) h :
  computes args M → key_wf (AvKey s u (target_class k) AVTAB_ALLOWED) →
  wp (cont (covers M s u (target_class k) d)) Q h → wp (ok ← grants_all args k d s u; cont ok) Q h.
Proof. intros Hc Hk Hcont. apply wp_bind. eapply wp_mono; [by apply grants_all_wp|]. by intros ok h' [-> ->]. Qed.

Ltac verdict :=
  apply wp_ret; split_and!; [mem|lia|]; unfold bounded;
  repeat match goal with E : parent_value _ _ = _ |- _ => rewrite E end; cbn;
  repeat match goal with E : covers _ _ _ _ _ = _ |- _ => rewrite E end; try by left.
Ltac orphan :=
  apply wp_ret; split_and!; [mem|lia|right]; split_and!; [done..|]; intros Ho; unfold bounded;
  repeat match goal with E : parent_value _ _ = _ |- _ => rewrite E end;
  repeat match goal with E : mem_ok _ → parent_value _ _ = _ |- _ => rewrite E by mem end; cbn;
  repeat match goal with E : covers _ _ _ _ _ = _ |- _ => rewrite E end; done.
Lemma callback_wp args M k d n h :
  computes args M → key_wf k → one_kind k → key_known p k →
  let ok := negb (is_allow k) || bounded p M (source_type k) (target_type k) (target_class k) d in
  wp (check_avtab_hierarchy_callback p args k d n) (judged_rule h ok n) h.
Proof.
  intros Hc Hk H1 [Hs Hu]. unfold check_avtab_hierarchy_callback, judged_rule. rewrite kind_bit by done.
  destruct (is_allow k); cbn [negb orb]; [|apply wp_ret; split_and!; [mem|lia|by left]].
  destruct Hk as (Hks&Hkt&Hkc&_). assert (Hkey : ∀ s u, 0 ≤ s < 2 ^ 16 → 0 ≤ u < 2 ^ 16 → key_wf (AvKey s u (target_class k) AVTAB_ALLOWED))
    by (intros; unfold key_wf, AVTAB_ALLOWED; cbn; lia).
  assert (Hu16 : ∀ z, 0 ≤ u16 z < 2 ^ 16) by (intros; by apply wrap_range).
  apply (parent_bind (source_type k)); [done|]. intros rc t1 h1 Hm1 Hn1 [[-> Hp1]|[-> Hp1]]; cbn [Z.ltb Z.compare]; cycle 1.
  { orphan. }
  destruct t1 as [t1|]; cbn [option_map] in Hp1; [eapply attempt_bind; [done|by auto|]; destruct (covers _ _ _ _ _) eqn:E1|apply wp_bind, wp_ret];
    [verdict|..];
    (apply (parent_bind (target_type k)); [done|]; intros rc t2 h2 Hm2 Hn2 [[-> Hp2]|[-> Hp2]]; cbn [Z.ltb Z.compare];
     [destruct t2 as [t2|]; cbn [option_map] in Hp2|]).
  - eapply attempt_bind; [done|by auto|]. destruct (covers M (source_type k) _ _ _) eqn:E2; [verdict|].
    eapply attempt_bind; [done|by auto|]. destruct (covers M (u16 _) (u16 _) _ _) eqn:E3; verdict.
  - apply wp_bind, wp_ret, wp_bind, wp_ret. verdict.
  - orphan.
  - eapply attempt_bind; [done|by auto|]. destruct (covers _ _ _ _ _) eqn:E2; [verdict|].
    apply wp_bind, wp_ret. verdict.
  - apply wp_bind, wp_ret, wp_bind, wp_ret. verdict.
  - orphan.
Qed.

(** ** Tables *)

(** the nodes are rules of known types that allow [M] *)
Record table_rules M (L : list avtab_node) (next : Z) : Prop := {
  tr_kinds : Forall one_kind (key <$> L);
  tr_known : Forall (key_known p) (key <$> L);
  tr_unique : NoDup (rule_id <$> (rule_of <$> L));
  tr_addrs : NoDup (av_addr <$> L);
  tr_next : Forall (λ y, y < next) (av_addr <$> L);
  tr_map : allow_map (rule_of <$> L) = M
}.
Definition agrees M (a : avtab) h : Prop := ∃ t, avtab_wf a t ∧ table_rules M (concat t) (h_next h).

Lemma agrees_later M a h h' : h_next h ≤ h_next h' → agrees M a h → agrees M a h'.
Proof.
  intros Hle (t&Hwf&[]). exists t. split; [done|]. split; try done. eapply Forall_impl; [done|]. cbn. lia.
Qed.

(** what was expanded *)
Lemma uniform_unique (E : list (avtab_key * avtab_datum)) (L : list avtab_node) :
  content E L → uniform E → Forall (λ nd, key_wf (key nd)) L → NoDup (rule_id <$> (rule_of <$> L)).
Proof.
  intros Hc Hu Hwf. rewrite <- list_fmap_compose.
  change (rule_id ∘ rule_of) with ((λ k, (triple_of k, without_enabled (specified k))) ∘ key). rewrite list_fmap_compose.
  apply NoDup_fmap_2_strong; [|by apply (co_unique _ _ Hc)]. rewrite Forall_forall in Hwf.
  intros k k' Hk Hk' [= Hs Ht Hcl Hw]. assert (enabled_differs k k' = false) as He by by apply Hu; apply (co_keys _ _ Hc).
  apply list_elem_of_fmap in Hk as (nd&->&Hnd). apply list_elem_of_fmap in Hk' as (nd'&->&Hnd').
  pose proof (specified_eq _ _ (Hwf _ Hnd) (Hwf _ Hnd') Hw He). destruct (key nd), (key nd'); cbn in *. by subst.
Qed.
Lemma expands_agrees E a h :
  expands E a h → uniform E → Forall (key_known p) E.*1 → agrees (allow_map E) a h.
Proof.
  intros (t&Hwf&Hc&H1&Hn&Hlt) Hu Hk.
  assert (Hkwf : Forall (λ nd, key_wf (key nd)) (concat t)) by (apply Forall_forall; intros; by eapply table_key_wf).
  exists t. split; [done|]. split; [done| |by eapply uniform_unique|done|done|by apply content_allow_map].
  rewrite Forall_forall in *. intros k Hin. by apply Hk, (co_keys _ _ Hc).
Qed.

(** a search finds what is allowed *)
Definition serves M (a : avtab) : Prop := ∃ t next, avtab_wf a t ∧ table_rules M (concat t) next.
Lemma agrees_serves M a h : agrees M a h → serves M a.
Proof. intros (t&?&?). by exists t, (h_next h). Qed.

Lemma table_search M a t next k h :
  avtab_wf a t → table_rules M (concat t) next → key_wf k → is_allow k = true →
  wp (avtab_search_node a k) (λ cur h', h' = h ∧
    match cur with
    | [] => M !! triple_of k = None ∧ matching k (u16 (without_enabled (specified k))) (concat t) = []
    | nd :: _ => nd ∈ concat t ∧ is_allow (key nd) = true ∧ triple_of (key nd) = triple_of k ∧
                 M !! triple_of k = Some (data (datum nd))
    end) h.
Proof.
  intros Hwf [H1 _ Hu _ _ Hmap] Hk Ha. eapply wp_mono; [by apply avtab_search_node_wp|].
  intros cur h' (->&Hm&Hhd&_&Hin). split; [done|].
  assert (Hspec : u16 (without_enabled (specified k)) = Z.shiftl 1 0).
  { destruct (without_enabled_range (specified k)) as (_&->&_); [apply Hk|]. by apply Z.eqb_eq in Ha. }
  rewrite Hspec in *. rewrite Forall_fmap, Forall_forall in H1.
  assert (Hmatch : ∀ nd, nd ∈ concat t → key_matches k (Z.shiftl 1 0) (key nd) = true ↔ is_allow (key nd) = true ∧ triple_of (key nd) = triple_of k).
  { intros nd Hnd. rewrite <- kind_bit by (by eapply table_key_wf || by apply H1). unfold key_matches, triple_of.
    rewrite andb_true_iff, same_triple_eq, (Z.land_comm (Z.shiftl 1 0)). split; [intros [(->&->&->) ?]|intros [? [= -> -> ->]]]; done. }
  destruct cur as [|nd cur].
  - rewrite filter_nil in Hm. split; [|by rewrite Hm]. apply eq_None_not_Some. rewrite <- Hmap, allow_map_is_Some.
    intros (e&(nd&->&Hnd)%list_elem_of_fmap&Hal). symmetry in Hm. rewrite filter_none in Hm. by apply (Hm nd Hnd), Hmatch.
  - destruct (Hin nd) as [Hnd _]; [by left|]. apply Hmatch in Hhd as [Hal Htr]; [|done]. split_and!; [done..|].
    rewrite <- Hmap, <- Htr. change (key nd) with ((rule_of nd).1). change (datum nd) with ((rule_of nd).2).
    apply allow_map_unique; [done|by apply list_elem_of_fmap_2|done].
Qed.
Lemma serves_search M a k h :
  serves M a → key_wf k → is_allow k = true →
  wp (avtab_search a k) (λ r h', h' = h ∧ data <$> r = M !! triple_of k) h.
Proof.
  intros (t&next&Hwf&Ht) Hk Hal. apply wp_bind. eapply wp_mono; [by apply (table_search M a t next)|]. intros cur h' [-> Hc].
  apply wp_ret. split; [done|]. destruct cur as [|nd cur]; [by destruct Hc as [-> _]|by destruct Hc as (_&_&_&->)].
Qed.

(** a store to an access vector *)
Lemma agrees_update M a t nd f v h :
  avtab_wf a t → table_rules M (concat t) (h_next h) → nd ∈ concat t → is_allow (key nd) = true →
  (∀ nd, av_addr (f nd) = av_addr nd ∧ key (f nd) = key nd) → data (datum (f nd)) = v →
  agrees (<[triple_of (key nd) := v]> M) (av_update a (av_addr nd) f) h.
Proof.
  intros Hwf [H1 Hk Hu Hn Hlt Hmap] Hin Ha Hf Hv. apply list_elem_of_split in Hin as (L1&L2&Ht).
  destruct (av_update_table a t L1 nd L2 f) as (t'&Hwf'&Ht'); [done..|]. exists t'. split; [done|].
  destruct (Hf nd) as [Hfa Hfk].
  assert (Hids : ∀ g, key <$> L1 ++ g :: L2 = (key <$> L1) ++ key g :: (key <$> L2)) by (intros; by rewrite fmap_app).
  rewrite Ht', Ht in *. split.
  - revert H1. by rewrite !Hids, Hfk.
  - revert Hk. by rewrite !Hids, Hfk.
  - revert Hu. rewrite !fmap_app, !fmap_cons. unfold rule_id at 2 5, rule_of at 2 5. cbn. by rewrite Hfk.
  - revert Hn. by rewrite !fmap_app, !fmap_cons, Hfa.
  - revert Hlt. by rewrite !fmap_app, !fmap_cons, Hfa.
  - assert (Hfresh : ∀ e, e ∈ rule_of <$> L1 ++ L2 → ¬ allows_at (triple_of (key nd)) e).
    { apply (fresh_of_unique _ (rule_of nd)); [|done]. by rewrite <- fmap_cons, Permutation_middle. }
    rewrite <- Hmap, <- !Permutation_middle, !fmap_cons. unfold rule_of at 1 3. rewrite Hfk.
    rewrite !allow_map_cons_fresh by done. by rewrite insert_insert_eq, Hv.
Qed.
(** a new rule *)
Lemma agrees_insert M a t k v h :
  avtab_wf a t → table_rules M (concat t) (h_next h) → key_wf k → one_kind k → key_known p k → is_allow k = true →
  M !! triple_of k = None → matching k (u16 (without_enabled (specified k))) (concat t) = [] →
  wp (avtab_insert a k (AvDatum v)) (λ '(rc, a') h', mem_step h h' (rc = 0) ∧
    (rc = 0 → h_next h ≤ h_next h' ∧ agrees (<[triple_of k := v]> M) a' h')) h.
Proof.
  intros Hwf [H1 Hkn Hu Hn Hlt Hmap] Hk Hk1 Hkk Ha Hnone Hm. eapply wp_mono; [by apply avtab_insert_wp|].
  intros [rc a'] h' [Hmem Hr]. rewrite Hm, decide_True in Hr by done.
  destruct Hr as [(x&t'&->&Hwf'&Hp&_&_&->&Hnx)|[-> ->]]; [|split; [intros Ho; by destruct (Hmem Ho)|done]].
  split; [mem|]. intros _. split; [lia|]. exists t'. split; [done|]. rewrite Hnx.
  assert (Hfresh : ∀ e, e ∈ rule_of <$> concat t → ¬ allows_at (triple_of k) e).
  { intros e He Hal. apply (proj1 (eq_None_not_Some (M !! triple_of k)) Hnone). rewrite <- Hmap.
    apply allow_map_is_Some. by exists e. }
  split.
  - by rewrite Hp, fmap_cons, Forall_cons.
  - by rewrite Hp, fmap_cons, Forall_cons.
  - rewrite Hp, !fmap_cons. apply NoDup_cons. split; [|done]. intros (e&He&Hin)%list_elem_of_fmap. apply (Hfresh e Hin).
    apply allows_at_id. rewrite <- He. by apply allows_at_id.
  - rewrite Hp, fmap_cons. cbn. apply NoDup_cons. split; [|done]. intros Hin. rewrite Forall_forall in Hlt. specialize (Hlt _ Hin). lia.
  - rewrite Hp, fmap_cons. apply Forall_cons. split; [cbn; lia|]. eapply Forall_impl; [done|]. cbn. lia.
  - rewrite Hp, fmap_cons. unfold rule_of at 1. cbn [key datum]. rewrite allow_map_cons_fresh by done. by rewrite Hmap.
Qed.

(** ** What both branches allow *)

(** one entry of the true branch *)
Definition pull F x d W : gmap (Z * Z * Z) Z :=
  match F !! x ≫= both d with Some v => <[x := Z.lor (default 0 (W !! x)) v]> W | None => W end.
Lemma pull_insert W T F x d : T !! x = None → pull F x d (join W (pulled T F)) = join W (pulled (<[x := d]> T) F).
Proof.
  intros Hx. apply map_eq. intros y. unfold pull, join, pulled.
  assert (Hun : (union_with (λ a b, Some (Z.lor a b)) W (intersection_with both T F) : gmap _ _) !! x = W !! x)
    by (rewrite lookup_union_with, lookup_intersection_with, Hx; by destruct (W !! x)).
  rewrite Hun, !(lookup_union_with _ W), !lookup_intersection_with. destruct (decide (y = x)) as [->|Hy].
  - rewrite lookup_insert_eq. destruct (F !! x) as [f|]; cbn; [destruct (both d f) as [v|]; cbn|].
    + rewrite lookup_insert_eq. by destruct (W !! x); cbn.
    + by rewrite Hun; destruct (W !! x).
    + by rewrite Hun; destruct (W !! x).
  - rewrite lookup_insert_ne by done. destruct (F !! x) as [f|]; cbn; [destruct (both d f) as [v|]; cbn|];
      rewrite ?lookup_insert_ne by done; by rewrite lookup_union_with, lookup_intersection_with.
Qed.

Lemma pullup_rule_wp W F expa_false expa nd h :
  agrees F expa_false h → agrees W expa h → key_wf (key nd) → one_kind (key nd) → key_known p (key nd) →
  is_allow (key nd) = true →
  wp (pullup_rule expa_false expa nd) (λ '(rc, expa') h', mem_step h h' (rc = 0) ∧
    (rc = 0 → h_next h ≤ h_next h' ∧ agrees (pull F (triple_of (key nd)) (data (datum nd)) W) expa' h')) h.
Proof.
  intros HF HW Hk H1 Hkk Ha. apply wp_bind. eapply wp_mono; [by apply (serves_search F); [by eapply agrees_serves|..]|].
  intros avdatp h' [-> Hd]. unfold pull. rewrite <- Hd. destruct avdatp as [d|]; cbn [fmap option_fmap option_map mbind option_bind];
    [|apply wp_ret; split; [by apply mem_step_refl|by intros _; split; [lia|]]].
  unfold both, truth. rewrite negb_involutive. destruct (_ =? 0); [apply wp_ret; split; [by apply mem_step_refl|by intros _; split; [lia|]]|].
  destruct HW as (t&Hwf&Ht).
  apply wp_bind. eapply wp_mono; [by apply (table_search W expa t (h_next h))|]. intros cur h' [-> Hc]. destruct cur as [|nd' cur].
  - destruct Hc as [Hnone Hm]. rewrite Hnone. cbn [default]. rewrite Z.lor_0_l. by apply (agrees_insert W _ t).
  - destruct Hc as (Hin&Ha'&Htr&Hw). rewrite Hw. cbn [default]. apply wp_ret. split; [by apply mem_step_refl|]. intros _.
    split; [lia|]. rewrite <- Htr. by apply (agrees_update W _ t).
Qed.

(** the nodes that a list of addresses points to *)
Lemma listed_nodes a t l :
  av_htable a = Some t → NoDup (av_addr <$> concat t) → l ≡ₚ av_addr <$> concat t →
  ∃ nds, nds ≡ₚ concat t ∧ Forall2 (λ y nd, av_find a y = Some nd) l nds.
Proof.
  intros Ht Hn (nds&->&Hp)%Permutation_map_inv. exists nds. split; [done|]. apply Forall2_fmap_l, Forall_Forall2_diag.
  apply Forall_forall. intros nd Hnd. rewrite <- Hp in Hnd. cbn. unfold av_find. rewrite Ht. cbn.
  apply list_elem_of_lookup in Hnd as [i Hi]. rewrite (proj2 (list_find_Some _ _ i nd)); [done|].
  split_and!; [done|done|]. intros j y Hj Hlt Hy.
  assert (j = i) by (eapply NoDup_lookup; [exact Hn|rewrite list_lookup_fmap, Hj; cbn; by rewrite Hy|by rewrite list_lookup_fmap, Hi]). lia.
Qed.
(** a loop over the nodes *)
Lemma for_nodes_wp {R S} a (l : list Z) nds (body : avtab_node → S → CM (R + S)) (Inv : list avtab_node → S → heap → Prop)
    (Q : R + S → heap → Prop) st h :
  Forall2 (λ y nd, av_find a y = Some nd) l nds → Inv [] st h →
  (∀ nd l1 l2 st h, nds = l1 ++ nd :: l2 → Inv l1 st h →
    wp (body nd st) (λ r h', match r with inl x => Q (inl x) h' | inr st' => Inv (l1 ++ [nd]) st' h' end) h) →
  (∀ st h, Inv nds st h → Q (inr st) h) →
  wp (for_list l (λ y st, nd ← deref (av_find a y); body nd st) st) Q h.
Proof.
  intros Hl HI Hb HQ.
  apply (wp_for_list_prefix (λ l1 st h, ∀ nds1 nds2, nds = nds1 ++ nds2 → length nds1 = length l1 → Inv nds1 st h)).
  - intros [|] nds2 _ Hlen; [done|discriminate].
  - intros y l1 l2 st1 h1 -> H1. apply Forall2_app_inv_l in Hl as (nds1&nds2'&Hl1&Hl2&->).
    apply Forall2_cons_inv_l in Hl2 as (nd&nds2&Hnd&Hl2&->). pose proof (Forall2_length _ _ _ Hl1) as Hlen.
    eapply wp_bind, wp_deref; [done|]. eapply wp_mono; [apply (Hb nd nds1 nds2); [done|]; by apply (H1 nds1 (nd :: nds2))|].
    intros [r|st'] h'; [done|]. intros HI' ms1 ms2 Hm Hml. rewrite cons_middle, (app_assoc nds1 [nd]) in Hm.
    apply app_inj_1 in Hm as [<- _]; [done|]. rewrite !length_app in *. cbn in *. lia.
  - intros st1 h1 H1. apply HQ. apply (H1 nds []); [by rewrite app_nil_r|]. symmetry. by eapply Forall2_length.
Qed.

(** *** The rules of a branch *)

Record branch_nodes M (nds : list avtab_node) : Prop := {
  bn_rules nd : nd ∈ nds → key_wf (key nd) ∧ one_kind (key nd) ∧ key_known p (key nd) ∧ is_allow (key nd) = true;
  bn_unique : NoDup (rule_id <$> (rule_of <$> nds));
  bn_map : allow_map (rule_of <$> nds) = M
}.
(** the list, the table it points into and their nodes *)
Definition branch_table M (l : list Z) (a : avtab) h nds : Prop :=
  agrees M a h ∧ branch_nodes M nds ∧ Forall2 (λ y nd, av_find a y = Some nd) l nds.

(** each rule is new among those before it *)
Lemma new_rule nds l1 nd l2 :
  NoDup (rule_id <$> (rule_of <$> nds)) → nds = l1 ++ nd :: l2 → is_allow (key nd) = true →
  allow_map (rule_of <$> l1) !! triple_of (key nd) = None ∧
  allow_map (rule_of <$> l1 ++ [nd]) = <[triple_of (key nd) := data (datum nd)]> (allow_map (rule_of <$> l1)).
Proof.
  intros Hu -> Ha.
  assert (Hfresh : ∀ e, e ∈ rule_of <$> l1 → ¬ allows_at (triple_of (key nd)) e).
  { apply (fresh_of_unique _ (rule_of nd)); [|done]. rewrite <- fmap_cons, Permutation_cons_append.
    rewrite cons_middle, app_assoc, fmap_app, fmap_app in Hu. by apply NoDup_app in Hu as [? _]. }
  split.
  - apply eq_None_not_Some. rewrite allow_map_is_Some. intros (e&He&Hal). by apply (Hfresh e).
  - rewrite <- Permutation_cons_append, fmap_cons. by apply allow_map_cons_fresh.
Qed.

Lemma expand_branch_wp l a h :
  branch_ok p l →
  wp (expand_cond_av_list p l a) (λ '(rc, newl, expa) h', mem_step h h' (rc = 0) ∧
    (rc = 0 → h_next h ≤ h_next h' ∧ ∃ l' nds, newl = Some l' ∧ branch_table (branch p l) l' expa h' nds)) h.
Proof.
  intros [Hn Hr Hk Ha Hu]. assert (Hl : Forall2 (λ y nd, av_find (te_cond_avtab p) y = Some nd) l (omap (av_find (te_cond_avtab p)) l)).
  { clear -Hn. induction Hn as [|y l [nd Hnd] _ IH]; cbn; [done|]. rewrite Hnd. by constructor. }
  assert (Hcf : conflict_free (branch_rules p l)).
  { intros l1 k d l2 He Hkind. rewrite Forall_forall in Ha. specialize (Ha k). rewrite He, fmap_app in Ha.
    unfold av_kind in Hkind. fold (is_allow k) in Hkind. rewrite Ha in Hkind by set_solver. done. }
  eapply wp_mono; [by apply expand_cond_av_list_wp|]. intros [[rc newl] expa] h' [Hm Hres]. split; [done|]. intros Hrc.
  destruct (Hres Hrc) as (Hle&l'&->&He&(t&Ht&Hp)). split; [done|].
  destruct (expands_agrees _ _ _ He Hu Hk) as (t'&Hwf&Htr). rewrite (av_table _ _ Hwf) in Ht. injection Ht as <-.
  destruct Htr as [H1 Hkn Hid Hna Hlt Hmap]. destruct (listed_nodes expa t' l') as (nds&Hnp&Hnds); [by apply av_table|done..|].
  exists l', nds. split; [done|]. split; [by exists t'|]. split; [|done]. split; [|by rewrite Hnp|by rewrite Hnp].
  intros nd Hin. rewrite Hnp in Hin. rewrite Forall_fmap, Forall_forall in H1, Hkn. split_and!; [by eapply table_key_wf|by apply H1|by apply Hkn|].
  destruct He as (t2&Hwf2&Hc&_). assert (t2 = t') as -> by (apply av_table in Hwf, Hwf2; congruence).
  rewrite Forall_forall in Ha. apply Ha, (co_keys _ _ Hc), list_elem_of_fmap_2, Hin.
Qed.

(** the rules of the true branch, one after the other *)
Lemma pull_branch_wp W T F l expa_true expa_false expa nds h :
  branch_table T l expa_true h nds → agrees F expa_false h → agrees W expa h →
  wp (for_list l (λ a expa,
        nd ← deref (av_find expa_true a);
        '(rc, expa) ← pullup_rule expa_false expa nd;
        mret (if truth rc then inl expa else inr expa)) expa)
    (λ r h', mem_step h h' (∃ expa', r = inr expa') ∧
      ∀ expa', r = inr expa' → h_next h ≤ h_next h' ∧ agrees (join W (pulled T F)) expa' h') h.
Proof.
  intros (_&Hn&Hl) HF HW.
  apply (for_nodes_wp expa_true l nds _ (λ l1 expa h', mem_step h h' True ∧ h_next h ≤ h_next h' ∧
    agrees (join W (pulled (allow_map (rule_of <$> l1)) F)) expa h')).
  - done.
  - split; [by apply mem_step_refl|]. split; [lia|]. cbn.
    replace (join W (pulled ∅ F)) with W; [done|]. apply map_eq. intros x. unfold join, pulled.
    rewrite lookup_union_with, lookup_intersection_with, lookup_empty. by destruct (W !! x).
  - intros nd l1 l2 expa1 h1 Hnds (Hm&Hle&Hag). destruct (bn_rules _ _ Hn nd) as (Hk&H1&Hkk&Ha); [rewrite Hnds; set_solver|].
    destruct (new_rule _ _ _ _ (bn_unique _ _ Hn) Hnds Ha) as [Hnone Hmap]. apply wp_bind.
    eapply wp_mono; [apply pullup_rule_wp; [by eapply agrees_later|done..]|]. intros [rc expa2] h2 [Hm2 H2].
    apply wp_ret. destruct (truth rc) eqn:Er; [apply truth_true in Er|apply truth_false in Er].
    + split; [|done]. intros Ho. destruct (Hm Ho) as [Ho1 _]. by destruct (Hm2 Ho1).
    + destruct (H2 Er) as [Hle2 Hag2]. split; [mem|]. split; [lia|]. rewrite Hmap. by rewrite <- pull_insert.
  - intros expa1 h1 (Hm&Hle&Hag). split; [intros Ho; destruct (Hm Ho); split; [done|by eexists]|]. intros ? [= <-].
    by rewrite <- (bn_map _ _ Hn).
Qed.

Lemma pullup_unconditional_perms_wp cl jt jf W expa h :
  (∀ cn, cn ∈ cl → branch_ok p (true_list cn) ∧ branch_ok p (false_list cn)) → agrees W expa h →
  wp (pullup_unconditional_perms p cl jt jf expa) (λ '(rc, expa') h', mem_step h h' (rc = 0) ∧
    (rc = 0 → h_next h ≤ h_next h' ∧ agrees (foldl (add_pulled p) W cl) expa' h')) h.
Proof.
  revert jt jf W expa h. induction cl as [|cn cl IH]; intros jt jf W expa h Hcl HW; cbn [pullup_unconditional_perms foldl].
  { apply wp_ret. split; [by apply mem_step_refl|]. by split. }
  destruct (Hcl cn) as [Hbt Hbf]; [by left|].
  apply wp_bind. eapply wp_mono; [by apply expand_branch_wp|]. intros [[rc1 newl1] expa_true] h1 [Hm1 H1].
  destruct (truth rc1) eqn:E1; [apply truth_true in E1; apply wp_ret; split; [mem|done]|].
  apply truth_false in E1. destruct (H1 E1) as (Hle1&l1&nds1&->&Ht).
  apply wp_bind. eapply wp_mono; [by apply expand_branch_wp|]. intros [[rc2 newl2] expa_false] h2 [Hm2 H2].
  destruct (truth rc2) eqn:E2; [apply truth_true in E2; apply wp_ret; split; [mem|done]|].
  apply truth_false in E2. destruct (H2 E2) as (Hle2&l2&nds2&->&Hf&_).
  eapply wp_bind, wp_deref; [done|]. apply wp_bind.
  eapply wp_mono; [apply (pull_branch_wp W (branch p (true_list cn)) (branch p (false_list cn)) _ _ _ _ nds1);
    [destruct Ht as [Hag ?]; split; [by eapply agrees_later|done]|done|eapply agrees_later; [|done]; lia]|].
  intros r h3 [Hm3 H3]. destruct r as [expa3|expa3].
  { apply wp_ret. split; [|done]. intros Ho. destruct (Hm1 Ho) as [Ho1 _], (Hm2 Ho1) as [Ho2 _], (Hm3 Ho2) as [_ [? ?]]. done. }
  destruct (H3 expa3 eq_refl) as [Hle3 Hag3].
  eapply wp_mono; [apply IH; [intros cn' Hin; apply Hcl; by right|done]|].
  intros [rc expa'] h4 [Hm4 H4]. split; [mem|]. intros Hrc. destruct (H4 Hrc) as [Hle4 Hag4]. split; [lia|done].
Qed.

(** ** What is computed for a parent *)

Lemma default_join M B x : default 0 (join M B !! x) = Z.lor (default 0 (M !! x)) (default 0 (B !! x)).
Proof. unfold join. rewrite lookup_union_with. destruct (M !! x), (B !! x); cbn; by rewrite ?Z.lor_0_r. Qed.

(** the first rule for the types and the class is the one that allows *)
Lemma cond_av_list_search_wp M l a nds k h :
  branch_nodes M nds → Forall2 (λ y nd, av_find a y = Some nd) l nds →
  wp (cond_av_list_search a k l) (λ r h', h' = h ∧ default 0 (data <$> r) = default 0 (M !! triple_of k)) h.
Proof.
  intros [Hr Hu Hm] Hl. revert M Hr Hu Hm. induction Hl as [|y nd l nds Hnd Hl IH]; intros M Hr Hu Hm; cbn [cond_av_list_search].
  { apply wp_ret. split; [done|]. rewrite <- Hm. cbn. by rewrite lookup_empty. }
  eapply wp_bind, wp_deref; [done|]. destruct (Hr nd) as (_&_&_&Ha); [by left|].
  rewrite fmap_cons in Hm. change (rule_of nd) with (key nd, datum nd) in Hm.
  rewrite allow_map_cons_fresh in Hm; [|done|by apply (fresh_of_unique _ (rule_of nd))].
  destruct (same_triple (key nd) k) eqn:Es.
  - apply wp_ret. split; [done|]. apply same_triple_eq in Es as (E1&E2&E3). 
    assert (triple_of k = triple_of (key nd)) as -> by (unfold triple_of; congruence). by rewrite <- Hm, lookup_insert_eq.
  - apply not_true_iff_false in Es. eapply wp_mono; [apply (IH (allow_map (rule_of <$> nds)))|].
    + intros nd' Hin. apply Hr. by right.
    + by apply NoDup_cons in Hu as [_ ?].
    + done.
    + intros r h' [-> Hd]. split; [done|]. rewrite Hd, <- Hm, lookup_insert_ne; [done|].
      intros [= E1 E2 E3]. apply Es, same_triple_eq. done.
Qed.

Lemma computes_table M expa a : serves M expa → computes (HierarchyArgs expa a []) M.
Proof.
  intros Hs s u c h Hk. apply wp_bind. eapply wp_mono; [by apply (serves_search M)|]. intros r h' [-> Hr].
  cbn [opt_cond_list]. rewrite bool_decide_eq_true_2 by done. apply wp_ret. split; [done|]. change (triple_of _) with (s, u, c) in Hr. rewrite <- Hr. by destruct r.
Qed.
Lemma computes_branch M B expa a l nds :
  serves M expa → branch_nodes B nds → Forall2 (λ y nd, av_find a y = Some nd) l nds →
  computes (HierarchyArgs expa a l) (join M B).
Proof.
  intros Hs Hb Hl s u c h Hk. apply wp_bind. eapply wp_mono; [by apply (serves_search M)|]. intros r h' [-> Hr].
  change (triple_of _) with (s, u, c) in Hr. cbn [opt_cond_list ha_cond]. rewrite default_join, <- Hr.
  case_bool_decide as Hnil.
  - subst l. apply Forall2_nil_inv_l in Hl as ->. apply wp_ret. split; [done|]. rewrite <- (bn_map _ _ Hb). cbn [fmap list_fmap allow_map].
    rewrite lookup_empty. cbn. rewrite Z.lor_0_r. by destruct r.
  - apply wp_bind. eapply wp_mono; [by apply (cond_av_list_search_wp B _ _ nds)|]. intros r' h' [-> Hr']. apply wp_ret.
    split; [done|]. change (triple_of _) with (s, u, c) in Hr'. rewrite <- Hr'. destruct r, r'; cbn; by rewrite ?Z.lor_0_r.
Qed.

(** ** Counting errors *)

(** [n] errors among at most [lim] things; there is none exactly when all is
    well, if there is memory *)
Definition tally h0 n lim (ok : Prop) h : Prop :=
  (mem_step h0 h True ∧ h_next h0 ≤ h_next h) ∧ 0 ≤ n ≤ lim ∧ (n = 0 → ok) ∧ (mem_ok h0 → ok → n = 0).
(** the outcome of one check *)
Definition judged h (good : Prop) n '((rc, n') : Z * Z) h' : Prop :=
  (mem_step h h' True ∧ h_next h ≤ h_next h') ∧
  (rc = 0 ∧ (n' = n ∧ good ∨ n' = i32 (n + 1) ∧ ¬ good) ∨ rc = -1 ∧ (mem_ok h → ¬ good)).

Lemma tally_start h0 h : mem_step h0 h True → h_next h0 ≤ h_next h → tally h0 0 0 True h.
Proof. intros ??. split; [done|]. split; [lia|]. done. Qed.
Lemma tally_weaken h0 n lim lim' (ok ok' : Prop) h : (ok ↔ ok') → lim ≤ lim' → tally h0 n lim ok h → tally h0 n lim' ok' h.
Proof. intros Ho Hl (?&?&?&?). split; [done|]. split; [lia|]. tauto. Qed.
Lemma tally_later h0 n lim (ok : Prop) h h' :
  mem_step h h' True → h_next h ≤ h_next h' → tally h0 n lim ok h → tally h0 n lim ok h'.
Proof. intros Hm Hle ([??]&?&?&?). split; [split; [mem|lia]|]. tauto. Qed.
(** the count starts earlier *)
Lemma tally_earlier h0 h1 n lim (ok : Prop) h :
  mem_step h0 h1 True → h_next h0 ≤ h_next h1 → tally h1 n lim ok h → tally h0 n lim ok h.
Proof. intros Hm Hle ([??]&?&?&?). split; [split; [mem|lia]|]. split_and!; [lia..|done|]. intros Ho. destruct (Hm Ho). tauto. Qed.
Lemma tally_good h0 n lim (ok good : Prop) h : tally h0 n lim ok h → good → tally h0 n lim (ok ∧ good) h.
Proof. intros Ht Hg. eapply tally_weaken; [|reflexivity|exact Ht]. tauto. Qed.
Lemma tally_bad h0 n lim (ok good : Prop) h h' :
  tally h0 n lim ok h → mem_step h h' True ∧ h_next h ≤ h_next h' → lim + 1 < 2 ^ 31 → (mem_ok h → ¬ good) →
  tally h0 (i32 (n + 1)) (lim + 1) (ok ∧ good) h'.
Proof.
  intros ([Hm0 Hle0]&Hr&Hok&Hmem) [Hm Hle] Hlim Hb. unfold i32. rewrite wrap_id by lia. split; [split; [mem|lia]|].
  split; [lia|]. split; [lia|]. intros Ho [_ Hg]. destruct (Hm0 Ho) as [Ho1 _]. by destruct (Hb Ho1).
Qed.
Lemma tally_judged h0 n lim (ok good : Prop) h rc n' h' :
  tally h0 n lim ok h → judged h good n (rc, n') h' → lim + 1 < 2 ^ 31 → rc = 0 → tally h0 n' (lim + 1) (ok ∧ good) h'.
Proof.
  intros Ht [Hm Hj] Hlim Hrc. destruct Hj as [[_ [[-> Hg]|[-> Hb]]]|[Hrc' _]]; [..|lia].
  - eapply (tally_weaken _ _ lim _ (ok ∧ good)); [done|lia|]. apply tally_good; [|done]. destruct Hm. by eapply tally_later.
  - by eapply tally_bad.
Qed.
Lemma judged_rule_judged h ok n r h' : judged_rule h ok n r h' → judged h (ok = true) n r h'.
Proof.
  destruct r as [rc n']. intros (Hm&Hle&Hr). split; [done|]. destruct Hr as [[-> ->]|(->&->&Hr)].
  - left. split; [done|]. destruct ok; [left|right]; by split.
  - right. split; [done|]. intros Ho. by rewrite (Hr Ho).
Qed.

(** *** The rules that always apply *)

Lemma rules_forall (good : Z * Z * Z → Z → bool) (L : list avtab_node) :
  NoDup (rule_id <$> (rule_of <$> L)) →
  (∀ nd, nd ∈ L → negb (is_allow (key nd)) || good (triple_of (key nd)) (data (datum nd)) = true) ↔
  map_Forall (λ x d, good x d = true) (allow_map (rule_of <$> L)).
Proof.
  intros Hu. assert (Hlook : ∀ nd, nd ∈ L → is_allow (key nd) = true →
    allow_map (rule_of <$> L) !! triple_of (key nd) = Some (data (datum nd))).
  { intros nd Hin Ha. by apply (allow_map_unique _ (rule_of nd)); [|apply list_elem_of_fmap_2|]. }
  split.
  - intros Hall x d Hx. destruct (proj1 (allow_map_is_Some (rule_of <$> L) x)) as (e&(nd&->&Hin)%list_elem_of_fmap&Ha&Htr); [by eexists|].
    cbn in Ha, Htr. specialize (Hlook nd Hin Ha). rewrite Htr, Hx in Hlook. injection Hlook as ->. specialize (Hall nd Hin).
    by rewrite Ha, Htr in Hall.
  - intros Hall nd Hin. destruct (is_allow (key nd)) eqn:Ha; [|done]. cbn. by apply (Hall _ _ (Hlook nd Hin Ha)).
Qed.

Lemma check_rules_wp M expa a h0 n lim (ok : Prop) h :
  agrees M expa h → tally h0 n lim ok h → lim + base.size M < 2 ^ 31 →
  let good := map_Forall (λ x d, bounded_at p M x d = true) M in
  wp (avtab_map expa (λ k (dt : avtab_datum) n, check_avtab_hierarchy_callback p (HierarchyArgs expa a []) k (data dt) n) n)
    (λ '(rc, n') h', (rc ≠ 0 → mem_ok h0 → ¬ good) ∧ (rc = 0 → tally h0 n' (lim + base.size M) (ok ∧ good) h')) h.
Proof.
  intros Hag Ht Hlim good. pose proof (agrees_serves _ _ _ Hag) as Hs. destruct Hag as (t&Hwf&[H1 Hkn Hu _ _ Hmap]).
  rewrite Forall_fmap, Forall_forall in H1, Hkn.
  set (ok_node nd := negb (is_allow (key nd)) || bounded_at p M (triple_of (key nd)) (data (datum nd)) = true).
  assert (Hgood : (∀ nd, nd ∈ concat t → ok_node nd) ↔ good) 
    by (pose proof (rules_forall (bounded_at p M) (concat t) Hu) as Hrf; by rewrite Hmap in Hrf).
  apply (avtab_map_wp _ t _ (λ l1 n h, tally h0 n (lim + base.size (allow_map (rule_of <$> l1))) (ok ∧ ∀ nd, nd ∈ l1 → ok_node nd) h)).
  - by left.
  - eapply tally_weaken; [| |exact Ht]; [|lia]. split; [|by intros [? _]]. intros Hok. split; [done|]. intros nd Hnd. by apply elem_of_nil in Hnd.
  - intros nd l1 l2 n1 h1 Hl Hn1. assert (nd ∈ concat t) as Hin by (rewrite Hl; set_solver).
    eapply wp_mono; [apply (callback_wp _ M); [by apply computes_table|by eapply table_key_wf|by apply H1|by apply Hkn]|].
    intros [rc n'] h2 Hj%judged_rule_judged. change (judged h1 (ok_node nd) n1 (rc, n') h2) in Hj.
    destruct (truth rc) eqn:Er; [apply truth_true in Er|apply truth_false in Er; subst rc].
    { split; [|done]. intros _ Ho Hall. destruct Hj as [_ [[-> _]|(_&Hbad)]]; [done|].
      apply Hbad; [by apply Hn1|]. by apply Hgood. }
    assert (Hmore : ∀ nd', nd' ∈ l1 ++ [nd] → nd' ∈ l1 ∨ nd' = nd) by (intros nd'; rewrite elem_of_app, list_elem_of_singleton; done).
    assert (Hiff : (ok ∧ ∀ nd', nd' ∈ l1 → ok_node nd') ∧ ok_node nd ↔ ok ∧ ∀ nd', nd' ∈ l1 ++ [nd] → ok_node nd').
    { split; [intros [[? Hall] ?]; split; [done|]; intros nd' [?| ->]%Hmore; [by apply Hall|done]|].
      intros [? Hall]. split_and!; [done|intros; apply Hall; set_solver|apply Hall; set_solver]. }
    destruct (is_allow (key nd)) eqn:Ha.
    + destruct (new_rule _ _ _ _ Hu Hl Ha) as [Hnone Hmap1].
      pose proof (allow_map_size_app (rule_of <$> l1 ++ [nd]) (rule_of <$> l2)) as Hsz.
      rewrite <- fmap_app, <- app_assoc in Hsz. cbn [app] in Hsz. rewrite <- Hl, Hmap, Hmap1 in Hsz. rewrite Hmap1.
      rewrite map_size_insert_None in Hsz |- * by done.
      eapply tally_weaken; [exact Hiff| |eapply tally_judged; [exact Hn1|exact Hj| |done]]; lia.
    + rewrite fmap_app. cbn [fmap list_fmap]. rewrite <- Permutation_cons_append. change (rule_of nd) with (key nd, datum nd).
      rewrite allow_map_cons_other by done.
      assert (ok_node nd) as Hnd by (unfold ok_node; by rewrite Ha).
      destruct Hj as [[Hm Hle] [[_ [[-> _]|[_ Hbad]]]|[? _]]]; [|done|done]. eapply tally_weaken; [exact Hiff|reflexivity|].
      apply tally_good; [|done]. by eapply tally_later.
  - intros n1 h1 Hn1. split; [done|]. intros _. rewrite Hmap in Hn1. eapply tally_weaken; [|reflexivity|exact Hn1]. by rewrite Hgood.
Qed.

(** *** The rules of conditionals *)

Lemma branch_forall M B nds :
  branch_nodes B nds →
  (∀ nd, nd ∈ nds → bounded_at p (join M B) (triple_of (key nd)) (default 0 (join M B !! triple_of (key nd))) = true) ↔
  branch_bounded p M B.
Proof.
  intros [Hr Hu Hm]. pose proof (rules_forall (λ x _, bounded_at p (join M B) x (default 0 (join M B !! x))) nds Hu) as Hrf.
  rewrite Hm in Hrf. etrans; [|exact Hrf]. cbv beta.
  split; intros Hall nd Hin; specialize (Hall nd Hin); destruct (Hr nd Hin) as (_&_&_&Ha); by rewrite Ha in *.
Qed.

(** the walk over the rules of a branch *)
Lemma check_branch_rules_wp M B expa0 expa l nds h0 n lim (ok : Prop) h :
  serves M expa0 → branch_nodes B nds → Forall2 (λ y nd, av_find expa y = Some nd) l nds →
  tally h0 n lim ok h → lim + base.size B < 2 ^ 31 →
  wp (for_list (R := unit) l (λ a numerr,
        nd ← deref (av_find expa a);
        uncond ← avtab_search expa0 (key nd);
        let avdat := match uncond with Some u => Z.lor (data (datum nd)) (data u) | None => data (datum nd) end in
        '(rc, numerr) ← check_avtab_hierarchy_callback p (HierarchyArgs expa0 expa l) (key nd) avdat numerr;
        mret (inr (if truth rc then i32 (numerr + 1) else numerr))) n)
    (λ r h', ∃ n', r = inr n' ∧ tally h0 n' (lim + base.size B) (ok ∧ branch_bounded p M B) h') h.
Proof.
  intros Hs Hb Hl Ht Hlim. set (M' := join M B).
  set (ok_node nd := bounded_at p M' (triple_of (key nd)) (default 0 (M' !! triple_of (key nd))) = true).
  apply (for_nodes_wp expa l nds _ (λ l1 n h, tally h0 n (lim + base.size (allow_map (rule_of <$> l1))) (ok ∧ ∀ nd, nd ∈ l1 → ok_node nd) h));
    [done|eapply tally_weaken; [| |exact Ht]; [|lia]; split; [|by intros [? _]]; intros Hok; split; [done|]; intros nd Hnd; by apply elem_of_nil in Hnd|..].
  - intros nd l1 l2 n1 h1 Hnds Hn1. assert (nd ∈ nds) as Hin by (rewrite Hnds; set_solver).
    destruct (bn_rules _ _ Hb nd Hin) as (Hk&H1&Hkk&Ha).
    apply wp_bind. eapply wp_mono; [by apply (serves_search M)|]. intros uncond h2 [-> Hun].
    assert (Hd : match uncond with Some u => Z.lor (data (datum nd)) (data u) | None => data (datum nd) end = default 0 (M' !! triple_of (key nd))).
    { unfold M'. rewrite default_join, <- Hun, <- (bn_map _ _ Hb).
      rewrite (allow_map_unique _ (rule_of nd)); [|apply Hb|by apply list_elem_of_fmap_2|done].
      destruct uncond; cbn; [by rewrite Z.lor_comm|done]. }
    cbv zeta. rewrite Hd. apply wp_bind.
    eapply wp_mono; [apply (callback_wp _ M'); [by eapply computes_branch|done..]|].
    intros [rc n'] h2 Hjr. pose proof (judged_rule_judged _ _ _ _ _ Hjr) as Hj. rewrite Ha in Hj. change (judged h1 (ok_node nd) n1 (rc, n') h2) in Hj. apply wp_ret.
    destruct (new_rule _ _ _ _ (bn_unique _ _ Hb) Hnds Ha) as [Hnone Hmap1].
    pose proof (allow_map_size_app (rule_of <$> l1 ++ [nd]) (rule_of <$> l2)) as Hsz.
    rewrite <- fmap_app, <- app_assoc in Hsz. cbn [app] in Hsz. rewrite <- Hnds, (bn_map _ _ Hb), Hmap1 in Hsz. rewrite Hmap1.
    rewrite map_size_insert_None in Hsz |- * by done.
    eapply (tally_weaken _ _ (lim + base.size (allow_map (rule_of <$> l1)) + 1) _ ((ok ∧ ∀ nd, nd ∈ l1 → ok_node nd) ∧ ok_node nd)); [|lia|].
    { split; [intros [[? Hall] ?]; split; [done|]; intros nd' [?|Hnd'%list_elem_of_singleton]%elem_of_app; [by apply Hall|by subst]|].
      intros [? Hall]. split_and!; [done|intros; apply Hall; set_solver|apply Hall; set_solver]. }
    destruct (truth rc) eqn:Er; [apply truth_true in Er|apply truth_false in Er].
    + destruct Hjr as (_&_&[[? _]|(_&->&_)]); [done|]. destruct Hj as [Hm [[? _]|(_&Hbad)]]; [done|]. apply (tally_bad _ _ _ _ _ h1); [done..|lia|done].
    + eapply tally_judged; [exact Hn1|exact Hj|lia|done].
  - intros n1 h1 Hn1. exists n1. split; [done|]. rewrite (bn_map _ _ Hb) in Hn1.
    eapply tally_weaken; [|reflexivity|exact Hn1].
    pose proof (branch_forall M B nds Hb) as Hbf. split; intros [? Hall]; (split; [done|]); by apply Hbf.
Qed.

Lemma check_cond_branch_wp M expa0 l junk h0 n lim (ok : Prop) h :
  serves M expa0 → branch_ok p l → tally h0 n lim ok h → lim + base.size (branch p l) < 2 ^ 31 →
  wp (check_cond_branch p expa0 l junk n) (λ '(rc, _, n') h', (rc ≠ 0 → mem_ok h0 → False) ∧
    (rc = 0 → tally h0 n' (lim + base.size (branch p l)) (ok ∧ branch_bounded p M (branch p l)) h')) h.
Proof.
  intros Hs Hok Ht Hlim. apply wp_bind. eapply wp_mono; [by apply expand_branch_wp|].
  intros [[rc newl] expa] h1 [Hm1 H1]. destruct (truth rc) eqn:Er; [apply truth_true in Er|apply truth_false in Er].
  { apply wp_ret. split; [|done]. intros _ Ho. destruct Ht as ([Hm _]&_). destruct (Hm Ho) as [Ho1 _]. by destruct (Hm1 Ho1). }
  destruct (H1 Er) as (Hle&l'&nds&->&_&Hb&Hl). eapply wp_bind, wp_deref; [done|]. cbv zeta. apply wp_bind.
  assert (tally h0 n lim ok h1) as Ht1 by (eapply tally_later; [|exact Hle|exact Ht]; mem).
  eapply wp_mono; [by apply (check_branch_rules_wp M (branch p l) expa0 expa l' nds h0 n lim ok)|].
  intros r h2 (n'&->&Hn'). by apply wp_ret.
Qed.

(** the errors of the conditionals *)
Definition cond_checks (cl : list cond_node) : Z :=
  foldr Z.add 0 ((λ cn, Z.of_nat (base.size (branch p (true_list cn))) + base.size (branch p (false_list cn))) <$> cl).
Lemma cond_checks_nonneg cl : 0 ≤ cond_checks cl.
Proof. unfold cond_checks. induction cl; cbn; lia. Qed.

Lemma check_cond_avtab_hierarchy_wp M expa0 cl junk h0 n lim (ok : Prop) h :
  serves M expa0 → (∀ cn, cn ∈ cl → branch_ok p (true_list cn) ∧ branch_ok p (false_list cn)) →
  tally h0 n lim ok h → lim + cond_checks cl < 2 ^ 31 →
  let good := ∀ cn, cn ∈ cl → branch_bounded p M (branch p (true_list cn)) ∧ branch_bounded p M (branch p (false_list cn)) in
  wp (check_cond_avtab_hierarchy p cl expa0 junk n) (λ '(rc, n') h', (rc ≠ 0 → mem_ok h0 → False) ∧
    (rc = 0 → tally h0 n' (lim + cond_checks cl) (ok ∧ good) h')) h.
Proof.
  intros Hs. revert junk n lim ok h. induction cl as [|cn cl IH]; intros junk n lim ok h Hcl Ht Hlim good;
    cbn [check_cond_avtab_hierarchy].
  { apply wp_ret. split; [done|]. intros _. eapply tally_weaken; [| |exact Ht]; [|unfold cond_checks; cbn; lia]. split; [|by intros [? _]].
    intros Hok. split; [done|]. intros cn Hin. by apply elem_of_nil in Hin. }
  destruct (Hcl cn) as [Hbt Hbf]; [by left|]. unfold cond_checks in Hlim. cbn [fmap list_fmap foldr] in Hlim.
  fold (cond_checks cl) in Hlim. pose proof (cond_checks_nonneg cl).
  apply wp_bind. eapply wp_mono; [apply check_cond_branch_wp; [done|done|exact Ht|lia]|]. intros [[rc1 junk1] n1] h1 [Hr1 H1].
  destruct (truth rc1) eqn:E1; [apply truth_true in E1; apply wp_ret; split; [intros _; by apply Hr1|done]|].
  apply truth_false in E1. specialize (H1 E1).
  apply wp_bind. eapply wp_mono; [apply check_cond_branch_wp; [done|done|exact H1|lia]|]. intros [[rc2 junk2] n2] h2 [Hr2 H2].
  destruct (truth rc2) eqn:E2; [apply truth_true in E2; apply wp_ret; split; [intros _; by apply Hr2|done]|].
  apply truth_false in E2. specialize (H2 E2).
  eapply wp_mono; [eapply IH; [intros cn' Hin; apply Hcl; by right|exact H2|lia]|].
  intros [rc n'] h3 [Hr3 H3]. split; [done|]. intros Hrc. eapply tally_weaken; [| |by apply H3].
  - unfold good. split; [intros [[[? ?] ?] Hall]; split; [done|]; intros cn' [->|Hin]%elem_of_cons; [done|by apply Hall]|].
    intros [? Hall]. destruct (Hall cn) as [? ?]; [by left|]. split_and!; [done..|]. intros cn' Hin. apply Hall. by right.
  - change (cond_checks (cn :: cl)) with (base.size (branch p (true_list cn)) + base.size (branch p (false_list cn)) + cond_checks cl). lia.
Qed.

(** ** Types, roles and users *)

Lemma count_entries_wp {D} (tbl : option (hashtab string D)) (f : string → D → Z → CM (Z * Z)) (good : D → Prop) h0 n lim (ok : Prop) h :
  (∀ name dat n h, (name, dat) ∈ table_entries tbl → wp (f name dat n) (judged h (good dat) n) h) →
  tally h0 n lim ok h → lim + length (table_entries tbl) < 2 ^ 31 →
  let all := ∀ name dat, (name, dat) ∈ table_entries tbl → good dat in
  wp (hashtab_map tbl f n) (λ '(rc, n') h', (rc ≠ 0 → mem_ok h0 → ¬ all) ∧
    (rc = 0 → tally h0 n' (lim + length (table_entries tbl)) (ok ∧ all) h')) h.
Proof.
  intros Hf Ht Hlim all.
  apply (hashtab_map_wp tbl f (λ l n h, tally h0 n (lim + length l) (ok ∧ ∀ name dat, (name, dat) ∈ l → good dat) h)).
  - eapply tally_weaken; [| |exact Ht]; [|cbn; lia]. split; [|by intros [? _]]. intros Hok. split; [done|].
    intros name dat Hin. by apply elem_of_nil in Hin.
  - intros name dat l1 l2 n1 h1 Hl Hn1. eapply wp_mono; [apply Hf; rewrite Hl; set_solver|]. intros [rc n'] h2 Hj.
    destruct (truth rc) eqn:Er; [apply truth_true in Er|apply truth_false in Er].
    + split; [|done]. intros _ Ho Hall. destruct Hj as [_ [[? _]|(_&Hbad)]]; [done|].
      apply Hbad; [by apply Hn1|]. apply (Hall name dat). rewrite Hl. set_solver.
    + rewrite Hl, length_app in Hlim. cbn in Hlim. rewrite length_app. cbn [length].
      eapply (tally_weaken _ _ (lim + length l1 + 1) _ ((ok ∧ ∀ name dat, (name, dat) ∈ l1 → good dat) ∧ good dat)); [|lia|].
      { split; [intros [[? Hall] ?]; split; [done|]; intros name' dat' [Hin|Hin%list_elem_of_singleton]%elem_of_app|].
        - by apply (Hall name').
        - by injection Hin as -> ->.
        - intros [? Hall]. split_and!; [done|intros name' dat' Hin; apply (Hall name'); set_solver|apply (Hall name); set_solver]. }
      eapply tally_judged; [exact Hn1|exact Hj|lia|done].
  - intros n1 h1 Hn1. split; [done|]. by intros _.
Qed.

Lemma check_type_hierarchy_callback_wp ty n h :
  type_named p ty → wp (check_type_hierarchy_callback p ty n) (judged h (type_bounded p ty) n) h.
Proof.
  intros Hn. unfold check_type_hierarchy_callback, type_bounded. destruct (Z.eqb_spec (type_flavor ty) TYPE_ATTRIB) as [Ha|Ha].
  { apply wp_ret. split; [by split; [apply mem_step_refl|lia]|]. left. split; [done|]. by left; split; [|left]. }
  apply wp_bind. eapply wp_mono; [by apply find_parent_type_wp|]. intros [rc par] h' (Hm&Hle&[[-> Hp]|[-> Hp]]); cbn [Z.ltb Z.compare].
  - rewrite Hp. apply wp_ret. destruct par as [ty'|]; [destruct (Z.eqb_spec (type_flavor ty') TYPE_ATTRIB)|]; (split; [done|]).
    + right. split; [done|]. by intros _ [?|?].
    + left. split; [done|]. by left; split; [|right].
    + left. split; [done|]. by left; split; [|right].
  - apply wp_ret. split; [done|right]. split; [done|]. intros Ho. rewrite (Hp Ho). by intros [?|?].
Qed.

(** a child's bitmap is within that of its parent *)
Lemma contains_wp {D} structs names (tbl : option (hashtab string D)) bounds value (bits : D → ebitmap) (e : ebitmap) n h :
  table_ok tbl → named structs names bounds value → ebitmap_wf e →
  (∀ name dat, (name, dat) ∈ table_entries tbl → ebitmap_wf (bits dat)) →
  Forall (λ o, ∀ dat, o = Some dat → ebitmap_wf (bits dat)) structs →
  wp ('(rc, par) ← find_parent structs names tbl bounds value;
      if rc <? 0 then mret (-1, n) else
      mret (match par with
            | Some dat => if truth (ebitmap_contains (bits dat) e) then (0, n) else (0, i32 (n + 1))
            | None => (0, n)
            end))
    (judged h (match parent_in structs names tbl bounds value with
               | None => False
               | Some None => True
               | Some (Some dat) => ebitmap_set e ⊆ ebitmap_set (bits dat)
               end) n) h.
Proof.
  intros Ht Hn He Hent Hstr. apply wp_bind. eapply wp_mono; [by apply find_parent_wp|].
  intros [rc par] h' (Hm&Hle&[[-> Hp]|[-> Hp]]); cbn [Z.ltb Z.compare]; apply wp_ret; cycle 1.
  { split; [done|]. right. split; [done|]. intros Ho. rewrite (Hp Ho). tauto. }
  rewrite Hp. destruct par as [dat|]; [|split; [done|left]; split; [done|by left]].
  assert (ebitmap_wf (bits dat)) as Hw.
  { unfold parent_in in Hp. destruct (truth bounds).
    - unfold at_index in Hp. destruct (bounds <? 1); [done|]. rewrite Forall_lookup in Hstr. by eapply Hstr.
    - destruct (_ ≫= _) as [pname|]; [|done]. destruct (table_map tbl !! pname) eqn:El; [|done]. injection Hp as ->.
      apply (Hent pname). by apply table_map_lookup. }
  rewrite ebitmap_contains_set, truth_cbool by done. case_bool_decide; (split; [done|left]); (split; [done|]); [by left|by right].
Qed.

(** ** The whole check *)

Lemma hierarchy_check_constraints_wp t junk h :
  hierarchy_wf p t →
  wp (hierarchy_check_constraints p junk) (λ rc _, (rc = 0 ∨ rc = -1) ∧
    (rc = 0 → hierarchical p t) ∧ (mem_ok h → hierarchical p t → rc = 0)) h.
Proof.
  intros [Hte Hrules Hfree Huni Hknown Hbr [_ Hty] (Hro&Hroe&Hros) (Hus&Huse&Huss) Hcount].
  assert (Hbad : ∀ h', (mem_ok h → ¬ hierarchical p t) → wp (mret (-1)) (λ rc _, (rc = 0 ∨ rc = -1) ∧
    (rc = 0 → hierarchical p t) ∧ (mem_ok h → hierarchical p t → rc = 0)) h').
  { intros h' Hno. apply wp_ret. split_and!; [by right|done|]. intros Ho Hh. by destruct (Hno Ho). }
  unfold checks in Hcount. fold (cond_checks (cond_list p)) in Hcount. pose proof (cond_checks_nonneg (cond_list p)).
  apply wp_bind. eapply wp_mono; [by apply (expand_avtab_wp p _ t)|]. intros [rc1 expa1] h1 [Hm1 H1].
  destruct (truth rc1) eqn:E1; [apply truth_true in E1; apply Hbad; intros Ho; by destruct (Hm1 Ho)|apply truth_false in E1].
  destruct (H1 E1) as [Hle1 Hag1%expands_agrees]; [|done..].
  apply wp_bind. eapply wp_mono; [apply (count_entries_wp _ _ (type_bounded p) h1 0 0 True); [| |lia]|].
  { intros name ty n h' Hin. apply check_type_hierarchy_callback_wp. by eapply Hty. }
  { by apply tally_start; [apply mem_step_refl|]. }
  intros [rc2 n2] h2 [Hb2 H2].
  destruct (truth rc2) eqn:E2; [apply truth_true in E2; apply Hbad; intros Ho (Hall&_); destruct (Hm1 Ho); by apply (Hb2 E2)|].
  apply truth_false in E2. specialize (H2 E2). assert (h_next h1 ≤ h_next h2) as Hle2 by apply H2.
  apply (tally_earlier h) in H2; [|mem|done].
  apply wp_bind. eapply wp_mono.
  { apply (pullup_unconditional_perms_wp _ _ _ (allow_map (expanded p (concat t)))); [done|by eapply agrees_later]. }
  intros [rc3 expa3] h3 [Hm3 H3].
  destruct (truth rc3) eqn:E3; [apply truth_true in E3; apply Hbad; intros Ho; destruct (proj1 (proj1 H2) Ho) as [Ho2 _]; by destruct (Hm3 Ho2)|].
  apply truth_false in E3. destruct (H3 E3) as [Hle3 Hag3]. fold (unconditional p t) in Hag3. pose proof (agrees_serves _ _ _ Hag3) as Hs3.
  apply wp_bind. eapply wp_mono; [eapply (check_rules_wp (unconditional p t)); [exact Hag3|eapply tally_later; [|exact Hle3|exact H2]; mem|lia]|].
  intros [rc4 n4] h4 [Hb4 H4].
  destruct (truth rc4) eqn:E4; [apply truth_true in E4; apply Hbad; intros Ho (_&[Hall _]&_); by apply (Hb4 E4 Ho)|].
  apply truth_false in E4. specialize (H4 E4).
  apply wp_bind. eapply wp_mono; [eapply (check_cond_avtab_hierarchy_wp (unconditional p t)); [done|done|exact H4|lia]|].
  intros [rc5 n5] h5 [Hb5 H5].
  destruct (truth rc5) eqn:E5; [apply truth_true in E5; apply Hbad; intros Ho; by destruct (Hb5 E5 Ho)|].
  apply truth_false in E5. specialize (H5 E5).
  apply wp_bind. eapply wp_mono; [eapply (count_entries_wp _ _ (role_bounded p)); [|exact H5|lia]|].
  { intros name r n h' Hin. destruct (Hroe name r Hin). apply (contains_wp _ _ _ _ _ (λ r, ts_types (role_types r))); try done.
    intros name' r' Hin'. by apply (Hroe name'). }
  intros [rc6 n6] h6 [Hb6 H6].
  destruct (truth rc6) eqn:E6; [apply truth_true in E6; apply Hbad; intros Ho (_&_&Hall&_); by apply (Hb6 E6 Ho)|].
  apply truth_false in E6. specialize (H6 E6).
  apply wp_bind. eapply wp_mono; [eapply (count_entries_wp _ _ (user_bounded p)); [|exact H6|lia]|].
  { intros name us n h' Hin. destruct (Huse name us Hin). apply (contains_wp _ _ _ _ _ (λ us, rs_roles (user_roles us))); try done.
    intros name' us' Hin'. by apply (Huse name'). }
  intros [rc7 n7] h7 [Hb7 H7].
  destruct (truth rc7) eqn:E7; [apply truth_true in E7; apply Hbad; intros Ho (_&_&_&Hall); by apply (Hb7 E7 Ho)|].
  apply truth_false in E7. destruct (H7 E7) as (_&Hr&Hok&Hmem). apply wp_ret.
  destruct (truth n7) eqn:En; [apply truth_true in En|apply truth_false in En].
  - split_and!; [by right|done|]. intros Ho (?&[??]&?&?). destruct En. by apply Hmem.
  - split_and!; [by left| |done]. intros _. destruct (Hok En) as (((([_ ?]&?)&?)&?)&?).
    split; [done|]. split; [by split|]. by split.
Qed.
End theory.

(** ** Whatever the state of the booleans *)

Section states.
Context `{Target} (p : policydb) (t : list (list avtab_node)).
Implicit Types (s u c b : Z) (M : gmap (Z * Z * Z) Z) (cn : cond_node) (x : Z * Z * Z).

(** the rules of one branch of each conditional, that which [sel] chooses, and
    the rules of [t] *)
Definition selected (sel : cond_node → bool) cn : gmap (Z * Z * Z) Z :=
  branch p (if sel cn then true_list cn else false_list cn).
Definition effective (sel : cond_node → bool) : gmap (Z * Z * Z) Z :=
  foldl (λ M cn, join M (selected sel cn)) (allow_map (expanded p (concat t))) (cond_list p).

Lemma join_bit M M' x b :
  Z.testbit (default 0 (join M M' !! x)) b = Z.testbit (default 0 (M !! x)) b || Z.testbit (default 0 (M' !! x)) b.
Proof. by rewrite default_join, Z.lor_spec. Qed.
Lemma joined_bit (f : cond_node → gmap (Z * Z * Z) Z) M cl x b :
  Z.testbit (default 0 (foldl (λ M cn, join M (f cn)) M cl !! x)) b = true ↔
  Z.testbit (default 0 (M !! x)) b = true ∨ ∃ cn, cn ∈ cl ∧ Z.testbit (default 0 (f cn !! x)) b = true.
Proof.
  revert M. induction cl as [|cn cl IH]; intros M; cbn [foldl].
  - split; [by left|]. intros [?|(cn&Hin&_)]; [done|by apply elem_of_nil in Hin].
  - rewrite IH, join_bit, orb_true_iff, exists_cons. tauto.
Qed.
Lemma pulled_bit M M' x b :
  Z.testbit (default 0 (pulled M M' !! x)) b = true →
  Z.testbit (default 0 (M !! x)) b = true ∧ Z.testbit (default 0 (M' !! x)) b = true.
Proof.
  unfold pulled. rewrite lookup_intersection_with. destruct (M !! x) as [a|], (M' !! x) as [a'|]; cbn; intros Hb;
    try (by rewrite Z.testbit_0_l in Hb). unfold both in Hb.
  destruct (Z.land a a' =? 0); cbn in Hb; [by rewrite Z.testbit_0_l in Hb|]. by rewrite Z.land_spec, andb_true_iff in Hb.
Qed.
Lemma unconditional_bit x b :
  Z.testbit (default 0 (unconditional p t !! x)) b = true ↔
  Z.testbit (default 0 (allow_map (expanded p (concat t)) !! x)) b = true ∨
  ∃ cn, cn ∈ cond_list p ∧ Z.testbit (default 0 (pulled (branch p (true_list cn)) (branch p (false_list cn)) !! x)) b = true.
Proof. apply (joined_bit (λ cn, pulled (branch p (true_list cn)) (branch p (false_list cn)))). Qed.
(** what always applies applies in every state *)
Lemma unconditional_effective sel x b :
  Z.testbit (default 0 (unconditional p t !! x)) b = true → Z.testbit (default 0 (effective sel !! x)) b = true.
Proof.
  rewrite unconditional_bit. unfold effective. rewrite joined_bit.
  intros [?|(cn&Hin&[Ht Hf]%pulled_bit)]; [by left|right]. exists cn. split; [done|]. unfold selected. by destruct (sel cn).
Qed.
Lemma testbit_is_Some M x b : Z.testbit (default 0 (M !! x)) b = true → M !! x = Some (default 0 (M !! x)).
Proof. destruct (M !! x); cbn; [done|]. intros Hb. by rewrite Z.testbit_0_l in Hb. Qed.
Lemma covers_bit M s u c d b : covers M s u c d = true → Z.testbit d b = true → Z.testbit (default 0 (M !! (s, u, c))) b = true.
Proof.
  intros Hc%Z.eqb_eq Hd. apply (f_equal (λ z, Z.testbit z b)) in Hc. rewrite Z.land_spec, Hd in Hc. by rewrite andb_true_r in Hc.
Qed.
(** a child and a target without a parent *)
Lemma bounded_child M s s' u c d :
  parent_value p s = Some (Some s') → parent_value p u = Some None → bounded p M s u c d = true → covers M s' u c d = true.
Proof. intros Hs Hu. unfold bounded. rewrite Hs, Hu. cbn. by rewrite orb_false_r. Qed.

Lemma effective_bounded sel s s' u c b :
  rules_bounded p t → parent_value p s = Some (Some s') → parent_value p u = Some None →
  Z.testbit (default 0 (effective sel !! (s, u, c))) b = true → Z.testbit (default 0 (effective sel !! (s', u, c))) b = true.
Proof.
  intros [Hun Hbr] Hs Hu. unfold effective at 1. rewrite joined_bit. intros [Hb|(cn&Hin&Hb)].
  - assert (Z.testbit (default 0 (unconditional p t !! (s, u, c))) b = true) as HM by (apply unconditional_bit; by left).
    apply unconditional_effective. eapply covers_bit; [|exact HM]. apply (bounded_child _ s); [done..|].
    by apply (Hun (s, u, c)), (testbit_is_Some _ _ b).
  - assert (branch_bounded p (unconditional p t) (selected sel cn)) as Hbb by (unfold selected; destruct (sel cn); by apply Hbr).
    specialize (Hbb (s, u, c) _ (testbit_is_Some _ _ _ Hb)). apply bounded_child with (s' := s') in Hbb; [|done..].
    apply (covers_bit _ _ _ _ _ b) in Hbb; [|by rewrite join_bit, Hb, orb_true_r].
    rewrite join_bit, orb_true_iff in Hbb. destruct Hbb as [HM|HB]; [by apply unconditional_effective|].
    unfold effective. rewrite joined_bit. right. by exists cn.
Qed.
End states.

(** ** Properties *)

(** C13: in a policy whose conditional rules are all allow rules,
    [hierarchy_check_constraints] accepts a policy only if it is hierarchical: types have a parent or none is named, and it is no attribute;
    the access vector of every allow rule of types with parents, of what both
    branches of a conditional allow, and of each branch with what always
    applies, is within that of the parents; roles and users have no more types
    and roles than their parents.  With memory it accepts every such policy.
    (The restriction is needed: the search in a conditional ignores the kind of
    the rules, see [hierarchy_takes_audit_for_allow].) *)
Theorem hierarchy_check_constraints_correct `{Target} p t junk h :
  hierarchy_wf p t →
  wp (hierarchy_check_constraints p junk) (λ rc _, (rc = 0 ∨ rc = -1) ∧
    (rc = 0 → hierarchical p t) ∧ (mem_ok h → hierarchical p t → rc = 0)) h.
Proof. intros Hwf. apply hierarchy_check_constraints_wp; [by apply (hw_types _ _ Hwf)|done]. Qed.

(** C6: in an accepted policy whose conditional rules are all allow rules (as
    [hierarchy_wf] asks of both branches), a type with a parent has, for a target without
    one, no permission that the parent has not, whichever branch each
    conditional takes. *)
Theorem hierarchy_check_constraints_secure `{Target} p t junk h :
  hierarchy_wf p t →
  wp (hierarchy_check_constraints p junk) (λ rc _, rc = 0 →
    ∀ sel s s' u c b, parent_value p s = Some (Some s') → parent_value p u = Some None →
      Z.testbit (default 0 (effective p t sel !! (s, u, c))) b = true →
      Z.testbit (default 0 (effective p t sel !! (s', u, c))) b = true) h.
Proof.
  intros Hwf. eapply wp_mono; [by apply (hierarchy_check_constraints_wp p (proj1 (hw_types _ _ Hwf)) t)|].
  intros rc _ (_&Hr&_) Hrc. destruct (Hr Hrc) as (_&Hrules&_). intros. by eapply effective_bounded.
Qed.

(** ** Examples *)

Module ExampleHierarchy.
(** the types a, a.b (a child of a) and x *)
Definition type (v : Z) : type_datum := TypeDatum v 1 TYPE_TYPE (Ebitmap [] 0) 0 0.
Definition types : hashtab string type_datum :=
  Hashtab [[("a"%string, type 1); ("a.b"%string, type 2); ("x"%string, type 3)]] 1 3.
Definition cond : cond_node := CondNode 0 [] [20; 21] [] [] [] 0 (replicate 5 0) 0 0.
Definition policy (te cond_rules : avtab) : policydb :=
  Policydb 0 30 0 empty_symtab empty_symtab (Symtab (Some types) 3) empty_symtab empty_symtab empty_symtab empty_symtab
    [] [] [] [] [Some "a"%string; Some "a.b"%string; Some "x"%string] [] [] [] []
    [Some (type 1); Some (type 2); Some (type 3)] te cond_rules [] [cond] [] [] [] [] [] (Ebitmap [] 0) []
    (replicate OCON_NUM []) [].
Definition rule (addr s c kind d : Z) : avtab_node := AvNode addr (AvKey s 3 c kind) (AvDatum d) 0 0.
Definition table (l : list avtab_node) : avtab := Avtab (Some [l]) (length l) 1 0.

(** allow a x:c1 { p q }; allow a.b x:c1 p; if (b) { allow { a a.b } x:c2 q; } *)
Definition te_rules : list avtab_node := [rule 10 1 1 AVTAB_ALLOWED 3; rule 11 2 1 AVTAB_ALLOWED 1].
Definition cond_rules : list avtab_node := [rule 20 1 2 AVTAB_ALLOWED 2; rule 21 2 2 AVTAB_ALLOWED 2].
Definition good : policydb := policy (table te_rules) (table cond_rules).
(** if (b) { auditallow a x:c2 q; allow a.b x:c2 q; } *)
Definition audit_rules : list avtab_node := [rule 20 1 2 AVTAB_AUDITALLOW 2; rule 21 2 2 AVTAB_ALLOWED 2].
Definition audited : policydb := policy (table []) (table audit_rules).

Lemma example_types_ok `{Target} : hashtab_ok types.
Proof.
  split; cbn [Hashtab.size htable types]; [lia|done| |].
  - intros [|i] c Hc; simplify_eq/=. repeat constructor; unfold key_before; vm_compute; reflexivity.
  - intros [|i] c kd Hc Hin; simplify_eq/=. unfold symhash. by rewrite Z.land_0_r.
Qed.
Lemma example_rules_wf l : l = te_rules ∨ l = cond_rules → avtab_wf (table l) [l].
Proof.
  intros Hl. split; [done|by destruct Hl as [->| ->]| | |by destruct Hl as [->| ->]].
  - intros [|i] c Hc; simplify_eq/=. destruct Hl as [->| ->]; repeat constructor; unfold node_le; vm_compute; discriminate.
  - intros [|i] c nd Hc Hin; simplify_eq/=.
    destruct Hl as [->| ->]; repeat (apply elem_of_cons in Hin as [->|Hin]; [by vm_compute|]); by apply elem_of_nil in Hin.
Qed.
Lemma example_type_ok v : v = 1 ∨ v = 2 ∨ v = 3 → type_ok good v ∧ known good v.
Proof. intros [->|[->| ->]]; (split; [eexists; split; [done|]; done|eexists; split; [done|]; by eexists]). Qed.
Lemma rules_ok l : l = te_rules ∨ l = cond_rules → Forall (rule_ok good) (key <$> l).
Proof.
  intros [->| ->]; repeat constructor; cbn; try done; try (apply example_type_ok; lia); exists 0; by vm_compute.
Qed.
Lemma keys_known (E : list (avtab_key * avtab_datum)) :
  Forall (λ e, bool_decide (source_type e.1 ∈ [1; 2; 3] ∧ target_type e.1 ∈ [1; 2; 3]) = true) E → Forall (key_known good) E.*1.
Proof.
  intros HE. apply Forall_fmap. eapply Forall_impl; [exact HE|]. intros e He. apply bool_decide_eq_true in He as [Hs Ht].
  split; apply example_type_ok; set_solver.
Qed.
Lemma uniform_all (E : list (avtab_key * avtab_datum)) :
  Forall (λ e, Z.land (specified e.1) AVTAB_ENABLED = 0) E → uniform E.
Proof.
  intros HE k k' (e&->&He)%list_elem_of_fmap (e'&->&He')%list_elem_of_fmap. rewrite Forall_forall in HE.
  unfold enabled_differs. by rewrite (HE e He), (HE e' He').
Qed.
Lemma good_wf `{Target} : hierarchy_wf good [te_rules].
Proof.
  split; try done.
  - left. apply example_rules_wf. by left.
  - apply rules_ok. by left.
  - apply NoDup_conflict_free. apply (bool_decide_unpack _). by vm_compute.
  - apply uniform_all. repeat constructor.
  - apply keys_known. repeat constructor.
  - intros cn ->%list_elem_of_singleton. split; split; try (by constructor).
    + repeat constructor; by eexists.
    + apply rules_ok. by right.
    + apply keys_known. repeat constructor.
    + repeat constructor.
    + apply uniform_all. repeat constructor.
    + intros k k' Hk. by apply elem_of_nil in Hk.
  - split; [apply example_types_ok|]. intros name ty Hin. repeat (apply elem_of_cons in Hin as [[= _ ->]|Hin]; [by eexists|]). by apply elem_of_nil in Hin.
  - split; [done|]. split; [|done]. intros name r Hin. by apply elem_of_nil in Hin.
  - split; [done|]. split; [|done]. intros name us Hin. by apply elem_of_nil in Hin.
Qed.
End ExampleHierarchy.

(** witness of C13 *)
Lemma hierarchy_check_constraints_correct_witness :
  let T := target_arm in let p := ExampleHierarchy.good in
  wp (hierarchy_check_constraints p empty_avtab) (λ rc _, (rc = 0 ∨ rc = -1) ∧
    (rc = 0 → hierarchical p [ExampleHierarchy.te_rules]) ∧
    (mem_ok fresh_heap → hierarchical p [ExampleHierarchy.te_rules] → rc = 0)) fresh_heap.
Proof. exact (@hierarchy_check_constraints_correct target_arm _ _ empty_avtab fresh_heap (@ExampleHierarchy.good_wf target_arm)). Defined.

(** witness of C6 *)
Lemma hierarchy_check_constraints_secure_witness :
  let T := target_arm in let p := ExampleHierarchy.good in
  wp (hierarchy_check_constraints p empty_avtab) (λ rc _, rc = 0 →
    ∀ sel s s' u c b, parent_value p s = Some (Some s') → parent_value p u = Some None →
      Z.testbit (default 0 (effective p [ExampleHierarchy.te_rules] sel !! (s, u, c))) b = true →
      Z.testbit (default 0 (effective p [ExampleHierarchy.te_rules] sel !! (s', u, c))) b = true) fresh_heap.
Proof. exact (@hierarchy_check_constraints_secure target_arm _ _ empty_avtab fresh_heap (@ExampleHierarchy.good_wf target_arm)). Defined.

(** the search among the rules of a conditional does not look at their
    kind, so that an auditallow rule for the parent passes for an allow rule:
    with memory the check accepts a policy of which a child may in one branch do
    what its parent may not. *)
Theorem hierarchy_takes_audit_for_allow :
  let T := target_arm in let p := ExampleHierarchy.audited in
  wp (hierarchy_check_constraints p empty_avtab) (λ rc _, rc = 0) fresh_heap ∧
  parent_value p 2 = Some (Some 1) ∧ parent_value p 3 = Some None ∧
  let given := branch p (true_list ExampleHierarchy.cond) in
  given !! (2, 3, 2) = Some 2 ∧ given !! (1, 3, 2) = None ∧ unconditional p [] !! (1, 3, 2) = None.
Proof. cbv zeta. split; [by vm_compute|]. by vm_compute. Qed.
