(* ===== verification/ExpandSets.v ===== *)
(** * Sets of types and roles, levels ([expand.c], first part)

    A rule of a module names sets of types: types and attributes, those that are
    excepted, all types or the complement.  [type_set_expand] makes the bitmap
    of the types meant, [role_set_expand] that of roles, [map_ebitmap]
    translates the values of a module, and [mls_semantic_level_expand] makes a
    level of sensitivity and ranges of categories. *)

From S2P Require Import Prelude Hashtab Symtab Ebitmap Context Policydb Mls Constraint.

Inductive range_state := RangeMade | HighUnset | SourceFreed.

(** ** Operations *)

Section operations.
Context `{Target}.

(** [if (ebitmap_set_bit(dst, bit, value)) return -1;] *)
Definition set_or_fail (dst : ebitmap) (bit value : Z) : CM ((Z * ebitmap) + ebitmap) :=
  '(rc, dst) ← ebitmap_set_bit dst bit value;
  mret (if truth rc then inl (-1, dst) else inr dst).
(** the same for [ebitmap_union] *)
Definition union_or_fail (dst e : ebitmap) : CM ((Z * ebitmap) + ebitmap) :=
  '(rc, dst) ← ebitmap_union dst e;
  mret (if truth rc then inl (-1, dst) else inr dst).

(** a loop over the set bits that builds a bitmap *)
Definition for_members (e : ebitmap) (body : Z → ebitmap → CM ((Z * ebitmap) + ebitmap)) (dst : ebitmap) : CM (Z * ebitmap) :=
  r ← ebitmap_for_each_bit e (λ bit i dst, if bit then body i dst else mret (inr dst)) dst;
  mret (match r with inl ret => ret | inr (dst, _) => (0, dst) end).

(** [map] is an array indexed from 0 *)
Definition map_ebitmap (src : ebitmap) (map : list Z) : CM (Z * ebitmap) :=
  for_members src (λ i dst,
    v ← deref (at_index map (i + 1));
    if negb (truth v) then mret (inr dst) else set_or_fail dst (u32 (v - 1)) 1) ebitmap_init.

(** the first loop wants every type to be there, the second does not *)
Definition add_type (p : policydb) (i : Z) (dst : ebitmap) : CM ((Z * ebitmap) + ebitmap) :=
  ty ← deref (at_val (type_val_to_struct p) (i + 1));
  if type_flavor ty =? TYPE_ATTRIB then union_or_fail dst (type_types ty) else set_or_fail dst i 1.
Definition add_neg_type (p : policydb) (i : Z) (dst : ebitmap) : CM ((Z * ebitmap) + ebitmap) :=
  ty ← deref (at_index (type_val_to_struct p) (i + 1));
  match ty with
  | Some ty => if type_flavor ty =? TYPE_ATTRIB then union_or_fail dst (type_types ty) else set_or_fail dst i 1
  | None => set_or_fail dst i 1
  end.
(** [p->type_val_to_struct[i]] is an attribute *)
Definition is_attribute (p : policydb) (i : Z) : CM bool :=
  ty ← deref (at_index (type_val_to_struct p) (i + 1));
  mret (match ty with Some ty => type_flavor ty =? TYPE_ATTRIB | None => false end).

Definition type_set_expand (set : type_set) (p : policydb) (alwaysexpand : bool) : CM (Z * ebitmap) :=
  '(rc, types) ← (if alwaysexpand || truth (ebitmap_length (ts_negset set)) || truth (ts_flags set)
                  then for_members (ts_types set) (add_type p) ebitmap_init else ebitmap_cpy (ts_types set));
  if truth rc then mret (-1, ebitmap_init) else
  '(rc, neg_types) ← for_members (ts_negset set) (add_neg_type p) ebitmap_init;
  if truth rc then mret (-1, ebitmap_init) else
  if truth (Z.land (ts_flags set) TYPE_STAR) then
    loop_result <$> for_loop 0 (nprim (p_types p)) (λ i t,
      if truth (ebitmap_get_bit neg_types i) then mret (inr t) else
      attr ← is_attribute p i;
      if (attr : bool) then mret (inr t) else set_or_fail t i 1) ebitmap_init
  else
  '(rc, t) ← for_members types (λ i t,
               if truth (ebitmap_get_bit neg_types i) then mret (inr t) else set_or_fail t i 1) ebitmap_init;
  if truth rc then mret (-1, t) else
  if truth (Z.land (ts_flags set) TYPE_COMP) then
    loop_result <$> for_loop 0 (nprim (p_types p)) (λ i t,
      attr ← is_attribute p i;
      if (attr : bool) then
        (* the assertion *)
        if truth (ebitmap_get_bit t i) then undefined else mret (inr t)
      else set_or_fail t i (if truth (ebitmap_get_bit t i) then 0 else 1)) t
  else mret (0, t).
(** [typemap] translates the values of the module *)
Definition expand_convert_type_set (p : policydb) (typemap : list Z) (set : type_set) (alwaysexpand : bool) : CM (Z * ebitmap) :=
  '(rc, types) ← map_ebitmap (ts_types set) typemap;
  if truth rc then mret (-1, ebitmap_init) else
  '(rc, negset) ← map_ebitmap (ts_negset set) typemap;
  if truth rc then mret (-1, ebitmap_init) else
  '(rc, types) ← type_set_expand (TypeSet types negset (ts_flags set)) p alwaysexpand;
  mret (if truth rc then -1 else 0, types).

(** the loop that inverts a bitmap in place: its end is read again in each
    round; [fuel] is at least the number of rounds left *)
Fixpoint invert_loop (fuel : nat) (i : Z) (r : ebitmap) : CM (Z * ebitmap) :=
  if i <? ebitmap_length r then
    match fuel with
    | O => undefined
    | S fuel =>
        x ← set_or_fail r i (if truth (ebitmap_get_bit r i) then 0 else 1);
        match x with inl ret => mret ret | inr r => invert_loop fuel (i + 1) r end
    end
  else mret (0, r).
(** the loop over all roles: [i < p->p_roles.nprim++] counts a role more at every
    test; it ends when the counter wraps or a bit is past the end of bitmaps, at
    the latest after 2^32 rounds *)
Fixpoint star_loop (fuel : nat) (i nprim : Z) (r : ebitmap) : CM (Z * ebitmap * Z) :=
  if i <? nprim then
    match fuel with
    | O => undefined
    | S fuel =>
        x ← set_or_fail r i 1;
        match x with
        | inl (rc, r) => mret (rc, r, u32 (nprim + 1))
        | inr r => star_loop fuel (i + 1) (u32 (nprim + 1)) r
        end
    end
  else mret (0, r, u32 (nprim + 1)).
(** what follows it; [base] and [rolemap] come together *)
Definition named_roles_expand (x : role_set) (base : option (policydb * list Z)) : CM (Z * ebitmap) :=
  '(rc, mapped_roles) ←
    match base with
    | Some (base, rolemap) =>
        '(rc, roles) ← for_members (rs_roles x) (λ i roles,
                         role ← deref (at_val (role_val_to_struct base) (i + 1));
                         if role_flavor role =? ROLE_ATTRIB then union_or_fail roles (role_roles role)
                         else set_or_fail roles i 1) ebitmap_init;
        if truth rc then mret (-1, roles) else map_ebitmap roles rolemap
    | None => ebitmap_cpy (rs_roles x)
    end;
  if truth rc then mret (-1, ebitmap_init) else
  '(rc, r) ← for_members mapped_roles (λ i r, set_or_fail r i 1) ebitmap_init;
  if truth rc then mret (-1, r) else
  if truth (Z.land (rs_flags x) ROLE_COMP) then invert_loop (Z.to_nat (ebitmap_length r)) 0 r else mret (0, r).
(** [nprim] is [out->p_roles.nprim], and the last component what it becomes *)
Definition role_set_expand (x : role_set) (nprim : Z) (base : option (policydb * list Z)) : CM (Z * ebitmap * Z) :=
  if truth (Z.land (rs_flags x) ROLE_STAR) then star_loop (Z.to_nat (2 ^ 32)) 0 nprim ebitmap_init else
  '(rc, r) ← named_roles_expand x base;
  mret (rc, r, nprim).

(** *** Levels *)

(** the loop over the categories of a range *)
Definition add_categories (c : mls_semantic_cat) (cats : ebitmap) : CM ((Z * ebitmap) + ebitmap) :=
  if sc_high c <? sc_low c then mret (inl (-1, cats)) else
  for_loop (u32 (sc_low c - 1)) (sc_high c) (λ i cats, set_or_fail cats i 1) cats.
Definition mls_semantic_level_expand (sl : mls_semantic_level) (p : policydb) : CM (Z * mls_level) :=
  if negb (truth (mls p)) then mret (0, mls_level_init) else
  if negb (truth (sl_sens sl)) then mret (0, mls_level_init) else
  name ← deref (at_val (p_sens_val_to_name p) (sl_sens sl));
  levdatum ← hashtab_search (table (p_levels p)) name;
  match levdatum with
  | None => mret (-1, MlsLevel (sl_sens sl) ebitmap_init)
  | Some _ =>
      (* a category that the level does not have is reported and set *)
      r ← for_list (sl_cat sl) add_categories ebitmap_init;
      mret (let '(rc, cats) := loop_result r in (rc, MlsLevel (sl_sens sl) cats))
  end.
(** the last component tells what an error leaves: the high level was not
    written, or the low level of the source was destroyed *)
Definition mls_semantic_range_expand (sr : mls_semantic_range) (p : policydb) : CM (Z * mls_range * range_state) :=
  '(rc, low) ← mls_semantic_level_expand (sr_low sr) p;
  if rc <? 0 then mret (-1, MlsRange low mls_level_init, HighUnset) else
  '(rc, high) ← mls_semantic_level_expand (sr_high sr) p;
  if rc <? 0 then mret (-1, MlsRange low high, SourceFreed) else
  if negb (mls_level_dom high low) then mret (-1, mls_range_destroy (MlsRange low high), RangeMade)
  else mret (0, MlsRange low high, RangeMade).
End operations.

(** *** Addresses only grow *)

Section monotone.
Context `{Target}.
#[export] Instance set_or_fail_monotone dst bit value : Monotone (set_or_fail dst bit value).
Proof. unfold set_or_fail. monotone. Qed.
#[export] Instance union_or_fail_monotone dst e : Monotone (union_or_fail dst e).
Proof. unfold union_or_fail. monotone. Qed.
#[export] Instance for_members_monotone e body dst : (∀ i dst, Monotone (body i dst)) → Monotone (for_members e body dst).
Proof. intros ?. unfold for_members. monotone. Qed.
#[export] Instance type_set_expand_monotone set p always : Monotone (type_set_expand set p always).
Proof. unfold type_set_expand, add_type, add_neg_type, is_attribute. monotone. Qed.
#[export] Instance expand_convert_type_set_monotone p typemap set always : Monotone (expand_convert_type_set p typemap set always).
Proof. unfold expand_convert_type_set, map_ebitmap. monotone. Qed.
End monotone.

(** ** Meaning *)

(** the union of what the elements of a set stand for *)
Definition members (f : Z → gset Z) (X : gset Z) : gset Z := ⋃ (f <$> elements X).
(** the image of an element under a map, from which some values are missing *)
Definition image (map : list Z) (i : Z) : gset Z :=
  match at_index map (i + 1) with
  | Some v => if truth v then {[ v - 1 ]} else ∅
  | None => ∅
  end.
(** what a type, attribute, role or role attribute stands for *)
Definition type_members (p : policydb) (i : Z) : gset Z :=
  match at_val (type_val_to_struct p) (i + 1) with
  | Some ty => if type_flavor ty =? TYPE_ATTRIB then ebitmap_set (type_types ty) else {[ i ]}
  | None => {[ i ]}
  end.
Definition role_members (p : policydb) (i : Z) : gset Z :=
  match at_val (role_val_to_struct p) (i + 1) with
  | Some r => if role_flavor r =? ROLE_ATTRIB then ebitmap_set (role_roles r) else {[ i ]}
  | None => {[ i ]}
  end.
(** all types *)
Definition attribute (p : policydb) (i : Z) : bool :=
  match at_val (type_val_to_struct p) (i + 1) with Some ty => type_flavor ty =? TYPE_ATTRIB | None => false end.
Definition universe (p : policydb) : gset Z :=
  list_to_set (filter (λ i, attribute p i = false) (seqZ 0 (nprim (p_types p)))).
(** the types of a set: all of them but those excepted, or those named but those
    excepted, or the types that are not among these *)
Definition denoted_types (p : policydb) (flags : Z) (types negset : gset Z) : gset Z :=
  if truth (Z.land flags TYPE_STAR) then universe p ∖ negset
  else if truth (Z.land flags TYPE_COMP) then universe p ∖ (types ∖ negset)
  else types ∖ negset.
Definition type_set_types (p : policydb) (set : type_set) (types negset : gset Z) (alwaysexpand : bool) : gset Z :=
  denoted_types p (ts_flags set)
    (if alwaysexpand || negb (bool_decide (negset = ∅)) || truth (ts_flags set) then members (type_members p) types else types)
    (members (type_members p) negset).
(** the roles of a set, in the values of the policy *)
Definition mapped_roles (roles : gset Z) (base : option (policydb * list Z)) : gset Z :=
  match base with
  | Some (b, rolemap) => members (image rolemap) (members (role_members b) roles)
  | None => roles
  end.
(** the categories of ranges *)
Definition categories (l : list mls_semantic_cat) : gset Z :=
  ⋃ ((λ c, list_to_set (seqZ (sc_low c - 1) (sc_high c - sc_low c + 1))) <$> l).

(** what a level means, and when it means anything: nothing without MLS or when
    it was required and not declared *)
Definition level_used (p : policydb) (sl : mls_semantic_level) : bool := truth (mls p) && truth (sl_sens sl).
Definition level_meant (p : policydb) (sl : mls_semantic_level) : Z * gset Z :=
  if level_used p sl then (sl_sens sl, categories (sl_cat sl)) else (0, ∅).
Definition sem_level_valid (p : policydb) (sl : mls_semantic_level) : Prop :=
  level_used p sl = true →
  (∃ name d, at_val (p_sens_val_to_name p) (sl_sens sl) = Some name ∧ table_map (table (p_levels p)) !! name = Some d) ∧
  Forall (λ c, sc_low c ≤ sc_high c) (sl_cat sl).
(** values of 32 bits, and a name for the sensitivity *)
Definition level_safe (p : policydb) (sl : mls_semantic_level) : Prop :=
  (truth (sl_sens sl) = true → is_Some (at_val (p_sens_val_to_name p) (sl_sens sl))) ∧
  Forall (λ c, 1 ≤ sc_low c < 2 ^ 32 ∧ sc_high c ≤ 2 ^ 32 - 64) (sl_cat sl).
Definition level_is (l : mls_level) (m : Z * gset Z) : Prop := ebitmap_wf (cat l) ∧ sens l = m.1 ∧ ebitmap_set (cat l) = m.2.

(** values that fit a bitmap *)
Definition BITS : Z := 2 ^ 32 - 64.
Record types_wf (p : policydb) : Prop := {
  tw_structs i : 0 ≤ i < nprim (p_types p) → is_Some (at_index (type_val_to_struct p) (i + 1));
  tw_nprim : 0 ≤ nprim (p_types p) ≤ BITS;
  tw_attributes i ty : at_val (type_val_to_struct p) i = Some ty → type_flavor ty = TYPE_ATTRIB →
    ebitmap_wf (type_types ty) ∧ ebitmap_set (type_types ty) ⊆ universe p
}.
(** the types named are there *)
Definition names_types (p : policydb) (types : gset Z) : Prop :=
  ∀ i, i ∈ types → 0 ≤ i < nprim (p_types p) ∧ is_Some (at_val (type_val_to_struct p) (i + 1)).

(** the roles named are there, and so are the roles of attributes *)
Definition names_roles (x : role_set) (base : option (policydb * list Z)) : Prop :=
  ebitmap_wf (rs_roles x) ∧
  ∀ b rolemap, base = Some (b, rolemap) → Forall (λ v, 0 ≤ v ≤ BITS) rolemap ∧
    ∀ i, i ∈ ebitmap_set (rs_roles x) → ∃ r, at_val (role_val_to_struct b) (i + 1) = Some r ∧ ebitmap_wf (role_roles r) ∧
      ∀ j, j ∈ role_members b i → is_Some (at_index rolemap (j + 1)).

Section theory.
Context `{Target}.
Implicit Types (e dst : ebitmap) (i bit : Z) (X : gset Z) (h : heap) (p : policydb).

Lemma elem_of_members f X x : x ∈ members f X ↔ ∃ i, i ∈ X ∧ x ∈ f i.
Proof.
  unfold members. rewrite elem_of_union_list. setoid_rewrite list_elem_of_fmap. setoid_rewrite elem_of_elements. naive_solver.
Qed.
Lemma elem_of_universe p i : i ∈ universe p ↔ 0 ≤ i < nprim (p_types p) ∧ attribute p i = false.
Proof. unfold universe. rewrite elem_of_list_to_set, list_elem_of_filter, elem_of_seqZ. lia || naive_solver lia. Qed.

(** a step that makes the set [X], a loop that does *)
Definition grows h X (r : (Z * ebitmap) + ebitmap) h' : Prop :=
  mem_step h h' (∃ e, r = inr e) ∧
  match r with inl (rc, _) => rc = -1 | inr e => ebitmap_wf e ∧ ebitmap_set e = X end.
Definition makes h X '((rc, e) : Z * ebitmap) h' : Prop :=
  mem_step h h' (rc = 0) ∧ (rc = 0 ∧ ebitmap_wf e ∧ ebitmap_set e = X ∨ rc < 0).

Lemma set_or_fail_wp e bit value h :
  ebitmap_wf e → 0 ≤ bit < BITS →
  wp (set_or_fail e bit value) (grows h (if truth value then {[ bit ]} ∪ ebitmap_set e else ebitmap_set e ∖ {[ bit ]})) h.
Proof.
  intros He Hb. apply wp_bind. eapply wp_mono; [by apply ebitmap_set_bit_wp|].
  intros [rc e'] h' (Hm&Hwf&[[-> Hbits]|[-> ->]]); apply wp_ret; split; try done; [mem| |].
  - split; [done|]. apply ebitmap_set_ext; [done|]. intros i. rewrite Hbits.
    assert (i ∈ ebitmap_set e ↔ nodes_bit (node e) i = true) as Hi by by apply elem_of_ebitmap_set.
    destruct (Z.eqb_spec i bit) as [->|Hne]; destruct (truth value); set_solver.
  - intros Ho. by destruct (Hm Ho).
Qed.
Lemma union_or_fail_wp e1 e2 h :
  ebitmap_wf e1 → ebitmap_wf e2 → wp (union_or_fail e1 e2) (grows h (ebitmap_set e1 ∪ ebitmap_set e2)) h.
Proof.
  intros He1 He2. apply wp_bind, wp_bind. eapply wp_mono; [by apply ebitmap_or_wp|].
  intros [rc [n hb]] h' (Hm&Hwf&[[-> Hs]|[-> He]]); apply wp_ret, wp_ret; split; try done; [mem|].
  intros Ho. by destruct (Hm Ho).
Qed.
Lemma for_members_wp e body dst (f : Z → gset Z) h :
  ebitmap_wf e → ebitmap_wf dst →
  (∀ i dst h, i ∈ ebitmap_set e → ebitmap_wf dst → wp (body i dst) (grows h (ebitmap_set dst ∪ f i)) h) →
  wp (for_members e body dst) (makes h (ebitmap_set dst ∪ members f (ebitmap_set e))) h.
Proof.
  intros He Hd Hbody. apply wp_bind.
  apply (wp_ebitmap_for_each_member (λ l dst' h', mem_step h h' True ∧ ebitmap_wf dst' ∧
    ∀ x, x ∈ ebitmap_set dst' ↔ x ∈ ebitmap_set dst ∨ ∃ i, i ∈ l ∧ x ∈ f i)); [done|done| | |].
  - split; [by apply mem_step_refl|]. split; [done|]. intros x. split; [by left|]. intros [?|(i&Hi&_)]; [done|by apply elem_of_nil in Hi].
  - intros i l1 l2 dst1 h1 Hl (Hm&Hd1&Hs1). eapply wp_mono; [apply Hbody; [|done]|].
    { unfold ebitmap_set. rewrite elem_of_list_to_set, Hl. set_solver. }
    intros [[rc e']|e'] h2 [Hm2 H2].
    + subst rc. apply wp_ret. split; [|by right]. intros Ho. destruct (Hm Ho) as [Ho1 _]. by destruct (Hm2 Ho1) as [_ [? ?]].
    + destruct H2 as [Hwf Hset]. split; [mem|]. split; [done|]. intros x. rewrite Hset, elem_of_union, Hs1.
      setoid_rewrite elem_of_app. setoid_rewrite list_elem_of_singleton. naive_solver.
  - intros dst1 h1 (Hm&Hd1&Hs1). apply wp_ret. split; [mem|]. left. split; [done|]. split; [done|].
    apply set_eq. intros x. rewrite Hs1, elem_of_union, elem_of_members. unfold ebitmap_set at 3. by setoid_rewrite elem_of_list_to_set.
Qed.

(** a loop over all values: each decides about its own bit *)
Lemma for_values_wp n body t0 (Y : gset Z) h :
  0 ≤ n → ebitmap_wf t0 →
  (∀ i t h, 0 ≤ i < n → ebitmap_wf t → (i ∈ ebitmap_set t ↔ i ∈ ebitmap_set t0) →
    wp (body i t) (grows h (if bool_decide (i ∈ Y) then {[ i ]} ∪ ebitmap_set t else ebitmap_set t ∖ {[ i ]})) h) →
  (∀ i, i ∈ Y → 0 ≤ i < n) → (∀ i, i ∈ ebitmap_set t0 → 0 ≤ i < n) →
  wp (loop_result <$> for_loop 0 n body t0) (makes h Y) h.
Proof.
  intros Hn Ht0 Hbody HY HX. apply wp_fmap.
  apply (wp_for_loop (λ i t h', mem_step h h' True ∧ ebitmap_wf t ∧
    ∀ x, x ∈ ebitmap_set t ↔ if bool_decide (x < i) then x ∈ Y else x ∈ ebitmap_set t0)).
  - split; [by apply mem_step_refl|]. split; [done|]. intros x. case_bool_decide as Hx; [|done].
    split; [intros ?%HX|intros ?%HY]; lia.
  - intros i t h1 Hi (Hm&Ht&Hs). eapply wp_mono; [apply Hbody; [done|done|]|].
    { rewrite Hs. by rewrite bool_decide_eq_false_2 by lia. }
    intros [[rc e']|e'] h2 [Hm2 H2].
    + subst rc. split; [|by right]. intros Ho. destruct (Hm Ho) as [Ho1 _]. by destruct (Hm2 Ho1) as [_ [? ?]].
    + destruct H2 as [Hwf Hset]. split; [mem|]. split; [done|]. intros x. rewrite Hset.
      assert (Hlt : bool_decide (x < i + 1) = bool_decide (x < i) || bool_decide (x = i))
        by (apply eq_true_iff_eq; rewrite orb_true_iff, !bool_decide_eq_true; lia).
      rewrite Hlt. specialize (Hs x). destruct (decide (x = i)) as [->|Hne].
      * rewrite (bool_decide_eq_true_2 (i = i)), orb_true_r by done.
        destruct (decide (i ∈ Y)) as [Hy|Hy]; [rewrite (bool_decide_eq_true_2 (i ∈ Y)) by done|rewrite (bool_decide_eq_false_2 (i ∈ Y)) by done];
          rewrite ?elem_of_union, ?elem_of_difference, elem_of_singleton; tauto.
      * rewrite (bool_decide_eq_false_2 (x = i)), orb_false_r by done. rewrite <- Hs.
        destruct (decide (i ∈ Y)) as [Hy|Hy]; [rewrite (bool_decide_eq_true_2 (i ∈ Y)) by done|rewrite (bool_decide_eq_false_2 (i ∈ Y)) by done];
          rewrite ?elem_of_union, ?elem_of_difference, elem_of_singleton; tauto.
  - intros t h1 (Hm&Ht&Hs). split; [mem|left]. split_and!; [done|done|]. apply set_eq. intros x. rewrite Hs.
    rewrite Z.max_r by lia. case_bool_decide as Hx; [done|]. split; [intros ?%HX|intros ?%HY]; lia.
Qed.

(** a bit that is not set and is not to be *)
Lemma keep_bit i t (Y : gset Z) h :
  ebitmap_wf t → i ∉ ebitmap_set t → i ∉ Y →
  wp (mret (inr t)) (grows h (if bool_decide (i ∈ Y) then {[ i ]} ∪ ebitmap_set t else ebitmap_set t ∖ {[ i ]})) h.
Proof.
  intros Ht Hi HY. rewrite bool_decide_eq_false_2 by done. apply wp_ret. split; [by apply mem_step_refl; eexists|].
  split; [done|]. set_solver.
Qed.

(** ** Values of a module *)

Lemma makes_bind {B} (m : CM (Z * ebitmap)) (f : Z * ebitmap → CM B) X (Q : B → heap → Prop) h :
  wp m (makes h X) h →
  (∀ rc e h', makes h X (rc, e) h' → wp (f (rc, e)) Q h') → wp (m ≫= f) Q h.
Proof. intros Hm Hf. apply wp_bind. eapply wp_mono; [exact Hm|]. intros [rc e] h' ?. by apply Hf. Qed.

Lemma makes_fail h h' X (e : ebitmap) : mem_step h h' False → wp (mret (-1, e)) (makes h X) h'.
Proof. intros Hm. apply wp_ret. split; [mem|right; lia]. Qed.
Lemma makes_later (m : CM (Z * ebitmap)) h1 h2 X : mem_step h1 h2 True → wp m (makes h2 X) h2 → wp m (makes h1 X) h2.
Proof. intros Hm Hw. eapply wp_mono; [exact Hw|]. intros [rc e] h3 [Hm3 H3]. split; [mem|done]. Qed.

Lemma map_ebitmap_wp e map h :
  ebitmap_wf e → Forall (λ v, 0 ≤ v ≤ BITS) map → (∀ i, i ∈ ebitmap_set e → is_Some (at_index map (i + 1))) →
  wp (map_ebitmap e map) (makes h (members (image map) (ebitmap_set e))) h.
Proof.
  intros He Hmap Hin. unfold map_ebitmap. rewrite <- (union_empty_l_L (members _ _)), <- ebitmap_init_set.
  apply for_members_wp; [done|apply ebitmap_init_wf|]. intros i dst h1 Hi Hd. destruct (Hin i Hi) as [v Hv].
  unfold image. rewrite Hv. eapply wp_bind, wp_deref; [done|].
  assert (0 ≤ v ≤ BITS) as Hr.
  { unfold at_index in Hv. destruct (_ <? 1); [done|]. rewrite Forall_lookup in Hmap. by eapply Hmap. }
  destruct (truth v) eqn:Ev; cbn [negb].
  - apply truth_true in Ev. unfold u32. rewrite wrap_id by (unfold BITS in Hr; lia).
    rewrite (union_comm_L (ebitmap_set dst)). apply (set_or_fail_wp _ _ 1); [done|lia].
  - apply wp_ret. split; [by apply mem_step_refl; eexists|]. split; [done|]. by rewrite union_empty_r_L.
Qed.

(** ** Sets of types *)

Lemma at_val_join {A} (a : list (option A)) v : at_val a v = mjoin (at_index a v).
Proof. unfold at_val, at_index. by destruct (v <? 1). Qed.

Lemma add_member_wp p i dst (X : gset Z) h :
  types_wf p → 0 ≤ i < nprim (p_types p) → ebitmap_wf dst →
  ∀ ty, at_val (type_val_to_struct p) (i + 1) = Some ty →
  wp (if type_flavor ty =? TYPE_ATTRIB then union_or_fail dst (type_types ty) else set_or_fail dst i 1)
    (grows h (ebitmap_set dst ∪ type_members p i)) h.
Proof.
  intros Hp Hi Hd ty Hty. unfold type_members. rewrite Hty. destruct (Z.eqb_spec (type_flavor ty) TYPE_ATTRIB) as [Ha|Ha].
  - apply union_or_fail_wp; [done|]. by apply (tw_attributes _ Hp (i + 1) ty).
  - rewrite union_comm_L. apply (set_or_fail_wp _ _ 1); [done|]. pose proof (tw_nprim _ Hp). lia.
Qed.
Lemma add_type_wp p i dst h :
  types_wf p → 0 ≤ i < nprim (p_types p) → is_Some (at_val (type_val_to_struct p) (i + 1)) → ebitmap_wf dst →
  wp (add_type p i dst) (grows h (ebitmap_set dst ∪ type_members p i)) h.
Proof. intros Hp Hi [ty Hty] Hd. eapply wp_bind, wp_deref; [done|]. by apply (add_member_wp p i dst ∅). Qed.
Lemma add_neg_type_wp p i dst h :
  types_wf p → 0 ≤ i < nprim (p_types p) → ebitmap_wf dst →
  wp (add_neg_type p i dst) (grows h (ebitmap_set dst ∪ type_members p i)) h.
Proof.
  intros Hp Hi Hd. destruct (tw_structs _ Hp i Hi) as [o Ho]. eapply wp_bind, wp_deref; [done|].
  pose proof (at_val_join (type_val_to_struct p) (i + 1)) as Hv. rewrite Ho in Hv. cbn in Hv. destruct o as [ty|].
  - by apply (add_member_wp p i dst ∅).
  - unfold type_members. rewrite Hv, union_comm_L. apply (set_or_fail_wp _ _ 1); [done|]. pose proof (tw_nprim _ Hp). lia.
Qed.
Lemma is_attribute_wp p i (Q : bool → heap → Prop) h :
  types_wf p → 0 ≤ i < nprim (p_types p) → Q (attribute p i) h → wp (is_attribute p i) Q h.
Proof.
  intros Hp Hi HQ. destruct (tw_structs _ Hp i Hi) as [o Ho]. eapply wp_bind, wp_deref; [done|]. apply wp_ret.
  unfold attribute in HQ. rewrite at_val_join, Ho in HQ. by destruct o.
Qed.

(** no type named stands for anything but types *)
Lemma members_universe p X : types_wf p → names_types p X → members (type_members p) X ⊆ universe p.
Proof.
  intros Hp Hn x (i&Hi&Hx)%elem_of_members. destruct (Hn i Hi) as [Hr [ty Hty]]. unfold type_members in Hx. rewrite Hty in Hx.
  destruct (Z.eqb_spec (type_flavor ty) TYPE_ATTRIB) as [Ha|Ha].
  - by apply (tw_attributes _ Hp (i + 1) ty).
  - apply elem_of_singleton in Hx as ->. apply elem_of_universe. split; [done|]. unfold attribute. rewrite Hty. by apply Z.eqb_neq.
Qed.

Lemma truth_length e : ebitmap_wf e → truth (ebitmap_length e) = negb (bool_decide (ebitmap_set e = ∅)).
Proof.
  intros He. pose proof He as [Hn Hh]. unfold ebitmap_length. rewrite Hh. destruct (node e) as [|n ns] eqn:En.
  - rewrite bool_decide_eq_true_2; [done|]. apply ebitmap_set_ext; [done|]. intros i. rewrite En. cbn. set_solver.
  - rewrite bool_decide_eq_false_2.
    + apply truth_true. pose proof Hn as [? Hn']. pose proof (nodes_end_ge _ _ Hn). rewrite nodes_end_cons.
      destruct Hn' as (?&?). pose proof (nodes_end_ge (startbit n + 64) ns ltac:(tauto)). lia.
    + intros Hs. destruct (nodes_end_has_bit 0 (node e)) as (i&_&Hb); [by rewrite En|by rewrite En|].
      apply elem_of_ebitmap_set in Hb; [|done]. rewrite Hs in Hb. set_solver.
Qed.

Lemma type_set_expand_wp p set always h :
  types_wf p → ebitmap_wf (ts_types set) → ebitmap_wf (ts_negset set) → names_types p (ebitmap_set (ts_types set)) →
  (∀ i, i ∈ ebitmap_set (ts_negset set) → 0 ≤ i < nprim (p_types p)) →
  wp (type_set_expand set p always)
    (makes h (type_set_types p set (ebitmap_set (ts_types set)) (ebitmap_set (ts_negset set)) always)) h.
Proof.
  intros Hp Ht Hn Hnames Hneg. unfold type_set_expand, type_set_types. rewrite truth_length by done.
  set (expand := always || _ || _). set (N := members _ (ebitmap_set (ts_negset set))).
  set (X := if expand then members (type_members p) (ebitmap_set (ts_types set)) else ebitmap_set (ts_types set)).
  pose proof (tw_nprim _ Hp) as Hnprim.
  apply (makes_bind _ _ X).
  { unfold X. destruct expand.
    - rewrite <- (union_empty_l_L (members _ _)), <- ebitmap_init_set. apply for_members_wp; [done|apply ebitmap_init_wf|].
      intros i dst h1 Hi Hd. by apply add_type_wp; try done; apply Hnames.
    - eapply wp_mono; [by apply ebitmap_cpy_wp|]. intros [rc e] h' [Hm [[-> ->]|[-> _]]]; (split; [mem|]); [by left|by right]. }
  intros rc1 types h1 [Hm1 H1]. destruct (truth rc1) eqn:E1; [apply truth_true in E1; apply makes_fail; mem|apply truth_false in E1].
  destruct H1 as [(_&Htw&Hts)|?]; [|lia].
  apply (makes_bind _ _ N).
  { unfold N. rewrite <- (union_empty_l_L (members _ _)), <- ebitmap_init_set. apply for_members_wp; [done|apply ebitmap_init_wf|].
    intros i dst h2 Hi Hd. by apply add_neg_type_wp; try done; apply Hneg. }
  intros rc2 neg h2 [Hm2 H2]. destruct (truth rc2) eqn:E2; [apply truth_true in E2; apply makes_fail; mem|apply truth_false in E2].
  destruct H2 as [(_&Hnw&Hns)|?]; [|lia]. assert (mem_step h h2 True) as Hm by mem.
  assert (Hget : ∀ i, truth (ebitmap_get_bit neg i) = bool_decide (i ∈ N))
    by (intros i; rewrite truth_get_bit by done; apply eq_true_iff_eq; rewrite bool_decide_eq_true, <- Hns; by rewrite elem_of_ebitmap_set).
  unfold denoted_types. destruct (truth (Z.land (ts_flags set) TYPE_STAR)).
  - eapply makes_later; [exact Hm|]. apply for_values_wp; [lia|apply ebitmap_init_wf| |by intros i [[? _]%elem_of_universe _]%elem_of_difference|by intros i []%elem_of_empty].
    intros i t h3 Hi Ht3 Hit. assert (i ∉ ebitmap_set t) as Hnt by (rewrite Hit; set_solver). rewrite Hget. destruct (bool_decide_reflect (i ∈ N)) as [HN|HN].
    { apply keep_bit; [done|done|]. by intros [_ ?]%elem_of_difference. }
    apply wp_bind, is_attribute_wp; [done|done|]. destruct (attribute p i) eqn:Ea.
    { apply keep_bit; [done|done|]. intros [[_ ?]%elem_of_universe _]%elem_of_difference. congruence. }
    rewrite (bool_decide_eq_true_2 (i ∈ _)) by (apply elem_of_difference; split; [by apply elem_of_universe|done]).
    apply (set_or_fail_wp _ _ 1); [done|lia].
  - apply (makes_bind _ _ (X ∖ N)).
    { replace (X ∖ N) with (ebitmap_set ebitmap_init ∪ members (λ i, {[ i ]} ∖ N) X); cycle 1.
      { rewrite ebitmap_init_set, union_empty_l_L. apply set_eq. intros x. rewrite elem_of_members. set_solver. }
      rewrite <- Hts. apply for_members_wp; [done|apply ebitmap_init_wf|]. intros i t h3 Hi Ht3. rewrite Hget.
      destruct (bool_decide_reflect (i ∈ N)) as [HN|HN].
      - apply wp_ret. split; [by apply mem_step_refl; eexists|]. split; [done|]. set_solver.
      - replace ({[ i ]} ∖ N) with ({[ i ]} : gset Z) by set_solver. rewrite (union_comm_L (ebitmap_set t)).
        apply (set_or_fail_wp _ _ 1); [done|]. rewrite Hts in Hi. unfold X in Hi. destruct expand.
        + apply (members_universe p) in Hi; [|done|done]. apply elem_of_universe in Hi. lia.
        + destruct (Hnames i Hi). lia. }
    intros rc3 t h3 [Hm3 H3]. destruct (truth rc3) eqn:E3; [apply truth_true in E3; apply makes_fail; mem|apply truth_false in E3].
    destruct H3 as [(_&Ht3&Hs3)|?]; [|lia].
    destruct (truth (Z.land (ts_flags set) TYPE_COMP)) eqn:Ec; [|apply wp_ret; split; [mem|by left]].
    assert (X ⊆ universe p) as HX.
    { unfold X, expand. assert (truth (ts_flags set) = true) as ->; [|rewrite orb_true_r; by apply members_universe].
      apply truth_true. intros E0. by rewrite E0 in Ec. }
    eapply makes_later; [mem|]. apply for_values_wp; [lia|done| |by intros i [[? _]%elem_of_universe _]%elem_of_difference|].
    2: { intros i. rewrite Hs3. intros [[? _]%HX%elem_of_universe _]%elem_of_difference. done. }
    intros i t' h4 Hi Ht4 Hit. rewrite Hs3 in Hit. apply wp_bind, is_attribute_wp; [done|done|].
    assert (Hget' : truth (ebitmap_get_bit t' i) = bool_decide (i ∈ X ∖ N))
      by (rewrite truth_get_bit by done; apply eq_true_iff_eq; rewrite bool_decide_eq_true, <- Hit; by rewrite elem_of_ebitmap_set).
    rewrite Hget'. destruct (attribute p i) eqn:Ea.
    + assert (i ∉ universe p) as Hno by (rewrite elem_of_universe; intros [_ ?]; congruence).
      rewrite (bool_decide_eq_false_2 (i ∈ X ∖ N)) by set_solver. apply keep_bit; [|set_solver|set_solver]. done.
    + assert (i ∈ universe p) as Hu by by apply elem_of_universe. destruct (decide (i ∈ X ∖ N)) as [Hin|Hin].
      * rewrite (bool_decide_eq_true_2 (i ∈ X ∖ N)), (bool_decide_eq_false_2 (i ∈ universe p ∖ _)) by set_solver.
        apply (set_or_fail_wp _ _ 0); [done|lia].
      * rewrite (bool_decide_eq_false_2 (i ∈ X ∖ N)), (bool_decide_eq_true_2 (i ∈ universe p ∖ _)) by set_solver.
        apply (set_or_fail_wp _ _ 1); [done|lia].
Qed.

(** ** Sets of roles *)

(** the bits that are set so far are those below [i] *)
Lemma star_loop_wp n fuel i r h :
  0 < n < 2 ^ 32 → 0 ≤ i ≤ BITS → i ≤ 2 ^ 32 - n → 2 ^ 32 - i ≤ Z.of_nat fuel →
  ebitmap_wf r → (∀ j, j ∈ ebitmap_set r ↔ 0 ≤ j < i) →
  wp (star_loop fuel i (u32 (n + i)) r) (λ '(rc, r, nprim) h', mem_step h h' (64 ≤ n → rc = 0) ∧ (rc = 0 ∨ rc = -1) ∧
    (rc = 0 → 64 ≤ n ∧ nprim = 1 ∧ ebitmap_wf r ∧ ∀ j, j ∈ ebitmap_set r ↔ 0 ≤ j < 2 ^ 32 - n)) h.
Proof.
  intros Hn. unfold BITS. revert i r h. induction fuel as [|fuel IH]; intros i r h Hi Hle Hf Hr Hbits; [lia|]. cbn [star_loop].
  destruct (decide (i = 2 ^ 32 - n)) as [Hend|Hend].
  { rewrite Hend in *. replace (n + (2 ^ 32 - n)) with (2 ^ 32) by lia. change (u32 (2 ^ 32)) with 0.
    destruct (Z.ltb_spec (2 ^ 32 - n) 0); [lia|]. apply wp_ret. split_and!; [mem|by left|]. intros _. by split_and!; [lia|..]. }
  unfold u32 at 1. rewrite wrap_id by lia. destruct (Z.ltb_spec i (n + i)); [|lia].
  destruct (decide (i = 2 ^ 32 - 64)) as [->|].
  { apply wp_bind. unfold wp at 1, set_or_fail, mbind, CM_bind. rewrite ebitmap_set_bit_overflow by lia. cbn.
    split_and!; [split; [done|lia]|by right|lia]. }
  apply wp_bind. eapply wp_mono; [by apply set_or_fail_wp; unfold BITS; [|lia]|]. cbn [truth].
  intros [[rc e]|e] h' [Hm Hres].
  { apply wp_ret. subst rc. split_and!; [split; [mem|]|by right|done]. intros _. destruct (Hm ltac:(done)). naive_solver. }
  destruct Hres as [Hw He]. rewrite u32_add_u32, <- Z.add_assoc.
  eapply wp_mono; [apply IH; try done; try lia|].
  - intros j. rewrite He. change (truth 1) with true. cbn. rewrite elem_of_union, elem_of_singleton, Hbits. lia.
  - intros [[rc e'] np] h2 (Hm2&H2). split; [|done]. mem.
Qed.

(** the roles named, the role attributes replaced *)
Lemma named_roles_expand_wp x base h :
  truth (Z.land (rs_flags x) ROLE_COMP) = false → names_roles x base →
  wp (named_roles_expand x base) (makes h (mapped_roles (ebitmap_set (rs_roles x)) base)) h.
Proof.
  intros Hcomp [Hx Hbase]. unfold named_roles_expand.
  assert (Hbits : ∀ i, i ∈ ebitmap_set (rs_roles x) → 0 ≤ i < BITS).
  { intros i Hi. apply elem_of_ebitmap_set, nodes_bit_range in Hi; [|done..]. pose proof (ebitmap_highbit_range _ Hx). unfold BITS. lia. }
  set (X := mapped_roles _ _).
  assert (HX : ∀ i, i ∈ X → 0 ≤ i < BITS).
  { unfold X, mapped_roles. destruct base as [[b rolemap]|]; [|done]. destruct (Hbase b rolemap eq_refl) as [Hmap _].
    intros i (j&_&Hj)%elem_of_members. unfold image in Hj. destruct (at_index rolemap (j + 1)) as [v|] eqn:Ev; [|set_solver].
    destruct (truth v) eqn:E; [|set_solver]. apply truth_true in E. apply elem_of_singleton in Hj as ->.
    unfold at_index in Ev. destruct (_ <? 1); [done|]. rewrite Forall_lookup in Hmap. apply Hmap in Ev. lia. }
  apply (makes_bind _ _ X).
  { unfold X, mapped_roles. destruct base as [[b rolemap]|].
    - destruct (Hbase b rolemap eq_refl) as [Hmap Hroles].
      apply (makes_bind _ _ (members (role_members b) (ebitmap_set (rs_roles x)))).
      + rewrite <- (union_empty_l_L (members _ _)), <- ebitmap_init_set. apply for_members_wp; [done|apply ebitmap_init_wf|].
        intros i dst h1 Hi Hd. destruct (Hroles i Hi) as (r&Hr&Hrw&_). eapply wp_bind, wp_deref; [done|].
        unfold role_members. rewrite Hr. destruct (role_flavor r =? ROLE_ATTRIB); [by apply union_or_fail_wp|].
        rewrite union_comm_L. apply (set_or_fail_wp _ _ 1); [done|by apply Hbits].
      + intros rc roles h1 [Hm1 H1]. destruct (truth rc) eqn:E; [apply truth_true in E; apply makes_fail; mem|apply truth_false in E].
        destruct H1 as [(_&Hw&Hs)|?]; [|lia]. rewrite <- Hs. eapply makes_later; [mem|]. apply map_ebitmap_wp; [done|done|].
        intros j Hj. rewrite Hs in Hj. apply elem_of_members in Hj as (i&Hi&Hj). destruct (Hroles i Hi) as (r&_&_&Hall). by apply Hall.
    - eapply wp_mono; [by apply ebitmap_cpy_wp|]. intros [rc e] h' [Hm [[-> ->]|[-> _]]]; (split; [mem|]); [by left|by right]. }
  intros rc1 mapped h1 [Hm1 H1]. destruct (truth rc1) eqn:E1; [apply truth_true in E1; apply makes_fail; mem|apply truth_false in E1].
  destruct H1 as [(_&Hw1&Hs1)|?]; [|lia].
  apply (makes_bind _ _ X).
  { replace X with (ebitmap_set ebitmap_init ∪ members (λ i, {[ i ]}) X); cycle 1.
    { rewrite ebitmap_init_set, union_empty_l_L. apply set_eq. intros y. rewrite elem_of_members. set_solver. }
    rewrite <- Hs1. apply for_members_wp; [done|apply ebitmap_init_wf|]. intros i t h2 Hi Ht.
    rewrite (union_comm_L (ebitmap_set t)). apply (set_or_fail_wp _ _ 1); [done|]. apply HX. by rewrite <- Hs1. }
  intros rc2 r h2 [Hm2 H2]. destruct (truth rc2) eqn:E2; [apply truth_true in E2; apply makes_fail; mem|apply truth_false in E2].
  destruct H2 as [(_&Hw2&Hs2)|?]; [|lia]. rewrite Hcomp. apply wp_ret. split; [mem|by left].
Qed.

Lemma expand_convert_type_set_wp p typemap set always h :
  let types := members (image typemap) (ebitmap_set (ts_types set)) in
  let negset := members (image typemap) (ebitmap_set (ts_negset set)) in
  types_wf p → Forall (λ v, 0 ≤ v ≤ BITS) typemap → ebitmap_wf (ts_types set) → ebitmap_wf (ts_negset set) →
  (∀ i, i ∈ ebitmap_set (ts_types set) ∪ ebitmap_set (ts_negset set) → is_Some (at_index typemap (i + 1))) →
  names_types p types → (∀ i, i ∈ negset → 0 ≤ i < nprim (p_types p)) →
  wp (expand_convert_type_set p typemap set always) (makes h (type_set_types p set types negset always)) h.
Proof.
  intros types negset Hp Hmap Ht Hn Hin Hnames Hneg.
  apply (makes_bind _ _ types); [apply map_ebitmap_wp; [done|done|]; intros; apply Hin; set_solver|].
  intros rc1 e1 h1 [Hm1 H1]. destruct (truth rc1) eqn:E1; [apply truth_true in E1; apply makes_fail; mem|apply truth_false in E1].
  destruct H1 as [(_&Hw1&Hs1)|?]; [|lia].
  apply (makes_bind _ _ negset); [apply map_ebitmap_wp; [done|done|]; intros; apply Hin; set_solver|].
  intros rc2 e2 h2 [Hm2 H2]. destruct (truth rc2) eqn:E2; [apply truth_true in E2; apply makes_fail; mem|apply truth_false in E2].
  destruct H2 as [(_&Hw2&Hs2)|?]; [|lia].
  apply (makes_bind _ _ (type_set_types p set types negset always)).
  { rewrite <- Hs1, <- Hs2. apply (type_set_expand_wp p (TypeSet e1 e2 (ts_flags set))); cbn; by rewrite ?Hs1, ?Hs2. }
  intros rc3 e3 h3 [Hm3 H3]. apply wp_ret. destruct (truth rc3) eqn:E3; [apply truth_true in E3|apply truth_false in E3].
  - split; [mem|right; lia].
  - split; [mem|left]. destruct H3 as [(_&?&?)|?]; [done|lia].
Qed.

(** ** Levels *)

Lemma add_categories_wp c e h :
  ebitmap_wf e → 1 ≤ sc_low c < 2 ^ 32 → sc_high c ≤ BITS →
  wp (add_categories c e) (λ r h', mem_step h h' (sc_low c ≤ sc_high c → ∃ e', r = inr e') ∧
    match r with
    | inl (rc, _) => rc = -1
    | inr e' => sc_low c ≤ sc_high c ∧ ebitmap_wf e' ∧ ebitmap_set e' = ebitmap_set e ∪ categories [c]
    end) h.
Proof.
  intros He Hlo Hhi. unfold add_categories. destruct (Z.ltb_spec (sc_high c) (sc_low c)).
  { apply wp_ret. split; [apply mem_step_refl; lia|done]. }
  unfold u32. rewrite wrap_id by lia.
  apply (wp_for_loop (λ i e' h', mem_step h h' True ∧ ebitmap_wf e' ∧
    ebitmap_set e' = ebitmap_set e ∪ list_to_set (seqZ (sc_low c - 1) (i - (sc_low c - 1))))).
  - split; [by apply mem_step_refl|]. split; [done|]. rewrite Z.sub_diag. change (seqZ _ 0) with (@nil Z). set_solver.
  - intros i e1 h1 Hi (Hm&Hw&Hs). eapply wp_mono; [apply (set_or_fail_wp _ _ 1); [done|lia]|].
    intros [[rc e2]|e2] h2 [Hm2 H2].
    + subst rc. split; [|done]. intros Ho. destruct (Hm Ho) as [Ho1 _]. by destruct (Hm2 Ho1) as [_ [? ?]].
    + destruct H2 as [Hw2 Hs2]. split; [mem|]. split; [done|]. rewrite Hs2, Hs. apply set_eq. intros x. cbn.
      rewrite !elem_of_union, !elem_of_list_to_set, !elem_of_seqZ, elem_of_singleton. lia || naive_solver lia.
  - intros e1 h1 (Hm&Hw&Hs). split; [mem|]. split; [lia|]. split; [done|]. rewrite Hs.
    assert (categories [c] = list_to_set (seqZ (sc_low c - 1) (sc_high c - sc_low c + 1))) as -> by (unfold categories; cbn [fmap list_fmap]; apply union_list_singleton_L).
    replace ((sc_low c - 1) `max` sc_high c - (sc_low c - 1)) with (sc_high c - sc_low c + 1) by lia. done.
Qed.

Lemma mls_semantic_level_expand_wp sl p h :
  table_ok (table (p_levels p)) → level_safe p sl →
  wp (mls_semantic_level_expand sl p) (λ '(rc, l) h', mem_step h h' (sem_level_valid p sl → rc = 0) ∧ (rc = 0 ∨ rc = -1) ∧
    (rc = 0 → sem_level_valid p sl ∧ level_is l (level_meant p sl))) h.
Proof.
  intros Ht [Hname Hcats]. unfold mls_semantic_level_expand, sem_level_valid, level_meant, level_used.
  set (valid := _ = true → _).
  assert (Hunused : truth (mls p) && truth (sl_sens sl) = false → wp (mret (0, mls_level_init)) (λ '(rc, l) h', mem_step h h' (valid → rc = 0) ∧
    (rc = 0 ∨ rc = -1) ∧ (rc = 0 → valid ∧ level_is l (if truth (mls p) && truth (sl_sens sl) then (sl_sens sl, categories (sl_cat sl)) else (0, ∅)))) h).
  { intros Hu. apply wp_ret. split; [by apply mem_step_refl|]. split; [by left|]. intros _. rewrite Hu.
    split; [unfold valid; by rewrite Hu|]. split_and!; [apply ebitmap_init_wf|done|done]. }
  destruct (truth (mls p)) eqn:Em; cbn [negb]; [|by apply Hunused].
  destruct (truth (sl_sens sl)) eqn:Es; cbn [negb]; [|by apply Hunused]. clear Hunused. destruct (Hname eq_refl) as [name Hn].
  eapply wp_bind, wp_deref; [done|]. apply wp_bind. eapply wp_mono; [by apply table_search_wp|]. intros r h' [-> ->].
  destruct (table_map (table (p_levels p)) !! name) as [d|] eqn:Ed; cycle 1.
  { apply wp_ret. split; [apply mem_step_refl|split; [by right|done]]. intros Hv. destruct (Hv eq_refl) as [(n'&d&Hn'&Hd) _].
    rewrite Hn in Hn'. injection Hn' as <-. by rewrite Ed in Hd. }
  apply wp_bind.
  apply (wp_for_list_prefix (λ l e h', mem_step h h' True ∧ ebitmap_wf e ∧ ebitmap_set e = categories l ∧
    Forall (λ c, sc_low c ≤ sc_high c) l)).
  - split; [by apply mem_step_refl|]. split_and!; [apply ebitmap_init_wf|done|done].
  - intros c l1 l2 e h1 Hl (Hm&Hw&Hs&Hall). rewrite Forall_forall in Hcats. destruct (Hcats c) as [? ?]; [rewrite Hl; set_solver|].
    eapply wp_mono; [by apply add_categories_wp|]. intros [[rc e']|e'] h2 [Hm2 H2].
    + subst rc. apply wp_ret. split; [|by split; [right|]]. intros Ho. destruct (Hm Ho) as [Ho1 _]. destruct (Hm2 Ho1) as [Ho2 Hx].
      split; [done|]. intros Hv. destruct (Hv eq_refl) as [_ Hv']. rewrite Hl, Forall_app, Forall_cons in Hv'.
      destruct Hx as [? [=]]. tauto.
    + destruct H2 as (Hle&Hw2&Hs2). split; [mem|]. split; [done|]. split; [|by rewrite Forall_app, Forall_singleton].
      rewrite Hs2, Hs. unfold categories. by rewrite fmap_app, union_list_app_L.
  - intros e h1 (Hm&Hw&Hs&Hall). apply wp_ret. split; [mem|]. split; [by left|]. intros _.
    split; [intros _; split; [by exists name, d|done]|]. by split_and!.
Qed.

Lemma level_is_le l m l' m' :
  level_is l m → level_is l' m' → mls_level_dom l' l = true ↔ m.1 ≤ m'.1 ∧ m.2 ⊆ m'.2.
Proof.
  intros (Hw&Hs&Hc) (Hw'&Hs'&Hc'). unfold mls_level_dom.
  rewrite ebitmap_contains_set, truth_cbool, andb_true_iff, Z.leb_le, bool_decide_eq_true by done. by rewrite Hs, Hs', Hc, Hc'.
Qed.
Lemma mls_semantic_range_expand_wp sr p h :
  table_ok (table (p_levels p)) → level_safe p (sr_low sr) → level_safe p (sr_high sr) →
  let low := level_meant p (sr_low sr) in let high := level_meant p (sr_high sr) in
  let valid := sem_level_valid p (sr_low sr) ∧ sem_level_valid p (sr_high sr) ∧ low.1 ≤ high.1 ∧ low.2 ⊆ high.2 in
  wp (mls_semantic_range_expand sr p) (λ '(rc, r, s) h', mem_step h h' (valid → rc = 0) ∧ (rc = 0 ∨ rc = -1) ∧
    (rc = 0 → valid ∧ level_is (low_level r) low ∧ level_is (high_level r) high ∧ s = RangeMade)) h.
Proof.
  intros Ht Hlow Hhigh low high valid.
  apply wp_bind. eapply wp_mono; [by apply mls_semantic_level_expand_wp|]. intros [rc1 l1] h1 (Hm1&Hrc1&H1).
  destruct (Z.ltb_spec rc1 0).
  { apply wp_ret. split; [|by split; [right|]]. intros Ho. destruct (Hm1 Ho) as [? Hz]. split; [done|]. intros (Hv&_). specialize (Hz Hv). lia. }
  destruct H1 as [Hv1 Hl1]; [lia|].
  apply wp_bind. eapply wp_mono; [by apply mls_semantic_level_expand_wp|]. intros [rc2 l2] h2 (Hm2&Hrc2&H2).
  destruct (Z.ltb_spec rc2 0).
  { apply wp_ret. split; [|by split; [right|]]. intros Ho. destruct (Hm1 Ho) as [Ho1 _], (Hm2 Ho1) as [? Hz]. split; [done|].
    intros (_&Hv&_). specialize (Hz Hv). lia. }
  destruct H2 as [Hv2 Hl2]; [lia|]. pose proof (level_is_le _ _ _ _ Hl1 Hl2) as Hdom.
  destruct (mls_level_dom l2 l1); cbn [negb]; apply wp_ret.
  - split; [mem|]. split; [by left|]. intros _. split; [|by split_and!]. split_and!; [done|done|tauto..].
  - split; [|by split; [right|]]. intros Ho. destruct (Hm1 Ho) as [Ho1 _], (Hm2 Ho1) as [Ho2 _]. split; [done|].
    intros (_&_&Hle). by apply Hdom in Hle.
Qed.
End theory.

(** ** Properties *)

(** C15: with memory, [expand_convert_type_set] makes the bitmap of the types
    that a set of a module means: its values are those of the policy, attributes
    stand for their types (unless the set is a plain list that is to be kept),
    the excepted types are left out, and a star or a complement is taken among
    the types that are no attributes. *)
Theorem expand_convert_type_set_correct `{Target} p typemap set always h :
  let types := members (image typemap) (ebitmap_set (ts_types set)) in
  let negset := members (image typemap) (ebitmap_set (ts_negset set)) in
  types_wf p → Forall (λ v, 0 ≤ v ≤ BITS) typemap → ebitmap_wf (ts_types set) → ebitmap_wf (ts_negset set) →
  (∀ i, i ∈ ebitmap_set (ts_types set) ∪ ebitmap_set (ts_negset set) → is_Some (at_index typemap (i + 1))) →
  names_types p types → (∀ i, i ∈ negset → 0 ≤ i < nprim (p_types p)) →
  wp (expand_convert_type_set p typemap set always) (λ '(rc, t) _, (mem_ok h → rc = 0) ∧
    (rc = 0 → ebitmap_wf t ∧ ebitmap_set t = type_set_types p set types negset always)) h.
Proof.
  intros types negset ???????. eapply wp_mono; [by apply expand_convert_type_set_wp|]. intros [rc t] h' [Hm Hr].
  split; [intros Ho; by destruct (Hm Ho)|]. intros Hrc. destruct Hr as [(_&?&?)|?]; [done|lia].
Qed.

(** with memory, [role_set_expand] makes, for a set with neither star nor
    complement, the bitmap of the roles named, with the role attributes of the
    module replaced by their roles, in the values of the policy. *)
Theorem role_set_expand_correct `{Target} x nprim base h :
  truth (Z.land (rs_flags x) ROLE_STAR) = false → truth (Z.land (rs_flags x) ROLE_COMP) = false →
  names_roles x base →
  wp (role_set_expand x nprim base) (λ '(rc, r, nprim') _, (mem_ok h → rc = 0) ∧ nprim' = nprim ∧
    (rc = 0 → ebitmap_wf r ∧ ebitmap_set r = mapped_roles (ebitmap_set (rs_roles x)) base)) h.
Proof.
  intros Hstar ?. intros. unfold role_set_expand. rewrite Hstar. apply wp_bind.
  eapply wp_mono; [by apply named_roles_expand_wp|]. intros [rc t] h' [Hm Hr]. apply wp_ret.
  split_and!; [intros Ho; by destruct (Hm Ho)|done|]. intros Hrc. destruct Hr as [(_&?&?)|?]; [done|lia].
Qed.

(** with memory, [mls_semantic_range_expand] succeeds exactly when the
    sensitivities are levels of the policy, no range of categories is reversed
    and the high level dominates the low one; the levels have the sensitivities
    and all the categories of the ranges, those too that the level of the policy
    does not have. *)
Theorem mls_semantic_range_expand_correct `{Target} sr p h :
  table_ok (table (p_levels p)) → level_safe p (sr_low sr) → level_safe p (sr_high sr) →
  let low := level_meant p (sr_low sr) in let high := level_meant p (sr_high sr) in
  let valid := sem_level_valid p (sr_low sr) ∧ sem_level_valid p (sr_high sr) ∧ low.1 ≤ high.1 ∧ low.2 ⊆ high.2 in
  wp (mls_semantic_range_expand sr p) (λ '(rc, r, _) _, (rc = 0 ∨ rc = -1) ∧ (mem_ok h → valid → rc = 0) ∧
    (rc = 0 → valid ∧ level_is (low_level r) low ∧ level_is (high_level r) high)) h.
Proof.
  intros Ht Hl Hh low high valid. eapply wp_mono; [by apply mls_semantic_range_expand_wp|].
  intros [[rc r] destroyed] h' (Hm&Hrc&Hr). split; [done|]. split; [intros Ho Hv; by destruct (Hm Ho) as [_ ?]; auto|].
  intros H0. by destruct (Hr H0) as (?&?&?&_).
Qed.

(** ** Examples *)

Module ExampleSets.
Definition bits (m : Z) : ebitmap := Ebitmap [Node 0 m] 64.
Definition none : ebitmap := Ebitmap [] 0.
(** two types and an attribute that both have *)
Definition policy : policydb :=
  Policydb 0 30 1 empty_symtab (Symtab None 3) (Symtab None 3) empty_symtab empty_symtab
    (Symtab (Some ExampleMls.levels) 2) (Symtab (Some ExampleMls.cats) 3)
    [Some "s0"%string; Some "s1"%string] [Some "c0"%string; Some "c1"%string; Some "c2"%string]
    [] [] [] [] [] [] []
    [Some (TypeDatum 1 1 TYPE_TYPE none 0 0); Some (TypeDatum 2 1 TYPE_TYPE none 0 0); Some (TypeDatum 3 1 TYPE_ATTRIB (bits 3) 0 0)]
    empty_avtab empty_avtab [] [] [] [] [] [] [] none [] (replicate OCON_NUM []) [].
(** the module numbers the attribute first; the set is the attribute without
    the second type *)
Definition typemap : list Z := [3; 1; 2].
Definition set : type_set := TypeSet (bits 1) (bits 4) 0.

Lemma bits_wf m : 0 < m < 2 ^ 64 → ebitmap_wf (bits m).
Proof. intros Hm. split; [cbn; split_and!; try lia; exists 0; lia|done]. Qed.
Lemma policy_types : types_wf policy.
Proof.
  split; [|done|].
  - intros i Hi. cbn in Hi. assert (i = 0 ∨ i = 1 ∨ i = 2) as [->|[->| ->]] by lia; by eexists.
  - intros i ty Hty Ha. unfold at_val in Hty. destruct (i <? 1); [done|]. cbn in Hty.
    destruct (Z.to_nat (i - 1)) as [|[|[|]]]; injection Hty as <- || done; [done|done|].
    split; [by apply bits_wf|]. apply (bool_decide_unpack _). by vm_compute.
Qed.
Lemma set_types :
  members (image typemap) (ebitmap_set (ts_types set)) = {[ 2 ]} ∧ members (image typemap) (ebitmap_set (ts_negset set)) = {[ 1 ]}.
Proof. split; by vm_compute. Qed.
End ExampleSets.

(** witness of C15 *)
Lemma expand_convert_type_set_correct_witness :
  wp (@expand_convert_type_set target_arm ExampleSets.policy ExampleSets.typemap ExampleSets.set false) (λ '(rc, t) _,
    (mem_ok fresh_heap → rc = 0) ∧ (rc = 0 → ebitmap_wf t ∧ ebitmap_set t = {[ 0 ]})) fresh_heap.
Proof.
  destruct ExampleSets.set_types as [Et En].
  replace ({[ 0 ]} : gset Z) with (type_set_types ExampleSets.policy ExampleSets.set
    (members (image ExampleSets.typemap) (ebitmap_set (ts_types ExampleSets.set)))
    (members (image ExampleSets.typemap) (ebitmap_set (ts_negset ExampleSets.set))) false) by (by vm_compute).
  apply (@expand_convert_type_set_correct target_arm ExampleSets.policy ExampleSets.typemap ExampleSets.set false).
  - apply ExampleSets.policy_types.
  - by repeat constructor.
  - by apply ExampleSets.bits_wf.
  - by apply ExampleSets.bits_wf.
  - intros i Hi. replace (_ ∪ _) with ({[ 0; 2 ]} : gset Z) in Hi by (by vm_compute).
    apply elem_of_union in Hi as [->%elem_of_singleton| ->%elem_of_singleton]; by eexists.
  - rewrite Et. intros i ->%elem_of_singleton. split; [done|]. by eexists.
  - rewrite En. by intros i ->%elem_of_singleton.
Defined.

(** witness of [role_set_expand_correct] *)
Lemma role_set_expand_correct_witness :
  wp (@role_set_expand target_arm (RoleSet (ExampleSets.bits 5) 0) 3 None) (λ '(rc, r, nprim') _,
    (mem_ok fresh_heap → rc = 0) ∧ nprim' = 3 ∧ (rc = 0 → ebitmap_wf r ∧ ebitmap_set r = {[ 0; 2 ]})) fresh_heap.
Proof.
  replace ({[ 0; 2 ]} : gset Z) with (ebitmap_set (ExampleSets.bits 5)) by (by vm_compute).
  apply (@role_set_expand_correct target_arm (RoleSet (ExampleSets.bits 5) 0) 3 None); [done|done|].
  split; [by apply ExampleSets.bits_wf|done].
Defined.

(** witness of [mls_semantic_range_expand_correct] *)
Lemma mls_semantic_range_expand_correct_witness :
  let sr := SemRange (SemLevel 1 []) (SemLevel 2 [SemCat 1 3]) in
  let low := (1, ∅) in let high := (2, {[ 0; 1; 2 ]} : gset Z) in
  let p := ExampleSets.policy in
  let valid := sem_level_valid p (sr_low sr) ∧ sem_level_valid p (sr_high sr) ∧ low.1 ≤ high.1 ∧ low.2 ⊆ high.2 in
  wp (@mls_semantic_range_expand target_arm sr p) (λ '(rc, r, _) _, (rc = 0 ∨ rc = -1) ∧ (mem_ok fresh_heap → valid → rc = 0) ∧
    (rc = 0 → valid ∧ level_is (low_level r) low ∧ level_is (high_level r) high)) fresh_heap.
Proof.
  cbv zeta. change (1, ∅) with (level_meant ExampleSets.policy (SemLevel 1 [])).
  replace (2, {[ 0; 1; 2 ]} : gset Z) with (level_meant ExampleSets.policy (SemLevel 2 [SemCat 1 3])) by (by vm_compute).
  apply (@mls_semantic_range_expand_correct target_arm (SemRange (SemLevel 1 []) (SemLevel 2 [SemCat 1 3])) ExampleSets.policy);
    [apply ExampleMls.levels_ok|split; [by eexists|constructor]|split; [by eexists|by repeat constructor]].
Defined.

(** C36: the loop over the roles of a star counts a role more each time it tests
    for the end; it terminates all the same, but not with the roles.  With fewer than 64 roles it fails once it has set
    every bit a bitmap can have, with more it sets 2^32 bits less their number,
    and leaves a policy that has one role. *)
Theorem role_set_expand_star_wrong `{Target} x nprim base h :
  truth (Z.land (rs_flags x) ROLE_STAR) = true → 0 < nprim < 2 ^ 32 →
  wp (role_set_expand x nprim base) (λ '(rc, r, nprim') _, (nprim < 64 → rc = -1) ∧ (mem_ok h → 64 ≤ nprim → rc = 0) ∧
    (rc = 0 → nprim' = 1 ∧ ∀ i, i ∈ ebitmap_set r ↔ 0 ≤ i < 2 ^ 32 - nprim)) h.
Proof.
  intros Hstar Hn. unfold role_set_expand. rewrite Hstar.
  assert (Hf : 2 ^ 32 - 0 ≤ Z.of_nat (Z.to_nat (2 ^ 32))) by (rewrite Z2Nat.id; lia).
  revert Hf. generalize (Z.to_nat (2 ^ 32)). intros fuel Hf.
  assert (Hu : nprim = u32 (nprim + 0)) by (unfold u32; rewrite wrap_id; lia). rewrite Hu at 1.
  eapply wp_mono; [apply star_loop_wp; unfold BITS; try lia; [apply ebitmap_init_wf|]|].
  - intros j. rewrite ebitmap_init_set. split; [by intros []%elem_of_empty|lia].
  - intros [[rc r] nprim'] h' (Hm&Hrc&Hr). split_and!.
    + intros ?. destruct Hrc as [->|]; [|done]. destruct Hr; [done|lia].
    + intros Ho. by destruct (Hm Ho).
    + intros ->. by destruct Hr as (_&?&_&?).
Qed.

(** witness of C36 *)
Lemma role_set_expand_star_wrong_witness :
  let x := RoleSet ExampleSets.none ROLE_STAR in
  truth (Z.land (rs_flags x) ROLE_STAR) = true ∧
  wp (@role_set_expand target_arm x 3 None) (λ '(rc, r, nprim') _, (3 < 64 → rc = -1) ∧ (mem_ok fresh_heap → 64 ≤ 3 → rc = 0) ∧
    (rc = 0 → nprim' = 1 ∧ ∀ i, i ∈ ebitmap_set r ↔ 0 ≤ i < 2 ^ 32 - 3)) fresh_heap.
Proof. split; [done|]. apply (@role_set_expand_star_wrong target_arm); [done|lia]. Defined.

(** the complement of a set of roles is not the other roles: the bitmap is
    inverted up to its own end, so that of the first role among three nothing is
    left, and that of the second has 61 roles that there are not. *)
Theorem role_set_expand_complement_wrong :
  let T := target_arm in
  let complement (m : Z) := role_set_expand (RoleSet (ExampleSets.bits m) ROLE_COMP) 3 None in
  wp (complement 1) (λ '(rc, r, _) _, rc = 0 ∧ ebitmap_set r = ∅) fresh_heap ∧
  wp (complement 2) (λ '(rc, r, _) _, rc = 0 ∧ ebitmap_set r = list_to_set (0 :: seqZ 2 62)) fresh_heap.
Proof. split; by vm_compute. Qed.
