(* ===== verification/ExpandRules.v ===== *)
(** * Expansion of the rules of a module ([expand.c], second part)

    A rule of a module is for sets of types; it becomes rules of the policy for
    each pair of them, merged into a table.  Access vectors are joined or met;
    two type rules for the same types and class conflict.  The rules of a
    conditional go to the table of conditional rules, where each node notes the
    list it is in. *)

From S2P Require Import Prelude Hashtab Symtab Ebitmap Policydb Avtab AvtabIO CondList Mls Constraint Services ExpandAvtab ExpandSets.

Definition AVRULE_ALLOWED : Z := 1.
Definition AVRULE_AUDITALLOW : Z := 2.
Definition AVRULE_AUDITDENY : Z := 4.
Definition AVRULE_DONTAUDIT : Z := 8.
Definition AVRULE_NEVERALLOW : Z := 128.
Definition AVRULE_AV : Z := 143.
Definition AVRULE_TRANSITION : Z := 16.
Definition AVRULE_MEMBER : Z := 32.
Definition AVRULE_CHANGE : Z := 64.
Definition AVRULE_TYPE : Z := 112.
Definition RULE_SELF : Z := 1.
Definition EXPAND_RULE_SUCCESS : Z := 1.
Definition EXPAND_RULE_CONFLICT : Z := 0.
Definition EXPAND_RULE_ERROR : Z := -1.

(** the tables of the policy that is built, and the list of the conditional *)
Record dest := Dest { d_te : avtab; d_cond : avtab; d_list : list Z }.
(** [cond] and [other]: the addresses of the lists of this branch and of the
    other one, [None] outside conditionals, where the table is [te_avtab] *)
Definition dest_table (cond : option (Z * Z)) (d : dest) : avtab :=
  match cond with None => d_te d | Some _ => d_cond d end.
Definition with_table (cond : option (Z * Z)) (d : dest) (a : avtab) : dest :=
  match cond with None => Dest a (d_cond d) (d_list d) | Some _ => Dest (d_te d) a (d_list d) end.
Definition cond_ptr (cond : option (Z * Z)) : Z := match cond with Some (c, _) => c | None => 0 end.
Definition other_ptr (cond : option (Z * Z)) : Z := match cond with Some (_, o) => o | None => 0 end.

(** ** Operations *)

(** the node found *)
Definition search_own (cond : option (Z * Z)) (a : avtab) (k : avtab_key) : CM (option Z) :=
  match cond with
  | None => cur ← avtab_search_node a k; mret (av_addr <$> head cur)
  | Some (c, _) => nodes ← avtab_search_all a k; mret (av_addr <$> head (filter (λ nd, parse_context nd = c) nodes))
  end.
Definition find_avtab_node (cond : option (Z * Z)) (k : avtab_key) (d : dest) : CM (option Z * dest) :=
  node ← search_own cond (dest_table cond d) k;
  match node with
  | Some x => mret (Some x, d)
  | None =>
      '(node, a) ← avtab_insert_nonunique (dest_table cond d) k (AvDatum 0);
      match node, cond with
      | None, _ => mret (None, with_table cond d a)
      | Some x, None => mret (Some x, with_table cond d a)
      | Some x, Some (c, _) =>
          let d := with_table cond d (av_update a x (λ nd, with_parse_context nd c)) in
          nl ← malloc;
          mret (match nl with None => (None, d) | Some _ => (Some x, Dest (d_te d) (d_cond d) (x :: d_list d)) end)
      end
  end.
(** [node->key.specified] and [node->datum.data] *)
Definition store (cond : option (Z * Z)) (x : Z) (enabled : bool) (f : Z → Z) (d : dest) : dest :=
  with_table cond d (av_update (dest_table cond d) x (λ nd,
    let nd := set_enabled enabled nd in with_datum nd (AvDatum (f (data (datum nd)))))).

(** the kind of the rules that are made, [None] for the assertion that fails *)
Definition avrule_spec (specified : Z) : option Z :=
  if truth (Z.land specified AVRULE_ALLOWED) then Some AVTAB_ALLOWED
  else if truth (Z.land specified AVRULE_AUDITALLOW) then Some AVTAB_AUDITALLOW
  else if truth (Z.land specified AVRULE_AUDITDENY) then Some AVTAB_AUDITDENY
  else if truth (Z.land specified AVRULE_DONTAUDIT) then Some AVTAB_AUDITDENY
  else if truth (Z.land specified AVRULE_NEVERALLOW) then Some AVTAB_NEVERALLOW
  else None.
Definition avrule_data (specified d old : Z) : Z :=
  if truth (Z.land specified AVRULE_ALLOWED) then Z.lor old d
  else if truth (Z.land specified AVRULE_AUDITALLOW) then Z.lor old d
  else if truth (Z.land specified AVRULE_NEVERALLOW) then Z.lor old d
  else if truth (Z.land specified AVRULE_AUDITDENY) then Z.land old d
  else if truth old then Z.land old (u32 (Z.lnot d)) else u32 (Z.lnot d).
(** the branch in which dontaudit rules are dropped *)
Definition dropped_dontaudit (specified : Z) (disable_dontaudit : bool) : bool :=
  negb (truth (Z.land specified AVRULE_ALLOWED)) && negb (truth (Z.land specified AVRULE_AUDITALLOW)) &&
  negb (truth (Z.land specified AVRULE_AUDITDENY)) && truth (Z.land specified AVRULE_DONTAUDIT) && disable_dontaudit.
(** [disable_dontaudit] is that of the handle, false without one *)
Definition expand_avrule_helper (disable_dontaudit : bool) (specified : Z) (cond : option (Z * Z)) (stype ttype : Z)
    (perms : list class_perm_node) (enabled : bool) (d : dest) : CM (Z * dest) :=
  if dropped_dontaudit specified disable_dontaudit then mret (EXPAND_RULE_SUCCESS, d) else
  spec ← deref (avrule_spec specified);
  r ← for_list perms (λ cur d,
        '(node, d) ← find_avtab_node cond (AvKey (u16 (stype + 1)) (u16 (ttype + 1)) (u16 (cp_class cur)) spec) d;
        mret (match node with
              | None => inl (EXPAND_RULE_ERROR, d)
              | Some x => inr (store cond x enabled (avrule_data specified (cp_data cur)) d)
              end)) d;
  mret (match r with inl ret => ret | inr d => (EXPAND_RULE_SUCCESS, d) end).

Definition terule_spec (specified : Z) : option Z :=
  if truth (Z.land specified AVRULE_TRANSITION) then Some AVTAB_TRANSITION
  else if truth (Z.land specified AVRULE_MEMBER) then Some AVTAB_MEMBER
  else if truth (Z.land specified AVRULE_CHANGE) then Some AVTAB_CHANGE
  else None.
(** the rule in the way: the kind of conflict and the node *)
Definition find_conflict (cond : option (Z * Z)) (k : avtab_key) (d : dest) : CM (option (Z * avtab_node)) :=
  node ← avtab_search_node (d_te d) k;
  match node with
  | nd :: _ => mret (Some (1, nd))
  | [] =>
      node ← avtab_search_node (d_cond d) k;
      mret (match node with
            | nd :: _ => if parse_context nd =? other_ptr cond then None else Some (2, nd)
            | [] => None
            end)
  end.
Definition expand_terule_helper (typemap : option (list Z)) (specified : Z) (cond : option (Z * Z)) (stype ttype : Z)
    (perms : list class_perm_node) (enabled : bool) (d : dest) : CM (Z * dest) :=
  spec ← deref (terule_spec specified);
  r ← for_list perms (λ cur d,
        remapped_data ← match typemap with Some typemap => deref (at_index typemap (cp_data cur)) | None => mret (cp_data cur) end;
        let avkey := AvKey (u16 (stype + 1)) (u16 (ttype + 1)) (u16 (cp_class cur)) spec in
        conflict ← find_conflict cond avkey d;
        match conflict with
        | Some (c, nd) =>
            mret (inl (if (data (datum nd) =? remapped_data) &&
                          ((c =? 1) && bool_decide (cond = None) || (parse_context nd =? cond_ptr cond))
                       then EXPAND_RULE_SUCCESS else EXPAND_RULE_CONFLICT, d))
        | None =>
            '(node, d) ← find_avtab_node cond avkey d;
            mret (match node with
                  | None => inl (-1, d)
                  | Some x => inr (store cond x enabled (λ _, remapped_data) d)
                  end)
        end) d;
  mret (match r with inl ret => ret | inr d => (EXPAND_RULE_SUCCESS, d) end).

(** [ebitmap_for_each_bit] with [if (!ebitmap_node_get_bit(n, i)) continue;] *)
Definition for_set_bits `{Target} {S R} (e : ebitmap) (body : Z → S → CM (R + S)) (s : S) : CM (R + S) :=
  r ← ebitmap_for_each_bit e (λ bit i s, if negb bit then mret (inr s) else body i s) s;
  mret (match r with inl x => inl x | inr (s, _) => inr s end).

(** one pair of types *)
Definition expand_pair (disable_dontaudit : bool) (typemap : option (list Z)) (source_rule : avrule) (cond : option (Z * Z))
    (enabled : bool) (stype ttype : Z) (d : dest) : CM ((Z * dest) + dest) :=
  '(retval, d) ← (if truth (Z.land (avr_specified source_rule) AVRULE_AV)
                  then expand_avrule_helper disable_dontaudit (avr_specified source_rule) cond stype ttype
                         (avr_perms source_rule) enabled d
                  else expand_terule_helper typemap (avr_specified source_rule) cond stype ttype
                         (avr_perms source_rule) enabled d);
  mret (if retval =? EXPAND_RULE_SUCCESS then inr d else inl (retval, d)).
Definition expand_rule_helper `{Target} (disable_dontaudit : bool) (typemap : option (list Z)) (source_rule : avrule)
    (cond : option (Z * Z)) (enabled : bool) (stypes ttypes : ebitmap) (d : dest) : CM (Z * dest) :=
  let pair := expand_pair disable_dontaudit typemap source_rule cond enabled in
  r ← for_set_bits stypes (λ i d,
        r ← (if truth (Z.land (avr_flags source_rule) RULE_SELF) then pair i i d else mret (inr d));
        match r with
        | inl ret => mret (inl ret)
        | inr d => for_set_bits ttypes (λ j, pair i j) d
        end) d;
  mret (match r with inl ret => ret | inr d => (EXPAND_RULE_SUCCESS, d) end).

Definition convert_and_expand_rule `{Target} (disable_dontaudit : bool) (dest_pol : policydb) (typemap : list Z)
    (source_rule : avrule) (cond : option (Z * Z)) (enabled do_neverallow : bool) (d : dest) : CM (Z * dest) :=
  if negb do_neverallow && truth (Z.land (avr_specified source_rule) AVRULE_NEVERALLOW) then mret (EXPAND_RULE_SUCCESS, d) else
  let alwaysexpand := truth (Z.land (avr_specified source_rule) AVRULE_TYPE) || truth (Z.land (avr_flags source_rule) RULE_SELF) in
  '(rc, stypes) ← expand_convert_type_set dest_pol typemap (avr_stypes source_rule) alwaysexpand;
  if truth rc then mret (EXPAND_RULE_ERROR, d) else
  '(rc, ttypes) ← expand_convert_type_set dest_pol typemap (avr_ttypes source_rule) alwaysexpand;
  if truth rc then mret (EXPAND_RULE_ERROR, d) else
  expand_rule_helper disable_dontaudit (Some typemap) source_rule cond enabled stypes ttypes d.

(** the rules of a policy that is not translated *)
Definition expand_rule `{Target} (disable_dontaudit : bool) (source_pol : policydb) (source_rule : avrule)
    (cond : option (Z * Z)) (enabled : bool) (d : dest) : CM (Z * dest) :=
  if truth (Z.land (avr_specified source_rule) AVRULE_NEVERALLOW) then mret (1, d) else
  '(rc, stypes) ← type_set_expand (avr_stypes source_rule) source_pol true;
  if truth rc then mret (-1, d) else
  '(rc, ttypes) ← type_set_expand (avr_ttypes source_rule) source_pol true;
  if truth rc then mret (-1, d) else
  expand_rule_helper disable_dontaudit None source_rule cond enabled stypes ttypes d.

Definition cond_avrule_list_copy `{Target} (disable_dontaudit : bool) (dest_pol : policydb) (source_rules : list avrule)
    (cond : Z * Z) (typemap : list Z) (enabled : bool) (d : dest) : CM (Z * dest) :=
  r ← for_list source_rules (λ cur d,
        '(rc, d) ← convert_and_expand_rule disable_dontaudit dest_pol typemap cur (Some cond) enabled false d;
        mret (if negb (rc =? EXPAND_RULE_SUCCESS) then inl (-1, d) else inr d)) d;
  mret (match r with inl ret => ret | inr d => (0, d) end).

(** ** Role rules *)

Record role_allow_rule := RoleAllowRule { rar_roles : role_set; rar_new_roles : role_set }.

(** the scan for duplicates and the new element at the end of the list *)
Definition copy_role_allow (i j : Z) (allow : list role_allow) : CM ((Z * list role_allow) + list role_allow) :=
  if existsb (λ r, (ra_role r =? u32 (i + 1)) && (ra_new_role r =? u32 (j + 1))) allow then mret (inr allow) else
  n ← malloc;
  mret (match n with None => inl (-1, allow) | Some _ => inr (allow ++ [RoleAllow (u32 (i + 1)) (u32 (j + 1))]) end).
(** [nprim] and [allow] are [p_roles.nprim] and [role_allow] of [state->out];
    [base] comes with the map of roles *)
Definition copy_role_allows `{Target} (base : option (policydb * list Z)) (rules : list role_allow_rule)
    (nprim : Z) (allow : list role_allow) : CM (Z * list role_allow * Z) :=
  r ← for_list rules (λ cur '(allow, nprim),
        '(rc, roles, nprim) ← role_set_expand (rar_roles cur) nprim base;
        if truth rc then mret (inl (-1, allow, nprim)) else
        '(rc, new_roles, nprim) ← role_set_expand (rar_new_roles cur) nprim base;
        if truth rc then mret (inl (-1, allow, nprim)) else
        r ← for_set_bits roles (λ i, for_set_bits new_roles (λ j, copy_role_allow i j)) allow;
        mret (match r with inl ret => inl (ret, nprim) | inr allow => inr (allow, nprim) end)) (allow, nprim);
  mret (match r with inl ret => ret | inr (allow, nprim) => (0, allow, nprim) end).

Record role_trans_rule := RoleTransRule {
  rtu_roles : role_set; rtu_types : type_set; rtu_classes : ebitmap; rtu_new_role : Z }.

(** the scan: is a rule for the role, type and class there, and does it agree *)
Fixpoint find_role_trans (rolemap : list Z) (new_role role type tclass : Z) (l : list role_trans) : CM (option bool) :=
  match l with
  | [] => mret None
  | cur_trans :: next =>
      mapped_role ← deref (at_index rolemap new_role);
      if (rt_role cur_trans =? role) && (rt_type cur_trans =? type) && (rt_tclass cur_trans =? tclass)
      then mret (Some (rt_new_role cur_trans =? mapped_role)) else find_role_trans rolemap new_role role type tclass next
  end.
Definition copy_role_transition (rolemap : list Z) (new_role i j k : Z) (role_tr : list role_trans)
    : CM ((Z * list role_trans) + list role_trans) :=
  cur_trans ← find_role_trans rolemap new_role (u32 (i + 1)) (u32 (j + 1)) (u32 (k + 1)) role_tr;
  match cur_trans with
  | Some true => mret (inr role_tr)
  | Some false => mret (inl (-1, role_tr))
  | None =>
      n ← malloc;
      match n with
      | None => mret (inl (-1, role_tr))
      | Some _ =>
          mapped_role ← deref (at_index rolemap new_role);
          mret (inr (role_tr ++ [RoleTrans (u32 (i + 1)) (u32 (j + 1)) (u32 (k + 1)) mapped_role]))
      end
  end.
(** [base] is given when the roles are to be translated by [rolemap] *)
Definition copy_role_trans `{Target} (out : policydb) (base : option policydb) (typemap rolemap : list Z)
    (rules : list role_trans_rule) (nprim : Z) (role_tr : list role_trans) : CM (Z * list role_trans * Z) :=
  r ← for_list rules (λ cur '(role_tr, nprim),
        '(rc, roles, nprim) ← role_set_expand (rtu_roles cur) nprim ((., rolemap) <$> base);
        if truth rc then mret (inl (-1, role_tr, nprim)) else
        '(rc, types) ← expand_convert_type_set out typemap (rtu_types cur) true;
        if truth rc then mret (inl (-1, role_tr, nprim)) else
        r ← for_set_bits roles (λ i, for_set_bits types (λ j, for_set_bits (rtu_classes cur) (λ k,
              copy_role_transition rolemap (rtu_new_role cur) i j k))) role_tr;
        mret (match r with inl ret => inl (ret, nprim) | inr role_tr => inr (role_tr, nprim) end)) (role_tr, nprim);
  mret (match r with inl ret => ret | inr (role_tr, nprim) => (0, role_tr, nprim) end).

(** ** Meaning *)

(** the data of a table by what identifies a rule: types, class and kind *)
Abbreviation rules_map := (gmap ((Z * Z * Z) * Z) Z).
Definition entry_of (nd : avtab_node) : ((Z * Z * Z) * Z) * Z := (rule_id (rule_of nd), data (datum nd)).
Record table_is (M : rules_map) (L : list avtab_node) (next : Z) : Prop := {
  ti_kinds : Forall one_kind (key <$> L);
  ti_unique : NoDup ((entry_of <$> L).*1);
  ti_addrs : NoDup (av_addr <$> L);
  ti_next : Forall (λ y, y < next) (av_addr <$> L);
  ti_map : list_to_map (entry_of <$> L) = M
}.
Definition represents (M : rules_map) (a : avtab) (h : heap) : Prop :=
  ∃ t, avtab_wf a t ∧ table_is M (concat t) (h_next h).

(** the entries a rule gives: the pairs of types in the order of the loops *)
Definition type_pairs (self : bool) (S T : list Z) : list (Z * Z) :=
  S ≫= λ s, (if self then [(s, s)] else []) ++ ((s,.) <$> T).
Definition pair_entries (spec : Z) (perms : list class_perm_node) '((s, t) : Z * Z) : list (((Z * Z * Z) * Z) * Z) :=
  (λ cp, (((s + 1, t + 1, cp_class cp), spec), cp_data cp)) <$> perms.
Definition add_entry (specified : Z) (M : rules_map) (e : ((Z * Z * Z) * Z) * Z) : rules_map :=
  <[e.1 := avrule_data specified e.2 (default 0 (M !! e.1))]> M.
Definition add_entries (specified : Z) (es : list (((Z * Z * Z) * Z) * Z)) (M : rules_map) : rules_map :=
  foldl (add_entry specified) M es.

(** the rule gives the permission [i] of class [c] for two types *)
Definition gives (source_rule : avrule) (S T : gset Z) (s t c i : Z) : Prop :=
  s - 1 ∈ S ∧ (t - 1 ∈ T ∨ truth (Z.land (avr_flags source_rule) RULE_SELF) = true ∧ t = s) ∧
  ∃ cp, cp ∈ avr_perms source_rule ∧ cp_class cp = c ∧ Z.testbit (cp_data cp) i = true.

Section theory.
Context `{Target}.
Implicit Types (M : rules_map) (a : avtab) (L : list avtab_node) (h : heap) (k : avtab_key) (d : dest).

Lemma without_enabled_16 x : 0 ≤ x < 2 ^ 16 → without_enabled x = Z.land x 0x7fff.
Proof.
  intros Hx. destruct (without_enabled_range x Hx) as (_&Hu&_). rewrite <- Hu. unfold u16, wrap, without_enabled.
  rewrite <- Z.land_ones, <- Z.land_assoc by done. done.
Qed.
Lemma set_enabled_key on nd :
  key_wf (key nd) → key_wf (key (set_enabled on nd)) ∧ triple_of (key (set_enabled on nd)) = triple_of (key nd) ∧
  without_enabled (specified (key (set_enabled on nd))) = without_enabled (specified (key nd)).
Proof.
  intros (H1&H2&H3&H4). unfold set_enabled, with_specified. cbn.
  assert (Hr : 0 ≤ (if on then Z.lor (specified (key nd)) AVTAB_ENABLED else Z.land (specified (key nd)) (u16 (Z.lnot AVTAB_ENABLED))) < 2 ^ 16).
  { destruct on; [apply lor_range|apply land_range]; done. }
  split_and!; [done|done|]. rewrite !without_enabled_16 by done. destruct on.
  - rewrite Z.land_lor_distr_l. change (Z.land AVTAB_ENABLED 0x7fff) with 0. apply Z.lor_0_r.
  - rewrite <- Z.land_assoc. done.
Qed.

(** a store to one of the rules *)
Lemma represents_update M a t nd f enabled h :
  avtab_wf a t → table_is M (concat t) (h_next h) → nd ∈ concat t →
  represents (<[(entry_of nd).1 := f (data (datum nd))]> M)
    (av_update a (av_addr nd) (λ nd, let nd := set_enabled enabled nd in with_datum nd (AvDatum (f (data (datum nd)))))) h.
Proof.
  intros Hwf [H1 Hu Hn Hlt Hmap] Hin. set (g := λ nd, _).
  assert (Hk : key_wf (key nd)) by (apply elem_of_concat in Hin as (i&ch&Hi&Hin); by apply (av_keys _ _ Hwf i ch)).
  assert (Hg : ∀ nd, av_addr (g nd) = av_addr nd ∧ triple_of (key (g nd)) = triple_of (key nd) ∧ (key_wf (key nd) → key_wf (key (g nd)))).
  { intros x. split_and!; [done|done|]. intros Hx. by apply set_enabled_key. }
  apply list_elem_of_split in Hin as (L1&L2&Ht).
  destruct (av_update_node a t L1 nd L2 g) as (t'&Hwf'&Ht'); [done..|]. exists t'. split; [done|].
  destruct (set_enabled_key enabled nd Hk) as (_&Etr&Ewe).
  assert (Hid : entry_of (g nd) = ((entry_of nd).1, f (data (datum nd)))).
  { unfold entry_of, rule_id, rule_of, g. cbn [fst key with_datum datum data]. by rewrite Etr, Ewe. }
  rewrite Ht', Ht in *. rewrite !fmap_app, !fmap_cons in *. split.
  - rewrite fmap_app, fmap_cons. revert H1. rewrite !Forall_app, !Forall_cons. intros (?&(i&Hi&E)&?). split_and!; [done| |done].
    exists i. split; [done|]. by rewrite <- E, <- Ewe.
  - by rewrite fmap_app, fmap_cons, Hid, fmap_app.
  - rewrite fmap_app, fmap_cons, (proj1 (Hg nd)). done.
  - rewrite fmap_app, fmap_cons, (proj1 (Hg nd)). done.
  - rewrite fmap_app, fmap_cons, Hid. apply NoDup_app in Hu as (_&Hu1&[Hu2 _]%NoDup_cons).
    rewrite <- Hmap, !list_to_map_app. destruct (entry_of nd) as [id v]. cbn [fst list_to_map] in *.
    assert (Hnone : (list_to_map (entry_of <$> L1) : rules_map) !! id = None)
      by (apply not_elem_of_list_to_map; intros Hx; apply (Hu1 _ Hx); by left).
    cbn. rewrite !insert_union_r by done. by rewrite insert_insert_eq.
Qed.

(** a new rule *)
Lemma represents_insert M a t k h :
  avtab_wf a t → table_is M (concat t) (h_next h) → key_wf k → one_kind k →
  M !! (triple_of k, without_enabled (specified k)) = None →
  wp (avtab_insert_nonunique a k (AvDatum 0)) (λ '(r, a') h', mem_step h h' (r ≠ None) ∧
    match r with
    | Some x => ∃ t' nd, avtab_wf a' t' ∧ nd ∈ concat t' ∧ av_addr nd = x ∧ key nd = k ∧ data (datum nd) = 0 ∧
        table_is (<[(triple_of k, without_enabled (specified k)) := 0]> M) (concat t') (h_next h')
    | None => True
    end) h.
Proof.
  intros Hwf [H1 Hu Hn Hlt Hmap] Hk Hk1 Hnone. eapply wp_mono; [by apply avtab_insert_nonunique_wp|].
  intros [[x|] a'] h' [Hm Hr]; [|done]. split; [done|]. destruct Hr as [(t'&Hwf'&Hp) (_&->&Hnx)].
  assert (Hfresh : (entry_of (AvNode (h_next h) k (AvDatum 0) 0 0)).1 ∉ (entry_of <$> concat t).*1)
    by (apply not_elem_of_list_to_map; by rewrite Hmap).
  exists t', (AvNode (h_next h) k (AvDatum 0) 0 0). split_and!; try done; [rewrite Hp; by left|]. rewrite Hnx. split.
  - rewrite Hp, fmap_cons. by apply Forall_cons.
  - rewrite Hp, !fmap_cons. by apply NoDup_cons.
  - rewrite Hp, fmap_cons. cbn. apply NoDup_cons. split; [|done]. intros Hin. rewrite Forall_forall in Hlt. specialize (Hlt _ Hin). lia.
  - rewrite Hp, fmap_cons. apply Forall_cons. split; [cbn; lia|]. eapply Forall_impl; [done|]. cbn. lia.
  - rewrite <- Hmap. rewrite (list_to_map_proper (M := gmap _) _ (entry_of <$> AvNode (h_next h) k (AvDatum 0) 0 0 :: concat t)); [done| |].
    + apply (NoDup_Permutation_proper (((entry_of <$> concat t').*1)) ((entry_of <$> AvNode (h_next h) k (AvDatum 0) 0 0 :: concat t).*1)); [by rewrite Hp|].
      rewrite !fmap_cons. by apply NoDup_cons.
    + by rewrite Hp.
Qed.

(** the rule that is found or made can be given any data *)
Lemma find_avtab_node_wp M k d h :
  represents M (d_te d) h → key_wf k → one_kind k →
  let id := (triple_of k, without_enabled (specified k)) in
  wp (find_avtab_node None k d) (λ '(r, d') h', mem_step h h' (r ≠ None) ∧
    match r with
    | Some x => ∀ enabled f, let d2 := store None x enabled f d' in
        represents (<[id := f (default 0 (M !! id))]> M) (d_te d2) h' ∧ d_cond d2 = d_cond d ∧ d_list d2 = d_list d
    | None => True
    end) h.
Proof.
  intros (t&Hwf&Ht) Hk Hk1 id. pose proof Ht as [H1 Hu _ _ Hmap]. unfold find_avtab_node, search_own. cbn [dest_table].
  apply wp_bind, wp_bind. eapply wp_mono; [by apply avtab_search_node_wp|].
  intros cur h' (->&Hm&Hhd&_&Hin). apply wp_ret.
  destruct (without_enabled_range (specified k)) as (_&Hwe&_); [apply Hk|]. rewrite Hwe in *. rewrite Forall_fmap, Forall_forall in H1.
  assert (Hmatch : ∀ nd, nd ∈ concat t → key_matches k (without_enabled (specified k)) (key nd) = true ↔ (entry_of nd).1 = id).
  { intros nd Hnd. unfold key_matches, entry_of, rule_id, rule_of, id, triple_of. cbn. rewrite andb_true_iff, same_triple_eq. split.
    - intros [(->&->&->) Hl]. f_equal. symmetry. apply one_kind_matches; [done|by apply H1|done].
    - intros [= -> -> -> Hs]. split; [done|]. destruct Hk1 as (i&Hi&Hki). rewrite Hki in *.
      rewrite <- Z.shiftl_1_l, Z.land_comm, truth_land_bit by lia.
      rewrite without_enabled_16 in Hs by (by eapply table_key_wf). apply (f_equal (λ z, Z.testbit z i)) in Hs.
      rewrite Z.pow2_bits_true, Z.land_spec in Hs by lia. by apply andb_true_iff in Hs as [? _]. }
  destruct cur as [|nd cur]; cbn [head fmap option_fmap option_map].
  - assert (Hnone : M !! id = None).
    { rewrite <- Hmap. apply not_elem_of_list_to_map. intros Hx. rewrite filter_nil in Hm. symmetry in Hm. rewrite filter_none in Hm.
      apply list_elem_of_fmap in Hx as ([id' v]&Heq&Hx). apply list_elem_of_fmap in Hx as (nd&Hnd&Hx).
      apply (Hm nd Hx), Hmatch; [done|]. by rewrite <- Hnd. }
    apply wp_bind. eapply wp_mono; [by apply (represents_insert M _ t)|].
    intros [[x|] a'] h1 [Hm1 Hr]; [|apply wp_ret; by split]. destruct Hr as (t'&nd&Hwf'&Hnd&<-&Hkey&Hdat&Hti).
    apply wp_ret. split; [mem|]. intros enabled f. split; [|done]. cbn.
    rewrite Hnone. cbn. replace (<[id:=f 0]> M) with (<[(entry_of nd).1 := f (data (datum nd))]> (<[id:=0]> M)); [by apply (represents_update _ _ t')|].
    unfold entry_of, rule_id, rule_of. cbn. rewrite Hkey, Hdat. apply insert_insert_eq.
  - apply wp_ret. split; [mem|]. intros enabled f. split; [|done]. destruct (Hin nd) as [Hnd _]; [by left|].
    apply Hmatch in Hhd; [|done].
    assert (Hd : M !! id = Some (data (datum nd))).
    { rewrite <- Hmap. apply elem_of_list_to_map_1; [done|]. rewrite <- Hhd. apply list_elem_of_fmap. by exists nd. }
    rewrite Hd, <- Hhd. by apply (represents_update _ _ t).
Qed.

(** a step that adds the entries [es] to the unconditional rules *)
Definition adds M (sp : Z) (es : list (((Z * Z * Z) * Z) * Z)) d h (r : (Z * dest) + dest) h' : Prop :=
  mem_step h h' (∃ d', r = inr d') ∧
  match r with
  | inl (rc, _) => rc = -1
  | inr d' => represents (add_entries sp es M) (d_te d') h' ∧ d_cond d' = d_cond d ∧ d_list d' = d_list d
  end.
Lemma adds_list {I} (l : list I) (body : I → dest → CM ((Z * dest) + dest)) sp (f : I → list (((Z * Z * Z) * Z) * Z)) M d h :
  (∀ i M d h, i ∈ l → represents M (d_te d) h → wp (body i d) (adds M sp (f i) d h) h) →
  represents M (d_te d) h → wp (for_list l body d) (adds M sp (l ≫= f) d h) h.
Proof.
  intros Hbody Hd.
  apply (wp_for_list_prefix (λ l1 d' h', mem_step h h' True ∧ represents (add_entries sp (l1 ≫= f) M) (d_te d') h' ∧
    d_cond d' = d_cond d ∧ d_list d' = d_list d)).
  - split; [by apply mem_step_refl|done].
  - intros i l1 l2 d1 h1 Hl (Hm&Hr&Hc&Hli). eapply wp_mono; [apply Hbody; [rewrite Hl; apply elem_of_app; right; by left|done]|].
    intros [[rc d2]|d2] h2 [Hm2 H2].
    + split; [|done]. intros Ho. apply Hm in Ho as [Ho _]. by apply Hm2 in Ho as [_ [? ?]].
    + destruct H2 as (Hr2&->&->). split_and!; [mem| |done|done].
      rewrite bind_app. cbn. rewrite app_nil_r. unfold add_entries in *. by rewrite foldl_app.
  - intros d' h' (Hm&Hr&Hc&Hli). split; [|done]. eapply mem_step_mono, Hm. intros _. by exists d'.
Qed.
Lemma adds_set_bits (e : ebitmap) (body : Z → dest → CM ((Z * dest) + dest)) sp (f : Z → list (((Z * Z * Z) * Z) * Z)) M d h :
  ebitmap_wf e → (∀ i M d h, i ∈ ebitmap_bits e → represents M (d_te d) h → wp (body i d) (adds M sp (f i) d h) h) →
  represents M (d_te d) h → wp (for_set_bits e body d) (adds M sp (ebitmap_bits e ≫= f) d h) h.
Proof.
  intros He Hbody Hd. apply wp_bind. unfold wp at 1. rewrite ebitmap_for_each_member by done.
  change (wp (with_bit (highbit e) <$> for_list (ebitmap_bits e) body d)
    (λ x h', wp (mret (match x with inl x => inl x | inr (s, _) => inr s end)) (adds M sp (ebitmap_bits e ≫= f) d h) h') h).
  apply wp_fmap. eapply wp_mono; [by apply adds_list|]. intros [ret|d'] h' Hr; by apply wp_ret.
Qed.

(** ranges of the values of a rule, that the keys can hold *)
Definition perms_ok (perms : list class_perm_node) : Prop := Forall (λ cp, 0 ≤ cp_class cp < 2 ^ 16) perms.
Definition type_fits (i : Z) : Prop := 0 ≤ i < 2 ^ 16 - 1.
Lemma u16_id z : 0 ≤ z < 2 ^ 16 → u16 z = z.
Proof. apply wrap_id. Qed.
Lemma avrule_spec_kind sp spec : avrule_spec sp = Some spec → (∃ i, 0 ≤ i < 15 ∧ spec = 2 ^ i) ∧ without_enabled spec = spec ∧ 0 ≤ spec < 2 ^ 16.
Proof.
  unfold avrule_spec. intros Hs. repeat case_match; try done; injection Hs as <-; (split; [|done]).
  - by exists 0.
  - by exists 1.
  - by exists 2.
  - by exists 2.
  - by exists 7.
Qed.

Lemma expand_avrule_helper_wp no_da sp spec s t perms enabled M d h :
  avrule_spec sp = Some spec → dropped_dontaudit sp no_da = false → perms_ok perms → type_fits s → type_fits t →
  represents M (d_te d) h →
  wp (expand_avrule_helper no_da sp None s t perms enabled d) (λ '(rc, d') h',
    adds M sp (pair_entries spec perms (s, t)) d h (if rc =? EXPAND_RULE_SUCCESS then inr d' else inl (rc, d')) h') h.
Proof.
  intros Hs Hdrop Hp Hsf Htf Hd. unfold expand_avrule_helper. rewrite Hdrop. eapply wp_bind, wp_deref; [done|].
  destruct (avrule_spec_kind _ _ Hs) as (Hkind&Hwe&Hsr).
  apply wp_bind. replace (pair_entries spec perms (s, t)) with (perms ≫= λ cp, [(((s + 1, t + 1, cp_class cp), spec), cp_data cp)]); cycle 1.
  { unfold pair_entries. clear. induction perms as [|cp l IH]; [done|]. cbn. by rewrite IH. }
  eapply wp_mono; [apply (adds_list _ _ sp (λ cp, [(((s + 1, t + 1, cp_class cp), spec), cp_data cp)]) M); [|done]|].
  - intros cp M1 d1 h1 Hin H1. unfold perms_ok, type_fits in *. rewrite Forall_forall in Hp. specialize (Hp _ Hin).
    rewrite !u16_id by lia. apply wp_bind. eapply wp_mono.
    { apply (find_avtab_node_wp M1); [done|unfold key_wf; cbn; lia|]. destruct Hkind as (j&?&?). exists j. cbn. by rewrite Hwe. }
    intros [[x|] d2] h2 [Hm Hr]; apply wp_ret.
    + split; [eapply mem_step_mono, Hm; intros _; eauto|]. destruct (Hr enabled (avrule_data sp (cp_data cp))) as (Hr'&?&?).
      split; [|done]. cbn in Hr'. by rewrite Hwe in Hr'.
    + split; [|done]. intros Ho. by apply Hm in Ho as [_ ?].
  - intros [[rc d1]|d1] h' [Hm Hr]; apply wp_ret.
    + rewrite Hr in *. by split.
    + by split.
Qed.

Lemma adds_then (m : CM ((Z * dest) + dest)) (next : dest → CM ((Z * dest) + dest)) sp es1 es2 M d h :
  wp m (adds M sp es1 d h) h →
  (∀ d' h', represents (add_entries sp es1 M) (d_te d') h' → wp (next d') (adds (add_entries sp es1 M) sp es2 d' h') h') →
  wp (r ← m; match r with inl ret => mret (inl ret) | inr d => next d end) (adds M sp (es1 ++ es2) d h) h.
Proof.
  intros Hm Hn. apply wp_bind. eapply wp_mono; [done|]. intros [[rc d1]|d1] h1 [Hm1 H1].
  - apply wp_ret. split; [|done]. intros Ho. by destruct (Hm1 Ho) as [_ [? ?]].
  - destruct H1 as (Hr&Hc&Hl). eapply wp_mono; [by apply Hn|]. intros r h2 [Hm2 H2]. split; [mem|].
    destruct r as [[rc d2]|d2]; [done|]. destruct H2 as (Hr2&->&->). split; [|done]. unfold add_entries in *. by rewrite foldl_app.
Qed.

Definition rule_entries (spec : Z) (source_rule : avrule) (S T : list Z) : list (((Z * Z * Z) * Z) * Z) :=
  type_pairs (truth (Z.land (avr_flags source_rule) RULE_SELF)) S T ≫= pair_entries spec (avr_perms source_rule).

Lemma rule_entries_bind spec rule (S T : list Z) :
  rule_entries spec rule S T = S ≫= λ i,
    (if truth (Z.land (avr_flags rule) RULE_SELF) then pair_entries spec (avr_perms rule) (i, i) else []) ++
    (T ≫= λ j, pair_entries spec (avr_perms rule) (i, j)).
Proof.
  unfold rule_entries, type_pairs. set (self := truth _). induction S as [|i l IH]; [done|]. cbn [mbind list_bind].
  rewrite bind_app, <- IH. f_equal. rewrite bind_app. f_equal; [by destruct self; cbn; rewrite ?app_nil_r|].
  clear. induction T as [|j l IH]; [done|]. cbn. by rewrite IH.
Qed.
Lemma expand_rule_helper_wp no_da typemap rule spec enabled stypes ttypes M d h :
  let sp := avr_specified rule in
  truth (Z.land sp AVRULE_AV) = true → avrule_spec sp = Some spec → dropped_dontaudit sp no_da = false →
  perms_ok (avr_perms rule) → ebitmap_wf stypes → ebitmap_wf ttypes →
  (∀ i, i ∈ ebitmap_bits stypes → type_fits i) → (∀ i, i ∈ ebitmap_bits ttypes → type_fits i) →
  represents M (d_te d) h →
  wp (expand_rule_helper no_da typemap rule None enabled stypes ttypes d) (λ '(rc, d') h',
    adds M sp (rule_entries spec rule (ebitmap_bits stypes) (ebitmap_bits ttypes)) d h
      (if rc =? EXPAND_RULE_SUCCESS then inr d' else inl (rc, d')) h') h.
Proof.
  intros sp Hav Hs Hdrop Hp Hsw Htw Hst Htt Hd. unfold expand_rule_helper.
  assert (Hpair : ∀ i j M d h, type_fits i → type_fits j → represents M (d_te d) h →
    wp (expand_pair no_da typemap rule None enabled i j d) (adds M sp (pair_entries spec (avr_perms rule) (i, j)) d h) h).
  { intros i j M1 d1 h1 Hi Hj H1. unfold expand_pair. fold sp. rewrite Hav. apply wp_bind.
    eapply wp_mono; [by apply expand_avrule_helper_wp|]. intros [rc d2] h2 Hr. by apply wp_ret. }
  set (self := truth (Z.land (avr_flags rule) RULE_SELF)).
  replace (rule_entries _ _ _ _) with (ebitmap_bits stypes ≫= λ i,
    (if self then pair_entries spec (avr_perms rule) (i, i) else []) ++
    (ebitmap_bits ttypes ≫= λ j, pair_entries spec (avr_perms rule) (i, j))); cycle 1.
  { by rewrite rule_entries_bind. }
  apply wp_bind. eapply wp_mono.
  { apply (adds_set_bits _ _ sp (λ i, (if self then pair_entries spec (avr_perms rule) (i, i) else []) ++
      (ebitmap_bits ttypes ≫= λ j, pair_entries spec (avr_perms rule) (i, j)))); [done| |done]. intros i M1 d1 h1 Hi H1. apply adds_then.
    - destruct self; [apply Hpair; by auto|]. apply wp_ret. split; [apply mem_step_refl; by exists d1|done].
    - intros d2 h2 H2. apply adds_set_bits; [done| |done]. intros j M3 d3 h3 Hj H3. apply Hpair; by auto. }
  intros [[rc d1]|d1] h' [Hm Hr]; apply wp_ret; [rewrite Hr in *|]; by split.
Qed.

(** the bits of rules whose data are joined *)
Lemma add_entries_bit sp es M id i :
  (∀ x old, avrule_data sp x old = Z.lor old x) →
  Z.testbit (default 0 (add_entries sp es M !! id)) i = true ↔
  Z.testbit (default 0 (M !! id)) i = true ∨ ∃ e, e ∈ es ∧ e.1 = id ∧ Z.testbit e.2 i = true.
Proof.
  intros Hj. unfold add_entries. revert M. induction es as [|e es IH]; intros M.
  - cbn. split; [by left|]. by intros [?|(e&[]%elem_of_nil&_)].
  - cbn. rewrite IH. unfold add_entry. rewrite Hj. destruct (decide (id = e.1)) as [->|Hne].
    + rewrite lookup_insert_eq. cbn. rewrite Z.lor_spec, orb_true_iff. split.
      * intros [[?|?]|(e'&?&?&?)]; [by left|right; exists e; split; [by left|done]|right; exists e'; split; [by right|done]].
      * intros [?|(e'&[->|?]%elem_of_cons&?&?)]; [by left; left|by left; right|right; by exists e'].
    + rewrite lookup_insert_ne by done. split.
      * intros [?|(e'&?&?&?)]; [by left|right; exists e'; split; [by right|done]].
      * intros [?|(e'&[->|?]%elem_of_cons&?&?)]; [by left|done|right; by exists e'].
Qed.

Lemma elem_of_rule_entries spec rule (S T : list Z) (s t c kind x : Z) :
  (((s, t, c), kind), x) ∈ rule_entries spec rule S T ↔
  kind = spec ∧ s - 1 ∈ S ∧ (t - 1 ∈ T ∨ truth (Z.land (avr_flags rule) RULE_SELF) = true ∧ t = s) ∧ ClassPerm c x ∈ avr_perms rule.
Proof.
  unfold rule_entries, type_pairs. rewrite list_elem_of_bind. setoid_rewrite list_elem_of_bind.
  set (self := truth _). split.
  - intros ([i j]&Hc&(s'&Hin&HS)). unfold pair_entries in Hc. apply list_elem_of_fmap in Hc as ([c' x']&[= -> -> -> -> ->]&Hcp). cbn.
    replace (i + 1 - 1) with i by lia. replace (j + 1 - 1) with j by lia.
    apply elem_of_app in Hin as [Hin|(j'&[= <- ->]&HT)%list_elem_of_fmap].
    + destruct self; [|by apply elem_of_nil in Hin]. apply list_elem_of_singleton in Hin as [= <- <-]. split_and!; try done. right. by split.
    + split_and!; try done. by left.
  - intros (->&HS&HT&Hcp). exists (s - 1, t - 1). split.
    + apply list_elem_of_fmap. exists (ClassPerm c x). split; [|done]. cbn. by rewrite !Z.sub_add.
    + exists (s - 1). split; [|done]. apply elem_of_app. destruct HT as [HT|[Hself ->]].
      * right. apply list_elem_of_fmap. by exists (t - 1).
      * left. rewrite Hself. by left.
Qed.

(** a set of the module and the types it means, that keys can hold *)
Record set_means (p : policydb) (typemap : list Z) (set : type_set) (always : bool) (X : gset Z) : Prop := {
  sm_wf : ebitmap_wf (ts_types set) ∧ ebitmap_wf (ts_negset set);
  sm_mapped i : i ∈ ebitmap_set (ts_types set) ∪ ebitmap_set (ts_negset set) → is_Some (at_index typemap (i + 1));
  sm_names : names_types p (members (image typemap) (ebitmap_set (ts_types set)));
  sm_neg i : i ∈ members (image typemap) (ebitmap_set (ts_negset set)) → 0 ≤ i < nprim (p_types p);
  sm_types : type_set_types p set (members (image typemap) (ebitmap_set (ts_types set)))
    (members (image typemap) (ebitmap_set (ts_negset set))) always = X;
  sm_fits i : i ∈ X → type_fits i
}.
Lemma set_means_wp p typemap set always X h :
  types_wf p → Forall (λ v, 0 ≤ v ≤ BITS) typemap → set_means p typemap set always X →
  wp (expand_convert_type_set p typemap set always) (λ '(rc, t) h', mem_step h h' (rc = 0) ∧ h_next h ≤ h_next h' ∧
    (rc = 0 → ebitmap_wf t ∧ ∀ i, (i ∈ ebitmap_bits t ↔ i ∈ X) ∧ (i ∈ X → type_fits i))) h.
Proof.
  intros Hp Hmap [[??] ??? <- ?]. eapply wp_mono; [by apply wp_monotone, expand_convert_type_set_wp; first apply _|].
  intros [rc t] h' [[Hm Hr] Hle]. split_and!; [done|done|]. intros ->. destruct Hr as [(_&Hw&Hs)|?]; [|lia].
  split; [done|]. intros i. split; [|by auto]. by rewrite elem_of_ebitmap_bits, <- Hs, elem_of_ebitmap_set by done.
Qed.
Lemma represents_later M a h h' : h_next h ≤ h_next h' → represents M a h → represents M a h'.
Proof.
  intros Hle (t&Hwf&[]). exists t. split; [done|]. split; try done. eapply Forall_impl; [done|]. cbn. lia.
Qed.

Lemma convert_and_expand_rule_wp no_da p typemap rule spec enabled do_neverallow S T M d h :
  let sp := avr_specified rule in
  let always := truth (Z.land sp AVRULE_TYPE) || truth (Z.land (avr_flags rule) RULE_SELF) in
  types_wf p → Forall (λ v, 0 ≤ v ≤ BITS) typemap →
  set_means p typemap (avr_stypes rule) always S → set_means p typemap (avr_ttypes rule) always T →
  truth (Z.land sp AVRULE_AV) = true → avrule_spec sp = Some spec → dropped_dontaudit sp no_da = false →
  (truth (Z.land sp AVRULE_NEVERALLOW) = true → do_neverallow = true) → perms_ok (avr_perms rule) → represents M (d_te d) h →
  wp (convert_and_expand_rule no_da p typemap rule None enabled do_neverallow d) (λ '(rc, d') h',
    mem_step h h' (rc = EXPAND_RULE_SUCCESS) ∧ (rc = EXPAND_RULE_SUCCESS ∨ rc = EXPAND_RULE_ERROR) ∧
    (rc = EXPAND_RULE_SUCCESS → d_cond d' = d_cond d ∧ d_list d' = d_list d ∧
      ∃ Sl Tl, (∀ i, i ∈ Sl ↔ i ∈ S) ∧ (∀ i, i ∈ Tl ↔ i ∈ T) ∧
        represents (add_entries sp (rule_entries spec rule Sl Tl) M) (d_te d') h')) h.
Proof.
  intros sp always Hp Hmap HS HT Hav Hs Hdrop Hnever Hperms Hd. unfold convert_and_expand_rule. fold sp. fold always.
  replace (negb do_neverallow && truth (Z.land sp AVRULE_NEVERALLOW)) with false; cycle 1.
  { destruct (truth (Z.land sp AVRULE_NEVERALLOW)); [by rewrite Hnever|by rewrite andb_false_r]. }
  apply wp_bind. eapply wp_mono; [by apply set_means_wp|]. intros [rc1 stypes] h1 (Hm1&Hle1&H1).
  destruct (truth rc1) eqn:E1; [apply truth_true in E1; apply wp_ret; split_and!; [mem|by right|done]|apply truth_false in E1].
  apply wp_bind. eapply wp_mono; [by apply set_means_wp|]. intros [rc2 ttypes] h2 (Hm2&Hle2&H2).
  destruct (truth rc2) eqn:E2; [apply truth_true in E2; apply wp_ret; split_and!; [mem|by right|done]|apply truth_false in E2].
  destruct (H1 E1) as [Hw1 Hb1]. destruct (H2 E2) as [Hw2 Hb2].
  eapply wp_mono; [eapply expand_rule_helper_wp; try done|].
  - intros i Hi. apply Hb1. by apply Hb1.
  - intros i Hi. apply Hb2. by apply Hb2.
  - eapply represents_later; [|done]. lia.
  - intros [rc d'] h' [Hm Hr]. destruct (Z.eqb_spec rc EXPAND_RULE_SUCCESS) as [->|Hne].
    + split_and!; [mem|by left|]. intros _. destruct Hr as (Hr&?&?). split_and!; [done..|].
      exists (ebitmap_bits stypes), (ebitmap_bits ttypes). split_and!; [apply Hb1|apply Hb2|done].
    + split_and!; [|by right|done]. assert (mem_step h2 h' False) by (eapply mem_step_mono, Hm; by intros [? ?]). mem.
Qed.

(** *** Role rules *)

(** a step to a known state, but for want of memory *)
Definition folds {R S} (bad : R → Prop) h (s' : S) (r : R + S) h' : Prop :=
  mem_step h h' (r = inr s') ∧ (r = inr s' ∨ ∃ x, r = inl x ∧ bad x).
Lemma folds_list {I R S} (bad : R → Prop) (g : S → I → S) l (body : I → S → CM (R + S)) s h :
  (∀ i s h, i ∈ l → wp (body i s) (folds bad h (g s i)) h) → wp (for_list l body s) (folds bad h (foldl g s l)) h.
Proof.
  intros Hb. apply (wp_for_list_prefix (λ l1 s1 h1, mem_step h h1 True ∧ s1 = foldl g s l1)).
  - split; [by apply mem_step_refl|done].
  - intros i l1 l2 s1 h1 Hl [Hm ->]. eapply wp_mono; [apply Hb; rewrite Hl; apply elem_of_app; right; by left|].
    intros r h2 [Hm2 [->|(x&->&Hx)]]; [rewrite foldl_app; split; [mem|done]|]. split; [|right; by exists x].
    assert (mem_step h1 h2 False) by (eapply mem_step_mono, Hm2; done). mem.
  - intros s1 h1 [Hm ->]. split; [|by left]. eapply mem_step_mono, Hm. done.
Qed.
Lemma folds_set_bits {R S} (bad : R → Prop) (g : S → Z → S) e (body : Z → S → CM (R + S)) s h :
  ebitmap_wf e → (∀ i s h, i ∈ ebitmap_bits e → wp (body i s) (folds bad h (g s i)) h) →
  wp (for_set_bits e body s) (folds bad h (foldl g s (ebitmap_bits e))) h.
Proof.
  intros He Hb. apply wp_bind. unfold wp at 1. rewrite ebitmap_for_each_member by done.
  change (wp (with_bit (highbit e) <$> for_list (ebitmap_bits e) body s)
    (λ x h', wp (mret (match x with inl x => inl x | inr (s, _) => inr s end)) (folds bad h (foldl g s (ebitmap_bits e))) h') h).
  apply wp_fmap. eapply wp_mono; [by apply (folds_list bad g)|].
  intros [ret|d'] h' [Hm Hr]; apply wp_ret; (split; [eapply mem_step_mono, Hm; by intros [= <-]|]); destruct Hr as [[= <-]|(x&[= <-]&Hx)].
  - right. by exists ret.
  - by left.
Qed.

(** the loops over two sets of roles *)
Definition add_allow (l : list role_allow) (r : role_allow) : list role_allow :=
  if existsb (λ r', (ra_role r' =? ra_role r) && (ra_new_role r' =? ra_new_role r)) l then l else l ++ [r].
Definition role_pairs (R N : list Z) : list role_allow := R ≫= λ i, (λ j, RoleAllow (i + 1) (j + 1)) <$> N.
Lemma elem_of_role_pairs (R N : list Z) r : r ∈ role_pairs R N ↔ ra_role r - 1 ∈ R ∧ ra_new_role r - 1 ∈ N.
Proof.
  unfold role_pairs. rewrite list_elem_of_bind. setoid_rewrite list_elem_of_fmap. destruct r as [i j]. cbn. split.
  - intros (i'&(j'&[= -> ->]&Hj)&Hi). by rewrite !Z.add_simpl_r.
  - intros [Hi Hj]. exists (i - 1). split; [|done]. exists (j - 1). by rewrite !Z.sub_add.
Qed.
Lemma add_allow_in (l : list role_allow) r : existsb (λ r', (ra_role r' =? ra_role r) && (ra_new_role r' =? ra_new_role r)) l = true ↔ r ∈ l.
Proof.
  rewrite existsb_exists. setoid_rewrite andb_true_iff. setoid_rewrite Z.eqb_eq. setoid_rewrite <- list_elem_of_In. split.
  - intros ([i j]&Hin&Hi&Hj). destruct r. cbn in *. by subst.
  - intros Hin. by exists r.
Qed.
Lemma add_allows_spec (rs l : list role_allow) :
  (∀ r, r ∈ foldl add_allow l rs ↔ r ∈ l ∨ r ∈ rs) ∧ l `prefix_of` foldl add_allow l rs ∧
  (NoDup l → NoDup (foldl add_allow l rs)).
Proof.
  revert l. induction rs as [|r rs IH]; intros l; [split_and!; [intros r; rewrite elem_of_nil; tauto|done|done]|].
  cbn [foldl]. destruct (IH (add_allow l r)) as (IH1&IH2&IH3). unfold add_allow in *.
  destruct (existsb _ l) eqn:E.
  - apply add_allow_in in E. split_and!; [|done|done]. intros r'. rewrite IH1, elem_of_cons. naive_solver.
  - assert (Hn : r ∉ l) by (intros Hr%add_allow_in; congruence). split_and!.
    + intros r'. rewrite IH1, elem_of_app, list_elem_of_singleton, elem_of_cons. tauto.
    + etrans; [|done]. by eexists.
    + intros Hl. apply IH3. apply NoDup_app. split_and!; [done| |apply NoDup_singleton].
      intros x Hx ->%list_elem_of_singleton. done.
Qed.

Lemma copy_role_allow_wp i j l h :
  0 ≤ i < BITS → 0 ≤ j < BITS →
  wp (copy_role_allow i j l) (folds (λ '(rc, _), rc = -1) h (add_allow l (RoleAllow (i + 1) (j + 1)))) h.
Proof.
  intros Hi Hj. unfold copy_role_allow, BITS, u32 in *. rewrite !wrap_id by lia. unfold add_allow. cbn [ra_role ra_new_role].
  destruct (existsb _ l); [apply wp_ret; by split; [apply mem_step_refl|left]|].
  wp_malloc a h' Hm; apply wp_ret; (split; [eapply mem_step_mono, Hm; done|]); [by left|right; by eexists].
Qed.
Lemma foldl_bind {A B S} (g : S → B → S) (f : A → list B) (l : list A) s :
  foldl g s (l ≫= f) = foldl (λ s i, foldl g s (f i)) s l.
Proof. revert s. induction l as [|i l IH]; intros s; [done|]. cbn. by rewrite foldl_app, IH. Qed.
Lemma foldl_fmap_list {A B S} (g : S → B → S) (f : A → B) (l : list A) s : foldl g s (f <$> l) = foldl (λ s i, g s (f i)) s l.
Proof. revert s. induction l as [|i l IH]; intros s; [done|]. cbn. by rewrite IH. Qed.
Lemma copy_role_pairs_wp roles new_roles l h :
  ebitmap_wf roles → ebitmap_wf new_roles →
  wp (for_set_bits roles (λ i, for_set_bits new_roles (λ j, copy_role_allow i j)) l)
    (folds (λ '(rc, _), rc = -1) h (foldl add_allow l (role_pairs (ebitmap_bits roles) (ebitmap_bits new_roles)))) h.
Proof.
  intros Hr Hn. unfold role_pairs. rewrite foldl_bind.
  assert (Hb : ∀ e i, ebitmap_wf e → i ∈ ebitmap_bits e → 0 ≤ i < BITS).
  { intros e i He Hi. apply elem_of_ebitmap_bits, nodes_bit_range in Hi; [|done..].
    pose proof (ebitmap_highbit_range _ He). unfold BITS. lia. }
  apply folds_set_bits; [done|]. intros i s h1 Hi. rewrite foldl_fmap_list. apply folds_set_bits; [done|]. intros j s2 h2 Hj.
  apply copy_role_allow_wp; [exact (Hb roles i Hr Hi)|exact (Hb new_roles j Hn Hj)].
Qed.

Lemma role_set_wp x base nprim h :
  truth (Z.land (rs_flags x) ROLE_STAR) = false → truth (Z.land (rs_flags x) ROLE_COMP) = false → names_roles x base →
  wp (role_set_expand x nprim base) (λ '(rc, r, nprim') h', mem_step h h' (rc = 0) ∧ nprim' = nprim ∧
    (rc = 0 → ebitmap_wf r ∧ ∀ i, i ∈ ebitmap_bits r ↔ i ∈ mapped_roles (ebitmap_set (rs_roles x)) base)) h.
Proof.
  intros Hs Hc Hx. unfold role_set_expand. rewrite Hs. apply wp_bind. eapply wp_mono; [by apply named_roles_expand_wp|].
  intros [rc r] h' [Hm Hr]. apply wp_ret. split_and!; [done|done|]. intros ->. destruct Hr as [(_&Hw&Hset)|?]; [|lia].
  split; [done|]. intros i. by rewrite elem_of_ebitmap_bits, <- Hset, elem_of_ebitmap_set by done.
Qed.

(** the roles of a rule, and what it allows *)
Definition role_rule_ok (base : option (policydb * list Z)) (rule : role_allow_rule) : Prop :=
  ∀ x, x = rar_roles rule ∨ x = rar_new_roles rule →
    truth (Z.land (rs_flags x) ROLE_STAR) = false ∧ truth (Z.land (rs_flags x) ROLE_COMP) = false ∧ names_roles x base.
Definition allows_role (base : option (policydb * list Z)) (rule : role_allow_rule) (r : role_allow) : Prop :=
  ra_role r - 1 ∈ mapped_roles (ebitmap_set (rs_roles (rar_roles rule))) base ∧
  ra_new_role r - 1 ∈ mapped_roles (ebitmap_set (rs_roles (rar_new_roles rule))) base.
Definition allows_grown (base : option (policydb * list Z)) (rules : list role_allow_rule) (l l' : list role_allow) : Prop :=
  l `prefix_of` l' ∧ (NoDup l → NoDup l') ∧
  ∀ r, r ∈ l' ↔ r ∈ l ∨ ∃ rule, rule ∈ rules ∧ allows_role base rule r.

Lemma copy_role_allows_wp base rules nprim l h :
  Forall (role_rule_ok base) rules →
  wp (copy_role_allows base rules nprim l) (λ '(rc, l', nprim') h', mem_step h h' (rc = 0) ∧ (rc = 0 ∨ rc = -1) ∧
    (rc = 0 → nprim' = nprim ∧ allows_grown base rules l l')) h.
Proof.
  intros Hok. unfold copy_role_allows. apply wp_bind.
  apply (wp_for_list_prefix (λ done '(l', nprim') h', mem_step h h' True ∧ nprim' = nprim ∧ allows_grown base done l l')).
  - split_and!; [by apply mem_step_refl|done|]. split_and!; [done|done|]. intros r. setoid_rewrite elem_of_nil. naive_solver.
  - intros rule l1 l2 [l' nprim'] h1 Hl (Hm&->&Hpre&Hnd&Hin).
    rewrite Forall_forall in Hok. assert (Hr : role_rule_ok base rule) by (apply Hok; rewrite Hl; apply elem_of_app; right; by left).
    destruct (Hr (rar_roles rule)) as (?&?&?); [by left|]. destruct (Hr (rar_new_roles rule)) as (?&?&?); [by right|].
    apply wp_bind. eapply wp_mono; [by apply role_set_wp|]. intros [[rc1 roles] np1] h2 (Hm1&->&HR1).
    destruct (truth rc1) eqn:E1; [apply truth_true in E1; apply wp_ret, wp_ret; split_and!; [mem|by right|done]|apply truth_false in E1].
    apply wp_bind. eapply wp_mono; [by apply role_set_wp|]. intros [[rc2 new_roles] np2] h3 (Hm2&->&HR2).
    destruct (truth rc2) eqn:E2; [apply truth_true in E2; apply wp_ret, wp_ret; split_and!; [mem|by right|done]|apply truth_false in E2].
    destruct (HR1 E1) as [Hw1 Hb1]. destruct (HR2 E2) as [Hw2 Hb2].
    apply wp_bind. eapply wp_mono; [by apply copy_role_pairs_wp|]. intros r h4 [Hm4 [->|([rc l3]&->&->)]].
    + apply wp_ret. pose proof (add_allows_spec (role_pairs (ebitmap_bits roles) (ebitmap_bits new_roles)) l') as (HA&HP&HN).
      split_and!; [mem|done|]. split_and!; [by etrans|by auto|]. intros r. rewrite HA, Hin, elem_of_role_pairs, Hb1, Hb2.
      setoid_rewrite elem_of_app. setoid_rewrite list_elem_of_singleton. unfold allows_role. naive_solver.
    + apply wp_ret, wp_ret. split_and!; [|by right|done]. assert (mem_step h3 h4 False) by (eapply mem_step_mono, Hm4; done). mem.
  - intros [l' nprim'] h' (Hm&->&Hg). apply wp_ret. split_and!; [eapply mem_step_mono, Hm; done|by left|done].
Qed.
End theory.

(** ** Properties *)

(** C8: with memory, [convert_and_expand_rule] adds to the unconditional rules
    exactly what an allow, auditallow or neverallow rule gives: for every type
    that the source set means and every type that the target set means, or the
    same type for [self], the permissions of each class are joined to those of
    the rule of that kind; no other rule changes. *)
Theorem convert_and_expand_rule_correct `{Target} no_da p typemap rule spec enabled do_neverallow S T M d h :
  let sp := avr_specified rule in
  let always := truth (Z.land (avr_flags rule) RULE_SELF) in
  sp = AVRULE_ALLOWED ∨ sp = AVRULE_AUDITALLOW ∨ sp = AVRULE_NEVERALLOW ∧ do_neverallow = true →
  avrule_spec sp = Some spec → types_wf p → Forall (λ v, 0 ≤ v ≤ BITS) typemap →
  set_means p typemap (avr_stypes rule) always S → set_means p typemap (avr_ttypes rule) always T →
  perms_ok (avr_perms rule) → represents M (d_te d) h →
  wp (convert_and_expand_rule no_da p typemap rule None enabled do_neverallow d) (λ '(rc, d') h',
    (mem_ok h → rc = EXPAND_RULE_SUCCESS) ∧ (rc = EXPAND_RULE_SUCCESS ∨ rc = EXPAND_RULE_ERROR) ∧
    (rc = EXPAND_RULE_SUCCESS → d_cond d' = d_cond d ∧ d_list d' = d_list d ∧ ∃ M', represents M' (d_te d') h' ∧
      ∀ s t c kind i, Z.testbit (default 0 (M' !! ((s, t, c), kind))) i = true ↔
        Z.testbit (default 0 (M !! ((s, t, c), kind))) i = true ∨ kind = spec ∧ gives rule S T s t c i)) h.
Proof.
  intros sp always Hsp Hspec Hp Hmap HS HT Hperms Hd.
  assert (truth (Z.land sp AVRULE_TYPE) = false ∧ truth (Z.land sp AVRULE_AV) = true ∧ dropped_dontaudit sp no_da = false ∧
    (truth (Z.land sp AVRULE_NEVERALLOW) = true → do_neverallow = true) ∧ ∀ x old, avrule_data sp x old = Z.lor old x)
    as (Htype&Hav&Hdrop&Hnever&Hjoin).
  { unfold avrule_data. destruct Hsp as [E|[E|[E ?]]]; rewrite E; by destruct no_da. }
  eapply wp_mono.
  { apply (convert_and_expand_rule_wp no_da p typemap rule spec enabled do_neverallow S T M); fold sp; rewrite ?Htype; done. }
  intros [rc d'] h' (Hm&Hrc&Hr). split_and!; [intros Ho; by destruct (Hm Ho)|done|]. intros Hok.
  destruct (Hr Hok) as (?&?&Sl&Tl&HSl&HTl&Hrep). split_and!; [done..|]. eexists. split; [done|]. intros s t c kind i.
  rewrite add_entries_bit by done.
  apply or_iff_compat_l. split.
  - intros ([id x]&Hin&Heq&Hb). cbn in *. subst id. apply elem_of_rule_entries in Hin as (->&HS'&HT'&Hcp).
    split; [done|]. rewrite HSl, HTl in *. split_and!; [done|done|]. by exists (ClassPerm c x).
  - intros (->&HS'&HT'&[c' x]&Hcp&<-&Hb). exists (((s, t, c'), spec), x). split_and!; [|done|done].
    apply elem_of_rule_entries. by rewrite HSl, HTl.
Qed.

(** with memory, [copy_role_allows] extends the list of role allow rules
    to exactly the pairs that were there or that a rule gives, each of them once
    and the old ones in front. *)
Theorem copy_role_allows_correct `{Target} base rules nprim l h :
  Forall (role_rule_ok base) rules →
  wp (copy_role_allows base rules nprim l) (λ '(rc, l', nprim') _, (mem_ok h → rc = 0) ∧ (rc = 0 ∨ rc = -1) ∧
    (rc = 0 → nprim' = nprim ∧ l `prefix_of` l' ∧ (NoDup l → NoDup l') ∧
      ∀ r, r ∈ l' ↔ r ∈ l ∨ ∃ rule, rule ∈ rules ∧ allows_role base rule r)) h.
Proof.
  intros Hok. eapply wp_mono; [by apply copy_role_allows_wp|]. intros [[rc l'] nprim'] h' (Hm&Hrc&Hr).
  split_and!; [intros Ho; by destruct (Hm Ho)|done|]. intros Hz. by destruct (Hr Hz) as (?&?&?&?).
Qed.

(** ** Examples *)

Module ExampleRules.
Definition typemap : list Z := [1; 2; 3].
Definition table : avtab := Avtab (Some [[]; []]) 0 2 1.
Definition none : dest := Dest table table [].
Definition types (m : Z) : type_set := TypeSet (ExampleSets.bits m) ExampleSets.none 0.
(** the attribute of both types, on itself *)
Definition rule (specified : Z) (perms : list class_perm_node) : avrule :=
  AvRule specified RULE_SELF (types 4) (types 1) perms 1.
Definition expand_all (rules : list avrule) : CM (Z * dest) :=
  r ← for_list rules (λ r d,
        '(rc, d) ← @convert_and_expand_rule target_arm false ExampleSets.policy typemap r None false true d;
        mret (if rc =? EXPAND_RULE_SUCCESS then inr d else inl (rc, d))) none;
  mret (match r with inl ret => ret | inr d => (EXPAND_RULE_SUCCESS, d) end).
Definition found (rules : list avrule) (k : avtab_key) : CM (Z * option Z) :=
  '(rc, d) ← expand_all rules;
  v ← avtab_search (d_te d) k;
  mret (rc, data <$> v).

Lemma none_represents h : represents ∅ (d_te none) h.
Proof.
  exists [[]; []]. split; [|by split; constructor]. split; try done.
  - intros [|[|i]] c [= <-]; by constructor.
  - intros [|[|i]] c nd [= <-] Hin; by apply elem_of_nil in Hin.
Qed.
Lemma rule_types m always X :
  m = 4 ∨ m = 1 → always = true →
  type_set_types ExampleSets.policy (types m) (members (image typemap) (ebitmap_set (ts_types (types m))))
    (members (image typemap) (ebitmap_set (ts_negset (types m)))) always = X → (∀ i, i ∈ X → type_fits i) →
  set_means ExampleSets.policy typemap (types m) always X.
Proof.
  intros Hm -> HX Hf. split; [split; [apply ExampleSets.bits_wf; lia|by apply ebitmap_init_wf]| | | |done|done].
  - replace (ebitmap_set (ts_negset (types m))) with (∅ : gset Z) by (by destruct Hm as [->| ->]). rewrite union_empty_r_L.
    destruct Hm as [->| ->]; [replace (ebitmap_set _) with ({[ 2 ]} : gset Z) by (by vm_compute)|
      replace (ebitmap_set _) with ({[ 0 ]} : gset Z) by (by vm_compute)]; intros i ->%elem_of_singleton; by eexists.
  - destruct Hm as [->| ->]; [replace (members _ _) with ({[ 2 ]} : gset Z) by (by vm_compute)|
      replace (members _ _) with ({[ 0 ]} : gset Z) by (by vm_compute)]; intros i ->%elem_of_singleton; (split; [done|by eexists]).
  - replace (members _ _) with (∅ : gset Z) by (by destruct Hm as [->| ->]; vm_compute). by intros i []%elem_of_empty.
Qed.
End ExampleRules.

(** witness of C8: both types get the permission on the first and on themselves *)
Lemma convert_and_expand_rule_correct_witness :
  let rule := ExampleRules.rule AVRULE_ALLOWED [ClassPerm 1 6] in
  let S := {[ 0; 1 ]} : gset Z in let T := {[ 0 ]} : gset Z in
  gives rule S T 2 1 1 2 ∧ gives rule S T 2 2 1 1 ∧
  wp (@convert_and_expand_rule target_arm false ExampleSets.policy ExampleRules.typemap rule None true false ExampleRules.none) (λ '(rc, d') h',
    (mem_ok fresh_heap → rc = EXPAND_RULE_SUCCESS) ∧ (rc = EXPAND_RULE_SUCCESS ∨ rc = EXPAND_RULE_ERROR) ∧
    (rc = EXPAND_RULE_SUCCESS → d_cond d' = ExampleRules.table ∧ d_list d' = [] ∧ ∃ M', represents M' (d_te d') h' ∧
      ∀ s t c kind i, Z.testbit (default 0 (M' !! ((s, t, c), kind))) i = true ↔
        Z.testbit (default 0 ((∅ : rules_map) !! ((s, t, c), kind))) i = true ∨ kind = AVTAB_ALLOWED ∧ gives rule S T s t c i)) fresh_heap.
Proof.
  intros rule S T. split_and!.
  - split_and!; [by vm_compute|by left; vm_compute|exists (ClassPerm 1 6); split_and!; [by left|done|done]].
  - split_and!; [by vm_compute|by right|exists (ClassPerm 1 6); split_and!; [by left|done|done]].
  - apply (@convert_and_expand_rule_correct target_arm false ExampleSets.policy ExampleRules.typemap rule AVTAB_ALLOWED true false S T ∅).
    + by left.
    + done.
    + apply ExampleSets.policy_types.
    + by repeat constructor.
    + apply ExampleRules.rule_types; [by left|done|by vm_compute|]. intros i [->%elem_of_singleton| ->%elem_of_singleton]%elem_of_union; by split.
    + apply ExampleRules.rule_types; [by right|done|by vm_compute|]. intros i ->%elem_of_singleton; by split.
    + by repeat constructor.
    + apply ExampleRules.none_represents.
Defined.

(** witness of [copy_role_allows_correct] *)
Lemma copy_role_allows_correct_witness :
  let rule := RoleAllowRule (RoleSet (ExampleSets.bits 1) 0) (RoleSet (ExampleSets.bits 3) 0) in
  let l := [RoleAllow 1 1] in
  allows_role None rule (RoleAllow 1 2) ∧
  wp (@copy_role_allows target_arm None [rule] 3 l) (λ '(rc, l', nprim') _, (mem_ok fresh_heap → rc = 0) ∧ (rc = 0 ∨ rc = -1) ∧
    (rc = 0 → nprim' = 3 ∧ l `prefix_of` l' ∧ (NoDup l → NoDup l') ∧
      ∀ r, r ∈ l' ↔ r ∈ l ∨ ∃ rule', rule' ∈ [rule] ∧ allows_role None rule' r)) fresh_heap.
Proof.
  intros rule l. split; [by split; vm_compute|]. apply (@copy_role_allows_correct target_arm).
  constructor; [|constructor]. intros x Hx. split_and!; [by destruct Hx as [->| ->]..|].
  split; [by destruct Hx as [->| ->]; apply ExampleSets.bits_wf|done].
Defined.

(** rules about denials that are not audited are not always merged.  A first
    auditdeny rule for a key is met with an empty rule, so that nothing of the
    class is audited, whatever the rule has; and when dontaudit rules have
    silenced all of a class, the next one starts anew and lets the denials of
    all its other permissions be audited again. *)
Theorem auditdeny_rules_wrong :
  let k := AvKey 1 1 1 AVTAB_AUDITDENY in
  wp (ExampleRules.found [ExampleRules.rule AVRULE_AUDITDENY [ClassPerm 1 6]] k) (λ r _, r = (EXPAND_RULE_SUCCESS, Some 0)) fresh_heap ∧
  wp (ExampleRules.found [ExampleRules.rule AVRULE_DONTAUDIT [ClassPerm 1 UINT_MAX]] k)
    (λ r _, r = (EXPAND_RULE_SUCCESS, Some 0)) fresh_heap ∧
  wp (ExampleRules.found [ExampleRules.rule AVRULE_DONTAUDIT [ClassPerm 1 UINT_MAX]; ExampleRules.rule AVRULE_DONTAUDIT [ClassPerm 1 1]] k)
    (λ r _, r = (EXPAND_RULE_SUCCESS, Some (UINT_MAX - 1))) fresh_heap.
Proof. split_and!; by vm_compute. Qed.

(** a type rule that repeats another for one of its classes is dropped for
    the classes that follow: the rule for class 2 is reported expanded and is
    not in the table, while without the repetition it is. *)
Theorem duplicate_type_rule_drops :
  let k := AvKey 1 1 2 AVTAB_TRANSITION in
  wp (ExampleRules.found [AvRule AVRULE_TRANSITION 0 (ExampleRules.types 1) (ExampleRules.types 1) [ClassPerm 1 2; ClassPerm 2 2] 1] k)
    (λ r _, r = (EXPAND_RULE_SUCCESS, Some 2)) fresh_heap ∧
  wp (ExampleRules.found [AvRule AVRULE_TRANSITION 0 (ExampleRules.types 1) (ExampleRules.types 1) [ClassPerm 1 2] 1;
        AvRule AVRULE_TRANSITION 0 (ExampleRules.types 1) (ExampleRules.types 1) [ClassPerm 1 2; ClassPerm 2 2] 2] k)
    (λ r _, r = (EXPAND_RULE_SUCCESS, None)) fresh_heap.
Proof. split; by vm_compute. Qed.
