(* ===== verification/Readers.v ===== *)
(** * Readers and writers of policies ([policydb.c], [write.c]): their common form

    A reader takes bytes from a file and returns an error code or a value; a
    writer puts bytes and returns a code.  Both stop at the first error, and
    what has been built is destroyed.  [reads] and [writes] say which bytes
    stand for a value, [checks] that a reader is safe on any bytes and what it
    accepts; each has a rule for every construct, so that the proof for a reader
    follows its text. *)

From S2P Require Import Prelude PolicyFile Ebitmap EbitmapIO.
From Stdlib Require Import Ascii.

Definition Reader (A : Type) : Type := policy_file → CM ((Z + A) * policy_file).
Definition Writer : Type := policy_file → CM (Z * policy_file).
#[global] Typeclasses Opaque Reader.

#[global] Instance Reader_ret : MRet Reader := λ A x fp, mret (M := CM) (inr x, fp).
#[global] Instance Reader_bind : MBind Reader := λ A B f m fp,
  mbind (M := CM) (λ '(r, fp), match r with inl rc => mret (M := CM) (inl rc, fp) | inr x => f x fp end) (m fp).

(** ** Versions *)

Definition POLICY_BASE : Z := 1.
Definition POLICY_MOD : Z := 2.
Definition POLICYDB_VERSION_VALIDATETRANS : Z := 19.
Definition POLICYDB_VERSION_MLS : Z := 19.
Definition POLICYDB_VERSION_BOUNDARY : Z := 24.
Definition POLICYDB_VERSION_ROLETRANS : Z := 26.
Definition POLICYDB_VERSION_NEW_OBJECT_DEFAULTS : Z := 27.
Definition POLICYDB_VERSION_DEFAULT_TYPE : Z := 28.
Definition MOD_POLICYDB_VERSION_VALIDATETRANS : Z := 5.
Definition MOD_POLICYDB_VERSION_MLS : Z := 5.
Definition MOD_POLICYDB_VERSION_MLS_USERS : Z := 6.
Definition MOD_POLICYDB_VERSION_PERMISSIVE : Z := 8.
Definition MOD_POLICYDB_VERSION_BOUNDARY : Z := 9.
Definition MOD_POLICYDB_VERSION_BOUNDARY_ALIAS : Z := 10.
Definition MOD_POLICYDB_VERSION_ROLEATTRIB : Z := 13.
Definition MOD_POLICYDB_VERSION_TUNABLE_SEP : Z := 14.
Definition MOD_POLICYDB_VERSION_NEW_OBJECT_DEFAULTS : Z := 15.
Definition MOD_POLICYDB_VERSION_DEFAULT_TYPE : Z := 16.

(** ** Operations *)

Definition fail {A} (rc : Z) : Reader A := λ fp, mret (M := CM) (inl rc, fp).
(** [if (rc) return e;] *)
Definition or_fail {A} (e : Z) (r : Reader A) : Reader A := λ fp,
  mbind (M := CM) (λ '(x, fp), mret (M := CM) (match x with inl _ => inl e | inr y => inr y end, fp)) (r fp).
(** a computation without file that may fail with a code *)
Definition lift {A} (m : CM (Z * A)) : Reader A := λ fp,
  mbind (M := CM) (λ '(rc, x), mret (M := CM) (if truth rc then inl rc else inr x, fp)) m.
Definition total {A} (m : CM A) : Reader A := λ fp, mbind (M := CM) (λ x, mret (M := CM) (inr x, fp)) m.
(** [if (!(x = malloc(..))) return e;] *)
Definition new (e : Z) : Reader unit := λ fp,
  mbind (M := CM) (λ n, mret (M := CM) (match n with None => inl e | Some _ => inr () end, fp)) malloc.
(** [rc = next_entry(buf, fp, bytes); if (rc < 0) return rc;] *)
Definition get_entry (bytes : Z) : Reader (list byte) := λ fp,
  mbind (M := CM) (λ '(rc, buf, fp), mret (M := CM) (if rc <? 0 then inl rc else inr buf, fp)) (next_entry fp bytes).
Definition get_ebitmap `{Target} : Reader ebitmap := λ fp,
  mbind (M := CM) (λ '(rc, e, fp), mret (M := CM) (if truth rc then inl rc else inr e, fp)) (ebitmap_read fp).
(** [for (i = 0; i < n; i++) body] *)
Definition times {S} (n : Z) (body : S → Reader S) (s : S) : Reader S := λ fp,
  mbind (M := CM) (λ r, mret (M := CM) (match r with inl (rc, fp) => (inl rc, fp) | inr (s, fp) => (inr s, fp) end))
    (for_loop 0 n (λ _ '(s, fp),
      mbind (M := CM) (λ '(r, fp), mret (M := CM) (match r with inl rc => inl (rc, fp) | inr s => inr (s, fp) end)) (body s fp)) (s, fp)).

(** the string that starts a buffer: the bytes before the first zero *)
Fixpoint c_string (buf : list byte) : string :=
  match buf with
  | [] => EmptyString
  | x00 :: _ => EmptyString
  | b :: buf => String (ascii_of_byte b) (c_string buf)
  end.
(** how many bytes [next_entry] stores in the buffer, also when it fails *)
Definition stored (fp : policy_file) (bytes : Z) : Z :=
  match pf_type fp with
  | PF_USE_STDIO => bytes `min` length (pf_data fp)
  | PF_USE_MEMORY => if pf_len fp <? bytes then 0 else bytes
  | PF_LEN => 0
  end.
(** [key = malloc(size); rc = next_entry(key, fp, len); key[len] = 0;] with
    [size] what [len + 1] is in its type *)
Definition get_name (size len : Z) : Reader string := λ fp,
  mbind (M := CM) (λ n,
    match n with
    | None => mret (M := CM) (inl (-1), fp)
    | Some _ =>
        if size <? stored fp len then undefined else
        mbind (M := CM) (λ '(rc, buf, fp),
          if rc <? 0 then mret (M := CM) (inl (-1), fp) else
          if size <=? len then undefined else mret (M := CM) (inr (c_string buf), fp)) (next_entry fp len)
    end) malloc.

(** [if (w1) return POLICYDB_ERROR; w2] *)
Definition then_write (w1 w2 : Writer) : Writer := λ fp,
  mbind (M := CM) (λ '(rc, fp), if truth rc then mret (M := CM) (POLICYDB_ERROR, fp) else w2 fp) (w1 fp).
Definition done : Writer := λ fp, mret (M := CM) (POLICYDB_SUCCESS, fp).
Definition refuse : Writer := λ fp, mret (M := CM) (POLICYDB_ERROR, fp).
(** [items = put_entry(buf, sizeof(uint32_t), n, fp); if (items != n) return POLICYDB_ERROR;] *)
Definition put_words `{Target} (zs : list Z) : Writer := λ fp,
  let '(items, fp) := put_entry (cpu_to_le 4 zs) 4 (length zs) fp in
  mret (M := CM) (if negb (items =? length zs) then POLICYDB_ERROR else POLICYDB_SUCCESS, fp).
(** [items = put_entry(key, 1, len, fp); if (items != len) return POLICYDB_ERROR;]
    with [len] of type size_t *)
Definition put_name `{Target} (s : string) : Writer := λ fp,
  let '(items, fp) := put_entry (String.list_byte_of_string s) 1 (String.length s) fp in
  mret (M := CM) (if negb (items =? String.length s) then POLICYDB_ERROR else POLICYDB_SUCCESS, fp).
Definition put_ebitmap `{Target} (e : ebitmap) : Writer := λ fp, mret (M := CM) (ebitmap_write e fp).
Fixpoint write_each {A} (w : A → Writer) (l : list A) : Writer :=
  match l with
  | [] => done
  | x :: l => then_write (w x) (write_each w l)
  end.
Notation "w1 ;;; w2" := (then_write w1 w2) (at level 100, right associativity).

(** ** What bytes stand for *)

Section rules.
Context `{Target} {A B S : Type}.
Implicit Types (bs : list byte) (e : Z) (h : heap).

(** [bs] at the start of a file in memory is read as a value with [P], if there
    is memory *)
Definition reads (r : Reader A) bs (P : A → Prop) : Prop := ∀ rest h,
  wp (r (mem_input (bs ++ rest))) (λ '(x, fp) h', mem_step h h' (∃ y, x = inr y) ∧
    match x with inr y => P y ∧ fp = mem_input rest | inl rc => truth rc = true end) h.
(** on any bytes that fit in memory the reader is safe, and what it accepts has
    [P] *)
Definition checks (r : Reader A) (P : A → Prop) : Prop := ∀ bs h, length bs < UINT_MAX →
  wp (r (mem_input bs)) (λ '(x, fp) _, (∃ bs', fp = mem_input bs' ∧ length bs' ≤ length bs) ∧
    match x with inr y => P y | inl rc => truth rc = true end) h.
(** the same from a memory with [I] to one that has [P] *)
Definition reads_in (I : heap → Prop) (r : Reader A) bs (P : A → heap → Prop) : Prop := ∀ rest h, I h →
  wp (r (mem_input (bs ++ rest))) (λ '(x, fp) h', mem_step h h' (∃ y, x = inr y) ∧
    match x with inr y => P y h' ∧ fp = mem_input rest | inl rc => truth rc = true end) h.
Definition checks_in (I : heap → Prop) (r : Reader A) (P : A → heap → Prop) : Prop := ∀ bs h, length bs < UINT_MAX → I h →
  wp (r (mem_input bs)) (λ '(x, fp) h', (∃ bs', fp = mem_input bs' ∧ length bs' ≤ length bs) ∧
    match x with inr y => P y h' | inl rc => truth rc = true end) h.
(** [bs] is written to a file in memory that has the room *)
Definition writes (w : Writer) bs : Prop := ∀ out room h, length bs ≤ room →
  w (mem_output out room) h = Some ((0, mem_output (out ++ bs) (room - length bs)), h).
(** what [w] writes, [r] reads as a value with [P] *)
Definition round_trip (w : Writer) (r : Reader A) (P : A → Prop) : Prop := ∃ bs, writes w bs ∧ reads r bs P.
End rules.

Section reader_rules.
Context `{Target}.
Implicit Types (bs : list byte) (e : Z) (h : heap).

Lemma reads_mono {A} (r : Reader A) bs (P Q : A → Prop) : reads r bs P → (∀ x, P x → Q x) → reads r bs Q.
Proof.
  intros Hr HQ rest h. eapply wp_mono; [by apply Hr|]. intros [[rc|x] fp] h' [Hm Hx]; [done|]. naive_solver.
Qed.
Lemma reads_ret {A} (x : A) (P : A → Prop) : P x → reads (mret x) [] P.
Proof. intros HP rest h. split; [apply mem_step_refl; by exists x|done]. Qed.
Lemma reads_bind {A B} (r : Reader A) (f : A → Reader B) b1 b2 P Q :
  reads r b1 P → (∀ x, P x → reads (f x) b2 Q) → reads (r ≫= f) (b1 ++ b2) Q.
Proof.
  intros Hr Hf rest h. rewrite <- app_assoc. apply wp_bind. eapply wp_mono; [by apply Hr|].
  intros [[rc|x] fp] h1 [Hm Hx].
  - apply wp_ret. split; [|done]. eapply mem_step_mono, Hm. by intros [? ?].
  - destruct Hx as [HP ->]. eapply wp_mono; [by apply Hf|]. intros [y fp2] h2 [Hm2 H2]. split; [mem|done].
Qed.
(** a step that takes no bytes *)
Lemma reads_bind_nil {A B} (r : Reader A) (f : A → Reader B) bs P Q :
  reads r [] P → (∀ x, P x → reads (f x) bs Q) → reads (r ≫= f) bs Q.
Proof. apply (reads_bind r f [] bs). Qed.
Lemma reads_bind_last {A B} (r : Reader A) (f : A → Reader B) bs P Q :
  reads r bs P → (∀ x, P x → reads (f x) [] Q) → reads (r ≫= f) bs Q.
Proof. intros Hr Hf. rewrite <- (app_nil_r bs). by eapply reads_bind. Qed.
Lemma reads_or_fail {A} e (r : Reader A) bs P : truth e = true → reads r bs P → reads (or_fail e r) bs P.
Proof.
  intros He Hr rest h. apply wp_bind. eapply wp_mono; [by apply Hr|]. intros [[rc|x] fp] h1 [Hm Hx]; apply wp_ret.
  - split; [|done]. eapply mem_step_mono, Hm. by intros [? ?].
  - split; [|done]. eapply mem_step_mono, Hm. intros _. by exists x.
Qed.
Lemma reads_new e : truth e = true → reads (new e) [] (λ _, True).
Proof.
  intros He rest h. unfold new.
  apply wp_bind, wp_malloc; [intros a h' Hm|intros h' Hm]; apply wp_ret; (split; [|done]); eapply mem_step_mono, Hm; [intros _; by eexists|done].
Qed.
Lemma reads_entry n bs : n = Z.of_nat (length bs) → reads (get_entry n) bs (λ buf, buf = bs).
Proof.
  intros Hn rest h. apply wp_bind. unfold wp at 1. rewrite next_entry_app by done. apply wp_ret. split; [apply mem_step_refl; by exists bs|done].
Qed.
Lemma reads_ebitmap (b : ebitmap) : ebitmap_wf b → reads get_ebitmap (ebitmap_bytes b) (λ b', b' = b).
Proof.
  intros He rest h. apply wp_bind. eapply wp_mono; [by apply ebitmap_read_bytes|].
  intros [[rc e'] fp] h' [Hm [(->&->&->)|[-> ->]]]; apply wp_ret.
  - split; [|done]. eapply mem_step_mono, Hm. intros _. by exists b.
  - split; [|done]. eapply mem_step_mono, Hm. done.
Qed.

(** names without a zero byte *)
Fixpoint is_c_string (s : string) : Prop :=
  match s with
  | EmptyString => True
  | String c s => c ≠ Ascii.zero ∧ is_c_string s
  end.
Lemma c_string_bytes s : is_c_string s → c_string (String.list_byte_of_string s) = s.
Proof.
  induction s as [|c s IH]; [done|]. intros [Hc Hs]. unfold String.list_byte_of_string in *. cbn [String.list_ascii_of_string List.map c_string].
  destruct (byte_of_ascii c) eqn:E;
    try (rewrite IH by done; f_equal; by rewrite <- E, ascii_of_byte_of_ascii).
  destruct Hc. by rewrite <- (ascii_of_byte_of_ascii c), E.
Qed.
Lemma length_name s : length (String.list_byte_of_string s) = String.length s.
Proof. unfold String.list_byte_of_string. rewrite List.length_map. induction s as [|c s IH]; [done|]. cbn. by rewrite IH. Qed.
Lemma reads_name size len s :
  is_c_string s → len = Z.of_nat (String.length s) → len < size →
  reads (get_name size len) (String.list_byte_of_string s) (λ s', s' = s).
Proof.
  intros Hs Hlen Hsize rest h. unfold get_name.
  apply wp_bind, wp_malloc; [intros a h' Hm|intros h' Hm].
  - assert (Hst : stored (mem_input (String.list_byte_of_string s ++ rest)) len = len).
    { unfold stored. cbn. rewrite length_app, length_name. destruct (Z.ltb_spec (String.length s + length rest)%nat len); lia. }
    rewrite Hst. destruct (Z.ltb_spec size len); [lia|]. apply wp_bind. unfold wp at 1.
    rewrite next_entry_app by (rewrite length_name; lia). cbn. destruct (Z.leb_spec size len); [lia|].
    rewrite c_string_bytes by done. split; [eapply mem_step_mono, Hm; intros _; by eexists|done].
  - apply wp_ret. split; [|done]. eapply mem_step_mono, Hm. done.
Qed.
Lemma reads_lift {A} (m : CM (Z * A)) (P : A → Prop) :
  (∀ h, wp m (λ '(rc, x) h', mem_step h h' (rc = 0) ∧ (rc = 0 → P x)) h) → reads (lift m) [] P.
Proof.
  intros Hm rest h. apply wp_bind. eapply wp_mono; [apply Hm|]. intros [rc x] h' [Hs Hx]. apply wp_ret.
  destruct (truth rc) eqn:E.
  - split; [|done]. apply truth_true in E. eapply mem_step_mono, Hs. done.
  - apply truth_false in E. split; [|by split; [apply Hx|]]. eapply mem_step_mono, Hs. intros _. by eexists.
Qed.
Lemma reads_total {A} (m : CM A) (P : A → Prop) : (∀ h, wp m (λ x h', mem_step h h' True ∧ P x) h) → reads (total m) [] P.
Proof.
  intros Hm rest h. apply wp_bind. eapply wp_mono; [apply Hm|]. intros x h' [Hs Hx]. apply wp_ret.
  split; [|done]. eapply mem_step_mono, Hs. intros _. by eexists.
Qed.

(** *** In a memory *)

Lemma reads_in_reads {A} (I : heap → Prop) (r : Reader A) bs (P : A → heap → Prop) (Q : A → Prop) :
  (∀ h, I h) → reads_in I r bs P → (∀ x h, P x h → Q x) → reads r bs Q.
Proof.
  intros HI Hr HQ rest h. eapply wp_mono; [by apply Hr|]. intros [[rc|x] fp] h' [Hm Hx]; [done|]. naive_solver.
Qed.
Lemma reads_in_mono {A} (I : heap → Prop) (r : Reader A) bs (P Q : A → heap → Prop) :
  reads_in I r bs P → (∀ x h, P x h → Q x h) → reads_in I r bs Q.
Proof.
  intros Hr HQ rest h Hh. eapply wp_mono; [by apply Hr|]. intros [[rc|x] fp] h' [Hm Hx]; [done|]. naive_solver.
Qed.
Lemma reads_in_ret {A} (I : heap → Prop) (x : A) (P : A → heap → Prop) : (∀ h, I h → P x h) → reads_in I (mret x) [] P.
Proof. intros HP rest h Hh. split; [apply mem_step_refl; by exists x|by split; [apply HP|]]. Qed.
Lemma reads_in_bind {A B} (I : heap → Prop) (r : Reader A) (f : A → Reader B) b1 b2 P Q :
  reads_in I r b1 P → (∀ x, reads_in (P x) (f x) b2 Q) → reads_in I (r ≫= f) (b1 ++ b2) Q.
Proof.
  intros Hr Hf rest h Hh. rewrite <- app_assoc. apply wp_bind. eapply wp_mono; [by apply Hr|].
  intros [[rc|x] fp] h1 [Hm Hx].
  - apply wp_ret. split; [|done]. eapply mem_step_mono, Hm. by intros [? ?].
  - destruct Hx as [HP ->]. eapply wp_mono; [by apply Hf|]. intros [y fp2] h2 [Hm2 H2]. split; [mem|done].
Qed.
Lemma reads_in_bind_nil {A B} (I : heap → Prop) (r : Reader A) (f : A → Reader B) bs P Q :
  reads_in I r [] P → (∀ x, reads_in (P x) (f x) bs Q) → reads_in I (r ≫= f) bs Q.
Proof. apply (reads_in_bind I r f [] bs). Qed.
Lemma reads_in_bind_last {A B} (I : heap → Prop) (r : Reader A) (f : A → Reader B) bs P Q :
  reads_in I r bs P → (∀ x, reads_in (P x) (f x) [] Q) → reads_in I (r ≫= f) bs Q.
Proof. intros Hr Hf. rewrite <- (app_nil_r bs). by eapply reads_in_bind. Qed.
Lemma reads_in_or_fail {A} I e (r : Reader A) bs P : truth e = true → reads_in I r bs P → reads_in I (or_fail e r) bs P.
Proof.
  intros He Hr rest h Hh. apply wp_bind. eapply wp_mono; [by apply Hr|]. intros [[rc|x] fp] h1 [Hm Hx]; apply wp_ret.
  - split; [|done]. eapply mem_step_mono, Hm. by intros [? ?].
  - split; [|done]. eapply mem_step_mono, Hm. intros _. by exists x.
Qed.
Lemma reads_in_new (I : heap → Prop) e : truth e = true → (∀ h h', I h → h_next h ≤ h_next h' → I h') → reads_in I (new e) [] (λ _, I).
Proof.
  intros He HI rest h Hh. unfold new.
  apply wp_bind, wp_malloc_addr; [intros h' Hm Hn|intros h' Hm Hn]; apply wp_ret; split; [|split; [|done]| |done].
  - eapply mem_step_mono, Hm. intros _. by eexists.
  - eapply HI; [done|lia].
  - eapply mem_step_mono, Hm. done.
Qed.
(** a reader that takes no memory *)
Lemma reads_in_entry (I : heap → Prop) n bs : n = Z.of_nat (length bs) → reads_in I (get_entry n) bs (λ buf h, buf = bs ∧ I h).
Proof.
  intros Hn rest h Hh. apply wp_bind. unfold wp at 1. rewrite next_entry_app by done. apply wp_ret. split; [apply mem_step_refl; by exists bs|done].
Qed.
Lemma reads_in_times {S I} (l : list I) n (body : S → Reader S) (f : I → list byte) (Inv : list I → S → heap → Prop) s :
  n = Z.of_nat (length l) →
  (∀ i l1 l2 s, l = l1 ++ i :: l2 → reads_in (Inv l1 s) (body s) (f i) (Inv (l1 ++ [i]))) →
  reads_in (Inv [] s) (times n body s) (l ≫= f) (Inv l).
Proof.
  intros -> Hb rest h HI. apply wp_bind. unfold for_loop. rewrite Z.sub_0_r, Nat2Z.id.
  assert (Hgen : ∀ l2 l1 s h i, l = l1 ++ l2 → Inv l1 s h →
    wp (for_range (length l2) i (λ _ '(s, fp), mbind (M := CM) (λ '(r, fp), mret (M := CM) (match r with inl rc => inl (rc, fp) | inr s => inr (s, fp) end)) (body s fp))
        (s, mem_input ((l2 ≫= f) ++ rest)))
      (λ r h', mem_step h h' (∃ s', r = inr s') ∧ match r with inl (rc, _) => truth rc = true | inr (s', fp) => Inv l s' h' ∧ fp = mem_input rest end) h).
  { induction l2 as [|x l2 IH]; intros l1 s1 h1 i Hl H1; cbn [for_range length].
    - apply wp_ret. rewrite app_nil_r in Hl. subst l. split; [apply mem_step_refl; by eexists|done].
    - cbn [mbind list_bind]. rewrite <- app_assoc. apply wp_bind, wp_bind. eapply wp_mono; [by apply (Hb x l1 l2)|].
      intros [[rc|s2] fp] h2 [Hm Hx]; apply wp_ret.
      + apply wp_ret. split; [|done]. eapply mem_step_mono, Hm. by intros [? ?].
      + destruct Hx as [H2 ->]. eapply wp_mono; [apply (IH (l1 ++ [x])); [by rewrite <- app_assoc|done]|].
        intros r h3 [Hm3 H3]. split; [mem|done]. }
  eapply wp_mono; [by apply (Hgen l [])|]. intros [[rc fp]|[s' fp]] h' [Hm Hx]; apply wp_ret.
  - split; [|done]. eapply mem_step_mono, Hm. by intros [? ?].
  - split; [|done]. eapply mem_step_mono, Hm. intros _. by eexists.
Qed.
Lemma reads_times {S I} (l : list I) n (body : S → Reader S) (f : I → list byte) (Inv : list I → S → Prop) s :
  n = Z.of_nat (length l) → Inv [] s →
  (∀ i l1 l2 s, l = l1 ++ i :: l2 → Inv l1 s → reads (body s) (f i) (Inv (l1 ++ [i]))) →
  reads (times n body s) (l ≫= f) (Inv l).
Proof.
  intros Hn HI Hb. apply (reads_in_reads (λ _, Inv [] s) _ _ (λ s' _, Inv l s')); [done| |done].
  apply (reads_in_times l n body f (λ l1 s _, Inv l1 s)); [done|]. intros i l1 l2 s1 Hl rest h H1. by apply (Hb i l1 l2 s1 Hl H1).
Qed.
End reader_rules.

Section check_rules.
Context `{Target}.
Implicit Types (bs : list byte) (h : heap).

Lemma checks_mono {A} (r : Reader A) (P Q : A → Prop) : checks r P → (∀ x, P x → Q x) → checks r Q.
Proof.
  intros Hr HQ bs h Hbs. eapply wp_mono; [by apply Hr|]. intros [[rc|x] fp] h' [Hf Hx]; [done|]. split; [done|by apply HQ].
Qed.
Lemma checks_ret {A} (x : A) (P : A → Prop) : P x → checks (mret x) P.
Proof. intros HP bs h Hbs. split; [by exists bs|done]. Qed.
Lemma checks_fail {A} rc (P : A → Prop) : truth rc = true → checks (fail rc) P.
Proof. intros Hrc bs h Hbs. split; [by exists bs|done]. Qed.
Lemma checks_bind {A B} (r : Reader A) (f : A → Reader B) P Q :
  checks r P → (∀ x, P x → checks (f x) Q) → checks (r ≫= f) Q.
Proof.
  intros Hr Hf bs h Hbs. apply wp_bind. eapply wp_mono; [by apply Hr|].
  intros [[rc|x] fp] h1 [(bs1&->&Hle) Hx]; [apply wp_ret; split; [by exists bs1|done]|].
  eapply wp_mono; [apply Hf; [done|lia]|]. intros [y fp2] h2 [(bs2&->&Hle2) Hy]. split; [|done]. exists bs2. split; [done|lia].
Qed.
Lemma checks_or_fail {A} e (r : Reader A) P : truth e = true → checks r P → checks (or_fail e r) P.
Proof. intros He Hr bs h Hbs. apply wp_bind. eapply wp_mono; [by apply Hr|]. intros [[rc|x] fp] h1 [Hf Hx]; by apply wp_ret. Qed.
Lemma checks_new e : truth e = true → checks (new e) (λ _, True).
Proof.
  intros He bs h Hbs. unfold new. apply wp_bind, wp_malloc; [intros a h' Hm|intros h' Hm]; apply wp_ret; (split; [by exists bs|done]).
Qed.
Lemma checks_entry n : 0 ≤ n → checks (get_entry n) (λ buf, Z.of_nat (length buf) = n).
Proof.
  intros Hn bs h Hbs. apply wp_bind. unfold wp at 1. rewrite next_entry_mem by done.
  destruct (Z.ltb_spec (length bs) n); apply wp_ret; (split; [eexists; split; [done|rewrite ?length_drop; lia]|]); [done|].
  cbn. rewrite length_take. lia.
Qed.
Lemma checks_name size len : 0 ≤ len → (len < UINT_MAX → len < size) → 0 ≤ size → checks (get_name size len) (λ _, True).
Proof.
  intros Hlen Hsize Hs0 bs h Hbs. unfold get_name.
  apply wp_bind, wp_malloc; [intros a h' Hm|intros h' Hm]; [|apply wp_ret; split; [by exists bs|done]].
  unfold stored. cbn [pf_type pf_len mem_input]. destruct (Z.ltb_spec (length bs) len) as [Hl|Hl].
  - destruct (Z.ltb_spec size 0); [lia|]. apply wp_bind. unfold wp at 1. rewrite next_entry_mem by done.
    destruct (Z.ltb_spec (length bs) len); [|lia]. apply wp_ret. split; [by exists bs|done].
  - destruct (Z.ltb_spec size len); [lia|]. apply wp_bind. unfold wp at 1. rewrite next_entry_mem by done.
    destruct (Z.ltb_spec (length bs) len); [lia|]. cbn. destruct (Z.leb_spec size len); [lia|].
    split; [|done]. eexists. split; [done|]. rewrite length_drop. lia.
Qed.
Lemma checks_lift {A} (m : CM (Z * A)) (P : A → Prop) :
  (∀ h, wp m (λ '(rc, x) _, rc = 0 → P x) h) → checks (lift m) P.
Proof.
  intros Hm bs h Hbs. apply wp_bind. eapply wp_mono; [apply Hm|]. intros [rc x] h' Hx. apply wp_ret. split; [by exists bs|].
  destruct (truth rc) eqn:E; [done|]. apply truth_false in E. by apply Hx.
Qed.
Lemma checks_total {A} (m : CM A) (P : A → Prop) : (∀ h, wp m (λ x _, P x) h) → checks (total m) P.
Proof. intros Hm bs h Hbs. apply wp_bind. eapply wp_mono; [apply Hm|]. intros x h' Hx. apply wp_ret. split; [by exists bs|done]. Qed.
(** what [ebitmap_read] accepts; its high bit is not checked *)
Lemma checks_ebitmap : checks get_ebitmap ebitmap_weak_wf.
Proof.
  intros bs h Hbs. apply wp_bind. eapply wp_mono; [by apply ebitmap_read_checks|].
  intros [[rc e] fp] h' (Hw&_&bs'&->&Hle). apply wp_ret. split; [by exists bs'|].
  destruct (truth rc) eqn:E; [done|]. apply truth_false in E. by apply Hw.
Qed.

(** *** In a memory *)

Lemma checks_in_ret {A} (I : heap → Prop) (x : A) (P : A → heap → Prop) : (∀ h, I h → P x h) → checks_in I (mret x) P.
Proof. intros HP bs h Hbs Hh. split; [by exists bs|by apply HP]. Qed.
Lemma checks_in_fail {A} I rc (P : A → heap → Prop) : truth rc = true → checks_in I (fail rc) P.
Proof. intros Hrc bs h Hbs Hh. split; [by exists bs|done]. Qed.
Lemma checks_in_mono {A} (I : heap → Prop) (r : Reader A) (P Q : A → heap → Prop) :
  checks_in I r P → (∀ x h, P x h → Q x h) → checks_in I r Q.
Proof.
  intros Hr HQ bs h Hbs Hh. eapply wp_mono; [by apply Hr|]. intros [[rc|x] fp] h' [Hf Hx]; [done|]. split; [done|by apply HQ].
Qed.
Lemma checks_in_bind {A B} (I : heap → Prop) (r : Reader A) (f : A → Reader B) P Q :
  checks_in I r P → (∀ x, checks_in (P x) (f x) Q) → checks_in I (r ≫= f) Q.
Proof.
  intros Hr Hf bs h Hbs Hh. apply wp_bind. eapply wp_mono; [by apply Hr|].
  intros [[rc|x] fp] h1 [(bs1&->&Hle) Hx]; [apply wp_ret; split; [by exists bs1|done]|].
  eapply wp_mono; [apply Hf; [lia|done]|]. intros [y fp2] h2 [(bs2&->&Hle2) Hy]. split; [|done]. exists bs2. split; [done|lia].
Qed.
Lemma checks_in_or_fail {A} I e (r : Reader A) P : truth e = true → checks_in I r P → checks_in I (or_fail e r) P.
Proof. intros He Hr bs h Hbs Hh. apply wp_bind. eapply wp_mono; [by apply Hr|]. intros [[rc|x] fp] h1 [Hf Hx]; by apply wp_ret. Qed.
Lemma checks_in_entry (I : heap → Prop) n : 0 ≤ n → checks_in I (get_entry n) (λ _, I).
Proof.
  intros Hn bs h Hbs Hh. apply wp_bind. unfold wp at 1. rewrite next_entry_mem by done.
  destruct (Z.ltb_spec (length bs) n); apply wp_ret; (split; [eexists; split; [done|rewrite ?length_drop; lia]|]); done.
Qed.
Lemma checks_in_new (I : heap → Prop) e :
  truth e = true → (∀ h h', I h → h_next h ≤ h_next h' → I h') → checks_in I (new e) (λ _, I).
Proof.
  intros He HI bs h Hbs Hh. unfold new.
  apply wp_bind, wp_malloc_addr; [intros h' _ Hn|intros h' _ Hn]; apply wp_ret; (split; [by exists bs|]); [|done].
  eapply HI; [done|lia].
Qed.
Lemma checks_in_times {S} n (body : S → Reader S) (Inv : S → heap → Prop) s :
  (∀ s, checks_in (Inv s) (body s) Inv) → checks_in (Inv s) (times n body s) Inv.
Proof.
  intros Hb bs h Hbs Hh. apply wp_bind.
  apply (wp_for_loop (λ _ '(s, fp) h, Inv s h ∧ ∃ bs', fp = mem_input bs' ∧ length bs' ≤ length bs)).
  - split; [done|by exists bs].
  - intros i [s1 fp1] h1 _ (H1&bs1&->&Hle1). apply wp_bind. eapply wp_mono; [apply Hb; [lia|done]|].
    intros [[rc|s2] fp2] h2 [(bs2&->&Hle2) Hx]; apply wp_ret.
    + apply wp_ret. split; [|done]. exists bs2. split; [done|lia].
    + split; [done|]. exists bs2. split; [done|lia].
  - intros [s1 fp1] h1 (H1&bs1&->&Hle1). apply wp_ret. split; [by exists bs1|done].
Qed.
Lemma checks_times {S} n (body : S → Reader S) (Inv : S → Prop) s :
  Inv s → (∀ s, Inv s → checks (body s) Inv) → checks (times n body s) Inv.
Proof.
  intros HI Hb bs h Hbs. apply (checks_in_times n body (λ s _, Inv s) s); [|done|done]. intros s1 bs1 h1 Hb1 H1. by apply Hb.
Qed.
End check_rules.

(** ** Writing *)

Section write_rules.
Context `{Target}.
Implicit Types (bs : list byte) (w : Writer).

Lemma writes_done : writes done [].
Proof. intros out room h _. unfold done. cbn. by rewrite app_nil_r, Z.sub_0_r. Qed.
Lemma writes_then w1 w2 b1 b2 : writes w1 b1 → writes w2 b2 → writes (w1 ;;; w2) (b1 ++ b2).
Proof.
  intros H1 H2 out room h Hr. rewrite length_app in *. unfold then_write, mbind, CM_bind. rewrite H1 by lia. cbn.
  rewrite H2 by lia. rewrite <- app_assoc. do 3 f_equal. f_equal. lia.
Qed.
Lemma writes_words zs : Z.of_nat (length zs) < 2 ^ 30 → writes (put_words zs) (cpu_to_le 4 zs).
Proof.
  intros Hl out room h Hr. unfold put_words. rewrite length_cpu_to_le in *.
  rewrite put_entry_mem by (rewrite ?length_cpu_to_le; lia). rewrite Z.eqb_refl. cbn [negb]. unfold mret, CM_ret, POLICYDB_SUCCESS.
  by replace (room - (4 * length zs)%nat) with (room - 4 * length zs) by lia.
Qed.
Lemma writes_name s : Z.of_nat (String.length s) < 2 ^ 32 → writes (put_name s) (String.list_byte_of_string s).
Proof.
  intros Hl out room h Hr. unfold put_name. rewrite length_name in *.
  rewrite put_entry_mem by (rewrite ?length_name; lia). rewrite Z.eqb_refl. cbn [negb]. unfold mret, CM_ret, POLICYDB_SUCCESS.
  by replace (room - 1 * String.length s) with (room - String.length s) by lia.
Qed.
Lemma writes_ebitmap (e : ebitmap) : ebitmap_wf e → writes (put_ebitmap e) (ebitmap_bytes e).
Proof. intros He out room h Hr. unfold put_ebitmap. by rewrite ebitmap_write_mem. Qed.
Lemma writes_each {A} (w : A → Writer) (f : A → list byte) (l : list A) :
  (∀ x, x ∈ l → writes (w x) (f x)) → writes (write_each w l) (l ≫= f).
Proof.
  intros Hw. induction l as [|x l IH]; [apply writes_done|]. cbn.
  apply writes_then; [apply Hw; by left|]. apply IH. intros y Hy. apply Hw. by right.
Qed.
End write_rules.

(** a round trip, run *)
Lemma round_trip_run `{Target} {A} w (r : Reader A) (P : A → Prop) :
  round_trip w r P → ∃ n : nat, ∀ room rest h, n ≤ room →
  wp (w (mem_output [] room)) (λ '(rc, out) h1, rc = 0 ∧ h1 = h ∧
    wp (r (mem_input (pf_out out ++ rest))) (λ '(x, fp) h', mem_step h h' (∃ y, x = inr y) ∧
      match x with inr y => P y ∧ fp = mem_input rest | inl rc => truth rc = true end) h) h.
Proof.
  intros (bs&Hw&Hr). exists (length bs). intros room rest h Hl. unfold wp at 1. rewrite Hw by done. by split_and!; [..|apply Hr].
Qed.
(** words of 32 bits that are read back *)
Definition word (z : Z) : Prop := 0 ≤ z < 2 ^ 32.
Lemma le_word zs (i : nat) z : zs !! i = Some z → word z → le_to_cpu 4 (cpu_to_le 4 zs) i = z.
Proof.
  intros Hi Hz. rewrite <- (app_nil_r (cpu_to_le 4 zs)). rewrite (le_to_cpu_to_le 4 zs [] i z) by done.
  apply Z.mod_small. done.
Qed.

Lemma reads_assoc {A B C} (m : Reader A) (f : A → Reader B) (g : B → Reader C) bs P :
  reads ((m ≫= f) ≫= g) bs P → reads (m ≫= λ x, f x ≫= g) bs P.
Proof.
  intros Hr rest h. specialize (Hr rest h). unfold mbind, Reader_bind, mbind, CM_bind, wp in *.
  by destruct (m _ h) as [[[[rc|x] fp] h1]|].
Qed.

(** ** Runs that are stuck *)

Lemma malloc_run h : mem_ok h → ∃ a h', mem_ok h' ∧ malloc h = Some (Some a, h').
Proof.
  intros Hm. unfold malloc, mem_ok in *. destruct (h_oracle h) as [|[] o]; [| |by inversion Hm];
    (do 2 eexists; split; [|done]; by inversion Hm || constructor).
Qed.
Lemma bind_run {A B} (m : CM A) (f : A → CM B) h x h' (r : option (B * heap)) :
  m h = Some (x, h') → f x h' = r → (m ≫= f) h = r.
Proof. intros Hx Hf. unfold mbind, CM_bind. by rewrite Hx. Qed.
Lemma bind_stuck {A B} (m : CM A) (f : A → CM B) h : m h = None → (m ≫= f) h = None.
Proof. intros Hx. unfold mbind, CM_bind. by rewrite Hx. Qed.
Lemma reader_bind_run {A B} (r : Reader A) (f : A → Reader B) fp h x fp' h' res :
  r fp h = Some ((inr x, fp'), h') → f x fp' h' = res → (r ≫= f) fp h = res.
Proof. intros Hr Hf. unfold mbind, Reader_bind, mbind, CM_bind. by rewrite Hr. Qed.
