(* ===== verification/ContextIO.v ===== *)
(** * Levels, ranges and contexts in policy files ([policydb.c], [write.c])

    Ranges whose levels are equal are written with one; the categories of
    semantic levels are read in the reverse order.  A context that is read is
    validated.  Modules of old versions hold levels, which
    [mls_level_to_semantic] turns into semantic ones. *)

From S2P Require Import Prelude PolicyFile Hashtab Ebitmap EbitmapIO Symtab Context Avtab Policydb Mls MlsText Constraint Services ContextText ExpandSets Readers.

Section io.
Context `{Target}.

(** ** Reading *)

Definition mls_read_level : Reader mls_level :=
  buf ← or_fail (- EINVAL) (get_entry 4);
  cat ← or_fail (- EINVAL) get_ebitmap;
  mret (MlsLevel (le_to_cpu 4 buf 0) cat).

(** with no item the words are those of the count *)
Definition mls_read_range_helper : Reader mls_range :=
  buf ← get_entry 4;
  let items := le_to_cpu 4 buf 0 in
  if 2 <? items then fail (- EINVAL) else
  buf' ← get_entry (szt (4 * items));
  let sens0 := le_to_cpu 4 (if items =? 0 then buf else buf') 0 in
  let sens1 := if 1 <? items then le_to_cpu 4 buf' 1 else sens0 in
  low ← get_ebitmap;
  high ← (if 1 <? items then get_ebitmap else lift (ebitmap_cpy low));
  mret (MlsRange (MlsLevel sens0 low) (MlsLevel sens1 high)).

Definition mls_read_semantic_level_helper : Reader mls_semantic_level :=
  buf ← or_fail (- EINVAL) (get_entry 8);
  cats ← times (le_to_cpu 4 buf 1) (λ cats,
           _ ← new (- EINVAL);
           buf ← or_fail (- EINVAL) (get_entry 8);
           mret (SemCat (le_to_cpu 4 buf 0) (le_to_cpu 4 buf 1) :: cats)) [];
  mret (SemLevel (le_to_cpu 4 buf 0) cats).
Definition mls_read_semantic_range_helper : Reader mls_semantic_range :=
  low ← mls_read_semantic_level_helper;
  high ← mls_read_semantic_level_helper;
  mret (SemRange low high).

(** the loop of [mls_level_to_semantic]: the finished intervals, the lower end
    of the one that is open *)
Definition to_semantic_step (bit : bool) (i : Z) (st : list mls_semantic_cat * option Z)
    : CM (unit + list mls_semantic_cat * option Z) :=
  let '(cats, open_cat) := st in
  if bit then
    match open_cat with
    | Some _ => mret (inr st)
    | None => n ← malloc; mret (match n with None => inl () | Some _ => inr (cats, Some (u32 (i + 1))) end)
    end
  else
    mret (inr (match open_cat with Some low => (SemCat low i :: cats, None) | None => st end)).
Definition mls_level_to_semantic (l : mls_level) : CM (Z * mls_semantic_level) :=
  r ← ebitmap_for_each_bit (cat l) to_semantic_step ([], None);
  mret (match r with
        | inl _ => (-1, SemLevel (sens l) [])
        | inr ((cats, Some low), i) => (0, SemLevel (sens l) (SemCat low i :: cats))
        | inr ((cats, None), _) => (0, SemLevel (sens l) cats)
        end).
Definition mls_range_to_semantic (r : mls_range) : CM (Z * mls_semantic_range) :=
  '(rc, low) ← mls_level_to_semantic (low_level r);
  if truth rc then mret (-1, SemRange low (SemLevel 0 [])) else
  '(rc, high) ← mls_level_to_semantic (high_level r);
  mret (if truth rc then -1 else 0, SemRange low high).

(** which formats have the ranges of contexts *)
Definition context_has_range (p : policydb) : bool :=
  ((policy_type p =? POLICY_KERN) && (POLICYDB_VERSION_MLS <=? policyvers p)) ||
  ((policy_type p =? POLICY_BASE) && (MOD_POLICYDB_VERSION_MLS <=? policyvers p)).
(** [range] is what the context that is read into has in other formats *)
Definition context_read_and_validate (p : policydb) (range : mls_range) : Reader context_struct :=
  buf ← or_fail (-1) (get_entry 12);
  range ← (if context_has_range p then or_fail (-1) mls_read_range_helper else mret range);
  let c := Context (le_to_cpu 4 buf 0) (le_to_cpu 4 buf 1) (le_to_cpu 4 buf 2) range in
  ok ← total (policydb_context_isvalid p c);
  if negb ok then fail (-1) else mret c.

(** ** Writing *)

Definition mls_write_level (l : mls_level) : Writer := put_words [sens l];;; put_ebitmap (cat l);;; done.
Definition mls_write_range_helper (r : mls_range) : Writer :=
  let eq := mls_level_eq (high_level r) (low_level r) in
  put_words (if eq then [1; sens (low_level r)] else [2; sens (low_level r); sens (high_level r)]);;;
  put_ebitmap (cat (low_level r));;;
  (if eq then done else put_ebitmap (cat (high_level r)));;;
  done.
Definition mls_write_semantic_level_helper (l : mls_semantic_level) : Writer :=
  put_words [sl_sens l; u32 (length (sl_cat l))];;;
  write_each (λ cat, put_words [sc_low cat; sc_high cat]) (sl_cat l).
Definition mls_write_semantic_range_helper (r : mls_semantic_range) : Writer :=
  mls_write_semantic_level_helper (sr_low r);;;
  mls_write_semantic_level_helper (sr_high r).
Definition context_write (p : policydb) (c : context_struct) : Writer :=
  put_words [c_user c; c_role c; c_type c];;;
  (if context_has_range p then mls_write_range_helper (c_range c) else done);;;
  done.
End io.

(** ** Theory *)

Section theory.
Context `{Target}.
Implicit Types (l : mls_level) (p : policydb) (c : context_struct).

Definition level_bytes l : list byte := cpu_to_le 4 [sens l] ++ ebitmap_bytes (cat l).
Definition range_bytes (r : mls_range) : list byte :=
  if mls_level_eq (high_level r) (low_level r)
  then cpu_to_le 4 [1; sens (low_level r)] ++ ebitmap_bytes (cat (low_level r))
  else cpu_to_le 4 [2; sens (low_level r); sens (high_level r)] ++
       ebitmap_bytes (cat (low_level r)) ++ ebitmap_bytes (cat (high_level r)).
Definition level_storable l : Prop := word (sens l) ∧ ebitmap_wf (cat l).
Definition range_storable (r : mls_range) : Prop := level_storable (low_level r) ∧ level_storable (high_level r).

Lemma szt_small_words n : 0 ≤ n < 2 ^ 20 → szt (4 * n) = 4 * n.
Proof. intros Hn. unfold szt. apply wrap_id. destruct size_t_bits_ok as [->| ->]; lia. Qed.

Lemma level_reads l : level_storable l → reads mls_read_level (level_bytes l) (λ l', l' = l).
Proof.
  intros [Hs Hc]. apply (reads_bind _ _ _ _ (λ buf, buf = cpu_to_le 4 [sens l])).
  { apply reads_or_fail; [done|]. by apply reads_entry. }
  intros buf ->. eapply reads_bind_last; [apply reads_or_fail; [done|by apply reads_ebitmap]|].
  intros e ->. apply reads_ret. rewrite (le_word _ 0 (sens l)) by done. by destruct l.
Qed.
Lemma level_writes l : level_storable l → writes (mls_write_level l) (level_bytes l).
Proof.
  intros [Hs Hc]. unfold mls_write_level, level_bytes. apply writes_then; [by apply writes_words|].
  rewrite <- (app_nil_r (ebitmap_bytes _)). apply writes_then; [by apply writes_ebitmap|apply writes_done].
Qed.

Lemma range_reads (r : mls_range) : range_storable r → reads mls_read_range_helper (range_bytes r) (λ r', r' = r).
Proof.
  intros [[Hs1 Hc1] [Hs2 Hc2]]. unfold range_bytes, mls_read_range_helper.
  destruct (mls_level_eq _ _) eqn:Eq.
  - apply mls_level_eq_true in Eq.
    change (cpu_to_le 4 [1; sens (low_level r)]) with (cpu_to_le 4 [1] ++ cpu_to_le 4 [sens (low_level r)]).
    rewrite <- app_assoc. eapply reads_bind; [by apply reads_entry|]. intros buf ->.
    change (le_to_cpu 4 (cpu_to_le 4 [1]) 0) with 1. cbn [Z.ltb Z.eqb Z.compare Pos.compare Pos.compare_cont].
    change (2 <? 1) with false. change (1 <? 1) with false. change (1 =? 0) with false. cbv zeta iota.
    eapply reads_bind; [by apply reads_entry; rewrite szt_small_words|]. intros buf ->.
    eapply reads_bind_last; [by apply reads_ebitmap|]. intros e ->.
    apply (reads_bind_nil _ _ _ (λ e, e = cat (low_level r))).
    { apply reads_lift. intros h. eapply wp_mono; [by apply ebitmap_cpy_wp|]. intros [rc e] h' [Hm He].
      split; [mem|]. intros ->. by destruct He as [[_ ->]|[? _]]. }
    intros e ->. apply reads_ret. rewrite (le_word _ 0 (sens (low_level r))) by done.
    destruct r as [[? ?] [? ?]]; cbn in *. by injection Eq as -> ->.
  - change (cpu_to_le 4 [2; sens (low_level r); sens (high_level r)]) with (cpu_to_le 4 [2] ++ cpu_to_le 4 [sens (low_level r); sens (high_level r)]).
    rewrite <- app_assoc. eapply reads_bind; [by apply reads_entry|]. intros buf ->.
    change (le_to_cpu 4 (cpu_to_le 4 [2]) 0) with 2.
    change (2 <? 2) with false. change (1 <? 2) with true. change (2 =? 0) with false. cbv zeta iota.
    eapply reads_bind; [by apply reads_entry; rewrite szt_small_words|]. intros buf ->.
    eapply reads_bind; [by apply reads_ebitmap|]. intros e ->.
    eapply reads_bind_last; [by apply reads_ebitmap|]. intros e ->. apply reads_ret.
    rewrite (le_word _ 0 (sens (low_level r))), (le_word _ 1 (sens (high_level r))) by done. by destruct r as [[? ?] [? ?]].
Qed.
Lemma range_writes (r : mls_range) : range_storable r → writes (mls_write_range_helper r) (range_bytes r).
Proof.
  intros [[Hs1 Hc1] [Hs2 Hc2]]. unfold mls_write_range_helper, range_bytes. destruct (mls_level_eq _ _).
  - apply writes_then; [by apply writes_words|]. rewrite <- (app_nil_r (ebitmap_bytes _)).
    apply writes_then; [by apply writes_ebitmap|]. apply (writes_then _ _ [] []); apply writes_done.
  - apply writes_then; [by apply writes_words|]. apply writes_then; [by apply writes_ebitmap|].
    rewrite <- (app_nil_r (ebitmap_bytes (cat (high_level r)))). apply writes_then; [by apply writes_ebitmap|apply writes_done].
Qed.

(** *** Semantic levels *)

Definition cat_bytes (k : mls_semantic_cat) : list byte := cpu_to_le 4 [sc_low k; sc_high k].
Definition semantic_level_bytes (sl : mls_semantic_level) : list byte :=
  cpu_to_le 4 [sl_sens sl; Z.of_nat (length (sl_cat sl))] ++ (sl_cat sl ≫= cat_bytes).
Definition semantic_level_storable (sl : mls_semantic_level) : Prop :=
  word (sl_sens sl) ∧ word (length (sl_cat sl)) ∧ Forall (λ k, word (sc_low k) ∧ word (sc_high k)) (sl_cat sl).
Definition reversed (sl : mls_semantic_level) : mls_semantic_level := SemLevel (sl_sens sl) (rev (sl_cat sl)).

Lemma semantic_level_reads (sl : mls_semantic_level) : semantic_level_storable sl →
  reads mls_read_semantic_level_helper (semantic_level_bytes sl) (λ sl', sl' = reversed sl).
Proof.
  intros (Hs&Hl&Hc). eapply reads_bind; [apply reads_or_fail; [done|by apply reads_entry]|]. intros buf ->.
  rewrite (le_word _ 0 (sl_sens sl)), (le_word _ 1 (length (sl_cat sl))) by done.
  eapply reads_bind_last.
  { apply (reads_times _ _ _ _ (λ done cats, cats = rev done)); [done|done|]. intros k l1 l2 cats Hcl ->.
    eapply reads_bind_nil; [by apply reads_new|]. intros _ _.
    eapply reads_bind_last; [apply reads_or_fail; [done|by apply reads_entry]|]. intros buf ->. apply reads_ret.
    rewrite Forall_forall in Hc. destruct (Hc k) as [Hlo Hhi]; [rewrite Hcl; apply elem_of_app; right; by left|].
    unfold cat_bytes. rewrite (le_word _ 0 (sc_low k)), (le_word _ 1 (sc_high k)) by done. rewrite rev_app_distr. by destruct k. }
  intros cats ->. by apply reads_ret.
Qed.
Lemma semantic_level_writes (sl : mls_semantic_level) : semantic_level_storable sl → writes (mls_write_semantic_level_helper sl) (semantic_level_bytes sl).
Proof.
  intros (Hs&Hl&Hc). unfold mls_write_semantic_level_helper, semantic_level_bytes.
  unfold u32. rewrite wrap_id by done. apply writes_then; [by apply writes_words|]. apply writes_each. intros k _. by apply writes_words.
Qed.

(** *** Contexts *)

Definition context_storable p c : Prop :=
  word (c_user c) ∧ word (c_role c) ∧ word (c_type c) ∧ (context_has_range p = true → range_storable (c_range c)).
Definition context_bytes p c : list byte :=
  cpu_to_le 4 [c_user c; c_role c; c_type c] ++ (if context_has_range p then range_bytes (c_range c) else []).
(** what is read: the range is that of the format *)
Definition context_read p (range : mls_range) c : context_struct :=
  if context_has_range p then c else Context (c_user c) (c_role c) (c_type c) range.

Lemma context_reads p range c :
  context_storable p c → (∀ h, policydb_context_isvalid p (context_read p range c) h = Some (true, h)) →
  reads (context_read_and_validate p range) (context_bytes p c) (λ c', c' = context_read p range c).
Proof.
  intros (Hu&Hro&Ht&Hr) Hv. unfold context_read_and_validate, context_bytes.
  eapply reads_bind; [apply reads_or_fail; [done|by apply reads_entry]|]. intros buf ->.
  rewrite (le_word _ 0 (c_user c)), (le_word _ 1 (c_role c)), (le_word _ 2 (c_type c)) by done.
  apply (reads_bind_last _ _ _ (λ r, r = c_range (context_read p range c))).
  { unfold context_read. destruct (context_has_range p); [|by apply reads_ret].
    apply reads_or_fail; [done|]. by apply range_reads, Hr. }
  intros r ->. replace (Context _ _ _ _) with (context_read p range c); cycle 1.
  { unfold context_read. destruct (context_has_range p); [by destruct c|done]. }
  apply (reads_bind_nil _ _ _ (λ b, b = true)).
  { apply reads_total. intros h. unfold wp. rewrite Hv. split; [by apply mem_step_refl|done]. }
  intros ok ->. by apply reads_ret.
Qed.
Lemma context_writes p c : context_storable p c → writes (context_write p c) (context_bytes p c).
Proof.
  intros (Hu&Hro&Ht&Hr). unfold context_write, context_bytes. apply writes_then; [by apply writes_words|].
  rewrite <- (app_nil_r (if context_has_range p then _ else _)). apply writes_then; [|apply writes_done].
  destruct (context_has_range p); [by apply range_writes, Hr|apply writes_done].
Qed.

(** a valid context passes the test of the reader *)
Lemma context_valid_runs p t ct tl c :
  label_wf p t ct tl → context_has_range p = true → context_storable p c → context_valid p tl c →
  ∀ h, policydb_context_isvalid p c h = Some (true, h).
Proof.
  intros Hlw Hr Hc Hv h. destruct Hc as (Hu&Hro&_&[[Hs1 Hc1] [Hs2 Hc2]]%(λ f, f Hr)).
  assert (Hok : range_ok (c_range c)) by (split; [done|]; by destruct Hs1, Hs2).
  destruct (wp_run _ _ _ (context_is_valid_wp p t ct tl Hlw c h (proj1 Hu) (proj1 Hro) Hok)) as (b&h'&Hrun&->&Hb).
  unfold policydb_context_isvalid. rewrite Hrun. by rewrite (proj2 Hb Hv).
Qed.

(** *** From levels to semantic levels *)

(** the positions of the finished intervals, all below [i], and of the open one *)
Record intervals (e : ebitmap) (i : Z) (st : list mls_semantic_cat * option Z) : Prop := {
  in_bounds : Forall (λ k, 1 ≤ sc_low k ≤ sc_high k ∧ sc_high k ≤ i) st.1;
  in_open low : st.2 = Some low → 1 ≤ low ≤ i ∧ nodes_bit (node e) (i - 1) = true;
  in_bits j : j < i → nodes_bit (node e) j = true ↔
    (∃ k, k ∈ st.1 ∧ sc_low k - 1 ≤ j < sc_high k) ∨ ∃ low, st.2 = Some low ∧ low - 1 ≤ j
}.
Lemma intervals_step e i st h :
  0 ≤ i < 2 ^ 32 - 64 → intervals e i st →
  wp (to_semantic_step (nodes_bit (node e) i) i st) (λ r h', mem_step h h' (∃ st', r = inr st') ∧
    match r with inl _ => True | inr st' => intervals e (i + 1) st' end) h.
Proof.
  intros Hi [Hb Ho Hbits]. destruct st as [cats open]. unfold to_semantic_step. cbn [fst snd] in *.
  assert (Hb' : Forall (λ k, 1 ≤ sc_low k ≤ sc_high k ∧ sc_high k ≤ i + 1) cats) by (eapply Forall_impl; [done|]; cbn; lia).
  assert (Hold : nodes_bit (node e) i = true → ¬ ∃ k, k ∈ cats ∧ sc_low k - 1 ≤ i < sc_high k).
  { intros _ (k&Hk&Hr). rewrite Forall_forall in Hb. specialize (Hb k Hk). lia. }
  destruct (nodes_bit (node e) i) eqn:Ei; [destruct open as [low|]|].
  - apply wp_ret. split; [apply mem_step_refl; by eexists|]. destruct (Ho low eq_refl) as [Hlow _]. split; cbn [fst snd]; [done| |].
    + intros low' [= <-]. replace (i + 1 - 1) with i by lia. split; [lia|done].
    + intros j Hj. destruct (decide (j = i)) as [->|]; [|by apply Hbits; lia]. rewrite Ei. split; [|done]. intros _. right. exists low. split; [done|lia].
  - wp_malloc a h' Hm; apply wp_ret; cycle 1.
    { split; [by eapply mem_step_mono, Hm|done]. }
    split; [eapply mem_step_mono, Hm; intros _; by eexists|]. unfold u32. rewrite wrap_id by lia. split; cbn [fst snd]; [done| |].
    + intros low [= <-]. replace (i + 1 - 1) with i by lia. split; [lia|done].
    + intros j Hj. destruct (decide (j = i)) as [->|].
      * rewrite Ei. split; [|done]. intros _. right. exists (i + 1). split; [done|lia].
      * rewrite Hbits by lia. split; [intros [?|(low&[=]&_)]; by left|]. intros [?|(low&[= <-]&?)]; [by left|lia].
  - apply wp_ret. split; [apply mem_step_refl; by eexists|]. destruct open as [low|].
    + destruct (Ho low eq_refl) as [Hlow _]. split; cbn [fst snd]; [apply Forall_cons; split; [cbn; lia|done]|done|].
      intros j Hj. setoid_rewrite elem_of_cons. destruct (decide (j = i)) as [->|].
      * rewrite Ei. split; [done|]. intros [(k&[->|Hk]&Hr)|(?&[=]&_)]; [cbn in Hr; lia|].
        rewrite Forall_forall in Hb. specialize (Hb k Hk). lia.
      * rewrite Hbits by lia. split.
        -- intros [(k&Hk&Hr)|(low'&[= <-]&Hr)]; left; [exists k; split; [by right|done]|].
           exists (SemCat low i). split; [by left|]. cbn. lia.
        -- intros [(k&[->|Hk]&Hr)|(?&[=]&_)]; [right; exists low; cbn in Hr; split; [done|lia]|left; by exists k].
    + split; cbn [fst snd]; [done|done|]. intros j Hj. destruct (decide (j = i)) as [->|]; [|by apply Hbits; lia].
      rewrite Ei. split; [done|]. intros [(k&Hk&Hr)|(?&[=]&_)]. rewrite Forall_forall in Hb. specialize (Hb k Hk). lia.
Qed.
Lemma intervals_gap e m m' st :
  ebitmap_wf e → no_bridge e → gap (node e) m m' → intervals e (startbit m + 64) st → intervals e (startbit m') st.
Proof.
  intros He Hnb Hg [Hb Ho Hbits]. pose proof Hg as [_ Hlt]. pose proof (Hnb _ _ Hg) as Hlast.
  assert (Hnone : st.2 = None).
  { destruct st.2 as [low|]; [|done]. destruct (Ho low eq_refl) as [_ Hl]. replace (startbit m + 64 - 1) with (startbit m + 63) in Hl by lia. congruence. }
  split; [eapply Forall_impl; [done|]; cbn; lia|by rewrite Hnone|].
  intros j Hj. destruct (decide (j < startbit m + 64)); [by apply Hbits|].
  rewrite (gap_clear e m m') by (done || lia). split; [done|]. rewrite Hnone. intros [(k&Hk&Hr)|(?&[=]&_)].
  rewrite Forall_forall in Hb. specialize (Hb k Hk). lia.
Qed.
(** what the intervals stand for *)
Lemma elem_of_categories (ks : list mls_semantic_cat) j : j ∈ categories ks ↔ ∃ k, k ∈ ks ∧ sc_low k - 1 ≤ j < sc_high k.
Proof.
  unfold categories. rewrite elem_of_union_list. split.
  - intros (X&(k&->&Hk)%list_elem_of_fmap&Hj). apply elem_of_list_to_set, elem_of_seqZ in Hj. exists k. split; [done|lia].
  - intros (k&Hk&Hr). eexists. split; [apply list_elem_of_fmap; by exists k|]. apply elem_of_list_to_set, elem_of_seqZ. lia.
Qed.
Lemma mls_level_to_semantic_wp l h :
  ebitmap_wf (cat l) → no_bridge (cat l) →
  wp (mls_level_to_semantic l) (λ '(rc, sl) h', mem_step h h' (rc = 0) ∧ (rc = 0 ∨ rc = -1) ∧
    (rc = 0 → sl_sens sl = sens l ∧ categories (sl_cat sl) = ebitmap_set (cat l) ∧
      Forall (λ k, 1 ≤ sc_low k ≤ sc_high k) (sl_cat sl))) h.
Proof.
  intros He Hnb. unfold mls_level_to_semantic. apply wp_bind.
  pose proof (ebitmap_highbit_range _ He) as Hhb. pose proof (ebitmap_startbit_range _ He) as Hsb.
  apply (wp_ebitmap_for_each_bit (λ i st h', mem_step h h' True ∧ intervals (cat l) i st)); [done| | | |].
  - split; [by apply mem_step_refl|]. split; cbn [fst snd]; [constructor|done|]. intros j Hj. split.
    + intros Hbit. assert (ebitmap_startbit (cat l) ≤ j); [|lia]. unfold ebitmap_startbit. destruct He as [Hw _].
      destruct (node (cat l)) as [|n ns] eqn:En; [done|]. pose proof Hw as (?&?&?&Hr).
      destruct (Z.le_gt_cases (startbit n) j); [done|]. rewrite (nodes_bit_below_head 0 n ns j) in Hbit by (done || lia). done.
    + intros [(k&[]%elem_of_nil&_)|(low&[=]&_)].
  - intros i st h1 Hi [Hm Hin]. eapply wp_mono; [apply intervals_step; [lia|done]|]. intros [u|st'] h2 [Hm2 H2].
    + apply wp_ret. split_and!; [|by right|done]. assert (mem_step h1 h2 False) by (eapply mem_step_mono, Hm2; by intros [? ?]). mem.
    + split; [mem|done].
  - intros m m' st h1 Hg [Hm Hin]. split; [done|by eapply intervals_gap].
  - intros [cats open] h1 [Hm [Hb Ho Hbits]]. cbn [fst snd] in *. apply wp_ret.
    assert (Hset : ∀ j, j ∈ ebitmap_set (cat l) ↔ (∃ k, k ∈ cats ∧ sc_low k - 1 ≤ j < sc_high k) ∨ ∃ low, open = Some low ∧ low - 1 ≤ j < highbit (cat l)).
    { intros j. rewrite elem_of_ebitmap_set by done. destruct (decide (j < highbit (cat l))).
      - rewrite Hbits by done. naive_solver lia.
      - split; [intros Hj%nodes_bit_range; [lia|done]|]. intros [(k&Hk&Hr)|(low&_&?)]; [|lia].
        rewrite Forall_forall in Hb. specialize (Hb k Hk). lia. }
    destruct open as [low|]; (split_and!; [eapply mem_step_mono, Hm; done|by left|]); intros _; cbn [sl_sens sl_cat].
    + split_and!; [done| |].
      * apply set_eq. intros j. rewrite elem_of_categories, Hset. setoid_rewrite elem_of_cons. split.
        -- intros (k&[->|Hk]&Hr); [right; exists low; cbn in Hr; split; [done|lia]|left; by exists k].
        -- intros [(k&Hk&Hr)|(low'&[= <-]&Hr)]; [exists k; split; [by right|done]|exists (SemCat low (highbit (cat l))); split; [by left|cbn; lia]].
      * apply Forall_cons. split; [cbn; destruct (Ho low eq_refl); lia|]. eapply Forall_impl; [done|]. cbn. lia.
    + split_and!; [done| |eapply Forall_impl; [done|]; cbn; lia].
      apply set_eq. intros j. rewrite elem_of_categories, Hset. split; [by left|]. by intros [?|(?&[=]&_)].
Qed.
End theory.

(** ** Properties *)

(** round trip.  In the formats that have ranges, a valid context that
    [context_write] writes to memory is read back and accepted by
    [context_read_and_validate], with the same range also when its two levels
    are equal and written as one; reading fails only for want of memory. *)
Theorem context_roundtrip `{Target} p t ct tl range c :
  label_wf p t ct tl → context_has_range p = true → context_storable p c → context_valid p tl c →
  round_trip (context_write p c) (context_read_and_validate p range) (λ c', c' = c).
Proof.
  intros Hlw Hr Hc Hv. exists (context_bytes p c). split; [by apply context_writes|].
  assert (Hread : context_read p range c = c) by (unfold context_read; by rewrite Hr).
  eapply reads_mono; [apply context_reads; [done|]|by intros x ->]. rewrite Hread. by eapply context_valid_runs.
Qed.

(** round trip of semantic ranges, but for the order of the intervals, which
    are read in front of each other. *)
Theorem semantic_range_roundtrip `{Target} sr :
  semantic_level_storable (sr_low sr) → semantic_level_storable (sr_high sr) →
  round_trip (mls_write_semantic_range_helper sr) mls_read_semantic_range_helper (λ sr',
    sr' = SemRange (reversed (sr_low sr)) (reversed (sr_high sr)) ∧
    categories (sl_cat (sr_low sr')) = categories (sl_cat (sr_low sr)) ∧
    categories (sl_cat (sr_high sr')) = categories (sl_cat (sr_high sr))).
Proof.
  intros Hl Hh. exists (semantic_level_bytes (sr_low sr) ++ semantic_level_bytes (sr_high sr)). split.
  - by apply writes_then; apply semantic_level_writes.
  - eapply reads_bind; [by apply semantic_level_reads|]. intros low ->.
    eapply reads_bind_last; [by apply semantic_level_reads|]. intros high ->. apply reads_ret. split; [done|].
    assert (Hrev : ∀ l, categories (rev l) = categories l).
    { intros l. apply set_eq. intros j. rewrite !elem_of_categories.
      split; intros (k&Hk&Hr); exists k; (split; [|done]); apply list_elem_of_In in Hk; apply list_elem_of_In; rewrite <- ?in_rev in *; done. }
    split; apply Hrev.
Qed.

(** with memory, [mls_level_to_semantic] makes a level with the same
    sensitivity, whose intervals are ordered and have the categories of the
    bitmap, if no run of categories reaches the end of a word before a gap. *)
Theorem mls_level_to_semantic_correct `{Target} l h :
  ebitmap_wf (cat l) → no_bridge (cat l) →
  wp (mls_level_to_semantic l) (λ '(rc, sl) _, (mem_ok h → rc = 0) ∧ (rc = 0 ∨ rc = -1) ∧
    (rc = 0 → sl_sens sl = sens l ∧ categories (sl_cat sl) = ebitmap_set (cat l) ∧
      Forall (λ k, 1 ≤ sc_low k ≤ sc_high k) (sl_cat sl))) h.
Proof.
  intros. eapply wp_mono; [by apply mls_level_to_semantic_wp|]. intros [rc sl] h' (Hm&?&?). split_and!; [|done|done].
  intros Ho. by destruct (Hm Ho).
Qed.

(** when a run does reach the end of a word before a gap, the next category
    closes it: a level with the categories 63 and 128 becomes one with all from
    63 to 128. *)
Theorem mls_level_to_semantic_bridges :
  let e := Ebitmap [Node 0 (2 ^ 63); Node 128 1] 192 in
  ebitmap_wf e ∧ ebitmap_set e = {[ 63; 128 ]} ∧
  wp (@mls_level_to_semantic target_arm (MlsLevel 1 e)) (λ '(rc, sl) _, rc = 0 ∧ sl = SemLevel 1 [SemCat 64 129]) fresh_heap ∧
  categories [SemCat 64 129] = list_to_set (seqZ 63 66).
Proof.
  split_and!; [|by vm_compute|by vm_compute|by vm_compute].
  split; [cbn; split_and!; try lia; [by exists 0|by exists 2]|done].
Qed.

(** a policy file can crash the reader: the high bit of a bitmap is not
    compared with its words, and the validation of a context that has such
    categories follows a null pointer. *)
Theorem context_read_crashes :
  let bs := cpu_to_le 4 [1; 1; 2; 1; 1] ++ cpu_to_le 4 [MAPSIZE; 64; 0] in
  @context_read_and_validate target_arm ExampleSec.policy mls_range_init (mem_input bs) fresh_heap = None.
Proof. vm_compute. reflexivity. Qed.

(** witness of [context_roundtrip] *)
Lemma context_roundtrip_witness :
  round_trip (@context_write target_arm ExampleCtx.policy ExampleCtx.con)
    (@context_read_and_validate target_arm ExampleCtx.policy mls_range_init) (λ c', c' = ExampleCtx.con).
Proof.
  apply (@context_roundtrip target_arm ExampleCtx.policy Example.slots Example.slots ExampleMls.levels).
  - apply ExampleCtx.ctx_labels.
  - done.
  - do 3 (split; [done|]). intros _. by repeat split.
  - apply ExampleCtx.con_valid.
Defined.

(** witness of [semantic_range_roundtrip] *)
Lemma semantic_range_roundtrip_witness :
  let sr := SemRange (SemLevel 1 []) (SemLevel 2 [SemCat 1 2; SemCat 5 5]) in
  round_trip (@mls_write_semantic_range_helper target_arm sr) mls_read_semantic_range_helper (λ sr',
    sr' = SemRange (SemLevel 1 []) (SemLevel 2 [SemCat 5 5; SemCat 1 2]) ∧
    categories (sl_cat (sr_low sr')) = categories [] ∧
    categories (sl_cat (sr_high sr')) = categories [SemCat 1 2; SemCat 5 5]).
Proof.
  intros sr. apply (@semantic_range_roundtrip target_arm sr); (split_and!; [done|done|]); by repeat constructor.
Defined.

(** witness of [mls_level_to_semantic_correct] *)
Lemma mls_level_to_semantic_correct_witness :
  let l := MlsLevel 2 (Ebitmap [Node 0 14] 64) in
  wp (@mls_level_to_semantic target_arm l) (λ '(rc, sl) _, (mem_ok fresh_heap → rc = 0) ∧ (rc = 0 ∨ rc = -1) ∧
    (rc = 0 → sl_sens sl = 2 ∧ categories (sl_cat sl) = ebitmap_set (cat l) ∧
      Forall (λ k, 1 ≤ sc_low k ≤ sc_high k) (sl_cat sl))) fresh_heap.
Proof.
  intros l. apply (@mls_level_to_semantic_correct target_arm l).
  - split; [cbn; split_and!; try lia; by exists 0|done].
  - intros m m' [(l1&l2&Hl) _]. destruct l1 as [|? [|? ?]]; discriminate.
Defined.
