(* ===== verification/RulesIO.v ===== *)
(** * Sets, role rules, named transitions and constraints in policy files
    ([policydb.c], [write.c])

    The readers build lists in the order of the file.  Constraints are checked
    while they are read: the depth of the stack that evaluation will need is
    followed, so that what is accepted is an expression in reverse polish
    notation that fits the stack of [constraint_expr_eval_reason]. *)

From S2P Require Import Prelude PolicyFile Ebitmap EbitmapIO Policydb Mls Constraint Readers.

Section io.
Context `{Target}.

(** ** Reading *)

Definition role_set_read : Reader role_set :=
  roles ← or_fail (-1) get_ebitmap;
  buf ← or_fail (-1) (get_entry 4);
  mret (RoleSet roles (le_to_cpu 4 buf 0)).
Definition type_set_read : Reader type_set :=
  types ← or_fail (-1) get_ebitmap;
  negset ← or_fail (-1) get_ebitmap;
  buf ← or_fail (-1) (get_entry 4);
  mret (TypeSet types negset (le_to_cpu 4 buf 0)).

(** the format with a class for every role transition *)
Definition new_roletr (p : policydb) : bool :=
  (policy_type p =? POLICY_KERN) && (POLICYDB_VERSION_ROLETRANS <=? policyvers p).
Definition role_trans_read (p : policydb) : Reader (list role_trans) :=
  buf ← or_fail (-1) (get_entry 4);
  times (le_to_cpu 4 buf 0) (λ l,
    _ ← new (-1);
    buf ← or_fail (-1) (get_entry 12);
    tclass ← (if new_roletr p then buf ← or_fail (-1) (get_entry 4); mret (le_to_cpu 4 buf 0)
              else mret SECCLASS_PROCESS);
    mret (l ++ [RoleTrans (le_to_cpu 4 buf 0) (le_to_cpu 4 buf 1) tclass (le_to_cpu 4 buf 2)])) [].
Definition role_allow_read : Reader (list role_allow) :=
  buf ← or_fail (-1) (get_entry 4);
  times (le_to_cpu 4 buf 0) (λ l,
    _ ← new (-1);
    buf ← or_fail (-1) (get_entry 8);
    mret (l ++ [RoleAllow (le_to_cpu 4 buf 0) (le_to_cpu 4 buf 1)])) [].
(** [len] is a 32-bit number here, and so is [len + 1] *)
Definition filename_trans_read : Reader (list filename_trans) :=
  buf ← or_fail (-1) (get_entry 4);
  times (le_to_cpu 4 buf 0) (λ l,
    _ ← new (-1);
    buf ← or_fail (-1) (get_entry 4);
    let len := le_to_cpu 4 buf 0 in
    name ← get_name (u32 (len + 1)) len;
    buf ← or_fail (-1) (get_entry 16);
    mret (l ++ [FilenameTrans (le_to_cpu 4 buf 0) (le_to_cpu 4 buf 1) (le_to_cpu 4 buf 2) name (le_to_cpu 4 buf 3)])) [].

(** [depth] after an expression, [None] where the reader returns *)
Definition expr_depth (allowxtarget : bool) (e : constraint_expr) (depth : Z) : option Z :=
  let push := if depth =? CEXPR_MAXDEPTH - 1 then None else Some (depth + 1) in
  if ce_expr_type e =? CEXPR_NOT then (if depth <? 0 then None else Some depth)
  else if (ce_expr_type e =? CEXPR_AND) || (ce_expr_type e =? CEXPR_OR) then (if depth <? 1 then None else Some (depth - 1))
  else if ce_expr_type e =? CEXPR_ATTR then push
  else if ce_expr_type e =? CEXPR_NAMES then
    (if negb allowxtarget && truth (Z.land (ce_attr e) CEXPR_XTARGET) then None else push)
  else None.
(** which formats have the names of types as written *)
Definition has_type_names (p : policydb) : bool :=
  negb (policy_type p =? POLICY_KERN) || (POLICYDB_VERSION_CONSTRAINT_NAMES <=? policyvers p).
Definition no_types : type_set := TypeSet ebitmap_init ebitmap_init 0.
(** the element, and the names that [constraint_expr_init] allocates *)
Definition read_expr (p : policydb) (allowxtarget : bool) (st : list constraint_expr * Z) : Reader (list constraint_expr * Z) :=
  let '(l, depth) := st in
  _ ← new (-1);
  _ ← new (-1);
  buf ← or_fail (-1) (get_entry 12);
  let e := CExpr (le_to_cpu 4 buf 0) (le_to_cpu 4 buf 1) (le_to_cpu 4 buf 2) ebitmap_init (Some no_types) in
  match expr_depth allowxtarget e depth with
  | None => fail (-1)
  | Some depth =>
      if ce_expr_type e =? CEXPR_NAMES then
        names ← or_fail (-1) get_ebitmap;
        type_names ← (if has_type_names p then or_fail (-1) type_set_read else mret no_types);
        mret (l ++ [CExpr (ce_expr_type e) (ce_attr e) (ce_op e) names (Some type_names)], depth)
      else mret (l ++ [e], depth)
  end.
Definition read_cons_helper (p : policydb) (ncons : Z) (allowxtarget : bool) : Reader (list constraint_node) :=
  times ncons (λ nodes,
    _ ← new (-1);
    buf ← or_fail (-1) (get_entry 8);
    '(l, depth) ← times (le_to_cpu 4 buf 1) (read_expr p allowxtarget) ([], -1);
    if negb (depth =? 0) then fail (-1) else mret (nodes ++ [CNode (le_to_cpu 4 buf 0) l])) [].

(** ** Writing *)

Definition role_set_write (x : role_set) : Writer := put_ebitmap (rs_roles x);;; put_words [rs_flags x].
Definition type_set_write (x : type_set) : Writer :=
  put_ebitmap (ts_types x);;; put_ebitmap (ts_negset x);;; put_words [ts_flags x].
Definition role_trans_write (p : policydb) (r : list role_trans) : Writer :=
  let written := filter (λ tr, new_roletr p || (rt_tclass tr =? SECCLASS_PROCESS) = true) r in
  put_words [Z.of_nat (length written)];;;
  write_each (λ tr,
    if negb (new_roletr p) && negb (rt_tclass tr =? SECCLASS_PROCESS) then done else
    put_words [rt_role tr; rt_type tr; rt_new_role tr];;;
    if new_roletr p then put_words [rt_tclass tr] else done) r.
Definition role_allow_write (r : list role_allow) : Writer :=
  put_words [Z.of_nat (length r)];;;
  write_each (λ ra, put_words [ra_role ra; ra_new_role ra]) r.
Definition filename_trans_write (r : list filename_trans) : Writer :=
  put_words [Z.of_nat (length r)];;;
  write_each (λ ft,
    put_words [Z.of_nat (String.length (ft_name ft))];;;
    put_name (ft_name ft);;;
    put_words [ft_stype ft; ft_ttype ft; ft_tclass ft; ft_otype ft]) r.

(** a write through the null pointer of an expression without names *)
Definition put_type_names (s : option type_set) : Writer :=
  match s with Some s => type_set_write s | None => λ _, undefined end.
Definition write_expr (p : policydb) (allowxtarget : bool) (e : constraint_expr) : Writer :=
  put_words [ce_expr_type e; ce_attr e; ce_op e];;;
  if ce_expr_type e =? CEXPR_NAMES then
    if negb allowxtarget && truth (Z.land (ce_attr e) CEXPR_XTARGET) then refuse else
    put_ebitmap (ce_names e);;;
    (if has_type_names p then put_type_names (ce_type_names e) else done);;;
    done
  else done.
Definition write_cons_helper (p : policydb) (node : list constraint_node) (allowxtarget : bool) : Writer :=
  write_each (λ c,
    put_words [cn_permissions c; u32 (length (cn_expr c))];;;
    write_each (write_expr p allowxtarget) (cn_expr c)) node.
End io.

(** ** Theory: sets and rules *)

Section theory.
Context `{Target}.
Implicit Types (p : policydb) (e : constraint_expr).

Definition role_set_bytes (x : role_set) : list byte := ebitmap_bytes (rs_roles x) ++ cpu_to_le 4 [rs_flags x].
Definition type_set_bytes (x : type_set) : list byte :=
  ebitmap_bytes (ts_types x) ++ ebitmap_bytes (ts_negset x) ++ cpu_to_le 4 [ts_flags x].
Definition role_set_storable (x : role_set) : Prop := ebitmap_wf (rs_roles x) ∧ word (rs_flags x).
Definition type_set_storable (x : type_set) : Prop := ebitmap_wf (ts_types x) ∧ ebitmap_wf (ts_negset x) ∧ word (ts_flags x).

Lemma reads_words n zs : n = 4 * Z.of_nat (length zs) → reads (or_fail (-1) (get_entry n)) (cpu_to_le 4 zs) (λ buf, buf = cpu_to_le 4 zs).
Proof. intros ->. apply reads_or_fail; [done|]. apply reads_entry. rewrite length_cpu_to_le. lia. Qed.

Lemma role_set_reads x : role_set_storable x → reads role_set_read (role_set_bytes x) (λ x', x' = x).
Proof.
  intros [Hr Hf]. eapply reads_bind; [apply reads_or_fail; [done|by apply reads_ebitmap]|]. intros e ->.
  eapply reads_bind_last; [by apply reads_words|]. intros buf ->. apply reads_ret. rewrite (le_word _ 0 (rs_flags x)) by done. by destruct x.
Qed.
Lemma role_set_writes x : role_set_storable x → writes (role_set_write x) (role_set_bytes x).
Proof. intros [Hr Hf]. apply writes_then; [by apply writes_ebitmap|by apply writes_words]. Qed.
Lemma type_set_reads x : type_set_storable x → reads type_set_read (type_set_bytes x) (λ x', x' = x).
Proof.
  intros (Ht&Hn&Hf). eapply reads_bind; [apply reads_or_fail; [done|by apply reads_ebitmap]|]. intros e ->.
  eapply reads_bind; [apply reads_or_fail; [done|by apply reads_ebitmap]|]. intros e ->.
  eapply reads_bind_last; [by apply reads_words|]. intros buf ->. apply reads_ret. rewrite (le_word _ 0 (ts_flags x)) by done. by destruct x.
Qed.
Lemma type_set_writes x : type_set_storable x → writes (type_set_write x) (type_set_bytes x).
Proof.
  intros (Ht&Hn&Hf). apply writes_then; [by apply writes_ebitmap|]. apply writes_then; [by apply writes_ebitmap|by apply writes_words].
Qed.

(** a list after its length *)
Definition list_bytes {A} (f : A → list byte) (l : list A) : list byte := cpu_to_le 4 [Z.of_nat (length l)] ++ (l ≫= f).
Lemma list_reads {A} (body : list A → Reader (list A)) (f : A → list byte) (l : list A) :
  word (length l) → (∀ x l1, x ∈ l → reads (body l1) (f x) (λ l', l' = l1 ++ [x])) →
  reads (buf ← or_fail (-1) (get_entry 4); times (le_to_cpu 4 buf 0) body []) (list_bytes f l) (λ l', l' = l).
Proof.
  intros Hl Hb. eapply reads_bind; [by apply reads_words|]. intros buf ->. rewrite (le_word _ 0 (length l)) by done.
  apply (reads_times _ _ _ _ (λ done l', l' = done)); [done|done|]. intros x l1 l2 l' Hx ->.
  apply Hb. rewrite Hx. apply elem_of_app. right. by left.
Qed.
Lemma list_writes {A} (w : A → Writer) (f : A → list byte) (l : list A) :
  (∀ x, x ∈ l → writes (w x) (f x)) → writes (put_words [Z.of_nat (length l)];;; write_each w l) (list_bytes f l).
Proof. intros Hw. apply writes_then; [by apply writes_words|by apply writes_each]. Qed.

Definition role_allow_storable (l : list role_allow) : Prop :=
  word (length l) ∧ Forall (λ r, word (ra_role r) ∧ word (ra_new_role r)) l.
Lemma role_allow_round_trip l : role_allow_storable l → round_trip (role_allow_write l) role_allow_read (λ l', l' = l).
Proof.
  intros [Hl Hw]. rewrite Forall_forall in Hw. exists (list_bytes (λ r, cpu_to_le 4 [ra_role r; ra_new_role r]) l). split.
  - apply list_writes. intros r _. by apply writes_words.
  - apply list_reads; [done|]. intros r l1 Hr. destruct (Hw r Hr) as [H1 H2]. eapply reads_bind_nil; [by apply reads_new|]. intros _ _.
    eapply reads_bind_last; [by apply reads_words|]. intros buf ->. apply reads_ret.
    rewrite (le_word _ 0 (ra_role r)), (le_word _ 1 (ra_new_role r)) by done. by destruct r.
Qed.

(** the rules that a format can hold *)
Definition role_trans_written p (l : list role_trans) : list role_trans :=
  filter (λ tr, new_roletr p || (rt_tclass tr =? SECCLASS_PROCESS) = true) l.
Definition role_trans_storable (l : list role_trans) : Prop :=
  word (length l) ∧ Forall (λ r, word (rt_role r) ∧ word (rt_type r) ∧ word (rt_new_role r) ∧ word (rt_tclass r)) l.
Definition role_trans_bytes p (r : role_trans) : list byte :=
  cpu_to_le 4 [rt_role r; rt_type r; rt_new_role r] ++ (if new_roletr p then cpu_to_le 4 [rt_tclass r] else []).
Lemma writes_filter {A} (P : A → bool) (w : A → Writer) (f : A → list byte) (l : list A) :
  (∀ x, x ∈ l → writes (w x) (if P x then f x else [])) → writes (write_each w l) (filter (λ x, P x = true) l ≫= f).
Proof.
  intros Hw. replace (filter (λ x, P x = true) l ≫= f) with (l ≫= λ x, if P x then f x else []); [by apply writes_each|].
  clear Hw. induction l as [|x l IH]; [done|]. rewrite filter_cons, bind_cons, IH.
  destruct (P x) eqn:E; [rewrite decide_True by done; by rewrite bind_cons|by rewrite decide_False by done].
Qed.
Lemma role_trans_round_trip p l :
  role_trans_storable l → round_trip (role_trans_write p l) (role_trans_read p) (λ l', l' = role_trans_written p l).
Proof.
  intros [Hl Hw]. rewrite Forall_forall in Hw. exists (list_bytes (role_trans_bytes p) (role_trans_written p l)).
  assert (Hsub : ∀ r, r ∈ role_trans_written p l → r ∈ l ∧ (new_roletr p || (rt_tclass r =? SECCLASS_PROCESS) = true)) by (intros r []%list_elem_of_filter; done).
  split.
  - unfold role_trans_write. apply writes_then; [by apply writes_words|].
    apply (writes_filter (λ tr, new_roletr p || (rt_tclass tr =? SECCLASS_PROCESS))). intros r _. unfold role_trans_bytes.
    destruct (new_roletr p); cbn [negb andb orb].
    + apply writes_then; by apply writes_words.
    + destruct (rt_tclass r =? SECCLASS_PROCESS); [|apply writes_done]. apply writes_then; [by apply writes_words|apply writes_done].
  - apply list_reads.
    { destruct Hl as [_ Hl]. split; [lia|]. pose proof (length_filter (λ tr, new_roletr p || (rt_tclass tr =? SECCLASS_PROCESS) = true) l). unfold role_trans_written. lia. }
    intros r l1 Hr. destruct (Hsub r Hr) as [Hin Hp]. destruct (Hw r Hin) as (H1&H2&H3&H4).
    eapply reads_bind_nil; [by apply reads_new|]. intros _ _. eapply reads_bind; [by apply reads_words|]. intros buf ->.
    apply (reads_bind_last _ _ _ (λ t, t = rt_tclass r)).
    + destruct (new_roletr p); [|apply reads_ret; by apply Z.eqb_eq in Hp].
      eapply reads_bind_last; [by apply reads_words|]. intros buf ->. apply reads_ret. by rewrite (le_word _ 0 (rt_tclass r)).
    + intros t ->. apply reads_ret. rewrite (le_word _ 0 (rt_role r)), (le_word _ 1 (rt_type r)), (le_word _ 2 (rt_new_role r)) by done. by destruct r.
Qed.

Definition filename_trans_bytes (f : filename_trans) : list byte :=
  cpu_to_le 4 [Z.of_nat (String.length (ft_name f))] ++ String.list_byte_of_string (ft_name f) ++
  cpu_to_le 4 [ft_stype f; ft_ttype f; ft_tclass f; ft_otype f].
(** a name of more than 2^32 - 2 bytes would not be read back *)
Definition filename_trans_storable (l : list filename_trans) : Prop :=
  word (length l) ∧ Forall (λ f, is_c_string (ft_name f) ∧ Z.of_nat (String.length (ft_name f)) < UINT_MAX ∧
    word (ft_stype f) ∧ word (ft_ttype f) ∧ word (ft_tclass f) ∧ word (ft_otype f)) l.
Lemma filename_trans_round_trip l :
  filename_trans_storable l → round_trip (filename_trans_write l) filename_trans_read (λ l', l' = l).
Proof.
  intros [Hl Hw]. rewrite Forall_forall in Hw. exists (list_bytes filename_trans_bytes l). split.
  - apply list_writes. intros f Hf. destruct (Hw f Hf) as (_&Hlen&_). unfold UINT_MAX in Hlen.
    apply writes_then; [by apply writes_words|]. apply writes_then; [apply writes_name; lia|by apply writes_words].
  - apply list_reads; [done|]. intros f l1 Hf. destruct (Hw f Hf) as (Hc&Hlen&H1&H2&H3&H4). unfold UINT_MAX in Hlen.
    eapply reads_bind_nil; [by apply reads_new|]. intros _ _.
    eapply reads_bind; [by apply reads_words|]. intros buf ->. rewrite (le_word _ 0 (String.length (ft_name f))) by (done || split; lia).
    eapply reads_bind; [apply reads_name; [done|done|unfold u32; rewrite wrap_id; lia]|]. intros name ->.
    eapply reads_bind_last; [by apply reads_words|]. intros buf ->. apply reads_ret.
    rewrite (le_word _ 0 (ft_stype f)), (le_word _ 1 (ft_ttype f)), (le_word _ 2 (ft_tclass f)), (le_word _ 3 (ft_otype f)) by done. by destruct f.
Qed.

(** *** Constraints *)

(** an expression in reverse polish notation that needs [d] values *)
Inductive rpn : list constraint_expr → nat → Prop :=
  | rpn_leaf e : ce_expr_type e = CEXPR_ATTR ∨ ce_expr_type e = CEXPR_NAMES → rpn [e] 1
  | rpn_not l e d : rpn l d → ce_expr_type e = CEXPR_NOT → rpn (l ++ [e]) d
  | rpn_binary l1 l2 e d1 d2 : rpn l1 d1 → rpn l2 d2 → ce_expr_type e = CEXPR_AND ∨ ce_expr_type e = CEXPR_OR →
      rpn (l1 ++ l2 ++ [e]) (d1 `max` S d2).
(** [k] expressions side by side, each of which fits above those before it *)
Inductive scanned : list constraint_expr → nat → Prop :=
  | scanned_nil : scanned [] 0
  | scanned_snoc l k s d : scanned l k → rpn s d → (k + d ≤ 5)%nat → scanned (l ++ s) (S k).
#[local] Hint Constructors rpn scanned : core.

Lemma rpn_depth l d : rpn l d → (1 ≤ d)%nat.
Proof. induction 1; lia. Qed.
Lemma scanned_depth l k : scanned l k → (k ≤ 5)%nat.
Proof. destruct 1 as [|l k s d _ Hs Hd]; [lia|]. apply rpn_depth in Hs. lia. Qed.
Lemma scanned_pop l k : scanned l (S k) → ∃ l' s d, l = l' ++ s ∧ scanned l' k ∧ rpn s d ∧ (k + d ≤ 5)%nat.
Proof. inversion 1; subst. by do 3 eexists. Qed.

Lemma expr_depth_scanned allowx e l k depth' :
  scanned l k → expr_depth allowx e (k - 1) = Some depth' →
  ∃ k' : nat, depth' = k' - 1 ∧ scanned (l ++ [e]) k' ∧ (ce_expr_type e = CEXPR_NAMES → allowx = true ∨ Z.land (ce_attr e) CEXPR_XTARGET = 0).
Proof.
  intros Hl. unfold expr_depth, CEXPR_MAXDEPTH. pose proof (scanned_depth _ _ Hl) as Hk.
  assert (Hpush : ce_expr_type e = CEXPR_ATTR ∨ ce_expr_type e = CEXPR_NAMES → (if k - 1 =? 5 - 1 then None else Some (k - 1 + 1)) = Some depth' →
    ∃ k' : nat, depth' = k' - 1 ∧ scanned (l ++ [e]) k').
  { intros He. destruct (Z.eqb_spec (k - 1) (5 - 1)) as [|Hne]; intros [= <-]. exists (S k). split; [lia|].
    apply scanned_snoc with 1%nat; [done|by apply rpn_leaf|lia]. }
  destruct (Z.eqb_spec (ce_expr_type e) CEXPR_NOT) as [He|_].
  { destruct (Z.ltb_spec (k - 1) 0) as [|Hn]; intros [= <-]. destruct k as [|k]; [lia|]. exists (S k). split; [done|].
    destruct (scanned_pop _ _ Hl) as (l'&s&d&->&Hl'&Hs&Hd). split; [|by rewrite He]. rewrite <- app_assoc. by eauto. }
  destruct (_ || _) eqn:E.
  { apply orb_true_iff in E. rewrite !Z.eqb_eq in E. destruct (Z.ltb_spec (k - 1) 1) as [|Hn]; intros [= <-].
    destruct k as [|[|k]]; [lia..|]. exists (S k). split; [lia|].
    destruct (scanned_pop _ _ Hl) as (l2&s2&d2&->&Hl2&Hs2&Hd2). destruct (scanned_pop _ _ Hl2) as (l1&s1&d1&->&Hl1&Hs1&Hd1).
    split; [|by destruct E as [->| ->]]. rewrite <- !app_assoc. eapply scanned_snoc; [done|by apply rpn_binary|lia]. }
  destruct (Z.eqb_spec (ce_expr_type e) CEXPR_ATTR) as [He|_].
  { intros Hp. destruct Hpush as (k'&?&?); [by left|done|]. exists k'. by rewrite He. }
  destruct (Z.eqb_spec (ce_expr_type e) CEXPR_NAMES) as [He|_]; [|done].
  destruct (negb allowx && _) eqn:Ex; [done|]. intros Hp. destruct Hpush as (k'&?&?); [by right|done|]. exists k'. split_and!; [done..|].
  intros _. destruct allowx; [by left|right]. by apply truth_false in Ex.
Qed.

(** what an accepted constraint is *)
Record constraint_sound (allowx : bool) (c : constraint_node) : Prop := {
  cs_rpn : ∃ d, rpn (cn_expr c) d ∧ (d ≤ 5)%nat;
  cs_xtarget e : e ∈ cn_expr c → ce_expr_type e = CEXPR_NAMES → allowx = true ∨ Z.land (ce_attr e) CEXPR_XTARGET = 0;
  cs_names e : e ∈ cn_expr c → ebitmap_weak_wf (ce_names e)
}.
Definition exprs_sound (allowx : bool) (l : list constraint_expr) : Prop := ∀ e, e ∈ l →
  (ce_expr_type e = CEXPR_NAMES → allowx = true ∨ Z.land (ce_attr e) CEXPR_XTARGET = 0) ∧ ebitmap_weak_wf (ce_names e).
Lemma exprs_sound_snoc allowx l e :
  exprs_sound allowx l → (ce_expr_type e = CEXPR_NAMES → allowx = true ∨ Z.land (ce_attr e) CEXPR_XTARGET = 0) →
  ebitmap_weak_wf (ce_names e) → exprs_sound allowx (l ++ [e]).
Proof. intros Hl He Hn e' [He'|He']%elem_of_app; [by apply Hl|]. by apply list_elem_of_singleton in He' as ->. Qed.

Lemma ebitmap_init_weak_wf : ebitmap_weak_wf ebitmap_init.
Proof. split; [exact I|]. split; [done|]. by exists 0. Qed.
Lemma checks_words n : 0 ≤ n → checks (or_fail (-1) (get_entry n)) (λ buf, Z.of_nat (length buf) = n).
Proof. intros Hn. apply checks_or_fail; [done|by apply checks_entry]. Qed.
Lemma type_set_checks : checks type_set_read (λ s, ebitmap_weak_wf (ts_types s) ∧ ebitmap_weak_wf (ts_negset s)).
Proof.
  eapply checks_bind; [apply checks_or_fail; [done|apply checks_ebitmap]|]. intros t Ht.
  eapply checks_bind; [apply checks_or_fail; [done|apply checks_ebitmap]|]. intros n Hn.
  eapply checks_bind; [by apply checks_words|]. intros buf _. by apply checks_ret.
Qed.
Lemma read_expr_checks p allowx l depth (k : nat) :
  scanned l k → depth = k - 1 → exprs_sound allowx l →
  checks (read_expr p allowx (l, depth)) (λ '(l', depth'), ∃ k' : nat, scanned l' k' ∧ depth' = k' - 1 ∧ exprs_sound allowx l').
Proof.
  intros Hl -> Hs. eapply checks_bind; [by apply checks_new|]. intros _ _. eapply checks_bind; [by apply checks_new|]. intros _ _.
  eapply checks_bind; [by apply checks_words|]. intros buf _. cbv zeta. set (e := CExpr _ _ _ _ _).
  destruct (expr_depth allowx e (k - 1)) as [depth'|] eqn:E; [|by apply checks_fail].
  change (le_to_cpu 4 buf 0) with (ce_expr_type e). change (le_to_cpu 4 buf 1) with (ce_attr e). change (le_to_cpu 4 buf 2) with (ce_op e).
  destruct (Z.eqb_spec (ce_expr_type e) CEXPR_NAMES) as [He|He].
  - eapply checks_bind; [apply checks_or_fail; [done|apply checks_ebitmap]|]. intros names Hnames.
    apply (checks_bind _ _ (λ _, True)).
    + destruct (has_type_names p); [|by apply checks_ret]. apply checks_or_fail; [done|]. by eapply checks_mono; [apply type_set_checks|].
    + intros tn _. apply checks_ret. set (e' := CExpr _ _ _ names _).
      destruct (expr_depth_scanned allowx e' l k depth' Hl E) as (k'&->&Hk'&Hx). exists k'. split_and!; [done..|]. by apply exprs_sound_snoc.
  - apply checks_ret. destruct (expr_depth_scanned allowx e l k depth' Hl E) as (k'&->&Hk'&Hx). exists k'. split_and!; [done..|].
    apply exprs_sound_snoc; [done..|]. apply ebitmap_init_weak_wf.
Qed.
Lemma read_cons_checks p ncons allowx :
  checks (read_cons_helper p ncons allowx) (Forall (constraint_sound allowx)).
Proof.
  apply checks_times; [constructor|]. intros nodes Hnodes. eapply checks_bind; [by apply checks_new|]. intros _ _.
  eapply checks_bind; [by apply checks_words|]. intros buf _.
  apply (checks_bind _ _ (λ '(l, depth), ∃ k : nat, scanned l k ∧ depth = k - 1 ∧ exprs_sound allowx l)).
  - apply checks_times; [exists 0%nat; split_and!; [constructor|done|by intros e He%not_elem_of_nil]|]. intros [l depth] (k&Hl&Hd&Hs). by eapply read_expr_checks.
  - intros [l depth] (k&Hl&->&Hs). destruct (Z.eqb_spec (k - 1) 0) as [Hk|]; [|by apply checks_fail].
    apply checks_ret, Forall_app. split; [done|]. apply Forall_singleton. assert (k = 1%nat) as -> by lia.
    destruct (scanned_pop _ _ Hl) as (l'&s&d&->&Hl'&Hr&Hd). inversion Hl'; subst. split.
    + by exists d.
    + intros e He. by apply Hs.
    + intros e He. by apply Hs.
Qed.

(** with values for its leaves, such an expression has a value *)
Lemma rpn_denotes q sc tc xc l d :
  rpn l d → (∀ e, e ∈ l → ce_expr_type e = CEXPR_ATTR ∨ ce_expr_type e = CEXPR_NAMES → ∃ v, leaf_val q sc tc xc e v) →
  ∃ v, denotes q sc tc xc l v d.
Proof.
  induction 1 as [e He|l e d Hl IH He|l1 l2 e d1 d2 H1 IH1 H2 IH2 He]; intros Hleaf.
  - destruct (Hleaf e) as [v Hv]; [by left|done|]. exists v. by apply denotes_leaf.
  - destruct IH as [v Hv]; [intros e' He'; apply Hleaf, elem_of_app; by left|]. exists (negb v). by apply denotes_not.
  - destruct IH1 as [v1 Hv1]; [intros e' He'; apply Hleaf, elem_of_app; by left|].
    destruct IH2 as [v2 Hv2]; [intros e' He'; apply Hleaf, elem_of_app; right; apply elem_of_app; by left|].
    destruct He; [exists (v1 && v2); by apply denotes_and|exists (v1 || v2); by apply denotes_or].
Qed.

Definition allowed (allowx : bool) (e : constraint_expr) : Prop :=
  ce_expr_type e = CEXPR_NAMES → allowx = true ∨ Z.land (ce_attr e) CEXPR_XTARGET = 0.
(** what a format can hold of an expression *)
Record expr_storable p (allowx : bool) e : Prop := {
  xs_words : word (ce_expr_type e) ∧ word (ce_attr e) ∧ word (ce_op e);
  xs_allowed : allowed allowx e;
  xs_names : ebitmap_wf (ce_names e);
  xs_type_names : ∃ s, ce_type_names e = Some s ∧ type_set_storable s ∧ (has_type_names p = false → s = no_types);
  xs_plain : ce_expr_type e ≠ CEXPR_NAMES → ce_names e = ebitmap_init ∧ ce_type_names e = Some no_types
}.
Record constraint_storable p (allowx : bool) (c : constraint_node) : Prop := {
  kc_permissions : word (cn_permissions c);
  kc_length : word (length (cn_expr c));
  kc_rpn : ∃ d, rpn (cn_expr c) d ∧ (d ≤ 5)%nat;
  kc_exprs e : e ∈ cn_expr c → expr_storable p allowx e
}.
Definition expr_bytes p e : list byte :=
  cpu_to_le 4 [ce_expr_type e; ce_attr e; ce_op e] ++
  (if ce_expr_type e =? CEXPR_NAMES then
     ebitmap_bytes (ce_names e) ++ (if has_type_names p then type_set_bytes (default no_types (ce_type_names e)) else []) ++ []
   else []).
Definition constraint_bytes p (c : constraint_node) : list byte :=
  cpu_to_le 4 [cn_permissions c; Z.of_nat (length (cn_expr c))] ++ (cn_expr c ≫= expr_bytes p).

(** the depth after the expressions [l] *)
Definition depth_after (allowx : bool) (l : list constraint_expr) (depth : Z) : option Z :=
  foldl (λ o e, o ≫= expr_depth allowx e) (Some depth) l.
Lemma depth_after_none allowx l : foldl (λ o e, o ≫= expr_depth allowx e) None l = None.
Proof. by induction l. Qed.
Lemma depth_after_app allowx l1 l2 depth :
  depth_after allowx (l1 ++ l2) depth = depth_after allowx l1 depth ≫= depth_after allowx l2.
Proof.
  unfold depth_after. rewrite foldl_app. destruct (foldl _ (Some depth) l1); [done|apply depth_after_none].
Qed.
Lemma depth_after_cons allowx e l depth :
  depth_after allowx (e :: l) depth = expr_depth allowx e depth ≫= depth_after allowx l.
Proof. unfold depth_after. cbn [foldl mbind option_bind]. destruct (expr_depth allowx e depth); [done|apply depth_after_none]. Qed.
Lemma rpn_depth_after allowx l d depth :
  rpn l d → (∀ e, e ∈ l → allowed allowx e) → -1 ≤ depth → depth + d ≤ 4 →
  depth_after allowx l depth = Some (depth + 1).
Proof.
  intros Hl. revert depth. induction Hl as [e He|l e d Hl IH He|l1 l2 e d1 d2 H1 IH1 H2 IH2 He]; intros depth Ha H0 Hd.
  - specialize (Ha e (list_elem_of_here _ _)). unfold depth_after, expr_depth, CEXPR_MAXDEPTH. cbn [foldl mbind option_bind].
    destruct He as [He|He]; rewrite He; cbn [Z.eqb orb CEXPR_NOT CEXPR_AND CEXPR_OR CEXPR_ATTR CEXPR_NAMES Pos.eqb];
      destruct (Z.eqb_spec depth (5 - 1)); [lia|done|lia|].
    destruct (Ha He) as [->| ->]; [done|]. by destruct allowx.
  - rewrite depth_after_app, IH by (done || intros e' He'; apply Ha, elem_of_app; by left). cbn. unfold expr_depth. rewrite He. cbn.
    by destruct (Z.ltb_spec (depth + 1) 0); [lia|].
  - pose proof (rpn_depth _ _ H1). pose proof (rpn_depth _ _ H2).
    rewrite depth_after_app, IH1 by (lia || intros e' He'; apply Ha, elem_of_app; by left). cbn [mbind option_bind].
    rewrite depth_after_app, IH2 by (lia || intros e' He'; apply Ha; rewrite !elem_of_app; by right; left). cbn [mbind option_bind].
    unfold depth_after, expr_depth. cbn [foldl mbind option_bind]. destruct He as [He|He]; rewrite He; cbn [Z.eqb orb CEXPR_NOT CEXPR_AND CEXPR_OR Pos.eqb];
      destruct (Z.ltb_spec (depth + 1 + 1) 1); [lia|f_equal; lia|lia|f_equal; lia].
Qed.

Lemma read_expr_reads p allowx l e depth depth' :
  expr_storable p allowx e → expr_depth allowx e depth = Some depth' →
  reads (read_expr p allowx (l, depth)) (expr_bytes p e) (λ st, st = (l ++ [e], depth')).
Proof.
  intros [(H1&H2&H3) _ Hn (s&Hs&Hst&Hno) Hplain] Hd. eapply reads_bind_nil; [by apply reads_new|]. intros _ _.
  eapply reads_bind_nil; [by apply reads_new|]. intros _ _. eapply reads_bind; [by apply reads_words|]. intros buf ->. cbv zeta.
  rewrite (le_word _ 0 (ce_expr_type e)), (le_word _ 1 (ce_attr e)), (le_word _ 2 (ce_op e)) by done.
  replace (expr_depth allowx (CExpr _ _ _ _ _) depth) with (Some depth') by (by rewrite <- Hd). cbn [ce_expr_type ce_attr ce_op].
  destruct (Z.eqb_spec (ce_expr_type e) CEXPR_NAMES) as [He|He].
  - eapply reads_bind; [apply reads_or_fail; [done|by apply reads_ebitmap]|]. intros names ->. rewrite Hs. cbn [default].
    eapply (reads_bind _ _ _ _ (λ t, t = s)).
    + destruct (has_type_names p); [apply reads_or_fail; [done|by apply type_set_reads]|]. apply reads_ret. by rewrite Hno.
    + intros t ->. apply reads_ret. by destruct e; simplify_eq/=.
  - apply reads_ret. destruct (Hplain He) as [Hpn Hpt]. destruct e; simplify_eq/=. by do 2 f_equal.
Qed.
Lemma write_expr_writes p allowx e : expr_storable p allowx e → writes (write_expr p allowx e) (expr_bytes p e).
Proof.
  intros [(H1&H2&H3) Ha Hn (s&Hs&Hst&Hno) Hplain]. apply writes_then; [by apply writes_words|].
  destruct (Z.eqb_spec (ce_expr_type e) CEXPR_NAMES) as [He|He]; [|apply writes_done].
  assert (negb allowx && truth (Z.land (ce_attr e) CEXPR_XTARGET) = false) as ->.
  { destruct (Ha He) as [->| ->]; [done|apply andb_false_r]. }
  apply writes_then; [by apply writes_ebitmap|]. apply writes_then; [|apply writes_done]. rewrite Hs. cbn [default put_type_names].
  destruct (has_type_names p); [by apply type_set_writes|apply writes_done].
Qed.
Lemma exprs_read p allowx l d :
  (∀ e, e ∈ l → expr_storable p allowx e) → word (length l) → rpn l d → (d ≤ 5)%nat →
  reads (times (length l) (read_expr p allowx) ([], -1)) (l ≫= expr_bytes p) (λ st, st = (l, 0)).
Proof.
  intros He Hw Hr Hd. assert (Hall : depth_after allowx l (-1) = Some 0).
  { apply (rpn_depth_after allowx l d); [done| |lia..]. intros e Hin. by apply He. }
  eapply reads_mono.
  - apply (reads_times l _ _ _ (λ l1 st, ∃ depth, st = (l1, depth) ∧ depth_after allowx l1 (-1) = Some depth)); [done|by exists (-1)|].
    intros e l1 l2 st -> (depth&->&Hdepth). rewrite depth_after_app, Hdepth in Hall. cbn [mbind option_bind] in Hall.
    rewrite depth_after_cons in Hall. destruct (expr_depth allowx e depth) as [depth'|] eqn:E; [|done].
    eapply reads_mono; [apply (read_expr_reads _ _ _ _ _ depth'); [|done]|].
    + apply He, elem_of_app. right. by left.
    + intros st ->. exists depth'. split; [done|]. rewrite depth_after_app, Hdepth. cbn [mbind option_bind]. by rewrite depth_after_cons, E.
  - intros st (depth&->&Hdepth). congruence.
Qed.
Lemma constraints_io p allowx cs :
  Forall (constraint_storable p allowx) cs →
  writes (write_cons_helper p cs allowx) (cs ≫= constraint_bytes p) ∧
  reads (read_cons_helper p (length cs) allowx) (cs ≫= constraint_bytes p) (λ cs', cs' = cs).
Proof.
  rewrite Forall_forall. intros Hcs. split.
  - apply writes_each. intros c Hc. destruct (Hcs c Hc) as [Hp Hl Hr He]. unfold constraint_bytes.
    apply writes_then; [|apply writes_each; intros e Hin; by apply write_expr_writes, He].
    unfold u32. rewrite wrap_id by done. by apply writes_words.
  - apply (reads_times _ _ _ _ (λ l cs', cs' = l)); [done..|]. intros c l1 l2 cs' Hc ->.
    destruct (Hcs c) as [Hp Hl (d&Hr&Hd) He]; [rewrite Hc; apply elem_of_app; right; by left|].
    eapply reads_bind_nil; [by apply reads_new|]. intros _ _. eapply reads_bind; [by apply reads_words|]. intros buf ->.
    rewrite (le_word _ 0 (cn_permissions c)), (le_word _ 1 (length (cn_expr c))) by done.
    eapply reads_bind_last; [by eapply exprs_read|]. intros st ->. cbn. apply reads_ret. by destruct c.
Qed.
End theory.

(** ** Examples *)

Module ExampleRules.
Definition policy_of (vers : Z) : policydb :=
  Policydb 0 vers 0 empty_symtab empty_symtab empty_symtab empty_symtab empty_symtab empty_symtab empty_symtab
    [] [] [] [] [] [] [] [] [] [] empty_avtab empty_avtab [] [] [] [] [] [] [] (Ebitmap [] 0) [] (replicate OCON_NUM []) [].
Definition policy : policydb := policy_of 29.
Definition old_policy : policydb := policy_of 18.
Definition attr : constraint_expr := CExpr CEXPR_ATTR CEXPR_USER CEXPR_EQ ebitmap_init (Some no_types).
Definition names : constraint_expr :=
  CExpr CEXPR_NAMES CEXPR_TYPE CEXPR_EQ (Ebitmap [Node 0 5] 64) (Some (TypeSet (Ebitmap [Node 0 4] 64) ebitmap_init 1)).
Definition op (t : Z) : constraint_expr := CExpr t 0 0 ebitmap_init (Some no_types).
(** [u1 == u2 and not (t1 == {..} or u1 == u2)] *)
Definition node : constraint_node :=
  CNode 3 [attr; names; attr; op CEXPR_OR; op CEXPR_NOT; op CEXPR_AND].
Ltac word := split; by vm_compute.
Ltac rules := repeat (apply Forall_cons; split; [cbn; split_and!; first [word|done]|]); apply Forall_nil; exact I.
Lemma op_storable p t : word t → t ≠ CEXPR_NAMES → expr_storable p false (op t).
Proof.
  intros Ht Hn. split; [split_and!; [done|word..]|by intros He|apply ebitmap_init_wf| |done].
  exists no_types. split; [done|]. split; [|done]. split; [apply ebitmap_init_wf|]. split; [apply ebitmap_init_wf|word].
Qed.
Lemma attr_storable p : expr_storable p false attr.
Proof.
  split; [split_and!; word|by intros He|apply ebitmap_init_wf| |done].
  exists no_types. split; [done|]. split; [|done]. split; [apply ebitmap_init_wf|]. split; [apply ebitmap_init_wf|word].
Qed.
Lemma names_storable p : has_type_names p = true → expr_storable p false names.
Proof.
  intros Hp. split; [split_and!; word|by intros _; right|split; [cbn; split_and!; try lia; by exists 0|done]| |done].
  eexists. split; [done|]. split; [|by rewrite Hp].
  split; [split; [cbn; split_and!; try lia; by exists 0|done]|]. split; [apply ebitmap_init_wf|word].
Qed.
Lemma node_storable p : has_type_names p = true → constraint_storable p false node.
Proof.
  intros Hp. split; [word|word| |].
  - exists 3%nat. split; [|lia]. change (cn_expr node) with ([attr] ++ (([names] ++ [attr] ++ [op CEXPR_OR]) ++ [op CEXPR_NOT]) ++ [op CEXPR_AND]).
    apply (rpn_binary _ _ _ 1 2); [apply rpn_leaf; by left| |by left]. apply rpn_not; [|done].
    apply (rpn_binary _ _ _ 1 1); [apply rpn_leaf; by right|apply rpn_leaf; by left|by right].
  - apply Forall_forall. cbn [cn_expr node].
    repeat (apply Forall_cons; split; [apply attr_storable || by apply names_storable || (apply op_storable; [word|done])|]). constructor.
Qed.
End ExampleRules.

(** ** Properties *)

(** C29: whatever the bytes, [read_cons_helper] is safe, and every constraint it
    accepts is one expression in reverse polish notation that fits the five
    values of the evaluation; only the rules that may name the third context
    do; and with values for the leaves the constraint denotes a value, within
    the depth at which [constraint_expr_eval_reason] is correct. *)
Theorem read_constraints_evaluable `{Target} p ncons allowx :
  checks (read_cons_helper p ncons allowx) (Forall (λ c,
    constraint_sound allowx c ∧
    ∀ q sc tc xc,
      (∀ e, e ∈ cn_expr c → ce_expr_type e = CEXPR_ATTR ∨ ce_expr_type e = CEXPR_NAMES → ∃ v, leaf_val q sc tc xc e v) →
      ∃ v d, denotes q sc tc xc (cn_expr c) v d ∧ (d ≤ 5)%nat)).
Proof.
  eapply checks_mono; [apply read_cons_checks|]. intros cs Hcs. eapply Forall_impl; [exact Hcs|].
  intros c Hc. split; [done|]. intros q sc tc xc Hleaf. destruct (cs_rpn _ _ Hc) as (d&Hr&Hd).
  destruct (rpn_denotes q sc tc xc _ d Hr Hleaf) as [v Hv]. by exists v, d.
Qed.

(** round trip of constraints: the depths of the stack that the reader
    follows never make it refuse what fits. *)
Theorem constraints_roundtrip `{Target} p allowx cs :
  Forall (constraint_storable p allowx) cs →
  round_trip (write_cons_helper p cs allowx) (read_cons_helper p (length cs) allowx) (λ cs', cs' = cs).
Proof. intros Hcs. eexists. by apply constraints_io. Qed.

(** round trips of the role rules and of the named transitions; of the role
    transitions a format without classes keeps those of processes only. *)
Theorem rules_roundtrip `{Target} p allows trans names :
  role_allow_storable allows → role_trans_storable trans → filename_trans_storable names →
  round_trip (role_allow_write allows) role_allow_read (λ l, l = allows) ∧
  round_trip (role_trans_write p trans) (role_trans_read p) (λ l, l = role_trans_written p trans) ∧
  round_trip (filename_trans_write names) filename_trans_read (λ l, l = names).
Proof.
  intros Ha Ht Hn. split; [by apply role_allow_round_trip|]. split; [by apply role_trans_round_trip|by apply filename_trans_round_trip].
Qed.

(** a stream whose named transition has the length 2^32 - 1 makes
    [filename_trans_read] write to a buffer of no bytes: the size it asks for is
    computed in 32 bits. *)
Theorem filename_trans_read_overflow b rest h :
  mem_ok h →
  filename_trans_read (PolicyFile PF_USE_STDIO (cpu_to_le 4 [1; UINT_MAX] ++ b :: rest) [] 0) h = None.
Proof.
  intros Hm.
  assert (He : ∀ (l : list Z) bs h, length l = 1%nat →
    or_fail (-1) (get_entry 4) (PolicyFile PF_USE_STDIO (cpu_to_le 4 l ++ bs) [] 0) h = Some ((inr (cpu_to_le 4 l), PolicyFile PF_USE_STDIO bs [] 0), h)).
  { clear. intros l bs h Hl. unfold or_fail, get_entry, next_entry, mbind, CM_bind, mret, CM_ret. cbn [pf_type pf_data].
    change (Z.to_nat 4) with 4%nat. assert (Hlen : length (cpu_to_le 4 l) = 4%nat) by (rewrite length_cpu_to_le; lia).
    rewrite length_app, Hlen. destruct (Z.ltb_spec (4 + length bs)%nat 4) as [|_]; [lia|]. cbn [Z.eqb orb].
    unfold pf_advance. cbn [pf_data]. rewrite take_app_length', drop_app_length' by done. done. }
  destruct (malloc_run h Hm) as (a&h1&Hm1&Ha). destruct (malloc_run h1 Hm1) as (a2&h2&_&Ha2).
  unfold filename_trans_read. change (cpu_to_le 4 [1; UINT_MAX] ++ b :: rest) with (cpu_to_le 4 [1] ++ (cpu_to_le 4 [UINT_MAX] ++ b :: rest)).
  eapply reader_bind_run; [by apply He|]. rewrite (le_word _ 0 1) by done. apply bind_stuck. unfold for_loop. change (Z.to_nat (1 - 0)) with 1%nat. cbn [for_range].
  apply bind_stuck, bind_stuck. eapply reader_bind_run; [unfold new; unfold mbind, CM_bind; by rewrite Ha|]. eapply reader_bind_run; [by apply He|].
  rewrite (le_word _ 0 UINT_MAX) by done. apply bind_stuck. eapply bind_run; [exact Ha2|]. cbn beta iota. unfold stored. cbn [pf_type pf_data].
  change (u32 (UINT_MAX + 1)) with 0. destruct (Z.ltb_spec 0 (UINT_MAX `min` length (b :: rest))) as [|Hmin]; [done|]. cbn in Hmin. unfold UINT_MAX in Hmin. lia.
Qed.

(** witness of [constraints_roundtrip] *)
Lemma constraints_roundtrip_witness :
  round_trip (@write_cons_helper target_arm ExampleRules.policy [ExampleRules.node] false)
    (@read_cons_helper target_arm ExampleRules.policy 1 false) (λ cs', cs' = [ExampleRules.node]).
Proof.
  apply (@constraints_roundtrip target_arm ExampleRules.policy false [ExampleRules.node]).
  apply Forall_cons. split; [by apply ExampleRules.node_storable|constructor].
Defined.

(** witness of [rules_roundtrip] *)
Lemma rules_roundtrip_witness :
  let trans := [RoleTrans 1 2 SECCLASS_PROCESS 3; RoleTrans 1 2 7 3] in
  round_trip (@role_allow_write target_arm [RoleAllow 1 2]) role_allow_read (λ l, l = [RoleAllow 1 2]) ∧
  round_trip (@role_trans_write target_arm ExampleRules.old_policy trans) (role_trans_read ExampleRules.old_policy)
    (λ l, l = [RoleTrans 1 2 SECCLASS_PROCESS 3]) ∧
  round_trip (@filename_trans_write target_arm [FilenameTrans 1 2 3 "x" 4]) filename_trans_read (λ l, l = [FilenameTrans 1 2 3 "x" 4]).
Proof.
  intros trans.
  apply (@rules_roundtrip target_arm ExampleRules.old_policy [RoleAllow 1 2] trans [FilenameTrans 1 2 3 "x" 4]).
  - split; [ExampleRules.word|]. ExampleRules.rules.
  - split; [ExampleRules.word|]. ExampleRules.rules.
  - split; [ExampleRules.word|]. ExampleRules.rules.
Defined.

(** witness of [filename_trans_read_overflow] *)
Lemma filename_trans_read_overflow_witness :
  filename_trans_read (PolicyFile PF_USE_STDIO (cpu_to_le 4 [1; UINT_MAX] ++ [x00]) [] 0) fresh_heap = None.
Proof. apply (filename_trans_read_overflow x00 [] fresh_heap). constructor. Defined.
