(* ===== verification/SymbolsIO.v ===== *)
(** * Symbols in policy files ([policydb.c], [conditional.c], [write.c])

    For every kind of symbol a reader that adds one symbol to a table and a
    writer that is called on the entries of a table.  What a format cannot hold
    is lost; [symbol_io] is what the two have to do for a whole table to be
    read back. *)

From S2P Require Import Prelude PolicyFile Hashtab Ebitmap EbitmapIO Symtab Context Policydb Mls Constraint ExpandSets Readers ContextIO RulesIO.

Definition PERM_SYMTAB_SIZE : Z := 32.
Definition OBJECT_R : string := "object_r".
Definition TYPE_FLAGS_PERMISSIVE : Z := 1.
Definition TYPEDATUM_PROPERTY_PRIMARY : Z := 1.
Definition TYPEDATUM_PROPERTY_ATTRIBUTE : Z := 2.
Definition TYPEDATUM_PROPERTY_ALIAS : Z := 4.
Definition TYPEDATUM_PROPERTY_PERMISSIVE : Z := 8.

Section io.
Context `{Target}.

(** ** Formats *)

Definition kern (p : policydb) : bool := policy_type p =? POLICY_KERN.
(** kernel policies from version [k], other policies from version [m] *)
Definition since (k m : Z) (p : policydb) : bool :=
  kern p && (k <=? policyvers p) || negb (kern p) && (m <=? policyvers p).
(** kernel policies from version [k], base modules from version [m] *)
Definition since_base (k m : Z) (p : policydb) : bool :=
  kern p && (k <=? policyvers p) || (policy_type p =? POLICY_BASE) && (m <=? policyvers p).
Definition policydb_has_boundary_feature (p : policydb) : bool :=
  since POLICYDB_VERSION_BOUNDARY MOD_POLICYDB_VERSION_BOUNDARY p.
Definition has_validatetrans (p : policydb) : bool :=
  since_base POLICYDB_VERSION_VALIDATETRANS MOD_POLICYDB_VERSION_VALIDATETRANS p.
Definition has_object_defaults (p : policydb) : bool :=
  since_base POLICYDB_VERSION_NEW_OBJECT_DEFAULTS MOD_POLICYDB_VERSION_NEW_OBJECT_DEFAULTS p.
Definition has_default_type (p : policydb) : bool :=
  since_base POLICYDB_VERSION_DEFAULT_TYPE MOD_POLICYDB_VERSION_DEFAULT_TYPE p.
Definition has_role_attributes (p : policydb) : bool :=
  negb (kern p) && (MOD_POLICYDB_VERSION_ROLEATTRIB <=? policyvers p).
Definition has_boundary_alias (p : policydb) : bool :=
  negb (kern p) && (MOD_POLICYDB_VERSION_BOUNDARY_ALIAS <=? policyvers p).
Definition has_permissive (p : policydb) : bool :=
  negb (kern p) && (MOD_POLICYDB_VERSION_PERMISSIVE <=? policyvers p).
Definition has_tunables (p : policydb) : bool :=
  negb (kern p) && (MOD_POLICYDB_VERSION_TUNABLE_SEP <=? policyvers p).
(** users with levels, and with semantic levels *)
Definition is_module (p : policydb) : bool := (policy_type p =? POLICY_MOD) || (policy_type p =? POLICY_BASE).
Definition user_has_levels (p : policydb) : bool :=
  kern p && (POLICYDB_VERSION_MLS <=? policyvers p) ||
  is_module p && (MOD_POLICYDB_VERSION_MLS <=? policyvers p) && (policyvers p <? MOD_POLICYDB_VERSION_MLS_USERS).
Definition user_has_semantic_levels (p : policydb) : bool :=
  is_module p && (MOD_POLICYDB_VERSION_MLS_USERS <=? policyvers p).

(** ** Reading *)

Definition table_of (D : Type) : Type := option (hashtab string D).
Definition insert_symbol {D} (h : table_of D) (key : string) (d : D) : Reader (table_of D) :=
  or_fail (-1) (lift (hashtab_insert h key d)).
(** [len] of type [size_t], and of 32 bits *)
Definition read_key (len : Z) : Reader string := get_name (szt (len + 1)) len.
Definition read_key32 (len : Z) : Reader string := get_name (u32 (len + 1)) len.
(** the permissions of a common or class, an empty table for them *)
Definition new_permissions : Reader (symtab Z) := or_fail (-1) (lift (symtab_init (Symtab None 0) PERM_SYMTAB_SIZE)).

Definition perm_read (h : table_of Z) : Reader (table_of Z) :=
  _ ← new (-1);
  buf ← or_fail (-1) (get_entry 8);
  key ← read_key (le_to_cpu 4 buf 0);
  insert_symbol h key (le_to_cpu 4 buf 1).
Definition common_read (h : table_of common_datum) : Reader (table_of common_datum) :=
  _ ← new (-1);
  buf ← or_fail (-1) (get_entry 16);
  permissions ← new_permissions;
  key ← read_key (le_to_cpu 4 buf 0);
  t ← times (le_to_cpu 4 buf 3) perm_read (table permissions);
  insert_symbol h key (CommonDatum (le_to_cpu 4 buf 1) (Symtab t (le_to_cpu 4 buf 2))).

(** [commons] is the table [p->p_commons] *)
Definition read_comkey (commons : table_of common_datum) (len2 : Z) : Reader (option string * option common_datum) :=
  if len2 =? 0 then mret (None, None) else
  comkey ← read_key len2;
  com ← total (hashtab_search commons comkey);
  match com with None => fail (-1) | Some com => mret (Some comkey, Some com) end.
Definition read_defaults (p : policydb) : Reader (Z * Z * Z * Z) :=
  '(du, dr, dg) ← (if has_object_defaults p
                   then buf ← or_fail (-1) (get_entry 12); mret (le_to_cpu 4 buf 0, le_to_cpu 4 buf 1, le_to_cpu 4 buf 2)
                   else mret (0, 0, 0));
  dt ← (if has_default_type p then buf ← or_fail (-1) (get_entry 4); mret (le_to_cpu 4 buf 0) else mret 0);
  mret (du, dr, dt, dg).
Definition class_read (p : policydb) (commons : table_of common_datum) (h : table_of class_datum) : Reader (table_of class_datum) :=
  _ ← new (-1);
  buf ← or_fail (-1) (get_entry 24);
  permissions ← new_permissions;
  key ← read_key (le_to_cpu 4 buf 0);
  '(comkey, comdatum) ← read_comkey commons (le_to_cpu 4 buf 1);
  t ← times (le_to_cpu 4 buf 4) perm_read (table permissions);
  constraints ← or_fail (-1) (read_cons_helper p (le_to_cpu 4 buf 5) false);
  validatetrans ← (if has_validatetrans p
                   then buf ← or_fail (-1) (get_entry 4); or_fail (-1) (read_cons_helper p (le_to_cpu 4 buf 0) true)
                   else mret []);
  '(du, dr, dt, dg) ← read_defaults p;
  insert_symbol h key (ClassDatum (le_to_cpu 4 buf 2) comkey comdatum (Symtab t (le_to_cpu 4 buf 3))
                         constraints validatetrans du dr dt dg).

Definition role_read (p : policydb) (h : table_of role_datum) : Reader (table_of role_datum) :=
  _ ← new (-1);
  buf ← or_fail (-1) (get_entry (4 * (if policydb_has_boundary_feature p then 3 else 2)));
  let value := le_to_cpu 4 buf 1 in
  let bounds := if policydb_has_boundary_feature p then le_to_cpu 4 buf 2 else 0 in
  key ← read_key (le_to_cpu 4 buf 0);
  dominates ← or_fail (-1) get_ebitmap;
  types ← (if kern p then e ← or_fail (-1) get_ebitmap; mret (TypeSet e ebitmap_init 0) else or_fail (-1) type_set_read);
  '(flavor, roles) ← (if has_role_attributes p
                      then buf ← or_fail (-1) (get_entry 4); e ← or_fail (-1) get_ebitmap; mret (le_to_cpu 4 buf 0, e)
                      else mret (0, ebitmap_init));
  if String.eqb key OBJECT_R then (if negb (value =? OBJECT_R_VAL) then fail (-1) else mret h)
  else insert_symbol h key (RoleDatum value dominates types ebitmap_init bounds flavor roles).

(** how many words a type starts with, and the datum they are *)
Definition type_words (p : policydb) : Z :=
  if policydb_has_boundary_feature p then (if has_boundary_alias p then 5 else 4)
  else if kern p then 3 else if has_permissive p then 5 else 4.
Definition type_of_words (p : policydb) (buf : list byte) : type_datum :=
  let value := le_to_cpu 4 buf 1 in
  if policydb_has_boundary_feature p then
    let alias := has_boundary_alias p in
    let properties := le_to_cpu 4 buf (if alias then 3 else 2) in
    let primary := if alias then le_to_cpu 4 buf 2
                   else if truth (Z.land properties TYPEDATUM_PROPERTY_PRIMARY) then 1 else 0 in
    let flavor := if truth (Z.land properties TYPEDATUM_PROPERTY_ATTRIBUTE) then TYPE_ATTRIB else 0 in
    let flavor := if truth (Z.land properties TYPEDATUM_PROPERTY_ALIAS) && negb (kern p) then TYPE_ALIAS else flavor in
    let flags := if truth (Z.land properties TYPEDATUM_PROPERTY_PERMISSIVE) && negb (kern p) then TYPE_FLAGS_PERMISSIVE else 0 in
    TypeDatum value primary flavor ebitmap_init flags (le_to_cpu 4 buf (if alias then 4 else 3))
  else
    TypeDatum value (le_to_cpu 4 buf 2) (if kern p then 0 else le_to_cpu 4 buf 3) ebitmap_init
      (if has_permissive p then le_to_cpu 4 buf 4 else 0) 0.
Definition type_read (p : policydb) (h : table_of type_datum) : Reader (table_of type_datum) :=
  _ ← new (-1);
  buf ← or_fail (-1) (get_entry (4 * type_words p));
  let d := type_of_words p buf in
  types ← (if kern p then mret ebitmap_init else or_fail (-1) get_ebitmap);
  key ← read_key (le_to_cpu 4 buf 0);
  insert_symbol h key (TypeDatum (type_value d) (type_primary d) (type_flavor d) types (type_flags d) (type_bounds d)).

Definition no_level : mls_level := MlsLevel 0 ebitmap_init.
Definition no_semantic_level : mls_semantic_level := SemLevel 0 [].
(** the ranges and default levels of a user, expanded and semantic *)
Definition read_user_levels (p : policydb) : Reader (mls_range * mls_level * mls_semantic_range * mls_semantic_level) :=
  if user_has_levels p then
    range ← or_fail (-1) mls_read_range_helper;
    level ← or_fail (-1) mls_read_level;
    if kern p then mret (range, level, SemRange no_semantic_level no_semantic_level, no_semantic_level) else
    sem_range ← or_fail (-1) (lift (mls_range_to_semantic range));
    sem_level ← or_fail (-1) (lift (mls_level_to_semantic level));
    mret (range, level, sem_range, sem_level)
  else if user_has_semantic_levels p then
    sem_range ← or_fail (-1) mls_read_semantic_range_helper;
    sem_level ← or_fail (-1) mls_read_semantic_level_helper;
    mret (MlsRange no_level no_level, no_level, sem_range, sem_level)
  else mret (MlsRange no_level no_level, no_level, SemRange no_semantic_level no_semantic_level, no_semantic_level).
Definition user_read (p : policydb) (h : table_of user_datum) : Reader (table_of user_datum) :=
  _ ← new (-1);
  buf ← or_fail (-1) (get_entry (4 * (if policydb_has_boundary_feature p then 3 else 2)));
  let bounds := if policydb_has_boundary_feature p then le_to_cpu 4 buf 2 else 0 in
  key ← read_key (le_to_cpu 4 buf 0);
  roles ← (if kern p then e ← or_fail (-1) get_ebitmap; mret (RoleSet e 0) else or_fail (-1) role_set_read);
  '(range, level, sem_range, sem_level) ← read_user_levels p;
  insert_symbol h key (UserDatum (le_to_cpu 4 buf 1) roles sem_range sem_level ebitmap_init range level bounds).

Definition bool_isvalid (b : cond_bool_datum) : bool := (bool_state b =? 0) || (bool_state b =? 1).
Definition cond_read_bool (p : policydb) (h : table_of cond_bool_datum) : Reader (table_of cond_bool_datum) :=
  _ ← new (-1);
  buf ← or_fail (-1) (get_entry 12);
  let b := BoolDatum (le_to_cpu 4 buf 0) (le_to_cpu 4 buf 1) 0 in
  if negb (bool_isvalid b) then fail (-1) else
  key ← read_key32 (le_to_cpu 4 buf 2);
  flags ← (if has_tunables p then buf ← or_fail (-1) (get_entry 4); mret (le_to_cpu 4 buf 0) else mret 0);
  insert_symbol h key (BoolDatum (bool_value b) (bool_state b) flags).
Definition sens_read (h : table_of level_datum) : Reader (table_of level_datum) :=
  _ ← new (-1);
  buf ← or_fail (-1) (get_entry 8);
  key ← read_key32 (le_to_cpu 4 buf 0);
  _ ← new (-1);
  level ← or_fail (-1) mls_read_level;
  insert_symbol h key (LevelDatum level (le_to_cpu 4 buf 1) 0).
Definition cat_read (h : table_of cat_datum) : Reader (table_of cat_datum) :=
  _ ← new (-1);
  buf ← or_fail (-1) (get_entry 12);
  key ← read_key32 (le_to_cpu 4 buf 0);
  insert_symbol h key (CatDatum (le_to_cpu 4 buf 1) (le_to_cpu 4 buf 2)).

(** ** Writing *)

Definition strlen_of (key : string) : Z := Z.of_nat (String.length key).
Definition perm_write (key : string) (d : Z) : Writer := put_words [strlen_of key; d];;; put_name key.
Definition common_write (key : string) (d : common_datum) : Writer :=
  match table (common_permissions d) with
  | None => λ _, undefined
  | Some t =>
      put_words [strlen_of key; common_value d; nprim (common_permissions d); nel t];;;
      put_name key;;;
      hashtab_map (Some t) perm_write;;;
      done
  end.
Definition class_write (p : policydb) (key : string) (d : class_datum) : Writer :=
  put_words [strlen_of key; strlen_of (default EmptyString (class_comkey d)); class_value d; nprim (class_permissions d);
             match table (class_permissions d) with Some t => nel t | None => 0 end;
             u32 (length (class_constraints d))];;;
  put_name key;;;
  (match class_comkey d with Some comkey => put_name comkey | None => done end);;;
  hashtab_map (table (class_permissions d)) perm_write;;;
  write_cons_helper p (class_constraints d) false;;;
  (if has_validatetrans p
   then put_words [u32 (length (class_validatetrans d))];;; write_cons_helper p (class_validatetrans d) true else done);;;
  (if has_object_defaults p then put_words [default_user d; default_role d; default_range d] else done);;;
  (if has_default_type p then put_words [default_type d] else done);;;
  done.

(** attributes of roles that are not written *)
Definition role_skipped (p : policydb) (d : role_datum) : bool :=
  (role_flavor d =? ROLE_ATTRIB) && (kern p || negb (kern p) && (policyvers p <? MOD_POLICYDB_VERSION_ROLEATTRIB)).
Definition role_write (p : policydb) (key : string) (d : role_datum) : Writer :=
  if role_skipped p d then done else
  put_words ([strlen_of key; role_value d] ++ if policydb_has_boundary_feature p then [role_bounds d] else []);;;
  put_name key;;;
  put_ebitmap (role_dominates d);;;
  (if kern p then put_ebitmap (ts_types (role_types d)) else type_set_write (role_types d));;;
  (if has_role_attributes p then put_words [role_flavor d];;; put_ebitmap (role_roles d) else done);;;
  done.

(** attributes of types that are not written *)
Definition type_skipped (p : policydb) (d : type_datum) : bool :=
  kern p && (policyvers p <? POLICYDB_VERSION_BOUNDARY) && (type_flavor d =? TYPE_ATTRIB).
Definition type_properties (p : policydb) (d : type_datum) : Z :=
  let properties := if truth (type_primary d) then TYPEDATUM_PROPERTY_PRIMARY else 0 in
  let properties :=
    if type_flavor d =? TYPE_ATTRIB then Z.lor properties TYPEDATUM_PROPERTY_ATTRIBUTE
    else if (type_flavor d =? TYPE_ALIAS) && negb (kern p) then Z.lor properties TYPEDATUM_PROPERTY_ALIAS else properties in
  if truth (Z.land (type_flags d) TYPE_FLAGS_PERMISSIVE) && negb (kern p)
  then Z.lor properties TYPEDATUM_PROPERTY_PERMISSIVE else properties.
Definition words_of_type (p : policydb) (d : type_datum) : list Z :=
  if policydb_has_boundary_feature p then
    (if has_boundary_alias p then [type_primary d] else []) ++ [type_properties p d; type_bounds d]
  else [type_primary d] ++
    if kern p then [] else [type_flavor d] ++ if has_permissive p then [type_flags d] else [].
Definition type_write (p : policydb) (key : string) (d : type_datum) : Writer :=
  if type_skipped p d then done else
  put_words ([strlen_of key; type_value d] ++ words_of_type p d);;;
  (if kern p then done else put_ebitmap (type_types d));;;
  put_name key;;;
  done.

Definition user_write (p : policydb) (key : string) (d : user_datum) : Writer :=
  put_words ([strlen_of key; user_value d] ++ if policydb_has_boundary_feature p then [user_bounds d] else []);;;
  put_name key;;;
  (if kern p then put_ebitmap (rs_roles (user_roles d)) else role_set_write (user_roles d));;;
  (if user_has_levels p then mls_write_range_helper (user_exp_range d);;; mls_write_level (user_exp_dfltlevel d)
   else if user_has_semantic_levels p
   then mls_write_semantic_range_helper (user_range d);;; mls_write_semantic_level_helper (user_dfltlevel d)
   else done);;;
  done.

(** with the length in 32 bits *)
Definition put_name32 (s : string) : Writer := λ fp,
  let len := u32 (String.length s) in
  let '(items, fp) := put_entry (String.list_byte_of_string s) 1 len fp in
  mret (M := CM) (if negb (items =? len) then POLICYDB_ERROR else POLICYDB_SUCCESS, fp).
Definition cond_write_bool (p : policydb) (key : string) (d : cond_bool_datum) : Writer :=
  put_words [bool_value d; bool_state d; strlen_of key];;;
  put_name32 key;;;
  (if has_tunables p then put_words [bool_flags d] else done);;;
  done.
Definition sens_write (key : string) (d : level_datum) : Writer :=
  put_words [strlen_of key; ld_isalias d];;;
  put_name key;;;
  mls_write_level (ld_level d);;;
  done.
Definition cat_write (key : string) (d : cat_datum) : Writer :=
  put_words [strlen_of key; cat_value d; cat_isalias d];;;
  put_name key.
(** ** Whole tables *)

(** [read_f[i]], [write_f[i]] and what [policydb_write] takes off the count of
    the entries, for the kind of symbol [D]; [commons] is the table
    [p->p_commons] *)
Class SymbolIO (p : policydb) (commons : table_of common_datum) (D : Type) := {
  sym_read : table_of D → Reader (table_of D);
  sym_write : string → D → Writer;
  sym_count : table_of D → Z → CM Z
}.
#[global] Arguments sym_read p commons {D _}.
#[global] Arguments sym_write p commons {D _}.
#[global] Arguments sym_count p commons {D _}.

Definition type_attr_uncount (key : string) (d : type_datum) (nel : Z) : CM (Z * Z) :=
  mret (0, if type_flavor d =? TYPE_ATTRIB then u32 (nel - 1) else nel).
Definition role_attr_uncount (key : string) (d : role_datum) (nel : Z) : CM (Z * Z) :=
  mret (0, if role_flavor d =? ROLE_ATTRIB then u32 (nel - 1) else nel).
Definition count_types (p : policydb) (t : table_of type_datum) (nel : Z) : CM Z :=
  if kern p && (policyvers p <? POLICYDB_VERSION_BOUNDARY) then snd <$> hashtab_map t type_attr_uncount nel else mret nel.
Definition count_roles (p : policydb) (t : table_of role_datum) (nel : Z) : CM Z :=
  if kern p || negb (kern p) && (policyvers p <? MOD_POLICYDB_VERSION_ROLEATTRIB)
  then snd <$> hashtab_map t role_attr_uncount nel else mret nel.
Definition count_all {D} (t : table_of D) (nel : Z) : CM Z := mret nel.

#[export] Instance perm_io p commons : SymbolIO p commons Z := {|
  sym_read := perm_read; sym_write := perm_write; sym_count := count_all |}.
#[export] Instance common_io p commons : SymbolIO p commons common_datum := {|
  sym_read := common_read; sym_write := common_write; sym_count := count_all |}.
#[export] Instance class_io p commons : SymbolIO p commons class_datum := {|
  sym_read := class_read p commons; sym_write := class_write p; sym_count := count_all |}.
#[export] Instance role_io p commons : SymbolIO p commons role_datum := {|
  sym_read := role_read p; sym_write := role_write p; sym_count := count_roles p |}.
#[export] Instance type_io p commons : SymbolIO p commons type_datum := {|
  sym_read := type_read p; sym_write := type_write p; sym_count := count_types p |}.
#[export] Instance user_io p commons : SymbolIO p commons user_datum := {|
  sym_read := user_read p; sym_write := user_write p; sym_count := count_all |}.
#[export] Instance bool_io p commons : SymbolIO p commons cond_bool_datum := {|
  sym_read := cond_read_bool p; sym_write := cond_write_bool p; sym_count := count_all |}.
#[export] Instance sens_io p commons : SymbolIO p commons level_datum := {|
  sym_read := sens_read; sym_write := sens_write; sym_count := count_all |}.
#[export] Instance cat_io p commons : SymbolIO p commons cat_datum := {|
  sym_read := cat_read; sym_write := cat_write; sym_count := count_all |}.

(** one round of the loop over the symbol tables in [policydb_read] and in
    [avrule_decl_read] *)
Definition symtab_read {D} p commons `{SymbolIO p commons D} (s : symtab D) : Reader (symtab D) :=
  buf ← or_fail (-1) (get_entry 8);
  t ← times (le_to_cpu 4 buf 1) (sym_read p commons) (table s);
  mret (Symtab t (le_to_cpu 4 buf 0)).
(** one round of the loop in [policydb_write] *)
Definition symtab_write {D} p commons `{SymbolIO p commons D} (s : symtab D) : Writer := λ fp,
  match table s with
  | None => undefined
  | Some t =>
      mbind (M := CM) (λ n, (put_words [nprim s; n];;; hashtab_map (Some t) (sym_write p commons);;; done) fp)
        (sym_count p commons (Some t) (nel t))
  end.
(** one round of the loop in [avrule_decl_write] *)
Definition decl_symtab_write {D} p commons `{SymbolIO p commons D} (s : symtab D) : Writer :=
  match table s with
  | None => λ _, undefined
  | Some t => put_words [nprim s; nel t];;; hashtab_map (Some t) (sym_write p commons);;; done
  end.
End io.

(** ** Theory: tables *)

Section theory.
Context `{Target}.
Implicit Types (p : policydb) (k : string) (h : heap).

Lemma put_name32_eq k : Z.of_nat (String.length k) < 2 ^ 32 → put_name32 k = put_name k.
Proof. intros Hk. unfold put_name32, put_name. by rewrite (wrap_id 32 : ∀ a, _ → u32 a = a) by lia. Qed.

(** a table is determined by its size and its map *)
Section canonical.
Context {D : Type}.
Implicit Types (t : hashtab string D).

#[local] Instance key_before_antisymm : AntiSymm (=) (key_before (K := string) (D := D)).
Proof. intros a b Hab Hba. unfold key_before in *. apply keycmp_swap in Hab. lia. Qed.
Lemma chain_entries t i c kd :
  hashtab_ok t → htable t !! i = Some c → kd ∈ c ↔ kd ∈ entries t ∧ hash_value (size t) kd.1 = Z.of_nat i.
Proof.
  intros Hok Hc. split.
  - intros Hin. split; [|by eapply (ok_hash t Hok)]. apply list_elem_of_In, in_concat. exists c.
    split; apply list_elem_of_In; [by eapply list_elem_of_lookup_2|done].
  - intros [Hin Hi]. apply list_elem_of_In, in_concat in Hin as (c'&Hc'&Hin). apply list_elem_of_In, list_elem_of_lookup in Hc' as [j Hj].
    apply list_elem_of_In in Hin. pose proof (ok_hash t Hok j c' kd Hj Hin). assert (j = i) as -> by lia. by simplify_eq.
Qed.
Lemma hashtab_canonical t1 t2 :
  hashtab_wf t1 → hashtab_wf t2 → size t1 = size t2 → hashtab_map_of t1 = hashtab_map_of t2 → t1 = t2.
Proof.
  intros [H1 Hn1] [H2 Hn2] Hs Hm.
  assert (Hin : ∀ kd, kd ∈ entries t1 ↔ kd ∈ entries t2).
  { intros [k d]. by rewrite <- !map_of_lookup, Hm by done. }
  assert (htable t1 = htable t2) as Ht.
  { apply list_eq_same_length with (length (htable t1)); [|done|].
    - pose proof (ok_slots t1 H1). pose proof (ok_slots t2 H2). lia.
    - intros i c1 c2 _ Hc1 Hc2. apply (StronglySorted_unique key_before); [by apply (ok_sorted t1 H1 i)|by apply (ok_sorted t2 H2 i)|].
      apply NoDup_Permutation; [by eapply NoDup_fmap_1, sorted_keys_NoDup, (ok_sorted t1 H1 i)|by eapply NoDup_fmap_1, sorted_keys_NoDup, (ok_sorted t2 H2 i)|]. intros kd.
      rewrite (chain_entries t1 i c1), (chain_entries t2 i c2) by done. by rewrite Hin, Hs. }
  destruct t1 as [l1 s1 n1], t2 as [l2 s2 n2]; cbn in *. subst. unfold entries; cbn. done.
Qed.
End canonical.

Lemma NoDup_filter_keys {D} (P : string * D → Prop) `{∀ x, Decision (P x)} (l : list (string * D)) :
  NoDup l.*1 → NoDup (filter P l).*1.
Proof.
  induction l as [|x l IH]; [done|]. intros [Hx Hl]%NoDup_cons. rewrite filter_cons. destruct (decide (P x)); [|by apply IH].
  apply NoDup_cons. split; [|by apply IH]. intros Hin. apply Hx. apply list_elem_of_fmap in Hin as (y&Hy&Hin).
  apply list_elem_of_filter in Hin as [_ Hin]. rewrite Hy. by apply list_elem_of_fmap_2.
Qed.
(** a table with [sz] slots and the map [m] *)
Definition holds {D} (sz : Z) (t : table_of D) (m : gmap string D) : Prop :=
  ∃ t0, t = Some t0 ∧ hashtab_wf t0 ∧ size t0 = sz ∧ hashtab_map_of t0 = m.
Lemma holds_unique {D} sz (t1 t2 : table_of D) m : holds sz t1 m → holds sz t2 m → t1 = t2.
Proof. intros (a&->&Ha&Hsa&Hma) (b&->&Hb&Hsb&Hmb). f_equal. apply hashtab_canonical; congruence. Qed.
Lemma hashtab_insert_size {D} (t : hashtab string D) k (d : D) h rc t' h' :
  hashtab_insert (Some t) k d h = Some ((rc, Some t'), h') → size t' = size t.
Proof.
  unfold hashtab_insert, mbind, CM_bind. destruct (deref _ h) as [[c h1]|]; [|done]. destruct (chain_walk k c) as [b cur].
  destruct (at_key k cur); [by intros [= _ ->]|]. destruct (malloc h1) as [[[a|] h2]|]; [|by intros [= _ ->]|done]. by intros [= _ <-].
Qed.
Lemma insert_holds {D} sz (t : table_of D) m k (d : D) h rc t' h' :
  holds sz t m → m !! k = None → hashtab_insert t k d h = Some ((rc, t'), h') →
  mem_step h h' (rc = 0) ∧ (rc = 0 → holds sz t' (<[k := d]> m)).
Proof.
  intros (t0&->&[Hok Hn]&Hs&Hm) Hk Hrun.
  destruct (wp_run _ _ _ (hashtab_insert_wp t0 k d h Hok)) as ([rc2 t2]&h2&Hrun2&Hst&Hpost).
  rewrite Hrun in Hrun2. injection Hrun2 as <- <- <-. rewrite Hm, Hk in Hpost. split.
  - eapply mem_step_mono, Hst. intros Hrc. destruct Hpost as [(t1&->&_)|[-> _]]; [done|by destruct Hrc].
  - intros ->. destruct Hpost as [(t1&_&->&Hok1&Hn1&Hp&Hm1)|[Hrc _]]; [|done].
    exists t1. split; [done|]. split; [|split; [rewrite <- Hs; by eapply hashtab_insert_size|by rewrite Hm1]].
    split; [done|]. rewrite Hn1, Hn, (Permutation_length Hp). cbn [length]. rewrite u32_add_u32. f_equal. lia.
Qed.
Lemma insert_reads {D} sz (t : table_of D) m k (d : D) :
  holds sz t m → m !! k = None → reads (insert_symbol t k d) [] (λ t', holds sz t' (<[k := d]> m)).
Proof.
  intros Ht Hk. apply reads_or_fail; [done|]. apply reads_lift. intros h.
  destruct Ht as (t0&->&Hrest). destruct (wp_run _ _ _ (hashtab_insert_wp t0 k d h (proj1 (proj1 Hrest)))) as ([rc t']&h'&Hrun&_).
  unfold wp. rewrite Hrun. eapply insert_holds; [by exists t0|done|exact Hrun].
Qed.

(** ** Theory: what a kind of symbol promises *)

(** The bytes of an entry, what the format can hold, which data are not
    written, which keys the reader leaves to the table, and what is left of a
    datum. *)
Class SymbolIOLaws (p : policydb) (commons : table_of common_datum) (D : Type) `{SymbolIO p commons D} := {
  sym_bytes : string → D → list byte;
  sym_storable : string → D → Prop;
  sym_skipped : D → bool;
  sym_reserved : string → bool;
  sym_kept : D → D;
  sym_writes k d : sym_storable k d → writes (sym_write p commons k d) (if sym_skipped d then [] else sym_bytes k d);
  sym_reads sz t m k d : sym_storable k d → sym_skipped d = false → holds sz t m → (sym_reserved k = false → m !! k = None) →
    reads (sym_read p commons t) (sym_bytes k d) (λ t', holds sz t' (if sym_reserved k then m else <[k := sym_kept d]> m));
  sym_counts t h : hashtab_wf t →
    sym_count p commons (Some t) (nel t) h = Some (u32 (length (filter (λ kd, sym_skipped kd.2 = false) (entries t))), h)
}.
#[global] Arguments sym_bytes p commons {D _ _}.
#[global] Arguments sym_storable p commons {D _ _}.
#[global] Arguments sym_skipped p commons {D _ _}.
#[global] Arguments sym_reserved p commons {D _ _}.
#[global] Arguments sym_kept p commons {D _ _}.

Section tables.
Context {D : Type} (p : policydb) (commons : table_of common_datum) `{SymbolIOLaws p commons D}.
Implicit Types (t : hashtab string D) (s : symtab D) (l : list (string * D)).

Abbreviation written l := (filter (λ kd, sym_skipped p commons kd.2 = false) l).
Abbreviation bytes kd := (sym_bytes p commons kd.1 kd.2).
Lemma map_writes t :
  (∀ k d, (k, d) ∈ entries t → sym_storable p commons k d) →
  writes (hashtab_map (Some t) (sym_write p commons)) (written (entries t) ≫= λ kd, bytes kd).
Proof.
  intros Hst out room h Hr.
  set (put l := mem_output (out ++ (written l ≫= λ kd, bytes kd)) (room - length (written l ≫= λ kd, bytes kd))).
  enough (Hwp : wp (hashtab_map (Some t) (sym_write p commons) (mem_output out room)) (λ '(rc, fp) h', rc = 0 ∧ h' = h ∧ fp = put (entries t)) h).
  { by destruct (wp_run _ _ _ Hwp) as ([rc fp]&h'&Hrun&->&->&->). }
  apply (hashtab_map_wp _ _ (λ l1 fp h', h' = h ∧ fp = put l1));
    [split; [done|unfold put; cbn; by rewrite app_nil_r, Z.sub_0_r]| |by intros args h' [-> ->]].
  intros k d l1 l2 fp h' Hl [-> ->]. change (entries t = l1 ++ (k, d) :: l2) in Hl. unfold wp.
  assert (Hin : (k, d) ∈ entries t) by (rewrite Hl; apply elem_of_app; right; by left).
  rewrite Hl, filter_app, bind_app, length_app, filter_cons in Hr. unfold put.
  rewrite filter_app, filter_cons, filter_nil, bind_app. cbn [snd] in *.
  pose proof (sym_writes k d (Hst k d Hin)) as Hw. destruct (sym_skipped p commons d) eqn:E.
  - rewrite decide_False by done. cbn [mbind list_bind]. rewrite app_nil_r. rewrite Hw by (cbn; lia). cbn [truth Z.eqb negb].
    split; [done|]. by rewrite app_nil_r, Z.sub_0_r.
  - rewrite decide_True in * by done. rewrite bind_cons, length_app in Hr. cbn [mbind list_bind fst snd] in *. rewrite app_nil_r.
    rewrite Hw by lia. cbn [truth Z.eqb negb]. split; [done|]. rewrite length_app, app_assoc. f_equal. lia.
Qed.

(** the map that is read *)
Definition kept_map l : gmap string D :=
  list_to_map (prod_map id (sym_kept p commons) <$> filter (λ kd, sym_reserved p commons kd.1 = false) l).
Lemma kept_map_snoc l k d :
  k ∉ l.*1 → kept_map (l ++ [(k, d)]) = if sym_reserved p commons k then kept_map l else <[k := sym_kept p commons d]> (kept_map l).
Proof.
  intros Hk. unfold kept_map. rewrite filter_app, filter_cons, filter_nil. cbn [fst].
  destruct (sym_reserved p commons k); [by rewrite decide_False, app_nil_r by done|].
  rewrite decide_True, fmap_app by done. apply list_to_map_snoc. intros (kd&Hkd&Hin)%list_elem_of_fmap.
  apply list_elem_of_fmap in Hin as (kd'&->&Hin). apply list_elem_of_filter in Hin as [_ Hin]. apply Hk. subst.
  apply list_elem_of_fmap. by exists kd'.
Qed.
Lemma entries_read sz (t0 : table_of D) m0 l n :
  n = Z.of_nat (length (written l)) → NoDup l.*1 → (∀ k d, (k, d) ∈ l → sym_storable p commons k d) → holds sz t0 m0 →
  (∀ k d, (k, d) ∈ l → sym_skipped p commons d = false → sym_reserved p commons k = false → m0 !! k = None) →
  reads (times n (sym_read p commons) t0) (written l ≫= λ kd, bytes kd) (λ u, holds sz u (kept_map (written l) ∪ m0)).
Proof.
  intros Hn Hnd Hst Ht Hfresh.
  apply (reads_times _ _ _ _ (λ l1 u, holds sz u (kept_map l1 ∪ m0))); [done|change (holds sz t0 (∅ ∪ m0)); by rewrite map_empty_union|].
  intros [k d] l1 l2 u Hl Hu.
  assert (Hin : (k, d) ∈ written l) by (rewrite Hl; apply elem_of_app; right; by left).
  apply list_elem_of_filter in Hin as [Hsk Hin]. cbn [fst snd] in *.
  assert (Hk : k ∉ l1.*1).
  { assert (Hnd' : NoDup (written l).*1) by (by apply NoDup_filter_keys).
    rewrite Hl, fmap_app in Hnd'. apply NoDup_app in Hnd' as (_&Hd&_). intros Hk. apply (Hd k Hk). by left. }
  rewrite kept_map_snoc by done.
  assert (Hno : sym_reserved p commons k = false → (kept_map l1 ∪ m0) !! k = None).
  { intros Hr. apply lookup_union_None. split; [|by eapply Hfresh]. unfold kept_map. apply not_elem_of_list_to_map. intros (kd&->&Hkd)%list_elem_of_fmap.
    apply list_elem_of_fmap in Hkd as (kd'&->&Hkd). apply list_elem_of_filter in Hkd as [_ Hkd]. apply Hk. apply list_elem_of_fmap. by exists kd'. }
  eapply reads_mono; [apply sym_reads; [by apply Hst|done|exact Hu|done]|]. intros u2 Hu2. destruct (sym_reserved p commons k); [done|]. by rewrite <- insert_union_l.
Qed.

(** what is left of the map of a table *)
Definition map_kept (m : gmap string D) : gmap string D :=
  sym_kept p commons <$> filter (λ kd, sym_skipped p commons kd.2 = false ∧ sym_reserved p commons kd.1 = false) m.
Lemma kept_map_of t : hashtab_ok t → kept_map (written (entries t)) = map_kept (hashtab_map_of t).
Proof.
  intros Hok. unfold kept_map, map_kept. rewrite list_to_map_fmap. f_equal. apply map_eq. intros k. apply option_eq. intros d.
  rewrite map_lookup_filter_Some, map_of_lookup by done. cbn [fst snd].
  rewrite <- elem_of_list_to_map; [|by do 2 apply NoDup_filter_keys; apply entries_NoDup].
  rewrite !list_elem_of_filter. cbn [fst snd]. tauto.
Qed.

(** what [policydb_write] writes of a table, [policydb_read] adds to a table
    with other keys *)
Lemma symtab_round_trip s t s0 sz m0 :
  table s = Some t → hashtab_wf t → word (nprim s) → Z.of_nat (length (entries t)) < 2 ^ 32 →
  (∀ k d, (k, d) ∈ entries t → sym_storable p commons k d) → holds sz (table s0) m0 →
  (∀ k d, (k, d) ∈ entries t → sym_skipped p commons d = false → sym_reserved p commons k = false → m0 !! k = None) →
  round_trip (symtab_write p commons s) (symtab_read p commons s0)
    (λ s', nprim s' = nprim s ∧ holds sz (table s') (map_kept (hashtab_map_of t) ∪ m0)).
Proof.
  intros Hs Ht Hp Hlen Hst Hs0 Hfresh. set (n := length (written (entries t))).
  assert (Hn : word n). { split; [lia|]. pose proof (length_filter (λ kd, sym_skipped p commons kd.2 = false) (entries t)). lia. }
  exists (cpu_to_le 4 [nprim s; Z.of_nat n] ++ (written (entries t) ≫= λ kd, bytes kd) ++ []). split.
  - intros out room h Hr. unfold symtab_write. rewrite Hs. eapply bind_run; [by apply sym_counts|]. fold n. unfold u32. rewrite wrap_id by done.
    by apply (writes_then _ _ _ _ (writes_words [nprim s; Z.of_nat n] ltac:(done)) (writes_then _ _ _ _ (map_writes t Hst) writes_done)).
  - eapply reads_bind; [by apply reads_words|]. intros buf ->. rewrite (le_word _ 0 (nprim s)), (le_word _ 1 n) by done.
    rewrite app_nil_r. eapply reads_bind_last.
    + eapply entries_read; [done|apply entries_NoDup, Ht|done|exact Hs0|done].
    + intros u Hu. apply reads_ret. split; [done|]. cbn [table]. by rewrite <- kept_map_of by apply Ht.
Qed.
End tables.
End theory.

(** ** Theory: the kinds of symbols *)

Section kinds.
Context `{Target}.
Implicit Types (p : policydb) (commons : table_of common_datum) (k : string).

(** names that are read back; one of 2^32 - 1 bytes is not *)
Definition key_storable k : Prop := is_c_string k ∧ Z.of_nat (String.length k) < UINT_MAX.
Lemma key_word k : key_storable k → word (strlen_of k).
Proof. intros [_ Hk]. unfold UINT_MAX in Hk. unfold word, strlen_of. lia. Qed.
Lemma key_reads k len : key_storable k → len = strlen_of k → reads (read_key len) (String.list_byte_of_string k) (λ k', k' = k).
Proof.
  intros [Hc Hk] ->. unfold UINT_MAX in Hk. apply reads_name; [done|done|]. unfold strlen_of, szt. pose proof size_t_ge.
  rewrite wrap_id; [lia|]. split; [lia|]. apply Z.lt_le_trans with (2 ^ 32); [lia|]. by apply Z.pow_le_mono_r.
Qed.
Lemma key32_reads k len : key_storable k → len = strlen_of k → reads (read_key32 len) (String.list_byte_of_string k) (λ k', k' = k).
Proof.
  intros [Hc Hk] ->. unfold UINT_MAX in Hk. apply reads_name; [done|done|]. unfold strlen_of, u32. rewrite wrap_id; lia.
Qed.
Lemma key_writes k : key_storable k → writes (put_name k) (String.list_byte_of_string k).
Proof. intros [_ Hk]. unfold UINT_MAX in Hk. apply writes_name. lia. Qed.
Lemma key32_writes k : key_storable k → writes (put_name32 k) (String.list_byte_of_string k).
Proof. intros Hk. rewrite put_name32_eq; [by apply key_writes|]. destruct Hk as [_ Hk]. unfold UINT_MAX in Hk. lia. Qed.

(** the steps of the readers *)
Ltac rd_new := eapply reads_bind_nil; [by apply reads_new|intros _ _].
Ltac rd_words buf := eapply reads_bind; [by apply reads_words|intros buf ->].
Ltac rd_key := eapply reads_bind; [by apply key_reads|intros ? ->].
Ltac rd_key32 := eapply reads_bind; [by apply key32_reads|intros ? ->].

Lemma written_all {D} (l : list (string * D)) : filter (λ kd, false = false) l = l.
Proof. induction l as [|x l IH]; [done|]. by rewrite filter_cons, decide_True, IH. Qed.
Lemma count_all_eq {D} (t : hashtab string D) h : hashtab_wf t →
  count_all (Some t) (nel t) h = Some (u32 (length (filter (λ kd : string * D, false = false) (entries t))), h).
Proof. intros [_ Hn]. rewrite written_all. unfold count_all. by rewrite Hn. Qed.

(** *** Permissions *)

Definition perm_bytes k (d : Z) : list byte := cpu_to_le 4 [strlen_of k; d] ++ String.list_byte_of_string k.
Definition perm_storable k (d : Z) : Prop := key_storable k ∧ word d.
Lemma perm_writes k d : perm_storable k d → writes (perm_write k d) (perm_bytes k d).
Proof. intros [Hk Hd]. apply writes_then; [by apply writes_words|by apply key_writes]. Qed.
Lemma perm_reads sz t m k d :
  perm_storable k d → holds sz t m → m !! k = None → reads (perm_read t) (perm_bytes k d) (λ t', holds sz t' (<[k := d]> m)).
Proof.
  intros [Hk Hd] Ht Hm. pose proof (key_word k Hk). rd_new. rd_words buf.
  rewrite (le_word _ 0 (strlen_of k)), (le_word _ 1 d) by done. eapply reads_bind_last; [by apply key_reads|]. intros ? ->.
  by apply insert_reads.
Qed.
#[export] Instance perm_laws p commons : SymbolIOLaws p commons Z := {|
  sym_bytes := perm_bytes; sym_storable := perm_storable; sym_skipped _ := false; sym_reserved _ := false; sym_kept d := d;
  sym_writes := perm_writes;
  sym_reads sz t m k d Hst _ Ht Hm := perm_reads sz t m k d Hst Ht (Hm eq_refl);
  sym_counts := count_all_eq |}.

(** a table of permissions as [symtab_init] makes it *)
Record perms_storable (s : symtab Z) (t : hashtab string Z) : Prop := {
  ps_table : table s = Some t;
  ps_wf : hashtab_wf t;
  ps_size : size t = PERM_SYMTAB_SIZE;
  ps_nprim : word (nprim s);
  ps_length : Z.of_nat (length (entries t)) < 2 ^ 32;
  ps_entries k d : (k, d) ∈ entries t → perm_storable k d
}.
Abbreviation perms_bytes t := (entries t ≫= λ kd : string * Z, perm_bytes kd.1 kd.2).
Lemma perms_nel s t : perms_storable s t → nel t = Z.of_nat (length (entries t)) ∧ word (nel t).
Proof. intros [_ [_ Hn] _ _ Hl _]. rewrite Hn. unfold u32, word. rewrite wrap_id by lia. lia. Qed.
Lemma perms_write s t : perms_storable s t → writes (hashtab_map (Some t) perm_write) (perms_bytes t).
Proof.
  intros Hs. pose proof (map_writes empty_policydb None t) as Hw. cbn -[perm_bytes] in Hw. rewrite written_all in Hw. apply Hw. intros k d. by apply (ps_entries _ _ Hs).
Qed.
Lemma perms_read s t u :
  perms_storable s t → holds PERM_SYMTAB_SIZE u ∅ → reads (times (nel t) perm_read u) (perms_bytes t) (λ u', u' = Some t).
Proof.
  intros Hs Hu. destruct (perms_nel s t Hs) as [Hn _]. destruct Hs as [_ Hwf Hsz _ _ He]. destruct (Hwf) as [Hok _].
  pose proof (entries_read empty_policydb None (D := Z) PERM_SYMTAB_SIZE u ∅ (entries t) (nel t)) as Hr. cbn -[perm_bytes] in Hr.
  pose proof (kept_map_of empty_policydb None t Hok) as Hk. cbn -[perm_bytes] in Hk. rewrite written_all in *.
  eapply reads_mono; [apply Hr; [done|by apply entries_NoDup|exact He|done|done]|]. intros u' Hu'. rewrite map_union_empty, Hk in Hu'.
  replace (map_kept _ _ _) with (hashtab_map_of t) in Hu'.
  - eapply holds_unique; [exact Hu'|]. by exists t.
  - symmetry. unfold map_kept. cbn. rewrite map_fmap_id. by apply map_filter_id.
Qed.
Lemma new_permissions_reads : reads new_permissions [] (λ s, holds PERM_SYMTAB_SIZE (table s) ∅).
Proof.
  apply reads_or_fail; [done|]. apply reads_lift. intros h. unfold symtab_init, hashtab_create. apply wp_bind.
  wp_malloc a h1 Hm1; [|apply wp_ret, wp_ret; split; [|done]; by eapply mem_step_mono, Hm1].
  wp_malloc b h2 Hm2; apply wp_ret, wp_ret.
  - split; [mem|]. intros _. eexists. split; [done|]. split; [by apply hashtab_empty_wf|]. split; [done|apply hashtab_empty_map].
  - split; [mem|done].
Qed.

(** *** Commons and classes *)

Definition common_bytes k (d : common_datum) (t : hashtab string Z) : list byte :=
  cpu_to_le 4 [strlen_of k; common_value d; nprim (common_permissions d); nel t] ++ String.list_byte_of_string k ++ perms_bytes t ++ [].
Definition table_or_empty (s : symtab Z) : hashtab string Z := default (Hashtab [] 0 0) (table s).
Definition common_storable k (d : common_datum) : Prop :=
  key_storable k ∧ word (common_value d) ∧ perms_storable (common_permissions d) (table_or_empty (common_permissions d)).
Lemma symtab_table {D} (s : symtab D) t : table s = Some t → s = Symtab (Some t) (nprim s).
Proof. by destruct s; intros [= ->]. Qed.
Lemma common_writes k d : common_storable k d → writes (common_write k d) (common_bytes k d (table_or_empty (common_permissions d))).
Proof.
  intros (Hk&Hv&Hp). unfold common_write. rewrite (ps_table _ _ Hp). set (t := table_or_empty _) in *.
  apply writes_then; [by apply writes_words|]. apply writes_then; [by apply key_writes|].
  apply writes_then; [by eapply perms_write|apply writes_done].
Qed.
Lemma common_reads sz t m k d :
  common_storable k d → holds sz t m → m !! k = None →
  reads (common_read t) (common_bytes k d (table_or_empty (common_permissions d))) (λ t', holds sz t' (<[k := d]> m)).
Proof.
  intros (Hk&Hv&Hp) Ht Hm. pose proof (key_word k Hk). destruct (perms_nel _ _ Hp) as [_ Hnel]. pose proof (ps_nprim _ _ Hp) as Hnp.
  rd_new. rd_words buf. eapply reads_bind_nil; [apply new_permissions_reads|]. intros s Hs.
  rewrite (le_word _ 0 (strlen_of k)), (le_word _ 1 (common_value d)), (le_word _ 2 (nprim (common_permissions d))),
    (le_word _ 3 (nel (table_or_empty (common_permissions d)))) by done.
  rd_key. eapply reads_bind; [by eapply perms_read|]. intros u ->. replace (CommonDatum _ _) with d; [by apply insert_reads|].
  destruct d as [v s']. cbn in *. f_equal. apply symtab_table, (ps_table _ _ Hp).
Qed.
#[export] Instance common_laws p commons : SymbolIOLaws p commons common_datum := {|
  sym_bytes k d := common_bytes k d (table_or_empty (common_permissions d)); sym_storable := common_storable;
  sym_skipped _ := false; sym_reserved _ := false; sym_kept d := d;
  sym_writes := common_writes;
  sym_reads sz t m k d Hst _ Ht Hm := common_reads sz t m k d Hst Ht (Hm eq_refl);
  sym_counts := count_all_eq |}.

(** the common of a class: a name that is not empty, found in the table *)
Definition comkey_storable commons (d : class_datum) : Prop :=
  match class_comkey d with
  | Some ck => key_storable ck ∧ ck ≠ EmptyString ∧ is_Some (class_comdatum d) ∧ table_map commons !! ck = class_comdatum d
  | None => class_comdatum d = None
  end.
Definition constraints_storable p (allowx : bool) (cs : list constraint_node) : Prop :=
  word (length cs) ∧ Forall (constraint_storable p allowx) cs.
Record class_storable p commons k (d : class_datum) : Prop := {
  ls_commons : table_ok commons;
  ls_key : key_storable k;
  ls_comkey : comkey_storable commons d;
  ls_permissions : perms_storable (class_permissions d) (table_or_empty (class_permissions d));
  ls_value : word (class_value d);
  ls_constraints : constraints_storable p false (class_constraints d);
  ls_validatetrans : constraints_storable p true (class_validatetrans d);
  ls_defaults : word (default_user d) ∧ word (default_role d) ∧ word (default_range d) ∧ word (default_type d)
}.
Definition class_kept p (d : class_datum) : class_datum :=
  ClassDatum (class_value d) (class_comkey d) (class_comdatum d) (class_permissions d) (class_constraints d)
    (if has_validatetrans p then class_validatetrans d else [])
    (if has_object_defaults p then default_user d else 0) (if has_object_defaults p then default_role d else 0)
    (if has_default_type p then default_type d else 0) (if has_object_defaults p then default_range d else 0).
Abbreviation constraints_bytes p cs := (cs ≫= constraint_bytes p).
Definition class_bytes p k (d : class_datum) : list byte :=
  let t := table_or_empty (class_permissions d) in
  cpu_to_le 4 [strlen_of k; strlen_of (default EmptyString (class_comkey d)); class_value d; nprim (class_permissions d); nel t;
               Z.of_nat (length (class_constraints d))] ++
  String.list_byte_of_string k ++
  (match class_comkey d with Some ck => String.list_byte_of_string ck | None => [] end) ++
  perms_bytes t ++
  constraints_bytes p (class_constraints d) ++
  (if has_validatetrans p then cpu_to_le 4 [Z.of_nat (length (class_validatetrans d))] ++ constraints_bytes p (class_validatetrans d) else []) ++
  (if has_object_defaults p then cpu_to_le 4 [default_user d; default_role d; default_range d] else []) ++
  (if has_default_type p then cpu_to_le 4 [default_type d] else []) ++ [].

Lemma cons_writes p allowx cs : constraints_storable p allowx cs → writes (write_cons_helper p cs allowx) (constraints_bytes p cs).
Proof. intros [_ Hcs]. by apply constraints_io. Qed.
Lemma cons_reads p allowx cs :
  constraints_storable p allowx cs → reads (or_fail (-1) (read_cons_helper p (length cs) allowx)) (constraints_bytes p cs) (λ cs', cs' = cs).
Proof. intros [_ Hcs]. apply reads_or_fail; [done|]. by apply constraints_io. Qed.
Lemma class_writes p commons k d : class_storable p commons k d → writes (class_write p k d) (class_bytes p k d).
Proof.
  intros [_ Hk Hck Hp Hv [Hlc Hc] [Hlt Ht] Hd]. unfold class_write, class_bytes. rewrite (ps_table _ _ Hp). set (t := table_or_empty _) in *. cbv zeta.
  unfold u32. rewrite !wrap_id by done.
  apply writes_then; [by apply writes_words|]. apply writes_then; [by apply key_writes|].
  apply writes_then. { unfold comkey_storable in Hck. destruct (class_comkey d); [apply key_writes, Hck|apply writes_done]. }
  apply writes_then; [by eapply perms_write|]. apply writes_then; [by apply cons_writes|].
  apply writes_then. { destruct (has_validatetrans p); [|apply writes_done]. apply writes_then; [by apply writes_words|by apply cons_writes]. }
  apply writes_then. { destruct (has_object_defaults p); [by apply writes_words|apply writes_done]. }
  apply writes_then; [|apply writes_done]. destruct (has_default_type p); [by apply writes_words|apply writes_done].
Qed.
Lemma comkey_reads commons d :
  table_ok commons → comkey_storable commons d →
  reads (read_comkey commons (strlen_of (default EmptyString (class_comkey d))))
    (match class_comkey d with Some ck => String.list_byte_of_string ck | None => [] end) (λ r, r = (class_comkey d, class_comdatum d)).
Proof.
  intros Hok Hck. unfold comkey_storable in Hck. unfold read_comkey. destruct (class_comkey d) as [ck|]; cbn [from_option id].
  - destruct Hck as (Hk&Hne&[com Hcom]&Hl). destruct (Z.eqb_spec (strlen_of ck) 0) as [E|_]; [by destruct ck|].
    eapply reads_bind_last; [by apply key_reads|]. intros ? ->. eapply (reads_bind_nil _ _ [] (λ c, c = Some com)).
    + apply reads_total. intros h. eapply wp_mono; [by apply table_search_wp|]. intros r h' [-> ->]. rewrite Hl, Hcom. split; [by apply mem_step_refl|done].
    + intros c ->. apply reads_ret. by rewrite Hcom.
  - apply reads_ret. by rewrite Hck.
Qed.
Lemma defaults_reads p d :
  word (default_user d) ∧ word (default_role d) ∧ word (default_range d) ∧ word (default_type d) →
  reads (read_defaults p) ((if has_object_defaults p then cpu_to_le 4 [default_user d; default_role d; default_range d] else []) ++
    (if has_default_type p then cpu_to_le 4 [default_type d] else []) ++ [])
    (λ r, r = (if has_object_defaults p then default_user d else 0, if has_object_defaults p then default_role d else 0,
               if has_default_type p then default_type d else 0, if has_object_defaults p then default_range d else 0)).
Proof.
  intros (H1&H2&H3&H4). eapply (reads_bind _ _ _ _ (λ r, r = if has_object_defaults p then (default_user d, default_role d, default_range d) else (0, 0, 0))).
  - destruct (has_object_defaults p); [|by apply reads_ret]. eapply reads_bind_last; [by apply reads_words|]. intros buf ->. apply reads_ret.
    by rewrite (le_word _ 0 (default_user d)), (le_word _ 1 (default_role d)), (le_word _ 2 (default_range d)).
  - intros r ->. replace (if has_object_defaults p then _ else _) with
      (if has_object_defaults p then default_user d else 0, if has_object_defaults p then default_role d else 0, if has_object_defaults p then default_range d else 0)
      by (by destruct (has_object_defaults p)).
    eapply (reads_bind _ _ _ _ (λ r, r = if has_default_type p then default_type d else 0)); [|intros r ->; by apply reads_ret].
    destruct (has_default_type p); [|by apply reads_ret]. eapply reads_bind_last; [by apply reads_words|]. intros buf ->. apply reads_ret.
    by rewrite (le_word _ 0 (default_type d)).
Qed.
Lemma class_reads p commons sz t m k d :
  class_storable p commons k d → holds sz t m → m !! k = None →
  reads (class_read p commons t) (class_bytes p k d) (λ t', holds sz t' (<[k := class_kept p d]> m)).
Proof.
  intros [Hok Hk Hck Hp Hv Hc Hvt Hd] Ht Hm. pose proof (key_word k Hk). destruct (perms_nel _ _ Hp) as [_ Hnel]. pose proof (ps_nprim _ _ Hp) as Hnp.
  assert (Hck2 : word (strlen_of (default EmptyString (class_comkey d)))).
  { unfold comkey_storable in Hck. destruct (class_comkey d); [apply key_word, Hck|done]. }
  pose proof (proj1 Hc) as Hlc. pose proof (proj1 Hvt) as Hlv.
  unfold class_bytes. cbv zeta. set (u := table_or_empty _) in *. rd_new. rd_words buf. eapply reads_bind_nil; [apply new_permissions_reads|]. intros s Hs.
  rewrite (le_word _ 0 (strlen_of k)), (le_word _ 1 (strlen_of (default EmptyString (class_comkey d)))), (le_word _ 2 (class_value d)),
    (le_word _ 3 (nprim (class_permissions d))), (le_word _ 4 (nel u)), (le_word _ 5 (length (class_constraints d))) by done.
  rd_key. eapply reads_bind; [by apply comkey_reads|]. intros ? ->. eapply reads_bind; [by eapply perms_read|]. intros ? ->.
  eapply reads_bind; [by apply cons_reads|]. intros ? ->.
  eapply (reads_bind _ _ _ _ (λ r, r = if has_validatetrans p then class_validatetrans d else [])).
  - destruct (has_validatetrans p); [|by apply reads_ret]. rd_words buf. rewrite (le_word _ 0 (length (class_validatetrans d))) by done. by apply cons_reads.
  - intros ? ->. eapply reads_bind_last; [by apply defaults_reads|]. intros ? ->. rewrite <- (ps_table _ _ Hp).
    replace (Symtab (table (class_permissions d)) (nprim (class_permissions d))) with (class_permissions d) by (by destruct (class_permissions d)).
    by apply insert_reads.
Qed.
#[export] Instance class_laws p commons : SymbolIOLaws p commons class_datum := {|
  sym_bytes := class_bytes p; sym_storable := class_storable p commons;
  sym_skipped _ := false; sym_reserved _ := false; sym_kept := class_kept p;
  sym_writes := class_writes p commons;
  sym_reads sz t m k d Hst _ Ht Hm := class_reads p commons sz t m k d Hst Ht (Hm eq_refl);
  sym_counts := count_all_eq |}.

(** *** Roles and types *)

(** the correction of the count *)
Lemma uncount_eq {D} (P : D → bool) (apply : string → D → Z → CM (Z * Z)) (t : hashtab string D) h :
  (∀ k d n, apply k d n = mret (0, if P d then u32 (n - 1) else n)) → hashtab_wf t →
  (snd <$> hashtab_map (Some t) apply (nel t)) h = Some (u32 (length (filter (λ kd, P kd.2 = false) (entries t))), h).
Proof.
  intros Ha [_ Hn].
  set (left l := u32 (length (entries t) - length (filter (λ kd : string * D, P kd.2 = true) l))).
  assert (Hwp : wp (hashtab_map (Some t) apply (nel t)) (λ '(rc, n) h', h' = h ∧ n = left (entries t)) h).
  { apply (hashtab_map_wp _ _ (λ l1 n h', h' = h ∧ n = left l1)); [|intros k d l1 l2 n h' _ [-> ->]|by intros n h' [-> ->]].
    - split; [done|]. rewrite Hn. unfold left. by rewrite filter_nil, Z.sub_0_r.
    - rewrite Ha. apply wp_ret. cbn [truth Z.eqb negb]. split; [done|]. unfold left. rewrite filter_app, length_app, filter_cons, filter_nil. cbn [snd].
      destruct (P d).
      + rewrite decide_True by done. cbn [length]. rewrite <- (Z.add_opp_r (u32 _)), u32_add_u32. f_equal. lia.
      + rewrite decide_False by done. cbn [length]. f_equal. lia. }
  destruct (wp_run _ _ _ Hwp) as ([rc n]&h'&Hrun&->&->). eapply bind_run; [exact Hrun|]. unfold mret, CM_ret, left. cbn [snd]. do 3 f_equal.
  clear. induction (entries t) as [|x l IH]; [done|]. rewrite !filter_cons. destruct (P x.2).
  - rewrite decide_True, decide_False by done. cbn [length]. lia.
  - rewrite decide_False, decide_True by done. cbn [length]. lia.
Qed.

Definition role_bytes p k (d : role_datum) : list byte :=
  cpu_to_le 4 ([strlen_of k; role_value d] ++ if policydb_has_boundary_feature p then [role_bounds d] else []) ++
  String.list_byte_of_string k ++ ebitmap_bytes (role_dominates d) ++
  (if kern p then ebitmap_bytes (ts_types (role_types d)) else type_set_bytes (role_types d)) ++
  (if has_role_attributes p then cpu_to_le 4 [role_flavor d] ++ ebitmap_bytes (role_roles d) else []) ++ [].
Record role_storable p k (d : role_datum) : Prop := {
  rl_key : key_storable k;
  rl_object_r : k = OBJECT_R → role_value d = OBJECT_R_VAL;
  rl_words : word (role_value d) ∧ word (role_bounds d) ∧ word (role_flavor d);
  rl_dominates : ebitmap_wf (role_dominates d);
  rl_types : type_set_storable (role_types d);
  rl_roles : ebitmap_wf (role_roles d)
}.
Definition role_kept p (d : role_datum) : role_datum :=
  RoleDatum (role_value d) (role_dominates d) (if kern p then TypeSet (ts_types (role_types d)) ebitmap_init 0 else role_types d)
    ebitmap_init (if policydb_has_boundary_feature p then role_bounds d else 0)
    (if has_role_attributes p then role_flavor d else 0) (if has_role_attributes p then role_roles d else ebitmap_init).
Lemma words_writes (zs : list Z) : (length zs < 8)%nat → writes (put_words zs) (cpu_to_le 4 zs).
Proof. intros Hl. apply writes_words. lia. Qed.
Lemma role_writes p k d : role_storable p k d → writes (role_write p k d) (if role_skipped p d then [] else role_bytes p k d).
Proof.
  intros [Hk _ Hw Hd Ht Hr]. unfold role_write. destruct (role_skipped p d); [apply writes_done|].
  apply writes_then. { apply words_writes. by destruct (policydb_has_boundary_feature p); cbn; lia. }
  apply writes_then; [by apply key_writes|]. apply writes_then; [by apply writes_ebitmap|].
  apply writes_then. { destruct (kern p); [apply writes_ebitmap, Ht|by apply type_set_writes]. }
  apply writes_then; [|apply writes_done]. destruct (has_role_attributes p); [|apply writes_done].
  apply writes_then; [by apply words_writes; cbn; lia|by apply writes_ebitmap].
Qed.
Lemma role_reads p sz t m k d :
  role_storable p k d → holds sz t m → (String.eqb k OBJECT_R = false → m !! k = None) →
  reads (role_read p t) (role_bytes p k d) (λ t', holds sz t' (if String.eqb k OBJECT_R then m else <[k := role_kept p d]> m)).
Proof.
  intros [Hk Ho (Hv&Hb&Hf) Hd (Ht1&Ht2&Ht3) Hr] Ht Hm. pose proof (key_word k Hk). unfold role_bytes. rd_new.
  set (zs := [strlen_of k; role_value d] ++ _).
  eapply reads_bind; [apply reads_words; unfold zs; by destruct (policydb_has_boundary_feature p)|]. intros buf ->. cbv zeta.
  replace (if policydb_has_boundary_feature p then le_to_cpu 4 (cpu_to_le 4 zs) 2 else 0)
    with (if policydb_has_boundary_feature p then role_bounds d else 0).
  2: { unfold zs. destruct (policydb_has_boundary_feature p); [|done]. by rewrite (le_word _ 2 (role_bounds d)). }
  rewrite (le_word zs 0 (strlen_of k)), (le_word zs 1 (role_value d)) by done.
  rd_key. eapply reads_bind; [apply reads_or_fail; [done|by apply reads_ebitmap]|]. intros ? ->.
  eapply (reads_bind _ _ _ _ (λ r, r = if kern p then TypeSet (ts_types (role_types d)) ebitmap_init 0 else role_types d)).
  { destruct (kern p); [|by apply reads_or_fail; [|apply type_set_reads]].
    eapply reads_bind_last; [apply reads_or_fail; [done|by apply reads_ebitmap]|]. intros ? ->. by apply reads_ret. }
  intros ? ->. eapply (reads_bind _ _ _ _ (λ r, r = (if has_role_attributes p then role_flavor d else 0, if has_role_attributes p then role_roles d else ebitmap_init))).
  { destruct (has_role_attributes p); [|by apply reads_ret]. rd_words buf. rewrite (le_word _ 0 (role_flavor d)) by done.
    eapply reads_bind_last; [apply reads_or_fail; [done|by apply reads_ebitmap]|]. intros ? ->. by apply reads_ret. }
  intros ? ->. destruct (String.eqb_spec k OBJECT_R) as [E|_].
  - rewrite (Ho E). by apply reads_ret.
  - apply insert_reads; [done|by apply Hm].
Qed.
Lemma role_counts p (t : hashtab string role_datum) h : hashtab_wf t →
  count_roles p (Some t) (nel t) h = Some (u32 (length (filter (λ kd : string * role_datum, role_skipped p kd.2 = false) (entries t))), h).
Proof.
  intros Ht. unfold count_roles, role_skipped. destruct (kern p || negb (kern p) && (policyvers p <? MOD_POLICYDB_VERSION_ROLEATTRIB)).
  - rewrite (uncount_eq (λ d, role_flavor d =? ROLE_ATTRIB)) by done. do 4 f_equal. f_equal. apply list_filter_iff. intros kd. by rewrite andb_true_r.
  - rewrite (list_filter_iff _ (λ _, false = false)); [by apply count_all_eq|]. intros kd. by rewrite andb_false_r.
Qed.
#[export] Instance role_laws p commons : SymbolIOLaws p commons role_datum := {|
  sym_bytes := role_bytes p; sym_storable := role_storable p;
  sym_skipped := role_skipped p; sym_reserved k := String.eqb k OBJECT_R; sym_kept := role_kept p;
  sym_writes := role_writes p;
  sym_reads sz t m k d Hst _ Ht Hm := role_reads p sz t m k d Hst Ht Hm;
  sym_counts := role_counts p |}.

Definition type_kept p (d : type_datum) : type_datum :=
  if policydb_has_boundary_feature p then
    TypeDatum (type_value d)
      (if has_boundary_alias p then type_primary d else cbool (truth (type_primary d)))
      (if type_flavor d =? TYPE_ATTRIB then TYPE_ATTRIB
       else if (type_flavor d =? TYPE_ALIAS) && negb (kern p) then TYPE_ALIAS else TYPE_TYPE)
      (if kern p then ebitmap_init else type_types d)
      (if truth (Z.land (type_flags d) TYPE_FLAGS_PERMISSIVE) && negb (kern p) then TYPE_FLAGS_PERMISSIVE else 0) (type_bounds d)
  else
    TypeDatum (type_value d) (type_primary d) (if kern p then TYPE_TYPE else type_flavor d)
      (if kern p then ebitmap_init else type_types d) (if has_permissive p then type_flags d else 0) 0.
Record type_storable k (d : type_datum) : Prop := {
  tl_key : key_storable k;
  tl_words : word (type_value d) ∧ word (type_primary d) ∧ word (type_flavor d) ∧ word (type_flags d) ∧ word (type_bounds d);
  tl_types : ebitmap_wf (type_types d)
}.
Definition type_bytes p k (d : type_datum) : list byte :=
  cpu_to_le 4 ([strlen_of k; type_value d] ++ words_of_type p d) ++
  (if kern p then [] else ebitmap_bytes (type_types d)) ++ String.list_byte_of_string k ++ [].

Lemma kern_no_alias p : kern p = true → has_boundary_alias p = false ∧ has_permissive p = false.
Proof. unfold has_boundary_alias, has_permissive. by intros ->. Qed.
(** the bits of the properties are those that are read *)
Lemma type_properties_read p d :
  let r := type_properties p d in
  word r ∧ truth (Z.land r TYPEDATUM_PROPERTY_PRIMARY) = truth (type_primary d) ∧
  truth (Z.land r TYPEDATUM_PROPERTY_ATTRIBUTE) = (type_flavor d =? TYPE_ATTRIB) ∧
  truth (Z.land r TYPEDATUM_PROPERTY_ALIAS) = (type_flavor d =? TYPE_ALIAS) && negb (kern p) ∧
  truth (Z.land r TYPEDATUM_PROPERTY_PERMISSIVE) = truth (Z.land (type_flags d) TYPE_FLAGS_PERMISSIVE) && negb (kern p).
Proof.
  cbv zeta. unfold type_properties.
  assert (Hex : (type_flavor d =? TYPE_ATTRIB) && ((type_flavor d =? TYPE_ALIAS) && negb (kern p)) = false).
  { destruct (Z.eqb_spec (type_flavor d) TYPE_ATTRIB) as [->|]; [by destruct (kern p)|done]. }
  revert Hex. generalize ((type_flavor d =? TYPE_ALIAS) && negb (kern p)) (type_flavor d =? TYPE_ATTRIB)
    (truth (Z.land (type_flags d) TYPE_FLAGS_PERMISSIVE) && negb (kern p)) (truth (type_primary d)).
  intros alias attr perm primary. destruct alias, attr, perm, primary; intros [=]; (split; [split; by vm_compute|by vm_compute]).
Qed.
Lemma type_words_length p k d : type_words p = Z.of_nat (length ([strlen_of k; type_value d] ++ words_of_type p d)).
Proof.
  unfold type_words, words_of_type. destruct (kern p) eqn:E.
  - destruct (kern_no_alias p E) as [-> _]. by destruct (policydb_has_boundary_feature p).
  - by destruct (policydb_has_boundary_feature p), (has_boundary_alias p), (has_permissive p).
Qed.
Lemma type_words_read p k d :
  type_storable k d →
  let d' := type_of_words p (cpu_to_le 4 ([strlen_of k; type_value d] ++ words_of_type p d)) in
  TypeDatum (type_value d') (type_primary d') (type_flavor d') (if kern p then ebitmap_init else type_types d) (type_flags d') (type_bounds d')
  = type_kept p d.
Proof.
  intros [Hk (Hv&Hp&Hf&Hfl&Hb) _]. cbv zeta. pose proof (key_word k Hk) as Hkw. destruct (type_properties_read p d) as (Hr&H1&H2&H3&H4).
  unfold type_of_words, type_kept, words_of_type. rewrite (le_word _ 1 (type_value d)) by done.
  destruct (policydb_has_boundary_feature p) eqn:Eb.
  - destruct (has_boundary_alias p) eqn:Ea; cbn [app].
    + rewrite (le_word _ 3 (type_properties p d)), (le_word _ 2 (type_primary d)), (le_word _ 4 (type_bounds d)) by done.
      rewrite H2, H3, H4. unfold TYPE_TYPE. cbn [type_value type_primary type_flavor type_flags type_bounds]. destruct (Z.eqb_spec (type_flavor d) TYPE_ALIAS) as [E|E], (Z.eqb_spec (type_flavor d) TYPE_ATTRIB) as [E2|E2];
        [by rewrite E in E2|..]; by destruct (kern p), (truth (Z.land (type_flags d) TYPE_FLAGS_PERMISSIVE)).
    + rewrite (le_word _ 2 (type_properties p d)), (le_word _ 3 (type_bounds d)) by done. rewrite H1, H2, H3, H4. unfold TYPE_TYPE. cbn [type_value type_primary type_flavor type_flags type_bounds].
      destruct (Z.eqb_spec (type_flavor d) TYPE_ALIAS) as [E|E], (Z.eqb_spec (type_flavor d) TYPE_ATTRIB) as [E2|E2];
        [by rewrite E in E2|..]; by destruct (kern p), (truth (type_primary d)), (truth (Z.land (type_flags d) TYPE_FLAGS_PERMISSIVE)).
  - rewrite (le_word _ 2 (type_primary d)) by (done || by destruct (kern p)). cbn [app type_value type_primary type_flavor type_flags type_bounds]. destruct (kern p) eqn:E.
    + destruct (kern_no_alias p E) as [_ ->]. done.
    + cbn [app]. rewrite (le_word _ 3 (type_flavor d)) by done. destruct (has_permissive p); [|done]. by rewrite (le_word _ 4 (type_flags d)).
Qed.
Lemma type_writes p k d : type_storable k d → writes (type_write p k d) (if type_skipped p d then [] else type_bytes p k d).
Proof.
  intros [Hk Hw Ht]. unfold type_write. destruct (type_skipped p d); [apply writes_done|].
  apply writes_then.
  { apply words_writes. pose proof (type_words_length p k d) as Hl. unfold type_words in Hl. destruct (policydb_has_boundary_feature p), (has_boundary_alias p), (kern p), (has_permissive p); lia. }
  apply writes_then; [destruct (kern p); [apply writes_done|by apply writes_ebitmap]|]. apply writes_then; [by apply key_writes|apply writes_done].
Qed.
Lemma type_reads p sz t m k d :
  type_storable k d → holds sz t m → m !! k = None →
  reads (type_read p t) (type_bytes p k d) (λ t', holds sz t' (<[k := type_kept p d]> m)).
Proof.
  intros Hst Ht Hm. pose proof (type_words_read p k d Hst) as Hd. destruct Hst as [Hk Hw Hty]. pose proof (key_word k Hk).
  unfold type_bytes. rd_new. eapply reads_bind; [apply reads_words; by rewrite (type_words_length p k d)|]. intros buf ->. cbv zeta in *.
  rewrite (le_word _ 0 (strlen_of k)) by done.
  eapply (reads_bind _ _ _ _ (λ r, r = if kern p then ebitmap_init else type_types d)).
  { destruct (kern p); [by apply reads_ret|]. apply reads_or_fail; [done|by apply reads_ebitmap]. }
  intros ? ->. rd_key. rewrite Hd. by apply insert_reads.
Qed.
Lemma type_counts p (t : hashtab string type_datum) h : hashtab_wf t →
  count_types p (Some t) (nel t) h = Some (u32 (length (filter (λ kd : string * type_datum, type_skipped p kd.2 = false) (entries t))), h).
Proof.
  intros Ht. unfold count_types, type_skipped. destruct (kern p && (policyvers p <? POLICYDB_VERSION_BOUNDARY)).
  - by rewrite (uncount_eq (λ d, type_flavor d =? TYPE_ATTRIB)).
  - by apply count_all_eq.
Qed.
#[export] Instance type_laws p commons : SymbolIOLaws p commons type_datum := {|
  sym_bytes := type_bytes p; sym_storable := type_storable;
  sym_skipped := type_skipped p; sym_reserved _ := false; sym_kept := type_kept p;
  sym_writes := type_writes p;
  sym_reads sz t m k d Hst _ Ht Hm := type_reads p sz t m k d Hst Ht (Hm eq_refl);
  sym_counts := type_counts p |}.

(** *** Users *)

Definition user_storable_levels p (d : user_datum) : Prop :=
  (user_has_levels p = true → kern p = true ∧ range_storable (user_exp_range d) ∧ level_storable (user_exp_dfltlevel d)) ∧
  (user_has_semantic_levels p = true →
    semantic_level_storable (sr_low (user_range d)) ∧ semantic_level_storable (sr_high (user_range d)) ∧
    semantic_level_storable (user_dfltlevel d)).
(** modules of version 5 hold levels that are turned into semantic ones: for
    these see [mls_level_to_semantic_correct] *)
Record user_storable p k (d : user_datum) : Prop := {
  us_key : key_storable k;
  us_words : word (user_value d) ∧ word (user_bounds d);
  us_roles : role_set_storable (user_roles d);
  us_levels : user_storable_levels p d
}.
Definition user_kept p (d : user_datum) : user_datum :=
  UserDatum (user_value d) (if kern p then RoleSet (rs_roles (user_roles d)) 0 else user_roles d)
    (if user_has_semantic_levels p then SemRange (reversed (sr_low (user_range d))) (reversed (sr_high (user_range d)))
     else SemRange no_semantic_level no_semantic_level)
    (if user_has_semantic_levels p then reversed (user_dfltlevel d) else no_semantic_level)
    ebitmap_init
    (if user_has_levels p then user_exp_range d else MlsRange no_level no_level)
    (if user_has_levels p then user_exp_dfltlevel d else no_level)
    (if policydb_has_boundary_feature p then user_bounds d else 0).
Definition levels_bytes p (d : user_datum) : list byte :=
  if user_has_levels p then range_bytes (user_exp_range d) ++ level_bytes (user_exp_dfltlevel d)
  else if user_has_semantic_levels p
  then (semantic_level_bytes (sr_low (user_range d)) ++ semantic_level_bytes (sr_high (user_range d))) ++ semantic_level_bytes (user_dfltlevel d)
  else [].
Definition user_bytes p k (d : user_datum) : list byte :=
  cpu_to_le 4 ([strlen_of k; user_value d] ++ if policydb_has_boundary_feature p then [user_bounds d] else []) ++
  String.list_byte_of_string k ++
  (if kern p then ebitmap_bytes (rs_roles (user_roles d)) else role_set_bytes (user_roles d)) ++
  levels_bytes p d ++ [].
Lemma user_writes p k d : user_storable p k d → writes (user_write p k d) (user_bytes p k d).
Proof.
  intros [Hk Hw Hr [Hl Hs]]. unfold user_write, user_bytes, levels_bytes.
  apply writes_then. { apply words_writes. by destruct (policydb_has_boundary_feature p); cbn; lia. }
  apply writes_then; [by apply key_writes|].
  apply writes_then. { destruct (kern p); [apply writes_ebitmap, Hr|by apply role_set_writes]. }
  apply writes_then; [|apply writes_done]. destruct (user_has_levels p).
  - destruct Hl as (_&Hr1&Hr2); [done|]. apply writes_then; [by apply range_writes|by apply level_writes].
  - destruct (user_has_semantic_levels p); [|apply writes_done]. destruct Hs as (H1&H2&H3); [done|].
    apply writes_then; [apply writes_then|]; by apply semantic_level_writes.
Qed.
Lemma levels_kinds p : user_has_levels p = true → user_has_semantic_levels p = false.
Proof.
  unfold user_has_levels, user_has_semantic_levels, kern, is_module, POLICY_KERN, POLICY_MOD, POLICY_BASE, MOD_POLICYDB_VERSION_MLS_USERS.
  destruct (Z.eqb_spec (policy_type p) 0) as [->|]; [done|]. cbn [andb orb].
  destruct (_ || _); cbn [andb]; [|done]. intros [_ Hv]%andb_true_iff. apply Z.ltb_lt in Hv. by apply Z.leb_gt.
Qed.
Lemma levels_reads p d :
  user_storable_levels p d →
  reads (read_user_levels p) (levels_bytes p d) (λ '(r, l, sr, sl),
    let k := user_kept p d in r = user_exp_range k ∧ l = user_exp_dfltlevel k ∧ sr = user_range k ∧ sl = user_dfltlevel k).
Proof.
  intros [Hl Hs]. unfold read_user_levels, levels_bytes, user_kept. cbn [user_exp_range user_exp_dfltlevel user_range user_dfltlevel]. cbv zeta.
  destruct (user_has_levels p) eqn:E.
  - destruct Hl as (->&Hr1&Hr2); [done|]. rewrite (levels_kinds p E).
    eapply reads_bind; [apply reads_or_fail; [done|by apply range_reads]|]. intros ? ->.
    eapply reads_bind_last; [apply reads_or_fail; [done|by apply level_reads]|]. intros ? ->. by apply reads_ret.
  - destruct (user_has_semantic_levels p); [|by apply reads_ret]. destruct Hs as (H1&H2&H3); [done|].
    eapply reads_bind.
    + apply reads_or_fail; [done|]. eapply reads_bind; [by apply semantic_level_reads|]. intros ? ->.
      eapply reads_bind_last; [by apply semantic_level_reads|]. intros ? ->. apply (reads_ret _ (λ r, r = SemRange (reversed (sr_low (user_range d))) (reversed (sr_high (user_range d))))). done.
    + intros ? ->. eapply reads_bind_last; [apply reads_or_fail; [done|by apply semantic_level_reads]|]. intros ? ->. by apply reads_ret.
Qed.
Lemma user_reads p sz t m k d :
  user_storable p k d → holds sz t m → m !! k = None →
  reads (user_read p t) (user_bytes p k d) (λ t', holds sz t' (<[k := user_kept p d]> m)).
Proof.
  intros [Hk (Hv&Hb) (Hr1&Hr2) Hl] Ht Hm. pose proof (key_word k Hk). unfold user_bytes. rd_new. set (zs := [strlen_of k; user_value d] ++ _).
  eapply reads_bind; [apply reads_words; unfold zs; by destruct (policydb_has_boundary_feature p)|]. intros buf ->. cbv zeta.
  replace (if policydb_has_boundary_feature p then le_to_cpu 4 (cpu_to_le 4 zs) 2 else 0)
    with (if policydb_has_boundary_feature p then user_bounds d else 0).
  2: { unfold zs. destruct (policydb_has_boundary_feature p); [|done]. by rewrite (le_word _ 2 (user_bounds d)). }
  rewrite (le_word zs 0 (strlen_of k)), (le_word zs 1 (user_value d)) by done. rd_key.
  eapply (reads_bind _ _ _ _ (λ r, r = if kern p then RoleSet (rs_roles (user_roles d)) 0 else user_roles d)).
  { destruct (kern p); [|by apply reads_or_fail; [|apply role_set_reads]].
    eapply reads_bind_last; [apply reads_or_fail; [done|by apply reads_ebitmap]|]. intros ? ->. by apply reads_ret. }
  intros ? ->. eapply reads_bind; [by apply levels_reads|]. intros [[[r l] sr] sl] (->&->&->&->). by apply insert_reads.
Qed.
#[export] Instance user_laws p commons : SymbolIOLaws p commons user_datum := {|
  sym_bytes := user_bytes p; sym_storable := user_storable p;
  sym_skipped _ := false; sym_reserved _ := false; sym_kept := user_kept p;
  sym_writes := user_writes p;
  sym_reads sz t m k d Hst _ Ht Hm := user_reads p sz t m k d Hst Ht (Hm eq_refl);
  sym_counts := count_all_eq |}.

(** *** Booleans, sensitivities and categories *)

Definition bool_kept p (d : cond_bool_datum) : cond_bool_datum :=
  BoolDatum (bool_value d) (bool_state d) (if has_tunables p then bool_flags d else 0).
Definition bool_storable k (d : cond_bool_datum) : Prop :=
  key_storable k ∧ word (bool_value d) ∧ (bool_state d = 0 ∨ bool_state d = 1) ∧ word (bool_flags d).
Definition bool_bytes p k (d : cond_bool_datum) : list byte :=
  cpu_to_le 4 [bool_value d; bool_state d; strlen_of k] ++ String.list_byte_of_string k ++
  (if has_tunables p then cpu_to_le 4 [bool_flags d] else []) ++ [].
Lemma bool_writes p k d : bool_storable k d → writes (cond_write_bool p k d) (bool_bytes p k d).
Proof.
  intros (Hk&_). apply writes_then; [by apply words_writes; cbn; lia|]. apply writes_then; [by apply key32_writes|].
  apply writes_then; [|apply writes_done]. destruct (has_tunables p); [apply words_writes; cbn; lia|apply writes_done].
Qed.
Lemma bool_reads p sz t m k d :
  bool_storable k d → holds sz t m → m !! k = None →
  reads (cond_read_bool p t) (bool_bytes p k d) (λ t', holds sz t' (<[k := bool_kept p d]> m)).
Proof.
  intros (Hk&Hv&Hs&Hf) Ht Hm. pose proof (key_word k Hk). assert (word (bool_state d)) by (destruct Hs as [->| ->]; done).
  rd_new. rd_words buf. cbv zeta.
  rewrite (le_word _ 0 (bool_value d)), (le_word _ 1 (bool_state d)), (le_word _ 2 (strlen_of k)) by done.
  assert (bool_isvalid (BoolDatum (bool_value d) (bool_state d) 0) = true) as -> by (unfold bool_isvalid; cbn; destruct Hs as [->| ->]; done).
  cbn [negb]. rd_key32. eapply (reads_bind _ _ _ _ (λ r, r = if has_tunables p then bool_flags d else 0)).
  - destruct (has_tunables p); [|by apply reads_ret]. eapply reads_bind_last; [by apply reads_words|]. intros buf ->.
    apply reads_ret. by rewrite (le_word _ 0 (bool_flags d)).
  - intros ? ->. by apply insert_reads.
Qed.
#[export] Instance bool_laws p commons : SymbolIOLaws p commons cond_bool_datum := {|
  sym_bytes := bool_bytes p; sym_storable := bool_storable;
  sym_skipped _ := false; sym_reserved _ := false; sym_kept := bool_kept p;
  sym_writes := bool_writes p;
  sym_reads sz t m k d Hst _ Ht Hm := bool_reads p sz t m k d Hst Ht (Hm eq_refl);
  sym_counts := count_all_eq |}.

Definition sens_kept (d : level_datum) : level_datum := LevelDatum (ld_level d) (ld_isalias d) 0.
Definition sens_storable k (d : level_datum) : Prop := key_storable k ∧ word (ld_isalias d) ∧ level_storable (ld_level d).
Definition sens_bytes k (d : level_datum) : list byte :=
  cpu_to_le 4 [strlen_of k; ld_isalias d] ++ String.list_byte_of_string k ++ level_bytes (ld_level d) ++ [].
Lemma sens_writes k d : sens_storable k d → writes (sens_write k d) (sens_bytes k d).
Proof.
  intros (Hk&Ha&Hl). apply writes_then; [by apply words_writes; cbn; lia|]. apply writes_then; [by apply key_writes|].
  apply writes_then; [by apply level_writes|apply writes_done].
Qed.
Lemma sens_reads sz t m k d :
  sens_storable k d → holds sz t m → m !! k = None →
  reads (sens_read t) (sens_bytes k d) (λ t', holds sz t' (<[k := sens_kept d]> m)).
Proof.
  intros (Hk&Ha&Hl) Ht Hm. pose proof (key_word k Hk). rd_new. rd_words buf.
  rewrite (le_word _ 0 (strlen_of k)), (le_word _ 1 (ld_isalias d)) by done. rd_key32. rd_new.
  eapply reads_bind; [apply reads_or_fail; [done|by apply level_reads]|]. intros ? ->. by apply insert_reads.
Qed.
#[export] Instance sens_laws p commons : SymbolIOLaws p commons level_datum := {|
  sym_bytes := sens_bytes; sym_storable := sens_storable;
  sym_skipped _ := false; sym_reserved _ := false; sym_kept := sens_kept;
  sym_writes := sens_writes;
  sym_reads sz t m k d Hst _ Ht Hm := sens_reads sz t m k d Hst Ht (Hm eq_refl);
  sym_counts := count_all_eq |}.

Definition cat_storable k (d : cat_datum) : Prop := key_storable k ∧ word (cat_value d) ∧ word (cat_isalias d).
Definition category_bytes k (d : cat_datum) : list byte :=
  cpu_to_le 4 [strlen_of k; cat_value d; cat_isalias d] ++ String.list_byte_of_string k.
Lemma cat_writes k d : cat_storable k d → writes (cat_write k d) (category_bytes k d).
Proof. intros (Hk&_). apply writes_then; [by apply words_writes; cbn; lia|by apply key_writes]. Qed.
Lemma cat_reads sz t m k d :
  cat_storable k d → holds sz t m → m !! k = None →
  reads (cat_read t) (category_bytes k d) (λ t', holds sz t' (<[k := d]> m)).
Proof.
  intros (Hk&Hv&Ha) Ht Hm. pose proof (key_word k Hk). rd_new. rd_words buf.
  rewrite (le_word _ 0 (strlen_of k)), (le_word _ 1 (cat_value d)), (le_word _ 2 (cat_isalias d)) by done.
  eapply reads_bind_last; [by apply key32_reads|]. intros ? ->. destruct d. by apply insert_reads.
Qed.
#[export] Instance cat_laws p commons : SymbolIOLaws p commons cat_datum := {|
  sym_bytes := category_bytes; sym_storable := cat_storable;
  sym_skipped _ := false; sym_reserved _ := false; sym_kept d := d;
  sym_writes := cat_writes;
  sym_reads sz t m k d Hst _ Ht Hm := cat_reads sz t m k d Hst Ht (Hm eq_refl);
  sym_counts := count_all_eq |}.
End kinds.

(** ** Theory: any bytes *)

Section safe.
Context `{Target}.
Implicit Types (p : policydb) (commons : table_of common_datum).

Definition good {D} (t : table_of D) : Prop := ∃ t0, t = Some t0 ∧ hashtab_ok t0.
Lemma insert_checks {D} (t : table_of D) k (d : D) : good t → checks (insert_symbol t k d) good.
Proof.
  intros (t0&->&Hok). apply checks_or_fail; [done|]. apply checks_lift. intros h.
  eapply wp_mono; [by apply hashtab_insert_wp|]. intros [rc t'] h' [_ Hp] ->.
  destruct (hashtab_map_of t0 !! k); [by destruct Hp|]. destruct Hp as [(t1&_&->&Hok1&_)|[? _]]; [by exists t1|done].
Qed.
Lemma key_checks len : 0 ≤ len < 2 ^ 32 → checks (read_key len) (λ _, True).
Proof.
  intros Hl. unfold read_key, szt. pose proof size_t_ge. apply checks_name; [lia| |by apply wrap_range; lia].
  intros Hlt. unfold UINT_MAX in Hlt. rewrite wrap_id; [lia|]. split; [lia|]. apply Z.lt_le_trans with (2 ^ 32); [lia|]. by apply Z.pow_le_mono_r.
Qed.
Lemma key32_checks len : 0 ≤ len < 2 ^ 32 → checks (read_key32 len) (λ _, True).
Proof.
  intros Hl. unfold read_key32, u32. apply checks_name; [lia| |by apply wrap_range; lia].
  intros Hlt. unfold UINT_MAX in Hlt. rewrite wrap_id; lia.
Qed.
Ltac ck_new := eapply checks_bind; [by apply checks_new|intros _ _].
Ltac ck_words buf := eapply checks_bind; [by apply checks_words|intros buf _].
Ltac ck_ebitmap e := eapply checks_bind; [apply checks_or_fail; [done|apply checks_ebitmap]|intros e ?].

Lemma perm_checks t : good t → checks (perm_read t) good.
Proof. intros Ht. ck_new. ck_words buf. eapply checks_bind; [apply key_checks, le_to_cpu_range|]. intros k _. by apply insert_checks. Qed.
Lemma new_permissions_checks : checks new_permissions (λ s, good (table s)).
Proof.
  apply checks_or_fail; [done|]. apply checks_lift. intros h. unfold symtab_init, hashtab_create. apply wp_bind.
  wp_malloc a h1 Hm1; [|by apply wp_ret, wp_ret].
  wp_malloc b h2 Hm2; apply wp_ret, wp_ret; [|done]. intros _. eexists. split; [done|]. by apply hashtab_empty_wf.
Qed.
Lemma perms_checks n t : good t → checks (times n perm_read t) good.
Proof. intros Ht. apply checks_times; [done|]. intros u Hu. by apply perm_checks. Qed.
Lemma common_checks t : good t → checks (common_read t) good.
Proof.
  intros Ht. ck_new. ck_words buf. eapply checks_bind; [apply new_permissions_checks|]. intros s Hs.
  eapply checks_bind; [apply key_checks, le_to_cpu_range|]. intros k _. eapply checks_bind; [by apply perms_checks|]. intros u _. by apply insert_checks.
Qed.
Lemma cons_checks p n allowx : checks (or_fail (-1) (read_cons_helper p n allowx)) (λ _, True).
Proof. apply checks_or_fail; [done|]. by eapply checks_mono; [apply read_cons_checks|]. Qed.
Lemma optional_word b : checks (if b : bool then buf ← or_fail (-1) (get_entry 4); mret (le_to_cpu 4 buf 0) else mret 0) (λ _, True).
Proof. destruct b; [|by apply checks_ret]. ck_words buf. by apply checks_ret. Qed.
Lemma class_checks p commons t : table_ok commons → good t → checks (class_read p commons t) good.
Proof.
  intros Hc Ht. ck_new. ck_words buf. eapply checks_bind; [apply new_permissions_checks|]. intros s Hs.
  eapply checks_bind; [apply key_checks, le_to_cpu_range|]. intros k _. eapply (checks_bind _ _ (λ _, True)).
  { unfold read_comkey. destruct (_ =? 0); [by apply checks_ret|]. eapply checks_bind; [apply key_checks, le_to_cpu_range|]. intros ck _.
    eapply (checks_bind _ _ (λ _, True)); [apply checks_total; intros h; by eapply wp_mono; [apply table_search_wp|]|].
    intros [com|] _; [by apply checks_ret|by apply checks_fail]. }
  intros [ck com] _. eapply checks_bind; [by apply perms_checks|]. intros u _. eapply checks_bind; [apply cons_checks|]. intros cs _.
  eapply (checks_bind _ _ (λ _, True)). { destruct (has_validatetrans p); [|by apply checks_ret]. ck_words b2. apply cons_checks. }
  intros vt _. eapply (checks_bind _ _ (λ _, True)); [|intros [[[du dr] dt] dg] _; by apply insert_checks].
  eapply (checks_bind _ _ (λ _, True)). { destruct (has_object_defaults p); [|by apply checks_ret]. ck_words b2. by apply checks_ret. }
  intros [[du dr] dg] _. eapply checks_bind; [apply optional_word|]. intros dt _. by apply checks_ret.
Qed.
Lemma set_checks {S} (b : bool) (f : ebitmap → S) (r : Reader S) : checks r (λ _, True) →
  checks (if b then e ← or_fail (-1) get_ebitmap; mret (f e) else or_fail (-1) r) (λ _, True).
Proof. intros Hr. destruct b; [|by apply checks_or_fail]. ck_ebitmap e. by apply checks_ret. Qed.
Lemma type_set_checks_any : checks type_set_read (λ _, True).
Proof. by eapply checks_mono; [apply type_set_checks|]. Qed.
Lemma role_set_checks : checks role_set_read (λ _, True).
Proof. ck_ebitmap e. ck_words buf. by apply checks_ret. Qed.
Lemma role_checks p t : good t → checks (role_read p t) good.
Proof.
  intros Ht. ck_new. eapply checks_bind; [apply checks_words; by destruct (policydb_has_boundary_feature p)|]. intros buf _. cbv zeta.
  eapply checks_bind; [apply key_checks, le_to_cpu_range|]. intros k _. ck_ebitmap e.
  eapply checks_bind; [apply set_checks, type_set_checks_any|]. intros ts _. eapply (checks_bind _ _ (λ _, True)).
  { destruct (has_role_attributes p); [|by apply checks_ret]. ck_words b2. ck_ebitmap e2. by apply checks_ret. }
  intros [flavor roles] _. destruct (String.eqb k OBJECT_R); [|by apply insert_checks]. destruct (negb _); [by apply checks_fail|by apply checks_ret].
Qed.
Lemma type_checks p t : good t → checks (type_read p t) good.
Proof.
  intros Ht. ck_new. eapply checks_bind; [apply checks_words|].
  { unfold type_words. by destruct (policydb_has_boundary_feature p), (has_boundary_alias p), (kern p), (has_permissive p). }
  intros buf _. cbv zeta. eapply (checks_bind _ _ (λ _, True)). { destruct (kern p); [by apply checks_ret|]. apply checks_or_fail; [done|]. by eapply checks_mono; [apply checks_ebitmap|]. }
  intros ty _. eapply checks_bind; [apply key_checks, le_to_cpu_range|]. intros k _. by apply insert_checks.
Qed.
Lemma bool_checks p t : good t → checks (cond_read_bool p t) good.
Proof.
  intros Ht. ck_new. ck_words buf. cbv zeta. destruct (negb _); [by apply checks_fail|].
  eapply checks_bind; [apply key32_checks, le_to_cpu_range|]. intros k _. eapply checks_bind; [apply optional_word|]. intros f _. by apply insert_checks.
Qed.
Lemma level_checks : checks mls_read_level (λ _, True).
Proof. eapply checks_bind; [apply checks_or_fail; [done|by apply checks_entry]|]. intros buf _. eapply checks_bind; [apply checks_or_fail; [done|apply checks_ebitmap]|]. intros e _. by apply checks_ret. Qed.
Lemma sens_checks t : good t → checks (sens_read t) good.
Proof.
  intros Ht. ck_new. ck_words buf. eapply checks_bind; [apply key32_checks, le_to_cpu_range|]. intros k _. ck_new.
  eapply checks_bind; [apply checks_or_fail; [done|apply level_checks]|]. intros l _. by apply insert_checks.
Qed.
Lemma cat_checks t : good t → checks (cat_read t) good.
Proof.
  intros Ht. ck_new. ck_words buf. eapply checks_bind; [apply key32_checks, le_to_cpu_range|]. intros k _. by apply insert_checks.
Qed.
Lemma range_checks : checks mls_read_range_helper (λ _, True).
Proof.
  eapply checks_bind; [by apply checks_entry|]. intros buf _. cbv zeta. pose proof (le_to_cpu_range 4 buf 0) as Hr.
  destruct (Z.ltb_spec 2 (le_to_cpu 4 buf 0)) as [|Hle]; [by apply checks_fail|].
  eapply checks_bind; [apply checks_entry; rewrite szt_small_words; lia|]. intros buf' _.
  eapply checks_bind; [apply checks_ebitmap|]. intros low Hlow. eapply (checks_bind _ _ (λ _, True)); [|intros high _; by apply checks_ret].
  destruct (1 <? le_to_cpu 4 buf 0); [by eapply checks_mono; [apply checks_ebitmap|]|]. apply checks_lift. intros h.
  eapply wp_mono; [apply ebitmap_cpy_wp|]. by intros [rc e] h' _.
Qed.
Lemma semantic_level_checks : checks mls_read_semantic_level_helper (λ _, True).
Proof.
  eapply checks_bind; [apply checks_or_fail; [done|by apply checks_entry]|]. intros buf _.
  apply (checks_bind _ _ (λ _, True)); [|intros cats _; by apply checks_ret]. apply checks_times; [done|]. intros cats _.
  eapply checks_bind; [by apply checks_new|]. intros _ _. eapply checks_bind; [apply checks_or_fail; [done|by apply checks_entry]|].
  intros b2 _. by apply checks_ret.
Qed.
Lemma levels_checks p : (user_has_levels p = true → kern p = true) → checks (read_user_levels p) (λ _, True).
Proof.
  intros Hk. unfold read_user_levels. destruct (user_has_levels p).
  - rewrite Hk by done. eapply checks_bind; [apply checks_or_fail; [done|apply range_checks]|]. intros r _.
    eapply checks_bind; [apply checks_or_fail; [done|apply level_checks]|]. intros l _. by apply checks_ret.
  - destruct (user_has_semantic_levels p); [|by apply checks_ret]. eapply checks_bind.
    + apply checks_or_fail; [done|]. eapply checks_bind; [apply semantic_level_checks|]. intros l1 _.
      eapply checks_bind; [apply semantic_level_checks|]. intros l2 _. by apply (checks_ret _ (λ _, True)).
    + intros r _. eapply checks_bind; [apply checks_or_fail; [done|apply semantic_level_checks]|]. intros l _. by apply checks_ret.
Qed.
Lemma user_checks p t : (user_has_levels p = true → kern p = true) → good t → checks (user_read p t) good.
Proof.
  intros Hp Ht. ck_new. eapply checks_bind; [apply checks_words; by destruct (policydb_has_boundary_feature p)|]. intros buf _. cbv zeta.
  eapply checks_bind; [apply key_checks, le_to_cpu_range|]. intros k _.
  eapply checks_bind; [apply set_checks, role_set_checks|]. intros rs _. eapply checks_bind; [by apply levels_checks|].
  intros [[[r l] sr] sl] _. by apply insert_checks.
Qed.
Lemma symtab_checks {D} p commons `{SymbolIO p commons D} (s : symtab D) :
  (∀ t, good t → checks (sym_read p commons t) good) → good (table s) →
  checks (symtab_read p commons s) (λ s', good (table s')).
Proof.
  intros Hr Hs. ck_words buf. eapply checks_bind; [by apply checks_times|]. intros t Ht. by apply checks_ret.
Qed.
End safe.

(** ** Examples *)

Module ExampleSyms.
Definition policy_of (type vers : Z) : policydb :=
  Policydb type vers 0 empty_symtab empty_symtab empty_symtab empty_symtab empty_symtab empty_symtab empty_symtab
    [] [] [] [] [] [] [] [] [] [] empty_avtab empty_avtab [] [] [] [] [] [] [] (Ebitmap [] 0) [] (replicate OCON_NUM []) [].
(** a kernel policy with every feature, and a module of version 12 *)
Definition policy : policydb := policy_of POLICY_KERN 29.
Definition module : policydb := policy_of POLICY_MOD 12.
#[local] Existing Instance target_arm.
Definition inserted {D} (t : table_of D) (k : string) (d : D) : table_of D :=
  match hashtab_insert t k d fresh_heap with Some ((_, t), _) => t | None => None end.
Definition empty {D} (sz : Z) : table_of D := Some (Hashtab (replicate (Z.to_nat sz) []) sz 0).
Definition role (v flavor : Z) : role_datum :=
  RoleDatum v (Ebitmap [Node 0 1] 64) (TypeSet (Ebitmap [Node 0 6] 64) ebitmap_init 0) ebitmap_init 0 flavor ebitmap_init.
Definition object_r : symtab role_datum := Symtab (inserted (empty 16) OBJECT_R (role 1 0)) 1.
Definition roles : symtab role_datum :=
  Symtab (inserted (inserted (table object_r) "user_r" (role 2 0)) "attr_r" (role 3 1)) 3.

Lemma empty_holds {D} : holds (D := D) 16 (empty 16) ∅.
Proof. eexists. split; [done|]. split; [by apply hashtab_empty_wf|]. split; [done|apply hashtab_empty_map]. Qed.
Lemma inserted_holds {D} t m k (d : D) h' :
  holds 16 t m → m !! k = None → hashtab_insert t k d fresh_heap = Some ((0, inserted t k d), h') →
  holds 16 (inserted t k d) (<[k := d]> m).
Proof. intros Ht Hk Hi. by eapply insert_holds; [exact Ht| |exact Hi|]. Qed.
Lemma object_r_holds : holds 16 (table object_r) {[ OBJECT_R := role 1 0 ]}.
Proof. eapply inserted_holds; [apply empty_holds|done|by vm_compute]. Qed.
Lemma roles_hold : holds 16 (table roles) (<["attr_r" := role 3 1]> (<["user_r" := role 2 0]> {[ OBJECT_R := role 1 0 ]})).
Proof.
  eapply inserted_holds; [|done|by vm_compute]. eapply inserted_holds; [apply object_r_holds|done|by vm_compute].
Qed.
(** what a writer of [roles] writes, and the code of the reader *)
Definition written (w : Writer) : list byte :=
  match w (mem_output [] 1000) fresh_heap with Some ((0, fp), _) => pf_out fp | _ => [] end.
Definition read_roles (p : policydb) (bs : list byte) : option Z :=
  match symtab_read p None (Symtab (empty 16 : table_of role_datum) 0) (mem_input bs) fresh_heap with
  | Some ((inl rc, _), _) => Some rc | Some ((inr _, _), _) => Some 0 | None => None end.
Definition written_by_policy (p : policydb) : list byte := written (symtab_write p None roles).
Definition written_by_decl (p : policydb) : list byte := written (decl_symtab_write p None roles).
Definition roles_roundtrip (Q : symtab role_datum → Prop) : Prop :=
  round_trip (symtab_write policy None roles) (symtab_read policy None object_r) Q.
Lemma role_storable_example p k v flavor :
  key_storable k → (k = OBJECT_R → v = OBJECT_R_VAL) → word v → word flavor → role_storable p k (role v flavor).
Proof.
  intros Hk Ho Hv Hf. assert (Hns : ∀ z, 1 ≤ z < 16 → ebitmap_wf (Ebitmap [Node 0 z] 64)).
  { intros z Hz. split; [cbn; split_and!; try lia; by exists 0|done]. }
  split; [exact Hk|exact Ho| | | |apply ebitmap_init_wf].
  - split; [exact Hv|]. split; [split; by vm_compute|exact Hf].
  - by apply Hns.
  - split; [by apply Hns|]. split; [apply ebitmap_init_wf|split; by vm_compute].
Qed.
Lemma role_storable_all p k d :
  (<["attr_r" := role 3 1]> (<["user_r" := role 2 0]> {[ OBJECT_R := role 1 0 ]}) : gmap string role_datum) !! k = Some d → role_storable p k d.
Proof.
  intros Hk. assert (k = "attr_r"%string ∧ d = role 3 1 ∨ k = "user_r"%string ∧ d = role 2 0 ∨ k = OBJECT_R ∧ d = role 1 0) as Hkd.
  { apply lookup_insert_Some in Hk as [[<- <-]|[_ Hk]]; [by left|]. apply lookup_insert_Some in Hk as [[<- <-]|[_ Hk]]; [by right; left|].
    apply lookup_singleton_Some in Hk as [<- <-]. by right; right. }
  destruct Hkd as [[-> ->]|[[-> ->]|[-> ->]]]; (apply role_storable_example; [split; [cbn; split_and!; discriminate || exact I|by vm_compute]|
    discriminate || (intros _; reflexivity)|split; by vm_compute|split; by vm_compute]).
Qed.
End ExampleSyms.

(** ** Properties *)

(** C27: round trip of a table of symbols of any kind: what [policydb_write]
    writes, [policydb_read] adds to its table, with what the format holds of
    each symbol; entries that are not written are not counted either, and
    [object_r] is left as the table has it.  In a format that holds all of the
    data, a table read into an empty one of the same size is the same to the
    order in its chains. *)
Theorem symbols_roundtrip `{Target} {D} p commons `{SymbolIO p commons D, !SymbolIOLaws p commons D} (s s0 : symtab D) t sz m0 :
  table s = Some t → hashtab_wf t → word (nprim s) → Z.of_nat (length (entries t)) < 2 ^ 32 →
  (∀ k d, (k, d) ∈ entries t → sym_storable p commons k d) → holds sz (table s0) m0 →
  (∀ k d, (k, d) ∈ entries t → sym_skipped p commons d = false → sym_reserved p commons k = false → m0 !! k = None) →
  round_trip (symtab_write p commons s) (symtab_read p commons s0) (λ s',
    nprim s' = nprim s ∧ holds sz (table s') (map_kept p commons (hashtab_map_of t) ∪ m0) ∧
    (m0 = ∅ → size t = sz → map_kept p commons (hashtab_map_of t) = hashtab_map_of t → s' = s)).
Proof.
  intros Hs Ht Hp Hlen Hst Hs0 Hfresh.
  destruct (symtab_round_trip p commons s t s0 sz m0) as (bs&Hw&Hr); [done..|]. exists bs. split; [done|].
  eapply reads_mono; [exact Hr|]. intros s' [Hn Ht']. split; [done|]. split; [done|]. intros -> Hsz Hk.
  rewrite map_union_empty, Hk in Ht'. destruct s as [ts ns], s' as [ts' ns']. cbn in *. subst. f_equal.
  eapply holds_unique; [exact Ht'|]. by exists t.
Qed.

(** C28: on a file in memory with fewer than [2 ^ 32 - 1] bytes, whatever they
    are, the readers of symbols do nothing undefined and keep their table
    well-formed, whether they accept the file or not.  The reader of users does
    so except for the modules of the version whose levels it converts: there it
    dereferences a null pointer on some files. *)
Theorem symbols_read_safe `{Target} p commons :
  table_ok commons →
  (∀ s : symtab common_datum, good (table s) → checks (symtab_read p commons s) (λ s', good (table s'))) ∧
  (∀ s : symtab class_datum, good (table s) → checks (symtab_read p commons s) (λ s', good (table s'))) ∧
  (∀ s : symtab role_datum, good (table s) → checks (symtab_read p commons s) (λ s', good (table s'))) ∧
  (∀ s : symtab type_datum, good (table s) → checks (symtab_read p commons s) (λ s', good (table s'))) ∧
  ((user_has_levels p = true → kern p = true) →
   ∀ s : symtab user_datum, good (table s) → checks (symtab_read p commons s) (λ s', good (table s'))) ∧
  (∀ s : symtab cond_bool_datum, good (table s) → checks (symtab_read p commons s) (λ s', good (table s'))) ∧
  (∀ s : symtab level_datum, good (table s) → checks (symtab_read p commons s) (λ s', good (table s'))) ∧
  (∀ s : symtab cat_datum, good (table s) → checks (symtab_read p commons s) (λ s', good (table s'))).
Proof.
  intros Hc. split_and!; try intros Hu; intros s Hs; apply symtab_checks; try done; intros t Ht.
  - by apply common_checks.
  - by apply class_checks.
  - by apply role_checks.
  - by apply type_checks.
  - by apply user_checks.
  - by apply bool_checks.
  - by apply sens_checks.
  - by apply cat_checks.
Qed.

(** [avrule_decl_write] counts role attributes that [role_write] skips: a
    declaration with one, written for a module of version 12, cannot be read,
    while [policydb_write] corrects its count. *)
Theorem role_attributes_miscounted :
  ExampleSyms.read_roles ExampleSyms.module (ExampleSyms.written_by_policy ExampleSyms.module) = Some 0 ∧
  ExampleSyms.read_roles ExampleSyms.module (ExampleSyms.written_by_decl ExampleSyms.module) = Some (-1).
Proof. split; by vm_compute. Qed.

#[local] Existing Instance target_arm.

(** witness of C27: the attribute of a kernel policy is not written, and the
    table keeps its [object_r] *)
Lemma symbols_roundtrip_witness :
  ExampleSyms.roles_roundtrip (λ s', nprim s' = 3 ∧
    holds (H := target_arm) 16 (table s') (<["user_r" := ExampleSyms.role 2 0]> {[ OBJECT_R := ExampleSyms.role 1 0 ]})).
Proof.
  destruct ExampleSyms.roles_hold as (t&Ht&Hwf&Hsz&Hm).
  assert (Hl : (default 0%nat ((λ t, length (entries t)) <$> table ExampleSyms.roles)) = 3%nat) by (by vm_compute). rewrite Ht in Hl.
  destruct (@symbols_roundtrip target_arm role_datum ExampleSyms.policy None (@role_io target_arm _ _) _ ExampleSyms.roles ExampleSyms.object_r t 16
    {[ OBJECT_R := ExampleSyms.role 1 0 ]}) as (bs&Hw&Hr).
  - done.
  - done.
  - split; by vm_compute.
  - cbn in Hl. by rewrite Hl.
  - intros k d Hin. rewrite <- map_of_lookup in Hin by apply Hwf. rewrite Hm in Hin.
    by apply ExampleSyms.role_storable_all.
  - apply ExampleSyms.object_r_holds.
  - intros k d _ _ Hk. apply lookup_singleton_None. intros <-. by vm_compute in Hk.
  - exists bs. split; [exact Hw|]. eapply reads_mono; [exact Hr|]. intros s' (Hn&Hs'&_). split; [done|].
    rewrite Hm in Hs'. replace (<["user_r" := _]> _) with (map_kept (H := target_arm) ExampleSyms.policy None
      (<["attr_r" := ExampleSyms.role 3 1]> (<["user_r" := ExampleSyms.role 2 0]> {[ OBJECT_R := ExampleSyms.role 1 0 ]})) ∪
      {[ OBJECT_R := ExampleSyms.role 1 0 ]}); [exact Hs'|by vm_compute].
Defined.

(** witness of C28 *)
Lemma symbols_read_safe_witness :
  checks (symtab_read ExampleSyms.policy None ExampleSyms.object_r) (λ s', good (table s')).
Proof.
  assert (Hg : good (table ExampleSyms.object_r)).
  { destruct ExampleSyms.object_r_holds as (t&Ht&[Hok _]&_). by exists t. }
  exact (proj1 (proj2 (proj2 (symbols_read_safe ExampleSyms.policy None I))) ExampleSyms.object_r Hg).
Defined.
