(* ===== verification/OcontextIO.v ===== *)
(** * Object contexts, file system contexts and ranges in policy files
    ([policydb.c], [write.c])

    Object contexts are kept in the order of the file.  File systems are kept
    sorted by name and their entries by the length of the path, longest first,
    and both are refused twice; an entry that is in its list when the reader
    gives up is freed but stays in the list. *)

From S2P Require Import Prelude PolicyFile Hashtab Ebitmap EbitmapIO Symtab Context Avtab Policydb Mls MlsText Constraint Services ContextText SidQueries ExpandSets Readers ContextIO RulesIO SymbolsIO.

Definition SEPOL_TARGET_SELINUX : Z := 0.
Definition SEPOL_TARGET_XEN : Z := 1.
Definition OCON_XEN_ISID : nat := 0.
Definition OCON_XEN_PIRQ : nat := 1.
Definition OCON_XEN_IOPORT : nat := 2.
Definition OCON_XEN_IOMEM : nat := 3.
Definition OCON_XEN_PCIDEVICE : nat := 4.
Definition POLICYDB_VERSION_RANGETRANS : Z := 21.

Section io.
Context `{Target}.

(** ** Object contexts *)

Definition no_name : ocontext_u := UName EmptyString.
Definition read_context (p : policydb) : Reader context_struct := or_fail (-1) (context_read_and_validate p mls_range_init).
(** addresses are in network order: words as the (little-endian) machine sees
    them *)
Definition words_at (buf : list byte) (from n : nat) : list Z := le_to_cpu 4 buf <$> seq from n.
Definition read_selinux (p : policydb) (i : nat) : Reader ocontext :=
  let one u v c0 sid := mret (OContext u v c0 context_init sid 0) in
  if Nat.eqb i OCON_ISID then
    buf ← or_fail (-1) (get_entry 4);
    c ← read_context p;
    one no_name 0 c (le_to_cpu 4 buf 0)
  else if Nat.eqb i OCON_FS || Nat.eqb i OCON_NETIF then
    buf ← or_fail (-1) (get_entry 4);
    name ← read_key (le_to_cpu 4 buf 0);
    c0 ← read_context p;
    c1 ← read_context p;
    mret (OContext (UName name) 0 c0 c1 0 0)
  else if Nat.eqb i OCON_PORT then
    buf ← or_fail (-1) (get_entry 12);
    c ← read_context p;
    one (UPort (u8 (le_to_cpu 4 buf 0)) (u16 (le_to_cpu 4 buf 1)) (u16 (le_to_cpu 4 buf 2))) 0 c 0
  else if Nat.eqb i OCON_NODE then
    buf ← or_fail (-1) (get_entry 8);
    c ← read_context p;
    one (UNode (le_to_cpu 4 buf 0) (le_to_cpu 4 buf 1)) 0 c 0
  else if Nat.eqb i OCON_FSUSE then
    buf ← or_fail (-1) (get_entry 8);
    name ← read_key (le_to_cpu 4 buf 1);
    c ← read_context p;
    one (UName name) (le_to_cpu 4 buf 0) c 0
  else if Nat.eqb i OCON_NODE6 then
    buf ← or_fail (-1) (get_entry 32);
    c ← read_context p;
    one (UNode6 (words_at buf 0 4) (words_at buf 4 4)) 0 c 0
  else fail (-1).
Definition read_xen (p : policydb) (i : nat) : Reader ocontext :=
  let one u c sid := mret (OContext u 0 c context_init sid 0) in
  if Nat.eqb i OCON_XEN_ISID then
    buf ← or_fail (-1) (get_entry 4);
    c ← read_context p;
    one no_name c (le_to_cpu 4 buf 0)
  else if Nat.eqb i OCON_XEN_PIRQ then
    buf ← or_fail (-1) (get_entry 4);
    c ← read_context p;
    one (UPirq (u16 (le_to_cpu 4 buf 0))) c 0
  else if Nat.eqb i OCON_XEN_IOPORT then
    buf ← or_fail (-1) (get_entry 8);
    c ← read_context p;
    one (UIoport (le_to_cpu 4 buf 0) (le_to_cpu 4 buf 1)) c 0
  else if Nat.eqb i OCON_XEN_IOMEM then
    buf ← or_fail (-1) (get_entry 8);
    c ← read_context p;
    one (UIomem (le_to_cpu 4 buf 0) (le_to_cpu 4 buf 1)) c 0
  else if Nat.eqb i OCON_XEN_PCIDEVICE then
    buf ← or_fail (-1) (get_entry 4);
    c ← read_context p;
    one (UDevice (le_to_cpu 4 buf 0)) c 0
  else fail (-1).
(** the loops, over the [ocon_num] lists of a format; an empty list is not
    stored *)
Definition set_ocontexts (o : list (list ocontext)) (i : nat) (l : list ocontext) : list (list ocontext) :=
  match l with [] => o | _ => <[i := l]> o end.
Definition read_ocontexts (ocon_num : nat) (read : nat → Reader ocontext) (o : list (list ocontext)) : Reader (list (list ocontext)) :=
  '(o, _) ← times ocon_num (λ '(o, i),
    buf ← or_fail (-1) (get_entry 4);
    l ← times (le_to_cpu 4 buf 0) (λ l, _ ← new (-1); c ← read i; mret (l ++ [c])) [];
    mret (set_ocontexts o i l, S i)) (o, 0%nat);
  mret o.
Definition ocontext_read_selinux (ocon_num : nat) (p : policydb) : Reader (list (list ocontext)) :=
  read_ocontexts ocon_num (read_selinux p) (ocontexts p).
Definition ocontext_read_xen (ocon_num : nat) (p : policydb) : Reader (list (list ocontext)) :=
  read_ocontexts ocon_num (read_xen p) (ocontexts p).
Definition ocontext_read (target_platform : Z) (ocon_num : nat) (p : policydb) : Reader (list (list ocontext)) :=
  if target_platform =? SEPOL_TARGET_SELINUX then ocontext_read_selinux ocon_num p
  else if target_platform =? SEPOL_TARGET_XEN then ocontext_read_xen ocon_num p
  else fail (-1).

(** the member of the union that a list uses; another one would be its bytes *)
Definition write_selinux (p : policydb) (i : nat) (c : ocontext) : Writer :=
  if Nat.eqb i OCON_ISID then put_words [oc_sid0 c];;; context_write p (oc_context0 c)
  else if Nat.eqb i OCON_FS || Nat.eqb i OCON_NETIF then
    match oc_u c with
    | UName name =>
        put_words [strlen_of name];;; put_name name;;;
        context_write p (oc_context0 c);;; context_write p (oc_context1 c)
    | _ => λ _, undefined
    end
  else if Nat.eqb i OCON_PORT then
    match oc_u c with
    | UPort protocol low high => put_words [protocol; low; high];;; context_write p (oc_context0 c)
    | _ => λ _, undefined
    end
  else if Nat.eqb i OCON_NODE then
    match oc_u c with UNode addr mask => put_words [addr; mask];;; context_write p (oc_context0 c) | _ => λ _, undefined end
  else if Nat.eqb i OCON_FSUSE then
    match oc_u c with
    | UName name => put_words [oc_v c; strlen_of name];;; put_name name;;; context_write p (oc_context0 c)
    | _ => λ _, undefined
    end
  else if Nat.eqb i OCON_NODE6 then
    match oc_u c with UNode6 addr mask => put_words (addr ++ mask);;; context_write p (oc_context0 c) | _ => λ _, undefined end
  else done.
Definition write_xen (p : policydb) (i : nat) (c : ocontext) : Writer :=
  if Nat.eqb i OCON_XEN_ISID then put_words [oc_sid0 c];;; context_write p (oc_context0 c)
  else if Nat.eqb i OCON_XEN_PIRQ then
    match oc_u c with UPirq pirq => put_words [pirq];;; context_write p (oc_context0 c) | _ => λ _, undefined end
  else if Nat.eqb i OCON_XEN_IOPORT then
    match oc_u c with UIoport low high => put_words [low; high];;; context_write p (oc_context0 c) | _ => λ _, undefined end
  else if Nat.eqb i OCON_XEN_IOMEM then
    match oc_u c with UIomem low high => put_words [low; high];;; context_write p (oc_context0 c) | _ => λ _, undefined end
  else if Nat.eqb i OCON_XEN_PCIDEVICE then
    match oc_u c with UDevice device => put_words [device];;; context_write p (oc_context0 c) | _ => λ _, undefined end
  else done.
(** the first [ocon_num] of the array, which has [OCON_NUM] *)
Definition write_ocontexts (ocon_num : nat) (write : nat → ocontext → Writer) (o : list (list ocontext)) : Writer :=
  write_each (λ i, match o !! i with
    | Some l => put_words [Z.of_nat (length l)];;; write_each (write i) l
    | None => λ _, undefined
    end) (seq 0 ocon_num).
Definition ocontext_write_selinux (ocon_num : nat) (p : policydb) : Writer := write_ocontexts ocon_num (write_selinux p) (ocontexts p).
Definition ocontext_write_xen (ocon_num : nat) (p : policydb) : Writer := write_ocontexts ocon_num (write_xen p) (ocontexts p).
Definition ocontext_write (target_platform : Z) (ocon_num : nat) (p : policydb) : Writer :=
  if target_platform =? SEPOL_TARGET_SELINUX then ocontext_write_selinux ocon_num p
  else if target_platform =? SEPOL_TARGET_XEN then ocontext_write_xen ocon_num p
  else refuse.

(** ** File systems *)

(** On failure the list as it is by then stays in the policy; the flag says that
    [newc], which is freed at [bad], is an entry of it. *)
Definition Built (A : Type) : Type := policy_file → CM ((list genfs * bool + A) * policy_file).
Definition built_ret {A} (x : A) : Built A := λ fp, mret (M := CM) (inr x, fp).
Definition built_bind {A B} (m : Built A) (f : A → Built B) : Built B := λ fp,
  mbind (M := CM) (λ '(r, fp), match r with inl e => mret (M := CM) (inl e, fp) | inr x => f x fp end) (m fp).
Definition bad {A} (l : list genfs) (linked : bool) : Built A := λ fp, mret (M := CM) (inl (l, linked), fp).
(** a reader in a state of the list *)
Definition within {A} (l : list genfs) (linked : bool) (r : Reader A) : Built A := λ fp,
  mbind (M := CM) (λ '(x, fp), mret (M := CM) (match x with inl _ => inl (l, linked) | inr y => inr y end, fp)) (r fp).
Definition built_times {S} (n : Z) (body : S → Built S) (s : S) : Built S := λ fp,
  mbind (M := CM) (λ r, mret (M := CM) (match r with inl (e, fp) => (inl e, fp) | inr (s, fp) => (inr s, fp) end))
    (for_loop 0 n (λ _ '(s, fp),
      mbind (M := CM) (λ '(r, fp), mret (M := CM) (match r with inl e => inl (e, fp) | inr s => inr (s, fp) end)) (body s fp)) (s, fp)).

(** where a type of file system goes; [None] when it is there *)
Fixpoint place_genfs (fs : string) (l : list genfs) : option (list genfs * list genfs) :=
  match l with
  | [] => Some ([], [])
  | g :: next =>
      if strcmp fs (fstype g) =? 0 then None
      else if strcmp fs (fstype g) <? 0 then Some ([], l)
      else '(before, after) ← place_genfs fs next; Some (g :: before, after)
  end.
Definition oc_name (c : ocontext) : string := match oc_u c with UName name => name | _ => EmptyString end.
(** an entry for the same path and class, or for all classes *)
Definition same_entry (newc c : ocontext) : bool :=
  String.eqb (oc_name newc) (oc_name c) && (negb (truth (oc_v c)) || negb (truth (oc_v newc)) || (oc_v newc =? oc_v c)).
Fixpoint place_entry (newc : ocontext) (head : list ocontext) : option (list ocontext) :=
  match head with
  | [] => Some [newc]
  | c :: next =>
      if same_entry newc c then None
      else if strlen_of (oc_name c) <? strlen_of (oc_name newc) then Some (newc :: head)
      else cons c <$> place_entry newc next
  end.
Definition read_entry (p : policydb) : Reader ocontext :=
  buf ← or_fail (-1) (get_entry 4);
  name ← read_key (le_to_cpu 4 buf 0);
  buf ← or_fail (-1) (get_entry 4);
  c ← read_context p;
  mret (OContext (UName name) (le_to_cpu 4 buf 0) c context_init 0 0).
(** the entries of [fs], which is between [before] and [after] *)
Definition read_entries (p : policydb) (before after : list genfs) (fs : string) (n : Z) (linked : bool) : Built (list ocontext * bool) :=
  built_times n (λ '(head, _),
    let l := before ++ Genfs fs head :: after in
    built_bind (within l false (new (-1))) (λ _,
    built_bind (within l false (read_entry p)) (λ newc,
    match place_entry newc head with
    | None => bad l false
    | Some head => built_ret (head, true)
    end))) ([], linked).
Definition read_genfs (p : policydb) (st : list genfs * bool) : Built (list genfs * bool) :=
  let '(l, linked) := st in
  built_bind (within l linked (or_fail (-1) (get_entry 4))) (λ buf,
  built_bind (within l linked (new (-1))) (λ _,
  built_bind (within l linked (read_key (le_to_cpu 4 buf 0))) (λ fs,
  match place_genfs fs l with
  | None => bad l linked
  | Some (before, after) =>
      built_bind (within (before ++ Genfs fs [] :: after) linked (or_fail (-1) (get_entry 4))) (λ buf,
      built_bind (read_entries p before after fs (le_to_cpu 4 buf 0) linked) (λ '(head, linked),
      built_ret (before ++ Genfs fs head :: after, linked)))
  end))).
Definition read_all_genfs (p : policydb) : Built (list genfs * bool) :=
  built_bind (within (p_genfs p) false (or_fail (-1) (get_entry 4))) (λ buf,
  built_times (le_to_cpu 4 buf 0) (read_genfs p) (p_genfs p, false)).
(** the code, the list, and whether an entry of it has been freed *)
Definition genfs_read (p : policydb) (fp : policy_file) : CM (Z * list genfs * bool * policy_file) :=
  '(r, fp) ← read_all_genfs p fp;
  mret (match r with inl (l, linked) => (-1, l, linked, fp) | inr (l, _) => (0, l, false, fp) end).

Definition genfs_write (p : policydb) : Writer :=
  put_words [Z.of_nat (length (p_genfs p))];;;
  write_each (λ g,
    put_words [strlen_of (fstype g)];;; put_name (fstype g);;;
    put_words [Z.of_nat (length (gf_head g))];;;
    write_each (λ c,
      put_words [strlen_of (oc_name c)];;; put_name (oc_name c);;;
      put_words [oc_v c];;; context_write p (oc_context0 c)) (gf_head g)) (p_genfs p).

(** ** Range transitions *)

Definition new_rangetr (p : policydb) : bool :=
  (policy_type p =? POLICY_KERN) && (POLICYDB_VERSION_RANGETRANS <=? policyvers p).
Record range_trans_rule := RangeTransRule {
  rr_stypes : type_set; rr_ttypes : type_set; rr_tclasses : ebitmap; rr_trange : mls_semantic_range }.
Definition read_range_trans (p : policydb) : Reader range_trans :=
  _ ← new (-1);
  buf ← or_fail (-1) (get_entry 8);
  tclass ← (if new_rangetr p then buf ← or_fail (-1) (get_entry 4); mret (le_to_cpu 4 buf 0) else mret SECCLASS_PROCESS);
  range ← or_fail (-1) mls_read_range_helper;
  mret (RangeTrans (le_to_cpu 4 buf 0) (le_to_cpu 4 buf 1) tclass range).
Definition set_bit_of (e : ebitmap) (v : Z) : Reader ebitmap := or_fail (-1) (lift (ebitmap_set_bit e (u32 (v - 1)) 1)).
Definition convert_range_trans (rt : range_trans) : Reader range_trans_rule :=
  _ ← new (-1);
  stypes ← set_bit_of ebitmap_init (rtr_source_type rt);
  ttypes ← set_bit_of ebitmap_init (rtr_target_type rt);
  tclasses ← set_bit_of ebitmap_init (rtr_target_class rt);
  trange ← or_fail (-1) (lift (mls_range_to_semantic (rtr_target_range rt)));
  mret (RangeTransRule (TypeSet stypes ebitmap_init 0) (TypeSet ttypes ebitmap_init 0) tclasses trange).
Fixpoint convert_all (l : list range_trans) : Reader (list range_trans_rule) :=
  match l with
  | [] => mret []
  | rt :: l => r ← convert_range_trans rt; rs ← convert_all l; mret (r :: rs)
  end.
(** the transitions of a kernel policy, or the rules made of those of a module;
    without any the list of the policy stays *)
Definition range_read (p : policydb) : Reader (list range_trans * list range_trans_rule) :=
  buf ← or_fail (-1) (get_entry 4);
  l ← times (le_to_cpu 4 buf 0) (λ l, rt ← read_range_trans p; mret (l ++ [rt])) [];
  let l := match l with [] => p_range_tr p | _ => l end in
  if policy_type p =? POLICY_KERN then mret (l, []) else
  rules ← convert_all l;
  mret ([], rules).
Definition range_written (p : policydb) (rt : range_trans) : bool := new_rangetr p || (rtr_target_class rt =? SECCLASS_PROCESS).
Definition range_write (p : policydb) : Writer :=
  put_words [Z.of_nat (length (filter (λ rt, range_written p rt = true) (p_range_tr p)))];;;
  write_each (λ rt,
    if negb (new_rangetr p) && negb (rtr_target_class rt =? SECCLASS_PROCESS) then done else
    put_words [rtr_source_type rt; rtr_target_type rt];;;
    (if new_rangetr p then put_words [rtr_target_class rt] else done);;;
    mls_write_range_helper (rtr_target_range rt)) (p_range_tr p).
End io.

(** ** Theory: object contexts *)

Section theory.
Context `{Target}.
Implicit Types (p : policydb) (c : context_struct) (bs : list byte).

Lemma choose_bytes {A} (Q : A → list byte → Prop) (l : list A) :
  (∀ x, x ∈ l → ∃ bs, Q x bs) → ∃ bss, bss.*1 = l ∧ ∀ xb, xb ∈ bss → Q xb.1 xb.2.
Proof.
  induction l as [|x l IH]; intros Hl; [exists []; split; [done|]; by intros xb ?%not_elem_of_nil|]. destruct IH as (bss&<-&Hb); [intros y Hy; apply Hl; by right|].
  destruct (Hl x) as (bs&Hbs); [by left|]. exists ((x, bs) :: bss). split; [done|]. by intros xb [->|Hin]%elem_of_cons; [|apply Hb].
Qed.
Lemma each_writes {A} (w : A → Writer) (bss : list (A * list byte)) :
  (∀ xb, xb ∈ bss → writes (w xb.1) xb.2) → writes (write_each w bss.*1) (bss ≫= snd).
Proof.
  intros Hw. induction bss as [|xb bss IH]; [apply writes_done|]. cbn. apply writes_then; [apply Hw; by left|]. apply IH. intros y Hy. apply Hw. by right.
Qed.
(** a list after its length, element by element *)
Lemma list_round_trip {A} (w : A → Writer) (r : Reader A) (body : list A → Reader (list A)) (l : list A) :
  word (length l) → (∀ x, x ∈ l → round_trip (w x) r (λ y, y = x)) →
  (∀ x l1 bs, reads r bs (λ y, y = x) → reads (body l1) bs (λ l', l' = l1 ++ [x])) →
  round_trip (put_words [Z.of_nat (length l)];;; write_each w l)
    (buf ← or_fail (-1) (get_entry 4); times (le_to_cpu 4 buf 0) body []) (λ l', l' = l).
Proof.
  intros Hl (bss&<-&Hbss)%choose_bytes Hbody. rewrite length_fmap in *.
  exists (cpu_to_le 4 [Z.of_nat (length bss)] ++ (bss ≫= snd)). split.
  - apply writes_then; [by apply words_writes; cbn; lia|]. apply each_writes. intros xb Hxb. by apply Hbss.
  - eapply reads_bind; [by apply reads_words|]. intros buf ->. rewrite (le_word _ 0 (length bss)) by done.
    apply (reads_times _ _ _ _ (λ l1 l', l' = l1.*1)); [done..|]. intros [x bs] l1 l2 l' Hl' ->. rewrite fmap_app. apply Hbody.
    apply (Hbss (x, bs)). rewrite Hl'. apply elem_of_app. right. by left.
Qed.

(** contexts that are read back *)
Definition context_kept p c : Prop :=
  context_storable p c ∧ context_read p mls_range_init c = c ∧ (∀ h, policydb_context_isvalid p c h = Some (true, h)).
Lemma read_context_reads p c : context_kept p c → reads (read_context p) (context_bytes p c) (λ c', c' = c).
Proof.
  intros (Hs&Hr&Hv). apply reads_or_fail; [done|]. eapply reads_mono; [apply context_reads; [done|by rewrite Hr]|]. intros c' ->. done.
Qed.
Lemma context_kept_writes p c : context_kept p c → writes (context_write p c) (context_bytes p c).
Proof. intros [Hs _]. by apply context_writes. Qed.

Definition port_word (w : Z) (z : Z) : Prop := 0 ≤ z < 2 ^ w.
Lemma port_word_word w z : w ≤ 32 → port_word w z → word z.
Proof. intros Hw [Hz1 Hz2]. split; [done|]. apply Z.lt_le_trans with (2 ^ w); [done|]. by apply Z.pow_le_mono_r. Qed.

(** the object contexts as they are read *)
Inductive selinux_ocontext p : nat → ocontext → Prop :=
  | so_isid c sid : context_kept p c → word sid → selinux_ocontext p OCON_ISID (OContext no_name 0 c context_init sid 0)
  | so_name i name c0 c1 : i = OCON_FS ∨ i = OCON_NETIF → key_storable name → context_kept p c0 → context_kept p c1 →
      selinux_ocontext p i (OContext (UName name) 0 c0 c1 0 0)
  | so_port pr lo hi c : port_word 8 pr → port_word 16 lo → port_word 16 hi → context_kept p c →
      selinux_ocontext p OCON_PORT (OContext (UPort pr lo hi) 0 c context_init 0 0)
  | so_node a m c : word a → word m → context_kept p c → selinux_ocontext p OCON_NODE (OContext (UNode a m) 0 c context_init 0 0)
  | so_fsuse v name c : word v → key_storable name → context_kept p c →
      selinux_ocontext p OCON_FSUSE (OContext (UName name) v c context_init 0 0)
  | so_node6 a0 a1 a2 a3 m0 m1 m2 m3 c : Forall word [a0; a1; a2; a3; m0; m1; m2; m3] → context_kept p c →
      selinux_ocontext p OCON_NODE6 (OContext (UNode6 [a0; a1; a2; a3] [m0; m1; m2; m3]) 0 c context_init 0 0).
Inductive xen_ocontext p : nat → ocontext → Prop :=
  | xo_isid c sid : context_kept p c → word sid → xen_ocontext p OCON_XEN_ISID (OContext no_name 0 c context_init sid 0)
  | xo_pirq z c : port_word 16 z → context_kept p c → xen_ocontext p OCON_XEN_PIRQ (OContext (UPirq z) 0 c context_init 0 0)
  | xo_ioport lo hi c : word lo → word hi → context_kept p c →
      xen_ocontext p OCON_XEN_IOPORT (OContext (UIoport lo hi) 0 c context_init 0 0)
  | xo_iomem lo hi c : word lo → word hi → context_kept p c →
      xen_ocontext p OCON_XEN_IOMEM (OContext (UIomem lo hi) 0 c context_init 0 0)
  | xo_device z c : word z → context_kept p c → xen_ocontext p OCON_XEN_PCIDEVICE (OContext (UDevice z) 0 c context_init 0 0).

Ltac wr := first [ by apply context_kept_writes | by apply writes_words; cbn; lia | by apply key_writes
                 | eapply writes_then; [wr|wr] ].
Ltac write_case := eexists; split;
  [cbv [write_selinux write_xen Nat.eqb orb OCON_ISID OCON_FS OCON_PORT OCON_NETIF OCON_NODE OCON_FSUSE OCON_NODE6
        OCON_XEN_ISID OCON_XEN_PIRQ OCON_XEN_IOPORT OCON_XEN_IOMEM OCON_XEN_PCIDEVICE oc_u oc_v oc_context0 oc_context1 oc_sid0]; wr|].
Ltac rd_words buf := eapply reads_bind; [by apply reads_words|intros buf ->].
Ltac rd_context := eapply reads_bind_last; [by apply read_context_reads|intros ? ->].
Lemma words_at_le zs from n : (from + n ≤ length zs)%nat → Forall word zs → words_at (cpu_to_le 4 zs) from n = take n (drop from zs).
Proof.
  intros Hl Hw. apply list_eq. intros i. unfold words_at. rewrite list_lookup_fmap. destruct (decide (i < n)%nat) as [Hi|Hi].
  - rewrite lookup_seq_lt, lookup_take_lt, lookup_drop by done. cbn.
    destruct (lookup_lt_is_Some_2 zs (from + i)) as [z Hz]; [lia|]. rewrite Hz. f_equal. apply le_word; [done|].
    rewrite Forall_lookup in Hw. by eapply Hw.
  - rewrite lookup_seq_ge, lookup_take_ge by lia. done.
Qed.
Lemma selinux_round_trip p i oc : selinux_ocontext p i oc → round_trip (write_selinux p i oc) (read_selinux p i) (λ x, x = oc).
Proof.
  intros [c sid Hc Hs|i' name c0 c1 Hi Hn Hc0 Hc1|pr lo hi c Hpr Hlo Hhi Hc|a m c Ha Hm Hc|v name c Hv Hn Hc|a0 a1 a2 a3 m0 m1 m2 m3 c Hz Hc].
  - write_case. rd_words buf. rewrite (le_word _ 0 sid) by done. rd_context. by apply reads_ret.
  - pose proof (key_word name Hn). assert (write_selinux p i' (OContext (UName name) 0 c0 c1 0 0) =
      (put_words [strlen_of name];;; put_name name;;; context_write p c0;;; context_write p c1)) as -> by (by destruct Hi as [-> | ->]).
    eexists. split; [wr|]. unfold read_selinux. replace (Nat.eqb i' OCON_ISID) with false by (by destruct Hi as [-> | ->]).
    replace (Nat.eqb i' OCON_FS || Nat.eqb i' OCON_NETIF) with true by (by destruct Hi as [-> | ->]). cbv zeta.
    rd_words buf. rewrite (le_word _ 0 (strlen_of name)) by done. eapply reads_bind; [by apply key_reads|]. intros ? ->.
    eapply reads_bind; [by apply read_context_reads|]. intros ? ->. rd_context. by apply reads_ret.
  - assert (word pr ∧ word lo ∧ word hi) as (?&?&?) by (split; [|split]; [by apply (port_word_word 8)|by apply (port_word_word 16)..]).
    write_case. rd_words buf. rewrite (le_word _ 0 pr), (le_word _ 1 lo), (le_word _ 2 hi) by done. rd_context. apply reads_ret.
    unfold u8, u16. by rewrite !wrap_id.
  - write_case. rd_words buf. rewrite (le_word _ 0 a), (le_word _ 1 m) by done. rd_context. by apply reads_ret.
  - pose proof (key_word name Hn). write_case. rd_words buf. rewrite (le_word _ 0 v), (le_word _ 1 (strlen_of name)) by done.
    eapply reads_bind; [by apply key_reads|]. intros ? ->. rd_context. by apply reads_ret.
  - write_case. rd_words buf. rewrite !words_at_le by (done || cbn; lia). rd_context. by apply reads_ret.
Qed.
Lemma xen_round_trip p i oc : xen_ocontext p i oc → round_trip (write_xen p i oc) (read_xen p i) (λ x, x = oc).
Proof.
  intros [c sid Hc Hs|z c Hz Hc|lo hi c Hlo Hhi Hc|lo hi c Hlo Hhi Hc|z c Hz Hc]; (write_case; rd_words buf).
  - rewrite (le_word _ 0 sid) by done. rd_context. by apply reads_ret.
  - assert (word z) by (by apply (port_word_word 16)). rewrite (le_word _ 0 z) by done. rd_context. apply reads_ret. unfold u16. by rewrite wrap_id.
  - rewrite (le_word _ 0 lo), (le_word _ 1 hi) by done. rd_context. by apply reads_ret.
  - rewrite (le_word _ 0 lo), (le_word _ 1 hi) by done. rd_context. by apply reads_ret.
  - rewrite (le_word _ 0 z) by done. rd_context. by apply reads_ret.
Qed.

(** all the lists *)
Lemma set_ocontexts_at (o : list (list ocontext)) (k : nat) l :
  o !! k = Some l →
  set_ocontexts (take k o ++ replicate (length o - k) []) k l = take (S k) o ++ replicate (length o - S k) [].
Proof.
  intros Hl. pose proof (lookup_lt_Some _ _ _ Hl) as Hk. rewrite (take_S_r _ _ _ Hl), <- app_assoc.
  replace (length o - k)%nat with (S (length o - S k)) by lia. cbn [replicate]. destruct l as [|oc l]; [done|]. cbn [set_ocontexts app].
  rewrite insert_app_r_alt by (rewrite length_take; lia). by rewrite length_take, Nat.min_l, Nat.sub_diag by lia.
Qed.
Lemma ocontexts_round_trip (n : nat) (w : nat → ocontext → Writer) (r : nat → Reader ocontext) (o : list (list ocontext)) :
  (n ≤ length o)%nat → (∀ i l, (n ≤ i)%nat → o !! i = Some l → l = []) →
  (∀ i l, o !! i = Some l → word (length l) ∧ ∀ oc, oc ∈ l → round_trip (w i oc) (r i) (λ x, x = oc)) →
  round_trip (write_ocontexts n w o) (read_ocontexts n r (replicate (length o) [])) (λ o', o' = o).
Proof.
  intros Hn Hrest Ho.
  assert (Hi : ∀ i, i ∈ seq 0 n → ∃ bs, writes (match o !! i with Some l => put_words [Z.of_nat (length l)];;; write_each (w i) l | None => λ _, undefined end) bs ∧
    reads (buf ← or_fail (-1) (get_entry 4); times (le_to_cpu 4 buf 0) (λ l, _ ← new (-1); c ← r i; mret (l ++ [c])) []) bs (λ l, o !! i = Some l)).
  { intros i Hi%elem_of_seq. destruct (lookup_lt_is_Some_2 o i) as [l Hl]; [lia|]. rewrite Hl. destruct (Ho i l Hl) as [Hw Hr].
    destruct (list_round_trip (w i) (r i) (λ l, _ ← new (-1); c ← r i; mret (l ++ [c])) l Hw Hr) as (bs&H1&H2).
    - intros x l1 bs Hx. eapply reads_bind_nil; [by apply reads_new|]. intros _ _. eapply reads_bind_last; [exact Hx|]. intros y ->. by apply reads_ret.
    - exists bs. split; [done|]. eapply reads_mono; [exact H2|]. by intros l' ->. }
  apply choose_bytes in Hi as (bss&Hseq&Hbss). exists (bss ≫= snd). split.
  - unfold write_ocontexts. rewrite <- Hseq. apply each_writes. intros xb Hxb. by apply Hbss.
  - assert (Hlen : length bss = n) by (by rewrite <- (length_fmap fst), Hseq, length_seq).
    eapply reads_bind_last.
    + apply (reads_times bss _ _ snd (λ l1 '(o', i), i = length l1 ∧ o' = take (length l1) o ++ replicate (length o - length l1) []));
        [by rewrite Hlen|by rewrite Nat.sub_0_r|].
      intros [i bs] l1 l2 [o' i'] Hl (->&->).
      assert (i = length l1) as ->.
      { assert (Hli : (bss.*1) !! length l1 = Some i) by (by rewrite Hl, fmap_app, lookup_app_r, length_fmap, Nat.sub_diag by (by rewrite length_fmap)).
        rewrite Hseq in Hli. by apply lookup_seq in Hli as [-> _]. }
      assert (Hin : (length l1, bs) ∈ bss) by (rewrite Hl; apply elem_of_app; right; by left).
      destruct (Hbss _ Hin) as [_ Hr]. cbn [fst snd] in *.
      eapply reads_assoc, reads_bind_last; [exact Hr|]. intros l Hl'. apply reads_ret. rewrite length_app, Nat.add_comm. split; [done|].
      cbn [length Nat.add]. by rewrite set_ocontexts_at.
    + intros [o' i] (_&->). apply reads_ret. rewrite Hlen. apply list_eq. intros j. destruct (decide (j < n)%nat) as [Hj|Hj].
      * rewrite lookup_app_l, lookup_take_lt by (rewrite ?length_take; lia). done.
      * rewrite lookup_app_r by (rewrite length_take; lia). rewrite length_take, Nat.min_l by lia.
        destruct (o !! j) as [l|] eqn:Hl; [|apply lookup_replicate_None; apply lookup_ge_None in Hl; lia].
        rewrite (Hrest j l) by (done || lia). apply lookup_replicate. split; [done|]. apply lookup_lt_Some in Hl. lia.
Qed.

(** *** File systems: reading what was written *)

Definition erase {A} (b : Built A) : Reader A := λ fp,
  mbind (M := CM) (λ '(x, fp), mret (M := CM) (match x with inl _ => inl (-1) | inr y => inr y end, fp)) (b fp).
Lemma reads_ext {A} (r r' : Reader A) bs P : (∀ fp h, r fp h = r' fp h) → reads r bs P → reads r' bs P.
Proof. intros He Hr rest h. specialize (Hr rest h). unfold wp in *. by rewrite <- He. Qed.
Lemma erase_bind {A B} (b : Built A) (f : A → Built B) bs P :
  reads (erase b ≫= λ x, erase (f x)) bs P → reads (erase (built_bind b f)) bs P.
Proof.
  apply reads_ext. intros fp h. unfold erase, built_bind, mbind, Reader_bind, mbind, CM_bind. by destruct (b fp h) as [[[[e|x] fp1] h1]|].
Qed.
Lemma erase_within {A} l linked (r : Reader A) bs P : reads r bs P → reads (erase (within l linked r)) bs P.
Proof.
  intros Hr rest h. apply wp_bind, wp_bind. eapply wp_mono; [by apply Hr|]. intros [[rc|x] fp] h' [Hm Hx]; apply wp_ret, wp_ret; [|done].
  split; [|done]. eapply mem_step_mono, Hm. by intros [? ?].
Qed.
Lemma erase_times {S} n (body : S → Built S) s bs P :
  reads (times n (λ s, erase (body s)) s) bs P → reads (erase (built_times n body s)) bs P.
Proof.
  apply reads_ext. intros fp h. unfold erase, built_times, times, for_loop. unfold mbind at 1 4, CM_bind at 1 4.
  generalize 0 at 2 4. generalize (Z.to_nat (n - 0)). intros k. revert s fp h. induction k as [|k IH]; intros s fp h i; [done|].
  cbn [for_range]. unfold mbind, CM_bind, mret, CM_ret. unfold mbind, CM_bind, mret, CM_ret in IH.
  destruct (body s fp h) as [[[[e|s1] fp1] h1]|]; [done| |done]. apply IH.
Qed.

(** the order of the entries: paths do not get longer, and none is twice *)
Definition entry_before (c newc : ocontext) : Prop := same_entry newc c = false ∧ strlen_of (oc_name newc) ≤ strlen_of (oc_name c).
Lemma same_entry_sym (c c' : ocontext) : same_entry c c' = same_entry c' c.
Proof.
  unfold same_entry. rewrite String.eqb_sym, (Z.eqb_sym (oc_v c)). f_equal. rewrite (orb_comm (negb (truth (oc_v c')))). done.
Qed.
Lemma same_entry_length (c c' : ocontext) : strlen_of (oc_name c) ≠ strlen_of (oc_name c') → same_entry c c' = false.
Proof. intros Hl. unfold same_entry. destruct (String.eqb_spec (oc_name c) (oc_name c')) as [E|]; [by rewrite E in Hl|done]. Qed.
Lemma place_entry_last newc (head : list ocontext) : Forall (λ c : ocontext, entry_before c newc) head → place_entry newc head = Some (head ++ [newc]).
Proof.
  induction 1 as [|c head [Hs Hl] _ IH]; [done|]. cbn [place_entry]. rewrite Hs. destruct (Z.ltb_spec (strlen_of (oc_name c)) (strlen_of (oc_name newc))); [lia|].
  by rewrite IH.
Qed.
Lemma place_entry_sorted newc (head head' : list ocontext) :
  StronglySorted entry_before head → place_entry newc head = Some head' →
  StronglySorted entry_before head' ∧ ∀ c : ocontext, c ∈ head' ↔ c = newc ∨ c ∈ head.
Proof.
  intros Hs. revert head'. induction Hs as [|c head Hs IH Hc]; intros head' Hp; cbn [place_entry] in Hp.
  - injection Hp as <-. split; [repeat constructor|]. intros c. by rewrite list_elem_of_singleton, elem_of_nil; tauto.
  - destruct (same_entry newc c) eqn:Esame; [done|]. destruct (Z.ltb_spec (strlen_of (oc_name c)) (strlen_of (oc_name newc))) as [Hl|Hl].
    + injection Hp as <-. split; [|intros c'; by rewrite !elem_of_cons].
      apply SSorted_cons; [by apply SSorted_cons|]. apply Forall_cons. split.
      * split; [by rewrite same_entry_sym|lia].
      * eapply Forall_impl; [exact Hc|]. intros c' [_ Hc']. split; [|lia]. apply same_entry_length. lia.
    + destruct (place_entry newc head) as [h|] eqn:E; [|done]. injection Hp as <-. destruct (IH h eq_refl) as [Hh Hin].
      split; [|intros c'; rewrite !elem_of_cons, Hin; tauto]. apply SSorted_cons; [done|]. apply Forall_forall. intros c' [->|Hc']%Hin; [by split|].
      rewrite Forall_forall in Hc. by apply Hc.
Qed.

Lemma place_genfs_last fs l : Forall (λ g, strcmp (fstype g) fs < 0) l → place_genfs fs l = Some (l, []).
Proof.
  induction 1 as [|g l Hg _ IH]; [done|]. cbn [place_genfs]. rewrite (strcmp_swap (fstype g) fs).
  destruct (Z.eqb_spec (- strcmp (fstype g) fs) 0); [lia|]. destruct (Z.ltb_spec (- strcmp (fstype g) fs) 0); [lia|]. by rewrite IH.
Qed.
Lemma place_genfs_sorted fs l before after :
  StronglySorted genfs_before l → place_genfs fs l = Some (before, after) →
  l = before ++ after ∧ ∀ head, StronglySorted genfs_before (before ++ Genfs fs head :: after).
Proof.
  intros Hs. revert before. induction Hs as [|g l Hs IH Hg]; intros before Hp; cbn [place_genfs] in Hp.
  - injection Hp as <- <-. split; [done|]. intros head. repeat constructor.
  - destruct (Z.eqb_spec (strcmp fs (fstype g)) 0) as [|Hne]; [done|]. destruct (Z.ltb_spec (strcmp fs (fstype g)) 0) as [Hl|Hl].
    + injection Hp as <- <-. split; [done|]. intros head. apply SSorted_cons; [by apply SSorted_cons|]. apply Forall_cons. split; [done|].
      eapply Forall_impl; [exact Hg|]. intros g' Hg'. by apply strcmp_lt_trans with (fstype g).
    + destruct (place_genfs fs l) as [[b a]|] eqn:E; [|done]. injection Hp as <- <-. destruct (IH b eq_refl) as [-> Hb]. split; [done|].
      intros head. cbn. apply SSorted_cons; [by apply Hb|]. apply Forall_app in Hg as [Hg1 Hg2]. apply Forall_app. split; [done|].
      apply Forall_cons. split; [|done]. unfold genfs_before. cbn. rewrite strcmp_swap. lia.
Qed.

(** what [genfs_write] writes of an entry is what is read *)
Inductive genfs_ocontext p : ocontext → Prop :=
  | go_entry name v c : key_storable name → word v → context_kept p c →
      genfs_ocontext p (OContext (UName name) v c context_init 0 0).
Record genfs_storable p (g : genfs) : Prop := {
  gs_fstype : key_storable (fstype g);
  gs_length : word (length (gf_head g));
  gs_sorted : StronglySorted entry_before (gf_head g);
  gs_entries : Forall (genfs_ocontext p) (gf_head g)
}.
Lemma entry_round_trip p (oc : ocontext) : genfs_ocontext p oc →
  round_trip (put_words [strlen_of (oc_name oc)];;; put_name (oc_name oc);;; put_words [oc_v oc];;; context_write p (oc_context0 oc))
    (read_entry p) (λ oc', oc' = oc).
Proof.
  intros [name v c Hn Hv Hc]. pose proof (key_word name Hn) as Hk. write_case. unfold read_entry.
  rd_words buf. rewrite (le_word _ 0 (strlen_of name)) by done. eapply reads_bind; [by apply key_reads|]. intros ? ->.
  rd_words buf. rewrite (le_word _ 0 v) by done. rd_context. by apply reads_ret.
Qed.
Lemma sorted_snoc {A} (R : A → A → Prop) l1 x l2 : StronglySorted R (l1 ++ x :: l2) → Forall (λ y, R y x) l1.
Proof.
  induction l1 as [|y l1 IH]; [done|]. intros [Hl Hy]%StronglySorted_inv. apply Forall_cons. split; [|by apply IH].
  apply Forall_app in Hy as [_ Hy]. by apply Forall_cons in Hy as [? _].
Qed.
Definition entry_writer p (oc : ocontext) : Writer :=
  put_words [strlen_of (oc_name oc)];;; put_name (oc_name oc);;; put_words [oc_v oc];;; context_write p (oc_context0 oc).
Definition fs_writer p (g : genfs) : Writer :=
  put_words [strlen_of (fstype g)];;; put_name (fstype g);;; put_words [Z.of_nat (length (gf_head g))];;;
  write_each (entry_writer p) (gf_head g).
Lemma entries_round_trip p before after fs (head : list ocontext) linked :
  StronglySorted entry_before head → Forall (genfs_ocontext p) head →
  round_trip (write_each (entry_writer p) head) (erase (read_entries p before after fs (length head) linked)) (λ st, st.1 = head).
Proof.
  intros Hs Hh. destruct (choose_bytes (λ oc bs, writes (entry_writer p oc) bs ∧ reads (read_entry p) bs (λ oc', oc' = oc)) head) as (bss&<-&Hbss).
  { intros oc Hoc. rewrite Forall_forall in Hh. by apply entry_round_trip, Hh. }
  exists (bss ≫= snd). split; [apply each_writes; intros xb Hxb; by apply Hbss|].
  apply erase_times. rewrite length_fmap. apply (reads_times _ _ _ _ (λ l1 st, st.1 = l1.*1)); [done..|].
  intros [oc bs] l1 l2 [h' lk] Hl Hst. cbn [fst snd] in Hst |- *. subst h'. rewrite fmap_app. cbn [fmap list_fmap fst].
  assert (Hlast : Forall (λ c' : ocontext, entry_before c' oc) l1.*1).
  { apply (sorted_snoc _ _ _ (l2.*1)). by rewrite Hl, fmap_app, fmap_cons in Hs. }
  apply erase_bind. eapply reads_bind_nil; [by apply erase_within, reads_new|]. intros _ _. apply erase_bind.
  eapply reads_bind_last.
  - apply erase_within. apply (Hbss (oc, bs)). rewrite Hl. apply elem_of_app. right. by left.
  - intros oc' ->. cbn [fst]. rewrite (place_entry_last oc _ Hlast). intros rest h. apply wp_bind, wp_ret, wp_ret. split; [|done].
    apply mem_step_refl. by eexists.
Qed.
Lemma fs_round_trip p before g linked :
  Forall (λ g', genfs_before g' g) before → genfs_storable p g →
  round_trip (fs_writer p g) (erase (read_genfs p (before, linked))) (λ st, st.1 = before ++ [g]).
Proof.
  intros Hb [Hf Hl Hs He]. destruct (entries_round_trip p before [] (fstype g) (gf_head g) linked) as (bs&Hw&Hr); [done..|].
  pose proof (key_word _ Hf) as Hk.
  exists (cpu_to_le 4 [strlen_of (fstype g)] ++ String.list_byte_of_string (fstype g) ++ cpu_to_le 4 [Z.of_nat (length (gf_head g))] ++ bs). split.
  - apply writes_then; [by apply writes_words; cbn; lia|]. apply writes_then; [by apply key_writes|].
    apply writes_then; [by apply writes_words; cbn; lia|done].
  - apply erase_bind. eapply reads_bind; [by apply erase_within, reads_words|]. intros buf ->. rewrite (le_word _ 0 (strlen_of (fstype g))) by done.
    apply erase_bind. eapply reads_bind_nil; [by apply erase_within, reads_new|]. intros _ _. apply erase_bind.
    eapply reads_bind; [by apply erase_within, key_reads|]. intros ? ->. rewrite place_genfs_last by done.
    apply erase_bind. eapply reads_bind; [by apply erase_within, reads_words|]. intros buf ->. rewrite (le_word _ 0 (length (gf_head g))) by done.
    apply erase_bind. eapply reads_bind_last; [exact Hr|]. intros [head lk] Hh. cbn in Hh. subst head.
    intros rest h. apply wp_bind, wp_ret, wp_ret. split; [apply mem_step_refl; by eexists|]. by destruct g.
Qed.
Lemma writes_unique w b1 b2 : writes w b1 → writes w b2 → b1 = b2.
Proof.
  intros H1 H2. specialize (H1 [] (length b1 + length b2) fresh_heap). specialize (H2 [] (length b1 + length b2) fresh_heap).
  rewrite H1 in H2 by lia. specialize (H2 ltac:(lia)). by injection H2.
Qed.
Lemma all_genfs_round_trip p p0 :
  p_genfs p0 = [] → (∀ st, read_genfs p0 st = read_genfs p st) → StronglySorted genfs_before (p_genfs p) → word (length (p_genfs p)) →
  Forall (genfs_storable p) (p_genfs p) →
  round_trip (genfs_write p) (erase (read_all_genfs p0)) (λ st, st.1 = p_genfs p).
Proof.
  intros H0 Hsame Hs Hw Hg. destruct (choose_bytes (λ g bs, writes (fs_writer p g) bs ∧
    ∀ before linked, Forall (λ g', genfs_before g' g) before → reads (erase (read_genfs p (before, linked))) bs (λ st, st.1 = before ++ [g])) (p_genfs p))
    as (bss&Hbs&Hbss).
  { intros g Hin. rewrite Forall_forall in Hg. specialize (Hg g Hin). destruct (fs_round_trip p [] g false) as (bs&Hwr&_); [done..|].
    exists bs. split; [done|]. intros before linked Hb. destruct (fs_round_trip p before g linked) as (bs'&Hwr'&Hr); [done..|].
    by rewrite (writes_unique _ _ _ Hwr Hwr'). }
  exists (cpu_to_le 4 [Z.of_nat (length (p_genfs p))] ++ (bss ≫= snd)). split.
  - unfold genfs_write. apply writes_then; [by apply writes_words; cbn; lia|]. rewrite <- Hbs. apply each_writes. intros xb Hxb. by apply (Hbss xb).
  - apply erase_bind. eapply reads_bind; [by apply erase_within, reads_words|]. intros buf ->. rewrite (le_word _ 0 (length (p_genfs p))) by done.
    apply erase_times. rewrite <- Hbs at 1. rewrite length_fmap, H0.
    eapply reads_mono; [apply (reads_times bss _ _ snd (λ l1 st, st.1 = l1.*1)); [done..|]|intros st ->; done].
    intros [g bs] l1 l2 [l lk] Hl Hst. cbn [fst snd] in Hst |- *. subst l. rewrite fmap_app, Hsame. apply (Hbss (g, bs)).
    + rewrite Hl. apply elem_of_app. right. by left.
    + apply (sorted_snoc _ _ _ (l2.*1)). by rewrite <- Hbs, Hl, fmap_app, fmap_cons in Hs.
Qed.

(** *** File systems: what is in the list, whatever the file says *)

Definition keeps {A} (b : Built A) (Inv : list genfs → Prop) (P : A → Prop) : Prop := ∀ fp h r fp' h',
  b fp h = Some ((r, fp'), h') → match r with inl (l, _) => Inv l | inr x => P x end.
Lemma keeps_bind {A B} (b : Built A) (f : A → Built B) Inv P Q :
  keeps b Inv P → (∀ x, P x → keeps (f x) Inv Q) → keeps (built_bind b f) Inv Q.
Proof.
  intros Hb Hf fp h r fp' h'. unfold built_bind, mbind, CM_bind. destruct (b fp h) as [[[r1 fp1] h1]|] eqn:E; [|done].
  specialize (Hb _ _ _ _ _ E). destruct r1 as [[l lk]|x]; [by intros [= <- <- <-]|]. intros Hr. by eapply Hf.
Qed.
Lemma keeps_ret {A} (x : A) Inv (P : A → Prop) : P x → keeps (built_ret x) Inv P.
Proof. intros Hx fp h r fp' h' [= <- <- <-]. done. Qed.
Lemma keeps_bad {A} l lk (Inv : list genfs → Prop) (P : A → Prop) : Inv l → keeps (bad l lk) Inv P.
Proof. intros Hx fp h r fp' h' [= <- <- <-]. done. Qed.
Definition accepts {A} (r : Reader A) (P : A → Prop) : Prop := ∀ fp h x fp' h', r fp h = Some ((inr x, fp'), h') → P x.
Lemma keeps_within {A} l lk (r : Reader A) (Inv : list genfs → Prop) P : Inv l → accepts r P → keeps (within l lk r) Inv P.
Proof.
  intros Hl Hr fp h r' fp' h'. unfold within, mbind, CM_bind. destruct (r fp h) as [[[[e|y] fp1] h1]|] eqn:E; [| |done]; intros [= <- <- <-]; [done|].
  by eapply Hr.
Qed.
Lemma keeps_times {S} n (body : S → Built S) s (Inv : list genfs → Prop) (P : S → Prop) :
  P s → (∀ s, P s → keeps (body s) Inv P) → keeps (built_times n body s) Inv P.
Proof.
  intros Hs Hb fp h r fp' h'. unfold built_times, for_loop. generalize 0 at 2. generalize (Z.to_nat (n - 0)). intros k.
  revert s fp h Hs. induction k as [|k IH]; intros s fp h Hs i; [by intros [= <- <- <-]|].
  cbn [for_range]. unfold mbind, CM_bind, mret, CM_ret. unfold mbind, CM_bind, mret, CM_ret in IH.
  destruct (body s fp h) as [[[[e|s1] fp1] h1]|] eqn:E; [| |done].
  - intros [= <- <- <-]. exact (Hb s Hs _ _ _ _ _ E).
  - apply IH. exact (Hb s Hs _ _ _ _ _ E).
Qed.
Lemma accepts_any {A} (r : Reader A) : accepts r (λ _, True).
Proof. done. Qed.
Lemma accepts_bind {A B} (r : Reader A) (f : A → Reader B) P : (∀ x, accepts (f x) P) → accepts (r ≫= f) P.
Proof.
  intros Hf fp h y fp' h'. unfold mbind, Reader_bind, mbind, CM_bind. destruct (r fp h) as [[[[e|x] fp1] h1]|]; [done| |done]. apply Hf.
Qed.

(** the types of file systems and their entries are in order *)
Definition genfs_ordered (l : list genfs) : Prop :=
  StronglySorted genfs_before l ∧ Forall (λ g, StronglySorted entry_before (gf_head g) ∧ Forall named (gf_head g)) l.
Lemma read_entry_accepts p : accepts (read_entry p) named.
Proof. unfold read_entry. do 4 (apply accepts_bind; intros ?). intros fp h oc fp' h' [= <- <- <-]. by eexists. Qed.
Lemma genfs_ordered_at before after fs :
  (∀ head, StronglySorted genfs_before (before ++ Genfs fs head :: after)) → genfs_ordered (before ++ after) →
  ∀ head, StronglySorted entry_before head → Forall named head → genfs_ordered (before ++ Genfs fs head :: after).
Proof.
  intros Hs [_ [Hb Ha]%Forall_app] head He Hn. split; [apply Hs|]. apply Forall_app. split; [done|]. by apply Forall_cons.
Qed.
Lemma read_entries_keeps p before after fs n linked :
  (∀ head, StronglySorted genfs_before (before ++ Genfs fs head :: after)) → genfs_ordered (before ++ after) →
  keeps (read_entries p before after fs n linked) genfs_ordered (λ '(head, _), StronglySorted entry_before head ∧ Forall named head).
Proof.
  intros Hs Ho. pose proof (genfs_ordered_at before after fs Hs Ho) as Hat. apply keeps_times; [by repeat constructor|].
  intros [head lk] [Hh Hn]. cbv zeta. specialize (Hat head Hh Hn).
  eapply keeps_bind; [by apply keeps_within, accepts_any|]. intros _ _.
  eapply keeps_bind; [apply keeps_within; [done|apply read_entry_accepts]|]. intros newc Hc.
  destruct (place_entry newc head) as [head'|] eqn:E; [|by apply keeps_bad]. apply keeps_ret.
  destruct (place_entry_sorted _ _ _ Hh E) as [Hh' Hin]. split; [done|]. apply Forall_forall. intros c [->|Hc']%Hin; [done|].
  rewrite Forall_forall in Hn. by apply Hn.
Qed.
Lemma read_genfs_keeps p st : genfs_ordered st.1 → keeps (read_genfs p st) genfs_ordered (λ st', genfs_ordered st'.1).
Proof.
  destruct st as [l lk]. intros Hl. cbn in Hl. eapply keeps_bind; [by apply keeps_within, accepts_any|]. intros buf _.
  eapply keeps_bind; [by apply keeps_within, accepts_any|]. intros _ _.
  eapply keeps_bind; [by apply keeps_within, accepts_any|]. intros fs _.
  destruct (place_genfs fs l) as [[before after]|] eqn:E; [|by apply keeps_bad].
  destruct (place_genfs_sorted _ _ _ _ (proj1 Hl) E) as [-> Hs]. pose proof (genfs_ordered_at before after fs Hs Hl) as Hat.
  eapply keeps_bind; [apply keeps_within; [apply Hat; constructor|apply accepts_any]|]. intros buf2 _.
  eapply keeps_bind; [by apply read_entries_keeps|]. intros [head lk'] [Hh Hn]. apply keeps_ret. by apply Hat.
Qed.
Lemma read_all_genfs_keeps p : genfs_ordered (p_genfs p) → keeps (read_all_genfs p) genfs_ordered (λ st', genfs_ordered st'.1).
Proof.
  intros Hp. eapply keeps_bind; [by apply keeps_within, accepts_any|]. intros buf _. apply keeps_times; [done|].
  intros st Hst. by apply read_genfs_keeps.
Qed.

(** *** Range transitions *)

(** the policy before its objects are read *)
Definition without_objects p : policydb :=
  Policydb (policy_type p) (policyvers p) (mls p) (p_classes p) (p_roles p) (p_types p) (p_users p) (p_bools p)
    (p_levels p) (p_cats p) (p_sens_val_to_name p) (p_cat_val_to_name p) (p_class_val_to_name p)
    (p_role_val_to_name p) (p_type_val_to_name p) (p_user_val_to_name p) (class_val_to_struct p)
    (role_val_to_struct p) (user_val_to_struct p) (type_val_to_struct p) (te_avtab p) (te_cond_avtab p)
    (bool_val_to_struct p) (cond_list p) (p_role_tr p) (p_filename_trans p) (p_role_allow p) [] (type_attr_map p)
    (permissive_map p) (attr_type_map p) (replicate (length (ocontexts p)) []) [].
Definition range_trans_storable (l : list range_trans) : Prop :=
  word (length l) ∧ Forall (λ rt, word (rtr_source_type rt) ∧ word (rtr_target_type rt) ∧ word (rtr_target_class rt) ∧
    range_storable (rtr_target_range rt)) l.
(** the transitions that the format holds *)
Definition ranges_written p : list range_trans := filter (λ rt, range_written p rt = true) (p_range_tr p).
Definition range_trans_bytes p (rt : range_trans) : list byte :=
  cpu_to_le 4 [rtr_source_type rt; rtr_target_type rt] ++ (if new_rangetr p then cpu_to_le 4 [rtr_target_class rt] else []) ++
  range_bytes (rtr_target_range rt).
Lemma ranges_round_trip p :
  policy_type p = POLICY_KERN → range_trans_storable (p_range_tr p) →
  round_trip (range_write p) (range_read (without_objects p)) (λ r, r = (ranges_written p, [])).
Proof.
  intros Hk [Hl Hw]. rewrite Forall_forall in Hw. exists (list_bytes (range_trans_bytes p) (ranges_written p)). split.
  - unfold range_write. apply writes_then; [by apply writes_words|]. apply (writes_filter (range_written p)). intros rt Hrt.
    destruct (Hw rt Hrt) as (H1&H2&H3&H4). unfold range_written, range_trans_bytes.
    destruct (new_rangetr p); cbn [negb andb orb].
    + apply writes_then; [by apply writes_words|]. apply writes_then; [by apply writes_words|by apply range_writes].
    + destruct (rtr_target_class rt =? SECCLASS_PROCESS); [|apply writes_done]. cbn [negb].
      apply writes_then; [by apply writes_words|]. apply writes_then; [apply writes_done|by apply range_writes].
  - unfold range_read. change (policy_type (without_objects p)) with (policy_type p). rewrite Hk. change (POLICY_KERN =? POLICY_KERN) with true. cbv zeta iota.
    change (read_range_trans (without_objects p)) with (read_range_trans p).
    apply reads_assoc. eapply reads_bind_last; [apply list_reads with (f := range_trans_bytes p) (l := ranges_written p)|intros l ->; apply reads_ret; by destruct (ranges_written p)].
    { destruct Hl as [_ Hl]. split; [lia|]. pose proof (length_filter (λ rt, range_written p rt = true) (p_range_tr p)). unfold ranges_written. lia. }
    intros rt l1 [Hp Hrt]%list_elem_of_filter. destruct (Hw rt Hrt) as (H1&H2&H3&H4).
    unfold read_range_trans. apply (reads_bind_last _ _ _ (λ rt', rt' = rt)); [|intros rt' ->; by apply reads_ret].
    eapply reads_bind_nil; [by apply reads_new|]. intros _ _. eapply reads_bind; [by apply reads_words|]. intros buf ->.
    apply (reads_bind _ _ _ _ (λ t, t = rtr_target_class rt)).
    + unfold range_written in Hp. destruct (new_rangetr p); [|apply reads_ret; symmetry; by apply Z.eqb_eq in Hp].
      eapply reads_bind_last; [by apply reads_words|]. intros buf ->. apply reads_ret. by rewrite (le_word _ 0 (rtr_target_class rt)).
    + intros t ->. eapply reads_bind_last; [apply reads_or_fail; [done|by apply (range_reads (rtr_target_range rt))]|]. intros r ->. apply reads_ret.
      rewrite (le_word _ 0 (rtr_source_type rt)), (le_word _ 1 (rtr_target_type rt)) by done. by destruct rt.
Qed.
End theory.

(** ** Properties *)

Section properties.
Context `{Target}.
(** lists of object contexts as a reader makes them; those that a format does
    not have are empty *)
Definition objects_storable (p : policydb) (kind : nat → ocontext → Prop) (ocon_num : nat) : Prop :=
  (ocon_num ≤ length (ocontexts p))%nat ∧
  (∀ i l, (ocon_num ≤ i)%nat → ocontexts p !! i = Some l → l = []) ∧
  (∀ i l, ocontexts p !! i = Some l → word (length l) ∧ ∀ oc, oc ∈ l → kind i oc).
Lemma kind_round_trip p (kind : nat → ocontext → Prop) w r ocon_num :
  (∀ i oc, kind i oc → round_trip (w i oc) (r i) (λ x, x = oc)) → objects_storable p kind ocon_num →
  round_trip (write_ocontexts ocon_num w (ocontexts p)) (read_ocontexts ocon_num r (replicate (length (ocontexts p)) [])) (λ o, o = ocontexts p).
Proof.
  intros Hr (Hn&Hrest&Hl). apply ocontexts_round_trip; [exact Hn|exact Hrest|]. intros i l Hi. destruct (Hl i l Hi) as [Hw Hoc].
  split; [exact Hw|]. intros oc Hin. by apply Hr, Hoc.
Qed.
Lemma selinux_without_objects n p :
  ocontext_read SEPOL_TARGET_SELINUX n (without_objects p) = read_ocontexts n (read_selinux p) (replicate (length (ocontexts p)) []).
Proof. reflexivity. Qed.
Lemma xen_without_objects n p :
  ocontext_read SEPOL_TARGET_XEN n (without_objects p) = read_ocontexts n (read_xen p) (replicate (length (ocontexts p)) []).
Proof. reflexivity. Qed.
Lemma reads_erased {A} (b : Built A) bs P : reads (erase b) bs P → ∀ rest h,
  wp (b (mem_input (bs ++ rest))) (λ '(r, fp) h', mem_step h h' (∃ x, r = inr x) ∧
    match r with inr x => P x ∧ fp = mem_input rest | inl _ => True end) h.
Proof.
  intros Hr rest h. specialize (Hr rest h). unfold wp, erase, mbind, CM_bind in *. destruct (b _ h) as [[[[e|x] fp] h']|]; [| |done].
  - destruct Hr as [Hm _]. split; [|done]. eapply mem_step_mono, Hm. by intros [? ?].
  - destruct Hr as [Hm Hx]. split; [|done]. eapply mem_step_mono, Hm. intros _. by eexists.
Qed.
End properties.

Module ExampleObj.
Definition port : ocontext := OContext (UPort 6 80 80) 0 ExampleCtx.con context_init 0 0.
Definition initial (sid : Z) : ocontext := OContext no_name 0 ExampleCtx.con context_init sid 0.
Definition entry (path : string) : ocontext := OContext (UName path) 0 ExampleCtx.con context_init 0 0.
Definition transition : range_trans := RangeTrans 1 2 2 (MlsRange (MlsLevel 1 ebitmap_init) (MlsLevel 2 ebitmap_init)).
Definition policy : policydb := let p := ExampleCtx.policy in
  Policydb (policy_type p) (policyvers p) (mls p) (p_classes p) (p_roles p) (p_types p) (p_users p) (p_bools p)
    (p_levels p) (p_cats p) (p_sens_val_to_name p) (p_cat_val_to_name p) (p_class_val_to_name p)
    (p_role_val_to_name p) (p_type_val_to_name p) (p_user_val_to_name p) (class_val_to_struct p)
    (role_val_to_struct p) (user_val_to_struct p) (type_val_to_struct p) (te_avtab p) (te_cond_avtab p)
    (bool_val_to_struct p) (cond_list p) (p_role_tr p) (p_filename_trans p) (p_role_allow p) [transition] (type_attr_map p)
    (permissive_map p) (attr_type_map p) [[initial 1; initial 2]; []; [port]; []; []; []; []]
    [Genfs "proc" [entry "/net/tcp"; entry "/"]; Genfs "sysfs" [entry "/"]].
Lemma con_kept `{Target} : context_kept policy ExampleCtx.con.
Proof.
  assert (Hs : context_storable ExampleCtx.policy ExampleCtx.con) by (do 3 (split; [done|]; intros; by repeat split)).
  split; [exact Hs|]. split; [done|].
  apply (context_valid_runs ExampleCtx.policy Example.slots Example.slots ExampleMls.levels ExampleCtx.con);
    [apply ExampleCtx.ctx_labels|done|exact Hs|apply ExampleCtx.con_valid].
Qed.
Lemma entry_storable `{Target} path : key_storable path → genfs_ocontext policy (entry path).
Proof. intros Hp. apply go_entry; [done|by split|apply con_kept]. Qed.
Lemma genfs_all_storable `{Target} : Forall (genfs_storable policy) (p_genfs policy).
Proof.
  assert (Hk : key_storable "/" ∧ key_storable "/net/tcp" ∧ key_storable "proc" ∧ key_storable "sysfs") by (do 3 (split; [split; by vm_compute|]); split; by vm_compute).
  destruct Hk as (H1&H2&H3&H4). repeat (apply Forall_cons; split); [| |done]; (split; [done|by split| |]).
  - apply SSorted_cons; [by repeat constructor|]. apply Forall_cons. split; [by split; vm_compute|done].
  - apply Forall_cons. split; [by apply entry_storable|]. apply Forall_cons. split; [by apply entry_storable|done].
  - by repeat constructor.
  - apply Forall_cons. split; [by apply entry_storable|done].
Qed.
Lemma lists_storable `{Target} : objects_storable policy (selinux_ocontext policy) OCON_NUM.
Proof.
  split; [done|]. split; [intros i l Hi Hl; apply lookup_lt_Some in Hl; change (i < 7)%nat in Hl; unfold OCON_NUM in Hi; lia|].
  intros i l Hl. destruct i as [|[|[|i]]].
  - injection Hl as <-. split; [by split|]. intros oc [->|Hoc]%elem_of_cons; [|apply list_elem_of_singleton in Hoc as ->]; (apply so_isid; [apply con_kept|by split]).
  - injection Hl as <-. split; [by split|]. by intros oc ?%not_elem_of_nil.
  - injection Hl as <-. split; [by split|]. intros oc ->%list_elem_of_singleton. apply so_port; [by split..|apply con_kept].
  - assert (l = []) as ->; [|split; [by split|]; by intros oc ?%not_elem_of_nil]. do 4 (destruct i as [|i]; [by injection Hl|]). done.
Qed.
End ExampleObj.

(** round trip of the object contexts and range transitions of a kernel
    policy, for SELinux and for Xen: what the writer stores of them, the
    reader, on a policy without objects, makes again, in the same order; of the
    transitions those that the format holds. *)
Theorem objects_roundtrip `{Target} p target_platform ocon_num :
  policy_type p = POLICY_KERN → range_trans_storable (p_range_tr p) →
  (target_platform = SEPOL_TARGET_SELINUX ∧ objects_storable p (selinux_ocontext p) ocon_num ∨
   target_platform = SEPOL_TARGET_XEN ∧ objects_storable p (xen_ocontext p) ocon_num) →
  round_trip (ocontext_write target_platform ocon_num p) (ocontext_read target_platform ocon_num (without_objects p))
    (λ o, o = ocontexts p) ∧
  round_trip (range_write p) (range_read (without_objects p)) (λ r, r = (ranges_written p, [])).
Proof.
  intros Hk Hr Ho. split; [|by apply ranges_round_trip].
  destruct Ho as [[-> Ho]|[-> Ho]]; [rewrite selinux_without_objects|rewrite xen_without_objects].
  - apply (kind_round_trip p _ _ _ ocon_num (selinux_round_trip p) Ho).
  - apply (kind_round_trip p _ _ _ ocon_num (xen_round_trip p) Ho).
Qed.

(** C30: the file systems of a policy, in the order that [sepol_genfs_sid]
    relies on, are read back as they were written; and whatever a file says,
    and wherever the reader gives up, the types of file systems it leaves in
    the policy are in strict order and without a second entry for a path, and
    their entries are never after shorter ones. *)
Theorem genfs_roundtrip_ordered `{Target} p :
  (StronglySorted genfs_before (p_genfs p) → word (length (p_genfs p)) → Forall (genfs_storable p) (p_genfs p) →
    ∃ bs, writes (genfs_write p) bs ∧ ∀ rest h,
      wp (genfs_read (without_objects p) (mem_input (bs ++ rest))) (λ '(rc, l, freed, fp) h', mem_step h h' (rc = 0) ∧
        (rc = 0 → l = p_genfs p ∧ freed = false ∧ fp = mem_input rest)) h) ∧
  ∀ fp h rc l freed fp' h', genfs_ordered (p_genfs p) → genfs_read p fp h = Some ((rc, l, freed, fp'), h') → genfs_ordered l.
Proof.
  split.
  - intros Hs Hw Hg. destruct (all_genfs_round_trip p (without_objects p)) as (bs&Hwr&Hr); [done..|]. exists bs. split; [done|].
    intros rest h. apply wp_bind. eapply wp_mono; [by apply reads_erased|]. intros [[[l lk]|[l lk]] fp] h' [Hm Hx]; apply wp_ret.
    + split; [|done]. eapply mem_step_mono, Hm. by intros [? ?].
    + destruct Hx as [Hl ->]. split; [|done]. by eapply mem_step_mono, Hm.
  - intros fp h rc l freed fp' h' Hp. unfold genfs_read, mbind, CM_bind.
    destruct (read_all_genfs p fp h) as [[[r fp1] h1]|] eqn:E; [|done]. pose proof (read_all_genfs_keeps p Hp _ _ _ _ _ E) as Hr.
    destruct r as [[l1 lk]|[l1 lk]]; intros [= <- <- <- <- <-]; exact Hr.
Qed.

#[local] Existing Instance target_arm.

(** witness of [objects_roundtrip] *)
Lemma objects_roundtrip_witness :
  round_trip (ocontext_write SEPOL_TARGET_SELINUX OCON_NUM ExampleObj.policy)
    (ocontext_read SEPOL_TARGET_SELINUX OCON_NUM (without_objects ExampleObj.policy)) (λ o, o = ocontexts ExampleObj.policy) ∧
  round_trip (range_write ExampleObj.policy) (range_read (without_objects ExampleObj.policy)) (λ r, r = (ranges_written ExampleObj.policy, [])).
Proof.
  apply (@objects_roundtrip target_arm ExampleObj.policy SEPOL_TARGET_SELINUX OCON_NUM).
  - reflexivity.
  - split; [split; by vm_compute|]. apply Forall_cons. split; [|done]. split_and!; [by split|by split|by split|]. split; (split; [by split|apply ebitmap_init_wf]).
  - left. split; [reflexivity|exact ExampleObj.lists_storable].
Defined.

(** witness of C30 *)
Lemma genfs_roundtrip_ordered_witness :
  ∃ bs, writes (genfs_write ExampleObj.policy) bs ∧
  wp (genfs_read (without_objects ExampleObj.policy) (mem_input (bs ++ []))) (λ '(rc, l, freed, fp) h', mem_step fresh_heap h' (rc = 0) ∧
    (rc = 0 → l = p_genfs ExampleObj.policy ∧ freed = false ∧ fp = mem_input [])) fresh_heap.
Proof.
  destruct (proj1 (@genfs_roundtrip_ordered target_arm ExampleObj.policy)) as (bs&Hw&Hr).
  - repeat constructor.
  - split; by vm_compute.
  - exact ExampleObj.genfs_all_storable.
  - exists bs. split; [exact Hw|apply Hr].
Defined.
