(* ===== verification/CondIO.v ===== *)
(** * Conditional rules in policy files, and rules of modules
    ([conditional.c], [policydb.c], [write.c])

    The reader puts the rules of each conditional into [te_cond_avtab] and
    refuses type rules that conflict; the writer stores the rules of each
    conditional in its place.  Formats before version 20 have no attributes in
    rules, and one entry for the rules of a key: tables are expanded and merged
    before they are written. *)

From S2P Require Import Prelude PolicyFile Hashtab Symtab Ebitmap EbitmapIO Avtab AvtabIO Context Policydb Conditional CondList ExpandAvtab Readers RulesIO.

Section io.
Context `{Target}.

(** ** Rules of modules *)

Definition read_class_perm (perms : list class_perm_node) : Reader (list class_perm_node) :=
  _ ← new (-1);
  buf ← or_fail (-1) (get_entry 8);
  mret (perms ++ [ClassPerm (le_to_cpu 4 buf 0) (le_to_cpu 4 buf 1)]).
(** a null rule is an error for the caller *)
Definition avrule_read : Reader avrule :=
  _ ← new (-1);
  buf ← or_fail (-1) (get_entry 8);
  stypes ← or_fail (-1) type_set_read;
  ttypes ← or_fail (-1) type_set_read;
  buf2 ← or_fail (-1) (get_entry 4);
  perms ← times (le_to_cpu 4 buf2 0) read_class_perm [];
  mret (AvRule (le_to_cpu 4 buf 0) (le_to_cpu 4 buf 1) stypes ttypes perms 0).
Definition avrule_read_list : Reader (list avrule) :=
  buf ← or_fail (-1) (get_entry 4);
  times (le_to_cpu 4 buf 0) (λ l, r ← avrule_read; mret (l ++ [r])) [].
Definition avrule_write (r : avrule) : Writer :=
  put_words [avr_specified r; avr_flags r];;;
  type_set_write (avr_stypes r);;;
  type_set_write (avr_ttypes r);;;
  put_words [Z.of_nat (length (avr_perms r))];;;
  write_each (λ cp, put_words [cp_class cp; cp_data cp]) (avr_perms r).
(** the code of [avrule_write] is not looked at *)
Fixpoint write_avrules (l : list avrule) : Writer :=
  match l with
  | [] => done
  | r :: l => λ fp, '(_, fp) ← avrule_write r fp; write_avrules l fp
  end.
Definition avrule_write_list (l : list avrule) : Writer := put_words [Z.of_nat (length l)];;; write_avrules l.

(** ** Reading conditionals *)

(** [avtab_search_node(&p->te_cond_avtab, k)] when the true list is [other] *)
Definition in_true_list (ctab : avtab) (other : list Z) (k : avtab_key) : CM bool :=
  node ← avtab_search_node ctab k;
  mret (match node with
    | [] => true
    | nd :: _ => match avtab_search_node_next node (specified k) with
        | _ :: _ => false
        | [] => bool_decide (av_addr nd ∈ other)
        end
    end).
(** the test for conflicts; without a true list none may be there *)
Definition no_conflict (p : policydb) (ctab : avtab) (other : list Z) (k : avtab_key) : CM bool :=
  if negb (truth (Z.land (specified k) AVTAB_TYPE)) then mret true else
  r ← avtab_search (te_avtab p) k;
  match r with
  | Some _ => mret false
  | None =>
      match other with
      | [] => r ← avtab_search ctab k; mret (match r with Some _ => false | None => true end)
      | _ => in_true_list ctab other k
      end
  end.
(** the table and the list from [data->head] *)
Definition cond_insertf (p : policydb) (other : list Z) (k : avtab_key) (d : avtab_datum) '((ctab, l) : avtab * list Z)
    : CM (Z * (avtab * list Z)) :=
  ok ← no_conflict p ctab other k;
  if negb ok then mret (-1, (ctab, [])) else
  '(node_ptr, ctab) ← avtab_insert_nonunique ctab k d;
  match node_ptr with
  | None => mret (-1, (ctab, []))
  | Some a =>
      let ctab := av_update ctab a (λ nd, with_parse_context nd 1) in
      list ← malloc;
      mret (match list with None => (-1, (ctab, [])) | Some _ => (0, (ctab, l ++ [a])) end)
  end.
Definition read_cond_item (junk : list byte) (p : policydb) (other : list Z) (st : avtab * list Z) : Reader (avtab * list Z) := λ fp,
  '(rc, st, fp) ← avtab_read_item (cond_insertf p other) junk fp (policyvers p) st;
  mret (M := CM) (if truth rc then inl rc else inr st, fp).
Definition cond_read_av_list (junk : list byte) (p : policydb) (other : list Z) (ctab : avtab) : Reader (avtab * list Z) :=
  buf ← or_fail (-1) (get_entry 4);
  times (le_to_cpu 4 buf 0) (read_cond_item junk p other) (ctab, []).
Definition expr_isvalid (p : policydb) (e : cond_expr) : bool :=
  if (cond_type e <=? 0) || (COND_LAST <? cond_type e) then false
  else negb (nprim (p_bools p) <? cond_bool e).
Definition read_cond_expr (p : policydb) (l : list cond_expr) : Reader (list cond_expr) :=
  buf ← or_fail (-1) (get_entry 8);
  _ ← new (-1);
  let e := CondExpr (le_to_cpu 4 buf 0) (le_to_cpu 4 buf 1) in
  if negb (expr_isvalid p e) then fail (-1) else mret (l ++ [e]).
Definition cond_has_flags (p : policydb) : bool :=
  negb (policy_type p =? POLICY_KERN) && (MOD_POLICYDB_VERSION_TUNABLE_SEP <=? policyvers p).
(** the table and a node that was cleared *)
Definition cond_read_node (junk : list byte) (p : policydb) (ctab : avtab) : Reader (avtab * cond_node) :=
  buf ← or_fail (-1) (get_entry 4);
  buf2 ← or_fail (-1) (get_entry 4);
  expr ← times (i32 (le_to_cpu 4 buf2 0)) (read_cond_expr p) [];
  '(ctab, tl, fl, atl, afl) ←
    (if policy_type p =? POLICY_KERN then
       '(ctab, tl) ← or_fail (-1) (cond_read_av_list junk p [] ctab);
       '(ctab, fl) ← or_fail (-1) (cond_read_av_list junk p tl ctab);
       mret (ctab, tl, fl, [], [])
     else
       atl ← or_fail (-1) avrule_read_list;
       afl ← or_fail (-1) avrule_read_list;
       mret (ctab, [], [], atl, afl));
  flags ← (if cond_has_flags p then b ← or_fail (-1) (get_entry 4); mret (le_to_cpu 4 b 0) else mret 0);
  mret (ctab, CondNode (i32 (le_to_cpu 4 buf 0)) expr tl fl atl afl 0 (replicate 5 0) 0 flags).
(** the table and the list *)
Definition cond_read_list (junk : list byte) (p : policydb) : Reader (avtab * list cond_node) :=
  buf ← or_fail (-1) (get_entry 4);
  ctab ← or_fail (-1) (lift (avtab_alloc (te_cond_avtab p) (av_nel (te_avtab p))));
  times (i32 (le_to_cpu 4 buf 0)) (λ '(ctab, l),
    _ ← new (-1);
    '(ctab, node) ← or_fail (-1) (cond_read_node junk p ctab);
    mret (ctab, l ++ [node])) (ctab, []).

(** ** Writing rules in the format before version 20 *)

Definition oldvers (p : policydb) : bool := (policy_type p =? POLICY_KERN) && (policyvers p <? POLICYDB_VERSION_AVTAB).
(** a chain from the node at [a] on *)
Fixpoint chain_from (a : Z) (c : list avtab_node) : list avtab_node :=
  match c with
  | [] => []
  | nd :: next => if av_addr nd =? a then c else chain_from a next
  end.
Definition cursor (h : avtab) (a : Z) : CM (list avtab_node) :=
  t ← deref (av_htable h);
  deref (head (filter (λ c, c ≠ []) (chain_from a <$> t))).
Definition with_merged (m : Z) (nd : avtab_node) : avtab_node :=
  AvNode (av_addr nd) (key nd) (datum nd) (parse_context nd) m.
Definition old_val (k : avtab_key) : Z :=
  Z.lor (Z.land (specified k) (Z.lnot AVTAB_ENABLED)) (if truth (Z.land (specified k) AVTAB_ENABLED) then AVTAB_ENABLED_OLD else 0).
(** [if (nel) ( *nel)--;] *)
Definition uncount (nel : option Z) : option Z := (λ n, u32 (n - 1)) <$> nel.
(** the loop over [spec_order]: the table, the data, [set] and [*nel] *)
Definition merge_items (cur : list avtab_node) (val : Z) (h : avtab) (set : Z) (nel : option Z)
    : CM ((avtab * option Z) + (avtab * list Z * Z * option Z)) :=
  for_list spec_order (λ spec '(h, words, set, nel),
    if truth (Z.land val spec) then
      let mine := match cur with nd :: _ => truth (Z.land (specified (key nd)) spec) | [] => false end in
      let node := if mine then cur else avtab_search_node_next cur spec in
      let nel := if mine then nel else uncount nel in
      mret (match node with
        | [] => inl (h, nel)
        | nd :: _ => inr (av_update h (av_addr nd) (with_merged 1), words ++ [data (datum nd)], u32 (set - 1), nel)
        end)
    else mret (inr (h, words, set, nel))) (h, [], set, nel).
(** the item of the node at [a] of the table [h]; the nodes whose data it takes
    are marked *)
Definition write_old_item (h : avtab) (a : Z) (merge commit : bool) (nel : option Z) (fp : policy_file)
    : CM (Z * avtab * option Z * policy_file) :=
  cur ← cursor h a;
  nd ← deref (head cur);
  if merge && truth (merged nd) then mret (POLICYDB_SUCCESS, h, nel, fp) else
  let k := key nd in
  let lookup := if truth (Z.land (old_val k) AVTAB_AV) then AVTAB_AV else AVTAB_TYPE in
  if merge && negb (truth (Z.land (old_val k) (Z.lor AVTAB_AV AVTAB_TYPE))) then mret (POLICYDB_ERROR, h, nel, fp) else
  let similar := if merge then avtab_iterate (length cur) (avtab_search_node_next cur lookup) lookup else [] in
  let val := fold_left (λ v nd, Z.lor v (old_val (key nd))) similar (old_val k) in
  let set := 1 + Z.of_nat (length similar) in
  if negb (truth (Z.land val (Z.lor AVTAB_AV AVTAB_TYPE))) then mret (POLICYDB_ERROR, h, nel, fp) else
  if truth (Z.land val AVTAB_AV) && truth (Z.land val AVTAB_TYPE) then mret (POLICYDB_ERROR, h, nel, fp) else
  r ← (if merge then merge_items cur val h set nel
       else mret (inr (av_update h (av_addr nd) (with_merged 1), [data (datum nd)], u32 (set - 1), nel)));
  match r with
  | inl (h, nel) => mret (POLICYDB_ERROR, h, nel, fp)
  | inr (h, words, set, nel) =>
      if truth set then mret (POLICYDB_ERROR, h, nel, fp) else
      let items := [source_type k; target_type k; target_class k; val] ++ words in
      if commit then
        '(rc, fp) ← put_words (Z.of_nat (length items) :: items) fp;
        mret (rc, h, nel, fp)
      else mret (POLICYDB_SUCCESS, h, nel, fp)
  end.
Definition avtab_write_item (p : policydb) (h : avtab) (a : Z) (merge commit : bool) (nel : option Z) (fp : policy_file)
    : CM (Z * avtab * option Z * policy_file) :=
  if oldvers p then write_old_item h a merge commit nel fp else
  nd ← deref (av_find h a);
  let '(rc, fp) := avtab_write_item_new nd fp in
  mret (rc, h, nel, fp).
Definition avtab_reset_merged (h : avtab) : avtab :=
  Avtab (fmap (M := list) (fmap (M := list) (with_merged 0)) <$> av_htable h) (av_nel h) (nslot h) (mask h).
(** the loops over a table of [avtab_write] *)
Definition write_old_items (p : policydb) (h : avtab) (commit : bool) (nel : option Z) (fp : policy_file)
    : CM ((avtab * policy_file) + (avtab * option Z * policy_file)) :=
  for_loop 0 (nslot h) (λ i '(h, nel, fp),
    t ← deref (av_htable h);
    chain ← deref (av_slot t i);
    for_list (av_addr <$> chain) (λ a '(h, nel, fp),
      '(rc, h, nel, fp) ← avtab_write_item p h a true commit nel fp;
      mret (if truth rc then inl (h, fp) else inr (h, nel, fp))) (h, nel, fp)) (h, nel, fp).
Definition avtab_write (p : policydb) (a : avtab) : Writer := λ fp,
  if negb (oldvers p) then avtab_write_new a fp else
  let '(_, expa) := avtab_init empty_avtab in
  '(rc, expa) ← expand_avtab p a expa;
  if truth rc then mret (M := CM) (-1, fp) else
  r ← write_old_items p (avtab_reset_merged expa) false (Some (av_nel expa)) fp;
  match r with
  | inl (_, fp) => mret (M := CM) (-1, fp)
  | inr (expa, nel, fp) =>
      '(rc, fp) ← put_words [default 0 nel] fp;
      if truth rc then mret (M := CM) (-1, fp) else
      r ← write_old_items p (avtab_reset_merged expa) true None fp;
      mret (M := CM) (match r with inl (_, fp) => (-1, fp) | inr (_, _, fp) => (0, fp) end)
  end.

(** ** Writing conditionals *)

(** the rules at the addresses [l] of [h] that have a place in the list *)
Definition write_cond_rules (p : policydb) (h : avtab) (l : list Z) : Writer := λ fp,
  len ← foldr (λ a len, n ← len; nd ← deref (av_find h a); mret (if truth (parse_context nd) then n + 1 else n)) (mret 0) l;
  '(rc, fp) ← put_words [len] fp;
  if truth rc then mret (M := CM) (-1, fp) else
  if len =? 0 then mret (M := CM) (0, fp) else
  r ← for_list l (λ a '(h, fp),
    nd ← deref (av_find h a);
    if truth (parse_context nd) then
      '(rc, h, _, fp) ← avtab_write_item p h a false true None fp;
      mret (if truth rc then inl (h, fp) else inr (h, fp))
    else mret (inr (h, fp))) (h, fp);
  mret (M := CM) (match r with inl (_, fp) => (-1, fp) | inr (_, fp) => (0, fp) end).
Definition cond_write_av_list (p : policydb) (l : list Z) : Writer := λ fp,
  if negb (oldvers p) then write_cond_rules p (te_cond_avtab p) l fp else
  let '(_, expa) := avtab_init empty_avtab in
  '(rc, new_list, expa) ← expand_cond_av_list p l expa;
  if truth rc then mret (M := CM) (-1, fp) else
  write_cond_rules p expa (default [] new_list) fp.
Definition cond_write_node (p : policydb) (n : cond_node) : Writer :=
  put_words [cur_state n];;;
  put_words [Z.of_nat (length (cn_cond_expr n))];;;
  write_each (λ e, put_words [cond_type e; cond_bool e]) (cn_cond_expr n);;;
  (if policy_type p =? POLICY_KERN then
     cond_write_av_list p (true_list n);;;
     cond_write_av_list p (false_list n)
   else
     avrule_write_list (avtrue_list n);;;
     avrule_write_list (avfalse_list n));;;
  (if cond_has_flags p then put_words [cond_flags n] else done).
Definition cond_write_list (p : policydb) (l : list cond_node) : Writer :=
  put_words [Z.of_nat (length l)];;; write_each (cond_write_node p) l.
End io.

(** ** Theory: conflicts of type rules *)

(** two rules for the same triple and a common kind of type rules *)
Definition shares_type (k k' : avtab_key) : bool :=
  same_triple k k' && truth (Z.land (Z.land (specified k) (specified k')) AVTAB_TYPE).
(** [conds] are the addresses of the true and false rules of the conditionals:
    every rule of the table is a rule of one, once; none has a rival in the
    unconditional table, and two rivals are a true and a false rule of one
    conditional *)
Record conflict_free (te nodes : list avtab_node) (conds : list (list Z * list Z)) : Prop := {
  cf_distinct : NoDup (av_addr <$> nodes);
  cf_placed : av_addr <$> nodes ≡ₚ conds ≫= λ c, c.1 ++ c.2;
  cf_alone nd nd' : nd ∈ nodes → nd' ∈ te → shares_type (key nd) (key nd') = false;
  cf_pairs nd nd' : nd ∈ nodes → nd' ∈ nodes → av_addr nd ≠ av_addr nd' → shares_type (key nd) (key nd') = true →
    ∃ c, c ∈ conds ∧ (av_addr nd ∈ c.1 ∧ av_addr nd' ∈ c.2 ∨ av_addr nd' ∈ c.1 ∧ av_addr nd ∈ c.2)
}.

Section theory.
Context `{Target}.
Implicit Types (p : policydb) (k : avtab_key) (nd : avtab_node) (te nodes : list avtab_node) (h : heap).

Lemma shares_type_sym k k' : shares_type k k' = shares_type k' k.
Proof. unfold shares_type, same_triple. rewrite (Z.land_comm (specified k)), (Z.eqb_sym (source_type k)), (Z.eqb_sym (target_type k)), (Z.eqb_sym (target_class k)). done. Qed.
Lemma land_type_enabled x : Z.land (without_enabled x) AVTAB_TYPE = Z.land x AVTAB_TYPE.
Proof. unfold without_enabled. by rewrite <- Z.land_assoc. Qed.
(** rivals are found by a search *)
Lemma shares_type_matches k k' :
  shares_type k k' = true → key_matches k (without_enabled (specified k)) k' = true ∧ truth (Z.land (specified k) AVTAB_TYPE) = true.
Proof.
  unfold shares_type, key_matches. intros [Ht Hs]%andb_true_iff. rewrite truth_true in Hs. split.
  - apply andb_true_iff. split; [done|]. apply truth_true. intros H0. apply Hs.
    rewrite <- Z.land_assoc, (Z.land_comm (specified k')), Z.land_assoc, <- land_type_enabled, <- Z.land_assoc, (Z.land_comm AVTAB_TYPE), Z.land_assoc.
    by rewrite H0.
  - apply truth_true. intros H0. apply Hs. by rewrite (Z.land_comm (specified k)), <- Z.land_assoc, H0, Z.land_0_r.
Qed.

(** *** The test for conflicts *)

Lemma no_conflict_wp p (tt t : list (list avtab_node)) ctab other k hp :
  avtab_wf (te_avtab p) tt → avtab_wf ctab t → key_wf k →
  let found := matching k (without_enabled (specified k)) in
  wp (no_conflict p ctab other k) (λ ok hp', hp' = hp ∧
    (ok = true ↔ (truth (Z.land (specified k) AVTAB_TYPE) = true → found (concat tt) = [] ∧
      (found (concat t) = [] ∨ ∃ nd, found (concat t) = [nd] ∧ av_addr nd ∈ other)))) hp.
Proof.
  intros Hte Ht Hk found. destruct (without_enabled_range (specified k)) as (_&Hspec&_); [apply Hk|].
  unfold no_conflict. destruct (truth (Z.land (specified k) AVTAB_TYPE)); cbn [negb]; [|apply wp_ret; split; [done|]; by split].
  apply wp_bind. eapply wp_mono; [by apply (avtab_search_all_wp _ tt)|]. intros r hp' [-> ->]. fold found.
  destruct (found (concat tt)) as [|nd0 l0] eqn:E0; cbn [head fmap option_fmap option_map]; cycle 1.
  { apply wp_ret. split; [done|]. split; [done|]. intros Hf. by destruct (Hf eq_refl). }
  destruct other as [|o other].
  - apply wp_bind. eapply wp_mono; [by apply (avtab_search_all_wp _ t)|]. intros r hp' [-> ->]. fold found. apply wp_ret. split; [done|].
    destruct (found (concat t)) as [|nd l]; cbn; [naive_solver|]. split; [done|]. intros Hf. destruct (Hf eq_refl) as [_ [?|(x&_&Hx)]]; [done|].
    by apply not_elem_of_nil in Hx.
  - unfold in_true_list. apply wp_bind. eapply wp_mono; [by apply (avtab_search_node_wp _ t)|]. rewrite Hspec. fold found.
    intros cur hp' (->&Hm&Hhead&Hsort&Hin). apply wp_ret. split; [done|]. destruct cur as [|nd rest].
    + split; [|done]. intros _ _. split; [done|]. left. by rewrite <- Hm.
    + pose proof (avtab_iterate_spec k (length (nd :: rest)) (nd :: rest)) as Hi. cbn [length avtab_iterate] in Hi. fold found in Hi.
      rewrite <- Hi in Hm; [|done|by intros x Hx; apply Hin|done|done|done].
      destruct (avtab_search_node_next (nd :: rest) (specified k)) as [|nd' rest'] eqn:En.
      * replace (avtab_iterate (length rest) [] (specified k)) with (@nil avtab_node) in Hm by (by destruct (length rest)).
        rewrite <- Hm, bool_decide_eq_true. split; [intros Ha _; split; [done|right; by exists nd]|].
        intros Hf. destruct (Hf eq_refl) as [_ [?|(x&[= ->]&Hx)]]; done.
      * split; [done|]. intros Hf. destruct (Hf eq_refl) as [_ [Hl|(x&Hl&_)]]; rewrite <- Hm in Hl; [done|].
        assert (length rest ≠ 0)%nat; [|by destruct (length rest)]. destruct rest; [|done].
        by cbn in En.
Qed.

(** *** Adding a rule *)

(** the lists of the conditional that is read: its true rules, or the false
    ones after them *)
Definition pending (second : bool) (other l : list Z) : list Z * list Z := if second then (other, l) else (l, []).
Lemma pending_more second other l a : let c := pending second other l in let c' := pending second other (l ++ [a]) in
  (∀ x, x ∈ c.1 → x ∈ c'.1) ∧ (∀ x, x ∈ c.2 → x ∈ c'.2) ∧ c'.1 ++ c'.2 ≡ₚ a :: (c.1 ++ c.2).
Proof.
  destruct second; cbn; (split; [|split]); try done; try (intros x Hx; apply elem_of_app; by left).
  - rewrite app_assoc. by rewrite <- Permutation_cons_append.
  - rewrite !app_nil_r. by rewrite <- Permutation_cons_append.
Qed.
Lemma conflict_free_add te nodes nodes' conds second other l nd :
  conflict_free te nodes (conds ++ [pending second other l]) → nodes' ≡ₚ nd :: nodes → av_addr nd ∉ av_addr <$> nodes →
  (∀ nd', nd' ∈ te → shares_type (key nd) (key nd') = false) →
  (∀ nd', nd' ∈ nodes → shares_type (key nd) (key nd') = true → second = true ∧ av_addr nd' ∈ other) →
  conflict_free te nodes' (conds ++ [pending second other (l ++ [av_addr nd])]).
Proof.
  intros [Hd Hp Ha Hs] Hn Hnew Hte Hrival. destruct (pending_more second other l (av_addr nd)) as (H1&H2&Hperm).
  assert (Hlast : pending second other (l ++ [av_addr nd]) ∈ conds ++ [pending second other (l ++ [av_addr nd])]) by (apply elem_of_app; right; by left).
  assert (Hcase : ∀ x, x ∈ nodes' → x = nd ∨ x ∈ nodes) by (intros x; rewrite Hn; apply elem_of_cons).
  assert (Hmine : ∀ x, x ∈ nodes → shares_type (key nd) (key x) = true → av_addr nd ∈ (pending second other (l ++ [av_addr nd])).2 ∧ av_addr x ∈ (pending second other (l ++ [av_addr nd])).1).
  { intros x Hx Hsh. destruct (Hrival x Hx Hsh) as [-> Ho]. split; [apply elem_of_app; right; by left|done]. }
  split.
  - rewrite Hn. cbn. by apply NoDup_cons.
  - rewrite Hn. cbn. rewrite Hp, !bind_app. cbn [mbind list_bind]. rewrite !app_nil_r, Hperm. by rewrite Permutation_middle.
  - intros x y [->|Hx]%Hcase Hy; [by apply Hte|by apply Ha].
  - intros x y [->|Hx]%Hcase [->|Hy]%Hcase Hne Hsh; [done|..].
    + eexists. split; [exact Hlast|]. right. destruct (Hmine y Hy Hsh). done.
    + eexists. split; [exact Hlast|]. left. rewrite shares_type_sym in Hsh. destruct (Hmine x Hx Hsh). done.
    + destruct (Hs x y Hx Hy Hne Hsh) as (c&[Hc| ->%list_elem_of_singleton]%elem_of_app&Hcc); [exists c; split; [apply elem_of_app; by left|done]|].
      eexists. split; [exact Hlast|]. destruct Hcc as [[? ?]|[? ?]]; [left|right]; split; auto.
Qed.

(** the state of the table while conditionals are read; an address is not used
    again *)
Definition reading (te : list avtab_node) (conds : list (list Z * list Z)) (ctab : avtab) (h : heap) : Prop :=
  ∃ t, avtab_wf ctab t ∧ conflict_free te (concat t) conds ∧ Forall (λ a, a < h_next h) (av_addr <$> concat t).
Lemma reading_later te conds ctab h h' : reading te conds ctab h → h_next h ≤ h_next h' → reading te conds ctab h'.
Proof.
  intros (t&?&?&Hf) Hh. exists t. split; [done|]. split; [done|]. eapply Forall_impl; [exact Hf|]. cbn. lia.
Qed.

(** a rule in the table, marked as one of a conditional *)
Lemma insert_rule_wp ctab t k d hp :
  avtab_wf ctab t → key_wf k → NoDup (av_addr <$> concat t) → Forall (λ a, a < h_next hp) (av_addr <$> concat t) →
  wp (avtab_insert_nonunique ctab k d) (λ '(r, ctab') hp', mem_step hp hp' (r ≠ None) ∧
    match r with
    | None => True
    | Some a => a = h_next hp ∧ h_next hp' = a + 1 ∧
        ∃ t', avtab_wf (av_update ctab' a (λ nd, with_parse_context nd 1)) t' ∧ concat t' ≡ₚ AvNode a k d 1 0 :: concat t
    end) hp.
Proof.
  intros Hwf Hk Hd Hf. eapply wp_mono; [by apply avtab_insert_nonunique_wp|]. intros [[a|] ctab'] hp' [Hm Hr]; [|done].
  destruct Hr as ((t'&Hwf'&Hp)&_&->&Hn). split; [done|]. split; [done|]. split; [done|].
  assert (AvNode (h_next hp) k d 0 0 ∈ concat t') as (L1&L2&HL)%list_elem_of_split by (rewrite Hp; by left).
  destruct (av_update_table ctab' t' L1 (AvNode (h_next hp) k d 0 0) L2 (λ nd, with_parse_context nd 1)) as (t2&Hwf2&Ht2); [done|done| |by intros []|].
  - rewrite Hp. cbn. apply NoDup_cons. split; [|done]. intros Hin. rewrite Forall_forall in Hf. specialize (Hf _ Hin). lia.
  - exists t2. split; [done|]. rewrite Ht2. rewrite <- Permutation_middle. cbn. constructor.
    rewrite HL in Hp. rewrite <- Permutation_middle in Hp. by apply Permutation_cons_inv in Hp.
Qed.
Lemma cond_insertf_ok p tt second other conds k d ctab l hp :
  avtab_wf (te_avtab p) tt → (second = false → other = []) → key_wf k →
  reading (concat tt) (conds ++ [pending second other l]) ctab hp →
  wp (cond_insertf p other k d (ctab, l)) (λ '(rc, (ctab', l')) hp', truth rc = false →
    reading (concat tt) (conds ++ [pending second other l']) ctab' hp') hp.
Proof.
  intros Hte Hother Hk (t&Hwf&Hcf&Hf). unfold cond_insertf. apply wp_bind. eapply wp_mono; [by apply (no_conflict_wp p tt t)|].
  intros ok hp' [-> Hok]. destruct ok; cbn [negb]; [|by apply wp_ret]. apply proj1 in Hok. specialize (Hok eq_refl).
  apply wp_bind. eapply wp_mono; [apply (insert_rule_wp ctab t); [done|done|apply Hcf|done]|].
  intros [[a|] ctab'] hp' [_ Hr]; [|by apply wp_ret]. destruct Hr as (->&Hn&t'&Hwf'&Hp). cbv zeta. apply wp_bind.
  apply wp_malloc_addr; [intros hp2 _ Hn2|intros hp2 _ Hn2]; apply wp_ret; [|done]. intros _. exists t'. split; [done|].
  assert (Hfresh : h_next hp ∉ av_addr <$> concat t) by (intros Hin; rewrite Forall_forall in Hf; specialize (Hf _ Hin); lia).
  split.
  - apply (conflict_free_add _ _ _ _ _ _ _ (AvNode (h_next hp) k d 1 0) Hcf Hp Hfresh).
    + intros nd' Hin. apply not_true_is_false. intros Hsh. destruct (shares_type_matches _ _ Hsh) as [Hm Ht]. destruct (Hok Ht) as [Hn0 _].
      rewrite filter_none in Hn0. by apply (Hn0 nd').
    + intros nd' Hin Hsh. destruct (shares_type_matches _ _ Hsh) as [Hm Ht]. destruct (Hok Ht) as [_ [Hn0|(x&Hx&Hox)]].
      * rewrite filter_none in Hn0. by destruct (Hn0 nd').
      * assert (nd' = x) as ->; [|split; [|done]].
        { apply list_elem_of_singleton. rewrite <- Hx. by apply list_elem_of_filter. }
        destruct second; [done|]. rewrite Hother in Hox by done. by apply not_elem_of_nil in Hox.
  - rewrite Hp. cbn. apply Forall_cons. split; [lia|]. eapply Forall_impl; [exact Hf|]. cbn. lia.
Qed.

(** *** Reading *)

Definition cond_rules (n : cond_node) : list Z * list Z := (true_list n, false_list n).
(** an expression that was accepted *)
Definition cond_valid p (n : cond_node) : Prop := Forall (λ e, expr_isvalid p e = true) (cn_cond_expr n).

Section reading.
Context (junk : list byte) (p : policydb) (tt : list (list avtab_node)) (Hte : avtab_wf (te_avtab p) tt).
Implicit Types (conds : list (list Z * list Z)) (ctab : avtab).

Lemma read_cond_item_checks second other conds ctab l :
  (second = false → other = []) →
  checks_in (reading (concat tt) (conds ++ [pending second other l]) ctab) (read_cond_item junk p other (ctab, l))
    (λ '(ctab', l'), reading (concat tt) (conds ++ [pending second other l']) ctab').
Proof.
  intros Hother bs h Hbs Hr. unfold read_cond_item. apply wp_bind. eapply wp_mono.
  - apply (avtab_read_item_sound (cond_insertf p other) (λ '(ctab, l), reading (concat tt) (conds ++ [pending second other l]) ctab)); [|exact Hr].
    intros k d [ctab1 l1] hp Hk _ Hr1. eapply wp_mono; [by apply (cond_insertf_ok p tt second other conds)|]. by intros [rc [ctab2 l2]] hp2.
  - intros [[rc [ctab' l']] fp] h' [Hok (bs'&->&Hl)]. apply wp_ret. split; [by exists bs'|]. destruct (truth rc) eqn:E; [done|by apply Hok].
Qed.
Lemma cond_read_av_list_checks second other conds ctab :
  (second = false → other = []) →
  checks_in (reading (concat tt) (conds ++ [pending second other []]) ctab) (cond_read_av_list junk p other ctab)
    (λ '(ctab', l'), reading (concat tt) (conds ++ [pending second other l']) ctab').
Proof.
  intros Hother. eapply checks_in_bind; [apply checks_in_or_fail; [done|by apply checks_in_entry]|]. intros buf.
  apply (checks_in_times _ _ (λ '(ctab', l'), reading (concat tt) (conds ++ [pending second other l']) ctab') (ctab, [])).
  intros [ctab' l']. by apply read_cond_item_checks.
Qed.
Lemma reading_start conds ctab h : reading (concat tt) conds ctab h → reading (concat tt) (conds ++ [([], [])]) ctab h.
Proof.
  intros (t&Hwf&[Hd Hp Ha Hs]&Hf). exists t. split; [done|]. split; [|done]. split; [done| |done|].
  - rewrite Hp, bind_app. cbn. by rewrite app_nil_r.
  - intros nd nd' H1 H2 Hne Hsh. destruct (Hs nd nd' H1 H2 Hne Hsh) as (c&Hc&Hcc). exists c. split; [apply elem_of_app; by left|done].
Qed.
Lemma read_cond_exprs_checks (I : heap → Prop) n : (∀ h h', I h → h_next h ≤ h_next h' → I h') →
  checks_in I (times n (read_cond_expr p) []) (λ l h, I h ∧ Forall (λ e, expr_isvalid p e = true) l).
Proof.
  intros HI.
  assert (Ht : checks_in (λ h, I h ∧ Forall (λ e, expr_isvalid p e = true) []) (times n (read_cond_expr p) []) (λ l h, I h ∧ Forall (λ e, expr_isvalid p e = true) l)).
  { apply (checks_in_times _ _ (λ l h, I h ∧ Forall (λ e, expr_isvalid p e = true) l) []). intros l.
    eapply checks_in_bind; [apply checks_in_or_fail; [done|by apply checks_in_entry]|]. intros buf.
    eapply checks_in_bind; [apply checks_in_new; [done|]|].
    { intros h h' [Hh Hl] Hn. split; [by eapply HI|done]. }
    intros []. cbv zeta. destruct (expr_isvalid p (CondExpr (le_to_cpu 4 buf 0) (le_to_cpu 4 buf 1))) eqn:E; [|by apply checks_in_fail]. cbn [negb]. apply checks_in_ret. intros h [Hh Hl]. split; [done|].
    apply Forall_app. by split; [|apply Forall_singleton]. }
  intros bs h Hbs Hh. by apply Ht.
Qed.
Lemma cond_read_node_checks conds ctab :
  policy_type p = POLICY_KERN →
  checks_in (reading (concat tt) conds ctab) (cond_read_node junk p ctab)
    (λ '(ctab', n) h, reading (concat tt) (conds ++ [cond_rules n]) ctab' h ∧ cond_valid p n).
Proof.
  intros Hk. unfold cond_read_node. replace (cond_has_flags p) with false by (unfold cond_has_flags; by rewrite Hk). rewrite Hk.
  change (POLICY_KERN =? POLICY_KERN) with true. cbv iota.
  eapply checks_in_bind; [apply checks_in_or_fail; [done|by apply checks_in_entry]|]. intros buf.
  eapply checks_in_bind; [apply checks_in_or_fail; [done|by apply checks_in_entry]|]. intros buf2.
  eapply checks_in_bind; [apply read_cond_exprs_checks; intros h h'; apply reading_later|]. intros expr.
  eapply (checks_in_bind _ _ _ (λ '(ctab', tl, fl, atl, afl) h, reading (concat tt) (conds ++ [(tl, fl)]) ctab' h ∧ Forall (λ e, expr_isvalid p e = true) expr)).
  - intros bs h Hbs [Hr Hv]. apply (checks_in_bind (λ h, reading (concat tt) conds ctab h ∧ Forall (λ e, expr_isvalid p e = true) expr) _ _
      (λ '(ctab', tl) h, reading (concat tt) (conds ++ [(tl, [])]) ctab' h)); [| |done|done].
    + apply checks_in_or_fail; [done|]. intros bs1 h1 Hb1 [Hr1 _]. eapply (cond_read_av_list_checks false [] conds ctab); [done|done|by apply reading_start].
    + intros [ctab1 tl]. eapply checks_in_bind; [apply checks_in_or_fail; [done|by apply (cond_read_av_list_checks true tl conds)]|].
      intros [ctab2 fl]. apply checks_in_ret. by intros h2 Hr2.
  - intros [[[[ctab' tl] fl] atl] afl]. eapply (checks_in_bind _ _ _ (λ _ h, reading (concat tt) (conds ++ [(tl, fl)]) ctab' h ∧ Forall (λ e, expr_isvalid p e = true) expr)).
    + by apply checks_in_ret.
    + intros flags. apply checks_in_ret. intros h [Hr Hv]. by split.
Qed.
Lemma cond_read_list_checks :
  policy_type p = POLICY_KERN → 0 < av_nel (te_avtab p) < 2 ^ 32 →
  checks_in (λ _, True) (cond_read_list junk p) (λ '(ctab, l) h, reading (concat tt) (cond_rules <$> l) ctab h ∧ Forall (cond_valid p) l).
Proof.
  intros Hk Hnel. unfold cond_read_list. eapply checks_in_bind; [apply checks_in_or_fail; [done|by apply checks_in_entry]|]. intros buf.
  eapply (checks_in_bind _ _ _ (λ ctab, reading (concat tt) [] ctab)).
  - apply checks_in_or_fail; [done|]. intros bs h Hbs _. apply wp_bind. eapply wp_mono; [by apply avtab_alloc_wp|].
    intros [rc ctab] h' [_ Hr]. apply wp_ret. split; [by exists bs|]. destruct (truth rc) eqn:E; [done|]. apply truth_false in E.
    destruct Hr as [(_&(t&Hwf&Hc)&_)|[? _]]; [|lia]. exists t. split; [done|]. rewrite Hc. split; [|constructor].
    split; [constructor|done|by intros ?? ?%not_elem_of_nil|by intros ?? ?%not_elem_of_nil].
  - intros ctab bs h Hbs Hr. apply (checks_in_times _ _ (λ '(ctab, l) h, reading (concat tt) (cond_rules <$> l) ctab h ∧ Forall (cond_valid p) l) (ctab, [])); [|done|by split].
    intros [ctab' l]. eapply checks_in_bind; [apply checks_in_new; [done|]|].
    { intros h1 h2 [Hr1 Hl] Hn. split; [by eapply reading_later|done]. }
    intros []. eapply (checks_in_bind _ _ _ (λ '(ctab2, n) h, (reading (concat tt) ((cond_rules <$> l) ++ [cond_rules n]) ctab2 h ∧ cond_valid p n) ∧ Forall (cond_valid p) l)).
    + apply checks_in_or_fail; [done|]. intros bs1 h1 Hb1 [Hr1 Hl]. eapply wp_mono; [by apply (cond_read_node_checks (cond_rules <$> l) ctab' Hk)|].
      intros [[rc|[ctab2 n]] fp] h2 [Hf Hx]; [done|]. by split.
    + intros [ctab2 n]. apply checks_in_ret. intros h2 [[Hr2 Hv] Hl]. rewrite fmap_app. split; [done|]. apply Forall_app. by split; [|apply Forall_singleton].
Qed.
End reading.

(** *** Determinism *)

Lemma av_find_in ctab (t : list (list avtab_node)) nd :
  av_htable ctab = Some t → NoDup (av_addr <$> concat t) → nd ∈ concat t → av_find ctab (av_addr nd) = Some nd.
Proof.
  intros Ht Hd Hin. unfold av_find. rewrite Ht. cbn. revert Hd Hin. generalize (concat t). intros nodes Hd Hin.
  destruct (list_find_elem_of (λ x, av_addr x = av_addr nd) nodes nd Hin eq_refl) as [[i x] Hx]. rewrite Hx. cbn. f_equal.
  apply list_find_Some in Hx as (Hi&Ha&_). apply list_elem_of_lookup in Hin as [j Hj].
  assert (i = j) as ->; [|by rewrite Hi in Hj; injection Hj].
  apply (NoDup_lookup (av_addr <$> nodes) _ _ (av_addr nd)); [done|by rewrite list_lookup_fmap, Hi; cbn; rewrite Ha|by rewrite list_lookup_fmap, Hj].
Qed.
Lemma elem_of_addrs (nodes : list avtab_node) a : a ∈ av_addr <$> nodes ↔ ∃ nd, a = av_addr nd ∧ nd ∈ nodes.
Proof. apply list_elem_of_fmap. Qed.
Lemma bind_rules (l : list cond_node) : ((cond_rules <$> l) ≫= λ c, c.1 ++ c.2) = l ≫= rules_of.
Proof. induction l as [|n l IH]; [done|]. cbn. by rewrite IH. Qed.
Lemma erase_shares nd nd' nd0 nd0' :
  erase nd = erase nd0 → erase nd' = erase nd0' → shares_type (key nd) (key nd') = shares_type (key nd0) (key nd0').
Proof.
  intros H1 H2. unfold erase, set_enabled, with_specified in H1, H2. injection H1 as _ Hs1 Ht1 Hc1 Hb1 _ _ _. injection H2 as _ Hs2 Ht2 Hc2 Hb2 _ _ _.
  unfold shares_type, same_triple. rewrite Hs1, Ht1, Hc1, Hs2, Ht2, Hc2. f_equal. f_equal.
  assert (Hm : ∀ x y, Z.land (Z.land x y) AVTAB_TYPE = Z.land (Z.land (Z.land x (u16 (Z.lnot AVTAB_ENABLED))) (Z.land y (u16 (Z.lnot AVTAB_ENABLED)))) AVTAB_TYPE).
  { intros x y. apply Z.bits_inj'. intros i Hi. rewrite !Z.land_spec. destruct (Z.testbit AVTAB_TYPE i) eqn:E; [|by rewrite !andb_false_r].
    assert (HM : Z.land (u16 (Z.lnot AVTAB_ENABLED)) AVTAB_TYPE = AVTAB_TYPE) by done.
    apply (f_equal (λ z, Z.testbit z i)) in HM. rewrite Z.land_spec, E, andb_true_r in HM. by rewrite HM, !andb_true_r. }
  by rewrite (Hm (specified (key nd))), (Hm (specified (key nd0))), Hb1, Hb2.
Qed.
Lemma erased_node ctab ctab' (t t' : list (list avtab_node)) l nd' :
  same_rules ctab ctab' l → av_htable ctab = Some t → av_htable ctab' = Some t' → nd' ∈ concat t' →
  ∃ nd, nd ∈ concat t ∧ erase nd = erase nd'.
Proof.
  intros (_&_&He&_) Ht Ht' Hin. rewrite Ht, Ht' in He. cbn in He. injection He as He.
  assert (Hc : erase <$> concat t' = erase <$> concat t).
  { revert t' He Hin Ht'. clear. intros t' He _ _. revert t He. induction t' as [|c t' IH]; intros [|c0 t] He; try done.
    cbn in *. injection He as Hc He. rewrite !fmap_app. f_equal; [done|by apply IH]. }
  assert (Hin' : erase nd' ∈ erase <$> concat t') by (apply list_elem_of_fmap; eauto). rewrite Hc in Hin'.
  apply list_elem_of_fmap in Hin' as (nd&He2&Hnd). by exists nd.
Qed.
Lemma conflict_free_deterministic te ctab ctab' (t t' : list (list avtab_node)) (l : list cond_node) nd nd' :
  av_htable ctab = Some t → conflict_free te (concat t) (cond_rules <$> l) →
  same_rules ctab ctab' (l ≫= rules_of) → Forall (synced ctab') l → av_htable ctab' = Some t' →
  nd ∈ concat t' → nd' ∈ concat t' → av_addr nd ≠ av_addr nd' →
  Z.testbit (specified (key nd)) 15 = true → Z.testbit (specified (key nd')) 15 = true → shares_type (key nd) (key nd') = false.
Proof.
  intros Ht [Hd Hp Ha Hs] Hsame Hsync Ht' Hin Hin' Hne Hon Hon'. apply not_true_is_false. intros Hsh.
  destruct (erased_node _ _ _ _ _ nd Hsame Ht Ht' Hin) as (nd0&H0&E0). destruct (erased_node _ _ _ _ _ nd' Hsame Ht Ht' Hin') as (nd0'&H0'&E0').
  assert (Haddr : av_addr nd0 = av_addr nd ∧ av_addr nd0' = av_addr nd') by (split; [by apply (f_equal av_addr) in E0|by apply (f_equal av_addr) in E0']).
  destruct Haddr as [A0 A0']. rewrite <- (erase_shares _ _ _ _ E0 E0') in Hsh. 
  destruct (Hs nd0 nd0' H0 H0') as (c&(n&->&Hn)%list_elem_of_fmap&Hc); [by rewrite A0, A0'|done|].
  assert (Hd' : NoDup (av_addr <$> concat t')).
  { destruct Hsame as (_&_&He&_). rewrite Ht, Ht' in He. cbn in He. injection He as He. revert Hd. clear -He.
    assert (av_addr <$> concat t' = av_addr <$> concat t) as ->; [|done]. revert t He. induction t' as [|c t' IH]; intros [|c0 t] He; try done.
    cbn in *. injection He as Hc He. rewrite !fmap_app. f_equal; [|by apply IH]. apply (f_equal (fmap av_addr)) in Hc. by rewrite <- !list_fmap_compose in Hc. }
  rewrite Forall_forall in Hsync. destruct (Hsync n Hn) as [Hst Hsf]. rewrite A0, A0' in Hc.
  assert (Hbit : ∀ x, x ∈ concat t' → ∀ b, enabled_at ctab' (av_addr x) b → Z.testbit (specified (key x)) 15 = b).
  { intros x Hx b (y&Hy&Hb). rewrite (av_find_in ctab' t' x Ht' Hd' Hx) in Hy. by injection Hy as <-. }
  destruct Hc as [[Hc1 Hc2]|[Hc1 Hc2]].
  - pose proof (Hbit nd Hin _ (Hst _ Hc1)) as B1. pose proof (Hbit nd' Hin' _ (Hsf _ Hc2)) as B2. rewrite Hon in B1. rewrite Hon' in B2. lia.
  - pose proof (Hbit nd' Hin' _ (Hst _ Hc1)) as B1. pose proof (Hbit nd Hin _ (Hsf _ Hc2)) as B2. rewrite Hon' in B1. rewrite Hon in B2. lia.
Qed.

(** *** Reading what was written *)

Lemma NoDup_bind_inj {A B} (f : A → list B) (l : list A) x y b :
  NoDup (l ≫= f) → x ∈ l → y ∈ l → b ∈ f x → b ∈ f y → x = y.
Proof.
  induction l as [|z l IH]; [by intros _ ?%not_elem_of_nil|]. cbn. intros (_&Hd&Hl)%NoDup_app.
  intros [-> |Hx]%elem_of_cons [-> |Hy]%elem_of_cons Hbx Hby; [done| | |by apply IH].
  - destruct (Hd b Hbx). apply list_elem_of_bind. by exists y.
  - destruct (Hd b Hby). apply list_elem_of_bind. by exists x.
Qed.
Lemma one_kind_shares k k' :
  one_kind k → truth (Z.land (specified k) AVTAB_TYPE) = true → key_matches k (without_enabled (specified k)) k' = true → shares_type k k' = true.
Proof.
  intros (i&Hi&He) Ht [Hs Hm]%andb_true_iff. unfold shares_type. rewrite Hs. cbn. rewrite He in Hm. rewrite truth_true in Hm, Ht |- *.
  rewrite <- land_type_enabled, He in Ht. intros H0. apply Hm. apply Z.bits_inj'. intros j Hj. rewrite Z.land_spec, Z.bits_0.
  destruct (decide (j = i)) as [-> |Hne]; [|by rewrite Z.pow2_bits_false by lia].
  assert (Z.testbit AVTAB_TYPE i = true) as Hti.
  { apply not_false_is_true. intros Hf. apply Ht. apply Z.bits_inj'. intros j' Hj'. rewrite Z.land_spec, Z.bits_0.
    destruct (decide (j' = i)) as [-> |]; [by rewrite Hf, andb_false_r|by rewrite Z.pow2_bits_false by lia]. }
  assert (Hb : Z.testbit (without_enabled (specified k)) i = true) by (by rewrite He, Z.pow2_bits_true by lia).
  unfold without_enabled in Hb. rewrite Z.land_spec in Hb. apply andb_true_iff in Hb as [Hb _].
  apply (f_equal (λ z, Z.testbit z i)) in H0. rewrite !Z.land_spec, Z.bits_0, Hti, andb_true_r, Hb in H0. cbn in H0.
  by rewrite H0, andb_false_r.
Qed.

Definition rule_storable nd : Prop := writable_rule nd ∧ one_kind (key nd) ∧ truth (parse_context nd) = true.
Section round_trip.
Context (junk : list byte) (p : policydb) (tt t : list (list avtab_node)) (conds : list cond_node).
Context (Hte : avtab_wf (te_avtab p) tt) (Hwf : avtab_wf (te_cond_avtab p) t).
Context (Hcf : conflict_free (concat tt) (concat t) (cond_rules <$> conds)).
Context (Hrules : Forall rule_storable (concat t)).
Implicit Types (m mt ml : list (Z * Z)) (ctab : avtab).

(** [m] pairs the rules that were read with their copies *)
Definition copied m ctab (h : heap) : Prop := ∃ t', avtab_wf ctab t' ∧ av_addr <$> concat t' ≡ₚ m.*2 ∧ NoDup m.*2 ∧
  Forall (λ b, b < h_next h) m.*2 ∧
  ∀ a b, (a, b) ∈ m → ∃ nd nd', nd ∈ concat t ∧ av_addr nd = a ∧ nd' ∈ concat t' ∧ av_addr nd' = b ∧ rule_of nd' = rule_of nd.
Lemma copied_later m ctab h h' : copied m ctab h → h_next h ≤ h_next h' → copied m ctab h'.
Proof.
  intros (t'&?&?&?&Hf&?) Hh. exists t'. do 3 (split; [done|]). split; [|done]. eapply Forall_impl; [exact Hf|]. cbn. lia.
Qed.
(** the rule that a node of the new table is a copy of *)
Lemma copy_of m (t' : list (list avtab_node)) x' : av_addr <$> concat t' ≡ₚ m.*2 → NoDup m.*2 → x' ∈ concat t' →
  (∀ a b, (a, b) ∈ m → ∃ nd nd', nd ∈ concat t ∧ av_addr nd = a ∧ nd' ∈ concat t' ∧ av_addr nd' = b ∧ rule_of nd' = rule_of nd) →
  ∃ x, x ∈ concat t ∧ (av_addr x, av_addr x') ∈ m ∧ key x' = key x.
Proof.
  intros Hp Hd Hx Hm. assert (av_addr x' ∈ m.*2) as ([a b]&Hab&Hin)%list_elem_of_fmap by (rewrite <- Hp; apply elem_of_addrs; by exists x').
  cbn in Hab. subst b. destruct (Hm _ _ Hin) as (nd&nd'&Hnd&<-&Hnd'&Ha&Hr). exists nd. split; [done|]. split; [done|].
  assert (nd' = x') as ->; [|by injection Hr as Hk _].
  rewrite <- Hp in Hd. apply list_elem_of_lookup in Hx as [i Hi]. apply list_elem_of_lookup in Hnd' as [j Hj].
  assert (i = j) as ->; [|by rewrite Hi in Hj; injection Hj].
  apply (NoDup_lookup _ _ _ (av_addr x') Hd); [by rewrite list_lookup_fmap, Hi|by rewrite list_lookup_fmap, Hj; cbn; rewrite Ha].
Qed.
(** the rivals of [nd] among the rules that were read: at most one, in [mt] *)
Definition rivals_in nd m mt : Prop := ∀ x, x ∈ concat t → shares_type (key nd) (key x) = true → av_addr x ∈ m.*1 →
  av_addr x ∈ mt.*1 ∧ ∀ y, y ∈ concat t → shares_type (key nd) (key y) = true → av_addr y ∈ m.*1 → y = x.
Lemma pair_fst m a b : (a, b) ∈ m → a ∈ m.*1.
Proof. intros Hin. apply list_elem_of_fmap. by exists (a, b). Qed.
Lemma pair_unique m a b b' : NoDup m.*1 → (a, b) ∈ m → (a, b') ∈ m → b = b'.
Proof.
  intros Hd [i Hi]%list_elem_of_lookup [j Hj]%list_elem_of_lookup. assert (i = j) as ->; [|by rewrite Hi in Hj; injection Hj].
  apply (NoDup_lookup _ _ _ a Hd); [by rewrite list_lookup_fmap, Hi|by rewrite list_lookup_fmap, Hj].
Qed.
(** the search for rivals passes *)
Lemma rivals_found nd m mt (t' : list (list avtab_node)) :
  nd ∈ concat t → NoDup m.*1 → mt ⊆ m → rivals_in nd m mt → NoDup m.*2 → av_addr <$> concat t' ≡ₚ m.*2 →
  (∀ a b, (a, b) ∈ m → ∃ nd nd', nd ∈ concat t ∧ av_addr nd = a ∧ nd' ∈ concat t' ∧ av_addr nd' = b ∧ rule_of nd' = rule_of nd) →
  truth (Z.land (specified (key nd)) AVTAB_TYPE) = true →
  let found := matching (key nd) (without_enabled (specified (key nd))) in
  found (concat tt) = [] ∧ (found (concat t') = [] ∨ ∃ x, found (concat t') = [x] ∧ av_addr x ∈ mt.*2).
Proof.
  intros Hnd Hd1 Hmt Hriv Hd2 Hp Hm Ht found. assert (Hk : one_kind (key nd)) by (rewrite Forall_forall in Hrules; by destruct (Hrules nd Hnd) as (_&?&_)).
  split.
  - apply filter_none. intros x Hx Hmx. assert (Hs := one_kind_shares _ _ Hk Ht Hmx).
    by rewrite (cf_alone _ _ _ Hcf nd x Hnd Hx) in Hs.
  - assert (Hone : ∀ x', x' ∈ found (concat t') → av_addr x' ∈ mt.*2 ∧ ∀ y', y' ∈ found (concat t') → y' = x').
    { intros x' [Hmx Hx]%list_elem_of_filter. destruct (copy_of m t' x' Hp Hd2 Hx Hm) as (x&Hxt&Hxm&Hkx). rewrite Hkx in Hmx.
      assert (Hs := one_kind_shares _ _ Hk Ht Hmx). destruct (Hriv x Hxt Hs (pair_fst _ _ _ Hxm)) as [Hin Huniq]. split.
      - apply list_elem_of_fmap in Hin as ([a b]&Ha&Hab). cbn in Ha. subst a.
        rewrite (pair_unique m (av_addr x) (av_addr x') b) by (done || by apply Hmt). apply list_elem_of_fmap. by exists (av_addr x, b).
      - intros y' [Hmy Hy]%list_elem_of_filter. destruct (copy_of m t' y' Hp Hd2 Hy Hm) as (y&Hyt&Hym&Hky). rewrite Hky in Hmy.
        assert (Hsy := one_kind_shares _ _ Hk Ht Hmy). rewrite (Huniq y Hyt Hsy (pair_fst _ _ _ Hym)) in Hym.
        assert (Ha := pair_unique m _ _ _ Hd1 Hym Hxm). rewrite <- Hp in Hd2.
        apply list_elem_of_lookup in Hx as [i Hi]. apply list_elem_of_lookup in Hy as [j Hj].
        assert (i = j) as ->; [|by rewrite Hi in Hj; injection Hj].
        apply (NoDup_lookup _ _ _ (av_addr x') Hd2); [by rewrite list_lookup_fmap, Hi|by rewrite list_lookup_fmap, Hj; cbn; rewrite Ha]. }
    assert (Hnd' : NoDup (found (concat t'))) by (apply NoDup_filter; rewrite <- Hp in Hd2; by eapply NoDup_fmap_1).
    destruct (found (concat t')) as [|x [|y l]] eqn:E; [by left| |].
    + right. exists x. split; [done|]. apply Hone. by left.
    + exfalso. apply NoDup_cons in Hnd' as [Hn _]. apply Hn. rewrite <- (proj2 (Hone x ltac:(by left)) y); [by left|by right; left].
Qed.

Definition storing l (nds : list avtab_node) : Prop := l = av_addr <$> nds ∧ nds ⊆ concat t.
(** one rule is read *)
Lemma cond_insertf_copies m mt ctab l nd h :
  copied m ctab h → nd ∈ concat t → NoDup (m.*1 ++ [av_addr nd]) → mt ⊆ m → rivals_in nd m mt →
  wp (cond_insertf p mt.*2 (key nd) (datum nd) (ctab, l)) (λ '(rc, (ctab', l')) h', mem_step h h' (rc = 0) ∧
    (rc = 0 → ∃ b, l' = l ++ [b] ∧ copied (m ++ [(av_addr nd, b)]) ctab' h')) h.
Proof.
  intros (t'&Hwf'&Hp&Hd&Hf&Hm) Hnd Hd1 Hmt Hriv. assert (Hk : key_wf (key nd)) by (eapply table_key_wf; [exact Hwf|exact Hnd]).
  unfold cond_insertf. apply wp_bind. eapply wp_mono; [by apply (no_conflict_wp p tt t')|]. intros ok h' [-> Hok].
  assert (ok = true) as ->; [|clear Hok; cbn [negb]].
  { apply Hok. intros Ht. apply NoDup_app in Hd1 as (Hd1&_). by apply (rivals_found nd m mt t'). }
  apply wp_bind. eapply wp_mono; [apply (insert_rule_wp ctab t'); [done|done|by rewrite Hp|by rewrite Hp]|].
  intros [[b|] ctab'] h1 [Hm1 Hr]; [|apply wp_ret; split; [|done]; intros Ho; by destruct (Hm1 Ho)].
  destruct Hr as (->&Hn&t2&Hwf2&Hp2). cbv zeta. apply wp_bind.
  apply wp_malloc_addr; [intros h2 Hm2 Hn2|intros h2 Hm2 Hn2]; apply wp_ret; [|split; [|done]; intros Ho; destruct (Hm1 Ho) as [Ho1 _]; by destruct (Hm2 Ho1)].
  split; [mem|]. intros _. exists (h_next h). split; [done|].
  assert (Hnew : h_next h ∉ m.*2) by (intros Hin; rewrite Forall_forall in Hf; specialize (Hf _ Hin); lia).
  exists t2. split; [done|]. rewrite !fmap_app. cbn [fmap list_fmap snd]. split; [|split; [|split]].
  - rewrite Hp2. cbn. rewrite Hp. by rewrite Permutation_cons_append.
  - apply NoDup_app. split; [done|]. split; [intros x Hx ->%list_elem_of_singleton; done|apply NoDup_singleton].
  - apply Forall_app. split; [eapply Forall_impl; [exact Hf|]; cbn; lia|apply Forall_singleton; lia].
  - assert (Hsub : ∀ x, x ∈ concat t' → x ∈ concat t2) by (intros x Hx; rewrite Hp2; by right).
    intros a b [Hab|[= -> ->]%list_elem_of_singleton]%elem_of_app.
    + destruct (Hm _ _ Hab) as (x&x'&?&?&?&?&?). exists x, x'. auto.
    + exists nd, (AvNode (h_next h) (key nd) (datum nd) 1 0). do 2 (split; [done|]). split; [rewrite Hp2; by left|done].
Qed.
Lemma read_cond_item_copies m mt ctab l nd :
  POLICYDB_VERSION_AVTAB ≤ policyvers p → nd ∈ concat t → NoDup (m.*1 ++ [av_addr nd]) → mt ⊆ m → rivals_in nd m mt →
  reads_in (copied m ctab) (read_cond_item junk p mt.*2 (ctab, l)) (rule_bytes (rule_of nd))
    (λ '(ctab', l') h, ∃ b, l' = l ++ [b] ∧ copied (m ++ [(av_addr nd, b)]) ctab' h).
Proof.
  intros Hv Hnd Hd Hmt Hriv rest h Hc. assert (writable_rule nd) as (Hk&Hdat&Hs) by (rewrite Forall_forall in Hrules; by destruct (Hrules nd Hnd) as (?&?&?)).
  apply wp_bind. apply read_item_bytes; [done..|]. eapply wp_mono; [by apply (cond_insertf_copies m mt)|].
  intros [rc [ctab' l']] h' [Hm Hr]. apply wp_ret. destruct (truth rc) eqn:E.
  - split; [|done]. eapply mem_step_mono, Hm. intros ->. done.
  - apply truth_false in E. split; [|by split; [apply Hr|]]. eapply mem_step_mono, Hm. intros _. by eexists.
Qed.
(** the rules of one list *)
Lemma cond_read_av_list_copies m mt ctab (nds : list avtab_node) :
  POLICYDB_VERSION_AVTAB ≤ policyvers p → word (length nds) → nds ⊆ concat t → mt ⊆ m →
  NoDup (m.*1 ++ (av_addr <$> nds)) →
  (∀ nd l1 l2 ml, nds = l1 ++ nd :: l2 → ml.*1 = av_addr <$> l1 → rivals_in nd (m ++ ml) mt) →
  reads_in (copied m ctab) (cond_read_av_list junk p mt.*2 ctab) (cpu_to_le 4 [Z.of_nat (length nds)] ++ rules_bytes nds)
    (λ '(ctab', l') h, ∃ ml, ml.*1 = av_addr <$> nds ∧ ml.*2 = l' ∧ copied (m ++ ml) ctab' h).
Proof.
  intros Hv Hw Hsub Hmt Hd Hriv. eapply reads_in_bind; [apply reads_in_or_fail; [done|by apply reads_in_entry]|]. intros buf rest h [-> Hc].
  rewrite (le_word _ 0 (length nds)) by done. revert rest h Hc.
  assert (Ht : reads_in (λ h, ∃ ml, ml.*1 = av_addr <$> [] ∧ ml.*2 = [] ∧ copied (m ++ ml) ctab h)
    (times (length nds) (read_cond_item junk p mt.*2) (ctab, [])) (rules_bytes nds)
    (λ '(ctab', l') h, ∃ ml, ml.*1 = av_addr <$> nds ∧ ml.*2 = l' ∧ copied (m ++ ml) ctab' h)).
  { apply (reads_in_times nds _ _ (λ nd, rule_bytes (rule_of nd)) (λ l1 '(ctab', l') h, ∃ ml, ml.*1 = av_addr <$> l1 ∧ ml.*2 = l' ∧ copied (m ++ ml) ctab' h) (ctab, []));
      [done|]. intros nd l1 l2 [ctab1 l'] Hl rest h (ml&Hm1&Hm2&Hc). eapply wp_mono.
    - apply (read_cond_item_copies (m ++ ml) mt ctab1 l' nd); [done| | | |by apply (Hriv nd l1 l2)|exact Hc].
      + apply Hsub. rewrite Hl. apply elem_of_app. right. by left.
      + rewrite fmap_app, Hm1. rewrite Hl, fmap_app, fmap_cons, app_assoc, cons_middle, app_assoc in Hd. by apply NoDup_app in Hd as (?&_).
      + set_solver.
    - intros [[rc|[ctab2 l3]] fp] h' [Hs Hx]; [done|]. split; [done|]. destruct Hx as [(b&->&Hc2) ->]. split; [|done].
      exists (ml ++ [(av_addr nd, b)]). rewrite !fmap_app, Hm1, Hm2. do 2 (split; [done|]). by rewrite app_assoc. }
  intros rest h Hc. apply Ht. exists []. by rewrite app_nil_r.
Qed.

Lemma rules_distinct : NoDup (conds ≫= rules_of).
Proof. rewrite <- bind_rules, <- (cf_placed _ _ _ Hcf). apply Hcf. Qed.
Lemma same_node nd x : nd ∈ concat t → x ∈ concat t → av_addr nd = av_addr x → nd = x.
Proof.
  intros [i Hi]%list_elem_of_lookup [j Hj]%list_elem_of_lookup Ha. assert (i = j) as ->; [|by rewrite Hi in Hj; injection Hj].
  apply (NoDup_lookup _ _ _ (av_addr x) (cf_distinct _ _ _ Hcf)); [by rewrite list_lookup_fmap, Hi; cbn; rewrite Ha|by rewrite list_lookup_fmap, Hj].
Qed.
(** rivals are on different sides of a conditional *)
Lemma rival_side n nd x : n ∈ conds → nd ∈ concat t → x ∈ concat t → nd ≠ x → shares_type (key nd) (key x) = true →
  (av_addr nd ∈ true_list n → av_addr x ∈ false_list n) ∧ (av_addr nd ∈ false_list n → av_addr x ∈ true_list n).
Proof.
  intros Hn Hnd Hx Hne Hs. assert (Ha : av_addr nd ≠ av_addr x) by (intros Ha; by apply Hne, same_node).
  destruct (cf_pairs _ _ _ Hcf nd x Hnd Hx Ha Hs) as (c&(n'&->&Hn')%list_elem_of_fmap&Hc). cbn [cond_rules fst snd] in Hc.
  assert (Hsame : av_addr nd ∈ rules_of n → n' = n).
  { intros Hr. apply (NoDup_bind_inj rules_of conds n' n (av_addr nd) rules_distinct Hn' Hn); [|done].
    apply elem_of_app. destruct Hc as [[? _]|[_ ?]]; auto. }
  assert (Hd : NoDup (rules_of n)).
  { pose proof rules_distinct as Hd. apply list_elem_of_split in Hn as (l1&l2&E). rewrite E, bind_app, bind_cons in Hd. apply NoDup_app in Hd as (_&_&Hd). by apply NoDup_app in Hd as (?&_). }
  apply NoDup_app in Hd as (_&Hd&_). split; intros Hin; (rewrite Hsame in Hc by (apply elem_of_app; auto)); destruct Hc as [[H1 H2]|[H1 H2]]; try done.
  - by destruct (Hd _ Hin).
  - by destruct (Hd _ H1).
Qed.
Lemma shares_same k x y : one_kind k → shares_type k x = true → shares_type k y = true → shares_type x y = true.
Proof.
  intros (i&Hi&He) [Tx Sx]%andb_true_iff [Ty Sy]%andb_true_iff. apply andb_true_iff. split.
  - apply same_triple_eq in Tx as (?&?&?), Ty as (?&?&?). apply same_triple_eq. split_and!; congruence.
  - assert (Hb : ∀ z, truth (Z.land (Z.land (specified k) z) AVTAB_TYPE) = true → Z.testbit z i = true ∧ Z.testbit AVTAB_TYPE i = true).
    { intros z Hz. rewrite truth_true in Hz.
      assert (Hz' : Z.land (Z.land (without_enabled (specified k)) z) AVTAB_TYPE ≠ 0).
      { intros H0. apply Hz. rewrite <- H0. rewrite <- !Z.land_assoc, (Z.land_comm z), !Z.land_assoc, land_type_enabled. done. }
      rewrite He in Hz'. destruct (Z.testbit z i) eqn:E1, (Z.testbit AVTAB_TYPE i) eqn:E2; [done|..]; exfalso; apply Hz'; apply Z.bits_inj'; intros j Hj;
        rewrite !Z.land_spec, Z.bits_0; (destruct (decide (j = i)) as [-> |]; [by rewrite ?E1, ?E2, ?andb_false_r|by rewrite Z.pow2_bits_false by lia]). }
    destruct (Hb _ Sx) as [Bx Bt], (Hb _ Sy) as [By _]. apply truth_true. intros H0. apply (f_equal (λ z, Z.testbit z i)) in H0.
    by rewrite !Z.land_spec, Bx, By, Bt, Z.bits_0 in H0.
Qed.
Lemma NoDup_before {A} (l1 l2 : list A) x : NoDup (l1 ++ l2) → x ∈ l1 → x ∉ l2.
Proof. intros (_&Hd&_)%NoDup_app. apply Hd. Qed.

(** a list of the conditional that is read *)
Lemma true_rivals l1 n l2 (nds : list avtab_node) nd n1 n2 m ml :
  conds = l1 ++ n :: l2 → true_list n = av_addr <$> nds → nds ⊆ concat t → nds = n1 ++ nd :: n2 →
  m.*1 = l1 ≫= rules_of → ml.*1 = av_addr <$> n1 → rivals_in nd (m ++ ml) [].
Proof.
  intros Hc Ht Hsub Hl Hm Hml x Hx Hs Hin. exfalso. assert (Hn : n ∈ conds) by (rewrite Hc; apply elem_of_app; right; by left).
  assert (Hnd : nd ∈ concat t) by (apply Hsub; rewrite Hl; apply elem_of_app; right; by left).
  assert (Hat : av_addr nd ∈ true_list n) by (rewrite Ht; apply elem_of_addrs; exists nd; split; [done|rewrite Hl; apply elem_of_app; right; by left]).
  assert (Hd : NoDup (((l1 ≫= rules_of) ++ (av_addr <$> n1)) ++ av_addr nd :: ((av_addr <$> n2) ++ false_list n ++ (l2 ≫= rules_of)))).
  { pose proof rules_distinct as Hd. rewrite Hc, bind_app, bind_cons in Hd. unfold rules_of at 2 in Hd. rewrite Ht, Hl, fmap_app, fmap_cons in Hd.
    rewrite <- !app_assoc in Hd. cbn [app] in Hd. rewrite <- !app_assoc. exact Hd. }
  rewrite fmap_app, Hm, Hml in Hin. destruct (decide (nd = x)) as [<-|Hne]; [by apply (NoDup_before _ _ _ Hd Hin); left|].
  destruct (rival_side n nd x Hn Hnd Hx Hne Hs) as [Hf _]. specialize (Hf Hat).
  apply (NoDup_before _ _ _ Hd Hin). right. apply elem_of_app. right. apply elem_of_app. by left.
Qed.
Lemma false_rivals l1 n l2 (nds : list avtab_node) nd n1 n2 m mt ml :
  conds = l1 ++ n :: l2 → false_list n = av_addr <$> nds → nds ⊆ concat t → nds = n1 ++ nd :: n2 →
  m.*1 = l1 ≫= rules_of → mt.*1 = true_list n → ml.*1 = av_addr <$> n1 → rivals_in nd ((m ++ mt) ++ ml) mt.
Proof.
  intros Hc Ht Hsub Hl Hm Hmt Hml. assert (Hn : n ∈ conds) by (rewrite Hc; apply elem_of_app; right; by left).
  assert (Hnd : nd ∈ concat t) by (apply Hsub; rewrite Hl; apply elem_of_app; right; by left).
  assert (Hat : av_addr nd ∈ false_list n) by (rewrite Ht; apply elem_of_addrs; exists nd; split; [done|rewrite Hl; apply elem_of_app; right; by left]).
  assert (Hd : NoDup (((l1 ≫= rules_of) ++ true_list n ++ (av_addr <$> n1)) ++ av_addr nd :: ((av_addr <$> n2) ++ (l2 ≫= rules_of)))).
  { pose proof rules_distinct as Hd. rewrite Hc, bind_app, bind_cons in Hd. unfold rules_of at 2 in Hd. rewrite Ht, Hl, fmap_app, fmap_cons in Hd.
    rewrite <- !app_assoc in Hd. cbn [app] in Hd. rewrite <- !app_assoc. exact Hd. }
  assert (Hself : ∀ x, x ∈ concat t → av_addr x ∈ ((m ++ mt) ++ ml).*1 → nd ≠ x).
  { intros x Hx Hin <-. rewrite !fmap_app, Hm, Hmt, Hml, <- app_assoc in Hin. apply (NoDup_before _ _ _ Hd Hin). by left. }
  intros x Hx Hs Hin. destruct (rival_side n nd x Hn Hnd Hx (Hself x Hx Hin) Hs) as [_ Hxt]. specialize (Hxt Hat).
  rewrite Hmt. split; [done|]. intros y Hy Hsy Hiny. destruct (rival_side n nd y Hn Hnd Hy (Hself y Hy Hiny) Hsy) as [_ Hyt]. specialize (Hyt Hat).
  destruct (decide (x = y)) as [|Hne]; [done|]. exfalso.
  assert (Hk : one_kind (key nd)) by (rewrite Forall_forall in Hrules; by destruct (Hrules nd Hnd) as (_&?&_)).
  destruct (rival_side n x y Hn Hx Hy Hne (shares_same _ _ _ Hk Hs Hsy)) as [Hyf _]. specialize (Hyf Hxt).
  pose proof rules_distinct as Hd0. rewrite Hc, bind_app, bind_cons in Hd0. apply NoDup_app in Hd0 as (_&_&Hd0). apply NoDup_app in Hd0 as (Hd0&_).
  by apply (NoDup_before _ _ _ Hd0 Hyt).
Qed.

(** the nodes of a list *)
Definition rules_at (h : avtab) (l : list Z) : list avtab_node := omap (av_find h) l.
Lemma rules_at_addrs l : l ⊆ av_addr <$> concat t → av_addr <$> rules_at (te_cond_avtab p) l = l ∧ rules_at (te_cond_avtab p) l ⊆ concat t.
Proof.
  induction l as [|a l IH]; intros Hl; [split; [done|by intros ? ?%not_elem_of_nil]|].
  destruct IH as [IH1 IH2]; [intros x Hx; apply Hl; by right|]. destruct (proj1 (elem_of_addrs _ _) (Hl a ltac:(by left))) as (nd&->&Hnd).
  unfold rules_at in *. cbn. rewrite (av_find_in (te_cond_avtab p) t nd) by (done || apply Hwf || apply Hcf). cbn. split; [by f_equal|].
  intros x [-> |Hx]%elem_of_cons; [done|by apply IH2].
Qed.
Lemma lists_placed n : n ∈ conds → true_list n ⊆ av_addr <$> concat t ∧ false_list n ⊆ av_addr <$> concat t.
Proof.
  intros Hn. assert (Hr : ∀ a, a ∈ rules_of n → a ∈ av_addr <$> concat t).
  { intros a Ha. rewrite (cf_placed _ _ _ Hcf), bind_rules. apply list_elem_of_bind. by exists n. }
  split; intros a Ha; apply Hr, elem_of_app; auto.
Qed.

Record cond_storable (n : cond_node) : Prop := {
  cs_state : - 2 ^ 31 ≤ cur_state n < 2 ^ 31;
  cs_length : Z.of_nat (length (cn_cond_expr n)) < 2 ^ 31;
  cs_exprs : Forall (λ e, word (cond_type e) ∧ word (cond_bool e) ∧ expr_isvalid p e = true) (cn_cond_expr n);
  cs_lists : word (length (true_list n)) ∧ word (length (false_list n))
}.
Definition list_bytes_at (l : list Z) : list byte := cpu_to_le 4 [Z.of_nat (length l)] ++ rules_bytes (rules_at (te_cond_avtab p) l).
Definition node_bytes (n : cond_node) : list byte :=
  cpu_to_le 4 [cur_state n] ++ cpu_to_le 4 [Z.of_nat (length (cn_cond_expr n))] ++
  (cn_cond_expr n ≫= λ e, cpu_to_le 4 [cond_type e; cond_bool e]) ++ list_bytes_at (true_list n) ++ list_bytes_at (false_list n).

(** writing *)
Definition listed nd : Prop := av_find (te_cond_avtab p) (av_addr nd) = Some nd ∧ truth (parse_context nd) = true.
Lemma count_listed (nds : list avtab_node) h : Forall listed nds →
  wp (foldr (λ a len, n ← len; nd ← deref (av_find (te_cond_avtab p) a); mret (if truth (parse_context nd) then n + 1 else n)) (mret 0) (av_addr <$> nds))
    (λ n h', n = Z.of_nat (length nds) ∧ h' = h) h.
Proof.
  induction 1 as [|nd nds [Hn Hp] _ IH]; [by apply wp_ret|]. cbn [fmap list_fmap foldr]. apply wp_bind. eapply wp_mono; [exact IH|].
  intros n h' [-> ->]. eapply wp_bind, wp_deref; [exact Hn|]. rewrite Hp. apply wp_ret. split; [cbn [length]; lia|done].
Qed.
Lemma items_written (nds : list avtab_node) out room h : oldvers p = false → Forall listed nds → 12 * length nds ≤ room →
  wp (for_list (av_addr <$> nds) (λ a '(h, fp), nd ← deref (av_find h a);
      if truth (parse_context nd) then '(rc, h, _, fp) ← avtab_write_item p h a false true None fp; mret (if truth rc then inl (h, fp) else inr (h, fp))
      else mret (inr (h, fp))) (te_cond_avtab p, mem_output out room))
    (λ r h', r = (inr (te_cond_avtab p, mem_output (out ++ rules_bytes nds) (room - 12 * length nds)) : (avtab * policy_file) + (avtab * policy_file)) ∧ h' = h) h.
Proof.
  intros Ho Hf. revert out room. induction Hf as [|nd nds [Hn Hp] _ IH]; intros out room Hr.
  - apply wp_ret. unfold rules_bytes. cbn. by rewrite app_nil_r, Z.sub_0_r.
  - cbn [fmap list_fmap for_list length] in *. apply wp_bind. eapply wp_bind, wp_deref; [exact Hn|]. rewrite Hp.
    apply wp_bind. unfold avtab_write_item at 1. rewrite Ho. eapply wp_bind, wp_deref; [exact Hn|]. rewrite write_item_mem by lia. apply wp_ret.
    cbn [truth negb Z.eqb]. apply wp_ret. eapply wp_mono; [apply IH; lia|]. intros r h' [-> ->]. split; [|done].
    unfold rules_bytes. cbn [mbind list_bind]. rewrite app_assoc. do 3 f_equal. lia.
Qed.
Lemma cond_rules_written l : oldvers p = false → l ⊆ av_addr <$> concat t → word (length l) →
  writes (cond_write_av_list p l) (list_bytes_at l).
Proof.
  intros Ho Hl Hw. unfold list_bytes_at. destruct (rules_at_addrs l Hl) as [Ha Hsub]. revert Ha Hsub.
  generalize (rules_at (te_cond_avtab p) l). intros nds <- Hsub. clear Hl.
  assert (Hlist : Forall listed nds).
  { apply Forall_forall. intros nd Hnd. split; [apply (av_find_in _ t); [apply Hwf|apply Hcf|by apply Hsub]|].
    rewrite Forall_forall in Hrules. by destruct (Hrules nd (Hsub _ Hnd)) as (_&_&?). }
  intros out room h Hr. rewrite length_app, length_cpu_to_le, length_rules_bytes in *. rewrite length_fmap in *. cbn [length] in Hr.
  assert (Hwp : wp (cond_write_av_list p (av_addr <$> nds) (mem_output out room)) (λ x h',
    x = (0, mem_output (out ++ cpu_to_le 4 [Z.of_nat (length nds)] ++ rules_bytes nds) (room - (4 + 12 * length nds)%nat)) ∧ h' = h) h).
  { unfold cond_write_av_list, write_cond_rules. rewrite Ho. cbn [negb]. apply wp_bind. eapply wp_mono; [by apply count_listed|]. intros n h' [-> ->].
    apply wp_bind. pose proof (writes_words [Z.of_nat (length nds)] ltac:(cbn; lia) out room h) as Hput. rewrite length_cpu_to_le in Hput. cbn [length] in Hput.
    unfold wp at 1. rewrite Hput by lia. change (truth 0) with false. cbv iota. destruct (Z.eqb_spec (length nds) 0) as [E|E].
    { apply wp_ret. split; [|done]. destruct nds; [|done]. unfold rules_bytes. cbn [mbind list_bind]. by rewrite app_nil_r. }
    apply wp_bind. eapply wp_mono; [apply items_written; [done|done|lia]|]. intros r h' [-> ->]. apply wp_ret. split; [|done].
    rewrite <- app_assoc. do 2 f_equal. lia. }
  unfold wp in Hwp. destruct (cond_write_av_list p (av_addr <$> nds) (mem_output out room) h) as [[x h']|]; [|done]. by destruct Hwp as [-> ->].
Qed.
Lemma cond_node_written n : policy_type p = POLICY_KERN → oldvers p = false → n ∈ conds → cond_storable n → writes (cond_write_node p n) (node_bytes n).
Proof.
  intros Hk Ho Hn [Hs Hl He [Ht Hf]]. destruct (lists_placed n Hn) as [Hpt Hpf]. unfold cond_write_node, node_bytes.
  replace (cond_has_flags p) with false by (unfold cond_has_flags; by rewrite Hk). rewrite Hk. change (POLICY_KERN =? POLICY_KERN) with true. cbv iota.
  apply writes_then; [by apply writes_words|]. apply writes_then; [by apply writes_words|].
  apply writes_then; [apply writes_each; intros e _; by apply writes_words|].
  rewrite <- (app_nil_r (list_bytes_at (true_list n) ++ _)). apply writes_then; [|apply writes_done].
  apply writes_then; by apply cond_rules_written.
Qed.

(** reading back *)
Lemma i32_word z : - 2 ^ 31 ≤ z < 2 ^ 31 → i32 (le_to_cpu 4 (cpu_to_le 4 [z]) 0) = z.
Proof.
  intros Hz. rewrite <- (app_nil_r (cpu_to_le 4 [z])), (le_to_cpu_to_le 4 [z] [] 0 z) by done. change (256 ^ 4%nat) with (2 ^ 32).
  unfold i32, wrap. rewrite Z.add_mod_idemp_l by lia. rewrite Z.mod_small by lia. lia.
Qed.
(** the new conditional has the state, the expression and the rules of the old
    one, in their order *)
Definition paired m (n n' : cond_node) : Prop :=
  cur_state n' = cur_state n ∧ cn_cond_expr n' = cn_cond_expr n ∧
  ∃ mt mf, mt ⊆ m ∧ mf ⊆ m ∧ mt.*1 = true_list n ∧ mt.*2 = true_list n' ∧ mf.*1 = false_list n ∧ mf.*2 = false_list n'.
Lemma read_exprs_back (I : heap → Prop) (l : list cond_expr) : (∀ h h', I h → h_next h ≤ h_next h' → I h') →
  Forall (λ e, word (cond_type e) ∧ word (cond_bool e) ∧ expr_isvalid p e = true) l →
  reads_in I (times (length l) (read_cond_expr p) []) (l ≫= λ e, cpu_to_le 4 [cond_type e; cond_bool e]) (λ l' h, l' = l ∧ I h).
Proof.
  intros HI He. assert (Ht : reads_in (λ h, [] = ([] : list cond_expr) ∧ I h) (times (length l) (read_cond_expr p) []) (l ≫= λ e, cpu_to_le 4 [cond_type e; cond_bool e]) (λ l' h, l' = l ∧ I h)).
  { apply (reads_in_times l _ _ (λ e, cpu_to_le 4 [cond_type e; cond_bool e]) (λ l1 l' h, l' = l1 ∧ I h) []); [done|].
    intros e l1 l2 l' Hl. rewrite Forall_forall in He. destruct (He e) as (Ht&Hb&Hv); [rewrite Hl; apply elem_of_app; right; by left|].
    eapply reads_in_bind_last; [apply reads_in_or_fail; [done|by apply reads_in_entry]|]. intros buf rest h [-> [-> Hh]].
    rewrite (le_word _ 0 (cond_type e)), (le_word _ 1 (cond_bool e)) by done. revert rest h Hh.
    apply (reads_in_bind_nil I _ _ [] (λ _, I) _); [by apply reads_in_new|]. intros []. cbv zeta.
    replace (expr_isvalid p _) with true by (by rewrite <- Hv; destruct e). cbn [negb]. apply reads_in_ret. intros h Hh. split; [by destruct e|done]. }
  intros rest h Hh. by apply Ht.
Qed.
Lemma cond_node_back l1 n l2 m ctab :
  conds = l1 ++ n :: l2 → policy_type p = POLICY_KERN → POLICYDB_VERSION_AVTAB ≤ policyvers p → cond_storable n → m.*1 = l1 ≫= rules_of →
  reads_in (copied m ctab) (cond_read_node junk p ctab) (node_bytes n)
    (λ '(ctab', n') h, ∃ m', m'.*1 = rules_of n ∧ copied (m ++ m') ctab' h ∧ paired (m ++ m') n n').
Proof.
  intros Hc Hk Hv [Hs Hl He [Htl Hfl]] Hm. assert (Hn : n ∈ conds) by (rewrite Hc; apply elem_of_app; right; by left).
  destruct (lists_placed n Hn) as [Hpt Hpf]. destruct (rules_at_addrs _ Hpt) as [Hta Hts]. destruct (rules_at_addrs _ Hpf) as [Hfa Hfs].
  set (tn := rules_at (te_cond_avtab p) (true_list n)) in *. set (fn := rules_at (te_cond_avtab p) (false_list n)) in *.
  assert (Hlt : length (true_list n) = length tn) by (by rewrite <- Hta, length_fmap). assert (Hlf : length (false_list n) = length fn) by (by rewrite <- Hfa, length_fmap).
  assert (Hd : NoDup ((m.*1 ++ (av_addr <$> tn)) ++ (av_addr <$> fn))).
  { rewrite Hm, Hta, Hfa. pose proof rules_distinct as Hd. rewrite Hc, bind_app, bind_cons in Hd. unfold rules_of at 2 in Hd. rewrite !app_assoc in Hd.
    by apply NoDup_app in Hd as (?&_). }
  unfold cond_read_node, node_bytes, list_bytes_at. replace (cond_has_flags p) with false by (unfold cond_has_flags; by rewrite Hk).
  rewrite Hk. change (POLICY_KERN =? POLICY_KERN) with true. cbv iota. fold tn fn. rewrite Hlt, Hlf.
  eapply reads_in_bind; [apply reads_in_or_fail; [done|by apply reads_in_entry]|]. intros buf rest0 h0 [-> Hc0]. rewrite i32_word by done. revert rest0 h0 Hc0.
  eapply reads_in_bind; [apply reads_in_or_fail; [done|by apply reads_in_entry]|]. intros buf2 rest0 h0 [-> Hc0]. rewrite i32_word by lia. revert rest0 h0 Hc0.
  eapply reads_in_bind; [apply (read_exprs_back (copied m ctab)); [intros h h'; apply copied_later|done]|]. intros expr rest0 h0 [-> Hc0]. revert rest0 h0 Hc0.
  apply (reads_in_bind_last _ _ _ _ (λ '(ctab', tl, fl, atl, afl) h, ∃ mt mf, mt.*1 = true_list n ∧ mt.*2 = tl ∧ mf.*1 = false_list n ∧ mf.*2 = fl ∧ copied ((m ++ mt) ++ mf) ctab' h)).
  - eapply reads_in_bind.
    { apply reads_in_or_fail; [done|]. apply (cond_read_av_list_copies m [] ctab tn); [done|by rewrite <- Hlt|done|by intros ? ?%not_elem_of_nil|by apply NoDup_app in Hd as (?&_)|].
      intros nd n1 n2 ml Hl1 Hml. apply (true_rivals l1 n l2 tn nd n1 n2 m ml); done. }
    intros [ctab1 tl] rest0 h0 (mt&Hmt1&Hmt2&Hc1). rewrite <- Hmt2. revert rest0 h0 Hc1.
    eapply reads_in_bind_last.
    { apply reads_in_or_fail; [done|]. apply (cond_read_av_list_copies (m ++ mt) mt ctab1 fn); [done|by rewrite <- Hlf|done|set_solver|by rewrite fmap_app, Hmt1|].
      intros nd n1 n2 ml Hl1 Hml. apply (false_rivals l1 n l2 fn nd n1 n2 m mt ml); try done. by rewrite Hmt1. }
    intros [ctab2 fl]. apply reads_in_ret. intros h2 (mf&Hmf1&Hmf2&Hc2). exists mt, mf. by rewrite Hmt1, Hmf1, Hta, Hfa.
  - intros [[[[ctab' tl] fl] atl] afl]. eapply (reads_in_bind_nil _ _ _ [] (λ _ h, ∃ mt mf, mt.*1 = true_list n ∧ mt.*2 = tl ∧ mf.*1 = false_list n ∧ mf.*2 = fl ∧ copied ((m ++ mt) ++ mf) ctab' h)); [by apply reads_in_ret|].
    intros flags. apply reads_in_ret. intros h (mt&mf&H1&H2&H3&H4&Hcp). exists (mt ++ mf). split; [by rewrite fmap_app, H1, H3|]. rewrite app_assoc. split; [done|].
    split; [done|]. split; [done|]. exists mt, mf. split; [set_solver|]. split; [set_solver|]. done.
Qed.
Lemma paired_more m m' n n' : m ⊆ m' → paired m n n' → paired m' n n'.
Proof. intros Hm (?&?&mt&mf&?&?&?). split; [done|]. split; [done|]. exists mt, mf. split; [set_solver|]. split; [set_solver|]. done. Qed.
Lemma cond_list_back :
  policy_type p = POLICY_KERN → POLICYDB_VERSION_AVTAB ≤ policyvers p → 0 < av_nel (te_avtab p) < 2 ^ 32 →
  Z.of_nat (length conds) < 2 ^ 31 → Forall cond_storable conds →
  reads_in (λ _, True) (cond_read_list junk p) (cpu_to_le 4 [Z.of_nat (length conds)] ++ (conds ≫= node_bytes))
    (λ '(ctab', l') h, ∃ m, m.*1 = conds ≫= rules_of ∧ copied m ctab' h ∧ Forall2 (paired m) conds l').
Proof.
  intros Hk Hv Hnel Hl Hst. unfold cond_read_list.
  eapply reads_in_bind; [apply reads_in_or_fail; [done|by apply reads_in_entry]|]. intros buf rest0 h0 [-> _]. rewrite i32_word by lia.
  apply (reads_in_bind_nil (λ _, True) _ _ _ (λ ctab, copied [] ctab)); [| |done].
  - apply reads_in_or_fail; [done|]. intros rest h _. apply wp_bind. eapply wp_mono; [by apply avtab_alloc_wp|]. intros [rc ctab] h' [Hm Hr]. apply wp_ret.
    destruct Hr as [(->&(t0&Hwf0&Hc0)&_)|[-> _]].
    + change (truth 0) with false. cbv iota. split; [eapply mem_step_mono, Hm; intros _; by eexists|]. split; [|done]. exists t0. rewrite Hc0.
      split; [done|]. split; [done|]. split; [constructor|]. split; [constructor|by intros a b ?%not_elem_of_nil].
    + split; [|done]. eapply mem_step_mono, Hm. done.
  - intros ctab rest h Hcp.
    assert (Ht : reads_in (λ h, ∃ m, m.*1 = [] ≫= rules_of ∧ copied m ctab h ∧ Forall2 (paired m) [] [])
      (times (length conds) (λ '(ctab, l), _ ← new (-1); '(ctab, node) ← or_fail (-1) (cond_read_node junk p ctab); mret (ctab, l ++ [node])) (ctab, [])) (conds ≫= node_bytes)
      (λ '(ctab', l') h, ∃ m, m.*1 = conds ≫= rules_of ∧ copied m ctab' h ∧ Forall2 (paired m) conds l')).
    { apply (reads_in_times conds _ _ node_bytes (λ l1 '(ctab', l') h, ∃ m, m.*1 = l1 ≫= rules_of ∧ copied m ctab' h ∧ Forall2 (paired m) l1 l') (ctab, [])); [done|].
      intros n l1 l2 [ctab1 l'] Hc rest1 h1 (m&Hm&Hcp1&Hp). rewrite Forall_forall in Hst. assert (Hn : cond_storable n) by (apply Hst; rewrite Hc; apply elem_of_app; right; by left).
      apply (reads_in_bind_nil (copied m ctab1) _ _ (node_bytes n) (λ _, copied m ctab1)
        (λ '(ctab', l2') h, ∃ m, m.*1 = (l1 ++ [n]) ≫= rules_of ∧ copied m ctab' h ∧ Forall2 (paired m) (l1 ++ [n]) l2')); [apply reads_in_new; [done|intros h2 h3; apply copied_later]| |exact Hcp1].
      intros []. eapply reads_in_bind_last; [apply reads_in_or_fail; [done|by apply (cond_node_back l1 n l2 m ctab1)]|].
      intros [ctab2 n']. apply reads_in_ret. intros h2 (m'&Hm'&Hcp2&Hpn). exists (m ++ m'). rewrite fmap_app, bind_app, Hm, Hm'. cbn [mbind list_bind]. rewrite app_nil_r.
      split; [done|]. split; [done|]. apply Forall2_app; [|by constructor]. eapply Forall2_impl; [exact Hp|]. intros x y. apply paired_more. set_solver. }
    apply Ht. exists []. split; [done|]. by split.
Qed.
Lemma copied_rules m ctab h mt : copied m ctab h → mt ⊆ m →
  rule_of <$> rules_at ctab mt.*2 = rule_of <$> rules_at (te_cond_avtab p) mt.*1.
Proof.
  intros (t'&Hwf'&Hp&Hd&_&Hm) Hsub. induction mt as [|[a b] mt IH]; [done|].
  destruct (Hm a b) as (nd&nd'&Hnd&<-&Hnd'&<-&Hr); [apply Hsub; by left|]. unfold rules_at in *. cbn.
  rewrite (av_find_in ctab t' nd'), (av_find_in (te_cond_avtab p) t nd) by (done || apply Hwf || apply Hwf' || apply Hcf || by rewrite Hp).
  cbn. rewrite Hr. f_equal. apply IH. intros x Hx. apply Hsub. by right.
Qed.
End round_trip.

(** the bytes of the conditionals, and what they are read as *)
Definition conds_bytes p : list byte := cpu_to_le 4 [Z.of_nat (length (cond_list p))] ++ (cond_list p ≫= node_bytes p).
Definition cond_back p (ctab' : avtab) (n n' : cond_node) : Prop :=
  cur_state n' = cur_state n ∧ cn_cond_expr n' = cn_cond_expr n ∧
  rule_of <$> rules_at ctab' (true_list n') = rule_of <$> rules_at (te_cond_avtab p) (true_list n) ∧
  rule_of <$> rules_at ctab' (false_list n') = rule_of <$> rules_at (te_cond_avtab p) (false_list n).
Lemma conds_trip junk p tt t :
  policy_type p = POLICY_KERN → POLICYDB_VERSION_AVTAB ≤ policyvers p → 0 < av_nel (te_avtab p) < 2 ^ 32 →
  avtab_wf (te_avtab p) tt → avtab_wf (te_cond_avtab p) t →
  conflict_free (concat tt) (concat t) (cond_rules <$> cond_list p) → Forall rule_storable (concat t) →
  Z.of_nat (length (cond_list p)) < 2 ^ 31 → Forall (cond_storable p) (cond_list p) →
  writes (cond_write_list p (cond_list p)) (conds_bytes p) ∧
  reads (cond_read_list junk p) (conds_bytes p) (λ '(ctab', l'), Forall2 (cond_back p ctab') (cond_list p) l').
Proof.
  intros Hk Hv Hnel Hte Hwf Hcf Hr Hl Hst. split.
  - apply writes_then; [by apply writes_words|]. apply writes_each. intros n Hn. rewrite Forall_forall in Hst.
    apply (cond_node_written p tt t (cond_list p)); try done; [|by apply Hst]. unfold oldvers. apply andb_false_iff. right. by apply Z.ltb_ge.
  - apply (reads_in_reads (λ _, True) _ _ _ _ (λ _, I) (cond_list_back junk p tt t (cond_list p) Hte Hwf Hcf Hr Hk Hv Hnel Hl Hst)).
    intros [ctab' l'] h (m&_&Hm&Hp). eapply Forall2_impl; [exact Hp|]. intros n n' (Hs&He&mt&mf&Hmt&Hmf&E1&E2&E3&E4).
    unfold cond_back. rewrite <- E1, <- E2, <- E3, <- E4.
    split; [done|]. split; [done|]. by split; apply (copied_rules p tt t (cond_list p) Hwf Hcf m ctab' h).
Qed.
(** the rules of the unconditional table matter only by their keys *)
Lemma conflict_free_rules te te' nodes conds :
  rule_of <$> te' ≡ₚ rule_of <$> te → conflict_free te nodes conds → conflict_free te' nodes conds.
Proof.
  intros Hp [Hd Hpl Ha Hr]. split; [done|done| |done]. intros nd nd' Hnd Hnd'.
  assert (Hin : rule_of nd' ∈ rule_of <$> te) by (rewrite <- Hp; by apply list_elem_of_fmap_2).
  apply list_elem_of_fmap in Hin as (nd0&E&Hin). injection E as -> _. by apply Ha.
Qed.


(** *** Rules of modules *)

Definition avrule_storable (r : avrule) : Prop :=
  word (avr_specified r) ∧ word (avr_flags r) ∧ type_set_storable (avr_stypes r) ∧ type_set_storable (avr_ttypes r) ∧
  word (length (avr_perms r)) ∧ Forall (λ cp, word (cp_class cp) ∧ word (cp_data cp)) (avr_perms r).
Definition avrule_bytes (r : avrule) : list byte :=
  cpu_to_le 4 [avr_specified r; avr_flags r] ++ type_set_bytes (avr_stypes r) ++ type_set_bytes (avr_ttypes r) ++
  cpu_to_le 4 [Z.of_nat (length (avr_perms r))] ++ (avr_perms r ≫= λ cp, cpu_to_le 4 [cp_class cp; cp_data cp]).
(** the number of the line is not stored *)
Definition avrule_kept (r : avrule) : avrule :=
  AvRule (avr_specified r) (avr_flags r) (avr_stypes r) (avr_ttypes r) (avr_perms r) 0.
Lemma avrule_writes (r : avrule) : avrule_storable r → writes (avrule_write r) (avrule_bytes r).
Proof.
  intros (_&_&Hs&Ht&_). apply writes_then; [by apply writes_words|]. apply writes_then; [by apply type_set_writes|].
  apply writes_then; [by apply type_set_writes|]. apply writes_then; [by apply writes_words|]. apply writes_each. intros cp _. by apply writes_words.
Qed.
Lemma avrule_reads (r : avrule) : avrule_storable r → reads avrule_read (avrule_bytes r) (λ r', r' = avrule_kept r).
Proof.
  intros (H1&H2&Hs&Ht&Hl&Hp). eapply reads_bind_nil; [by apply reads_new|]. intros _ _.
  eapply reads_bind; [by apply reads_words|]. intros buf ->. rewrite (le_word _ 0 (avr_specified r)), (le_word _ 1 (avr_flags r)) by done.
  eapply reads_bind; [apply reads_or_fail; [done|by apply type_set_reads]|]. intros s ->.
  eapply reads_bind; [apply reads_or_fail; [done|by apply type_set_reads]|]. intros s' ->.
  eapply reads_bind; [by apply reads_words|]. intros buf ->. rewrite (le_word _ 0 (length (avr_perms r))) by done.
  eapply reads_bind_last.
  - apply (reads_times (avr_perms r) _ _ (λ cp, cpu_to_le 4 [cp_class cp; cp_data cp]) (λ l1 l, l = l1)); [done..|].
    intros cp l1 l2 l Hcp ->. rewrite Forall_forall in Hp. destruct (Hp cp) as [Hc Hd]; [rewrite Hcp; apply elem_of_app; right; by left|].
    eapply reads_bind_nil; [by apply reads_new|]. intros _ _. eapply reads_bind_last; [by apply reads_words|]. intros buf ->.
    rewrite (le_word _ 0 (cp_class cp)), (le_word _ 1 (cp_data cp)) by done. apply reads_ret. by destruct cp.
  - intros l ->. by apply reads_ret.
Qed.
Lemma avrules_round_trip (l : list avrule) : word (length l) → Forall avrule_storable l →
  round_trip (avrule_write_list l) avrule_read_list (λ l', l' = avrule_kept <$> l).
Proof.
  intros Hl Hs. exists (cpu_to_le 4 [Z.of_nat (length l)] ++ (l ≫= avrule_bytes)). split.
  - apply writes_then; [by apply writes_words|]. clear Hl. induction Hs as [|r l Hr _ IH]; [apply writes_done|].
    intros out room h Hroom. rewrite bind_cons in *. rewrite length_app in Hroom. cbn [write_avrules]. unfold mbind, CM_bind.
    rewrite (avrule_writes r Hr) by lia. rewrite (IH _ _ h) by lia.
    change (list_bind avrule byte avrule_bytes l) with (l ≫= avrule_bytes). rewrite length_app, <- app_assoc. do 4 f_equal. lia.
  - eapply reads_bind; [by apply reads_words|]. intros buf ->. rewrite (le_word _ 0 (length l)) by done.
    apply (reads_times l _ _ avrule_bytes (λ l1 l', l' = avrule_kept <$> l1)); [done..|]. intros r l1 l2 l' Hl2 ->.
    rewrite Forall_forall in Hs. eapply reads_bind_last; [apply avrule_reads, Hs; rewrite Hl2; apply elem_of_app; right; by left|].
    intros r' ->. apply reads_ret. by rewrite fmap_app.
Qed.
End theory.

(** ** Properties *)

Module ExampleCond.
Definition allow : avtab_node := AvNode 20 (AvKey 1 2 2 AVTAB_ALLOWED) (AvDatum 6) 1 0.
Definition on_true : avtab_node := AvNode 21 (AvKey 1 2 4 AVTAB_TRANSITION) (AvDatum 5) 1 0.
Definition on_false : avtab_node := AvNode 22 (AvKey 1 2 4 AVTAB_TRANSITION) (AvDatum 7) 1 0.
Definition slots : list (list avtab_node) := [[allow; on_true; on_false]].
Definition conds : list cond_node := [CondNode 1 (Conditional.rpn (BBool 1)) [20; 21] [22] [] [] 1 [1; 0; 0; 0; 0] 2 0].
Definition policy : policydb := let p := empty_policydb in
  Policydb (policy_type p) 30 (mls p) (p_classes p) (p_roles p) (p_types p) (p_users p) (Symtab None 2)
    (p_levels p) (p_cats p) (p_sens_val_to_name p) (p_cat_val_to_name p) (p_class_val_to_name p)
    (p_role_val_to_name p) (p_type_val_to_name p) (p_user_val_to_name p) (class_val_to_struct p)
    (role_val_to_struct p) (user_val_to_struct p) (type_val_to_struct p) Example.table (Avtab (Some slots) 3 1 0)
    (bool_val_to_struct two_bools) conds (p_role_tr p) (p_filename_trans p) (p_role_allow p) (p_range_tr p) (type_attr_map p)
    (permissive_map p) (attr_type_map p) (ocontexts p) (p_genfs p).
(** a conditional on the boolean 0 *)
Definition no_bool : list byte := cpu_to_le 4 [1; 0; 1; COND_BOOL; 0; 0; 0].
Definition rule : avrule := AvRule AVTAB_ALLOWED 0 (TypeSet (Ebitmap [] 0) (Ebitmap [] 0) 0) (TypeSet (Ebitmap [] 0) (Ebitmap [] 0) 0) [ClassPerm 1 2] 0.

Lemma slots_wf : avtab_wf (te_cond_avtab policy) slots.
Proof.
  assert (Hcase : ∀ i c, slots !! i = Some c → i = 0%nat ∧ c = [allow; on_true; on_false]) by (intros [|i] c; [by intros [= <-]|done]).
  split; [done|by vm_compute| | |by vm_compute].
  - intros i c [-> ->]%Hcase. repeat constructor; vm_compute; discriminate.
  - intros i c nd [-> ->]%Hcase Hin. repeat (apply elem_of_cons in Hin as [-> |Hin]; [split; [repeat split; discriminate|done]|]). by apply elem_of_nil in Hin.
Qed.
Lemma no_conflict : conflict_free (concat Example.slots) (concat slots) (cond_rules <$> conds).
Proof.
  split.
  - by apply (bool_decide_unpack (NoDup (av_addr <$> concat slots))); vm_compute.
  - done.
  - intros nd nd' Hnd Hnd'. cbn in Hnd, Hnd'. repeat (apply elem_of_cons in Hnd as [-> |Hnd]; [repeat (apply elem_of_cons in Hnd' as [-> |Hnd']; [done|]); by apply elem_of_nil in Hnd'|]).
    by apply elem_of_nil in Hnd.
  - intros nd nd' Hnd Hnd' Hne Hs. eexists. split; [by left|]. cbn in Hnd, Hnd'.
    repeat (apply elem_of_cons in Hnd as [-> |Hnd]; [repeat (apply elem_of_cons in Hnd' as [-> |Hnd']; [try done|]); try by apply elem_of_nil in Hnd'|]); try by apply elem_of_nil in Hnd.
    + left. split; [by right; left|by left].
    + right. split; [by right; left|by left].
Qed.
End ExampleCond.

(** C31: whatever the file says, the conditionals that [cond_read_list] accepts
    have known operators and no boolean above the last, each of their rules is
    a node of [te_cond_avtab] of its own, as [evaluate_conds] needs it, and type
    rules are deterministic: in every state of the rules that agrees with the
    conditionals, two rules that are switched on are no rivals; no rule has a
    rival in [te_avtab]. *)
Theorem cond_read_list_deterministic `{Target} junk p tt bs h :
  policy_type p = POLICY_KERN → avtab_wf (te_avtab p) tt → 0 < av_nel (te_avtab p) < 2 ^ 32 → length bs < UINT_MAX →
  wp (cond_read_list junk p (mem_input bs)) (λ '(r, _) _, match r with
    | inl rc => truth rc = true
    | inr (ctab, l) => Forall (cond_valid p) l ∧ nodes_of ctab (l ≫= rules_of) ∧ NoDup (l ≫= rules_of) ∧
        ∀ ctab' t', same_rules ctab ctab' (l ≫= rules_of) → Forall (synced ctab') l → av_htable ctab' = Some t' →
        ∀ nd, nd ∈ concat t' → (∀ nd', nd' ∈ concat tt → shares_type (key nd) (key nd') = false) ∧
          ∀ nd', nd' ∈ concat t' → av_addr nd ≠ av_addr nd' → Z.testbit (specified (key nd)) 15 = true →
            Z.testbit (specified (key nd')) 15 = true → shares_type (key nd) (key nd') = false
    end) h.
Proof.
  intros Hk Hte Hnel Hbs. eapply wp_mono; [by apply (cond_read_list_checks junk p tt Hte Hk Hnel)|]. intros [[rc|[ctab l]] fp] h' [_ Hr]; [done|].
  destruct Hr as [(t&Hwf&Hcf&_) Hv]. pose proof (av_table _ _ Hwf) as Ht. split; [done|]. pose proof (cf_placed _ _ _ Hcf) as Hp. rewrite bind_rules in Hp.
  split; [|split; [rewrite <- Hp; apply Hcf|]].
  - intros a Ha. rewrite <- Hp in Ha. apply elem_of_addrs in Ha as (nd&->&Hnd). exists nd. by apply (av_find_in ctab t nd Ht (cf_distinct _ _ _ Hcf)).
  - intros ctab' t' Hsame Hsync Ht' nd Hnd. split.
    + intros nd' Hnd'. destruct (erased_node _ _ _ _ _ nd Hsame Ht Ht' Hnd) as (nd0&H0&E0).
      rewrite <- (erase_shares nd0 nd' nd nd' E0 eq_refl). by apply (cf_alone _ _ _ Hcf).
    + intros nd' Hnd' Hne Hon Hon'. by apply (conflict_free_deterministic (concat tt) ctab ctab' t t' l nd nd').
Qed.

(** round trip of conditionals: those that [cond_write_list] stores of a
    policy without conflicts are accepted, and have the same states, expressions
    and, in the same order, the same rules, in a new table. *)
Theorem conditionals_roundtrip `{Target} junk p tt t :
  policy_type p = POLICY_KERN → POLICYDB_VERSION_AVTAB ≤ policyvers p → 0 < av_nel (te_avtab p) < 2 ^ 32 →
  avtab_wf (te_avtab p) tt → avtab_wf (te_cond_avtab p) t →
  conflict_free (concat tt) (concat t) (cond_rules <$> cond_list p) → Forall rule_storable (concat t) →
  Z.of_nat (length (cond_list p)) < 2 ^ 31 → Forall (cond_storable p) (cond_list p) →
  round_trip (cond_write_list p (cond_list p)) (cond_read_list junk p) (λ '(ctab', l'),
    Forall2 (cond_back p ctab') (cond_list p) l').
Proof. intros. exists (conds_bytes p). by apply (conds_trip junk p tt t). Qed.

(** a conditional may depend on the boolean 0, which no array has:
    [expr_isvalid] accepts it, and the evaluation reads in front of
    [bool_val_to_struct]. *)
Theorem cond_bool_zero_accepted :
  match @cond_read_list target_arm [] ExampleCond.policy (mem_input ExampleCond.no_bool) fresh_heap with
  | Some ((inr (ctab, l), _), h) => evaluate_conds (with_conds ExampleCond.policy ctab l) h = None
  | _ => False
  end.
Proof. vm_compute. reflexivity. Qed.

(** [avrule_write_list] does not look at the code of [avrule_write]: when
    there is no room for the rules it has written the count of, it succeeds. *)
Theorem avrule_write_list_ignores_errors :
  @avrule_write target_arm ExampleCond.rule (mem_output [] 4) fresh_heap = Some ((POLICYDB_ERROR, mem_output [] 4), fresh_heap) ∧
  @avrule_write_list target_arm [ExampleCond.rule] (mem_output [] 4) fresh_heap =
    Some ((POLICYDB_SUCCESS, mem_output (cpu_to_le 4 [1]) 0), fresh_heap).
Proof. split; by vm_compute. Qed.

(** round trip of the rules of modules, but for the numbers of their
    lines. *)
Theorem avrules_roundtrip `{Target} (l : list avrule) : word (length l) → Forall avrule_storable l →
  round_trip (avrule_write_list l) avrule_read_list (λ l', l' = avrule_kept <$> l).
Proof. apply avrules_round_trip. Qed.

#[local] Existing Instance target_arm.

(** witness of C31 *)
Lemma cond_read_list_deterministic_witness :
  wp (cond_read_list [] ExampleCond.policy (mem_input ExampleCond.no_bool)) (λ '(r, _) _, match r with
    | inl rc => truth rc = true
    | inr (ctab, l) => Forall (cond_valid ExampleCond.policy) l ∧ nodes_of ctab (l ≫= rules_of) ∧ NoDup (l ≫= rules_of) ∧
        ∀ ctab' t', same_rules ctab ctab' (l ≫= rules_of) → Forall (synced ctab') l → av_htable ctab' = Some t' →
        ∀ nd, nd ∈ concat t' → (∀ nd', nd' ∈ concat Example.slots → shares_type (key nd) (key nd') = false) ∧
          ∀ nd', nd' ∈ concat t' → av_addr nd ≠ av_addr nd' → Z.testbit (specified (key nd)) 15 = true →
            Z.testbit (specified (key nd')) 15 = true → shares_type (key nd) (key nd') = false
    end) fresh_heap.
Proof. apply (cond_read_list_deterministic [] ExampleCond.policy Example.slots); [done|apply Example.table_wf|done|done]. Defined.

(** witness of [conditionals_roundtrip] *)
Lemma conditionals_roundtrip_witness :
  round_trip (cond_write_list ExampleCond.policy ExampleCond.conds) (cond_read_list [] ExampleCond.policy) (λ '(ctab', l'),
    Forall2 (λ n n', cur_state n' = cur_state n ∧ cn_cond_expr n' = cn_cond_expr n ∧
      rule_of <$> rules_at ctab' (true_list n') = rule_of <$> rules_at (te_cond_avtab ExampleCond.policy) (true_list n) ∧
      rule_of <$> rules_at ctab' (false_list n') = rule_of <$> rules_at (te_cond_avtab ExampleCond.policy) (false_list n)) ExampleCond.conds l').
Proof.
  apply (conditionals_roundtrip [] ExampleCond.policy Example.slots ExampleCond.slots); try done.
  - apply Example.table_wf.
  - apply ExampleCond.slots_wf.
  - apply ExampleCond.no_conflict.
  - repeat (apply Forall_cons; split; [split; [split; [by repeat split|by split]|split; [|done]]|]); [by exists 0|by exists 4|by exists 4|done].
  - apply Forall_cons. split; [|done]. split; [done|done| |by split]. apply Forall_cons. split; [by repeat split|done].
Defined.

(** witness of [avrules_roundtrip] *)
Lemma avrules_roundtrip_witness :
  round_trip (avrule_write_list [ExampleCond.rule]) avrule_read_list (λ l', l' = [ExampleCond.rule]).
Proof.
  apply (avrules_roundtrip [ExampleCond.rule]); [by split|]. apply Forall_cons. split; [|done].
  split; [by split|]. split; [by split|]. split; [split; [apply ebitmap_init_wf|split; [apply ebitmap_init_wf|by split]]|].
  split; [split; [apply ebitmap_init_wf|split; [apply ebitmap_init_wf|by split]]|]. split; [by split|]. apply Forall_cons. split; [by repeat split|done].
Defined.
