(* ===== verification/Tables.v ===== *)
(** * Data changed in their tables

    A table holds pointers to its data: who finds a datum there can change it.
    [store_datum] is such a store, [hashtab_map_data] the walk of [hashtab_map]
    with a function that changes the data.  [table_rel] relates a table to what
    becomes of it. *)

From S2P Require Import Prelude Hashtab Symtab.

(** a result of a run with what is known of it *)
Lemma wp_and_run {A} (m : CM A) (Q : A → heap → Prop) h : wp m Q h → wp m (λ x h', Q x h' ∧ m h = Some (x, h')) h.
Proof. unfold wp. by destruct (m h) as [[x h']|]. Qed.

Section operations.
Context {K D A : Type} `{EqDecision K}.

(** a store to the datum of [k] *)
Definition store_datum (t : option (hashtab K D)) (k : K) (f : D → D) : option (hashtab K D) :=
  (λ t, Hashtab (fmap (M := list) (fmap (M := list) (λ kd, (kd.1, if decide (kd.1 = k) then f kd.2 else kd.2))) (htable t)) (size t) (nel t)) <$> t.

Fixpoint map_chain (apply : K → D → A → CM (Z * D * A)) (cur : list (K * D)) (args : A) : CM (Z * list (K * D) * A) :=
  match cur with
  | [] => mret (0, [], args)
  | (k, d) :: next =>
      '(rc, d, args) ← apply k d args;
      if truth rc then mret (rc, (k, d) :: next, args) else
      '(rc, next, args) ← map_chain apply next args;
      mret (rc, (k, d) :: next, args)
  end.
Fixpoint map_slots (apply : K → D → A → CM (Z * D * A)) (slots : list (list (K * D))) (args : A)
    : CM (Z * list (list (K * D)) * A) :=
  match slots with
  | [] => mret (0, [], args)
  | c :: slots =>
      '(rc, c, args) ← map_chain apply c args;
      if truth rc then mret (rc, c :: slots, args) else
      '(rc, slots, args) ← map_slots apply slots args;
      mret (rc, c :: slots, args)
  end.
(** [hashtab_map(h, apply, args)] where [apply] changes the data *)
Definition hashtab_map_data (h : option (hashtab K D)) (apply : K → D → A → CM (Z * D * A)) (args : A)
    : CM (Z * option (hashtab K D) * A) :=
  match h with
  | None => mret (SEPOL_OK, None, args)
  | Some t =>
      '(rc, slots, args) ← map_slots apply (htable t) args;
      mret (rc, Some (Hashtab slots (size t) (nel t)), args)
  end.
End operations.

(** ** Tables with the same keys *)

Section theory.
Context {K D : Type} `{HashLaws K} `{Countable K}.
Implicit Types (t : hashtab K D) (k : K) (P : K → D → D → Prop) (c : list (K * D)).

Definition datum_rel P (kd kd' : K * D) : Prop := kd'.1 = kd.1 ∧ P kd.1 kd.2 kd'.2.
Record table_rel P t t' : Prop := {
  tr_size : size t' = size t;
  tr_nel : nel t' = nel t;
  tr_data : Forall2 (Forall2 (datum_rel P)) (htable t) (htable t')
}.

Lemma datum_rel_keys P c c' : Forall2 (datum_rel P) c c' → c'.*1 = c.*1.
Proof. induction 1 as [|kd kd' c c' [Hk _] _ IH]; [done|]. by rewrite !fmap_cons, Hk, IH. Qed.
Lemma sorted_keys c c' : c'.*1 = c.*1 → StronglySorted key_before c → StronglySorted key_before c'.
Proof.
  revert c'. induction c as [|kd c IH]; intros [|kd' c'] E; try done. rewrite !fmap_cons in E. injection E as Ek E.
  rewrite !StronglySorted_cons, !Forall_forall. intros [Hall Hs]. split; [|by apply IH].
  intros x Hx. assert (x.1 ∈ c.*1) as (y&Ey&Hy)%list_elem_of_fmap by (rewrite <- E; by apply list_elem_of_fmap_2).
  specialize (Hall y Hy). unfold key_before in *. by rewrite Ey, Ek.
Qed.
Lemma table_rel_ok P t t' : table_rel P t t' → hashtab_ok t → hashtab_ok t'.
Proof.
  intros [Hs Hn Hd] [Hsz Hsl Hso Hha]. split; rewrite ?Hs.
  - done.
  - by rewrite <- Hsl, (Forall2_length _ _ _ Hd).
  - intros i c' Hc'. destruct (Forall2_lookup_r _ _ _ _ _ Hd Hc') as (c&Hc&Hcc).
    eapply sorted_keys; [by eapply datum_rel_keys|by eapply Hso].
  - intros i c' kd' Hc' Hkd'. destruct (Forall2_lookup_r _ _ _ _ _ Hd Hc') as (c&Hc&Hcc).
    apply list_elem_of_lookup in Hkd' as [j Hj]. destruct (Forall2_lookup_r _ _ _ _ _ Hcc Hj) as (kd&Hkd&[-> _]).
    by eapply Hha, list_elem_of_lookup_2.
Qed.
Lemma table_rel_entries P t t' : table_rel P t t' → Forall2 (datum_rel P) (entries t) (entries t').
Proof. intros [_ _ Hd]. unfold entries. induction Hd; cbn [concat]; [done|]. by apply Forall2_app. Qed.
Lemma table_rel_wf P t t' : table_rel P t t' → hashtab_wf t → hashtab_wf t'.
Proof.
  intros Hr [Hok Hn]. split; [by eapply table_rel_ok|]. rewrite (tr_nel _ _ _ Hr), Hn.
  by rewrite (Forall2_length _ _ _ (table_rel_entries _ _ _ Hr)).
Qed.
Lemma table_rel_map P t t' k :
  table_rel P t t' → hashtab_ok t → option_Forall2 (P k) (hashtab_map_of t !! k) (hashtab_map_of t' !! k).
Proof.
  intros Hr Hok. pose proof (table_rel_ok _ _ _ Hr Hok) as Hok'. pose proof (table_rel_entries _ _ _ Hr) as He.
  destruct (hashtab_map_of t !! k) as [d|] eqn:Ed.
  - apply map_of_lookup in Ed as Hin; [|done]. apply list_elem_of_lookup in Hin as [j Hj].
    destruct (Forall2_lookup_l _ _ _ _ _ He Hj) as ([k' d']&Hj'&[Ek HP]). cbn in *. subst k'.
    rewrite (proj2 (map_of_lookup t' k d' Hok')) by (by eapply list_elem_of_lookup_2). by constructor.
  - destruct (hashtab_map_of t' !! k) as [d'|] eqn:Ed'; [|constructor]. exfalso.
    apply map_of_lookup in Ed' as Hin; [|done]. apply list_elem_of_lookup in Hin as [j Hj].
    destruct (Forall2_lookup_r _ _ _ _ _ He Hj) as ([k' d]&Hj'&[Ek HP]). cbn in *. subst k'.
    apply list_elem_of_lookup_2, map_of_lookup in Hj'; [|done]. congruence.
Qed.

Lemma store_datum_rel t k f : ∃ t', store_datum (Some t) k f = Some t' ∧ table_rel (λ k' d d', d' = if decide (k' = k) then f d else d) t t'.
Proof.
  eexists. split; [done|]. split; [done|done|]. cbn [htable]. apply Forall2_fmap_r, Forall_Forall2_diag, Forall_true.
  intros c. apply Forall2_fmap_r, Forall_Forall2_diag, Forall_true. done.
Qed.
Lemma store_datum_map t k f : hashtab_wf t → ∃ t', store_datum (Some t) k f = Some t' ∧ hashtab_wf t' ∧
  hashtab_map_of t' = alter f k (hashtab_map_of t) ∧ size t' = size t.
Proof.
  intros Hwf. destruct (store_datum_rel t k f) as (t'&E&Hr). exists t'. split; [done|]. split; [by eapply table_rel_wf|].
  split; [|by apply Hr].
  apply map_eq. intros k'. pose proof (table_rel_map _ _ _ k' Hr (proj1 Hwf)) as Hm.
  destruct (decide (k' = k)) as [->|Hne].
  - rewrite lookup_alter_eq. destruct Hm as [d d' Hd|]; [|done]. rewrite decide_True in Hd by done. by rewrite Hd.
  - rewrite lookup_alter_ne by done. destruct Hm as [d d' Hd|]; [|done]. rewrite decide_False in Hd by done. by rewrite Hd.
Qed.

(** the walk, with a state that keeps [Inv] *)
Section walk.
Context {A : Type} (apply : K → D → A → CM (Z * D * A)) (P : K → D → D → Prop) (Inv : A → heap → Prop) (E : Z → heap → Prop).
Lemma map_chain_wp c args h :
  Inv args h →
  (∀ k d args h, (k, d) ∈ c → Inv args h → wp (apply k d args) (λ '(rc, d', args') h', if truth rc then E rc h' else P k d d' ∧ Inv args' h') h) →
  wp (map_chain apply c args) (λ '(rc, c', args') h', if truth rc then E rc h' else Forall2 (datum_rel P) c c' ∧ Inv args' h') h.
Proof.
  revert args h. induction c as [|[k d] c IH]; intros args h HI Hb; cbn [map_chain]; [by apply wp_ret|].
  apply wp_bind. eapply wp_mono; [apply Hb; [by left|done]|]. intros [[rc d'] args'] h' Hrc.
  destruct (truth rc) eqn:Erc; [by apply wp_ret; rewrite Erc|]. destruct Hrc as [HP HI']. apply wp_bind.
  eapply wp_mono; [apply IH; [done|]; intros; apply Hb; [by right|done]|]. intros [[rc2 c'] args2] h2 H2.
  apply wp_ret. destruct (truth rc2); [done|]. destruct H2 as [Hc HI2]. split; [|done]. by constructor.
Qed.
Lemma hashtab_map_data_wp t args h :
  Inv args h →
  (∀ k d args h, (k, d) ∈ entries t → Inv args h →
    wp (apply k d args) (λ '(rc, d', args') h', if truth rc then E rc h' else P k d d' ∧ Inv args' h') h) →
  wp (hashtab_map_data (Some t) apply args) (λ '(rc, t', args') h',
    if truth rc then E rc h' else ∃ t0, t' = Some t0 ∧ table_rel P t t0 ∧ Inv args' h') h.
Proof.
  intros HI Hb. unfold hashtab_map_data. apply wp_bind.
  assert (Hs : wp (map_slots apply (htable t) args) (λ '(rc, slots, args') h',
    if truth rc then E rc h' else Forall2 (Forall2 (datum_rel P)) (htable t) slots ∧ Inv args' h') h).
  { unfold entries in Hb. clear -HI Hb. revert args h HI Hb. induction (htable t) as [|c slots IH]; intros args h HI Hb; cbn [map_slots]; [by apply wp_ret|].
    apply wp_bind. eapply wp_mono; [apply map_chain_wp; [done|]; intros; apply Hb; [|done]; cbn; rewrite elem_of_app; by left|].
    intros [[rc c'] args'] h' Hrc. destruct (truth rc) eqn:Erc; [by apply wp_ret; rewrite Erc|]. destruct Hrc as [Hc HI']. apply wp_bind.
    eapply wp_mono; [apply IH; [done|]; intros; apply Hb; [|done]; cbn; rewrite elem_of_app; by right|].
    intros [[rc2 slots'] args2] h2 H2. apply wp_ret. destruct (truth rc2); [done|]. destruct H2. split; [by constructor|done]. }
  eapply wp_mono; [exact Hs|]. intros [[rc slots] args'] h' Hrc. apply wp_ret. destruct (truth rc); [done|].
  destruct Hrc as [Hd HI']. by eexists.
Qed.
End walk.
End theory.
