(* ===== verification/Scopes.v ===== *)
(** * Modules: scopes, declarations and the making of a database
    ([avrule_block.c], [policydb.c], [util.c])

    A module is a list of blocks, each with alternative declarations of which one
    may be enabled.  Every symbol has a scope: it is declared or required, by
    some declarations.  [symtab_insert] enters a symbol with its scope, and
    [policydb_init] makes a database with the one symbol that every policy has. *)

From S2P Require Import Prelude PolicyFile Hashtab Ebitmap Symtab Tables Context Avtab Policydb Conditional Mls ExpandRules ExpandSets Readers ContextIO SymbolsIO OcontextIO.

(** ** Data *)

Definition SYM_COMMONS : nat := 0.
Definition SYM_CLASSES : nat := 1.
Definition SYM_ROLES : nat := 2.
Definition SYM_TYPES : nat := 3.
Definition SYM_USERS : nat := 4.
Definition SYM_BOOLS : nat := 5.
Definition SYM_LEVELS : nat := 6.
Definition SYM_CATS : nat := 7.
Definition SYM_NUM : nat := 8.
Definition SCOPE_REQ : Z := 1.
Definition SCOPE_DECL : Z := 2.
Definition AVRULE_OPTIONAL : Z := 1.

(** [decl_ids] is the array, empty for a null pointer; when it could not grow it
    is shorter than [decl_ids_len] *)
Record scope_datum := ScopeDatum { scope : Z; decl_ids : list Z; decl_ids_len : Z }.
(** [si_scope] has the [SYM_NUM] bitmaps *)
Record scope_index := ScopeIndex { si_scope : list ebitmap; class_perms_map : list ebitmap }.
Record filename_trans_rule := FilenameTransRule {
  ftr_stypes : type_set; ftr_ttypes : type_set; ftr_tclass : Z; ftr_name : string; ftr_otype : Z }.
(** the array of symbol tables *)
Record symtabs := Symtabs {
  st_commons : symtab common_datum; st_classes : symtab class_datum; st_roles : symtab role_datum;
  st_types : symtab type_datum; st_users : symtab user_datum; st_bools : symtab cond_bool_datum;
  st_levels : symtab level_datum; st_cats : symtab cat_datum }.
Record avrule_decl := AvruleDecl {
  decl_id : Z; decl_enabled : Z; decl_cond_list : list cond_node; decl_avrules : list avrule;
  role_tr_rules : list role_trans_rule; role_allow_rules : list role_allow_rule;
  range_tr_rules : list range_trans_rule; decl_required : scope_index; decl_declared : scope_index;
  filename_trans_rules : list filename_trans_rule; decl_symtab : symtabs; module_name : option string }.
(** [blk_enabled] is the position in [branch_list] of the declaration it points to *)
Record avrule_block := AvruleBlock { branch_list : list avrule_decl; blk_enabled : option nat; blk_flags : Z }.

(** the database with what modules have: [p_scope] has the [SYM_NUM] tables of
    scopes, [decl_val_to_struct] the declarations in their places *)
Record database := Database {
  db_policy : policydb; p_commons : symtab common_datum; p_scope : list (symtab scope_datum);
  p_global : list avrule_block; decl_val_to_struct : list (option avrule_decl);
  p_common_val_to_name : list (option string); p_bool_val_to_name : list (option string);
  policycaps : ebitmap; handle_unknown : Z; target_platform : Z; db_name : option string; db_version : option string; unsupported_format : Z }.

Section operations.
Context `{Target}.

(** ** Scopes *)

(** the code, [*cnt] and [*a]; an array that is there is not empty *)
Definition add_i_to_a (i cnt : Z) (a : list Z) : CM (Z * Z * list Z) :=
  let cnt := match a with [] => 0 | _ => cnt end in
  n ← malloc;
  match n with
  | None => mret (-1, cnt, [])
  | Some _ =>
      if szt (4 * match a with [] => 1 | _ => u32 (cnt + 1) end) <? 4 * (cnt + 1) then undefined
      else mret (0, u32 (cnt + 1), a ++ [i])
  end.

(** the reads [decl_ids[i]] of a loop to [decl_ids_len] *)
Definition decl_ids_at (d : scope_datum) (i : Z) : CM Z := deref (if i <? 0 then None else decl_ids d !! Z.to_nat i).
(** is the declaration listed *)
Definition listed (d : scope_datum) (id : Z) : CM bool :=
  r ← for_loop (S := unit) (R := bool) 0 (decl_ids_len d) (λ i _,
        x ← decl_ids_at d i; mret (if x =? id then inl true else inr ())) ();
  mret (match r with inl b => b | inr _ => false end).

(** what [symtab_insert] does with the scope that it finds: the code, and the
    new scope if it goes on *)
Definition scope_conflict (sym : nat) (role_flavors : CM (Z * Z)) (old new : Z) : CM (Z + Z) :=
  if (old =? SCOPE_DECL) && (new =? SCOPE_DECL) then
    if negb (Nat.eqb sym SYM_ROLES) && negb (Nat.eqb sym SYM_USERS) then mret (inl (-2)) else
    if Nat.eqb sym SYM_ROLES then
      '(base_flavor, cur_flavor) ← role_flavors;
      mret (if negb ((base_flavor =? ROLE_ROLE) && (cur_flavor =? ROLE_ROLE)) then inl (-2) else inr old)
    else mret (inr old)
  else if (old =? SCOPE_REQ) && (new =? SCOPE_DECL) then mret (inr SCOPE_DECL)
  else if negb (old =? new) then mret (inl (-2)) else mret (inr old).
(** the flavors of the role in the table, whose presence is asserted, and of the
    datum *)
Definition role_flavors_of {D} (flavor : D → Z) (t : table_of D) (key : string) (datum : D) : CM (Z * Z) :=
  base ← hashtab_search t key;
  base ← deref base;
  mret (flavor base, flavor datum).
(** the part after the symbol: [retval] and the table of scopes *)
Definition insert_scope {D} (sym : nat) (flavor : D → Z) (t : table_of D) (scopes : table_of scope_datum)
    (key : string) (datum : D) (sc id retval : Z) : CM (Z * table_of scope_datum) :=
  found ← hashtab_search scopes key;
  r ← match found with
      | None =>
          key2 ← malloc;
          match key2 with
          | None => mret (inl (- ENOMEM, scopes))
          | Some _ =>
              n ← malloc;
              match n with
              | None => mret (inl (- ENOMEM, scopes))
              | Some _ =>
                  let d := ScopeDatum sc [] 0 in
                  '(rc, scopes) ← hashtab_insert scopes key d;
                  mret (if truth rc then inl (rc, scopes) else inr (d, scopes))
              end
          end
      | Some d =>
          c ← scope_conflict sym (role_flavors_of flavor t key datum) (scope d) sc;
          mret (match c with
                | inl rc => inl (rc, scopes)
                | inr sc => let d := ScopeDatum sc (decl_ids d) (decl_ids_len d) in
                            inr (d, store_datum scopes key (λ _, d))
                end)
      end;
  match r with
  | inl ret => mret ret
  | inr (d, scopes) =>
      there ← listed d id;
      if (there : bool) then mret (retval, scopes) else
      '(rc, cnt, a) ← add_i_to_a id (decl_ids_len d) (decl_ids d);
      let scopes := store_datum scopes key (λ d, ScopeDatum (scope d) a cnt) in
      mret (if rc =? -1 then - ENOMEM else retval, scopes)
  end.
(** [set_value] stores the value into the datum, where there is one to assign;
    the code, the symbols and the scopes *)
Definition symtab_insert {D} (sym : nat) (flavor : D → Z) (s : symtab D) (scopes : table_of scope_datum)
    (key : string) (datum : D) (sc id : Z) (set_value : option (Z → D → D)) : CM (Z * symtab D * table_of scope_datum) :=
  let v := u32 (nprim s + 1) in
  '(rc, t) ← hashtab_insert (table s) key (match set_value with Some f => f v datum | None => datum end);
  if rc =? SEPOL_OK then
    '(rc, scopes) ← insert_scope sym flavor t scopes key datum sc id 0;
    mret (rc, Symtab t (match set_value with Some _ => v | None => nprim s end), scopes)
  else if rc =? SEPOL_EEXIST then
    '(rc, scopes) ← insert_scope sym flavor t scopes key datum sc id 1;
    mret (rc, Symtab t (nprim s), scopes)
  else mret (rc, Symtab t (nprim s), scopes).

(** [decl_val_to_struct[id - 1]] may be null *)
Definition is_id_enabled {D} (t : table_of scope_datum) (decls : list (option D)) (enabled : D → Z) (id : string) : CM bool :=
  found ← hashtab_search t id;
  match found with
  | None => mret false
  | Some d =>
      if negb (scope d =? SCOPE_DECL) then mret false else
      r ← for_loop (S := unit) (R := bool) 0 (decl_ids_len d) (λ i _,
            x ← decl_ids_at d i;
            decl ← deref (Constraint.at_index decls x);
            mret (match decl with Some decl => if truth (enabled decl) then inl true else inr () | None => inr () end)) ();
      mret (match r with inl b => b | inr _ => false end)
  end.
Definition is_perm_enabled (scopes : table_of scope_datum) (decls : list (option avrule_decl)) (classes : table_of class_datum)
    (class_id perm_id : string) : CM bool :=
  ok ← is_id_enabled scopes decls decl_enabled class_id;
  if negb ok then mret false else
  cladatum ← hashtab_search classes class_id;
  match cladatum with
  | None => mret false
  | Some c =>
      perm ← hashtab_search (table (class_permissions c)) perm_id;
      perm ← match perm, class_comdatum c with
             | None, Some com => hashtab_search (table (common_permissions com)) perm_id
             | _, _ => mret perm
             end;
      mret (match perm with Some _ => true | None => false end)
  end.
End operations.

(** ** Making a database *)

Section making.
Context `{Target}.

Definition or_return {A B} (m : CM (Z + A)) (f : A → CM (Z + B)) : CM (Z + B) :=
  r ← m; match r with inl rc => mret (inl rc) | inr x => f x end.
Definition new_symtab {D} (sz : Z) : CM (Z + symtab D) :=
  '(rc, s) ← symtab_init (Symtab None 0) sz; mret (if truth rc then inl rc else inr s).
(** [symtab_sizes] of the two files *)
Definition decl_symtab_sizes : list Z := [2; 4; 8; 32; 16; 4; 2; 2].
Definition symtab_sizes : list Z := [2; 32; 16; 512; 128; 16; 16; 16].
Definition size_at (sizes : list Z) (i : nat) : Z := nth i sizes 0.
Definition symtabs_init (sizes : list Z) : CM (Z + symtabs) :=
  or_return (new_symtab (size_at sizes SYM_COMMONS)) (λ commons,
  or_return (new_symtab (size_at sizes SYM_CLASSES)) (λ classes,
  or_return (new_symtab (size_at sizes SYM_ROLES)) (λ roles,
  or_return (new_symtab (size_at sizes SYM_TYPES)) (λ types,
  or_return (new_symtab (size_at sizes SYM_USERS)) (λ users,
  or_return (new_symtab (size_at sizes SYM_BOOLS)) (λ bools,
  or_return (new_symtab (size_at sizes SYM_LEVELS)) (λ levels,
  or_return (new_symtab (size_at sizes SYM_CATS)) (λ cats,
  mret (inr (Symtabs commons classes roles types users bools levels cats)))))))))).
Fixpoint scopes_init (sizes : list Z) : CM (Z + list (symtab scope_datum)) :=
  match sizes with
  | [] => mret (inr [])
  | sz :: sizes => or_return (new_symtab sz) (λ s, or_return (scopes_init sizes) (λ l, mret (inr (s :: l))))
  end.

Definition avrule_block_create : CM (option avrule_block) :=
  block ← malloc;
  mret (match block with None => None | Some _ => Some (AvruleBlock [] None 0) end).
Definition no_scope_index : scope_index := ScopeIndex (replicate SYM_NUM ebitmap_init) [].
Definition avrule_decl_create (id : Z) : CM (option avrule_decl) :=
  decl ← malloc;
  match decl with
  | None => mret None
  | Some _ =>
      st ← symtabs_init decl_symtab_sizes;
      mret (match st with
            | inl _ => None
            | inr st => Some (AvruleDecl id 0 [] [] [] [] [] no_scope_index no_scope_index [] st None)
            end)
  end.

(** the datum after [calloc] *)
Definition empty_role : role_datum :=
  RoleDatum 0 ebitmap_init (TypeSet ebitmap_init ebitmap_init 0) ebitmap_init 0 0 ebitmap_init.
Definition with_role_value (v : Z) (r : role_datum) : role_datum :=
  RoleDatum v (role_dominates r) (role_types r) (role_cache r) (role_bounds r) (role_flavor r) (role_roles r).
(** the code, the roles and their scopes; the datum that was inserted has the
    value that was assigned *)
Definition roles_init (policy_type : Z) (roles : symtab role_datum) (scopes : symtab scope_datum)
    : CM (Z * symtab role_datum * symtab scope_datum) :=
  role ← malloc;
  match role with
  | None => mret (- ENOMEM, roles, scopes)
  | Some _ =>
      key ← malloc;
      match key with
      | None => mret (- ENOMEM, roles, scopes)
      | Some _ =>
          '(rc, roles', t) ← symtab_insert SYM_ROLES role_flavor roles (table scopes) OBJECT_R empty_role
            (if policy_type =? POLICY_MOD then SCOPE_REQ else SCOPE_DECL) 1 (Some with_role_value);
          let scopes := Symtab t (nprim scopes) in
          if truth rc then mret (rc, roles', scopes) else
          mret (if negb (nprim roles' =? OBJECT_R_VAL) then - EINVAL else 0, roles', scopes)
      end
  end.

(** the policy of a database whose fields are cleared *)
Definition cleared_policy (st : symtabs) (te_avtab te_cond_avtab : avtab) : policydb :=
  Policydb 0 0 0 (st_classes st) (st_roles st) (st_types st) (st_users st) (st_bools st) (st_levels st) (st_cats st)
    [] [] [] [] [] [] [] [] [] [] te_avtab te_cond_avtab [] [] [] [] [] [] [] ebitmap_init [] (replicate OCON_NUM []) [].
(** the code and the table; the booleans and the list are cleared *)
Definition cond_policydb_init : Z * avtab :=
  let '(rc, te_cond_avtab) := avtab_init empty_avtab in (if truth rc then -1 else 0, te_cond_avtab).
(** [None] is the label [out_free_symtab]: the tables have been freed; the code
    is that of the last call whose result was stored *)
Definition policydb_init : CM (Z * option database) :=
  st ← symtabs_init symtab_sizes;
  match st with
  | inl rc => mret (rc, None)
  | inr st =>
      scopes ← scopes_init symtab_sizes;
      match scopes with
      | inl _ => mret (0, None)
      | inr scopes =>
          block ← avrule_block_create;
          match block with
          | None => mret (0, None)
          | Some block =>
              decl ← avrule_decl_create 1;
              match decl with
              | None => mret (0, None)
              | Some decl =>
                  let '(rc, te) := avtab_init empty_avtab in
                  if truth rc then mret (rc, None) else
                  role_scopes ← deref (scopes !! SYM_ROLES);
                  '(rc, roles, role_scopes) ← roles_init 0 (st_roles st) role_scopes;
                  if truth rc then mret (rc, None) else
                  let '(rc, cond) := cond_policydb_init in
                  if truth rc then mret (rc, None) else
                  let st := Symtabs (st_commons st) (st_classes st) roles (st_types st) (st_users st) (st_bools st)
                              (st_levels st) (st_cats st) in
                  mret (0, Some (Database (cleared_policy st te cond) (st_commons st) (<[SYM_ROLES := role_scopes]> scopes)
                                   [AvruleBlock [decl] (blk_enabled block) (blk_flags block)] [] [] [] ebitmap_init 0 0 None None 0))
              end
          end
      end
  end.
End making.

(** ** Theory: scopes *)

(** which scope a symbol gets that has the scope [old]: roles that are no
    attributes and users may be declared often, what was required may be declared *)
Definition scope_rule (sym : nat) (regular : bool) (old new : Z) : option Z :=
  if (old =? SCOPE_DECL) && (new =? SCOPE_DECL) then
    if (Nat.eqb sym SYM_ROLES && regular) || Nat.eqb sym SYM_USERS then Some old else None
  else if (old =? SCOPE_REQ) && (new =? SCOPE_DECL) then Some SCOPE_DECL
  else if old =? new then Some old else None.
(** a declaration is listed once *)
Definition joined (d : scope_datum) (sc id : Z) : scope_datum :=
  if bool_decide (id ∈ decl_ids d) then ScopeDatum sc (decl_ids d) (decl_ids_len d)
  else ScopeDatum sc (decl_ids d ++ [id]) (decl_ids_len d + 1).
Definition scope_after (sym : nat) (regular : bool) (old : option scope_datum) (sc id : Z) : option scope_datum :=
  match old with
  | None => Some (ScopeDatum sc [id] 1)
  | Some d => (λ sc, joined d sc id) <$> scope_rule sym regular (scope d) sc
  end.
(** the array has its length, and room to grow *)
Definition ids_ok (d : scope_datum) : Prop := decl_ids_len d = Z.of_nat (length (decl_ids d)) ∧ decl_ids_len d < 2 ^ 30 - 1.

Section theory.
Context `{Target}.
Implicit Types (d : scope_datum) (h : heap) (key : string).

Lemma decl_ids_at_wp d (i : Z) (Q : Z → heap → Prop) h :
  ids_ok d → 0 ≤ i < decl_ids_len d → (∀ x, decl_ids d !! Z.to_nat i = Some x → Q x h) → wp (decl_ids_at d i) Q h.
Proof.
  intros [Hl _] Hi HQ. unfold decl_ids_at. rewrite (proj2 (Z.ltb_ge _ _)) by lia.
  destruct (lookup_lt_is_Some_2 (decl_ids d) (Z.to_nat i)) as [x Hx]; [lia|]. rewrite Hx. by apply wp_ret, HQ.
Qed.
(** the loops over the declarations of a scope stop at the first that passes *)
Lemma ids_loop_wp d (test : Z → bool) (body : Z → CM (bool + unit)) h :
  ids_ok d → (∀ i h, 0 ≤ i < decl_ids_len d → ∃ x, decl_ids d !! Z.to_nat i = Some x ∧
    body i h = Some (if test x then inl true else inr (), h)) →
  wp (for_loop 0 (decl_ids_len d) (λ i _, body i) ()) (λ r h', h' = h ∧
    ∃ b : bool, r = (if b then inl true else inr ()) ∧ (b = true ↔ ∃ x, x ∈ decl_ids d ∧ test x = true)) h.
Proof.
  intros Hok Hb. apply (wp_for_loop (λ i _ h', h' = h ∧ ∀ (j : nat) x, j < i → decl_ids d !! j = Some x → test x = false)).
  - split; [done|]. lia.
  - intros i [] h1 Hi [-> Hno]. destruct (Hb i h Hi) as (x&Hx&Hrun). unfold wp. rewrite Hrun. destruct (test x) eqn:Ex.
    + split; [done|]. exists true. split; [done|]. split; [|done]. intros _. exists x. split; [by eapply list_elem_of_lookup_2|done].
    + split; [done|]. intros j y Hj Hy. destruct (decide (Z.of_nat j = i)) as [<-|]; [|apply (Hno j); [lia|done]].
      rewrite Nat2Z.id in Hx. by simplify_eq.
  - intros [] h1 [-> Hno]. split; [done|]. exists false. split; [done|]. split; [done|]. intros (x&[j Hj]%list_elem_of_lookup&Ht).
    destruct Hok as [Hl _]. pose proof (lookup_lt_Some _ _ _ Hj). rewrite (Hno j x) in Ht; [done|lia|done].
Qed.
Lemma listed_wp d id h : ids_ok d → wp (listed d id) (λ b h', h' = h ∧ b = bool_decide (id ∈ decl_ids d)) h.
Proof.
  intros Hok. unfold listed. apply wp_bind. eapply wp_mono; [apply (ids_loop_wp d (λ x, x =? id)); [done|]|].
  - intros i h1 Hi. destruct Hok as [Hl Hr]. destruct (lookup_lt_is_Some_2 (decl_ids d) (Z.to_nat i)) as [x Hx]; [lia|].
    exists x. split; [done|]. unfold decl_ids_at. rewrite (proj2 (Z.ltb_ge _ _)) by lia. rewrite Hx.
    cbv [mbind CM_bind deref mret CM_ret]. by destruct (x =? id).
  - intros r h1 (->&b&->&Hb). apply wp_ret. split; [by destruct b|]. assert (Hin : b = true ↔ id ∈ decl_ids d).
    { rewrite Hb. split; [intros (x&Hx&E); apply Z.eqb_eq in E; by subst|]. intros Hx. exists id. by rewrite Z.eqb_refl. }
    destruct b; symmetry; [by apply bool_decide_eq_true, Hin|]. apply bool_decide_eq_false. intros Hx. by apply Hin in Hx.
Qed.
Lemma add_i_to_a_wp i cnt a h : cnt = Z.of_nat (length a) → cnt < 2 ^ 30 - 1 →
  wp (add_i_to_a i cnt a) (λ '(rc, cnt', a') h', mem_step h h' (rc = 0) ∧
    (rc = 0 ∧ cnt' = cnt + 1 ∧ a' = a ++ [i] ∨ rc = -1 ∧ cnt' = cnt ∧ a' = [])) h.
Proof.
  intros -> Hr. pose proof size_t_ge as Hs. assert (Hp : 2 ^ 32 ≤ 2 ^ size_t_bits) by (apply Z.pow_le_mono_r; lia).
  unfold add_i_to_a. set (cnt := match a with [] => 0 | _ => _ end).
  assert (cnt = Z.of_nat (length a)) as -> by by destruct a.
  wp_malloc x h1 M; [|apply wp_ret; split; [mem|by right]].
  assert (Hu : u32 (Z.of_nat (length a) + 1) = Z.of_nat (length a) + 1) by (apply wrap_id; lia).
  rewrite Hu. assert (szt (4 * match a with [] => 1 | _ => Z.of_nat (length a) + 1 end) = 4 * (Z.of_nat (length a) + 1)) as ->.
  { destruct a as [|y a]; cbn [length] in *; apply wrap_id; lia. }
  rewrite Z.ltb_irrefl. apply wp_ret. split; [mem|by left].
Qed.

(** the table of scopes when the symbol is in its table, with the datum [base] *)
Lemma insert_scope_wp {D} sym (flavor : D → Z) (tt : hashtab string D) ts key base datum sc id retval h :
  hashtab_ok tt → hashtab_map_of tt !! key = Some base → hashtab_wf ts →
  (∀ d, hashtab_map_of ts !! key = Some d → ids_ok d) → retval ≠ - ENOMEM →
  let regular := (flavor base =? ROLE_ROLE) && (flavor datum =? ROLE_ROLE) in
  wp (insert_scope sym flavor (Some tt) (Some ts) key datum sc id retval) (λ '(rc, scopes') h',
    mem_step h h' (rc ≠ - ENOMEM) ∧ (rc = - ENOMEM ∨
    match scope_after sym regular (hashtab_map_of ts !! key) sc id with
    | None => rc = -2 ∧ scopes' = Some ts
    | Some d => rc = retval ∧ ∃ ts', scopes' = Some ts' ∧ hashtab_wf ts' ∧ hashtab_map_of ts' = <[key := d]> (hashtab_map_of ts) ∧ size ts' = size ts
    end)) h.
Proof.
  intros Hok Hbase Hwf Hids Hret regular. unfold insert_scope. apply wp_bind.
  eapply wp_mono; [by apply hashtab_search_wp, Hwf|]. intros r h1 [-> ->]. apply wp_bind.
  (* the rest for a scope that is in the table *)
  assert (Hrest : ∀ d (t1 : hashtab string scope_datum) h1, mem_step h h1 True → ids_ok d → hashtab_wf t1 →
    hashtab_map_of t1 = <[key := d]> (hashtab_map_of ts) → size t1 = size ts →
    wp (there ← listed d id;
        if there : bool then mret (retval, Some t1) else
        '(rc, cnt, a) ← add_i_to_a id (decl_ids_len d) (decl_ids d);
        mret (if rc =? -1 then - ENOMEM else retval, store_datum (Some t1) key (λ d, ScopeDatum (scope d) a cnt)))
      (λ '(rc, scopes') h', mem_step h h' (rc ≠ - ENOMEM) ∧ (rc = - ENOMEM ∨ rc = retval ∧
        ∃ ts', scopes' = Some ts' ∧ hashtab_wf ts' ∧ hashtab_map_of ts' = <[key := joined d (scope d) id]> (hashtab_map_of ts) ∧ size ts' = size ts)) h1).
  { intros d t1 h2 M Hd Hw1 Hm1 Hz1. apply wp_bind. eapply wp_mono; [by apply listed_wp|]. intros b h3 [-> ->]. unfold joined.
    case_bool_decide as Hin.
    - apply wp_ret. split; [mem|]. right. split; [done|]. exists t1. by destruct d.
    - apply wp_bind. eapply wp_mono; [apply add_i_to_a_wp; apply Hd|]. intros [[rc cnt] a] h4 [M2 Hcase]. apply wp_ret.
      destruct Hcase as [(->&->&->)|(->&->&->)]; cbn [Z.eqb]; [|split; [mem|by left]]. split; [mem|]. right. split; [done|].
      destruct (store_datum_map t1 key (λ d0, ScopeDatum (scope d0) (decl_ids d ++ [id]) (decl_ids_len d + 1)) Hw1) as (t2&->&Hw2&Hm2&Hz2).
      exists t2. split; [done|]. split; [done|]. split; [|by rewrite Hz2]. rewrite Hm2, Hm1. apply map_eq. intros k. destruct (decide (k = key)) as [->|].
      + by rewrite lookup_alter_eq, !lookup_insert_eq.
      + by rewrite lookup_alter_ne, !lookup_insert_ne by done. }
  destruct (hashtab_map_of ts !! key) as [d|] eqn:Ed; cbn [scope_after].
  - specialize (Hids _ eq_refl).
    assert (Hc : wp (scope_conflict sym (role_flavors_of flavor (Some tt) key datum) (scope d) sc) (λ r h',
      h' = h ∧ r = match scope_rule sym regular (scope d) sc with Some sc' => inr sc' | None => inl (-2) end) h).
    { unfold scope_conflict, scope_rule. destruct ((scope d =? SCOPE_DECL) && (sc =? SCOPE_DECL)); cycle 1.
      { destruct ((scope d =? SCOPE_REQ) && (sc =? SCOPE_DECL)); [by apply wp_ret|]. destruct (scope d =? sc); by apply wp_ret. }
      destruct (Nat.eqb sym SYM_ROLES) eqn:Er.
      - cbn [negb andb]. apply wp_bind. unfold role_flavors_of. apply wp_bind. eapply wp_mono; [by apply hashtab_search_wp|].
        intros r h2 [-> ->]. rewrite Hbase. eapply wp_bind, wp_deref; [done|]. apply wp_ret, wp_ret. split; [done|].
        assert (Nat.eqb sym SYM_USERS = false) as -> by (apply Nat.eqb_eq in Er; by rewrite Er). rewrite orb_false_r.
        cbn [andb]. fold regular. by destruct regular.
      - cbn [negb andb orb]. destruct (Nat.eqb sym SYM_USERS); by apply wp_ret. }
    apply wp_bind. eapply wp_mono; [exact Hc|]. intros r h2 [-> ->]. destruct (scope_rule sym regular (scope d) sc) as [sc'|]; cycle 1.
    { apply wp_ret, wp_ret. split; [by apply mem_step_refl|]. by right. }
    apply wp_ret. cbn [fmap option_fmap option_map].
    destruct (store_datum_map ts key (λ _, ScopeDatum sc' (decl_ids d) (decl_ids_len d)) Hwf) as (t1&->&Hw1&Hm1&Hz1).
    eapply wp_mono; [apply (Hrest (ScopeDatum sc' (decl_ids d) (decl_ids_len d)) t1 h); [by apply mem_step_refl|done|done| |done]|].
    + rewrite Hm1. apply map_eq. intros k. destruct (decide (k = key)) as [->|].
      * by rewrite lookup_alter_eq, lookup_insert_eq, Ed.
      * by rewrite lookup_alter_ne, lookup_insert_ne by done.
    + intros [rc s] h3 [M Hcase]. split; [done|]. exact Hcase.
  - wp_malloc x h1 M1; [|apply wp_ret, wp_ret; split; [mem|by left]]. wp_malloc y h2 M2; [|apply wp_ret, wp_ret; split; [mem|by left]].
    apply wp_bind. eapply wp_mono; [apply wp_and_run, hashtab_insert_wp, Hwf|]. intros [rc t1] h3 [[M3 Hins] Hrun]. rewrite Ed in Hins. apply wp_ret.
    destruct Hins as [(t2&->&->&Hok2&Hn2&Hp2&Hm2)|[-> ->]]; cbn [truth]; cycle 1.
    { apply wp_ret. split; [|by left]. intros Ho. destruct (M1 Ho) as [Ho1 _], (M2 Ho1) as [Ho2 _]. by destruct (M3 Ho2). }
    eapply wp_mono; [apply (Hrest (ScopeDatum sc [] 0) t2 h3); [mem|done| |done|by eapply hashtab_insert_size]|].
    + split; [done|]. rewrite Hn2, (proj2 Hwf), Hp2, u32_add_u32, length_cons. f_equal. lia.
    + intros [rc s] h4 Hcase. exact Hcase.
Qed.

(** the table of symbols after a symbol was entered *)
Definition entered {D} (m : gmap string D) (key : string) (datum : D) : gmap string D :=
  match m !! key with Some _ => m | None => <[key := datum]> m end.

Lemma is_id_enabled_wp {D} (ts : hashtab string scope_datum) (decls : list (option D)) enabled id h :
  hashtab_ok ts →
  (∀ d, hashtab_map_of ts !! id = Some d → ids_ok d ∧ Forall (λ x, 1 ≤ x ≤ length decls) (decl_ids d)) →
  wp (is_id_enabled (Some ts) decls enabled id) (λ b h', h' = h ∧ (b = true ↔ ∃ d x decl,
    hashtab_map_of ts !! id = Some d ∧ scope d = SCOPE_DECL ∧ x ∈ decl_ids d ∧ at_val decls x = Some decl ∧ enabled decl ≠ 0)) h.
Proof.
  intros Hok Hids. unfold is_id_enabled. apply wp_bind. eapply wp_mono; [by apply hashtab_search_wp|]. intros r h1 [-> ->].
  destruct (hashtab_map_of ts !! id) as [d|] eqn:Ed; cycle 1.
  { apply wp_ret. split; [done|]. split; [done|]. by intros (d&x&decl&[=]&_). }
  destruct (Hids _ eq_refl) as [Hd Hall]. destruct (Z.eqb_spec (scope d) SCOPE_DECL) as [Es|Hne]; cycle 1.
  { apply wp_ret. split; [done|]. split; [done|]. by intros (d'&x&decl&[= ->]&Hs&_). }
  cbn [negb]. apply wp_bind.
  eapply wp_mono; [apply (ids_loop_wp d (λ x, match at_val decls x with Some decl => truth (enabled decl) | None => false end)); [done|]|].
  - intros i h1 Hi. destruct (lookup_lt_is_Some_2 (decl_ids d) (Z.to_nat i)) as [x Hx]; [destruct Hd; lia|].
    exists x. split; [done|]. unfold decl_ids_at. rewrite (proj2 (Z.ltb_ge _ _)) by lia. rewrite Hx.
    rewrite Forall_forall in Hall. specialize (Hall x (list_elem_of_lookup_2 _ _ _ Hx)).
    rewrite at_val_join. unfold Constraint.at_index.
    destruct (lookup_lt_is_Some_2 decls (Z.to_nat (x - 1))) as [o Ho]; [lia|].
    cbv [mbind CM_bind deref mret CM_ret]. rewrite Ho, (proj2 (Z.ltb_ge x 1)) by lia.
    cbv [mbind CM_bind deref mret CM_ret mjoin option_join option_bind]. cbn. destruct o as [decl|]; [|done]. by destruct (truth (enabled decl)).
  - intros r h1 (->&b&->&Hb). apply wp_ret. split; [by destruct b|]. 
    assert (match (if b then inl true else inr () : bool + unit) with inl b => b | inr _ => false end = b) as -> by by destruct b.
    rewrite Hb. split.
    + intros (x&Hx&Ht). destruct (at_val decls x) as [decl|] eqn:Ev; [|done]. exists d, x, decl. by apply truth_true in Ht.
    + intros (d'&x&decl&[= ->]&_&Hx&Ev&Ht). exists x. rewrite Ev. split; [done|]. by apply truth_true.
Qed.

Lemma symtab_insert_wp {D} sym (flavor : D → Z) (s : symtab D) t ts key datum sc id f h :
  table s = Some t → hashtab_wf t → hashtab_wf ts → (∀ d : scope_datum, hashtab_map_of ts !! key = Some d → ids_ok d) →
  (∀ v (x : D), flavor (f v x) = flavor x) →
  let m := hashtab_map_of t in
  let v := u32 (nprim s + 1) in
  let base := default (f v datum) (m !! key) in
  let regular := (flavor base =? ROLE_ROLE) && (flavor datum =? ROLE_ROLE) in
  wp (symtab_insert sym flavor s (Some ts) key datum sc id (Some f)) (λ '(rc, s', scopes') h',
    mem_step h h' (rc ≠ - ENOMEM) ∧ (rc = - ENOMEM ∨
    nprim s' = (if m !! key then nprim s else v) ∧
    (∃ t', table s' = Some t' ∧ hashtab_wf t' ∧ hashtab_map_of t' = entered m key (f v datum) ∧ size t' = size t) ∧
    match scope_after sym regular (hashtab_map_of ts !! key) sc id with
    | None => rc = -2 ∧ scopes' = Some ts
    | Some d => rc = (if m !! key then 1 else 0) ∧
        ∃ ts', scopes' = Some ts' ∧ hashtab_wf ts' ∧ hashtab_map_of ts' = <[key := d]> (hashtab_map_of ts) ∧ size ts' = size ts
    end)) h.
Proof.
  intros Ht Hwf Hws Hids Hf m v base regular. unfold symtab_insert. rewrite Ht. fold v. apply wp_bind.
  eapply wp_mono; [apply wp_and_run, hashtab_insert_wp, Hwf|]. intros [rc t1] h1 [[M Hins] Hrun]. fold m in Hins.
  unfold regular, base, entered. clear regular base. destruct (m !! key) as [d0|] eqn:Ed.
  - destruct Hins as [-> ->]. cbn [default]. change (SEPOL_EEXIST =? SEPOL_OK) with false. change (SEPOL_EEXIST =? SEPOL_EEXIST) with true.
    cbn match. apply wp_bind. eapply wp_mono; [by apply (insert_scope_wp sym flavor t ts key d0); [apply Hwf|..]|].
    intros [rc scopes'] h2 [M2 Hcase]. apply wp_ret. split; [mem|]. destruct Hcase as [|Hcase]; [by left|right].
    cbn [nprim table]. split; [done|]. split; [by exists t|]. exact Hcase.
  - destruct Hins as [(t2&->&->&Hok2&Hn2&Hp2&Hm2)|[-> ->]]; cycle 1.
    { change (SEPOL_ENOMEM =? SEPOL_OK) with false. change (SEPOL_ENOMEM =? SEPOL_EEXIST) with false. cbn match.
      apply wp_ret. split; [|by left]. intros Ho. by destruct (M Ho). }
    cbn [default Z.eqb SEPOL_OK]. apply wp_bind.
    assert (Hbase : hashtab_map_of t2 !! key = Some (f v datum)) by (by rewrite Hm2, lookup_insert_eq).
    eapply wp_mono; [by apply (insert_scope_wp sym flavor t2 ts key (f v datum))|].
    intros [rc scopes'] h2 [M2 Hcase]. apply wp_ret. split; [mem|]. destruct Hcase as [|Hcase]; [by left|right].
    cbn [nprim table]. split; [done|]. split; [|exact Hcase]. exists t2. split; [done|]. split; [|split; [done|by eapply hashtab_insert_size]].
    split; [done|]. rewrite Hn2, (proj2 Hwf), Hp2, u32_add_u32, length_cons. f_equal. lia.
Qed.

(** *** Making *)

Definition fresh_symtab {D} (sz : Z) : symtab D := Symtab (Some (Hashtab (replicate (Z.to_nat sz) []) sz 0)) 0.
Definition fresh_symtabs (sizes : list Z) : symtabs :=
  Symtabs (fresh_symtab (size_at sizes SYM_COMMONS)) (fresh_symtab (size_at sizes SYM_CLASSES)) (fresh_symtab (size_at sizes SYM_ROLES))
    (fresh_symtab (size_at sizes SYM_TYPES)) (fresh_symtab (size_at sizes SYM_USERS)) (fresh_symtab (size_at sizes SYM_BOOLS))
    (fresh_symtab (size_at sizes SYM_LEVELS)) (fresh_symtab (size_at sizes SYM_CATS)).
Definition fresh_decl (id : Z) : avrule_decl :=
  AvruleDecl id 0 [] [] [] [] [] no_scope_index no_scope_index [] (fresh_symtabs decl_symtab_sizes) None.
(** a step that makes [x], or fails for want of memory *)
Definition gives {A} (m : CM (Z + A)) (x : A) : Prop :=
  ∀ h, wp m (λ r h', mem_step h h' (r = inr x) ∧ (r = inr x ∨ ∃ rc, r = inl rc ∧ truth rc = true)) h.
Lemma gives_or_return {A B} (m : CM (Z + A)) (f : A → CM (Z + B)) x y : gives m x → gives (f x) y → gives (or_return m f) y.
Proof.
  intros Hm Hf h. unfold or_return. apply wp_bind. eapply wp_mono; [apply Hm|]. intros r h1 [M [->|(rc&->&Hrc)]].
  - eapply wp_mono; [apply Hf|]. intros r h2 [M2 Hr]. split; [mem|done].
  - apply wp_ret. split; [|right; by exists rc]. intros Ho. by destruct (M Ho).
Qed.
Lemma gives_new_symtab {D} sz : gives (new_symtab (D := D) sz) (fresh_symtab sz).
Proof.
  intros h. unfold new_symtab, symtab_init, hashtab_create. do 2 apply wp_bind. wp_malloc a h1 M1; [|do 3 apply wp_ret; split; [mem|right; by eexists]].
  wp_malloc b h2 M2; do 3 apply wp_ret; (split; [mem|]); [by left|right; by eexists].
Qed.
Lemma gives_symtabs sizes : gives (symtabs_init sizes) (fresh_symtabs sizes).
Proof.
  unfold symtabs_init. do 8 (eapply gives_or_return; [apply gives_new_symtab|]).
  intros h. apply wp_ret. split; [by apply mem_step_refl|by left].
Qed.
Lemma gives_scopes sizes : gives (scopes_init sizes) (fresh_symtab <$> sizes).
Proof.
  induction sizes as [|sz sizes IH]; cbn [scopes_init].
  { intros h. apply wp_ret. split; [by apply mem_step_refl|by left]. }
  eapply gives_or_return; [apply gives_new_symtab|]. eapply gives_or_return; [exact IH|].
  intros h. apply wp_ret. split; [by apply mem_step_refl|by left].
Qed.
Lemma avrule_decl_create_wp id h :
  wp (avrule_decl_create id) (λ r h', mem_step h h' (r = Some (fresh_decl id)) ∧ (r = Some (fresh_decl id) ∨ r = None)) h.
Proof.
  unfold avrule_decl_create. wp_malloc a h1 M1; [|apply wp_ret; split; [mem|by right]].
  apply wp_bind. eapply wp_mono; [apply gives_symtabs|]. intros r h2 [M2 [->|(rc&->&Hrc)]]; apply wp_ret.
  - split; [mem|by left].
  - split; [|by right]. intros Ho. destruct (M1 Ho) as [Ho1 _]. by destruct (M2 Ho1).
Qed.

Lemma fresh_holds {D} sz : 0 < sz < 2 ^ 31 → holds sz (table (fresh_symtab (D := D) sz)) ∅.
Proof.
  intros Hs. eexists. split; [done|]. split; [by apply hashtab_empty_wf|]. split; [done|]. apply hashtab_empty_map.
Qed.

(** the roles with [object_r], and its scope *)
Definition object_r_role : role_datum := with_role_value 1 empty_role.
Definition object_r_scope (sc : Z) : scope_datum := ScopeDatum sc [1] 1.
Lemma roles_init_wp type h :
  let sc := if type =? POLICY_MOD then SCOPE_REQ else SCOPE_DECL in
  wp (roles_init type (fresh_symtab 16) (fresh_symtab 16)) (λ '(rc, roles, scopes) h', mem_step h h' (rc = 0) ∧
    (rc = 0 → nprim roles = 1 ∧ holds 16 (table roles) {[ OBJECT_R := object_r_role ]} ∧
      nprim scopes = 0 ∧ holds 16 (table scopes) {[ OBJECT_R := object_r_scope sc ]})) h.
Proof.
  intros sc. unfold roles_init. fold sc. wp_malloc a h1 M1; [|apply wp_ret; split; [mem|done]].
  wp_malloc b h2 M2; [|apply wp_ret; split; [mem|done]]. apply wp_bind.
  assert (Hf : ∀ D, hashtab_wf (K := string) (D := D) (Hashtab (replicate (Z.to_nat 16) []) 16 0)) by (intros; by apply hashtab_empty_wf).
  pose proof (symtab_insert_wp SYM_ROLES role_flavor (fresh_symtab 16) _ _ OBJECT_R empty_role sc 1 with_role_value h2 eq_refl (Hf _) (Hf _)) as Hi.
  rewrite !hashtab_empty_map, !lookup_empty in Hi. eapply wp_mono; [apply Hi; [by intros ? ?|done]|]. clear Hi.
  intros [[rc roles] ts] h3 [M3 Hcase]. cbn [scope_after] in Hcase.
  destruct Hcase as [->|(En&(t'&Et&Hwf&Hm&Hz)&->&ts'&->&Hws&Hms&Hzs)].
  { apply wp_ret. split; [|done]. intros Ho. destruct (M1 Ho) as [Ho1 _], (M2 Ho1) as [Ho2 _]. by destruct (M3 Ho2). }
  cbn in En. apply wp_ret. rewrite En. split; [mem|]. intros _. split; [done|].
  split; [|split; [done|]].
  - exists t'. by rewrite Hm.
  - exists ts'. by rewrite Hms.
Qed.

(** what [policydb_init] promises: empty tables, but for [object_r] with its
    value 1 and its scope; one block with one declaration *)
Definition with_roles (st : symtabs) (roles : symtab role_datum) : symtabs :=
  Symtabs (st_commons st) (st_classes st) roles (st_types st) (st_users st) (st_bools st) (st_levels st) (st_cats st).
Record fresh_database (db : database) : Prop := {
  fd_policy : ∃ roles, nprim roles = 1 ∧ holds 16 (table roles) {[ OBJECT_R := object_r_role ]} ∧
    db_policy db = cleared_policy (with_roles (fresh_symtabs symtab_sizes) roles) empty_avtab empty_avtab;
  fd_commons : p_commons db = fresh_symtab 2;
  fd_scopes : ∃ scopes, nprim scopes = 0 ∧ holds 16 (table scopes) {[ OBJECT_R := object_r_scope SCOPE_DECL ]} ∧
    p_scope db = <[SYM_ROLES := scopes]> (fresh_symtab <$> symtab_sizes);
  fd_global : p_global db = [AvruleBlock [fresh_decl 1] None 0];
  fd_rest : decl_val_to_struct db = [] ∧ p_common_val_to_name db = [] ∧ p_bool_val_to_name db = [] ∧ policycaps db = ebitmap_init ∧ handle_unknown db = 0 ∧ target_platform db = 0 ∧
    db_name db = None ∧ db_version db = None ∧ unsupported_format db = 0
}.
Lemma policydb_init_wp h :
  wp policydb_init (λ '(rc, r) h', mem_step h h' (rc = 0 ∧ is_Some r) ∧
    match r with Some db => rc = 0 ∧ fresh_database db | None => True end) h.
Proof.
  assert (Hno : ∀ h h' (P : Prop), mem_step h h' False → mem_step h h' P).
  { intros h1 h2 P M Ho. by destruct (M Ho). }
  unfold policydb_init. apply wp_bind. eapply wp_mono; [apply gives_symtabs|]. intros r h1 [M1 [->|(rc&->&Hrc)]]; cycle 1.
  { apply wp_ret. split; [|done]. apply Hno. intros Ho. by destruct (M1 Ho). }
  apply wp_bind. eapply wp_mono; [apply gives_scopes|]. intros r h2 [M2 [->|(rc&->&Hrc)]]; cycle 1.
  { apply wp_ret. split; [|done]. apply Hno. intros Ho. destruct (M1 Ho) as [Ho1 _]. by destruct (M2 Ho1). }
  assert (M12 : mem_step h h2 True) by mem. clear M1 M2.
  apply wp_bind. unfold avrule_block_create. wp_malloc a h3 M3; [|apply wp_ret, wp_ret; split; [apply Hno; mem|done]].
  apply wp_ret. apply wp_bind. eapply wp_mono; [apply avrule_decl_create_wp|]. intros r h4 [M4 [->| ->]]; cycle 1.
  { apply wp_ret. split; [|done]. apply Hno. intros Ho. destruct (M12 Ho) as [Ho2 _], (M3 Ho2) as [Ho3 _]. by destruct (M4 Ho3). }
  change (avtab_init empty_avtab) with (0, empty_avtab). change cond_policydb_init with (0, empty_avtab). cbn [truth Z.eqb negb].
  eapply wp_bind, wp_deref; [done|]. apply wp_bind. eapply wp_mono; [apply (roles_init_wp 0)|].
  intros [[rc roles] scopes] h5 [M5 Hr]. destruct (truth rc) eqn:Erc.
  { apply wp_ret. split; [|done]. apply Hno. intros Ho. destruct (M12 Ho) as [Ho2 _], (M3 Ho2) as [Ho3 _], (M4 Ho3) as [Ho4 _].
    destruct (M5 Ho4) as [_ ->]. done. }
  apply truth_false in Erc. destruct (Hr Erc) as (En&Hh&Ens&Hhs). apply wp_ret. split; [mem|]. split; [done|].
  split; cbn [db_policy p_commons p_scope p_global decl_val_to_struct p_common_val_to_name p_bool_val_to_name policycaps handle_unknown target_platform db_name db_version unsupported_format];
    [by exists roles|done|by exists scopes|done|done].
Qed.
End theory.

(** ** Properties *)

(** C33: [symtab_insert] enters a symbol that is new with the next value, and
    joins the declaration to its scope: a new scope, or the old one when both
    require it, when it is declared after it was required, or when it is a user
    or a role that is no attribute; any other scope is refused with -2 and left
    alone.  The result is 1 when the symbol was there. *)
Theorem symtab_insert_correct `{Target} {D} sym (flavor : D → Z) (s : symtab D) t ts key datum sc id f h :
  table s = Some t → hashtab_wf t → hashtab_wf ts → (∀ d, hashtab_map_of ts !! key = Some d → ids_ok d) →
  (∀ v d, flavor (f v d) = flavor d) →
  let m := hashtab_map_of t in
  let v := u32 (nprim s + 1) in
  let base := default (f v datum) (m !! key) in
  let regular := (flavor base =? ROLE_ROLE) && (flavor datum =? ROLE_ROLE) in
  wp (symtab_insert sym flavor s (Some ts) key datum sc id (Some f)) (λ '(rc, s', scopes') _,
    (mem_ok h → rc ≠ - ENOMEM) ∧ (rc = - ENOMEM ∨
    nprim s' = (if m !! key then nprim s else v) ∧
    (∃ t', table s' = Some t' ∧ hashtab_wf t' ∧ hashtab_map_of t' = entered m key (f v datum)) ∧
    match scope_after sym regular (hashtab_map_of ts !! key) sc id with
    | None => rc = -2 ∧ scopes' = Some ts
    | Some d => rc = (if m !! key then 1 else 0) ∧
        ∃ ts', scopes' = Some ts' ∧ hashtab_wf ts' ∧ hashtab_map_of ts' = <[key := d]> (hashtab_map_of ts)
    end)) h.
Proof.
  intros. eapply wp_mono; [by apply symtab_insert_wp|]. intros [[rc s'] scopes'] h' [M Hcase]. split; [intros Ho; by apply (M Ho)|].
  destruct Hcase as [|(?&(t'&?&?&?&_)&Hcase)]; [by left|right]. split; [done|]. split; [by exists t'|].
  destruct (scope_after _ _ _ _ _); [|done]. destruct Hcase as (?&ts'&?&?&?&_). split; [done|]. by exists ts'.
Qed.

(** a symbol that [symtab_insert] declares in an enabled declaration is enabled *)
Theorem declared_is_enabled `{Target} {D} sym (flavor : D → Z) (s : symtab D) t ts key datum id f decls decl h :
  table s = Some t → hashtab_wf t → hashtab_wf ts →
  (∀ d, hashtab_map_of ts !! key = Some d → ids_ok d ∧ decl_ids_len d < 2 ^ 30 - 2 ∧ Forall (λ x, 1 ≤ x ≤ length decls) (decl_ids d)) →
  (∀ v d, flavor (f v d) = flavor d) → at_val decls id = Some decl → decl_enabled decl ≠ 0 →
  wp ('(rc, _, scopes') ← symtab_insert sym flavor s (Some ts) key datum SCOPE_DECL id (Some f);
      if rc <? 0 then mret (rc, false) else enabled ← is_id_enabled scopes' decls decl_enabled key; mret (rc, enabled))
    (λ '(rc, enabled) _, 0 ≤ rc → enabled = true) h.
Proof.
  intros Ht Hwf Hws Hids Hf Hdecl Hen. apply wp_bind.
  eapply wp_mono; [apply (symtab_insert_wp sym flavor s t ts); try done; intros d Hd; by apply Hids|].
  intros [[rc s'] scopes'] h1 (_&Hcase). destruct (Z.ltb_spec rc 0); [apply wp_ret; lia|].
  destruct Hcase as [->|(_&_&Hcase)]; [done|].
  destruct (scope_after _ _ _ _ _) as [d|] eqn:Ea; [|destruct Hcase; lia]. destruct Hcase as (_&ts'&->&Hws'&Hm&_).
  assert (Hid : 1 ≤ id ≤ length decls).
  { apply at_val_lookup in Hdecl as [Hi Hl]. apply lookup_lt_Some in Hl. lia. }
  assert (Hd : ids_ok d ∧ Forall (λ x, 1 ≤ x ≤ length decls) (decl_ids d) ∧ scope d = SCOPE_DECL ∧ id ∈ decl_ids d).
  { destruct (hashtab_map_of ts !! key) as [d0|] eqn:E0; cbn [scope_after] in Ea; cycle 1.
    { injection Ea as <-. split_and!; [split; cbn; lia|by constructor|done|by left]. }
    destruct (Hids _ eq_refl) as ([Hl _]&Hb&Hr).
    destruct (scope_rule _ _ (scope d0) SCOPE_DECL) as [sc|] eqn:Es; [|done]. injection Ea as <-.
    assert (sc = SCOPE_DECL) as ->.
    { unfold scope_rule in Es. repeat case_match; simplify_eq; try done; rewrite ?andb_true_iff, ?Z.eqb_eq in *; naive_solver. }
    unfold joined. case_bool_decide as Hin; cbn; [split_and!; [split; cbn; lia|done|done|done]|].
    split_and!; [split; cbn; rewrite ?length_app; cbn; lia| |done|apply elem_of_app; right; by left].
    apply Forall_app. split; [done|by constructor]. }
  destruct Hd as (Hok&Hr&Hs&Hin). apply wp_bind.
  eapply wp_mono; [apply (is_id_enabled_wp ts' decls decl_enabled key h1 (proj1 Hws')); intros d' Hd'|].
  { rewrite Hm, lookup_insert_eq in Hd'. by injection Hd' as <-. }
  intros b h2 [-> Hb]. apply wp_ret. intros _. apply Hb. exists d, id, decl. by rewrite Hm, lookup_insert_eq.
Qed.

(** [is_id_enabled] answers whether the symbol is declared by an enabled
    declaration. *)
Theorem is_id_enabled_correct `{Target} {D} (ts : hashtab string scope_datum) (decls : list (option D)) enabled id h :
  hashtab_ok ts →
  (∀ d, hashtab_map_of ts !! id = Some d → ids_ok d ∧ Forall (λ x, 1 ≤ x ≤ length decls) (decl_ids d)) →
  wp (is_id_enabled (Some ts) decls enabled id) (λ b h', h' = h ∧ (b = true ↔ ∃ d x decl,
    hashtab_map_of ts !! id = Some d ∧ scope d = SCOPE_DECL ∧ x ∈ decl_ids d ∧ at_val decls x = Some decl ∧ enabled decl ≠ 0)) h.
Proof. by apply is_id_enabled_wp. Qed.

(** C34: with memory, [policydb_init] makes an empty database that has the role
    [object_r] with its value and its scope; without, what it returns is such a
    database or none. *)
Theorem policydb_init_correct `{Target} h :
  wp policydb_init (λ '(rc, r) _, (mem_ok h → rc = 0 ∧ is_Some r) ∧
    match r with Some db => rc = 0 ∧ fresh_database db | None => True end) h.
Proof. eapply wp_mono; [apply policydb_init_wp|]. intros [rc r] h' [M Hr]. split; [|done]. intros Ho. by apply (M Ho). Qed.

(** when there is no memory for the tables of scopes or the first block,
    [policydb_init] frees all tables and returns 0, so that its callers go on
    with the freed tables. *)
Theorem policydb_init_false_success `{Target} n o a :
  (16 ≤ n < 50)%nat → ∃ h', policydb_init (Heap (replicate n true ++ false :: o) a) = Some ((0, None), h').
Proof.
  intros Hn. assert (Hall : Forall (λ n, ∃ h', policydb_init (Heap (replicate n true ++ false :: o) a) = Some ((0, None), h')) (seq 16 34)).
  { cbn [seq]. repeat (constructor; [eexists; vm_compute; reflexivity|]). constructor. }
  rewrite Forall_forall in Hall. apply Hall, elem_of_seq. lia.
Qed.

(** ** Examples *)

Module ExampleScopes.
#[local] Existing Instance target_arm.
(** a user, and what is known of its scope *)
Definition users : hashtab string Z := Hashtab [[("u"%string, 1)]] 1 1.
Definition scopes_of (sc : Z) : hashtab string scope_datum := Hashtab [[("u"%string, ScopeDatum sc [1] 1)]] 1 1.
Definition decls (enabled : Z) : list (option avrule_decl) :=
  [Some (fresh_decl 1); Some (AvruleDecl 2 enabled [] [] [] [] [] no_scope_index no_scope_index [] (fresh_symtabs []) None)].
Definition flavor (v : Z) : Z := ROLE_ROLE.
Definition set_value (v d : Z) : Z := v.
Lemma one_wf {D} (d : D) : hashtab_wf (Hashtab [[("u"%string, d)]] 1 1).
Proof. split; [|done]. apply one_slot_ok. repeat constructor. Qed.
Lemma one_lookup {D} (d d' : D) : hashtab_map_of (Hashtab [[("u"%string, d)]] 1 1) !! "u"%string = Some d' → d' = d.
Proof. unfold hashtab_map_of, entries. cbn. rewrite lookup_insert_eq. by intros [= <-]. Qed.
Lemma scopes_ids sc d : hashtab_map_of (scopes_of sc) !! "u"%string = Some d →
  ids_ok d ∧ decl_ids_len d < 2 ^ 30 - 2 ∧ Forall (λ x, 1 ≤ x ≤ length (decls 1)) (decl_ids d).
Proof. intros ->%one_lookup. split; [by split|]. split; [done|]. by repeat constructor. Qed.
End ExampleScopes.

#[local] Existing Instance target_arm.

(** when the array of declarations cannot grow, [add_i_to_a] leaves a null
    pointer beside the old length: the next [is_id_enabled] reads it *)
Theorem symtab_insert_breaks_scope :
  match symtab_insert SYM_USERS ExampleScopes.flavor (Symtab (Some ExampleScopes.users) 1) (Some (ExampleScopes.scopes_of SCOPE_REQ))
          "u" 0 SCOPE_DECL 2 (Some ExampleScopes.set_value) (Heap [false] 1) with
  | Some ((rc, _, scopes), h) => rc = - ENOMEM ∧ is_id_enabled scopes (ExampleScopes.decls 1) decl_enabled "u" h = None
  | None => False
  end.
Proof. vm_compute. done. Qed.

(** witness of C33: a user that was required is declared *)
Lemma symtab_insert_correct_witness :
  let s := Symtab (Some ExampleScopes.users) 1 in let ts := ExampleScopes.scopes_of SCOPE_REQ in
  let m := hashtab_map_of ExampleScopes.users in
  wp (symtab_insert SYM_USERS ExampleScopes.flavor s (Some ts) "u" 0 SCOPE_DECL 2 (Some ExampleScopes.set_value)) (λ '(rc, s', scopes') _,
    (mem_ok fresh_heap → rc ≠ - ENOMEM) ∧ (rc = - ENOMEM ∨
    nprim s' = (if m !! "u"%string then 1 else 2) ∧
    (∃ t', table s' = Some t' ∧ hashtab_wf t' ∧ hashtab_map_of t' = entered m "u" 2) ∧
    match scope_after SYM_USERS true (hashtab_map_of ts !! "u"%string) SCOPE_DECL 2 with
    | None => rc = -2 ∧ scopes' = Some ts
    | Some d => rc = (if m !! "u"%string then 1 else 0) ∧
        ∃ ts', scopes' = Some ts' ∧ hashtab_wf ts' ∧ hashtab_map_of ts' = <["u"%string := d]> (hashtab_map_of ts)
    end)) fresh_heap.
Proof.
  refine (symtab_insert_correct SYM_USERS ExampleScopes.flavor (Symtab (Some ExampleScopes.users) 1) ExampleScopes.users
    (ExampleScopes.scopes_of SCOPE_REQ) "u" 0 SCOPE_DECL 2 ExampleScopes.set_value fresh_heap eq_refl
    (ExampleScopes.one_wf _) (ExampleScopes.one_wf _) _ (λ _ _, eq_refl)).
  intros d Hd. exact (proj1 (ExampleScopes.scopes_ids _ _ Hd)).
Defined.
(** witness of [declared_is_enabled] *)
Lemma declared_is_enabled_witness :
  wp ('(rc, _, scopes') ← symtab_insert SYM_USERS ExampleScopes.flavor (Symtab (Some ExampleScopes.users) 1)
        (Some (ExampleScopes.scopes_of SCOPE_REQ)) "u" 0 SCOPE_DECL 2 (Some ExampleScopes.set_value);
      if rc <? 0 then mret (rc, false) else enabled ← is_id_enabled scopes' (ExampleScopes.decls 1) decl_enabled "u"; mret (rc, enabled))
    (λ '(rc, enabled) _, 0 ≤ rc → enabled = true) fresh_heap.
Proof.
  refine (declared_is_enabled SYM_USERS ExampleScopes.flavor (Symtab (Some ExampleScopes.users) 1) ExampleScopes.users
    (ExampleScopes.scopes_of SCOPE_REQ) "u" 0 2 ExampleScopes.set_value (ExampleScopes.decls 1) _ fresh_heap eq_refl
    (ExampleScopes.one_wf _) (ExampleScopes.one_wf _) _ (λ _ _, eq_refl) eq_refl _); [|done].
  intros d Hd. by apply ExampleScopes.scopes_ids in Hd.
Defined.
(** witness of [is_id_enabled_correct] *)
Lemma is_id_enabled_correct_witness :
  let ts := ExampleScopes.scopes_of SCOPE_DECL in
  wp (is_id_enabled (Some ts) (ExampleScopes.decls 1) decl_enabled "u") (λ b h', h' = fresh_heap ∧ (b = true ↔ ∃ d x decl,
    hashtab_map_of ts !! "u"%string = Some d ∧ scope d = SCOPE_DECL ∧ x ∈ decl_ids d ∧
    at_val (ExampleScopes.decls 1) x = Some decl ∧ decl_enabled decl ≠ 0)) fresh_heap.
Proof.
  refine (is_id_enabled_correct (ExampleScopes.scopes_of SCOPE_DECL) (ExampleScopes.decls 1) decl_enabled "u" fresh_heap _ _);
    [apply ExampleScopes.one_wf|]. intros d Hd. by apply ExampleScopes.scopes_ids in Hd as (?&_&?).
Defined.
(** witness of [policydb_init_false_success] *)
Lemma policydb_init_false_success_witness :
  ∃ h', policydb_init (Heap (replicate 20 true ++ [false]) 1) = Some ((0, None), h').
Proof. apply (policydb_init_false_success 20 [] 1). lia. Defined.
