(* ===== verification/ModuleIO.v ===== *)
(** * Blocks and scopes in the files of modules ([policydb.c], [write.c])

    After its symbols a module has its blocks of declarations, each with its
    rules, the symbols it requires and declares and tables of its own, and then
    the scopes of all symbols.  What the formats before version 12 cannot hold
    is left out by the writers. *)

From S2P Require Import Prelude PolicyFile Hashtab Ebitmap EbitmapIO Symtab Tables Context Avtab Policydb Mls Constraint ExpandSets ExpandRules Readers ContextIO RulesIO SymbolsIO OcontextIO CondIO Scopes.

Definition MOD_POLICYDB_VERSION_RANGETRANS : Z := 6.
Definition MOD_POLICYDB_VERSION_FILENAME_TRANS : Z := 11.
Definition MOD_POLICYDB_VERSION_ROLETRANS : Z := 12.

Section io.
Context `{Target}.

(** ** Rules *)

Definition rule_has_classes (p : policydb) : bool := MOD_POLICYDB_VERSION_ROLETRANS <=? policyvers p.
Definition read_role_trans_rule (p : policydb) : Reader role_trans_rule :=
  _ ← new (-1);
  roles ← or_fail (-1) role_set_read;
  types ← or_fail (-1) type_set_read;
  classes ← (if rule_has_classes p then or_fail (-1) get_ebitmap
             else or_fail (-1) (lift (ebitmap_set_bit ebitmap_init (SECCLASS_PROCESS - 1) 1)));
  buf ← or_fail (-1) (get_entry 4);
  mret (RoleTransRule roles types classes (le_to_cpu 4 buf 0)).
Definition role_trans_rule_read (p : policydb) : Reader (list role_trans_rule) :=
  buf ← or_fail (-1) (get_entry 4);
  times (le_to_cpu 4 buf 0) (λ l, tr ← read_role_trans_rule p; mret (l ++ [tr])) [].
Definition role_allow_rule_read : Reader (list role_allow_rule) :=
  buf ← or_fail (-1) (get_entry 4);
  times (le_to_cpu 4 buf 0) (λ l,
    _ ← new (-1);
    roles ← or_fail (-1) role_set_read;
    new_roles ← or_fail (-1) role_set_read;
    mret (l ++ [RoleAllowRule roles new_roles])) [].
Definition read_filename_trans_rule : Reader filename_trans_rule :=
  _ ← new (-1);
  buf ← or_fail (-1) (get_entry 4);
  name ← read_key32 (le_to_cpu 4 buf 0);
  stypes ← or_fail (-1) type_set_read;
  ttypes ← or_fail (-1) type_set_read;
  buf ← or_fail (-1) (get_entry 8);
  mret (FilenameTransRule stypes ttypes (le_to_cpu 4 buf 0) name (le_to_cpu 4 buf 1)).
Definition filename_trans_rule_read : Reader (list filename_trans_rule) :=
  buf ← or_fail (-1) (get_entry 4);
  times (le_to_cpu 4 buf 0) (λ l, ftr ← read_filename_trans_rule; mret (l ++ [ftr])) [].
Definition read_range_trans_rule : Reader range_trans_rule :=
  _ ← new (-1);
  stypes ← or_fail (-1) type_set_read;
  ttypes ← or_fail (-1) type_set_read;
  tclasses ← or_fail (-1) get_ebitmap;
  trange ← or_fail (-1) mls_read_semantic_range_helper;
  mret (RangeTransRule stypes ttypes tclasses trange).
Definition range_trans_rule_read : Reader (list range_trans_rule) :=
  buf ← or_fail (-1) (get_entry 4);
  times (le_to_cpu 4 buf 0) (λ l, rt ← read_range_trans_rule; mret (l ++ [rt])) [].

(** the test stops at the first class that is not [process] *)
Definition only_process (classes : ebitmap) : CM bool :=
  r ← ebitmap_for_each_bit classes (λ bit i s, mret (if bit && negb (i =? SECCLASS_PROCESS - 1) then inl false else inr s)) ();
  mret (match r with inl b => b | inr _ => true end).
Definition rule_kept (p : policydb) (tr : role_trans_rule) : CM bool :=
  if rule_has_classes p then mret true else only_process (rtu_classes tr).
Definition role_trans_rule_write (p : policydb) (t : list role_trans_rule) : Writer := λ fp,
  nel ← foldr (λ tr n, n ← n; b ← rule_kept p tr; mret (if b : bool then n + 1 else n)) (mret 0) t;
  (put_words [nel];;;
   write_each (λ tr fp,
     b ← rule_kept p tr;
     if negb b then done fp else
     (role_set_write (rtu_roles tr);;;
      type_set_write (rtu_types tr);;;
      (if rule_has_classes p then put_ebitmap (rtu_classes tr) else done);;;
      put_words [rtu_new_role tr]) fp) t) fp.
Definition role_allow_rule_write (r : list role_allow_rule) : Writer :=
  put_words [Z.of_nat (length r)];;;
  write_each (λ ra, role_set_write (rar_roles ra);;; role_set_write (rar_new_roles ra)) r.
Definition filename_trans_rule_write (t : list filename_trans_rule) : Writer :=
  put_words [Z.of_nat (length t)];;;
  write_each (λ ftr,
    put_words [strlen_of (ftr_name ftr)];;;
    put_name32 (ftr_name ftr);;;
    type_set_write (ftr_stypes ftr);;;
    type_set_write (ftr_ttypes ftr);;;
    put_words [ftr_tclass ftr; ftr_otype ftr]) t.
Definition range_trans_rule_write (t : list range_trans_rule) : Writer :=
  put_words [Z.of_nat (length t)];;;
  write_each (λ rt,
    type_set_write (rr_stypes rt);;;
    type_set_write (rr_ttypes rt);;;
    put_ebitmap (rr_tclasses rt);;;
    mls_write_semantic_range_helper (rr_trange rt)) t.

(** ** Scopes of declarations *)

(** [if (ebitmap_read(e, fp) == -1) return -1;]: other codes are not errors *)
Definition scope_bitmap : Reader ebitmap := λ fp,
  mbind (M := CM) (λ '(rc, e, fp), mret (M := CM) (if rc =? -1 then inl (-1) else inr e, fp)) (ebitmap_read fp).
(** [sizeof(ebitmap_t)] *)
Definition ebitmap_bytes_size : Z := size_t_bits / 8 + Z.max (size_t_bits / 8) 4.
(** [calloc], which fails when the size does not fit *)
Definition new_zeroed (e n size : Z) : Reader unit := if 2 ^ size_t_bits <=? n * size then fail e else new e.
Definition scope_index_read (num_scope_syms : nat) (si : scope_index) : Reader scope_index :=
  scope ← times num_scope_syms (λ l, e ← scope_bitmap; mret (l ++ [e])) [];
  let scope := scope ++ drop num_scope_syms (si_scope si) in
  buf ← or_fail (-1) (get_entry 4);
  let class_perms_len := le_to_cpu 4 buf 0 in
  if class_perms_len =? 0 then mret (ScopeIndex scope []) else
  _ ← new_zeroed (-1) class_perms_len ebitmap_bytes_size;
  perms ← times class_perms_len (λ l, e ← scope_bitmap; mret (l ++ [e])) [];
  mret (ScopeIndex scope perms).
Definition scope_index_write (num_scope_syms : nat) (si : scope_index) : Writer :=
  write_each put_ebitmap (take num_scope_syms (si_scope si));;;
  put_words [Z.of_nat (length (class_perms_map si))];;;
  write_each put_ebitmap (class_perms_map si).

(** ** Tables of symbols *)

(** the loops over the first [n] tables; [commons_of] gives the table in which
    [class_read] looks for commons *)
Definition table_round {D} (n i : nat) (r : symtab D → Reader (symtab D)) (s : symtab D) : Reader (symtab D) :=
  if Nat.ltb i n then r s else mret s.
Definition symtabs_read (n : nat) (p : policydb) (commons_of : symtab common_datum → table_of common_datum)
    (st : symtabs) : Reader symtabs :=
  commons ← table_round n SYM_COMMONS (symtab_read p None) (st_commons st);
  let tc := commons_of commons in
  classes ← table_round n SYM_CLASSES (symtab_read p tc) (st_classes st);
  roles ← table_round n SYM_ROLES (symtab_read p tc) (st_roles st);
  types ← table_round n SYM_TYPES (symtab_read p tc) (st_types st);
  users ← table_round n SYM_USERS (symtab_read p tc) (st_users st);
  bools ← table_round n SYM_BOOLS (symtab_read p tc) (st_bools st);
  levels ← table_round n SYM_LEVELS (symtab_read p tc) (st_levels st);
  cats ← table_round n SYM_CATS (symtab_read p tc) (st_cats st);
  mret (Symtabs commons classes roles types users bools levels cats).
Definition write_round {D} (n i : nat) (w : symtab D → Writer) (s : symtab D) : Writer := if Nat.ltb i n then w s else done.
Definition symtabs_write (n : nat) (p : policydb) (st : symtabs) : Writer :=
  write_round n SYM_COMMONS (symtab_write p None) (st_commons st);;;
  write_round n SYM_CLASSES (symtab_write p None) (st_classes st);;;
  write_round n SYM_ROLES (symtab_write p None) (st_roles st);;;
  write_round n SYM_TYPES (symtab_write p None) (st_types st);;;
  write_round n SYM_USERS (symtab_write p None) (st_users st);;;
  write_round n SYM_BOOLS (symtab_write p None) (st_bools st);;;
  write_round n SYM_LEVELS (symtab_write p None) (st_levels st);;;
  write_round n SYM_CATS (symtab_write p None) (st_cats st).
Definition decl_symtabs_write (n : nat) (p : policydb) (st : symtabs) : Writer :=
  write_round n SYM_COMMONS (decl_symtab_write p None) (st_commons st);;;
  write_round n SYM_CLASSES (decl_symtab_write p None) (st_classes st);;;
  write_round n SYM_ROLES (decl_symtab_write p None) (st_roles st);;;
  write_round n SYM_TYPES (decl_symtab_write p None) (st_types st);;;
  write_round n SYM_USERS (decl_symtab_write p None) (st_users st);;;
  write_round n SYM_BOOLS (decl_symtab_write p None) (st_bools st);;;
  write_round n SYM_LEVELS (decl_symtab_write p None) (st_levels st);;;
  write_round n SYM_CATS (decl_symtab_write p None) (st_cats st).

(** ** Declarations and blocks *)

(** the conditional table of the policy, which [cond_read_list] allocates anew,
    and the declaration *)
Definition avrule_decl_read (junk : list byte) (p : policydb) (commons : table_of common_datum) (num_scope_syms : nat)
    (ctab : avtab) (decl : avrule_decl) : Reader (avtab * avrule_decl) :=
  buf ← or_fail (-1) (get_entry 8);
  '(ctab, conds) ← cond_read_list junk (with_conds p ctab (cond_list p));
  avrules ← avrule_read_list;
  role_tr ← role_trans_rule_read p;
  role_allow ← role_allow_rule_read;
  filename_tr ← (if MOD_POLICYDB_VERSION_FILENAME_TRANS <=? policyvers p then or_fail (-1) filename_trans_rule_read
                 else mret (filename_trans_rules decl));
  range_tr ← (if MOD_POLICYDB_VERSION_RANGETRANS <=? policyvers p then range_trans_rule_read
              else mret (range_tr_rules decl));
  required ← scope_index_read num_scope_syms (decl_required decl);
  declared ← scope_index_read num_scope_syms (decl_declared decl);
  st ← symtabs_read num_scope_syms p (λ _, commons) (decl_symtab decl);
  mret (ctab, AvruleDecl (le_to_cpu 4 buf 0) (le_to_cpu 4 buf 1) conds avrules role_tr role_allow range_tr
                required declared filename_tr st (module_name decl)).
(** a null pointer is an error *)
Definition new_decl : Reader avrule_decl :=
  decl ← total (avrule_decl_create 0);
  match decl with None => fail (-1) | Some decl => mret decl end.
(** [p->te_cond_avtab] and the block so far *)
Definition read_decl (junk : list byte) (p : policydb) (commons : table_of common_datum) (num_scope_syms : nat)
    (st : avtab * avrule_block) : Reader (avtab * avrule_block) :=
  let '(ctab, b) := st in
  curdecl ← new_decl;
  '(ctab, curdecl) ← avrule_decl_read junk p commons num_scope_syms ctab curdecl;
  let branches := branch_list b ++ [curdecl] in
  if truth (decl_enabled curdecl) then
    match blk_enabled b with
    | Some _ => fail (-1)
    | None => mret (ctab, AvruleBlock branches (Some (length (branch_list b))) (blk_flags b))
    end
  else mret (ctab, AvruleBlock branches (blk_enabled b) (blk_flags b)).
(** blocks after the first are optional *)
Definition read_block (junk : list byte) (p : policydb) (commons : table_of common_datum) (num_scope_syms : nat)
    (st : avtab * list avrule_block) : Reader (avtab * list avrule_block) :=
  let '(ctab, blocks) := st in
  _ ← new (-1);
  buf ← or_fail (-1) (get_entry 4);
  '(ctab, b) ← times (le_to_cpu 4 buf 0) (read_decl junk p commons num_scope_syms)
    (ctab, AvruleBlock [] None (match blocks with [] => 0 | _ => AVRULE_OPTIONAL end));
  mret (ctab, blocks ++ [b]).
Definition avrule_block_read (junk : list byte) (p : policydb) (commons : table_of common_datum) (num_scope_syms : nat)
    : Reader (avtab * list avrule_block) :=
  buf ← or_fail (-1) (get_entry 4);
  times (le_to_cpu 4 buf 0) (read_block junk p commons num_scope_syms) (te_cond_avtab p, []).

Definition avrule_decl_write (decl : avrule_decl) (num_scope_syms : nat) (p : policydb) : Writer :=
  put_words [decl_id decl; decl_enabled decl];;;
  cond_write_list p (decl_cond_list decl);;;
  avrule_write_list (decl_avrules decl);;;
  role_trans_rule_write p (role_tr_rules decl);;;
  role_allow_rule_write (role_allow_rules decl);;;
  (if MOD_POLICYDB_VERSION_FILENAME_TRANS <=? policyvers p then filename_trans_rule_write (filename_trans_rules decl) else done);;;
  (if MOD_POLICYDB_VERSION_RANGETRANS <=? policyvers p then range_trans_rule_write (range_tr_rules decl) else done);;;
  scope_index_write num_scope_syms (decl_required decl);;;
  scope_index_write num_scope_syms (decl_declared decl);;;
  decl_symtabs_write num_scope_syms p (decl_symtab decl).
Definition avrule_block_write (block : list avrule_block) (num_scope_syms : nat) (p : policydb) : Writer :=
  put_words [Z.of_nat (length block)];;;
  write_each (λ cur,
    put_words [Z.of_nat (length (branch_list cur))];;;
    write_each (λ decl, avrule_decl_write decl num_scope_syms p) (branch_list cur)) block.

(** ** Scopes of symbols *)

(** undefined behaviour, or an assertion that fails *)
Definition stuck {A} : Reader A := λ _, undefined.
(** [decl_ids = malloc(len * sizeof(uint32_t))] and what is read into it; the
    loop over the [len] words then leaves an array that is too small *)
Definition read_decl_ids (len : Z) : Reader (list Z) :=
  _ ← new (-1);
  buf ← or_fail (-1) (get_entry (szt (4 * len)));
  if szt (4 * len) <? 4 * len then stuck
  else mret (le_to_cpu 4 buf <$> seq 0 (Z.to_nat len)).
(** [symbols] is the table of the symbols of this kind; an empty list of
    declarations fails an assertion *)
Definition scope_read {D} (symnum : nat) (symbols : table_of D) (h : table_of scope_datum) : Reader (table_of scope_datum) :=
  buf ← or_fail (-1) (get_entry 4);
  key ← read_key (le_to_cpu 4 buf 0);
  found ← total (hashtab_search symbols key);
  match found with
  | None => fail (-1)
  | Some _ =>
      _ ← new (-1);
      buf ← or_fail (-1) (get_entry 8);
      let len := le_to_cpu 4 buf 1 in
      if len =? 0 then stuck else
      ids ← read_decl_ids len;
      let d := ScopeDatum (le_to_cpu 4 buf 0) ids len in
      if String.eqb key OBJECT_R && Nat.eqb symnum SYM_ROLES then mret h else insert_symbol h key d
  end.
(** the buffer has 32 words, or is allocated *)
Definition scope_write (key : string) (d : scope_datum) : Writer := λ fp,
  let items := u32 (2 + decl_ids_len d) in
  dyn_buf ← (if 32 <=? items then malloc else mret (Some 0));
  match dyn_buf with
  | None => mret (M := CM) (POLICYDB_ERROR, fp)
  | Some _ =>
      if (if 32 <=? items then szt (4 * items) else 128) <? 4 * (2 + decl_ids_len d) then undefined else
      if negb (decl_ids_len d =? length (decl_ids d)) then undefined else
      (put_words [strlen_of key];;;
       put_name key;;;
       put_words ([scope d; decl_ids_len d] ++ decl_ids d)) fp
  end.
(** one round of the loops over the scopes in [policydb_read] and
    [policydb_write] *)
Definition scopes_read {D} (symnum : nat) (symbols : table_of D) (s : symtab scope_datum) : Reader (symtab scope_datum) :=
  buf ← or_fail (-1) (get_entry 4);
  t ← times (le_to_cpu 4 buf 0) (scope_read symnum symbols) (table s);
  mret (Symtab t (nprim s)).
Definition scopes_write (s : symtab scope_datum) : Writer :=
  match table s with
  | None => λ _, undefined
  | Some t => put_words [nel t];;; hashtab_map (Some t) scope_write;;; done
  end.
End io.

(** ** Reading with memory *)

(** [scope_index_read] does not notice that memory has run out, so that the
    round trip of a module is one for runs with memory *)
Definition reads_ok `{Target} {A} (r : Reader A) (bs : list byte) (P : A → Prop) : Prop :=
  reads_in mem_ok r bs (λ x h, P x ∧ mem_ok h).

Section with_memory.
Context `{Target}.
Implicit Types (bs : list byte).

Lemma wp_ext {A} (m m' : CM A) (Q : A → heap → Prop) h : m h = m' h → wp m' Q h → wp m Q h.
Proof. unfold wp. by intros ->. Qed.
Lemma reads_ok_of {A} (r : Reader A) bs P : reads r bs P → reads_ok r bs P.
Proof.
  intros Hr rest h Ho. eapply wp_mono; [apply Hr|]. intros [[rc|x] fp] h' [M Hx]; split; [done|done|done|].
  destruct Hx as [HP ->]. split; [|done]. split; [done|]. by apply M.
Qed.
Lemma reads_ok_ret {A} (x : A) (P : A → Prop) : P x → reads_ok (mret x) [] P.
Proof. intros. by apply reads_ok_of, reads_ret. Qed.
(** a step from a value with [P] *)
Lemma reads_ok_pure {A B} (x : A) (P : A → Prop) (r : Reader B) bs Q :
  (P x → reads_ok r bs Q) → reads_in (λ h, P x ∧ mem_ok h) r bs (λ y h, Q y ∧ mem_ok h).
Proof. intros Hr rest h [HP Ho]. by apply Hr. Qed.
Lemma reads_ok_bind {A B} (r : Reader A) (f : A → Reader B) b1 b2 P Q :
  reads_ok r b1 P → (∀ x, P x → reads_ok (f x) b2 Q) → reads_ok (r ≫= f) (b1 ++ b2) Q.
Proof. intros Hr Hf. eapply reads_in_bind; [exact Hr|]. intros x. by apply (reads_ok_pure x P), Hf. Qed.
Lemma reads_ok_bind_nil {A B} (r : Reader A) (f : A → Reader B) bs P Q :
  reads_ok r [] P → (∀ x, P x → reads_ok (f x) bs Q) → reads_ok (r ≫= f) bs Q.
Proof. apply (reads_ok_bind r f [] bs). Qed.
Lemma reads_ok_bind_last {A B} (r : Reader A) (f : A → Reader B) bs P Q :
  reads_ok r bs P → (∀ x, P x → reads_ok (f x) [] Q) → reads_ok (r ≫= f) bs Q.
Proof. rewrite <- (app_nil_r bs) at 2. apply reads_ok_bind. Qed.
Lemma reads_ok_or_fail {A} e (r : Reader A) bs P : truth e = true → reads_ok r bs P → reads_ok (or_fail e r) bs P.
Proof. apply reads_in_or_fail. Qed.
Lemma reads_ok_mono {A} (r : Reader A) bs (P Q : A → Prop) : reads_ok r bs P → (∀ x, P x → Q x) → reads_ok r bs Q.
Proof. intros Hr HQ. eapply reads_in_mono; [exact Hr|]. intros x h [? ?]. split; [by apply HQ|done]. Qed.
Lemma reads_ok_times {S I} (l : list I) n (body : S → Reader S) (f : I → list byte) (Inv : list I → S → Prop) s :
  n = Z.of_nat (length l) → Inv [] s →
  (∀ i l1 l2 s, l = l1 ++ i :: l2 → Inv l1 s → reads_ok (body s) (f i) (Inv (l1 ++ [i]))) →
  reads_ok (times n body s) (l ≫= f) (Inv l).
Proof.
  intros Hn HI Hb rest h Ho. apply (reads_in_times l n body f (λ l s h, Inv l s ∧ mem_ok h)); [done| |done].
  intros i l1 l2 s1 Hl. by apply (reads_ok_pure s1 (Inv l1)), (Hb i l1 l2).
Qed.
Lemma reads_ok_words n zs : n = 4 * Z.of_nat (length zs) → reads_ok (or_fail (-1) (get_entry n)) (cpu_to_le 4 zs) (λ buf, buf = cpu_to_le 4 zs).
Proof. intros. by apply reads_ok_of, reads_words. Qed.

(** what [w] writes, [r] reads with memory *)
Definition trip_ok {A} (w : Writer) (r : Reader A) (P : A → Prop) : Prop := ∃ bs, writes w bs ∧ reads_ok r bs P.
Lemma trip_of {A} w (r : Reader A) P : round_trip w r P → trip_ok w r P.
Proof. intros (bs&Hw&Hr). exists bs. split; [done|by apply reads_ok_of]. Qed.
Lemma trip_seq {A B} w1 w2 (r : Reader A) (f : A → Reader B) P Q :
  trip_ok w1 r P → (∃ b2, writes w2 b2 ∧ ∀ x, P x → reads_ok (f x) b2 Q) → trip_ok (w1;;; w2) (r ≫= f) Q.
Proof. intros (b1&Hw1&Hr1) (b2&Hw2&Hr2). exists (b1 ++ b2). split; [by apply writes_then|by eapply reads_ok_bind]. Qed.
(** the same when one value is read *)
Lemma trip_eq {A B} w1 w2 (r : Reader A) (f : A → Reader B) c Q :
  trip_ok w1 r (λ x, x = c) → trip_ok w2 (f c) Q → trip_ok (w1;;; w2) (r ≫= f) Q.
Proof. intros H1 (b2&Hw2&Hr2). eapply trip_seq; [exact H1|]. exists b2. split; [done|]. by intros x ->. Qed.
Lemma trip_ok_mono {A} w (r : Reader A) (P Q : A → Prop) : trip_ok w r P → (∀ x, P x → Q x) → trip_ok w r Q.
Proof. intros (bs&Hw&Hr) HQ. exists bs. split; [done|]. by eapply reads_ok_mono. Qed.
(** the last step, of which the value is returned *)
Lemma trip_map {A B} w (r : Reader A) (f : A → Reader B) (P : A → Prop) Q :
  trip_ok w r P → (∀ x, P x → reads_ok (f x) [] Q) → trip_ok w (r ≫= f) Q.
Proof. intros (bs&Hw&Hr) Hf. exists bs. split; [done|]. by eapply reads_ok_bind_last. Qed.
(** a list after its length *)
Lemma trip_list {A S B} (w : A → Writer) (body : S → Reader S) (l : list A) s (Inv : list A → S → Prop) (f : S → Reader B) Q :
  word (length l) → Inv [] s →
  (∀ x, x ∈ l → ∃ bs, writes (w x) bs ∧ ∀ l1 l2 s, l = l1 ++ x :: l2 → Inv l1 s → reads_ok (body s) bs (Inv (l1 ++ [x]))) →
  (∀ s, Inv l s → reads_ok (f s) [] Q) →
  trip_ok (put_words [Z.of_nat (length l)];;; write_each w l)
    (buf ← or_fail (-1) (get_entry 4); times (le_to_cpu 4 buf 0) body s ≫= f) Q.
Proof.
  intros Hl HI Hx HQ. destruct (choose_bytes _ l Hx) as (bss&E&Hb).
  exists (cpu_to_le 4 [Z.of_nat (length l)] ++ (bss ≫= snd)). split.
  - apply writes_then; [by apply writes_words|]. rewrite <- E. apply each_writes. intros xb Hin. by apply Hb.
  - eapply reads_ok_bind; [by apply reads_ok_words|]. intros buf ->. rewrite (le_word _ 0 (length l)) by done.
    eapply reads_ok_bind_last; [|exact HQ]. rewrite <- E.
    apply (reads_ok_times bss _ _ snd (λ l1 s, Inv l1.*1 s)); [by rewrite length_fmap|done|].
    intros xb l1 l2 s1 El H1. rewrite fmap_app. destruct (Hb xb) as [_ Hr]; [rewrite El; apply elem_of_app; right; by left|].
    apply (Hr l1.*1 l2.*1); [|done]. by rewrite <- E, El, fmap_app.
Qed.
(** the same for a reader that ends with the loop *)
Lemma trip_times {A S} (w : A → Writer) (body : S → Reader S) (l : list A) s (Inv : list A → S → Prop) :
  word (length l) → Inv [] s →
  (∀ x, x ∈ l → ∃ bs, writes (w x) bs ∧ ∀ l1 l2 s, l = l1 ++ x :: l2 → Inv l1 s → reads_ok (body s) bs (Inv (l1 ++ [x]))) →
  trip_ok (put_words [Z.of_nat (length l)];;; write_each w l)
    (buf ← or_fail (-1) (get_entry 4); times (le_to_cpu 4 buf 0) body s) (Inv l).
Proof.
  intros Hl HI Hx. destruct (trip_list w body l s Inv mret (Inv l) Hl HI Hx) as (bs&Hw&Hr).
  { intros s' Hs'. by apply reads_ok_ret. }
  exists bs. split; [done|]. intros rest h Ho. specialize (Hr rest h Ho). eapply wp_ext; [|exact Hr].
  cbv [mbind Reader_bind CM_bind mret Reader_ret CM_ret]. destruct (or_fail (-1) (get_entry 4) _ h) as [[[[rc|buf] fp] h']|]; [done| |done].
  by destruct (times _ body s fp h') as [[[[rc|x] fp'] h2]|].
Qed.
(** a list of elements that are read one by one *)
Lemma trip_each {A B} (w : A → Writer) (r : Reader B) (k : A → B) (l : list A) :
  word (length l) → (∀ x, x ∈ l → trip_ok (w x) r (λ y, y = k x)) →
  trip_ok (put_words [Z.of_nat (length l)];;; write_each w l)
    (buf ← or_fail (-1) (get_entry 4); times (le_to_cpu 4 buf 0) (λ l, y ← r; mret (l ++ [y])) []) (λ l', l' = k <$> l).
Proof.
  intros Hl Hx. apply (trip_times w _ l [] (λ l1 l', l' = k <$> l1)); [done..|]. intros x Hin. destruct (Hx x Hin) as (bs&Hw&Hr).
  exists bs. split; [done|]. intros l1 l2 l' _ ->. eapply reads_ok_bind_last; [exact Hr|]. intros y ->. apply reads_ok_ret. by rewrite fmap_app.
Qed.
End with_memory.

(** ** Theory: rules *)

Section theory.
Context `{Target}.
Implicit Types (p : policydb) (bs : list byte).

(** the classes of a rule in a format without them *)
Definition process_only : ebitmap := Ebitmap [Node 0 2] 64.
Definition role_trans_rule_kept p (tr : role_trans_rule) : role_trans_rule :=
  RoleTransRule (rtu_roles tr) (rtu_types tr) (if rule_has_classes p then rtu_classes tr else process_only) (rtu_new_role tr).
Definition rule_written p (tr : role_trans_rule) : bool :=
  rule_has_classes p || forallb (λ i, i =? SECCLASS_PROCESS - 1) (ebitmap_bits (rtu_classes tr)).
Definition role_trans_rule_storable (tr : role_trans_rule) : Prop :=
  role_set_storable (rtu_roles tr) ∧ type_set_storable (rtu_types tr) ∧ ebitmap_wf (rtu_classes tr) ∧ word (rtu_new_role tr).

Lemma only_process_run (e : ebitmap) h :
  ebitmap_wf e → only_process e h = Some (forallb (λ i, i =? SECCLASS_PROCESS - 1) (ebitmap_bits e), h).
Proof.
  intros He.
  assert (Hl : ∀ l : list Z, for_list l (λ i s, mret (M := CM) (if true && negb (i =? SECCLASS_PROCESS - 1) then inl false else inr s)) () h =
    Some (if forallb (λ i, i =? SECCLASS_PROCESS - 1) l then inr () else inl false, h)).
  { induction l as [|i l IH]; [done|]. cbn [for_list forallb]. eapply bind_run; [done|]. by destruct (i =? SECCLASS_PROCESS - 1). }
  unfold only_process, mbind, CM_bind. rewrite ebitmap_for_each_member by done. unfold fmap, CM_fmap, mbind, CM_bind.
  rewrite (Hl (ebitmap_bits e)). by destruct (forallb _ _).
Qed.
Lemma rule_kept_run p (tr : role_trans_rule) h : ebitmap_wf (rtu_classes tr) → rule_kept p tr h = Some (rule_written p tr, h).
Proof. intros He. unfold rule_kept, rule_written. destruct (rule_has_classes p); [done|]. by apply only_process_run. Qed.

Lemma process_only_wf : ebitmap_wf process_only.
Proof. by apply (ExampleSets.bits_wf 2). Qed.
Lemma process_only_reads :
  reads (or_fail (-1) (lift (ebitmap_set_bit ebitmap_init (SECCLASS_PROCESS - 1) 1))) [] (λ e, e = process_only).
Proof.
  apply reads_or_fail; [done|]. apply reads_lift. intros h.
  eapply wp_mono; [apply ebitmap_set_bit_wp; [apply ebitmap_init_wf|by vm_compute]|]. intros [rc e] h1 (M&Hw&Hcase).
  split; [exact M|]. intros Erc. destruct Hcase as [[_ Hb]|[E _]]; [|rewrite E in Erc; done].
  apply ebitmap_set_inj; [done|apply process_only_wf|].
  apply set_eq. intros i. rewrite !elem_of_ebitmap_set, Hb by (done || apply process_only_wf). cbn [node ebitmap_init process_only nodes_bit startbit map].
  change (SECCLASS_PROCESS - 1) with 1. rewrite Z.sub_0_r. change 2 with (Z.shiftl 1 1). rewrite testbit_one_shift by done.
  destruct (Z.eqb_spec i 1) as [->|]; [done|]. by destruct ((0 <=? i) && (i <? 0 + 64)).
Qed.

(** the rules *)
Definition filename_trans_rule_storable (r : filename_trans_rule) : Prop :=
  key_storable (ftr_name r) ∧ type_set_storable (ftr_stypes r) ∧ type_set_storable (ftr_ttypes r) ∧ word (ftr_tclass r) ∧ word (ftr_otype r).
Definition range_trans_rule_storable (r : range_trans_rule) : Prop :=
  type_set_storable (rr_stypes r) ∧ type_set_storable (rr_ttypes r) ∧ ebitmap_wf (rr_tclasses r) ∧
  semantic_level_storable (sr_low (rr_trange r)) ∧ semantic_level_storable (sr_high (rr_trange r)).
(** the categories are read in the reverse order *)
Definition range_trans_rule_kept (r : range_trans_rule) : range_trans_rule :=
  RangeTransRule (rr_stypes r) (rr_ttypes r) (rr_tclasses r)
    (SemRange (reversed (sr_low (rr_trange r))) (reversed (sr_high (rr_trange r)))).
Definition role_allow_rule_storable (r : role_allow_rule) : Prop := role_set_storable (rar_roles r) ∧ role_set_storable (rar_new_roles r).

(** the steps of the readers *)
Ltac rd :=
  eapply reads_bind; [first [ by apply reads_words | by apply key32_reads
                            | apply reads_or_fail; [done|]; first [by apply role_set_reads|by apply type_set_reads|by apply reads_ebitmap] ]|intros ? ->].
Ltac wr := first [ by apply writes_words | by apply type_set_writes | by apply role_set_writes | by apply writes_ebitmap | by apply key32_writes
                 | by apply semantic_level_writes | eapply writes_then; [wr|wr] ].
Lemma role_allow_rules_trip (l : list role_allow_rule) :
  word (length l) → Forall role_allow_rule_storable l → trip_ok (role_allow_rule_write l) role_allow_rule_read (λ l', l' = l).
Proof.
  intros Hl Hs. rewrite Forall_forall in Hs. unfold role_allow_rule_write, role_allow_rule_read.
  apply (trip_times _ _ l [] (λ l1 l', l' = l1)); [done..|]. intros x Hx. destruct (Hs x Hx) as [H1 H2].
  exists (role_set_bytes (rar_roles x) ++ role_set_bytes (rar_new_roles x)). split; [by apply writes_then; apply role_set_writes|].
  intros l1 l2 s _ ->. apply reads_ok_of. eapply reads_bind_nil; [by apply reads_new|intros _ _].
  eapply reads_bind; [by apply reads_or_fail, role_set_reads|intros ? ->].
  eapply reads_bind_last; [by apply reads_or_fail, role_set_reads|intros ? ->]. apply reads_ret. by destruct x.
Qed.
Lemma role_trans_rules_trip p (l : list role_trans_rule) :
  word (length l) → Forall role_trans_rule_storable l →
  trip_ok (role_trans_rule_write p l) (role_trans_rule_read p) (λ l', l' = role_trans_rule_kept p <$> filter (λ tr, rule_written p tr = true) l).
Proof.
  intros Hl Hs. rewrite Forall_forall in Hs. set (W := filter (λ tr, rule_written p tr = true) l).
  set (f := λ tr, role_set_bytes (rtu_roles tr) ++ type_set_bytes (rtu_types tr) ++
    (if rule_has_classes p then ebitmap_bytes (rtu_classes tr) else []) ++ cpu_to_le 4 [rtu_new_role tr]).
  assert (HW : word (length W)) by (unfold word in *; pose proof (length_filter (λ tr, rule_written p tr = true) l); unfold W; lia).
  exists (cpu_to_le 4 [Z.of_nat (length W)] ++ (W ≫= f)). split.
  - assert (Hn : ∀ h, foldr (λ tr n, n ← n; b ← rule_kept p tr; mret (M := CM) (if b : bool then n + 1 else n)) (mret 0) l h = Some (Z.of_nat (length W), h)).
    { intros h. unfold W. clear -Hs. induction l as [|tr l IH]; [done|]. cbn [foldr]. eapply bind_run; [apply IH; intros; apply Hs; by right|].
      eapply bind_run; [apply rule_kept_run; by apply Hs; left|]. rewrite filter_cons. destruct (rule_written p tr); [|done].
      rewrite decide_True by done. cbn [length]. rewrite Nat2Z.inj_succ. done. }
    intros out room h Hr. unfold role_trans_rule_write. eapply bind_run; [apply Hn|].
    refine (writes_then _ _ _ _ (writes_words [_] _) _ out room h Hr); [done|].
    apply writes_filter. intros tr Htr. destruct (Hs tr Htr) as (H1&H2&H3&H4). intros out' room' h' Hr'. eapply bind_run; [by apply rule_kept_run|].
    destruct (rule_written p tr); cbn [negb]; [|by apply writes_done].
    refine (writes_then _ _ _ _ (role_set_writes _ H1) (writes_then _ _ _ _ (type_set_writes _ H2) (writes_then _ _ _ _ _ (writes_words [_] _))) out' room' h' Hr'); [|done].
    destruct (rule_has_classes p); [by apply writes_ebitmap|apply writes_done].
  - unfold role_trans_rule_read. eapply reads_ok_bind; [by apply reads_ok_words|]. intros buf ->. rewrite (le_word _ 0 (length W)) by done.
    apply (reads_ok_times W _ _ f (λ l1 l', l' = role_trans_rule_kept p <$> l1)); [done..|]. intros tr l1 l2 l' HWl ->. apply reads_ok_of.
    assert (Htr : tr ∈ l). { eapply (proj2 (proj1 (list_elem_of_filter (λ tr, rule_written p tr = true) l tr) _)). Unshelve. fold W. rewrite HWl. apply elem_of_app. right; by left. }
    destruct (Hs tr Htr) as (H1&H2&H3&H4). eapply reads_bind_last; [|intros x Hx; apply reads_ret; rewrite fmap_app; exact (f_equal _ Hx)].
    unfold read_role_trans_rule. eapply reads_bind_nil; [by apply reads_new|intros _ _]. unfold f.
    eapply reads_bind; [by apply reads_or_fail, role_set_reads|intros ? ->].
    eapply reads_bind; [by apply reads_or_fail, type_set_reads|intros ? ->].
    eapply (reads_bind _ _ _ _ (λ e, e = if rule_has_classes p then rtu_classes tr else process_only)).
    { destruct (rule_has_classes p); [by apply reads_or_fail, reads_ebitmap|apply process_only_reads]. }
    intros ? ->. eapply reads_bind_last; [by apply reads_words|intros ? ->]. apply reads_ret. by rewrite (le_word _ 0 (rtu_new_role tr)).
Qed.
Lemma filename_trans_rules_trip (l : list filename_trans_rule) :
  word (length l) → Forall filename_trans_rule_storable l → trip_ok (filename_trans_rule_write l) filename_trans_rule_read (λ l', l' = l).
Proof.
  intros Hl Hs. rewrite Forall_forall in Hs. unfold filename_trans_rule_write, filename_trans_rule_read.
  eapply trip_ok_mono; [apply (trip_each _ read_filename_trans_rule id l Hl)|by intros ? ->; apply list_fmap_id].
  intros r Hr. destruct (Hs r Hr) as (Hk&H1&H2&H3&H4). pose proof (key_word _ Hk). eexists. split; [wr|].
  apply reads_ok_of. unfold read_filename_trans_rule. eapply reads_bind_nil; [by apply reads_new|intros _ _].
  rd. rewrite (le_word _ 0 (strlen_of (ftr_name r))) by done. rd. rd. rd.
  eapply reads_bind_last; [by apply reads_words|intros ? ->]. apply reads_ret.
  rewrite (le_word _ 0 (ftr_tclass r)), (le_word _ 1 (ftr_otype r)) by done. by destruct r.
Qed.
Lemma range_trans_rules_trip (l : list range_trans_rule) :
  word (length l) → Forall range_trans_rule_storable l →
  trip_ok (range_trans_rule_write l) range_trans_rule_read (λ l', l' = range_trans_rule_kept <$> l).
Proof.
  intros Hl Hs. rewrite Forall_forall in Hs. unfold range_trans_rule_write, range_trans_rule_read.
  apply (trip_each _ read_range_trans_rule range_trans_rule_kept l Hl).
  intros r Hr. destruct (Hs r Hr) as (H1&H2&H3&H4&H5). eexists. split.
  { eapply writes_then; [by apply type_set_writes|]. eapply writes_then; [by apply type_set_writes|]. eapply writes_then; [by apply writes_ebitmap|].
    eapply writes_then; by apply semantic_level_writes. }
  apply reads_ok_of. unfold read_range_trans_rule. eapply reads_bind_nil; [by apply reads_new|intros _ _]. rd. rd. rd.
  eapply (reads_bind_last _ _ _ (λ x, x = rr_trange (range_trans_rule_kept r))); [|intros ? ->; by apply reads_ret].
  apply reads_or_fail; [done|]. unfold mls_read_semantic_range_helper.
  eapply reads_bind; [by apply semantic_level_reads|intros ? ->]. eapply reads_bind_last; [by apply semantic_level_reads|intros ? ->].
  by apply reads_ret.
Qed.

(** *** Scopes of declarations *)

Lemma scope_bitmap_reads (e : ebitmap) : ebitmap_wf e → reads_ok scope_bitmap (ebitmap_bytes e) (λ e', e' = e).
Proof.
  intros He rest h Ho. apply wp_bind. eapply wp_mono; [by apply ebitmap_read_bytes|].
  intros [[rc e'] fp] h' [Hm [(->&->&->)|[-> ->]]]; apply wp_ret.
  - split; [|split; [split; [done|by apply Hm]|done]]. intros _. split; [by apply Hm|by eexists].
  - exfalso. by destruct (Hm Ho).
Qed.
Lemma bitmaps_trip (l : list ebitmap) n : Forall ebitmap_wf l → n = Z.of_nat (length l) →
  trip_ok (write_each put_ebitmap l) (times n (λ l, e ← scope_bitmap; mret (l ++ [e])) []) (λ l', l' = l).
Proof.
  intros Hl ->. rewrite Forall_forall in Hl. exists (l ≫= ebitmap_bytes). split.
  - apply writes_each. intros e He. by apply writes_ebitmap, Hl.
  - apply (reads_ok_times l _ _ ebitmap_bytes (λ l1 l', l' = l1)); [done..|]. intros e l1 l2 s El ->.
    eapply reads_ok_bind_last; [apply scope_bitmap_reads, Hl; rewrite El; apply elem_of_app; right; by left|]. intros ? ->. by apply reads_ok_ret.
Qed.
Record scope_index_storable (si : scope_index) : Prop := {
  xi_scope : length (si_scope si) = SYM_NUM;
  xi_bitmaps : Forall ebitmap_wf (si_scope si) ∧ Forall ebitmap_wf (class_perms_map si);
  xi_length : Z.of_nat (length (class_perms_map si)) < 2 ^ 28
}.
Lemma scope_index_trip (si si0 : scope_index) :
  scope_index_storable si → length (si_scope si0) = SYM_NUM →
  trip_ok (scope_index_write SYM_NUM si) (scope_index_read SYM_NUM si0) (λ si', si' = si).
Proof.
  intros [Hl [Hb Hp] Hn] Hl0. unfold scope_index_write, scope_index_read.
  eapply trip_eq; [apply bitmaps_trip; [by apply Forall_take|rewrite length_take, Hl; done]|]. cbv beta.
  rewrite (take_ge (si_scope si)), (drop_ge (si_scope si0)), app_nil_r by lia.
  destruct (bitmaps_trip (class_perms_map si) _ Hp eq_refl) as (bs&Hw&Hr).
  assert (Hword : word (length (class_perms_map si))) by (unfold word; lia).
  exists (cpu_to_le 4 [Z.of_nat (length (class_perms_map si))] ++ bs). split; [apply writes_then; [by apply writes_words|exact Hw]|].
  eapply reads_ok_bind; [by apply reads_ok_words|intros ? ->]. cbv zeta. rewrite (le_word _ 0 (length (class_perms_map si))) by done.
  destruct (Z.eqb_spec (Z.of_nat (length (class_perms_map si))) 0) as [E|Hne].
  - destruct (class_perms_map si) eqn:Em; [|cbn in E; lia]. rewrite (writes_unique _ _ _ Hw writes_done).
    apply reads_ok_ret. destruct si. cbn in *. by subst.
  - eapply (reads_ok_bind_nil _ _ _ (λ _, True)); [|intros _ _; eapply reads_ok_bind_last; [exact Hr|]; intros ? ->; apply reads_ok_ret; by destruct si].
    unfold new_zeroed. rewrite (proj2 (Z.leb_gt _ _)); [by apply reads_ok_of, reads_new|].
    pose proof size_t_bits_ok as [Es|Es]; unfold ebitmap_bytes_size; rewrite Es; [change (32 / 8 + Z.max (32 / 8) 4) with 8|change (64 / 8 + Z.max (64 / 8) 4) with 16]; lia.
Qed.

(** *** Conditionals of modules *)

(** the rules are in lists, the tables are those of a kernel policy *)
Record mod_cond_storable p (n : cond_node) : Prop := {
  mc_state : - 2 ^ 31 ≤ cur_state n < 2 ^ 31;
  mc_length : Z.of_nat (length (cn_cond_expr n)) < 2 ^ 31;
  mc_exprs : Forall (λ e, word (cond_type e) ∧ word (cond_bool e) ∧ expr_isvalid p e = true) (cn_cond_expr n);
  mc_lists : word (length (avtrue_list n)) ∧ word (length (avfalse_list n));
  mc_rules : Forall avrule_storable (avtrue_list n) ∧ Forall avrule_storable (avfalse_list n);
  mc_flags : word (cond_flags n)
}.
Definition mod_cond_kept p (n : cond_node) : cond_node :=
  CondNode (cur_state n) (cn_cond_expr n) [] [] (avrule_kept <$> avtrue_list n) (avrule_kept <$> avfalse_list n) 0 (replicate 5 0) 0
    (if cond_has_flags p then cond_flags n else 0).
Lemma mod_cond_node_trip junk p ctab (n : cond_node) :
  policy_type p ≠ POLICY_KERN → mod_cond_storable p n →
  trip_ok (cond_write_node p n) (cond_read_node junk p ctab) (λ r, r = (ctab, mod_cond_kept p n)).
Proof.
  intros Hp [Hst Hlen He [Hlt Hlf] [Ht Hf] Hfl].
  destruct (avrules_round_trip _ Hlt Ht) as (bt&Hwt&Hrt). destruct (avrules_round_trip _ Hlf Hf) as (bf&Hwf&Hrf).
  assert (Hk : (policy_type p =? AvtabIO.POLICY_KERN) = false) by by apply Z.eqb_neq.
  exists (cpu_to_le 4 [cur_state n] ++ cpu_to_le 4 [Z.of_nat (length (cn_cond_expr n))] ++
    (cn_cond_expr n ≫= λ e, cpu_to_le 4 [cond_type e; cond_bool e]) ++ (bt ++ bf) ++
    (if cond_has_flags p then cpu_to_le 4 [cond_flags n] else [])). split.
  - unfold cond_write_node. rewrite Hk. apply writes_then; [by apply writes_words|]. apply writes_then; [by apply writes_words|].
    apply writes_then; [apply writes_each; intros; by apply writes_words|]. apply writes_then; [by apply writes_then|].
    destruct (cond_has_flags p); [by apply writes_words|apply writes_done].
  - unfold cond_read_node. rewrite Hk. eapply reads_ok_bind; [by apply reads_ok_words|intros ? ->].
    eapply reads_ok_bind; [by apply reads_ok_words|intros ? ->]. rewrite !i32_word by lia.
    eapply reads_ok_bind.
    { apply reads_ok_of, (reads_in_reads (λ _, True) _ _ (λ l _, l = cn_cond_expr n ∧ True) (λ l, l = cn_cond_expr n)); [done|by apply read_exprs_back|by intros ? ? [? _]]. }
    intros ? ->. eapply (reads_ok_bind _ _ _ _ (λ r, r = (ctab, [], [], avrule_kept <$> avtrue_list n, avrule_kept <$> avfalse_list n))).
    { eapply reads_ok_bind; [by apply reads_ok_of, reads_or_fail|intros ? ->].
      eapply reads_ok_bind_last; [by apply reads_ok_of, reads_or_fail|intros ? ->]. by apply reads_ok_ret. }
    intros ? ->. eapply (reads_ok_bind_last _ _ _ (λ z, z = if cond_has_flags p then cond_flags n else 0)).
    { destruct (cond_has_flags p); [|by apply reads_ok_ret]. eapply reads_ok_bind_last; [by apply reads_ok_words|intros ? ->].
      apply reads_ok_ret. by rewrite (le_word _ 0 (cond_flags n)). }
    intros ? ->. by apply reads_ok_ret.
Qed.
(** the table as [avtab_alloc] leaves it without rules *)
Definition mod_ctab (ctab : avtab) : avtab := Avtab (av_htable ctab) 0 0 0.
Lemma mod_conds_trip junk p ctab (l : list cond_node) :
  policy_type p ≠ POLICY_KERN → av_nel (te_avtab p) = 0 → Z.of_nat (length l) < 2 ^ 31 → Forall (mod_cond_storable p) l →
  trip_ok (cond_write_list p l) (cond_read_list junk (with_conds p ctab (cond_list p))) (λ r, r = (mod_ctab ctab, mod_cond_kept p <$> l)).
Proof.
  intros Hp Hnel Hl Hs. rewrite Forall_forall in Hs.
  destruct (choose_bytes (λ n bs, writes (cond_write_node p n) bs ∧
    reads_ok (cond_read_node junk p (mod_ctab ctab)) bs (λ r, r = (mod_ctab ctab, mod_cond_kept p n))) l) as (bss&E&Hb).
  { intros n Hn. by apply mod_cond_node_trip; [|apply Hs]. }
  exists (cpu_to_le 4 [Z.of_nat (length l)] ++ (bss ≫= snd)). split.
  - apply writes_then; [by apply writes_words|]. rewrite <- E. apply each_writes. intros xb Hin. by apply Hb.
  - unfold cond_read_list. eapply reads_ok_bind; [by apply reads_ok_words|intros ? ->]. rewrite i32_word by lia.
    eapply (reads_ok_bind_nil _ _ _ (λ t, t = mod_ctab ctab)).
    { apply reads_ok_of, reads_or_fail; [done|]. apply reads_lift. intros h. cbn [te_avtab te_cond_avtab with_conds]. rewrite Hnel. apply wp_ret. split; [by apply mem_step_refl|done]. }
    intros ? ->. rewrite <- E. apply (reads_ok_times bss _ _ snd (λ l1 s, s = (mod_ctab ctab, mod_cond_kept p <$> l1.*1))); [by rewrite length_fmap|done|].
    intros xb l1 l2 s1 El ->. destruct (Hb xb) as [_ Hr]; [rewrite El; apply elem_of_app; right; by left|].
    eapply reads_ok_bind_nil; [by apply reads_ok_of, reads_new|intros _ _].
    eapply reads_ok_bind_last; [apply reads_ok_or_fail; [done|exact Hr]|intros ? ->]. apply reads_ok_ret. by rewrite !fmap_app.
Qed.

(** *** Tables of symbols *)

(** a table that can be written; all of it, for a declaration *)
Record table_storable p tc {D} `{SymbolIOLaws p tc D} (s : symtab D) : Prop := {
  sb_table : ∃ t, table s = Some t ∧ hashtab_wf t ∧ Z.of_nat (length (entries t)) < 2 ^ 32 ∧
    ∀ k d, (k, d) ∈ entries t → sym_storable p tc k d;
  sb_nprim : word (nprim s)
}.
Definition unskipped p tc {D} `{SymbolIOLaws p tc D} (s : symtab D) : Prop :=
  ∀ t k d, table s = Some t → (k, d) ∈ entries t → sym_skipped p tc d = false.
(** what is read of a table, into one of [sz] slots with the map [m0] *)
Definition symtab_back p tc (sz : Z) {D} `{SymbolIOLaws p tc D} (m0 : gmap string D) (s s' : symtab D) : Prop :=
  nprim s' = nprim s ∧ ∃ t, table s = Some t ∧ holds sz (table s') (map_kept p tc (hashtab_map_of t) ∪ m0).

Lemma symtab_trip p tc sz {D} `{SymbolIOLaws p tc D} (s s0 : symtab D) m0 :
  table_storable p tc s → holds sz (table s0) m0 →
  (∀ t k d, table s = Some t → (k, d) ∈ entries t → sym_skipped p tc d = false → sym_reserved p tc k = false → m0 !! k = None) →
  trip_ok (symtab_write p tc s) (symtab_read p tc s0) (symtab_back p tc sz m0 s).
Proof.
  intros [(t&Ht&Hw&Hl&Hst) Hn] Hs0 Hfresh.
  eapply trip_ok_mono; [apply trip_of, (symtab_round_trip p tc s t s0 sz m0 Ht Hw Hn Hl Hst Hs0); intros; by eapply Hfresh|].
  intros s' [E Hs']. split; [done|]. by exists t.
Qed.
Lemma decl_symtab_trip p tc sz {D} `{SymbolIOLaws p tc D} (s : symtab D) :
  table_storable p tc s → unskipped p tc s → 0 < sz < 2 ^ 31 →
  trip_ok (decl_symtab_write p tc s) (symtab_read p tc (fresh_symtab sz)) (symtab_back p tc sz ∅ s).
Proof.
  intros Hst Hun Hsz. destruct (symtab_trip p tc sz s (fresh_symtab sz) ∅ Hst) as (bs&Hw&Hr); [by apply fresh_holds|done|].
  exists bs. split; [|exact Hr]. destruct Hst as [(t&Ht&Hwf&Hl&_) _].
  intros out room h Hroom. rewrite <- (Hw out room h Hroom). unfold decl_symtab_write, symtab_write. rewrite Ht.
  unfold mbind, CM_bind. rewrite sym_counts by done.
  assert (filter (λ kd, sym_skipped p tc kd.2 = false) (entries t) = entries t) as ->; [|by rewrite <- (proj2 Hwf)].
  assert (Hall : ∀ kd, kd ∈ entries t → sym_skipped p tc kd.2 = false) by (intros [k d] Hin; by eapply Hun).
  clear -Hall. induction (entries t) as [|kd l IH]; [done|]. rewrite filter_cons, decide_True by (apply Hall; by left).
  f_equal. apply IH. intros x Hx. apply Hall. by right.
Qed.

(** the eight tables *)
Definition symtabs_storable p tc (st : symtabs) : Prop :=
  table_storable p tc (st_commons st) ∧ table_storable p tc (st_classes st) ∧ table_storable p tc (st_roles st) ∧
  table_storable p tc (st_types st) ∧ table_storable p tc (st_users st) ∧ table_storable p tc (st_bools st) ∧
  table_storable p tc (st_levels st) ∧ table_storable p tc (st_cats st).
Definition symtabs_unskipped p tc (st : symtabs) : Prop := unskipped p tc (st_roles st) ∧ unskipped p tc (st_types st).
Definition symtabs_back p tc (sizes : list Z) (roles0 : gmap string role_datum) (st st' : symtabs) : Prop :=
  symtab_back p tc (size_at sizes SYM_COMMONS) ∅ (st_commons st) (st_commons st') ∧
  symtab_back p tc (size_at sizes SYM_CLASSES) ∅ (st_classes st) (st_classes st') ∧
  symtab_back p tc (size_at sizes SYM_ROLES) roles0 (st_roles st) (st_roles st') ∧
  symtab_back p tc (size_at sizes SYM_TYPES) ∅ (st_types st) (st_types st') ∧
  symtab_back p tc (size_at sizes SYM_USERS) ∅ (st_users st) (st_users st') ∧
  symtab_back p tc (size_at sizes SYM_BOOLS) ∅ (st_bools st) (st_bools st') ∧
  symtab_back p tc (size_at sizes SYM_LEVELS) ∅ (st_levels st) (st_levels st') ∧
  symtab_back p tc (size_at sizes SYM_CATS) ∅ (st_cats st) (st_cats st').
Lemma decl_symtabs_trip p tc (st : symtabs) :
  symtabs_storable p tc st → symtabs_unskipped p tc st →
  trip_ok (decl_symtabs_write SYM_NUM p st) (symtabs_read SYM_NUM p (λ _, tc) (fresh_symtabs decl_symtab_sizes))
    (symtabs_back p tc decl_symtab_sizes ∅ st).
Proof.
  intros (H1&H2&H3&H4&H5&H6&H7&H8) (U3&U4).
  destruct (decl_symtab_trip p tc 2 _ H1) as (b1&W1&R1); [done|done|]. destruct (decl_symtab_trip p tc 4 _ H2) as (b2&W2&R2); [done|done|].
  destruct (decl_symtab_trip p tc 8 _ H3) as (b3&W3&R3); [done|done|]. destruct (decl_symtab_trip p tc 32 _ H4) as (b4&W4&R4); [done|done|].
  destruct (decl_symtab_trip p tc 16 _ H5) as (b5&W5&R5); [done|done|]. destruct (decl_symtab_trip p tc 4 _ H6) as (b6&W6&R6); [done|done|].
  destruct (decl_symtab_trip p tc 2 _ H7) as (b7&W7&R7); [done|done|]. destruct (decl_symtab_trip p tc 2 _ H8) as (b8&W8&R8); [done|done|].
  exists (b1 ++ b2 ++ b3 ++ b4 ++ b5 ++ b6 ++ b7 ++ b8). split.
  - exact (writes_then _ _ _ _ W1 (writes_then _ _ _ _ W2 (writes_then _ _ _ _ W3 (writes_then _ _ _ _ W4
      (writes_then _ _ _ _ W5 (writes_then _ _ _ _ W6 (writes_then _ _ _ _ W7 W8))))))).
  - unfold symtabs_read, table_round.
    eapply reads_ok_bind; [exact R1|intros x1 B1]. eapply reads_ok_bind; [exact R2|intros x2 B2].
    eapply reads_ok_bind; [exact R3|intros x3 B3]. eapply reads_ok_bind; [exact R4|intros x4 B4].
    eapply reads_ok_bind; [exact R5|intros x5 B5]. eapply reads_ok_bind; [exact R6|intros x6 B6].
    eapply reads_ok_bind; [exact R7|intros x7 B7]. eapply reads_ok_bind_last; [exact R8|intros x8 B8].
    apply reads_ok_ret. exact (conj B1 (conj B2 (conj B3 (conj B4 (conj B5 (conj B6 (conj B7 B8))))))).

Qed.

(** *** Declarations and blocks *)

Definition has_filename_rules p : bool := MOD_POLICYDB_VERSION_FILENAME_TRANS <=? policyvers p.
Definition has_range_rules p : bool := MOD_POLICYDB_VERSION_RANGETRANS <=? policyvers p.
Record decl_storable p tc (d : avrule_decl) : Prop := {
  ds_words : word (decl_id d) ∧ word (decl_enabled d);
  ds_conds : Z.of_nat (length (decl_cond_list d)) < 2 ^ 31 ∧ Forall (mod_cond_storable p) (decl_cond_list d);
  ds_avrules : word (length (decl_avrules d)) ∧ Forall avrule_storable (decl_avrules d);
  ds_role_trans : word (length (role_tr_rules d)) ∧ Forall role_trans_rule_storable (role_tr_rules d);
  ds_role_allow : word (length (role_allow_rules d)) ∧ Forall role_allow_rule_storable (role_allow_rules d);
  ds_filename : word (length (filename_trans_rules d)) ∧ Forall filename_trans_rule_storable (filename_trans_rules d);
  ds_range : word (length (range_tr_rules d)) ∧ Forall range_trans_rule_storable (range_tr_rules d);
  ds_scopes : scope_index_storable (decl_required d) ∧ scope_index_storable (decl_declared d);
  ds_symtabs : symtabs_storable p tc (decl_symtab d) ∧ symtabs_unskipped p tc (decl_symtab d)
}.
(** what is left of a declaration in a file *)
Record decl_back p tc (d d' : avrule_decl) : Prop := {
  db_words : decl_id d' = decl_id d ∧ decl_enabled d' = decl_enabled d;
  db_conds : decl_cond_list d' = mod_cond_kept p <$> decl_cond_list d;
  db_avrules : decl_avrules d' = avrule_kept <$> decl_avrules d;
  db_role_trans : role_tr_rules d' = role_trans_rule_kept p <$> filter (λ tr, rule_written p tr = true) (role_tr_rules d);
  db_role_allow : role_allow_rules d' = role_allow_rules d;
  db_filename : filename_trans_rules d' = if has_filename_rules p then filename_trans_rules d else [];
  db_range : range_tr_rules d' = if has_range_rules p then range_trans_rule_kept <$> range_tr_rules d else [];
  db_scopes : decl_required d' = decl_required d ∧ decl_declared d' = decl_declared d;
  db_symtabs : symtabs_back p tc decl_symtab_sizes ∅ (decl_symtab d) (decl_symtab d')
}.
Lemma optional_trip (b : bool) {A} (w : Writer) (r : Reader A) (x y : A) :
  trip_ok w r (λ z, z = x) → trip_ok (if b then w else done) (if b then r else mret y) (λ z, z = if b then x else y).
Proof. intros Hw. destruct b; [done|]. exists []. split; [apply writes_done|by apply reads_ok_ret]. Qed.
Lemma avrule_decl_trip junk p tc (d : avrule_decl) :
  policy_type p ≠ POLICY_KERN → av_nel (te_avtab p) = 0 → decl_storable p tc d →
  ∃ bs, writes (avrule_decl_write d SYM_NUM p) bs ∧ ∀ ctab,
    reads_ok (avrule_decl_read junk p tc SYM_NUM ctab (fresh_decl 0)) bs (λ '(ctab', d'), ctab' = mod_ctab ctab ∧ decl_back p tc d d').
Proof.
  intros Hp Hnel [[Hw1 Hw2] [Hcl Hc] [Hal Ha] [Hrl Hr] [Hol Ho] [Hfl Hf] [Hgl Hg] [Hx Hy] [Hst Hun]].
  destruct (mod_conds_trip junk p empty_avtab _ Hp Hnel Hcl Hc) as (b1&W1&_).
  assert (R1 : ∀ ctab, reads_ok (cond_read_list junk (with_conds p ctab (cond_list p))) b1 (λ r, r = (mod_ctab ctab, mod_cond_kept p <$> decl_cond_list d))).
  { intros ctab. destruct (mod_conds_trip junk p ctab _ Hp Hnel Hcl Hc) as (b&W&R). by rewrite (writes_unique _ _ _ W1 W). }
  destruct (trip_of _ _ _ (avrules_round_trip _ Hal Ha)) as (b2&W2&R2).
  destruct (role_trans_rules_trip p _ Hrl Hr) as (b3&W3&R3). destruct (role_allow_rules_trip _ Hol Ho) as (b4&W4&R4).
  destruct (optional_trip (has_filename_rules p) (filename_trans_rule_write (filename_trans_rules d)) (or_fail (-1) filename_trans_rule_read) (filename_trans_rules d) []) as (b5&W5&R5).
  { destruct (filename_trans_rules_trip _ Hfl Hf) as (b&W&R). exists b. split; [exact W|]. by apply reads_ok_or_fail. }
  destruct (optional_trip (has_range_rules p) (range_trans_rule_write (range_tr_rules d)) range_trans_rule_read (range_trans_rule_kept <$> range_tr_rules d) []) as (b6&W6&R6).
  { by apply range_trans_rules_trip. }
  destruct (scope_index_trip _ no_scope_index Hx eq_refl) as (b7&W7&R7). destruct (scope_index_trip _ no_scope_index Hy eq_refl) as (b8&W8&R8).
  destruct (decl_symtabs_trip p tc _ Hst Hun) as (b9&W9&R9).
  exists (cpu_to_le 4 [decl_id d; decl_enabled d] ++ b1 ++ b2 ++ b3 ++ b4 ++ b5 ++ b6 ++ b7 ++ b8 ++ b9). split.
  - exact (writes_then _ _ _ _ (writes_words [decl_id d; decl_enabled d] eq_refl) (writes_then _ _ _ _ W1 (writes_then _ _ _ _ W2 (writes_then _ _ _ _ W3
      (writes_then _ _ _ _ W4 (writes_then _ _ _ _ W5 (writes_then _ _ _ _ W6 (writes_then _ _ _ _ W7 (writes_then _ _ _ _ W8 W9))))))))).
  - intros ctab. unfold avrule_decl_read. eapply reads_ok_bind; [by apply reads_ok_words|intros ? ->].
    eapply reads_ok_bind; [exact (R1 ctab)|intros ? ->]. cbv beta iota.
    eapply reads_ok_bind; [exact R2|intros ? ->]. eapply reads_ok_bind; [exact R3|intros ? ->]. eapply reads_ok_bind; [exact R4|intros ? ->].
    eapply reads_ok_bind; [exact R5|intros ? ->]. eapply reads_ok_bind; [exact R6|intros ? ->]. eapply reads_ok_bind; [exact R7|intros ? ->].
    eapply reads_ok_bind; [exact R8|intros ? ->]. eapply reads_ok_bind_last; [exact R9|intros x9 B9].
    apply reads_ok_ret. rewrite (le_word _ 0 (decl_id d)), (le_word _ 1 (decl_enabled d)) by done. split; [done|]. by split.
Qed.

(** the position of the enabled declaration; the reader refuses two *)
Fixpoint enabled_at (l : list avrule_decl) (i : nat) : option nat :=
  match l with
  | [] => None
  | d :: l => if truth (decl_enabled d) then Some i else enabled_at l (S i)
  end.
Definition one_enabled (l : list avrule_decl) : Prop :=
  ∀ l1 d l2, l = l1 ++ d :: l2 → truth (decl_enabled d) = true → enabled_at l1 0 = None.
Lemma enabled_at_snoc l d i :
  enabled_at (l ++ [d]) i = match enabled_at l i with
    | Some j => Some j | None => if truth (decl_enabled d) then Some (i + length l)%nat else None end.
Proof.
  revert i. induction l as [|x l IH]; intros i; cbn; [by rewrite Nat.add_0_r|]. destruct (truth (decl_enabled x)); [done|].
  rewrite IH. by rewrite Nat.add_succ_r.
Qed.
Definition block_storable p tc (b : avrule_block) : Prop :=
  word (length (branch_list b)) ∧ Forall (decl_storable p tc) (branch_list b) ∧ one_enabled (branch_list b).
Definition block_back p tc (first : bool) (b b' : avrule_block) : Prop :=
  Forall2 (decl_back p tc) (branch_list b) (branch_list b') ∧ blk_enabled b' = enabled_at (branch_list b) 0 ∧
  blk_flags b' = if first then 0 else AVRULE_OPTIONAL.

Lemma new_decl_reads : reads_ok new_decl [] (λ x, x = fresh_decl 0).
Proof.
  intros rest h Ho. unfold new_decl. apply wp_bind. unfold total. apply wp_bind. eapply wp_mono; [apply avrule_decl_create_wp|].
  intros r h1 [M _]. destruct (M Ho) as [Ho1 ->]. do 2 apply wp_ret. split; [|done]. intros _. split; [done|by eexists].
Qed.
Lemma avrule_block_trip junk p tc blocks (b : avrule_block) :
  policy_type p ≠ POLICY_KERN → av_nel (te_avtab p) = 0 → block_storable p tc b →
  let H := av_htable (te_cond_avtab p) in
  ∃ bs, writes (put_words [Z.of_nat (length (branch_list b))];;; write_each (λ decl, avrule_decl_write decl SYM_NUM p) (branch_list b)) bs ∧
    ∀ ctab l, av_htable ctab = H → (l = [] ↔ blocks = true) →
    reads_ok (read_block junk p tc SYM_NUM (ctab, l)) bs
      (λ '(ctab', l'), av_htable ctab' = H ∧ ∃ b', l' = l ++ [b'] ∧ block_back p tc blocks b b').
Proof.
  intros Hp Hnel (Hl&Hs&Hone) Ht. rewrite Forall_forall in Hs.
  destruct (choose_bytes (λ d bs, writes (avrule_decl_write d SYM_NUM p) bs ∧ ∀ ctab,
    reads_ok (avrule_decl_read junk p tc SYM_NUM ctab (fresh_decl 0)) bs (λ '(ctab', d'), ctab' = mod_ctab ctab ∧ decl_back p tc d d'))
    (branch_list b)) as (bss&E&Hb); [intros d Hd; by apply avrule_decl_trip; [..|apply Hs]|].
  exists (cpu_to_le 4 [Z.of_nat (length (branch_list b))] ++ (bss ≫= snd)). split.
  { apply writes_then; [by apply writes_words|]. rewrite <- E. apply each_writes. intros xb Hin. by apply Hb. }
  intros ctab l Hc Hfirst. unfold read_block. eapply reads_ok_bind_nil; [by apply reads_ok_of, reads_new|intros _ _].
  eapply reads_ok_bind; [by apply reads_ok_words|intros ? ->]. rewrite (le_word _ 0 (length (branch_list b))) by done.
  set (flags := match l with [] => 0 | _ => AVRULE_OPTIONAL end).
  eapply (reads_ok_bind_last _ _ _ (λ '(ctab', b'), av_htable ctab' = Ht ∧ Forall2 (decl_back p tc) (branch_list b) (branch_list b') ∧
    blk_enabled b' = enabled_at (branch_list b) 0 ∧ blk_flags b' = flags)); cycle 1.
  { intros [ctab' b'] (Hc'&Hd&He&Hf). apply reads_ok_ret. split; [done|]. exists b'. split; [done|]. split; [done|]. split; [done|].
    rewrite Hf. unfold flags. destruct l, blocks; naive_solver. }
  rewrite <- E. apply (reads_ok_times bss _ _ snd (λ l1 '(ctab', b'), av_htable ctab' = Ht ∧ Forall2 (decl_back p tc) l1.*1 (branch_list b') ∧
    blk_enabled b' = enabled_at l1.*1 0 ∧ blk_flags b' = flags)); [by rewrite length_fmap|done|].
  intros [d bs] l1 l2 [ctab' b'] El (Hc'&Hd&He&Hf). destruct (Hb (d, bs)) as [_ Hr]; [rewrite El; apply elem_of_app; right; by left|].
  assert (Hen : truth (decl_enabled d) = true → enabled_at l1.*1 0 = None).
  { apply (Hone l1.*1 d l2.*1). by rewrite <- E, El, fmap_app. }
  unfold read_decl. eapply (reads_ok_bind_nil _ _ _ (λ x, x = fresh_decl 0)).
  { apply new_decl_reads. }
  intros ? ->. eapply reads_ok_bind_last; [apply Hr|]. intros [ctab2 d'] [-> Hd']. destruct (db_words _ _ _ _ Hd') as [_ Een]. rewrite Een. cbn [fst snd] in *.
  assert (Hd2 : Forall2 (decl_back p tc) (l1 ++ [(d, bs)]).*1 (branch_list b' ++ [d'])) by (rewrite fmap_app; by apply Forall2_app; [|constructor]).
  assert (Hlen : length (branch_list b') = length l1) by (rewrite <- (Forall2_length _ _ _ Hd), length_fmap; done).
  rewrite fmap_app in Hd2 |- *. cbn [fmap list_fmap]. rewrite enabled_at_snoc.
  destruct (truth (decl_enabled d)) eqn:Et.
  - rewrite Hen in He |- * by done. rewrite He. apply reads_ok_ret. split_and!; [done|done| |done].
    cbn [blk_enabled fst]. by rewrite Et, Hlen, length_fmap.
  - apply reads_ok_ret. split_and!; [done|done| |done]. cbn [blk_enabled fst]. rewrite He, Et. by destruct (enabled_at l1.*1 0).
Qed.
(** all blocks; the first is not optional *)
Definition blocks_back p tc (l l' : list avrule_block) : Prop :=
  match l, l' with
  | [], [] => True
  | b :: r, b' :: r' => block_back p tc true b b' ∧ Forall2 (block_back p tc false) r r'
  | _, _ => False
  end.
Lemma blocks_back_snoc p tc l l' b b' :
  blocks_back p tc l l' → block_back p tc (bool_decide (l = [])) b b' → blocks_back p tc (l ++ [b]) (l' ++ [b']).
Proof.
  destruct l as [|x l], l' as [|x' l']; try done. intros [Hx Hl] Hb. split; [done|]. apply Forall2_app; [done|]. by constructor.
Qed.
Lemma avrule_blocks_trip junk p tc (l : list avrule_block) :
  policy_type p ≠ POLICY_KERN → av_nel (te_avtab p) = 0 → word (length l) → Forall (block_storable p tc) l →
  trip_ok (avrule_block_write l SYM_NUM p) (avrule_block_read junk p tc SYM_NUM)
    (λ '(ctab', l'), av_htable ctab' = av_htable (te_cond_avtab p) ∧ blocks_back p tc l l').
Proof.
  intros Hp Hnel Hl Hs. rewrite Forall_forall in Hs. unfold avrule_block_write, avrule_block_read.
  set (Q := λ (l1 : list avrule_block) '((ctab', l') : avtab * list avrule_block),
    av_htable ctab' = av_htable (te_cond_avtab p) ∧ blocks_back p tc l1 l').
  eapply trip_ok_mono; [apply (trip_times _ _ l _ Q Hl); [done|]|by intros [ctab' l'] HQ].
  intros b Hb. assert (Hboth : ∀ first, ∃ bs, _) by exact (λ first, avrule_block_trip junk p tc first b Hp Hnel (Hs b Hb)).
  destruct (Hboth true) as (b1&W1&R1), (Hboth false) as (b2&W2&R2). rewrite <- (writes_unique _ _ _ W1 W2) in R2.
  exists b1. split; [exact W1|]. intros l1 l2 [ctab l'] El [Hc Hbl].
  destruct l1 as [|x1 l1], l' as [|x' l']; try done.
  - eapply reads_ok_mono; [by apply R1|]. intros [ctab' r] (Hc'&b'&->&Hb'). split; [done|]. by apply (blocks_back_snoc p tc [] []).
  - eapply reads_ok_mono; [by apply R2|]. intros [ctab' r] (Hc'&b'&->&Hb'). split; [done|]. by apply blocks_back_snoc.
Qed.

(** *** Scopes of symbols *)

(** writing with memory *)
Definition writes_ok (w : Writer) bs : Prop := ∀ out room h, length bs ≤ room → mem_ok h →
  wp (w (mem_output out room)) (λ r h', r = (0, mem_output (out ++ bs) (room - length bs)) ∧ mem_ok h') h.
Lemma writes_ok_of w bs : writes w bs → writes_ok w bs.
Proof. intros Hw out room h Hr Ho. unfold wp. by rewrite (Hw out room h Hr). Qed.
Lemma writes_ok_then w1 w2 b1 b2 : writes_ok w1 b1 → writes_ok w2 b2 → writes_ok (w1;;; w2) (b1 ++ b2).
Proof.
  intros H1 H2 out room h Hr Ho. rewrite length_app in Hr. unfold then_write. apply wp_bind.
  eapply wp_mono; [apply H1; [lia|done]|]. intros r h1 [-> Ho1]. eapply wp_mono; [apply H2; [lia|done]|].
  intros r h2 [-> Ho2]. split; [|done]. rewrite <- app_assoc, length_app. do 2 f_equal. lia.
Qed.
Lemma map_writes_ok {D} (t : hashtab string D) (w : string → D → Writer) (f : string → D → list byte) :
  (∀ k d, (k, d) ∈ entries t → writes_ok (w k d) (f k d)) → writes_ok (hashtab_map (Some t) w) (entries t ≫= λ kd, f kd.1 kd.2).
Proof.
  intros Hw out room h Hr Ho. set (put l := mem_output (out ++ (l ≫= λ kd, f kd.1 kd.2)) (room - length (l ≫= λ kd, f kd.1 kd.2))).
  apply (hashtab_map_wp _ _ (λ l1 fp h', mem_ok h' ∧ fp = put l1));
    [split; [done|unfold put; cbn; by rewrite app_nil_r, Z.sub_0_r]| |by intros args h' [? ->]].
  intros k d l1 l2 fp h' Hl [Ho' ->]. change (entries t = l1 ++ (k, d) :: l2) in Hl.
  rewrite Hl, bind_app, length_app in Hr. cbn [mbind list_bind fst snd] in Hr. rewrite length_app in Hr.
  eapply wp_mono; [apply (Hw k d); [rewrite Hl; apply elem_of_app; right; by left|unfold mbind in *; lia|done]|].
  intros r h2 [-> Ho2]. cbn [truth]. split; [done|]. unfold put. rewrite bind_app, <- app_assoc. cbn [mbind list_bind fst snd].
  rewrite app_nil_r, !length_app. f_equal. lia.
Qed.

Section scopes.
Context {D : Type} (symnum : nat) (symbols : hashtab string D) (Hsym : hashtab_ok symbols).
Implicit Types (d : scope_datum).

(** the symbol is there; it has declarations, not too many for memory *)
Record scope_storable (k : string) d : Prop := {
  sp_key : key_storable k;
  sp_symbol : is_Some (hashtab_map_of symbols !! k);
  sp_ids : decl_ids d ≠ [] ∧ decl_ids_len d = Z.of_nat (length (decl_ids d)) ∧ decl_ids_len d < 2 ^ 30 - 2;
  sp_words : word (scope d) ∧ Forall word (decl_ids d)
}.
Definition scope_bytes (k : string) d : list byte :=
  cpu_to_le 4 [strlen_of k] ++ String.list_byte_of_string k ++ cpu_to_le 4 ([scope d; decl_ids_len d] ++ decl_ids d).
Definition scope_reserved (k : string) : bool := String.eqb k OBJECT_R && Nat.eqb symnum SYM_ROLES.

Lemma szt_words n : 0 ≤ n < 2 ^ 30 → szt (4 * n) = 4 * n.
Proof.
  intros Hn. pose proof size_t_ge. apply wrap_id. split; [lia|]. apply Z.lt_le_trans with (2 ^ 32); [lia|]. by apply Z.pow_le_mono_r.
Qed.
Lemma ids_back (l : list Z) : Forall word l → le_to_cpu 4 (cpu_to_le 4 l) <$> seq 0 (length l) = l.
Proof. intros Hl. transitivity (words_at (cpu_to_le 4 l) 0 (length l)); [done|]. rewrite words_at_le by done. by rewrite drop_0, firstn_all. Qed.
(** what is written, without the buffer *)
Definition scope_put (k : string) d : Writer := put_words [strlen_of k];;; put_name k;;; put_words ([scope d; decl_ids_len d] ++ decl_ids d).
Lemma scope_put_writes k d : scope_storable k d → writes (scope_put k d) (scope_bytes k d).
Proof.
  intros [Hk _ (_&El&Hl) _]. apply writes_then; [by apply writes_words|]. apply writes_then; [by apply key_writes|].
  apply writes_words. rewrite length_app. cbn [length]. lia.
Qed.
Lemma scope_write_ok k d : scope_storable k d → writes_ok (scope_write k d) (scope_bytes k d).
Proof.
  intros Hst out room h Hr Ho. pose proof (scope_put_writes k d Hst) as Hw. destruct Hst as [_ _ (_&El&Hl) _].
  assert (Hi : u32 (2 + decl_ids_len d) = 2 + decl_ids_len d) by (apply wrap_id; lia).
  unfold scope_write. rewrite Hi. apply wp_bind.
  assert (Hrest : ∀ h, mem_ok h → wp (if (if 32 <=? 2 + decl_ids_len d then szt (4 * (2 + decl_ids_len d)) else 128) <? 4 * (2 + decl_ids_len d) then undefined else
      if negb (decl_ids_len d =? length (decl_ids d)) then undefined else scope_put k d (mem_output out room))
    (λ r h', r = (0, mem_output (out ++ scope_bytes k d) (room - length (scope_bytes k d))) ∧ mem_ok h') h).
  { intros h1 Ho1. rewrite El, Z.eqb_refl. cbn [negb]. rewrite szt_words by lia.
    assert ((if 32 <=? 2 + Z.of_nat (length (decl_ids d)) then 4 * (2 + Z.of_nat (length (decl_ids d))) else 128) <? 4 * (2 + Z.of_nat (length (decl_ids d))) = false) as ->.
    { destruct (Z.leb_spec 32 (2 + Z.of_nat (length (decl_ids d)))); [by apply Z.ltb_irrefl|apply Z.ltb_ge; lia]. }
    by apply writes_ok_of. }
  destruct (32 <=? 2 + decl_ids_len d) eqn:E32; [|by apply wp_ret, Hrest].
  apply wp_malloc_ok; [done|]. intros a h1 Ho1. by apply Hrest.
Qed.
Lemma scope_found k : is_Some (hashtab_map_of symbols !! k) →
  reads (total (hashtab_search (Some symbols) k)) [] is_Some.
Proof.
  intros Hk rest h. apply wp_bind. eapply wp_mono; [by apply hashtab_search_wp|]. intros r h' [-> ->]. apply wp_ret.
  split; [|done]. intros Ho. split; [done|by eexists].
Qed.
Lemma scope_reads sz (t : table_of scope_datum) m k d :
  scope_storable k d → holds sz t m → (scope_reserved k = false → m !! k = None) →
  reads (scope_read symnum (Some symbols) t) (scope_bytes k d) (λ t', holds sz t' (if scope_reserved k then m else <[k := d]> m)).
Proof.
  intros [Hk Hin (Hne&El&Hl) [Hs Hw]] Ht Hm. pose proof (key_word _ Hk) as Hkw. unfold scope_read, scope_bytes, cpu_to_le.
  rewrite bind_app. fold (cpu_to_le 4 [strlen_of k]) (cpu_to_le 4 [scope d; decl_ids_len d]) (cpu_to_le 4 (decl_ids d)).
  assert (Hlw : word (decl_ids_len d)) by (unfold word; lia).
  eapply reads_bind; [by apply reads_words|intros ? ->]. rewrite (le_word _ 0 (strlen_of k)) by done.
  eapply reads_bind; [by apply key_reads|intros ? ->].
  eapply reads_bind_nil; [by apply scope_found|intros found [b ->]].
  eapply reads_bind_nil; [by apply reads_new|intros _ _].
  eapply reads_bind; [by apply reads_words|intros ? ->]. cbv zeta. rewrite (le_word _ 0 (scope d)), (le_word _ 1 (decl_ids_len d)) by done.
  rewrite (proj2 (Z.eqb_neq _ _)) by (destruct (decl_ids d); cbn in *; [done|lia]).
  eapply (reads_bind_last _ _ _ (λ l, l = decl_ids d)).
  { unfold read_decl_ids. eapply reads_bind_nil; [by apply reads_new|intros _ _]. rewrite szt_words by lia. rewrite Z.ltb_irrefl.
    eapply reads_bind_last; [apply reads_words; lia|intros ? ->]. apply reads_ret. rewrite El, Nat2Z.id. by apply ids_back. }
  intros ? ->. fold (scope_reserved k). destruct d as [sc ids len]. cbn [scope decl_ids decl_ids_len] in *.
  destruct (scope_reserved k); [by apply reads_ret|]. by apply insert_reads; [|apply Hm].
Qed.
(** scopes as a kind of symbol *)
#[local] Instance scope_io p commons : SymbolIO p commons scope_datum := {|
  sym_read := scope_read symnum (Some symbols); sym_write := scope_put; sym_count := count_all |}.
#[local] Instance scope_laws p commons : SymbolIOLaws p commons scope_datum := {|
  sym_bytes := scope_bytes; sym_storable := scope_storable; sym_skipped _ := false; sym_reserved := scope_reserved; sym_kept d := d;
  sym_writes := scope_put_writes;
  sym_reads sz t m k d Hst _ Ht Hm := scope_reads sz t m k d Hst Ht Hm;
  sym_counts := count_all_eq |}.

Record scopes_storable (s : symtab scope_datum) (t : hashtab string scope_datum) : Prop := {
  ss_table : table s = Some t;
  ss_wf : hashtab_wf t;
  ss_length : Z.of_nat (length (entries t)) < 2 ^ 32;
  ss_entries k d : (k, d) ∈ entries t → scope_storable k d
}.
(** the scopes are added to a table with other keys, the scope of [object_r] is
    left as it is there *)
Lemma scopes_trip s t s0 sz m0 :
  scopes_storable s t → holds sz (table s0) m0 → (∀ k d, (k, d) ∈ entries t → scope_reserved k = false → m0 !! k = None) →
  ∃ bs, writes_ok (scopes_write s) bs ∧ reads (scopes_read symnum (Some symbols) s0) bs
    (λ s', nprim s' = nprim s0 ∧ holds sz (table s') (filter (λ kd, scope_reserved kd.1 = false) (hashtab_map_of t) ∪ m0)).
Proof.
  intros [Et Hwf Hl Hst] H0 Hfresh. destruct Hwf as [Hok Hn].
  unfold u32 in Hn. rewrite wrap_id in Hn by lia. assert (Hw : word (nel t)) by (rewrite Hn; unfold word; lia).
  exists (cpu_to_le 4 [nel t] ++ (entries t ≫= λ kd, scope_bytes kd.1 kd.2) ++ []). split.
  - unfold scopes_write. rewrite Et. apply writes_ok_then; [apply writes_ok_of; by apply writes_words|].
    apply writes_ok_then; [|apply writes_ok_of, writes_done]. apply map_writes_ok. intros k d Hin. by apply scope_write_ok, Hst.
  - rewrite app_nil_r. unfold scopes_read. eapply reads_bind; [by apply reads_words|intros ? ->]. rewrite (le_word _ 0 (nel t)) by done.
    eapply reads_bind_last.
    + pose proof (entries_read empty_policydb None sz (table s0) m0 (entries t) (nel t)) as Hr. cbn [sym_skipped sym_bytes sym_read scope_laws scope_io] in Hr.
      rewrite written_all in Hr. apply Hr; [done|by apply entries_NoDup|exact Hst|exact H0|intros; by eapply Hfresh].
    + intros u Hu. apply reads_ret. split; [done|]. cbn [table].
      pose proof (kept_map_of empty_policydb None t Hok) as Hk. cbn [sym_skipped scope_laws] in Hk. rewrite written_all in Hk. rewrite Hk in Hu.
      assert (map_kept empty_policydb None (hashtab_map_of t) = filter (λ kd, scope_reserved kd.1 = false) (hashtab_map_of t)) as <-; [|done].
      unfold map_kept. cbn [sym_kept scope_laws sym_skipped sym_reserved]. rewrite map_fmap_id. apply map_filter_ext. naive_solver.
Qed.
End scopes.
End theory.

(** ** Properties *)

(** C32: the blocks of a module that [avrule_block_write] writes are read back by
    [avrule_block_read] with their declarations in order: the same rules,
    required and declared symbols, conditionals and tables, less what the format
    does not hold; the enabled declaration of every block is found again, and all
    blocks but the first become optional. *)
Theorem blocks_roundtrip `{Target} junk p tc (l : list avrule_block) :
  policy_type p ≠ POLICY_KERN → av_nel (te_avtab p) = 0 → word (length l) → Forall (block_storable p tc) l →
  trip_ok (avrule_block_write l SYM_NUM p) (avrule_block_read junk p tc SYM_NUM)
    (λ '(ctab', l'), av_htable ctab' = av_htable (te_cond_avtab p) ∧ blocks_back p tc l l').
Proof. apply avrule_blocks_trip. Qed.

(** the scopes that the module writer writes, with a buffer of its own for
    many declarations, are read back into a table that has none of the keys; the
    scope of [object_r] stays what it was. *)
Theorem scopes_roundtrip `{Target} {D} symnum (symbols : hashtab string D) s t s0 sz m0 :
  hashtab_ok symbols → scopes_storable symbols s t → holds sz (table s0) m0 →
  (∀ k d, (k, d) ∈ entries t → scope_reserved symnum k = false → m0 !! k = None) →
  ∃ bs, writes_ok (scopes_write s) bs ∧ reads (scopes_read symnum (Some symbols) s0) bs
    (λ s', nprim s' = nprim s0 ∧ holds sz (table s') (filter (λ kd, scope_reserved symnum kd.1 = false) (hashtab_map_of t) ∪ m0)).
Proof. intros. by apply scopes_trip. Qed.

(** ** Examples *)

Module ExampleMod.
#[local] Existing Instance target_arm.
Definition policy : policydb := let p := empty_policydb in
  Policydb POLICY_BASE 17 0 (p_classes p) (p_roles p) (p_types p) (p_users p) (p_bools p) (p_levels p) (p_cats p)
    [] [] [] [] [] [] [] [] [] [] empty_avtab empty_avtab [] [] [] [] [] [] [] ebitmap_init [] (replicate OCON_NUM []) [].
Definition allow : role_allow_rule := RoleAllowRule (RoleSet ebitmap_init 0) (RoleSet process_only 0).
Definition file_rule : filename_trans_rule := FilenameTransRule (TypeSet process_only ebitmap_init 0) (TypeSet process_only ebitmap_init 0) 3 "log" 4.
Definition decl (id enabled : Z) : avrule_decl :=
  AvruleDecl id enabled [] [ExampleCond.rule] [] [allow] [] no_scope_index no_scope_index [file_rule] (fresh_symtabs decl_symtab_sizes) None.
Definition blocks : list avrule_block :=
  [AvruleBlock [decl 1 1] (Some 0%nat) 0; AvruleBlock [decl 2 0; decl 3 1] (Some 1%nat) AVRULE_OPTIONAL].

Lemma fresh_storable p tc {D} `{SymbolIOLaws p tc D} sz : 0 < sz < 2 ^ 31 → table_storable p tc (fresh_symtab (D := D) sz) ∧ unskipped p tc (fresh_symtab (D := D) sz).
Proof.
  intros Hsz. assert (He : entries (Hashtab (K := string) (D := D) (replicate (Z.to_nat sz) []) sz 0) = []).
  { unfold entries. cbn [htable]. by induction (Z.to_nat sz). }
  split; [|intros t k d [= <-] Hin; rewrite He in Hin; by apply elem_of_nil in Hin].
  split; [|done]. eexists. split; [done|]. split; [by apply hashtab_empty_wf|]. rewrite He. split; [done|]. by intros k d Hin%elem_of_nil.
Qed.
Lemma rule_ok : avrule_storable ExampleCond.rule.
Proof.
  split; [by split|]. split; [by split|]. split; [split; [apply ebitmap_init_wf|split; [apply ebitmap_init_wf|by split]]|].
  split; [split; [apply ebitmap_init_wf|split; [apply ebitmap_init_wf|by split]]|]. split; [by split|]. apply Forall_cons. split; [by repeat split|done].
Qed.
Lemma index_ok : scope_index_storable no_scope_index.
Proof. split; [done|split; [|by constructor]|done]. repeat (constructor; [apply ebitmap_init_wf|]). constructor. Qed.
Lemma log_storable : key_storable "log".
Proof. split; [by vm_compute|done]. Qed.
Lemma decl_ok id enabled : word id → word enabled → decl_storable policy None (decl id enabled).
Proof.
  intros Hi He. assert (Ht : type_set_storable (TypeSet process_only ebitmap_init 0)).
  { split; [apply process_only_wf|]. split; [apply ebitmap_init_wf|by split]. }
  split; cbn [decl decl_id decl_enabled decl_cond_list decl_avrules role_tr_rules role_allow_rules filename_trans_rules range_tr_rules decl_required decl_declared decl_symtab].
  - done.
  - split; [done|constructor].
  - split; [by split|]. constructor; [apply rule_ok|constructor].
  - split; [by split|constructor].
  - split; [by split|]. constructor; [|constructor]. split; (split; [apply ebitmap_init_wf || apply process_only_wf|by split]).
  - split; [by split|]. constructor; [|constructor]. split; [apply log_storable|]. split; [exact Ht|]. split; [exact Ht|]. by repeat split.
  - split; [by split|constructor].
  - split; apply index_ok.
  - split; [split_and!|split]; by apply fresh_storable.
Qed.
Lemma blocks_ok : Forall (block_storable policy None) blocks.
Proof.
  constructor; [|constructor; [|constructor]].
  - split; [by split|]. split; [constructor; [by apply decl_ok|constructor]|].
    intros l1 d l2 E _. destruct l1 as [|x l1]; [done|]. by destruct l1.
  - split; [by split|]. split; [constructor; [by apply decl_ok|constructor; [by apply decl_ok|constructor]]|].
    intros l1 d l2 E _. destruct l1 as [|x [|y l1]]; [done| |by destruct l1]. by injection E as <- _ _.
Qed.
End ExampleMod.

#[local] Existing Instance target_arm.
(** witness of C32 *)
Lemma blocks_roundtrip_witness :
  trip_ok (avrule_block_write ExampleMod.blocks SYM_NUM ExampleMod.policy) (avrule_block_read [] ExampleMod.policy None SYM_NUM)
    (λ '(ctab', l'), av_htable ctab' = None ∧ blocks_back ExampleMod.policy None ExampleMod.blocks l').
Proof. refine (blocks_roundtrip [] ExampleMod.policy None ExampleMod.blocks _ eq_refl _ ExampleMod.blocks_ok); done. Defined.

(** [scope_index_read] takes only the code -1 for an error, [ebitmap_read]
    answers -EINVAL for a bitmap that is malformed: the first words of a file that
    [get_ebitmap] refuses are read as an empty bitmap, and reading goes on in
    their middle.  [scope_read] trusts the count of declarations in the file: with
    0 an assertion fails, and where [size_t] has 32 bits a count of 2^30 + 1 makes
    it allocate 4 bytes and change 4 (2^30 + 1). *)
Theorem scopes_read_trusts_file :
  (∃ fp h, get_ebitmap (mem_input (cpu_to_le 4 [32; 64; 7; 0])) fresh_heap = Some ((inl (- EINVAL), fp), h)) ∧
  scope_index_read 1 no_scope_index (mem_input (cpu_to_le 4 [32; 64; 7; 0])) fresh_heap =
    Some ((inr no_scope_index, mem_input []), fresh_heap) ∧
  let file len := mem_input (cpu_to_le 4 [1] ++ String.list_byte_of_string "u" ++ cpu_to_le 4 [SCOPE_DECL; len; 1]) in
  let read file := scope_read SYM_USERS (Some ExampleScopes.users) (Some (ExampleScopes.scopes_of SCOPE_REQ)) file fresh_heap in
  read (file 0) = None ∧ read (file (2 ^ 30 + 1)) = None.
Proof. split; [do 2 eexists; by vm_compute|]. by vm_compute. Qed.

(** witness of [scopes_roundtrip]: 31 declarations do not fit into the buffer *)
Lemma scopes_roundtrip_witness :
  let scopes := Hashtab [[("u"%string, ScopeDatum SCOPE_DECL (replicate 31 1) 31)]] 1 1 in
  ∃ bs, writes_ok (scopes_write (Symtab (Some scopes) 0)) bs ∧
    reads (scopes_read SYM_USERS (Some ExampleScopes.users) (fresh_symtab 128)) bs
      (λ s', nprim s' = 0 ∧ holds 128 (table s') (filter (λ kd, scope_reserved SYM_USERS kd.1 = false) (hashtab_map_of scopes) ∪ ∅)).
Proof.
  refine (scopes_roundtrip SYM_USERS ExampleScopes.users (Symtab (Some _) 0) _ (fresh_symtab 128) 128 ∅ (proj1 (ExampleScopes.one_wf _)) _ (fresh_holds 128 _) _); [|done|done].
  split; [done|apply ExampleScopes.one_wf|done|]. intros k d Hin. unfold entries in Hin. cbn in Hin.
  apply list_elem_of_singleton in Hin as [= -> ->]. split; [split; [by vm_compute|done]|by eexists|done|]. split; [done|].
  by repeat constructor.
Defined.
