(* ===== verification/Index.v ===== *)
(** * The arrays of a database ([policydb.c], [conditional.c])

    Symbols have values; a database has, for each kind of symbol, an array of the
    names and for some kinds one of the data, in the places of the values.
    [policydb_index_classes], [policydb_index_others] and [policydb_index_decls]
    make these arrays from the tables of symbols; the second also computes for
    every role the bitmap of its types and for every user that of its roles. *)

From S2P Require Import Prelude PolicyFile Hashtab Ebitmap Symtab Tables Context Avtab Policydb Conditional Mls Constraint ExpandSets Readers SymbolsIO Scopes.

(** A field that has a null pointer or that was not initialised is [None].  An
    array of pointers to the data of a table is made as an array of their keys;
    [pointees] are the data, which the caches are computed in. *)
Definition names : Type := list (option string).
Definition pointees {D} (t : table_of D) (a : names) : list (option D) :=
  (λ k : option string, k ≫= λ k, table_map t !! k) <$> a.

(** ** Stores *)

Definition with_policy (db : database) (p : policydb) : database :=
  Database p (p_commons db) (p_scope db) (p_global db) (decl_val_to_struct db) (p_common_val_to_name db) (p_bool_val_to_name db)
    (policycaps db) (handle_unknown db) (target_platform db) (db_name db) (db_version db) (unsupported_format db).
Definition with_common_names (db : database) (n : names) : database :=
  Database (db_policy db) (p_commons db) (p_scope db) (p_global db) (decl_val_to_struct db) n (p_bool_val_to_name db)
    (policycaps db) (handle_unknown db) (target_platform db) (db_name db) (db_version db) (unsupported_format db).
Definition with_bool_names (db : database) (n : names) : database :=
  Database (db_policy db) (p_commons db) (p_scope db) (p_global db) (decl_val_to_struct db) (p_common_val_to_name db) n
    (policycaps db) (handle_unknown db) (target_platform db) (db_name db) (db_version db) (unsupported_format db).
Definition with_decls (db : database) (a : list (option avrule_decl)) : database :=
  Database (db_policy db) (p_commons db) (p_scope db) (p_global db) a (p_common_val_to_name db) (p_bool_val_to_name db)
    (policycaps db) (handle_unknown db) (target_platform db) (db_name db) (db_version db) (unsupported_format db).
Definition with_classes (p : policydb) (n : names) (s : list (option class_datum)) : policydb :=
  Policydb (policy_type p) (policyvers p) (mls p) (p_classes p) (p_roles p) (p_types p) (p_users p) (p_bools p)
    (p_levels p) (p_cats p) (p_sens_val_to_name p) (p_cat_val_to_name p) n
    (p_role_val_to_name p) (p_type_val_to_name p) (p_user_val_to_name p) s
    (role_val_to_struct p) (user_val_to_struct p) (type_val_to_struct p) (te_avtab p) (te_cond_avtab p)
    (bool_val_to_struct p) (cond_list p) (p_role_tr p) (p_filename_trans p) (p_role_allow p) (p_range_tr p)
    (type_attr_map p) (permissive_map p) (attr_type_map p) (ocontexts p) (p_genfs p).
Definition with_arrays (p : policydb) (roles types users bools : names * names) (sens cats : names) : policydb :=
  Policydb (policy_type p) (policyvers p) (mls p) (p_classes p) (p_roles p) (p_types p) (p_users p) (p_bools p)
    (p_levels p) (p_cats p) sens cats (p_class_val_to_name p) (fst roles) (fst types) (fst users) (class_val_to_struct p)
    (pointees (table (p_roles p)) (snd roles)) (pointees (table (p_users p)) (snd users)) (pointees (table (p_types p)) (snd types))
    (te_avtab p) (te_cond_avtab p) (pointees (table (p_bools p)) (snd bools)) (cond_list p)
    (p_role_tr p) (p_filename_trans p) (p_role_allow p) (p_range_tr p)
    (type_attr_map p) (permissive_map p) (attr_type_map p) (ocontexts p) (p_genfs p).
(** the arrays still point to the data that now have caches *)
Definition with_caches (p : policydb) (roles : symtab role_datum) (users : symtab user_datum) (role_s user_s : names) : policydb :=
  Policydb (policy_type p) (policyvers p) (mls p) (p_classes p) roles (p_types p) users (p_bools p)
    (p_levels p) (p_cats p) (p_sens_val_to_name p) (p_cat_val_to_name p) (p_class_val_to_name p)
    (p_role_val_to_name p) (p_type_val_to_name p) (p_user_val_to_name p) (class_val_to_struct p)
    (pointees (table roles) role_s) (pointees (table users) user_s) (type_val_to_struct p) (te_avtab p) (te_cond_avtab p)
    (bool_val_to_struct p) (cond_list p) (p_role_tr p) (p_filename_trans p) (p_role_allow p) (p_range_tr p)
    (type_attr_map p) (permissive_map p) (attr_type_map p) (ocontexts p) (p_genfs p).

Definition with_users (p : policydb) (users : symtab user_datum) (n user_s : names) : policydb :=
  Policydb (policy_type p) (policyvers p) (mls p) (p_classes p) (p_roles p) (p_types p) users (p_bools p)
    (p_levels p) (p_cats p) (p_sens_val_to_name p) (p_cat_val_to_name p) (p_class_val_to_name p)
    (p_role_val_to_name p) (p_type_val_to_name p) n (class_val_to_struct p)
    (role_val_to_struct p) (pointees (table users) user_s) (type_val_to_struct p) (te_avtab p) (te_cond_avtab p)
    (bool_val_to_struct p) (cond_list p) (p_role_tr p) (p_filename_trans p) (p_role_allow p) (p_range_tr p)
    (type_attr_map p) (permissive_map p) (attr_type_map p) (ocontexts p) (p_genfs p).
Definition with_roles_nprim (p : policydb) (n : Z) : policydb :=
  Policydb (policy_type p) (policyvers p) (mls p) (p_classes p) (Symtab (table (p_roles p)) n) (p_types p) (p_users p) (p_bools p)
    (p_levels p) (p_cats p) (p_sens_val_to_name p) (p_cat_val_to_name p) (p_class_val_to_name p)
    (p_role_val_to_name p) (p_type_val_to_name p) (p_user_val_to_name p) (class_val_to_struct p)
    (role_val_to_struct p) (user_val_to_struct p) (type_val_to_struct p) (te_avtab p) (te_cond_avtab p)
    (bool_val_to_struct p) (cond_list p) (p_role_tr p) (p_filename_trans p) (p_role_allow p) (p_range_tr p)
    (type_attr_map p) (permissive_map p) (attr_type_map p) (ocontexts p) (p_genfs p).

Section operations.
Context `{Target}.

(** ** Arrays *)

Definition pointer_size : Z := size_t_bits / 8.
(** [malloc(n * sizeof(char * ))]: how many fields the memory has *)
Definition new_pointers {A} (n : Z) : CM (option (list (option A))) :=
  m ← malloc;
  mret (match m with None => None | Some _ => Some (replicate (Z.to_nat (szt (n * pointer_size) / pointer_size)) None) end).
(** [calloc(n, sizeof(char * ))] *)
Definition zeroed_pointers {A} (n : Z) : CM (option (list (option A))) :=
  if 2 ^ size_t_bits <=? n * pointer_size then mret None else new_pointers n.
(** [a[value - 1] = x] *)
Definition put_at {A} (a : list (option A)) (value : Z) (x : A) : CM (list (option A)) :=
  let i := u32 (value - 1) in
  if Z.of_nat (length a) <=? i then undefined else mret (<[Z.to_nat i := Some x]> a).
(** a symbol is put into its place: the code, and what the arrays become *)
Definition put_value {A} (value nprim : Z) (put : CM A) (arrays : A) : CM (Z * A) :=
  if negb (truth value) || (nprim <? value) then mret (- EINVAL, arrays) else
  arrays ← put; mret (0, arrays).
Definition put_both (value : Z) (key : string) (a : names * names) : CM (names * names) :=
  n ← put_at (fst a) value key; s ← put_at (snd a) value key; mret (n, s).

(** ** Symbols *)

Definition common_index (nprim : Z) (key : string) (d : common_datum) (n : names) : CM (Z * names) :=
  put_value (common_value d) nprim (put_at n (common_value d) key) n.
(** the names and the data *)
Definition class_index (nprim : Z) (key : string) (d : class_datum) (a : names * names) : CM (Z * (names * names)) :=
  put_value (class_value d) nprim (put_both (class_value d) key a) a.
Definition role_index (nprim : Z) (key : string) (d : role_datum) (a : names * names) : CM (Z * (names * names)) :=
  put_value (role_value d) nprim (put_both (role_value d) key a) a.
Definition type_index (nprim : Z) (key : string) (d : type_datum) (a : names * names) : CM (Z * (names * names)) :=
  if truth (type_primary d) then put_value (type_value d) nprim (put_both (type_value d) key a) a else mret (0, a).
Definition user_index (nprim : Z) (key : string) (d : user_datum) (a : names * names) : CM (Z * (names * names)) :=
  put_value (user_value d) nprim (put_both (user_value d) key a) a.
Definition cond_index_bool (nprim : Z) (key : string) (d : cond_bool_datum) (a : names * names) : CM (Z * (names * names)) :=
  put_value (bool_value d) nprim (put_both (bool_value d) key a) a.
Definition sens_index (nprim : Z) (key : string) (d : level_datum) (n : names) : CM (Z * names) :=
  if truth (ld_isalias d) then mret (0, n) else put_value (sens (ld_level d)) nprim (put_at n (sens (ld_level d)) key) n.
Definition cat_index (nprim : Z) (key : string) (d : cat_datum) (n : names) : CM (Z * names) :=
  if truth (cat_isalias d) then mret (0, n) else put_value (cat_value d) nprim (put_at n (cat_value d) key) n.

(** ** Databases *)

(** [if (!p) return -1;] and [if (hashtab_map(...)) return -1;] *)
Definition or_null {A} (m : CM (option A)) : CM (Z + A) := r ← m; mret (match r with None => inl (-1) | Some x => inr x end).
Definition or_minus {A} (m : CM (Z * A)) : CM (Z + A) := '(rc, x) ← m; mret (if truth rc then inl (-1) else inr x).

Definition policydb_index_classes (db : database) : CM (Z + database) :=
  let p := db_policy db in
  or_return (or_null (new_pointers (nprim (p_commons db)))) (λ n,
  or_return (or_minus (hashtab_map (table (p_commons db)) (common_index (nprim (p_commons db))) n)) (λ commons,
  or_return (or_null (new_pointers (nprim (p_classes p)))) (λ s,
  or_return (or_null (new_pointers (nprim (p_classes p)))) (λ n,
  or_return (or_minus (hashtab_map (table (p_classes p)) (class_index (nprim (p_classes p))) (n, s))) (λ '(n, s),
  mret (inr (with_policy (with_common_names db commons) (with_classes p n (pointees (table (p_classes p)) s))))))))).

(** the code, and the array *)
Definition cond_init_bool_indexes (bools : symtab cond_bool_datum) : CM (Z * names) :=
  r ← new_pointers (nprim bools);
  mret (match r with None => (-1, []) | Some a => (0, a) end).
Definition policydb_index_bools (db : database) : CM (Z + database) :=
  let bools := p_bools (db_policy db) in
  '(rc, s) ← cond_init_bool_indexes bools;
  if rc =? -1 then mret (inl (-1)) else
  or_return (or_null (new_pointers (nprim bools))) (λ n,
  or_return (or_minus (hashtab_map (table bools) (cond_index_bool (nprim bools)) (n, s))) (λ '(n, s),
  mret (inr (with_policy (with_bool_names db n) (with_bools (db_policy db) (pointees (table bools) s)))))).

(** one round of the loop over the kinds of symbols: an array of names, and the
    arrays to fill *)
Definition index_names {D A} (s : symtab D) (index : Z → string → D → A → CM (Z * A)) (arrays : names → A) : CM (Z + A) :=
  if negb (truth (nprim s)) then mret (inr (arrays [])) else
  or_return (or_null (zeroed_pointers (nprim s))) (λ n, or_minus (hashtab_map (table s) (index (nprim s)) (arrays n))).

Definition policydb_role_cache (p : policydb) (key : string) (role : role_datum) (args : unit) : CM (Z * role_datum * unit) :=
  '(rc, cache) ← type_set_expand (role_types role) p true;
  mret (if truth rc then -1 else 0,
        RoleDatum (role_value role) (role_dominates role) (role_types role) cache (role_bounds role) (role_flavor role) (role_roles role), args).
(** [nprim] is that of the roles, which a star changes *)
Definition policydb_user_cache (p : policydb) (key : string) (user : user_datum) (nprim : Z) : CM (Z * user_datum * Z) :=
  let with_cache cache range level :=
    UserDatum (user_value user) (user_roles user) (user_range user) (user_dfltlevel user) cache range level (user_bounds user) in
  '(rc, cache, nprim) ← role_set_expand (user_roles user) nprim None;
  let user1 := with_cache cache (user_exp_range user) (user_exp_dfltlevel user) in
  if truth rc then mret (-1, user1, nprim) else
  if (policy_type p =? POLICY_KERN) || (policy_type p =? POLICY_MOD) then mret (0, user1, nprim) else
  '(rc, range, _) ← mls_semantic_range_expand (user_range user) p;
  if truth rc then mret (-1, with_cache cache range (user_exp_dfltlevel user), nprim) else
  '(rc, level) ← mls_semantic_level_expand (user_dfltlevel user) p;
  mret (if truth rc then -1 else 0, with_cache cache range level, nprim).

Definition policydb_index_others (db : database) : CM (Z + database) :=
  let p := db_policy db in
  or_return (or_null (new_pointers (nprim (p_roles p)))) (λ role_s,
  or_return (or_null (new_pointers (nprim (p_users p)))) (λ user_s,
  or_return (or_null (zeroed_pointers (nprim (p_types p)))) (λ type_s,
  '(_, bool_s) ← cond_init_bool_indexes (p_bools p);
  or_return (index_names (p_roles p) role_index (λ n, (n, role_s))) (λ roles,
  or_return (index_names (p_types p) type_index (λ n, (n, type_s))) (λ types,
  or_return (index_names (p_users p) user_index (λ n, (n, user_s))) (λ users,
  or_return (index_names (p_bools p) cond_index_bool (λ n, (n, bool_s))) (λ bools,
  or_return (index_names (p_levels p) sens_index id) (λ sens,
  or_return (index_names (p_cats p) cat_index id) (λ cats,
  let p := with_arrays p roles types users bools sens cats in
  or_return (or_minus ('(rc, t, u) ← hashtab_map_data (table (p_roles p)) (policydb_role_cache p) (); mret (rc, (t, u)))) (λ '(role_t, _),
  or_return (or_minus ('(rc, t, n) ← hashtab_map_data (table (p_users p)) (policydb_user_cache p) (nprim (p_roles p)); mret (rc, (t, n)))) (λ '(user_t, n),
  mret (inr (with_policy (with_bool_names db (fst bools)) (with_caches p (Symtab role_t n) (Symtab user_t (nprim (p_users p))) (snd roles) (snd users))))))))))))))).

(** the users alone, after [sepol_genusers] has added some *)
Definition policydb_reindex_users (p : policydb) : CM (Z + policydb) :=
  let users := p_users p in
  or_return (or_null (new_pointers (nprim users))) (λ s,
  or_return (or_null (new_pointers (nprim users))) (λ n,
  or_return (or_minus (hashtab_map (table users) (user_index (nprim users)) (n, s))) (λ '(n, s),
  or_return (or_minus ('(rc, t, k) ← hashtab_map_data (table users) (policydb_user_cache p) (nprim (p_roles p)); mret (rc, (t, k)))) (λ '(t, k),
  mret (inr (with_users (with_roles_nprim p k) (Symtab t (nprim users)) n s)))))).

Fixpoint put_decls (decls : list avrule_decl) (a : list (option avrule_decl)) : CM (list (option avrule_decl)) :=
  match decls with
  | [] => mret a
  | d :: decls => a ← put_at a (decl_id d) d; put_decls decls a
  end.
Definition policydb_index_decls (db : database) : CM (Z + database) :=
  let decls := p_global db ≫= branch_list in
  or_return (or_null (zeroed_pointers (length decls))) (λ a,
  a ← put_decls decls a;
  mret (inr (with_decls db a))).
End operations.

(** ** Theory: arrays *)

Section arrays.
Context `{Target}.
Implicit Types (h : heap) (v n : Z).

(** an array of [n] fields with the elements of [m] *)
Definition shows {A} n (m : gmap Z A) (a : list (option A)) : Prop := Z.of_nat (length a) = n ∧ ∀ v, at_val a v = m !! v.
Definition shows_both n (m : gmap Z string) (a : names * names) : Prop := shows n m (fst a) ∧ shows n m (snd a).
(** the size of an array that fits into memory *)
Definition fits n : Prop := 0 ≤ n < 2 ^ 32 ∧ n * pointer_size < 2 ^ size_t_bits.

Lemma new_pointers_wp {A} n h : fits n →
  wp (new_pointers (A := A) n) (λ r h', mem_step h h' (is_Some r) ∧ ∀ a, r = Some a → shows n ∅ a) h.
Proof.
  intros [Hn Hf]. assert (Hp : 0 < pointer_size) by (unfold pointer_size; by destruct size_t_bits_ok as [-> | ->]).
  unfold new_pointers. wp_malloc x h1 M; apply wp_ret; (split; [mem|]); [|done].
  intros a [= <-]. unfold szt. rewrite wrap_id by nia. rewrite Z.div_mul by lia. split; [rewrite length_replicate; lia|].
  intros v. rewrite lookup_empty. apply eq_None_not_Some. intros [k [Hv Hk]%at_val_lookup]. apply lookup_replicate in Hk as [[=] _].
Qed.
Lemma zeroed_pointers_wp {A} n h : fits n →
  wp (zeroed_pointers (A := A) n) (λ r h', mem_step h h' (is_Some r) ∧ ∀ a, r = Some a → shows n ∅ a) h.
Proof. intros Hf. unfold zeroed_pointers. rewrite (proj2 (Z.leb_gt _ _)) by apply Hf. by apply new_pointers_wp. Qed.
Lemma put_at_wp {A} n (m : gmap Z A) (a : list (option A)) v k h : shows n m a → 1 ≤ v ≤ n → v < 2 ^ 32 →
  wp (put_at a v k) (λ a' h', h' = h ∧ shows n (<[v := k]> m) a') h.
Proof.
  intros [Hl Ha] Hv Hw. unfold put_at, u32. rewrite wrap_id by lia. rewrite (proj2 (Z.leb_gt _ _)) by lia.
  apply wp_ret. split; [done|]. split; [by rewrite length_insert|]. intros v'. destruct (decide (v' = v)) as [->|Hne].
  - rewrite lookup_insert_eq. apply at_val_lookup. split; [lia|]. rewrite list_lookup_insert_eq by lia. done.
  - rewrite lookup_insert_ne, <- Ha by done. unfold at_val. destruct (Z.ltb_spec v' 1); [done|]. by rewrite list_lookup_insert_ne by lia.
Qed.
Lemma put_both_wp n (m : gmap Z string) (a : names * names) v k h : shows_both n m a → 1 ≤ v ≤ n → v < 2 ^ 32 →
  wp (put_both v k a) (λ a' h', h' = h ∧ shows_both n (<[v := k]> m) a') h.
Proof.
  intros [H1 H2] Hv Hw. unfold put_both. apply wp_bind. eapply wp_mono; [by apply put_at_wp|]. intros a1 h1 [-> Ha1].
  apply wp_bind. eapply wp_mono; [by apply put_at_wp|]. intros a2 h2 [-> Ha2]. by apply wp_ret.
Qed.

(** *** The walk over a table *)

Section walk.
Context {D A : Type} (value : D → option Z) (n : Z) (put : Z → string → A → CM A) (S : gmap Z string → A → Prop).
Context (index : string → D → A → CM (Z * A)).
Context (Hn : n < 2 ^ 32) (Hput : ∀ m a v k h, S m a → 1 ≤ v ≤ n → wp (put v k a) (λ a' h', h' = h ∧ S (<[v := k]> m) a') h).
Context (Hindex : ∀ k d a, index k d a = match value d with None => mret (0, a) | Some v => put_value v n (put v k a) a end).
Implicit Types (l : list (string * D)).

Definition valued (m : gmap Z string) (kd : string * D) : gmap Z string :=
  match value kd.2 with Some v => <[v := kd.1]> m | None => m end.
Definition by_value l : gmap Z string := foldl valued ∅ l.
Lemma by_value_snoc l kd : by_value (l ++ [kd]) = valued (by_value l) kd.
Proof. unfold by_value. by rewrite foldl_app. Qed.
Lemma by_value_sound l v k : by_value l !! v = Some k → ∃ d, (k, d) ∈ l ∧ value d = Some v.
Proof.
  induction l as [|[k' d'] l IH] using rev_ind; [done|]. rewrite by_value_snoc. unfold valued. cbn [fst snd].
  destruct (value d') as [v'|] eqn:Ev; [destruct (decide (v' = v)) as [->|Hne]|].
  - rewrite lookup_insert_eq. intros [= ->]. exists d'. split; [apply elem_of_app; right; by left|done].
  - rewrite lookup_insert_ne by done. intros Hk. destruct (IH Hk) as (d&Hin&Hd). exists d. split; [apply elem_of_app; by left|done].
  - intros Hk. destruct (IH Hk) as (d&Hin&Hd). exists d. split; [apply elem_of_app; by left|done].
Qed.
Lemma by_value_complete l k d v : (k, d) ∈ l → value d = Some v → is_Some (by_value l !! v).
Proof.
  intros Hin Hv. induction l as [|[k' d'] l IH] using rev_ind; [by apply elem_of_nil in Hin|]. rewrite by_value_snoc. unfold valued. cbn [fst snd].
  apply elem_of_app in Hin as [Hin|Hin%list_elem_of_singleton].
  - specialize (IH Hin). destruct (value d') as [v'|]; [|done]. destruct (decide (v' = v)) as [->|Hne]; [rewrite lookup_insert_eq; by eexists|by rewrite lookup_insert_ne].
  - injection Hin as -> ->. rewrite Hv, lookup_insert_eq. by eexists.
Qed.
Definition in_range l : Prop := ∀ k d v, (k, d) ∈ l → value d = Some v → 1 ≤ v ≤ n.
Lemma walk_wp (t : hashtab string D) a h :
  S ∅ a → (∀ k d v, (k, d) ∈ entries t → value d = Some v → 0 ≤ v) →
  wp (hashtab_map (Some t) index a) (λ '(rc, a') h', h' = h ∧
    (rc = 0 ∧ S (by_value (entries t)) a' ∧ in_range (entries t) ∨ rc = - EINVAL ∧ ¬ in_range (entries t))) h.
Proof.
  intros Ha Hv. apply (hashtab_map_wp _ _ (λ l1 a h', h' = h ∧ S (by_value l1) a ∧ in_range l1)).
  - split; [done|]. split; [done|]. by intros k d v ?%elem_of_nil.
  - intros k d l1 l2 a1 h1 Hl (->&Ha1&Hr1). change (entries t = l1 ++ (k, d) :: l2) in Hl.
    assert (Hin : (k, d) ∈ entries t) by (rewrite Hl; apply elem_of_app; right; by left).
    rewrite Hindex. rewrite by_value_snoc. unfold valued. cbn [fst snd]. destruct (value d) as [v|] eqn:Ev; cycle 1.
    { apply wp_ret. cbn [truth Z.eqb negb]. split; [done|]. split; [done|].
      intros k' d' v' [Hin'|[= -> ->]%list_elem_of_singleton]%elem_of_app Hv'; [by eapply Hr1|congruence]. }
    specialize (Hv k d v Hin Ev). unfold put_value. destruct (negb (truth v) || (n <? v)) eqn:Eb.
    + apply wp_ret. cbn. split; [done|]. right. split; [done|]. intros Hr. specialize (Hr k d v Hin Ev).
      apply orb_true_iff in Eb as [Eb|Eb]; [apply negb_true_iff, truth_false in Eb|apply Z.ltb_lt in Eb]; lia.
    + apply orb_false_iff in Eb as [Eb1 Eb2]. apply negb_false_iff, truth_true in Eb1. apply Z.ltb_ge in Eb2.
      apply wp_bind. eapply wp_mono; [apply Hput; [exact Ha1|lia]|]. intros a2 h2 [-> Ha2]. apply wp_ret. cbn [truth Z.eqb negb].
      split; [done|]. split; [done|]. intros k' d' v' [Hin'|[= -> ->]%list_elem_of_singleton]%elem_of_app Hv'; [by eapply Hr1|].
      assert (v' = v) as -> by congruence. lia.
  - intros a1 h1 (->&?&?). split; [done|]. by left.
Qed.
End walk.
End arrays.

(** ** Theory: kinds of symbols *)

(** the value under which a symbol is indexed; aliases are not *)
Class Valued (D : Type) := value_of : D → option Z.
#[export] Instance common_valued : Valued common_datum := λ d, Some (common_value d).
#[export] Instance class_valued : Valued class_datum := λ d, Some (class_value d).
#[export] Instance role_valued : Valued role_datum := λ d, Some (role_value d).
#[export] Instance type_valued : Valued type_datum := λ d, if truth (type_primary d) then Some (type_value d) else None.
#[export] Instance user_valued : Valued user_datum := λ d, Some (user_value d).
#[export] Instance bool_valued : Valued cond_bool_datum := λ d, Some (bool_value d).
#[export] Instance level_valued : Valued level_datum := λ d, if truth (ld_isalias d) then None else Some (sens (ld_level d)).
#[export] Instance cat_valued : Valued cat_datum := λ d, if truth (cat_isalias d) then None else Some (cat_value d).

(** all values have a place *)
Definition values_fit {D} `{Valued D} (m : gmap string D) (n : Z) : Prop :=
  ∀ k d v, m !! k = Some d → value_of d = Some v → 1 ≤ v ≤ n.
(** an array of the names: every name in it is that of a symbol with the value of
    its place, and every value of a symbol has a name *)
Record indexed {D} `{Valued D} (m : gmap string D) (n : Z) (a : names) : Prop := {
  ix_length : Z.of_nat (length a) = n;
  ix_sound v k : at_val a v = Some k → ∃ d, m !! k = Some d ∧ value_of d = Some v;
  ix_complete k d v : m !! k = Some d → value_of d = Some v → is_Some (at_val a v)
}.
(** an array of the data *)
Record indexed_data {D} `{Valued D} (m : gmap string D) (n : Z) (a : list (option D)) : Prop := {
  id_length : Z.of_nat (length a) = n;
  id_sound v d : at_val a v = Some d → ∃ k, m !! k = Some d ∧ value_of d = Some v;
  id_complete k d v : m !! k = Some d → value_of d = Some v → is_Some (at_val a v)
}.

Section kinds.
Context `{Target}.
Implicit Types (h : heap) (v n : Z).

Lemma at_val_pointees {D} (t : table_of D) (a : names) v d :
  at_val (pointees t a) v = Some d ↔ ∃ k, at_val a v = Some k ∧ table_map t !! k = Some d.
Proof.
  unfold pointees. setoid_rewrite at_val_lookup. rewrite list_lookup_fmap. split.
  - intros (Hv&(o&Ho&E)%fmap_Some). destruct o as [k|]; [|discriminate E]. exists k. split; [done|]. exact (eq_sym E).
  - intros (k&[Hv Hk]&Hd). split; [done|]. rewrite Hk. cbn. by rewrite Hd.
Qed.
Section of_kind.
Context {D : Type} `{Valued D}.
Implicit Types (m : gmap string D).
Lemma indexed_pointees m n (a : names) (t : hashtab string D) : hashtab_map_of t = m → indexed m n a → indexed_data m n (pointees (Some t) a).
Proof.
  intros <- [Hl Hs Hc]. split; [unfold pointees; rewrite length_fmap; exact Hl| |].
  - intros v d (k&Hk&Hd)%at_val_pointees. exists k. split; [done|]. destruct (Hs v k Hk) as (d'&Hd'&Hv). cbn in Hd. congruence.
  - intros k d v Hd Hv. destruct (Hc k d v Hd Hv) as [k' Hk']. destruct (Hs v k' Hk') as (d'&Hd'&_). exists d'. apply at_val_pointees. by exists k'.
Qed.
Lemma indexed_shows (t : hashtab string D) n (a : names) : hashtab_ok t → shows n (by_value value_of (entries t)) a → indexed (hashtab_map_of t) n a.
Proof.
  intros Hok [Hl Ha]. split; [done| |].
  - intros v k Hk. rewrite Ha in Hk. destruct (by_value_sound _ _ _ _ Hk) as (d&Hin&Hd). exists d. split; [|done]. by apply map_of_lookup.
  - intros k d v Hd Hv. rewrite Ha. eapply by_value_complete; [|exact Hv]. by apply map_of_lookup.
Qed.
(** a table that can be indexed *)
Record indexable (s : symtab D) (t : hashtab string D) : Prop := {
  ib_table : table s = Some t;
  ib_wf : hashtab_wf t;
  ib_fits : fits (nprim s);
  ib_values k d v : hashtab_map_of t !! k = Some d → value_of d = Some v → 0 ≤ v
}.
Lemma values_entries (t : hashtab string D) n : hashtab_ok t → in_range value_of n (entries t) ↔ values_fit (hashtab_map_of t) n.
Proof. intros Hok. unfold in_range, values_fit. setoid_rewrite map_of_lookup; done. Qed.
End of_kind.

Lemma or_null_wp {A} (m : CM (option A)) (Q : Z + A → heap → Prop) h :
  wp m (λ r h', Q (match r with Some x => inr x | None => inl (-1) end) h') h → wp (or_null m) Q h.
Proof. intros Hm. apply wp_bind. eapply wp_mono; [exact Hm|]. intros [x|] h' HQ; by apply wp_ret. Qed.
Lemma or_minus_wp {A} (m : CM (Z * A)) (Q : Z + A → heap → Prop) h :
  wp m (λ '(rc, x) h', Q (if truth rc then inl (-1) else inr x) h') h → wp (or_minus m) Q h.
Proof. intros Hm. apply wp_bind. eapply wp_mono; [exact Hm|]. intros [rc x] h' HQ. by apply wp_ret. Qed.

(** a step that succeeds with memory exactly when [ok] holds, with [P] *)
Definition succeeds {A} (m : CM (Z + A)) (ok : Prop) (P : A → Prop) : Prop := ∀ h,
  wp m (λ r h', mem_step h h' (ok → ∃ x, r = inr x) ∧ match r with inr x => ok ∧ P x | inl rc => rc = -1 end) h.
Lemma succeeds_bind {A B} (m : CM (Z + A)) (f : A → CM (Z + B)) ok1 ok2 P Q :
  succeeds m ok1 P → (∀ x, P x → succeeds (f x) ok2 Q) → succeeds (or_return m f) (ok1 ∧ ok2) Q.
Proof.
  intros Hm Hf h. unfold or_return. apply wp_bind. eapply wp_mono; [apply Hm|]. intros [rc|x] h1 [M Hx].
  - apply wp_ret. split; [|done]. intros Ho. destruct (M Ho) as [Ho1 He]. split; [done|]. intros [Hok1 _]. by destruct (He Hok1).
  - destruct Hx as [Hok1 HP]. eapply wp_mono; [by apply Hf|]. intros r h2 [M2 Hr]. split; [intros Ho; destruct (M Ho) as [Ho1 _], (M2 Ho1) as [Ho2 He]; split; [done|]; intros [_ ?]; by apply He|].
    destruct r; [done|]. by destruct Hr.
Qed.
Lemma succeeds_mono {A} (m : CM (Z + A)) (ok ok' : Prop) (P Q : A → Prop) : succeeds m ok P → (ok ↔ ok') → (∀ x, P x → Q x) → succeeds m ok' Q.
Proof.
  intros Hm Hok HQ h. eapply wp_mono; [apply Hm|]. intros r h' [M Hr]. split; [intros Ho; destruct (M Ho) as [? He]; split; [done|]; intros ?; by apply He, Hok|].
  destruct r; [done|]. destruct Hr. split; [by apply Hok|by apply HQ].
Qed.
Lemma succeeds_ret {A} (x : A) (P : A → Prop) : P x → succeeds (mret (inr x)) True P.
Proof. intros HP h. apply wp_ret. split; [|done]. intros Ho. split; [done|]. intros _. by exists x. Qed.
Lemma succeeds_new {A} (m : CM (option A)) P : (∀ h, wp m (λ r h', mem_step h h' (is_Some r) ∧ ∀ x, r = Some x → P x) h) → succeeds (or_null m) True P.
Proof.
  intros Hm h. apply or_null_wp. eapply wp_mono; [apply Hm|]. intros r h' [M Hr].
  split; [intros Ho; destruct (M Ho) as [? [x ->]]; split; [done|]; intros _; by eexists|]. destruct r; [|done]. split; [done|by apply Hr].
Qed.
End kinds.

(** ** Theory: databases *)

Section databases.
Context `{Target}.
Implicit Types (h : heap) (v n : Z) (p : policydb).

Lemma shows_put n (m : gmap Z string) (a : names) v k h : n < 2 ^ 32 → shows n m a → 1 ≤ v ≤ n → wp (put_at a v k) (λ a' h', h' = h ∧ shows n (<[v := k]> m) a') h.
Proof. intros Hn Ha Hv. apply put_at_wp; [done|done|lia]. Qed.
Lemma shows_put_both n (m : gmap Z string) (a : names * names) v k h :
  n < 2 ^ 32 → shows_both n m a → 1 ≤ v ≤ n → wp (put_both v k a) (λ a' h', h' = h ∧ shows_both n (<[v := k]> m) a') h.
Proof. intros Hn Ha Hv. apply put_both_wp; [done|done|lia]. Qed.

Section of_kind.
Context {D A : Type} `{Valued D} (put : Z → string → A → CM A) (S : gmap Z string → A → Prop).
Context (index : Z → string → D → A → CM (Z * A)).
Context (Hindex : ∀ n k d a, index n k d a = match value_of d with None => mret (0, a) | Some v => put_value v n (put v k a) a end).

(** the walk over the table of [s] *)
Lemma walk_succeeds (s : symtab D) t a :
  indexable s t → (∀ m a v k h, S m a → 1 ≤ v ≤ nprim s → wp (put v k a) (λ a' h', h' = h ∧ S (<[v := k]> m) a') h) → S ∅ a →
  succeeds (or_minus (hashtab_map (table s) (index (nprim s)) a)) (values_fit (hashtab_map_of t) (nprim s)) (S (by_value value_of (entries t))).
Proof.
  intros [Ht Hwf [Hf _] Hv] Hput Ha h. apply or_minus_wp. rewrite Ht.
  eapply wp_mono; [apply (walk_wp value_of (nprim s) put S (index (nprim s)) Hput (Hindex (nprim s)) t a h Ha)|].
  { intros k d v Hin. apply (Hv k). by apply map_of_lookup; [apply Hwf|]. }
  intros [rc a'] h' (->&Hcase). rewrite values_entries in Hcase by apply Hwf.
  destruct Hcase as [(->&HS&Hr)|[-> Hr]]; cbn; (split; [intros Ho; split; [done|]|done]); [by eexists|by intros ?].
Qed.
(** one round of the loop; without symbols there is no array *)
Lemma index_names_succeeds (s : symtab D) t (arrays : names → A) :
  indexable s t → (∀ m a v k h, S m a → 1 ≤ v ≤ nprim s → wp (put v k a) (λ a' h', h' = h ∧ S (<[v := k]> m) a') h) →
  (∀ a, shows (nprim s) ∅ a → S ∅ (arrays a)) →
  succeeds (index_names s index arrays) (nprim s ≠ 0 → values_fit (hashtab_map_of t) (nprim s))
    (λ a, if decide (nprim s = 0) then a = arrays [] else S (by_value value_of (entries t)) a).
Proof.
  intros Hi Hput Ha. unfold index_names. destruct (decide (nprim s = 0)) as [E|Hne].
  { rewrite (proj2 (truth_false _) E). cbn [negb]. eapply succeeds_mono; [by apply (succeeds_ret _ (λ a, a = arrays []))| |done]. split; [by intros _ ?|done]. }
  rewrite (proj2 (truth_true _) Hne). cbn [negb].
  eapply succeeds_mono; [eapply (succeeds_bind _ _ True _ (shows (nprim s) ∅))| |].
  - apply succeeds_new. intros h. apply zeroed_pointers_wp, Hi.
  - intros n Hn. by eapply walk_succeeds; [exact Hi|exact Hput|apply Ha].
  - split; [intros [_ Hr] _; exact Hr|intros Hr; split; [done|by apply Hr]].
  - done.
Qed.
End of_kind.

(** *** Classes *)

Record classes_indexed (db db' : database) (tc : hashtab string common_datum) (tk : hashtab string class_datum) : Prop := {
  ci_commons : indexed (hashtab_map_of tc) (nprim (p_commons db)) (p_common_val_to_name db');
  ci_names : indexed (hashtab_map_of tk) (nprim (p_classes (db_policy db))) (p_class_val_to_name (db_policy db'));
  ci_structs : indexed_data (hashtab_map_of tk) (nprim (p_classes (db_policy db))) (class_val_to_struct (db_policy db'));
  ci_rest : ∃ commons names structs, db' = with_policy (with_common_names db commons) (with_classes (db_policy db) names structs)
}.
Lemma policydb_index_classes_succeeds db tc tk :
  indexable (p_commons db) tc → indexable (p_classes (db_policy db)) tk →
  succeeds (policydb_index_classes db)
    (values_fit (hashtab_map_of tc) (nprim (p_commons db)) ∧ values_fit (hashtab_map_of tk) (nprim (p_classes (db_policy db))))
    (λ db', classes_indexed db db' tc tk).
Proof.
  intros Hc Hk. unfold policydb_index_classes.
  assert (Hfc : nprim (p_commons db) < 2 ^ 32) by apply Hc. assert (Hfk : nprim (p_classes (db_policy db)) < 2 ^ 32) by apply Hk.
  eapply succeeds_mono; [|shelve|intros x Hx; exact Hx].
  eapply succeeds_bind; [apply succeeds_new; intros h; apply new_pointers_wp, Hc|]. intros n1 Hn1.
  eapply succeeds_bind; [apply (walk_succeeds (λ v k a, put_at a v k) (shows (nprim (p_commons db))) common_index); [done|exact Hc|by intros; apply shows_put|exact Hn1]|]. intros commons Hcm.
  eapply succeeds_bind; [apply succeeds_new; intros h; apply new_pointers_wp, Hk|]. intros s1 Hs1.
  eapply succeeds_bind; [apply succeeds_new; intros h; apply new_pointers_wp, Hk|]. intros n2 Hn2.
  eapply succeeds_bind; [apply (walk_succeeds put_both (shows_both (nprim (p_classes (db_policy db)))) class_index); [done|exact Hk|by intros; apply shows_put_both|by split]|].
  intros [n s] [Hn Hs]. apply succeeds_ret. cbn [fst snd] in *. split.
  - apply indexed_shows; [apply Hc|exact Hcm].
  - apply indexed_shows; [apply Hk|exact Hn].
  - cbn [db_policy with_policy class_val_to_struct with_classes]. rewrite (ib_table _ _ Hk). apply indexed_pointees; [done|]. apply indexed_shows; [apply Hk|exact Hs].
  - by do 3 eexists.
  Unshelve. naive_solver.
Qed.

(** *** Caches *)

(** a walk that changes data and needs memory *)
Lemma map_data_succeeds {D A} (t : hashtab string D) (apply : string → D → A → CM (Z * D * A)) (P : string → D → D → Prop) (a : A) :
  (∀ k d h, (k, d) ∈ entries t → wp (apply k d a) (λ '(rc, d', a') h', mem_step h h' (rc = 0) ∧ (rc = 0 ∧ P k d d' ∧ a' = a ∨ truth rc = true)) h) →
  succeeds (or_minus ('(rc, t', a') ← hashtab_map_data (Some t) apply a; mret (rc, (t', a')))) True
    (λ r, ∃ t', r = (Some t', a) ∧ table_rel P t t').
Proof.
  intros Hb h. apply or_minus_wp, wp_bind.
  eapply wp_mono; [apply (hashtab_map_data_wp apply P (λ a' h', a' = a ∧ mem_step h h' True) (λ _ h', mem_step h h' False))|].
  - split; [done|by apply mem_step_refl].
  - intros k d a1 h1 Hin [-> M]. eapply wp_mono; [by apply Hb|]. intros [[rc d'] a'] h2 [M2 Hcase]. destruct (truth rc) eqn:Erc.
    + destruct Hcase as [[-> _]|_]; [done|]. intros Ho. destruct (M Ho) as [Ho1 _], (M2 Ho1) as [_ ->]. done.
    + destruct Hcase as [(->&HP&->)|?]; [|done]. split; [done|]. split; [done|]. mem.
  - intros [[rc t'] a'] h' Hrc. apply wp_ret. destruct (truth rc).
    + split; [|done]. intros Ho. by destruct (Hrc Ho).
    + destruct Hrc as (t0&->&Hrel&->&M). split; [intros Ho; split; [by apply M|]; intros _; by eexists|]. split; [done|]. by exists t0.
Qed.
Lemma indexed_rel {D} `{Valued D} (t t' : hashtab string D) (P : string → D → D → Prop) n (a : names) :
  hashtab_ok t → table_rel P t t' → (∀ k d d', P k d d' → value_of d' = value_of d) →
  indexed (hashtab_map_of t) n a → indexed (hashtab_map_of t') n a.
Proof.
  intros Hok Hr HP [Hl Hs Hc]. split; [done| |].
  - intros v k Hk. destruct (Hs v k Hk) as (d&Hd&Hv). pose proof (table_rel_map _ _ _ k Hr Hok) as Hm. rewrite Hd in Hm.
    inversion Hm as [d0 d' Hdd|]; subst. exists d'. split; [done|]. by rewrite (HP _ _ _ Hdd).
  - intros k d' v Hd' Hv. pose proof (table_rel_map _ _ _ k Hr Hok) as Hm. rewrite Hd' in Hm.
    inversion Hm as [d d0 Hdd Hd|]; subst. apply (Hc k d); [done|]. by rewrite <- (HP _ _ _ Hdd).
Qed.

Definition role_cached p (k : string) (d d' : role_datum) : Prop :=
  ∃ cache, d' = RoleDatum (role_value d) (role_dominates d) (role_types d) cache (role_bounds d) (role_flavor d) (role_roles d) ∧
    ebitmap_wf cache ∧ ebitmap_set cache = type_set_types p (role_types d) (ebitmap_set (ts_types (role_types d))) (ebitmap_set (ts_negset (role_types d))) true.
Definition user_cached (k : string) (d d' : user_datum) : Prop :=
  ∃ cache, d' = UserDatum (user_value d) (user_roles d) (user_range d) (user_dfltlevel d) cache (user_exp_range d) (user_exp_dfltlevel d) (user_bounds d) ∧
    ebitmap_wf cache ∧ ebitmap_set cache = ebitmap_set (rs_roles (user_roles d)).
Lemma role_cache_wp p k d h :
  types_wf p → ebitmap_wf (ts_types (role_types d)) → ebitmap_wf (ts_negset (role_types d)) → names_types p (ebitmap_set (ts_types (role_types d))) →
  (∀ i, i ∈ ebitmap_set (ts_negset (role_types d)) → 0 ≤ i < nprim (p_types p)) →
  wp (policydb_role_cache p k d ()) (λ '(rc, d', a') h', mem_step h h' (rc = 0) ∧ (rc = 0 ∧ role_cached p k d d' ∧ a' = () ∨ truth rc = true)) h.
Proof.
  intros Hp H1 H2 H3 H4. unfold policydb_role_cache. apply wp_bind. eapply wp_mono; [by apply type_set_expand_wp|].
  intros [rc e] h' [M Hcase]. apply wp_ret. destruct Hcase as [(->&Hw&Hs)|Hrc].
  - split; [mem|]. left. split; [done|]. split; [|done]. by exists e.
  - rewrite (proj2 (truth_true rc)) by lia. split; [|by right]. intros Ho. destruct (M Ho). lia.
Qed.
Lemma user_cache_wp p k d n h :
  policy_type p = POLICY_KERN ∨ policy_type p = POLICY_MOD → ebitmap_wf (rs_roles (user_roles d)) →
  truth (Z.land (rs_flags (user_roles d)) ROLE_STAR) = false → truth (Z.land (rs_flags (user_roles d)) ROLE_COMP) = false →
  wp (policydb_user_cache p k d n) (λ '(rc, d', a') h', mem_step h h' (rc = 0) ∧ (rc = 0 ∧ user_cached k d d' ∧ a' = n ∨ truth rc = true)) h.
Proof.
  intros Hp Hw Hstar Hcomp. unfold policydb_user_cache, role_set_expand. rewrite Hstar. do 2 apply wp_bind.
  eapply wp_mono; [apply named_roles_expand_wp; [done|split; [done|by intros ? ? [=]]]|]. intros [rc e] h' [M Hcase]. apply wp_ret.
  assert (Ht : (policy_type p =? POLICY_KERN) || (policy_type p =? POLICY_MOD) = true).
  { apply orb_true_iff. rewrite !Z.eqb_eq. done. }
  destruct Hcase as [(->&Hwe&Hs)|Hrc].
  - cbn [truth Z.eqb negb]. rewrite Ht. apply wp_ret. split; [mem|]. left. split; [done|]. split; [|done]. by exists e.
  - rewrite (proj2 (truth_true rc)) by lia. apply wp_ret. split; [|by right]. intros Ho. destruct (M Ho). lia.
Qed.

(** *** The other symbols *)

(** no array of names is made for a kind without values *)
Definition indexed_if {D} `{Valued D} (m : gmap string D) (n : Z) (a : names) : Prop := if decide (n = 0) then a = [] else indexed m n a.
Definition indexed_data_if {D} `{Valued D} (m : gmap string D) (n : Z) (a : list (option D)) : Prop := if decide (n = 0) then a = [] else indexed_data m n a.
Definition values_fit_if {D} `{Valued D} (s : symtab D) (t : hashtab string D) : Prop := nprim s ≠ 0 → values_fit (hashtab_map_of t) (nprim s).

Lemma shows_empty (a : names) : shows 0 ∅ a → a = [].
Proof. intros [Hl _]. destruct a; [done|]. cbn in Hl. lia. Qed.
Section of_kind.
Context {D : Type} `{Valued D}.
(** one round for a kind with names and data *)
Lemma index_both_succeeds (index : Z → string → D → names * names → CM (Z * (names * names))) (s : symtab D) t st :
  (∀ n k d a, index n k d a = match value_of d with None => mret (0, a) | Some v => put_value v n (put_both v k a) a end) →
  indexable s t → shows (nprim s) ∅ st →
  succeeds (index_names s index (λ a : names, (a, st))) (values_fit_if s t)
    (λ a, indexed_if (hashtab_map_of t) (nprim s) (fst a) ∧ indexed_if (hashtab_map_of t) (nprim s) (snd a)).
Proof.
  intros Hindex Hi Hst. assert (Hf : nprim s < 2 ^ 32) by apply Hi.
  eapply succeeds_mono; [by apply (index_names_succeeds put_both (shows_both (nprim s)) index Hindex s t _ Hi); [intros; apply shows_put_both|]|done|].
  intros [n1 s1]. unfold indexed_if. destruct (decide (nprim s = 0)) as [E|Hne].
  - intros [= -> ->]. split; [done|]. apply shows_empty. by rewrite <- E.
  - intros [Hn Hs]. split; apply indexed_shows; [apply Hi|exact Hn|apply Hi|exact Hs].
Qed.
Lemma index_one_succeeds (index : Z → string → D → names → CM (Z * names)) (s : symtab D) t :
  (∀ n k d a, index n k d a = match value_of d with None => mret (0, a) | Some v => put_value v n (put_at a v k) a end) →
  indexable s t → succeeds (index_names s index id) (values_fit_if s t) (λ a, indexed_if (hashtab_map_of t) (nprim s) a).
Proof.
  intros Hindex Hi. assert (Hf : nprim s < 2 ^ 32) by apply Hi.
  eapply succeeds_mono; [by apply (index_names_succeeds (λ v k a, put_at a v k) (shows (nprim s)) index Hindex s t _ Hi); [intros; apply shows_put|]|done|].
  intros n1. unfold indexed_if. destruct (decide (nprim s = 0)); [done|]. intros Hn. apply indexed_shows; [apply Hi|exact Hn].
Qed.
Lemma pointees_if (t t' : hashtab string D) (P : string → D → D → Prop) n (a : names) :
  hashtab_ok t → table_rel P t t' → (∀ k d d', P k d d' → value_of d' = value_of d) →
  indexed_if (hashtab_map_of t) n a → indexed_data_if (hashtab_map_of t') n (pointees (Some t') a).
Proof.
  intros Hok Hr HP. unfold indexed_if, indexed_data_if. destruct (decide (n = 0)); [by intros ->|]. intros Hx. apply indexed_pointees; [done|]. by eapply indexed_rel.
Qed.
End of_kind.
Lemma table_rel_refl {D} (t : hashtab string D) : table_rel (λ _ d d', d' = d) t t.
Proof. split; [done|done|]. apply Forall_Forall2_diag, Forall_true. intros c. apply Forall_Forall2_diag, Forall_true. by intros kd. Qed.

(** the tables of a database *)
Record tables_of p (tr : hashtab string role_datum) (tt : hashtab string type_datum) (tu : hashtab string user_datum)
    (tb : hashtab string cond_bool_datum) (tl : hashtab string level_datum) (ta : hashtab string cat_datum) : Prop := {
  to_roles : indexable (p_roles p) tr;
  to_types : indexable (p_types p) tt;
  to_users : indexable (p_users p) tu;
  to_bools : indexable (p_bools p) tb;
  to_levels : indexable (p_levels p) tl;
  to_cats : indexable (p_cats p) ta
}.
(** the types with values below [n] that are named; those that are no attributes *)
Definition type_named (m : gmap string type_datum) (n i : Z) : Prop := 0 ≤ i < n ∧ ∃ k d, m !! k = Some d ∧ value_of d = Some (i + 1).
Definition type_plain (m : gmap string type_datum) (n i : Z) : Prop :=
  0 ≤ i < n ∧ ∀ k d, m !! k = Some d → value_of d = Some (i + 1) → type_flavor d ≠ TYPE_ATTRIB.
(** roles and users for which there are caches *)
Record cacheable p (tr : hashtab string role_datum) (tt : hashtab string type_datum) (tu : hashtab string user_datum) : Prop := {
  cb_kind : policy_type p = POLICY_KERN ∨ policy_type p = POLICY_MOD;
  cb_nprim : nprim (p_types p) ≤ BITS;
  cb_types k d : hashtab_map_of tt !! k = Some d → type_flavor d = TYPE_ATTRIB →
    ebitmap_wf (type_types d) ∧ ∀ i, i ∈ ebitmap_set (type_types d) → type_plain (hashtab_map_of tt) (nprim (p_types p)) i;
  cb_roles k d : hashtab_map_of tr !! k = Some d →
    (ebitmap_wf (ts_types (role_types d)) ∧ ∀ i, i ∈ ebitmap_set (ts_types (role_types d)) → type_named (hashtab_map_of tt) (nprim (p_types p)) i) ∧
    (ebitmap_wf (ts_negset (role_types d)) ∧ ∀ i, i ∈ ebitmap_set (ts_negset (role_types d)) → 0 ≤ i < nprim (p_types p));
  cb_users k d : hashtab_map_of tu !! k = Some d → ebitmap_wf (rs_roles (user_roles d)) ∧
    truth (Z.land (rs_flags (user_roles d)) ROLE_STAR) = false ∧ truth (Z.land (rs_flags (user_roles d)) ROLE_COMP) = false
}.
(** the arrays and the caches *)
Record others_indexed (db db' : database) (tr : hashtab string role_datum) (tt : hashtab string type_datum) (tu : hashtab string user_datum)
    (tb : hashtab string cond_bool_datum) (tl : hashtab string level_datum) (ta : hashtab string cat_datum) : Prop := {
  oi_roles : let p := db_policy db in let p' := db_policy db' in
    indexed_if (hashtab_map_of tr) (nprim (p_roles p)) (p_role_val_to_name p') ∧
    ∃ tr', p_roles p' = Symtab (Some tr') (nprim (p_roles p)) ∧ table_rel (role_cached p') tr tr' ∧
      indexed_data_if (hashtab_map_of tr') (nprim (p_roles p)) (role_val_to_struct p');
  oi_users : let p := db_policy db in let p' := db_policy db' in
    indexed_if (hashtab_map_of tu) (nprim (p_users p)) (p_user_val_to_name p') ∧
    ∃ tu', p_users p' = Symtab (Some tu') (nprim (p_users p)) ∧ table_rel user_cached tu tu' ∧
      indexed_data_if (hashtab_map_of tu') (nprim (p_users p)) (user_val_to_struct p');
  oi_types : let p := db_policy db in let p' := db_policy db' in
    indexed_if (hashtab_map_of tt) (nprim (p_types p)) (p_type_val_to_name p') ∧
    indexed_data_if (hashtab_map_of tt) (nprim (p_types p)) (type_val_to_struct p');
  oi_bools : let p := db_policy db in
    indexed_if (hashtab_map_of tb) (nprim (p_bools p)) (p_bool_val_to_name db') ∧
    indexed_data_if (hashtab_map_of tb) (nprim (p_bools p)) (bool_val_to_struct (db_policy db'));
  oi_levels : indexed_if (hashtab_map_of tl) (nprim (p_levels (db_policy db))) (p_sens_val_to_name (db_policy db'));
  oi_cats : indexed_if (hashtab_map_of ta) (nprim (p_cats (db_policy db))) (p_cat_val_to_name (db_policy db'));
  oi_rest : ∃ bool_names roles types users bools sens cats rt ut rs us,
    db' = with_policy (with_bool_names db bool_names) (with_caches (with_arrays (db_policy db) roles types users bools sens cats) rt ut rs us)
}.

(** the types of the arrays are well-formed *)
Lemma arrays_types_wf p tr tt tu roles types users bools sens cats :
  cacheable p tr tt tu → table (p_types p) = Some tt → hashtab_ok tt → 0 ≤ nprim (p_types p) →
  indexed_data_if (hashtab_map_of tt) (nprim (p_types p)) (pointees (Some tt) (snd types)) →
  types_wf (with_arrays p roles types users bools sens cats) ∧
  ∀ X, (∀ i, i ∈ X → type_named (hashtab_map_of tt) (nprim (p_types p)) i) → names_types (with_arrays p roles types users bools sens cats) X.
Proof.
  intros [_ Hn Hty _ _] Ht Hok Hp Hx. set (p' := with_arrays _ _ _ _ _ _ _).
  assert (Hs : type_val_to_struct p' = pointees (Some tt) (snd types)) by (cbn; by rewrite Ht).
  assert (Hnp : nprim (p_types p') = nprim (p_types p)) by done. unfold indexed_data_if in Hx.
  split; [split; rewrite ?Hs, ?Hnp; [|done|]|].
  - intros i Hi. rewrite decide_False in Hx by lia. destruct Hx as [Hl _ _]. unfold at_index. rewrite (proj2 (Z.ltb_ge _ _)) by lia. apply lookup_lt_is_Some. lia.
  - intros i ty Hty' Hfl. destruct (decide (nprim (p_types p) = 0)) as [E|Hne]; [rewrite Hx in Hty'; by apply at_val_lookup in Hty' as [_ Hl]|].
    destruct Hx as [Hl Hso Hco]. destruct (Hso i ty Hty') as (k&Hk&Hv). destruct (Hty k ty Hk Hfl) as [Hw Hpl]. split; [done|].
    intros j Hj. destruct (Hpl j Hj) as [Hr Hno]. apply elem_of_universe. rewrite Hnp. split; [done|]. unfold attribute. rewrite Hs.
    destruct (at_val (pointees (Some tt) (snd types)) (j + 1)) as [ty'|] eqn:E; [|done]. destruct (Hso _ _ E) as (k'&Hk'&Hv'). apply Z.eqb_neq. by eapply Hno.
  - intros X HX i Hi. destruct (HX i Hi) as (Hr&k&d&Hd&Hv). rewrite Hnp, Hs. split; [done|]. rewrite decide_False in Hx by lia. by eapply Hx.
Qed.


(** a step that with memory succeeds exactly when [ok] holds *)
Definition runs_ok {A} (m : CM (Z + A)) (ok : Prop) (P : A → Prop) : Prop := ∀ h, mem_ok h →
  wp m (λ r h', mem_ok h' ∧ match r with inr x => ok ∧ P x | inl rc => rc = -1 ∧ ¬ ok end) h.
Lemma runs_ok_of {A} (m : CM (Z + A)) ok P : succeeds m ok P → runs_ok m ok P.
Proof.
  intros Hm h Ho. eapply wp_mono; [apply Hm|]. intros [rc|x] h' [M Hx]; destruct (M Ho) as [Ho' He]; (split; [done|]); [|done].
  split; [done|]. intros Hok. by destruct (He Hok).
Qed.
Lemma runs_ok_bind {A B} (m : CM (Z + A)) (f : A → CM (Z + B)) ok1 ok2 P Q :
  runs_ok m ok1 P → (∀ x, P x → runs_ok (f x) ok2 Q) → runs_ok (or_return m f) (ok1 ∧ ok2) Q.
Proof.
  intros Hm Hf h Ho. unfold or_return. apply wp_bind. eapply wp_mono; [by apply Hm|]. intros [rc|x] h1 [Ho1 Hx].
  - apply wp_ret. split; [done|]. destruct Hx as [-> Hno]. split; [done|]. by intros [? _].
  - destruct Hx as [Hok1 HP]. eapply wp_mono; [by apply (Hf x)|]. intros [rc|y] h2 [Ho2 Hy]; (split; [done|]).
    + destruct Hy as [-> Hno]. split; [done|]. by intros [_ ?].
    + by destruct Hy.
Qed.
Lemma runs_ok_mono {A} (m : CM (Z + A)) (ok ok' : Prop) (P Q : A → Prop) : runs_ok m ok P → (ok ↔ ok') → (∀ x, P x → Q x) → runs_ok m ok' Q.
Proof.
  intros Hm Hok HQ h Ho. eapply wp_mono; [by apply Hm|]. intros [rc|x] h' [Ho' Hx]; (split; [done|]).
  - destruct Hx. split; [done|]. by rewrite <- Hok.
  - destruct Hx. split; [by apply Hok|by apply HQ].
Qed.
Lemma runs_ok_bools {B} (s : symtab cond_bool_datum) (f : Z * names → CM (Z + B)) ok Q :
  fits (nprim s) → (∀ rc a, shows (nprim s) ∅ a → runs_ok (f (rc, a)) ok Q) → runs_ok (cond_init_bool_indexes s ≫= f) ok Q.
Proof.
  intros Hf Hb h Ho. apply wp_bind. unfold cond_init_bool_indexes. apply wp_bind. eapply wp_mono; [by apply new_pointers_wp|].
  intros r h1 [M Hr]. destruct (M Ho) as [Ho1 [a ->]]. apply wp_ret. by apply Hb; [apply Hr|].
Qed.
Lemma policydb_index_others_runs db tr tt tu tb tl ta :
  tables_of (db_policy db) tr tt tu tb tl ta → cacheable (db_policy db) tr tt tu →
  runs_ok (policydb_index_others db)
    (let p := db_policy db in values_fit_if (p_roles p) tr ∧ values_fit_if (p_types p) tt ∧ values_fit_if (p_users p) tu ∧
     values_fit_if (p_bools p) tb ∧ values_fit_if (p_levels p) tl ∧ values_fit_if (p_cats p) ta)
    (λ db', others_indexed db db' tr tt tu tb tl ta).
Proof.
  intros [Hr Ht Hu Hb Hl Ha] Hc. cbv zeta. set (p := db_policy db) in *. unfold policydb_index_others. fold p.
  eapply runs_ok_mono; [|shelve|intros x Hx; exact Hx].
  eapply runs_ok_bind; [apply runs_ok_of, succeeds_new; intros h; apply new_pointers_wp, Hr|intros rs Hrs].
  eapply runs_ok_bind; [apply runs_ok_of, succeeds_new; intros h; apply new_pointers_wp, Hu|intros us Hus].
  eapply runs_ok_bind; [apply runs_ok_of, succeeds_new; intros h; apply zeroed_pointers_wp, Ht|intros ts Hts].
  apply runs_ok_bools; [apply Hb|intros rc bs Hbs].
  eapply runs_ok_bind; [by apply runs_ok_of, (index_both_succeeds role_index (p_roles p) tr)|intros roles [Hr1 Hr2]].
  eapply runs_ok_bind; [apply runs_ok_of, (index_both_succeeds type_index (p_types p) tt); [|done|done]|intros types [Ht1 Ht2]].
  { intros n k d a. unfold type_index, value_of, type_valued. by destruct (truth (type_primary d)). }
  eapply runs_ok_bind; [by apply runs_ok_of, (index_both_succeeds user_index (p_users p) tu)|intros users [Hu1 Hu2]].
  eapply runs_ok_bind; [by apply runs_ok_of, (index_both_succeeds cond_index_bool (p_bools p) tb)|intros bools [Hb1 Hb2]].
  eapply runs_ok_bind; [apply runs_ok_of, (index_one_succeeds sens_index (p_levels p) tl); [|done]|intros sens Hsens].
  { intros n k d a. unfold sens_index, value_of, level_valued. by destruct (truth (ld_isalias d)). }
  eapply runs_ok_bind; [apply runs_ok_of, (index_one_succeeds cat_index (p_cats p) ta); [|done]|intros cats Hcats].
  { intros n k d a. unfold cat_index, value_of, cat_valued. by destruct (truth (cat_isalias d)). }
  cbv zeta.
  destruct (arrays_types_wf p tr tt tu roles types users bools sens cats Hc (ib_table _ _ Ht) (proj1 (ib_wf _ _ Ht)) (proj1 (proj1 (ib_fits _ _ Ht)))) as [Hty Hnames].
  { by eapply pointees_if; [apply Ht|apply table_rel_refl|by intros ? ? ? ->|]. }
  set (p1 := with_arrays p roles types users bools sens cats) in *.
  assert (Er : table (p_roles p1) = Some tr) by apply Hr. assert (Eu : table (p_users p1) = Some tu) by apply Hu.
  rewrite Er. eapply runs_ok_bind.
  { apply runs_ok_of, (map_data_succeeds tr (policydb_role_cache p1) (role_cached p1)). intros k d h Hin.
    destruct (cb_roles _ _ _ _ Hc k d) as [[Hw1 Hn1] [Hw2 Hn2]]; [by apply map_of_lookup; [apply Hr|]|].
    apply role_cache_wp; [done|done|done|by apply Hnames|exact Hn2]. }
  intros [rt u] (tr'&[= -> ->]&Hrel). rewrite Eu. eapply runs_ok_bind.
  { apply runs_ok_of, (map_data_succeeds tu (policydb_user_cache p1) user_cached). intros k d h Hin.
    destruct (cb_users _ _ _ _ Hc k d) as (Hw1&Hs1&Hs2); [by apply map_of_lookup; [apply Hu|]|].
    by apply user_cache_wp; [apply Hc|..]. }
  intros [ut n] (tu'&[= -> ->]&Hurel). apply runs_ok_of, succeeds_ret. split.
  - split; [exact Hr1|]. exists tr'. split; [done|]. split; [exact Hrel|].
    eapply pointees_if; [apply Hr|exact Hrel| |exact Hr2]. by intros k d d' (c&->&_).
  - split; [exact Hu1|]. exists tu'. split; [done|]. split; [exact Hurel|].
    eapply pointees_if; [apply Hu|exact Hurel| |exact Hu2]. by intros k d d' (c&->&_).
  - split; [exact Ht1|]. cbn. fold p. rewrite (ib_table _ _ Ht). by eapply pointees_if; [apply Ht|apply table_rel_refl|by intros ? ? ? ->|].
  - split; [exact Hb1|]. cbn. fold p. rewrite (ib_table _ _ Hb). by eapply pointees_if; [apply Hb|apply table_rel_refl|by intros ? ? ? ->|].
  - exact Hsens.
  - exact Hcats.
  - by do 11 eexists.
  Unshelve. naive_solver.
Qed.

(** the users alone *)
Record users_indexed p p' (tu : hashtab string user_datum) : Prop := {
  ui_names : indexed (hashtab_map_of tu) (nprim (p_users p)) (p_user_val_to_name p');
  ui_users : ∃ tu', p_users p' = Symtab (Some tu') (nprim (p_users p)) ∧ table_rel user_cached tu tu' ∧
    indexed_data (hashtab_map_of tu') (nprim (p_users p)) (user_val_to_struct p');
  ui_rest : ∃ users (n s : names), p' = with_users p users n s
}.
Lemma policydb_reindex_users_succeeds p tr tt tu :
  indexable (p_users p) tu → cacheable p tr tt tu →
  succeeds (policydb_reindex_users p) (values_fit (hashtab_map_of tu) (nprim (p_users p))) (λ p', users_indexed p p' tu).
Proof.
  intros Hu Hc. unfold policydb_reindex_users. assert (Hf : nprim (p_users p) < 2 ^ 32) by apply Hu.
  eapply succeeds_mono; [|shelve|intros x Hx; exact Hx].
  eapply succeeds_bind; [apply succeeds_new; intros h; apply new_pointers_wp, Hu|]. intros s1 Hs1.
  eapply succeeds_bind; [apply succeeds_new; intros h; apply new_pointers_wp, Hu|]. intros n1 Hn1.
  eapply succeeds_bind; [apply (walk_succeeds put_both (shows_both (nprim (p_users p))) user_index); [done|exact Hu|by intros; apply shows_put_both|by split]|].
  intros [n s] [Hn Hs]. rewrite (ib_table _ _ Hu). cbn [fst snd] in *. eapply succeeds_bind.
  { apply (map_data_succeeds tu (policydb_user_cache p) user_cached). intros k d h Hin.
    destruct (cb_users _ _ _ _ Hc k d) as (Hw1&Hs1'&Hs2); [by apply map_of_lookup; [apply Hu|]|]. by apply user_cache_wp; [apply Hc|..]. }
  intros [ut k] (tu'&[= -> ->]&Hrel). apply succeeds_ret. pose proof (proj1 (ib_wf _ _ Hu)) as Hok. split.
  - by apply indexed_shows.
  - exists tu'. split; [done|]. split; [exact Hrel|]. apply indexed_pointees; [done|].
    apply (indexed_rel tu tu' user_cached); [done|done|by intros ? ? ? (c&->&_)|by apply indexed_shows].
  - exists (Symtab (Some tu') (nprim (p_users p))), n, s. unfold with_users, with_roles_nprim. cbn. by destruct (p_roles p).
  Unshelve. naive_solver.
Qed.

(** *** Declarations *)

Definition declarations (db : database) : list avrule_decl := p_global db ≫= branch_list.
Record decls_indexed (decls : list avrule_decl) (a : list (option avrule_decl)) : Prop := {
  di_length : length a = length decls;
  di_sound v d : at_val a v = Some d → d ∈ decls ∧ decl_id d = v;
  di_complete d : d ∈ decls → is_Some (at_val a (decl_id d))
}.
Lemma put_decls_wp (decls : list avrule_decl) n (m : gmap Z avrule_decl) a h :
  n < 2 ^ 32 → shows n m a → (∀ d, d ∈ decls → 1 ≤ decl_id d ≤ n) →
  wp (put_decls decls a) (λ a' h', h' = h ∧ shows n (foldl (λ m d, <[decl_id d := d]> m) m decls) a') h.
Proof.
  intros Hn. revert m a h. induction decls as [|d decls IH]; intros m a h Ha Hd; [by apply wp_ret|]. cbn [put_decls foldl].
  assert (Hi : 1 ≤ decl_id d ≤ n) by (apply Hd; by left).
  apply wp_bind. eapply wp_mono; [apply (put_at_wp n m a); [done|done|lia]|]. intros a1 h1 [-> Ha1]. apply IH; [done|]. intros d' Hd'. apply Hd. by right.
Qed.
Lemma decls_by_id (decls : list avrule_decl) v d :
  (foldl (λ m d, <[decl_id d := d]> m) (∅ : gmap Z avrule_decl) decls !! v = Some d → d ∈ decls ∧ decl_id d = v) ∧
  (d ∈ decls → is_Some (foldl (λ m d, <[decl_id d := d]> m) (∅ : gmap Z avrule_decl) decls !! decl_id d)).
Proof.
  induction decls as [|d' decls [IH1 IH2]] using rev_ind; [split; [done|by intros ?%elem_of_nil]|]. rewrite foldl_app. cbn [foldl]. split.
  - destruct (decide (decl_id d' = v)) as [<-|Hne]; [rewrite lookup_insert_eq; intros [= ->]; split; [apply elem_of_app; right; by left|done]|].
    rewrite lookup_insert_ne by done. intros Hd. destruct (IH1 Hd). split; [apply elem_of_app; by left|done].
  - intros [Hin| ->%list_elem_of_singleton]%elem_of_app; [|rewrite lookup_insert_eq; by eexists].
    destruct (decide (decl_id d' = decl_id d)) as [->|Hne]; [rewrite lookup_insert_eq; by eexists|]. rewrite lookup_insert_ne by done. by apply IH2.
Qed.
Lemma policydb_index_decls_succeeds db :
  fits (length (declarations db)) → (∀ d, d ∈ declarations db → 1 ≤ decl_id d ≤ length (declarations db)) →
  succeeds (policydb_index_decls db) True (λ db', ∃ a, db' = with_decls db a ∧ decls_indexed (declarations db) a).
Proof.
  intros Hf Hd. unfold policydb_index_decls. fold (declarations db).
  eapply succeeds_mono; [eapply (succeeds_bind _ _ True True)|split; [done|by repeat split]|intros x Hx; exact Hx].
  { apply succeeds_new. intros h. by apply zeroed_pointers_wp. }
  intros a Ha h. apply wp_bind. eapply wp_mono; [apply (put_decls_wp _ _ _ _ _ (proj2 (proj1 Hf)) Ha Hd)|]. intros a' h' [-> [Hl Ha']]. apply wp_ret.
  split; [intros Ho; split; [done|]; intros _; by eexists|]. split; [done|]. exists a'. split; [done|]. split; [lia| |].
  - intros v d Hv. rewrite Ha' in Hv. exact (proj1 (decls_by_id _ v d) Hv).
  - intros d Hin. rewrite Ha'. exact (proj2 (decls_by_id _ (decl_id d) d) Hin).
Qed.
End databases.

(** ** Properties *)

(** C10: for a kernel policy or a module (not a base module) whose users' sets of
    roles are written without [*] and [~], with memory the two indexing
    functions succeed exactly when every symbol that is not an alias has a value
    from 1 to the number of its kind (commons and classes always; the other kinds
    are not looked at when their number is 0); then the arrays of names and of
    data are the inverse of the values (empty for a kind that is not looked at),
    every role has the bitmap of the types its set means and every user that of
    its roles, and nothing else is changed. *)
Theorem policydb_index_correct `{Target} db tc tk tr tt tu tb tl ta :
  indexable (p_commons db) tc → indexable (p_classes (db_policy db)) tk →
  tables_of (db_policy db) tr tt tu tb tl ta → cacheable (db_policy db) tr tt tu →
  runs_ok (policydb_index_classes db)
    (values_fit (hashtab_map_of tc) (nprim (p_commons db)) ∧ values_fit (hashtab_map_of tk) (nprim (p_classes (db_policy db))))
    (λ db', classes_indexed db db' tc tk) ∧
  runs_ok (policydb_index_others db)
    (let p := db_policy db in values_fit_if (p_roles p) tr ∧ values_fit_if (p_types p) tt ∧ values_fit_if (p_users p) tu ∧
     values_fit_if (p_bools p) tb ∧ values_fit_if (p_levels p) tl ∧ values_fit_if (p_cats p) ta)
    (λ db', others_indexed db db' tr tt tu tb tl ta).
Proof. intros. split; [by apply runs_ok_of, policydb_index_classes_succeeds|by apply policydb_index_others_runs]. Qed.

(** when the identifiers of the declarations are from 1 to their number,
    [policydb_index_decls] makes an array in which every declaration is under its
    identifier, or fails for want of memory. *)
Theorem policydb_index_decls_correct `{Target} db :
  fits (length (declarations db)) → (∀ d, d ∈ declarations db → 1 ≤ decl_id d ≤ length (declarations db)) →
  succeeds (policydb_index_decls db) True (λ db', ∃ a, db' = with_decls db a ∧ decls_indexed (declarations db) a).
Proof. apply policydb_index_decls_succeeds. Qed.

(** [policydb_reindex_users] makes the arrays of the users and their bitmaps of
    roles again, with memory exactly when the values fit, and changes nothing
    else. *)
Theorem policydb_reindex_users_correct `{Target} p tr tt tu :
  indexable (p_users p) tu → cacheable p tr tt tu →
  succeeds (policydb_reindex_users p) (values_fit (hashtab_map_of tu) (nprim (p_users p))) (λ p', users_indexed p p' tu).
Proof. apply policydb_reindex_users_succeeds. Qed.

(** ** Examples *)

Module ExampleIndex.
#[local] Existing Instance target_arm.
Definition one {D} (k : string) (d : D) : hashtab string D := Hashtab [[(k, d)]] 1 1.
Definition bits (m : Z) : ebitmap := Ebitmap [Node 0 m] 64.
Definition class (v : Z) : class_datum := ClassDatum v None None (Symtab None 0) [] [] 0 0 0 0.
(** a role with the first type, or the third, which is not there *)
Definition role (types : Z) : role_datum := RoleDatum 1 ebitmap_init (TypeSet (bits types) ebitmap_init 0) ebitmap_init 0 0 ebitmap_init.
Definition type : type_datum := TypeDatum 1 1 TYPE_TYPE ebitmap_init 0 0.
Definition user : user_datum := UserDatum 1 (RoleSet (bits 1) 0) (SemRange no_semantic_level no_semantic_level) no_semantic_level ebitmap_init
  (MlsRange no_level no_level) no_level 0.
Definition boolean : cond_bool_datum := BoolDatum 1 0 0.
Definition level : level_datum := LevelDatum (MlsLevel 1 ebitmap_init) 0 1.
Definition category : cat_datum := CatDatum 1 0.
Definition tables (classes : symtab class_datum) (types : Z) : symtabs :=
  Symtabs (fresh_symtab 2) classes (Symtab (Some (one "r" (role types))) 1) (Symtab (Some (one "t" type)) 1)
    (Symtab (Some (one "u" user)) 1) (Symtab (Some (one "b" boolean)) 1) (Symtab (Some (one "s0" level)) 1) (Symtab (Some (one "c0" category)) 1).
Definition base (classes : symtab class_datum) (types : Z) (ids : list Z) : database :=
  Database (cleared_policy (tables classes types) empty_avtab empty_avtab) (fresh_symtab 2) []
    [AvruleBlock (fresh_decl <$> ids) None 0] [] [] [] ebitmap_init 0 0 None None 0.
Definition db : database := base (Symtab (Some (one "file" (class 1))) 1) 1 [1; 2].

Lemma one_table_wf {D} k (d : D) : hashtab_wf (one k d).
Proof. split; [|done]. apply one_slot_ok. repeat constructor. Qed.
Lemma one_table_lookup {D} k k' (d d' : D) : hashtab_map_of (one k d) !! k' = Some d' → d' = d.
Proof.
  unfold hashtab_map_of, entries. cbn. destruct (decide (k = k')) as [->|]; [rewrite lookup_insert_eq; by intros [= <-]|].
  by rewrite lookup_insert_ne.
Qed.
Lemma one_indexable {D} `{Valued D} k (d : D) : (∀ v, value_of d = Some v → v = 1) → indexable (Symtab (Some (one k d)) 1) (one k d).
Proof. intros Hd. split; [done|apply one_table_wf|done|]. intros k' d' v ->%one_table_lookup Hv. by rewrite (Hd v Hv). Qed.
Lemma none_indexable {D} `{Valued D} : indexable (fresh_symtab (D := D) 2) (Hashtab (replicate 2 []) 2 0).
Proof.
  split; [done|by apply (hashtab_empty_wf 2)|done|]. intros k d v Hd. by rewrite (hashtab_empty_map 2) in Hd.
Qed.
Lemma bits_1 i : i ∈ ebitmap_set (bits 1) → i = 0.
Proof.
  rewrite elem_of_ebitmap_set by by apply (ExampleSets.bits_wf 1). cbn [node bits nodes_bit startbit map].
  destruct ((0 <=? i) && (i <? 0 + 64)) eqn:E; [|done]. rewrite Z.sub_0_r. change 1 with (Z.shiftl 1 0). rewrite testbit_one_shift by done. intros ?%Z.eqb_eq. done.
Qed.
Lemma db_tables : tables_of (db_policy db) (one "r" (role 1)) (one "t" type) (one "u" user) (one "b" boolean) (one "s0" level) (one "c0" category).
Proof. split; apply one_indexable; by intros v [= <-]. Qed.
Lemma db_cacheable : cacheable (db_policy db) (one "r" (role 1)) (one "t" type) (one "u" user).
Proof.
  split; [by left|done| | |].
  - by intros k d ->%one_table_lookup.
  - intros k d ->%one_table_lookup. split; [split; [by apply (ExampleSets.bits_wf 1)|]|split; [apply ebitmap_init_wf|]].
    + intros i ->%bits_1. split; [done|]. exists "t"%string, type. split; [|done]. unfold hashtab_map_of, entries. cbn. by rewrite lookup_insert_eq.
    + intros i Hi. by apply elem_of_empty in Hi.
  - intros k d ->%one_table_lookup. split; [by apply (ExampleSets.bits_wf 1)|done].
Qed.
End ExampleIndex.

#[local] Existing Instance target_arm.

(** what a file can do to the indexing: a declaration with the identifier 0
    or above their number, a role with a type that is not there, and, where
    pointers have 32 bits, a class behind the end of an array whose size 4 (2^30
    + 1) was computed as 4 all make it use memory out of bounds. *)
Theorem policydb_index_trusts_file :
  let classes n v := Symtab (Some (ExampleIndex.one "file" (ExampleIndex.class v))) n in
  policydb_index_decls (ExampleIndex.base (classes 1 1) 1 [1; 0]) fresh_heap = None ∧
  policydb_index_decls (ExampleIndex.base (classes 1 1) 1 [1; 3]) fresh_heap = None ∧
  policydb_index_others (ExampleIndex.base (classes 1 1) 4 [1]) fresh_heap = None ∧
  policydb_index_classes (ExampleIndex.base (classes (2 ^ 30 + 1) 2) 1 [1]) fresh_heap = None.
Proof. by vm_compute. Qed.
(** [policydb_index_others] does not look at the result of
    [cond_init_bool_indexes]: without memory for that array the booleans are
    written through a null pointer *)
Theorem policydb_index_others_ignores_bools :
  policydb_index_others ExampleIndex.db (Heap [true; true; true; false] 1) = None.
Proof. by vm_compute. Qed.

(** witness of C10 *)
Lemma policydb_index_correct_witness :
  runs_ok (policydb_index_classes ExampleIndex.db)
    (values_fit (hashtab_map_of (Hashtab (D := common_datum) (replicate 2 []) 2 0)) 0 ∧ values_fit (hashtab_map_of (ExampleIndex.one "file" (ExampleIndex.class 1))) 1)
    (λ db', classes_indexed ExampleIndex.db db' (Hashtab (replicate 2 []) 2 0) (ExampleIndex.one "file" (ExampleIndex.class 1))) ∧
  runs_ok (policydb_index_others ExampleIndex.db)
    (let p := db_policy ExampleIndex.db in values_fit_if (p_roles p) (ExampleIndex.one "r" (ExampleIndex.role 1)) ∧
     values_fit_if (p_types p) (ExampleIndex.one "t" ExampleIndex.type) ∧ values_fit_if (p_users p) (ExampleIndex.one "u" ExampleIndex.user) ∧
     values_fit_if (p_bools p) (ExampleIndex.one "b" ExampleIndex.boolean) ∧ values_fit_if (p_levels p) (ExampleIndex.one "s0" ExampleIndex.level) ∧
     values_fit_if (p_cats p) (ExampleIndex.one "c0" ExampleIndex.category))
    (λ db', others_indexed ExampleIndex.db db' (ExampleIndex.one "r" (ExampleIndex.role 1)) (ExampleIndex.one "t" ExampleIndex.type)
      (ExampleIndex.one "u" ExampleIndex.user) (ExampleIndex.one "b" ExampleIndex.boolean) (ExampleIndex.one "s0" ExampleIndex.level)
      (ExampleIndex.one "c0" ExampleIndex.category)).
Proof.
  refine (policydb_index_correct ExampleIndex.db _ _ _ _ _ _ _ _ ExampleIndex.none_indexable _ ExampleIndex.db_tables ExampleIndex.db_cacheable).
  apply ExampleIndex.one_indexable. by intros v [= <-].
Defined.
(** witness of [policydb_index_decls_correct] *)
Lemma policydb_index_decls_correct_witness :
  succeeds (policydb_index_decls ExampleIndex.db) True (λ db', ∃ a, db' = with_decls ExampleIndex.db a ∧ decls_indexed (declarations ExampleIndex.db) a).
Proof.
  refine (policydb_index_decls_correct ExampleIndex.db _ _); [done|]. intros d Hd. change (declarations ExampleIndex.db) with [fresh_decl 1; fresh_decl 2] in *.
  apply elem_of_cons in Hd as [->|Hd%list_elem_of_singleton]; [done|by subst].
Defined.
(** witness of [policydb_reindex_users_correct] *)
Lemma policydb_reindex_users_correct_witness :
  succeeds (policydb_reindex_users (db_policy ExampleIndex.db)) (values_fit (hashtab_map_of (ExampleIndex.one "u"%string ExampleIndex.user)) 1)
    (λ p', users_indexed (db_policy ExampleIndex.db) p' (ExampleIndex.one "u" ExampleIndex.user)).
Proof.
  refine (policydb_reindex_users_correct _ _ _ _ _ ExampleIndex.db_cacheable). apply ExampleIndex.db_tables.
Defined.
