(* ===== verification/PolicydbIO.v ===== *)
(** * Whole policies in files ([policydb_read] and [policydb_write])

    A file starts with a magic number, a string and the version; the tables of
    symbols follow, then the rules of a kernel policy or the blocks and scopes of a
    module, the object contexts and the file systems, and at the end of a kernel
    policy the attributes of its types.  The reader indexes the symbols before it
    reads contexts. *)

From S2P Require Import Prelude PolicyFile Hashtab Ebitmap EbitmapIO Symtab Tables Context Avtab AvtabIO Policydb Conditional Mls Constraint ExpandSets ExpandRules Readers ContextIO RulesIO SymbolsIO OcontextIO CondIO Scopes ModuleIO Index.

Definition POLICYDB_MAGIC : Z := 0xf97cff8c.
Definition POLICYDB_MOD_MAGIC : Z := 0xf97cff8d.
Definition POLICYDB_STRING : string := "SE Linux".
Definition POLICYDB_XEN_STRING : string := "XenFlask".
Definition POLICYDB_MOD_STRING : string := "SE Linux Module".
Definition POLICYDB_STRING_MAX_LENGTH : Z := 32.
Definition POLICYDB_VERSION_BASE : Z := 15.
Definition POLICYDB_VERSION_BOOL : Z := 16.
Definition POLICYDB_VERSION_IPV6 : Z := 17.
Definition POLICYDB_VERSION_NLCLASS : Z := 18.
Definition POLICYDB_VERSION_POLCAP : Z := 22.
Definition POLICYDB_VERSION_PERMISSIVE : Z := 23.
Definition POLICYDB_VERSION_FILENAME_TRANS : Z := 25.
Definition POLICYDB_VERSION_MIN : Z := POLICYDB_VERSION_BASE.
Definition POLICYDB_VERSION_MAX : Z := POLICYDB_VERSION_CONSTRAINT_NAMES.
Definition MOD_POLICYDB_VERSION_BASE : Z := 4.
Definition MOD_POLICYDB_VERSION_POLCAP : Z := 7.
Definition MOD_POLICYDB_VERSION_CONSTRAINT_NAMES : Z := 17.
Definition MOD_POLICYDB_VERSION_MIN : Z := MOD_POLICYDB_VERSION_BASE.
Definition MOD_POLICYDB_VERSION_MAX : Z := MOD_POLICYDB_VERSION_CONSTRAINT_NAMES.
Definition POLICYDB_CONFIG_MLS : Z := 1.
Definition POLICYDB_CONFIG_UNKNOWN_MASK : Z := 6.
Definition POLICYDB_UNSUPPORTED : Z := -2.

(** ** Formats *)

Record policydb_compat_info := CompatInfo {
  ci_type : Z; ci_version : Z; ci_sym_num : nat; ci_ocon_num : nat; ci_target_platform : Z }.
Definition kernel_info (sym_num ocon_num : nat) (v : Z) : policydb_compat_info := CompatInfo POLICY_KERN v sym_num ocon_num SEPOL_TARGET_SELINUX.
Definition base_info (v : Z) : policydb_compat_info := CompatInfo POLICY_BASE v SYM_NUM (OCON_NODE6 + 1) SEPOL_TARGET_SELINUX.
Definition mod_info (v : Z) : policydb_compat_info := CompatInfo POLICY_MOD v SYM_NUM 0 SEPOL_TARGET_SELINUX.
(** the versions of the modules in the table *)
Definition module_versions : list Z :=
  [MOD_POLICYDB_VERSION_BASE; MOD_POLICYDB_VERSION_MLS; MOD_POLICYDB_VERSION_MLS_USERS; MOD_POLICYDB_VERSION_POLCAP;
   MOD_POLICYDB_VERSION_PERMISSIVE; MOD_POLICYDB_VERSION_BOUNDARY; MOD_POLICYDB_VERSION_BOUNDARY_ALIAS;
   MOD_POLICYDB_VERSION_FILENAME_TRANS; MOD_POLICYDB_VERSION_ROLETRANS; MOD_POLICYDB_VERSION_ROLEATTRIB;
   MOD_POLICYDB_VERSION_TUNABLE_SEP; MOD_POLICYDB_VERSION_NEW_OBJECT_DEFAULTS; MOD_POLICYDB_VERSION_DEFAULT_TYPE;
   MOD_POLICYDB_VERSION_CONSTRAINT_NAMES].
Definition policydb_compat : list policydb_compat_info :=
  [CompatInfo POLICY_KERN POLICYDB_VERSION_BOUNDARY SYM_NUM (OCON_XEN_PCIDEVICE + 1) SEPOL_TARGET_XEN;
   kernel_info (SYM_NUM - 3) (OCON_FSUSE + 1) POLICYDB_VERSION_BASE;
   kernel_info (SYM_NUM - 2) (OCON_FSUSE + 1) POLICYDB_VERSION_BOOL;
   kernel_info (SYM_NUM - 2) (OCON_NODE6 + 1) POLICYDB_VERSION_IPV6;
   kernel_info (SYM_NUM - 2) (OCON_NODE6 + 1) POLICYDB_VERSION_NLCLASS] ++
  (kernel_info SYM_NUM (OCON_NODE6 + 1) <$>
    [POLICYDB_VERSION_MLS; POLICYDB_VERSION_AVTAB; POLICYDB_VERSION_RANGETRANS; POLICYDB_VERSION_POLCAP;
     POLICYDB_VERSION_PERMISSIVE; POLICYDB_VERSION_BOUNDARY; POLICYDB_VERSION_FILENAME_TRANS; POLICYDB_VERSION_ROLETRANS;
     POLICYDB_VERSION_NEW_OBJECT_DEFAULTS; POLICYDB_VERSION_DEFAULT_TYPE; POLICYDB_VERSION_CONSTRAINT_NAMES]) ++
  (base_info <$> module_versions) ++ (mod_info <$> module_versions).
Definition policydb_lookup_compat (version type target_platform : Z) : option policydb_compat_info :=
  snd <$> list_find (λ info, (ci_version info =? version) && (ci_type info =? type) && (ci_target_platform info =? target_platform) = true) policydb_compat.

(** ** Stores *)

Definition symtabs_of (db : database) : symtabs := let p := db_policy db in
  Symtabs (p_commons db) (p_classes p) (p_roles p) (p_types p) (p_users p) (p_bools p) (p_levels p) (p_cats p).
Definition with_format (db : database) (type vers mls unknown target : Z) : database := let p := db_policy db in
  Database (Policydb type vers mls (p_classes p) (p_roles p) (p_types p) (p_users p) (p_bools p)
      (p_levels p) (p_cats p) (p_sens_val_to_name p) (p_cat_val_to_name p) (p_class_val_to_name p)
      (p_role_val_to_name p) (p_type_val_to_name p) (p_user_val_to_name p) (class_val_to_struct p)
      (role_val_to_struct p) (user_val_to_struct p) (type_val_to_struct p) (te_avtab p) (te_cond_avtab p)
      (bool_val_to_struct p) (cond_list p) (p_role_tr p) (p_filename_trans p) (p_role_allow p) (p_range_tr p)
      (type_attr_map p) (permissive_map p) (attr_type_map p) (ocontexts p) (p_genfs p))
    (p_commons db) (p_scope db) (p_global db) (decl_val_to_struct db) (p_common_val_to_name db) (p_bool_val_to_name db)
    (policycaps db) unknown target (db_name db) (db_version db) (unsupported_format db).
(** the code and the database *)
Definition policydb_set_target_platform (db : database) (platform : Z) : Z * database := let p := db_policy db in
  if (platform =? SEPOL_TARGET_SELINUX) || (platform =? SEPOL_TARGET_XEN)
  then (0, with_format db (policy_type p) (policyvers p) (mls p) (handle_unknown db) platform) else (-1, db).
Definition with_name (db : database) (name version : option string) : database :=
  Database (db_policy db) (p_commons db) (p_scope db) (p_global db) (decl_val_to_struct db) (p_common_val_to_name db) (p_bool_val_to_name db)
    (policycaps db) (handle_unknown db) (target_platform db) name version (unsupported_format db).
Definition with_maps (db : database) (caps permissive : ebitmap) : database := let p := db_policy db in
  Database (Policydb (policy_type p) (policyvers p) (mls p) (p_classes p) (p_roles p) (p_types p) (p_users p) (p_bools p)
      (p_levels p) (p_cats p) (p_sens_val_to_name p) (p_cat_val_to_name p) (p_class_val_to_name p)
      (p_role_val_to_name p) (p_type_val_to_name p) (p_user_val_to_name p) (class_val_to_struct p)
      (role_val_to_struct p) (user_val_to_struct p) (type_val_to_struct p) (te_avtab p) (te_cond_avtab p)
      (bool_val_to_struct p) (cond_list p) (p_role_tr p) (p_filename_trans p) (p_role_allow p) (p_range_tr p)
      (type_attr_map p) permissive (attr_type_map p) (ocontexts p) (p_genfs p))
    (p_commons db) (p_scope db) (p_global db) (decl_val_to_struct db) (p_common_val_to_name db) (p_bool_val_to_name db)
    caps (handle_unknown db) (target_platform db) (db_name db) (db_version db) (unsupported_format db).
Definition with_symtabs (db : database) (st : symtabs) : database := let p := db_policy db in
  Database (Policydb (policy_type p) (policyvers p) (mls p) (st_classes st) (st_roles st) (st_types st) (st_users st) (st_bools st)
      (st_levels st) (st_cats st) (p_sens_val_to_name p) (p_cat_val_to_name p) (p_class_val_to_name p)
      (p_role_val_to_name p) (p_type_val_to_name p) (p_user_val_to_name p) (class_val_to_struct p)
      (role_val_to_struct p) (user_val_to_struct p) (type_val_to_struct p) (te_avtab p) (te_cond_avtab p)
      (bool_val_to_struct p) (cond_list p) (p_role_tr p) (p_filename_trans p) (p_role_allow p) (p_range_tr p)
      (type_attr_map p) (permissive_map p) (attr_type_map p) (ocontexts p) (p_genfs p))
    (st_commons st) (p_scope db) (p_global db) (decl_val_to_struct db) (p_common_val_to_name db) (p_bool_val_to_name db)
    (policycaps db) (handle_unknown db) (target_platform db) (db_name db) (db_version db) (unsupported_format db).
Definition with_rules (p : policydb) (te ctab : avtab) (conds : list cond_node) (role_tr : list role_trans)
    (role_allow : list role_allow) (filename_tr : list filename_trans) : policydb :=
  Policydb (policy_type p) (policyvers p) (mls p) (p_classes p) (p_roles p) (p_types p) (p_users p) (p_bools p)
    (p_levels p) (p_cats p) (p_sens_val_to_name p) (p_cat_val_to_name p) (p_class_val_to_name p)
    (p_role_val_to_name p) (p_type_val_to_name p) (p_user_val_to_name p) (class_val_to_struct p)
    (role_val_to_struct p) (user_val_to_struct p) (type_val_to_struct p) te ctab
    (bool_val_to_struct p) conds role_tr filename_tr role_allow (p_range_tr p)
    (type_attr_map p) (permissive_map p) (attr_type_map p) (ocontexts p) (p_genfs p).
Definition with_blocks (db : database) (ctab : avtab) (blocks : list avrule_block) (scopes : list (symtab scope_datum)) : database :=
  Database (with_conds (db_policy db) ctab (cond_list (db_policy db)))
    (p_commons db) scopes blocks (decl_val_to_struct db) (p_common_val_to_name db) (p_bool_val_to_name db)
    (policycaps db) (handle_unknown db) (target_platform db) (db_name db) (db_version db) (unsupported_format db).
Definition with_ranges (p : policydb) (ranges : list range_trans) : policydb :=
  Policydb (policy_type p) (policyvers p) (mls p) (p_classes p) (p_roles p) (p_types p) (p_users p) (p_bools p)
    (p_levels p) (p_cats p) (p_sens_val_to_name p) (p_cat_val_to_name p) (p_class_val_to_name p)
    (p_role_val_to_name p) (p_type_val_to_name p) (p_user_val_to_name p) (class_val_to_struct p)
    (role_val_to_struct p) (user_val_to_struct p) (type_val_to_struct p) (te_avtab p) (te_cond_avtab p)
    (bool_val_to_struct p) (cond_list p) (p_role_tr p) (p_filename_trans p) (p_role_allow p) ranges
    (type_attr_map p) (permissive_map p) (attr_type_map p) (ocontexts p) (p_genfs p).
Definition with_attr_maps (p : policydb) (type_attr attr_type : list ebitmap) : policydb :=
  Policydb (policy_type p) (policyvers p) (mls p) (p_classes p) (p_roles p) (p_types p) (p_users p) (p_bools p)
    (p_levels p) (p_cats p) (p_sens_val_to_name p) (p_cat_val_to_name p) (p_class_val_to_name p)
    (p_role_val_to_name p) (p_type_val_to_name p) (p_user_val_to_name p) (class_val_to_struct p)
    (role_val_to_struct p) (user_val_to_struct p) (type_val_to_struct p) (te_avtab p) (te_cond_avtab p)
    (bool_val_to_struct p) (cond_list p) (p_role_tr p) (p_filename_trans p) (p_role_allow p) (p_range_tr p)
    type_attr (permissive_map p) attr_type (ocontexts p) (p_genfs p).

(** the store [p->global->enabled->range_tr_rules = rules]; the array of
    declarations, which points to them, sees it too *)
Definition with_range_rules (rules : list range_trans_rule) (d : avrule_decl) : avrule_decl :=
  AvruleDecl (decl_id d) (decl_enabled d) (decl_cond_list d) (decl_avrules d) (role_tr_rules d) (role_allow_rules d)
    rules (decl_required d) (decl_declared d) (filename_trans_rules d) (decl_symtab d) (module_name d).
Definition enabled_decl (db : database) : option nat := b ← head (p_global db); blk_enabled b.
Definition set_range_rules (db : database) (rules : list range_trans_rule) : database :=
  match p_global db, enabled_decl db with
  | b :: blocks, Some i =>
      let blocks := AvruleBlock (alter (with_range_rules rules) i (branch_list b)) (Some i) (blk_flags b) :: blocks in
      Database (db_policy db) (p_commons db) (p_scope db) blocks
        (foldl (λ a d, <[Z.to_nat (decl_id d - 1) := Some d]> a) (decl_val_to_struct db) (blocks ≫= branch_list))
        (p_common_val_to_name db) (p_bool_val_to_name db)
        (policycaps db) (handle_unknown db) (target_platform db) (db_name db) (db_version db) (unsupported_format db)
  | _, _ => db
  end.

Section io.
Context `{Target}.

(** ** Reading *)

(** [if (f(p)) goto bad;] *)
Definition run_sum {A} (m : CM (Z + A)) : Reader A := λ fp, mbind (M := CM) (λ r, mret (M := CM) (r, fp)) m.
(** the string that names the target, or a module *)
Definition read_target (kernel : bool) (len current : Z) : Reader Z :=
  str ← read_key len;
  if kernel then
    if String.eqb str POLICYDB_STRING then mret SEPOL_TARGET_SELINUX
    else if String.eqb str POLICYDB_XEN_STRING then mret SEPOL_TARGET_XEN
    else fail POLICYDB_ERROR
  else if String.eqb str POLICYDB_MOD_STRING then mret current else fail POLICYDB_ERROR.
Definition version_known (type vers : Z) : bool :=
  if type =? POLICY_KERN then (POLICYDB_VERSION_MIN <=? vers) && (vers <=? POLICYDB_VERSION_MAX)
  else (MOD_POLICYDB_VERSION_MIN <=? vers) && (vers <=? MOD_POLICYDB_VERSION_MAX).
(** the sizes of the format, and the database with what the header says *)
Definition read_header (db : database) : Reader (policydb_compat_info * database) :=
  buf ← or_fail POLICYDB_ERROR (get_entry 8);
  let magic := le_to_cpu 4 buf 0 in
  let len := le_to_cpu 4 buf 1 in
  if negb (magic =? POLICYDB_MAGIC) && negb (magic =? POLICYDB_MOD_MAGIC) then fail POLICYDB_ERROR else
  let kernel := magic =? POLICYDB_MAGIC in
  if POLICYDB_STRING_MAX_LENGTH <? len then fail POLICYDB_ERROR else
  target ← read_target kernel len (target_platform db);
  buf ← or_fail POLICYDB_ERROR (get_entry (if kernel then 16 else 20));
  let word i := le_to_cpu 4 buf (if kernel then i else S i) in
  let type := if kernel then POLICY_KERN else le_to_cpu 4 buf 0 in
  if negb kernel && negb (type =? POLICY_MOD) && negb (type =? POLICY_BASE) then fail POLICYDB_ERROR else
  if negb (version_known type (word 0%nat)) then fail POLICYDB_ERROR else
  let db := with_format db type (word 0%nat) (if truth (Z.land (word 1%nat) POLICYDB_CONFIG_MLS) then 1 else 0)
              (Z.land (word 1%nat) POLICYDB_CONFIG_UNKNOWN_MASK) target in
  match policydb_lookup_compat (word 0%nat) type target with
  | None => fail POLICYDB_ERROR
  | Some info =>
      if negb (word 2%nat =? ci_sym_num info) || negb (word 3%nat =? ci_ocon_num info) then fail POLICYDB_ERROR
      else mret (info, db)
  end.
(** the name and version of a module *)
Definition read_module_name (db : database) : Reader database :=
  if negb (policy_type (db_policy db) =? POLICY_MOD) then mret db else
  buf ← or_fail POLICYDB_ERROR (get_entry 4);
  name ← read_key (le_to_cpu 4 buf 0);
  buf ← or_fail POLICYDB_ERROR (get_entry 4);
  version ← read_key (le_to_cpu 4 buf 0);
  mret (with_name db (Some name) (Some version)).
Definition has_policycaps (p : policydb) : bool := since POLICYDB_VERSION_POLCAP MOD_POLICYDB_VERSION_POLCAP p.
Definition has_permissive_map (p : policydb) : bool := kern p && (POLICYDB_VERSION_PERMISSIVE <=? policyvers p).
Definition read_maps (db : database) : Reader database :=
  let p := db_policy db in
  caps ← (if has_policycaps p then or_fail POLICYDB_ERROR get_ebitmap else mret (policycaps db));
  permissive ← (if has_permissive_map p then or_fail POLICYDB_ERROR get_ebitmap else mret (permissive_map p));
  mret (with_maps db caps permissive).
Definition read_symtabs (info : policydb_compat_info) (db : database) : Reader database :=
  st ← or_fail POLICYDB_ERROR (symtabs_read (ci_sym_num info) (db_policy db) table (symtabs_of db));
  mret (with_symtabs db st).

Definition read_avtab (junk : list byte) (p : policydb) : Reader avtab := λ fp,
  mbind (M := CM) (λ '(rc, a, fp), mret (M := CM) (if truth rc then inl POLICYDB_ERROR else inr a, fp))
    (avtab_read junk (te_avtab p) fp (policyvers p)).
Definition read_kernel_rules (junk : list byte) (p : policydb) : Reader policydb :=
  te ← read_avtab junk p;
  let p := with_rules p te (te_cond_avtab p) (cond_list p) (p_role_tr p) (p_role_allow p) (p_filename_trans p) in
  '(ctab, conds) ← (if POLICYDB_VERSION_BOOL <=? policyvers p then or_fail POLICYDB_ERROR (cond_read_list junk p)
                    else mret (te_cond_avtab p, cond_list p));
  role_tr ← or_fail POLICYDB_ERROR (role_trans_read p);
  role_allow ← or_fail POLICYDB_ERROR role_allow_read;
  filename_tr ← (if POLICYDB_VERSION_FILENAME_TRANS <=? policyvers p then or_fail POLICYDB_ERROR filename_trans_read
                 else mret (p_filename_trans p));
  mret (with_rules p te ctab conds role_tr role_allow filename_tr).
(** one round of the loop over the scopes of the [n] tables *)
Definition scope_round {D} (n i : nat) (symbols : symtab D) (scopes : list (symtab scope_datum)) : Reader (list (symtab scope_datum)) :=
  if negb (Nat.ltb i n) then mret scopes else
  match scopes !! i with
  | None => stuck
  | Some s => s ← or_fail POLICYDB_ERROR (scopes_read i (table symbols) s); mret (<[i := s]> scopes)
  end.
Definition all_scopes_read (n : nat) (st : symtabs) (scopes : list (symtab scope_datum)) : Reader (list (symtab scope_datum)) :=
  scopes ← scope_round n SYM_COMMONS (st_commons st) scopes;
  scopes ← scope_round n SYM_CLASSES (st_classes st) scopes;
  scopes ← scope_round n SYM_ROLES (st_roles st) scopes;
  scopes ← scope_round n SYM_TYPES (st_types st) scopes;
  scopes ← scope_round n SYM_USERS (st_users st) scopes;
  scopes ← scope_round n SYM_BOOLS (st_bools st) scopes;
  scopes ← scope_round n SYM_LEVELS (st_levels st) scopes;
  scope_round n SYM_CATS (st_cats st) scopes.
Definition read_module_rules (junk : list byte) (info : policydb_compat_info) (db : database) : Reader database :=
  '(ctab, blocks) ← or_fail POLICYDB_ERROR (avrule_block_read junk (db_policy db) (table (p_commons db)) (ci_sym_num info));
  scopes ← all_scopes_read (ci_sym_num info) (symtabs_of db) (p_scope db);
  mret (with_blocks db ctab blocks scopes).
Definition read_rules (junk : list byte) (info : policydb_compat_info) (db : database) : Reader database :=
  if kern (db_policy db) then p ← read_kernel_rules junk (db_policy db); mret (with_policy db p)
  else read_module_rules junk info db.

Definition policydb_index (db : database) : Reader database :=
  db ← or_fail POLICYDB_ERROR (run_sum (policydb_index_decls db));
  db ← or_fail POLICYDB_ERROR (run_sum (policydb_index_classes db));
  or_fail POLICYDB_ERROR (run_sum (policydb_index_others db)).

Definition read_file_systems (p : policydb) : Reader (list genfs) := λ fp,
  mbind (M := CM) (λ '(rc, l, freed, fp), mret (M := CM) (if rc =? -1 then inl POLICYDB_ERROR else inr l, fp)) (genfs_read p fp).
Definition has_ranges (p : policydb) : bool :=
  kern p && (POLICYDB_VERSION_MLS <=? policyvers p) ||
  (policy_type p =? POLICY_BASE) && (MOD_POLICYDB_VERSION_MLS <=? policyvers p) && (policyvers p <? MOD_POLICYDB_VERSION_RANGETRANS).
(** rules without a declaration to put them into: the first is a store through a
    null pointer *)
Definition read_ranges (db : database) : Reader database :=
  let p := db_policy db in
  if negb (has_ranges p) then mret db else
  '(ranges, rules) ←
    or_fail POLICYDB_ERROR
      (match enabled_decl db, kern p with
       | None, false =>
           buf ← or_fail (-1) (get_entry 4);
           l ← times (le_to_cpu 4 buf 0) (λ l, rt ← read_range_trans p; mret (l ++ [rt])) [];
           (match match l with [] => p_range_tr p | _ => l end with [] => mret ([], []) | _ => _ ← new (-1); stuck end)
       | _, _ => range_read p
       end);
  let db := with_policy db (with_ranges p ranges) in
  mret (match rules with [] => db | _ => set_range_rules db rules end).
Definition read_objects (info : policydb_compat_info) (db : database) : Reader database :=
  let p := db_policy db in
  o ← or_fail POLICYDB_ERROR (ocontext_read (target_platform db) (ci_ocon_num info) p);
  let p := with_ocontexts p o (p_genfs p) in
  g ← read_file_systems p;
  read_ranges (with_policy db (with_ocontexts p o g)).

(** the loop over the attributes of the type [i]: each gets the type; an
    attribute is a value below the length of the array *)
Definition add_to_attrs (i : Z) (attrs : ebitmap) (attr_type : list ebitmap) : CM (unit + list ebitmap) :=
  r ← ebitmap_for_each_bit attrs (λ bit j m,
        if negb bit || (i =? j) then mret (inr m) else
        e ← deref (m !! Z.to_nat j);
        '(rc, e) ← ebitmap_set_bit e i 1;
        mret (if truth rc then inl () else inr (<[Z.to_nat j := e]> m))) attr_type;
  mret (match r with inl u => inl u | inr (m, _) => inr m end).
(** the number of the type, and both maps *)
Definition read_attr_map (p : policydb) (st : Z * list ebitmap * list ebitmap) : Reader (Z * list ebitmap * list ebitmap) :=
  let '(i, type_attr, attr_type) := st in
  e ← (if POLICYDB_VERSION_AVTAB <=? policyvers p then or_fail POLICYDB_ERROR get_ebitmap else mret ebitmap_init);
  attr_type ← (if POLICYDB_VERSION_AVTAB <=? policyvers p then
                 m ← total (add_to_attrs i e attr_type);
                 match m with inl _ => fail POLICYDB_ERROR | inr m => mret m end
               else mret attr_type);
  e ← or_fail POLICYDB_ERROR (lift (ebitmap_set_bit e i 1));
  mret (i + 1, type_attr ++ [e], attr_type).
(** two arrays of bitmaps, whose size may not fit *)
Definition read_attr_maps (p : policydb) : Reader policydb :=
  let n := nprim (p_types p) in
  a ← total malloc;
  b ← total malloc;
  match a, b with
  | Some _, Some _ =>
      if szt (n * ebitmap_bytes_size) <? n * ebitmap_bytes_size then stuck else
      '(_, type_attr, attr_type) ← times n (read_attr_map p) (0, [], replicate (Z.to_nat n) ebitmap_init);
      mret (with_attr_maps p type_attr attr_type)
  | _, _ => fail POLICYDB_ERROR
  end.

Definition policydb_read (junk : list byte) (db : database) : Reader database :=
  '(info, db) ← read_header db;
  db ← read_module_name db;
  db ← read_maps db;
  db ← read_symtabs info db;
  db ← read_rules junk info db;
  db ← policydb_index db;
  db ← read_objects info db;
  if kern (db_policy db) then p ← read_attr_maps (db_policy db); mret (with_policy db p) else mret db.

(** ** Writing *)

Definition put_word_name (s : option string) : Writer :=
  match s with
  | None => λ _, undefined
  | Some s => put_words [strlen_of s];;; put_name s
  end.
(** MLS in a format without it *)
Definition mls_unsupported (p : policydb) : bool :=
  truth (mls p) && negb (since POLICYDB_VERSION_MLS MOD_POLICYDB_VERSION_MLS p).
Definition config (db : database) : Z :=
  Z.lor (if truth (mls (db_policy db)) then POLICYDB_CONFIG_MLS else 0) (Z.land POLICYDB_CONFIG_UNKNOWN_MASK (handle_unknown db)).
Definition target_string (target : Z) : option string :=
  if target =? SEPOL_TARGET_SELINUX then Some POLICYDB_STRING else if target =? SEPOL_TARGET_XEN then Some POLICYDB_XEN_STRING else None.
Definition write_strings (db : database) : Writer :=
  let p := db_policy db in
  match (if kern p then target_string (target_platform db) else Some POLICYDB_MOD_STRING) with
  | None => λ _, undefined
  | Some str => put_words [if kern p then POLICYDB_MAGIC else POLICYDB_MOD_MAGIC; strlen_of str];;; put_name str
  end.
Definition write_sizes (db : database) (info : policydb_compat_info) : Writer :=
  let p := db_policy db in
  put_words ((if kern p then [] else [policy_type p]) ++
             [policyvers p; config db; Z.of_nat (ci_sym_num info); Z.of_nat (ci_ocon_num info)]);;;
  (if policy_type p =? POLICY_MOD then put_word_name (db_name db);;; put_word_name (db_version db) else done).
(** permissive types that the format does not have are only warned of *)
Definition warn_permissive (p : policydb) : Writer := λ fp,
  _ ← ebitmap_for_each_bit (permissive_map p) (λ bit _ _, mret (if bit : bool then inl () else inr ())) ();
  done fp.
Definition write_maps (db : database) : Writer :=
  let p := db_policy db in
  (if has_policycaps p then put_ebitmap (policycaps db) else done);;;
  (if kern p && (policyvers p <? POLICYDB_VERSION_PERMISSIVE) then warn_permissive p else done);;;
  (if has_permissive_map p then put_ebitmap (permissive_map p) else done).
Definition write_kernel_rules (p : policydb) : Writer :=
  avtab_write p (te_avtab p);;;
  (if policyvers p <? POLICYDB_VERSION_BOOL then done else cond_write_list p (cond_list p));;;
  role_trans_write p (p_role_tr p);;;
  role_allow_write (p_role_allow p);;;
  (if POLICYDB_VERSION_FILENAME_TRANS <=? policyvers p then filename_trans_write (p_filename_trans p) else done).
(** the first [n] scopes *)
Definition all_scopes_write (n : nat) (scopes : list (symtab scope_datum)) : Writer :=
  write_each scopes_write (take n scopes);;; (if Nat.ltb (length scopes) n then λ _, undefined else done).
Definition write_rules (db : database) (info : policydb_compat_info) : Writer :=
  let p := db_policy db in
  if kern p then write_kernel_rules p
  else avrule_block_write (p_global db) (ci_sym_num info) p;;; all_scopes_write (ci_sym_num info) (p_scope db).
Definition write_attr_maps (p : policydb) : Writer :=
  let n := Z.to_nat (nprim (p_types p)) in
  write_each put_ebitmap (take n (type_attr_map p));;; (if Nat.ltb (length (type_attr_map p)) n then λ _, undefined else done).
Definition policydb_write (db : database) : Writer :=
  let p := db_policy db in
  if truth (unsupported_format db) then λ fp, mret (M := CM) (POLICYDB_UNSUPPORTED, fp) else
  if mls_unsupported p then refuse else
  write_strings db;;;
  match policydb_lookup_compat (policyvers p) (policy_type p) (target_platform db) with
  | None => refuse
  | Some info =>
      write_sizes db info;;;
      write_maps db;;;
      symtabs_write (ci_sym_num info) p (symtabs_of db);;;
      write_rules db info;;;
      ocontext_write (target_platform db) (ci_ocon_num info) p;;;
      genfs_write p;;;
      (if has_ranges p then range_write p else done);;;
      (if kern p && (POLICYDB_VERSION_AVTAB <=? policyvers p) then write_attr_maps p else done)
  end.
End io.

(** ** Theory: the stages of a kernel policy *)

Section stages.
Context `{Target}.
Implicit Types (p : policydb) (db : database) (bs : list byte).

(** formats with numbers of their own *)
Record kernel_format db (info : policydb_compat_info) : Prop := {
  kf_type : policy_type (db_policy db) = POLICY_KERN;
  kf_version : POLICYDB_VERSION_AVTAB ≤ policyvers (db_policy db);
  kf_info : policydb_lookup_compat (policyvers (db_policy db)) POLICY_KERN (target_platform db) = Some info;
  kf_mls : mls (db_policy db) = 0 ∨ mls (db_policy db) = 1;
  kf_unknown : Z.land POLICYDB_CONFIG_UNKNOWN_MASK (handle_unknown db) = handle_unknown db;
  kf_supported : unsupported_format db = 0
}.
(** what the table of formats says of kernel policies *)
Lemma kernel_formats v target info :
  policydb_lookup_compat v POLICY_KERN target = Some info →
  POLICYDB_VERSION_MIN ≤ v ≤ POLICYDB_VERSION_MAX ∧ ci_version info = v ∧ ci_target_platform info = target ∧
  (target = SEPOL_TARGET_SELINUX ∨ target = SEPOL_TARGET_XEN ∧ v = POLICYDB_VERSION_BOUNDARY).
Proof.
  unfold policydb_lookup_compat. destruct (list_find _ policydb_compat) as [[i x]|] eqn:E; [|done]. intros [= <-].
  apply list_find_Some in E as (Hx&Hp&_). rewrite !andb_true_iff, !Z.eqb_eq in Hp. destruct Hp as [[<- Ht] <-].
  assert (Hall : Forall (λ info, ci_type info = POLICY_KERN →
    (POLICYDB_VERSION_MIN ≤ ci_version info ≤ POLICYDB_VERSION_MAX) ∧
    (ci_target_platform info = SEPOL_TARGET_SELINUX ∨ ci_target_platform info = SEPOL_TARGET_XEN ∧ ci_version info = POLICYDB_VERSION_BOUNDARY)) policydb_compat).
  { unfold policydb_compat. cbn [app fmap list_fmap module_versions].
    repeat (apply Forall_cons; split; [intros E; first [by vm_compute in E|split; [by vm_compute|first [by left|by right]]]|]). constructor. }
  rewrite Forall_lookup in Hall. destruct (Hall _ _ Hx Ht) as [Hv Htg]. done.
Qed.
Lemma unknown_values u : Z.land POLICYDB_CONFIG_UNKNOWN_MASK u = u → u = 0 ∨ u = 2 ∨ u = 4 ∨ u = 6.
Proof.
  intros E. assert (Hm : Z.land POLICYDB_CONFIG_UNKNOWN_MASK u = Z.land POLICYDB_CONFIG_UNKNOWN_MASK (u mod 8)).
  { change 8 with (2 ^ 3). rewrite <- Z.land_ones, (Z.land_comm u), Z.land_assoc by done. done. }
  rewrite E in Hm. pose proof (Z.mod_pos_bound u 8 ltac:(done)) as Hb. rewrite Hm. clear E Hm.
  assert (Hc : u mod 8 = 0 ∨ u mod 8 = 1 ∨ u mod 8 = 2 ∨ u mod 8 = 3 ∨ u mod 8 = 4 ∨ u mod 8 = 5 ∨ u mod 8 = 6 ∨ u mod 8 = 7) by lia.
  repeat (destruct Hc as [->|Hc]; [vm_compute; tauto|]). rewrite Hc. vm_compute. tauto.
Qed.
(** the word that holds both *)
Lemma config_word db info : kernel_format db info →
  word (config db) ∧ Z.land (config db) POLICYDB_CONFIG_UNKNOWN_MASK = handle_unknown db ∧
  (if truth (Z.land (config db) POLICYDB_CONFIG_MLS) then 1 else 0) = mls (db_policy db).
Proof.
  intros [_ _ _ Hm Hu _]. unfold config. rewrite Hu. destruct Hm as [-> | ->], (unknown_values _ Hu) as [-> |[-> |[-> | ->]]]; by vm_compute.
Qed.

(** the database that is read into, with the header *)
Definition with_header db0 db : database :=
  with_format db0 (policy_type (db_policy db)) (policyvers (db_policy db)) (mls (db_policy db)) (handle_unknown db) (target_platform db).
Definition header_bytes db info : list byte :=
  (cpu_to_le 4 [POLICYDB_MAGIC; 8] ++ String.list_byte_of_string (default EmptyString (target_string (target_platform db)))) ++
  cpu_to_le 4 [policyvers (db_policy db); config db; Z.of_nat (ci_sym_num info); Z.of_nat (ci_ocon_num info)].
Lemma kernel_target db info : kernel_format db info →
  (target_platform db = SEPOL_TARGET_SELINUX ∨ target_platform db = SEPOL_TARGET_XEN) ∧ POLICYDB_VERSION_MIN ≤ policyvers (db_policy db) ≤ POLICYDB_VERSION_MAX.
Proof. intros Hf. destruct (kernel_formats _ _ _ (kf_info _ _ Hf)) as (Hv&_&_&Ht). split; [naive_solver|done]. Qed.
Lemma header_writes db info : kernel_format db info →
  writes (write_strings db) (cpu_to_le 4 [POLICYDB_MAGIC; 8] ++ String.list_byte_of_string (default EmptyString (target_string (target_platform db)))) ∧
  writes (write_sizes db info) (cpu_to_le 4 [policyvers (db_policy db); config db; Z.of_nat (ci_sym_num info); Z.of_nat (ci_ocon_num info)]).
Proof.
  intros Hf. unfold write_strings, write_sizes, kern. rewrite (kf_type _ _ Hf). split.
  - destruct (proj1 (kernel_target _ _ Hf)) as [-> | ->]; (apply writes_then; [by apply writes_words|by apply writes_name]).
  - rewrite <- (app_nil_r (cpu_to_le 4 _)). apply writes_then; [by apply writes_words|apply writes_done].
Qed.
Lemma header_reads db0 db info : kernel_format db info →
  reads_ok (read_header db0) (header_bytes db info) (λ r, r = (info, with_header db0 db)).
Proof.
  intros Hf. destruct (kernel_target _ _ Hf) as [Ht Hv]. destruct (config_word _ _ Hf) as (Hcw&Hu&Hm).
  assert (Hn : word (ci_sym_num info) ∧ word (ci_ocon_num info)).
  { pose proof (kf_info _ _ Hf) as E. unfold policydb_lookup_compat in E. destruct (list_find _ policydb_compat) as [[i x]|] eqn:El; [|done].
    injection E as ->. apply list_find_Some in El as (Hx&_&_).
    assert (Hall : Forall (λ info, word (ci_sym_num info) ∧ word (ci_ocon_num info)) policydb_compat) by (by repeat constructor).
    rewrite Forall_lookup in Hall. by apply (Hall i). }
  unfold header_bytes. rewrite <- app_assoc. unfold read_header.
  eapply reads_ok_bind; [by apply reads_ok_words|intros ? ->]. cbv zeta. rewrite (le_word _ 0 POLICYDB_MAGIC), (le_word _ 1 8) by done.
  change (negb (POLICYDB_MAGIC =? POLICYDB_MAGIC) && negb (POLICYDB_MAGIC =? POLICYDB_MOD_MAGIC)) with false. change (POLICYDB_STRING_MAX_LENGTH <? 8) with false.
  change (POLICYDB_MAGIC =? POLICYDB_MAGIC) with true. cbn match.
  eapply (reads_ok_bind _ _ _ _ (λ t, t = target_platform db)).
  { unfold read_target. destruct Ht as [-> | ->];
      (eapply reads_ok_bind_last; [apply reads_ok_of, key_reads; [by split; [vm_compute|]|done]|intros ? ->]; by apply reads_ok_ret). }
  intros ? ->. eapply reads_ok_bind_last; [by apply reads_ok_words|intros ? ->].
  rewrite (le_word _ 0 (policyvers (db_policy db))), (le_word _ 1 (config db)), (le_word _ 2 (ci_sym_num info)), (le_word _ 3 (ci_ocon_num info)) by (done || (unfold word, POLICYDB_VERSION_MAX, POLICYDB_VERSION_MIN, POLICYDB_VERSION_BASE, POLICYDB_VERSION_CONSTRAINT_NAMES in *; naive_solver lia)).
  cbn [negb andb]. unfold version_known. rewrite Z.eqb_refl, (proj2 (Z.leb_le _ _) (proj1 Hv)), (proj2 (Z.leb_le _ _) (proj2 Hv)). cbn [andb negb].
  rewrite (kf_info _ _ Hf), !Z.eqb_refl. cbn [orb negb]. apply reads_ok_ret. unfold with_header. by rewrite Hu, Hm, (kf_type _ _ Hf).
Qed.
End stages.
