(* ===== verification/WholePolicy.v ===== *)
(** * Kernel policies written and read back

    The round trips of the parts put together: [policydb_read], on a database as
    [policydb_init] makes it, of what [policydb_write] writes. *)

From S2P Require Import Prelude PolicyFile Hashtab Ebitmap EbitmapIO Symtab Tables Context Avtab AvtabIO Policydb Conditional Mls Constraint Services ContextText SidQueries ExpandSets ExpandRules Readers ContextIO RulesIO SymbolsIO OcontextIO CondIO Scopes ModuleIO Index PolicydbIO.

Section stages.
Context `{Target}.
Implicit Types (p q : policydb) (db : database) (bs : list byte).

Lemma trip_fail {A} w (r : Reader A) e P : truth e = true → trip_ok w r P → trip_ok w (or_fail e r) P.
Proof. intros He (bs&Hw&Hr). exists bs. split; [done|by apply reads_ok_or_fail]. Qed.

(** *** Maps *)

Definition maps_of db0 db : database :=
  with_maps db0 (if has_policycaps (db_policy db) then policycaps db else policycaps db0)
    (if has_permissive_map (db_policy db) then permissive_map (db_policy db) else permissive_map (db_policy db0)).
Lemma warn_permissive_writes p : ebitmap_wf (permissive_map p) → writes (warn_permissive p) [].
Proof.
  intros He out room h Hr. unfold warn_permissive, mbind, CM_bind. rewrite ebitmap_for_each_bit_eq by done.
  assert (Hl : ∀ l, ∃ r : () + (), for_list l (λ i (_ : ()), mret (M := CM) (if nodes_bit (node (permissive_map p)) i then inl () else inr ())) () h = Some (r, h)).
  { induction l as [|i l [r IH]]; [by eexists|]. cbn [for_list]. destruct (nodes_bit _ i) eqn:Ei; [|exists r]; unfold mbind, CM_bind; cbn; [by eexists|exact IH]. }
  unfold fmap, CM_fmap, mbind, CM_bind. destruct (Hl (nodes_span (node (permissive_map p)))) as [r ->]. cbn. by apply writes_done.
Qed.
Lemma maps_trip db0 db :
  policy_type (db_policy db0) = policy_type (db_policy db) → policyvers (db_policy db0) = policyvers (db_policy db) →
  ebitmap_wf (policycaps db) → ebitmap_wf (permissive_map (db_policy db)) →
  trip_ok (write_maps db) (read_maps db0) (λ d, d = maps_of db0 db).
Proof.
  intros Ht Hv Hc Hp.
  assert (Hcap : has_policycaps (db_policy db0) = has_policycaps (db_policy db)) by (unfold has_policycaps, since, kern; by rewrite Ht, Hv).
  assert (Hper : has_permissive_map (db_policy db0) = has_permissive_map (db_policy db)) by (unfold has_permissive_map, kern; by rewrite Ht, Hv).
  assert (Hmap : ∀ e, ebitmap_wf e → trip_ok (put_ebitmap e) (or_fail POLICYDB_ERROR get_ebitmap) (λ e', e' = e)).
  { intros e He. exists (ebitmap_bytes e). split; [by apply writes_ebitmap|]. by apply reads_ok_of, reads_or_fail, reads_ebitmap. }
  unfold write_maps, read_maps. rewrite Hcap, Hper.
  eapply trip_eq; [by apply optional_trip, Hmap|].
  assert (Hw : writes (if kern (db_policy db) && (policyvers (db_policy db) <? POLICYDB_VERSION_PERMISSIVE) then warn_permissive (db_policy db) else done) []).
  { case_match; [by apply warn_permissive_writes|apply writes_done]. }
  destruct (optional_trip (has_permissive_map (db_policy db)) _ _ _ (permissive_map (db_policy db0)) (Hmap _ Hp)) as (bs&Wb&Rb).
  exists bs. split; [by apply (writes_then _ _ [])|]. eapply reads_ok_bind_last; [exact Rb|]. intros ? ->. by apply reads_ok_ret.
Qed.

(** *** Tables *)

Lemma commons_back p tc (s s' : symtab common_datum) :
  table s = Some tc → size tc = 2 → table_storable p (Some tc) s → symtab_back p (Some tc) 2 ∅ s s' → table s' = Some tc.
Proof.
  intros Ht Hsz [(t&Et&Hw&_) _] [_ (t'&Et'&Hh)]. rewrite Ht in Et, Et'. injection Et as <-. injection Et' as <-.
  eapply holds_unique; [exact Hh|]. exists tc. split_and!; [done..|]. rewrite map_union_empty. unfold map_kept. cbn.
  rewrite map_fmap_id. symmetry. by apply map_filter_id.
Qed.
(** the table of commons, in which [class_read] looks, is read as it was *)
Lemma symtabs_trip p tc st st0 :
  symtabs_storable p (Some tc) st → table (st_commons st) = Some tc → size tc = 2 →
  st0 = with_roles (fresh_symtabs symtab_sizes) (st_roles st0) → holds 16 (table (st_roles st0)) {[ OBJECT_R := object_r_role ]} →
  trip_ok (symtabs_write SYM_NUM p st) (symtabs_read SYM_NUM p table st0)
    (symtabs_back p (Some tc) symtab_sizes {[ OBJECT_R := object_r_role ]} st).
Proof.
  intros (H1&H2&H3&H4&H5&H6&H7&H8) Htc Hsz -> Hr.
  assert (Hfresh : ∀ sz : Z, 0 < sz < 2 ^ 31 → ∀ D, holds sz (table (fresh_symtab (D := D) sz)) ∅) by (intros; by apply fresh_holds).
  destruct (symtab_trip p (Some tc) 2 (st_commons st) (fresh_symtab 2) ∅ H1) as (b1&W1&R1); [by apply Hfresh|done|].
  destruct (symtab_trip p (Some tc) 32 (st_classes st) (fresh_symtab 32) ∅ H2) as (b2&W2&R2); [by apply Hfresh|done|].
  destruct (symtab_trip p (Some tc) 16 (st_roles st) (st_roles st0) _ H3 Hr) as (b3&W3&R3).
  { intros t k d Ht Hin _ Hk. apply lookup_singleton_ne. intros <-. done. }
  destruct (symtab_trip p (Some tc) 512 (st_types st) (fresh_symtab 512) ∅ H4) as (b4&W4&R4); [by apply Hfresh|done|].
  destruct (symtab_trip p (Some tc) 128 (st_users st) (fresh_symtab 128) ∅ H5) as (b5&W5&R5); [by apply Hfresh|done|].
  destruct (symtab_trip p (Some tc) 16 (st_bools st) (fresh_symtab 16) ∅ H6) as (b6&W6&R6); [by apply Hfresh|done|].
  destruct (symtab_trip p (Some tc) 16 (st_levels st) (fresh_symtab 16) ∅ H7) as (b7&W7&R7); [by apply Hfresh|done|].
  destruct (symtab_trip p (Some tc) 16 (st_cats st) (fresh_symtab 16) ∅ H8) as (b8&W8&R8); [by apply Hfresh|done|].
  exists (b1 ++ b2 ++ b3 ++ b4 ++ b5 ++ b6 ++ b7 ++ b8). split.
  - exact (writes_then _ _ _ _ W1 (writes_then _ _ _ _ W2 (writes_then _ _ _ _ W3 (writes_then _ _ _ _ W4
      (writes_then _ _ _ _ W5 (writes_then _ _ _ _ W6 (writes_then _ _ _ _ W7 W8))))))).
  - unfold symtabs_read, table_round.
    eapply reads_ok_bind; [exact R1|intros x1 B1].
    assert (Hx : table x1 = Some tc) by (eapply commons_back; [exact Htc|exact Hsz|exact H1|exact B1]). rewrite Hx.
    eapply reads_ok_bind; [exact R2|intros x2 B2].
    eapply reads_ok_bind; [exact R3|intros x3 B3]. eapply reads_ok_bind; [exact R4|intros x4 B4].
    eapply reads_ok_bind; [exact R5|intros x5 B5]. eapply reads_ok_bind; [exact R6|intros x6 B6].
    eapply reads_ok_bind; [exact R7|intros x7 B7]. eapply reads_ok_bind_last; [exact R8|intros x8 B8].
    apply reads_ok_ret. exact (conj B1 (conj B2 (conj B3 (conj B4 (conj B5 (conj B6 (conj B7 B8))))))).
Qed.

(** *** Rules *)

Lemma avtab_trip junk p q tt :
  POLICYDB_VERSION_AVTAB ≤ policyvers p → policyvers q = policyvers p → avtab_wf (te_avtab p) tt → rules_unique (concat tt) →
  Forall writable_rule (concat tt) → 0 < Z.of_nat (length (concat tt)) < 2 ^ 32 →
  trip_ok (avtab_write p (te_avtab p)) (read_avtab junk q)
    (λ te, ∃ tt', avtab_wf te tt' ∧ rule_of <$> concat tt' ≡ₚ rule_of <$> concat tt).
Proof.
  intros Hv Hq Hwf Hu Hw Hl.
  assert (Hnel : av_nel (te_avtab p) = length (concat tt)) by (rewrite (av_count _ _ Hwf); unfold u32; by rewrite wrap_id by lia).
  exists (cpu_to_le 4 [Z.of_nat (length (concat tt))] ++ rules_bytes (concat tt)). split.
  - intros out room h Hr. unfold avtab_write, oldvers. rewrite (proj2 (Z.ltb_ge _ _)) by done. rewrite andb_false_r. cbn [negb].
    rewrite length_app, length_cpu_to_le, length_rules_bytes in Hr. cbn [length] in Hr.
    assert (Hm := avtab_write_mem (te_avtab p) tt out room h Hwf ltac:(lia)).
    unfold wp in Hm. destruct (avtab_write_new _ _ _) as [[[rc fp] h']|]; [|done]. destruct Hm as (->&->&->).
    rewrite Hnel. do 3 f_equal. f_equal. rewrite length_app, length_cpu_to_le, length_rules_bytes. cbn [length]. lia.
  - apply reads_ok_of. intros rest h. unfold read_avtab. apply wp_bind. rewrite <- app_assoc, Hq.
    eapply wp_mono; [by apply avtab_read_mem|].
    intros [[rc te] fp] h' (Hm&[(->&->&Ht)|[-> _]]); apply wp_ret; cbn; (split; [|done]); eapply mem_step_mono, Hm; [intros _; by eexists|done].
Qed.

(** the table that [cond_read_list] replaces does not matter *)
Lemma cond_read_list_fresh junk p ctab l fp h :
  av_nel (te_avtab p) ≠ 0 → cond_read_list junk (with_conds p ctab l) fp h = cond_read_list junk p fp h.
Proof.
  intros Hn. unfold cond_read_list, mbind, Reader_bind, mbind, CM_bind, or_fail, lift, mbind, CM_bind, mret, CM_ret.
  destruct (get_entry 4 fp h) as [[[[rc|buf] fp1] h1]|]; [done| |done]. cbn [te_avtab te_cond_avtab with_conds].
  assert (Ha : ∀ a a', avtab_alloc a (av_nel (te_avtab p)) h1 = avtab_alloc a' (av_nel (te_avtab p)) h1 ∨
    ∃ x x' h', avtab_alloc a (av_nel (te_avtab p)) h1 = Some ((-1, x), h') ∧ avtab_alloc a' (av_nel (te_avtab p)) h1 = Some ((-1, x'), h')).
  { intros a a'. unfold avtab_alloc. rewrite (proj2 (Z.eqb_neq _ _)) by done. unfold mbind, CM_bind.
    destruct (deref _ h1) as [[s h2]|]; [|by left]. destruct (malloc h2) as [[[?|] h3]|]; [by left| |by left]. right. by do 3 eexists. }
  destruct (Ha ctab (te_cond_avtab p)) as [->|(x&x'&h'&->&->)]; [|done].
  by destruct (avtab_alloc _ _ _) as [[[rc c] h2]|].
Qed.

(** the rules of a policy that can be written and read *)
Record rules_storable p (tt t : list (list avtab_node)) : Prop := {
  ru_te : avtab_wf (te_avtab p) tt ∧ rules_unique (concat tt) ∧ Forall writable_rule (concat tt);
  ru_length : 0 < Z.of_nat (length (concat tt)) < 2 ^ 32;
  ru_cond : avtab_wf (te_cond_avtab p) t ∧ Forall rule_storable (concat t);
  ru_conflicts : conflict_free (concat tt) (concat t) (cond_rules <$> cond_list p);
  ru_conds : Z.of_nat (length (cond_list p)) < 2 ^ 31 ∧ Forall (cond_storable p) (cond_list p);
  ru_role_trans : role_trans_storable (p_role_tr p);
  ru_role_allow : role_allow_storable (p_role_allow p);
  ru_names : filename_trans_storable (p_filename_trans p)
}.
(** what is read: the same rules, the conditionals with the rules they had *)
Definition rules_back p (tt : list (list avtab_node)) q p' : Prop :=
  ∃ te tt' ctab conds, avtab_wf te tt' ∧ rule_of <$> concat tt' ≡ₚ rule_of <$> concat tt ∧
    Forall2 (cond_back p ctab) (cond_list p) conds ∧
    p' = with_rules q te ctab conds (role_trans_written p (p_role_tr p)) (p_role_allow p)
           (if POLICYDB_VERSION_FILENAME_TRANS <=? policyvers p then p_filename_trans p else p_filename_trans q).
Lemma kernel_rules_trip junk p q tt t :
  policy_type p = POLICY_KERN → POLICYDB_VERSION_AVTAB ≤ policyvers p → rules_storable p tt t →
  policy_type q = policy_type p → policyvers q = policyvers p → nprim (p_bools q) = nprim (p_bools p) →
  trip_ok (write_kernel_rules p) (read_kernel_rules junk q) (rules_back p tt q).
Proof.
  intros Hk Hv [(Hte&Hu&Hw) Hl [Hct Hst] Hcf [Hcl Hcs] Htr Hal Hnm] Hqt Hqv Hqb.
  unfold write_kernel_rules, read_kernel_rules.
  assert (Hbool : POLICYDB_VERSION_BOOL <= policyvers p) by (unfold POLICYDB_VERSION_AVTAB, POLICYDB_VERSION_BOOL in *; lia).
  eapply trip_seq; [by apply avtab_trip|].
  destruct (role_trans_round_trip p _ Htr) as (b3&W3&R3). destruct (role_allow_round_trip _ Hal) as (b4&W4&R4).
  destruct (optional_trip (POLICYDB_VERSION_FILENAME_TRANS <=? policyvers p) _ _ _ (p_filename_trans q)
    (trip_fail _ _ POLICYDB_ERROR _ eq_refl (trip_of _ _ _ (filename_trans_round_trip _ Hnm)))) as (b5&W5&R5).
  assert (W2 : writes (cond_write_list p (cond_list p)) (conds_bytes p)).
  { eapply (conds_trip junk p tt t); try done. rewrite (av_count _ _ Hte). unfold u32. by rewrite wrap_id by lia. }
  exists (conds_bytes p ++ b3 ++ b4 ++ b5). split.
  - rewrite (proj2 (Z.ltb_ge _ _)) by done. exact (writes_then _ _ _ _ W2 (writes_then _ _ _ _ W3 (writes_then _ _ _ _ W4 W5))).
  - intros te (tt'&Hwf'&Hperm).
    assert (Hlen : length (concat tt') = length (concat tt)) by (apply Permutation_length in Hperm; by rewrite !length_fmap in Hperm).
    assert (Hnel : av_nel te = length (concat tt)) by (rewrite (av_count _ _ Hwf'), Hlen; unfold u32; by rewrite wrap_id by lia).
    set (q1 := with_rules q te (te_cond_avtab q) (cond_list q) (p_role_tr q) (p_role_allow q) (p_filename_trans q)). cbv zeta.
    change (policyvers q1) with (policyvers q). rewrite Hqv, (proj2 (Z.leb_le POLICYDB_VERSION_BOOL _)) by done.
    eapply (reads_ok_bind _ _ _ _ (λ '(ctab', l'), Forall2 (cond_back p ctab') (cond_list p) l')).
    { apply reads_ok_of, reads_or_fail; [done|]. set (p2 := with_conds q1 (te_cond_avtab p) (cond_list p)).
      apply (reads_ext (cond_read_list junk p2)); [intros; apply cond_read_list_fresh; change (av_nel te ≠ 0); lia|].
      assert (Hn2 : 0 < av_nel te < 2 ^ 32) by lia. assert (Hv2 : POLICYDB_VERSION_AVTAB ≤ policyvers q) by (by rewrite Hqv).
      refine (proj2 (conds_trip junk p2 tt' t (eq_trans Hqt Hk) Hv2 Hn2 Hwf' Hct _ Hst Hcl _)).
      - by eapply conflict_free_rules.
      - eapply Forall_impl; [exact Hcs|]. intros n [Hs1 Hs2 Hs3 Hs4]. split; [done|done| |done].
        eapply Forall_impl; [exact Hs3|]. intros e (?&?&He). split_and!; [done..|]. rewrite <- He. unfold expr_isvalid.
        change (p_bools p2) with (p_bools q). by rewrite Hqb. }
    intros [ctab conds] Hcb.
    assert (Hnew : role_trans_read q = role_trans_read p) by (unfold role_trans_read, new_roletr; by rewrite Hqt, Hqv).
    eapply reads_ok_bind; [apply reads_ok_of, reads_or_fail; [done|]; change (role_trans_read q1) with (role_trans_read q); rewrite Hnew; exact R3|intros ? ->].
    eapply reads_ok_bind; [by apply reads_ok_of, reads_or_fail|intros ? ->].
    eapply reads_ok_bind_last; [exact R5|intros ? ->]. apply reads_ok_ret. by exists te, tt', ctab, conds.
Qed.

(** *** Symbols *)

(** symbols that can be indexed *)
Record symbols_ready db (tc : hashtab string common_datum) (tk : hashtab string class_datum) (tr : hashtab string role_datum)
    (tt : hashtab string type_datum) (tu : hashtab string user_datum) (tb : hashtab string cond_bool_datum)
    (tl : hashtab string level_datum) (ta : hashtab string cat_datum) : Prop := {
  sr_commons : indexable (p_commons db) tc ∧ values_fit (hashtab_map_of tc) (nprim (p_commons db));
  sr_classes : indexable (p_classes (db_policy db)) tk ∧ values_fit (hashtab_map_of tk) (nprim (p_classes (db_policy db)));
  sr_tables : tables_of (db_policy db) tr tt tu tb tl ta;
  sr_values : let p := db_policy db in values_fit_if (p_roles p) tr ∧ values_fit_if (p_types p) tt ∧ values_fit_if (p_users p) tu ∧
    values_fit_if (p_bools p) tb ∧ values_fit_if (p_levels p) tl ∧ values_fit_if (p_cats p) ta;
  sr_caches : cacheable (db_policy db) tr tt tu
}.
(** the indexes that are made *)
Definition symbols_indexed db tc tk tr tt tu tb tl ta db' : Prop :=
  ∃ a db1, decls_indexed (declarations db) a ∧ classes_indexed (with_decls db a) db1 tc tk ∧ others_indexed db1 db' tr tt tu tb tl ta.
Lemma runs_ok_reads {A} (m : CM (Z + A)) (ok : Prop) (P : A → Prop) : runs_ok m ok P → ok → reads_ok (or_fail POLICYDB_ERROR (run_sum m)) [] P.
Proof.
  intros Hm Hok. apply reads_ok_or_fail; [done|]. intros rest h Ho. unfold run_sum. apply wp_bind.
  eapply wp_mono; [by apply Hm|]. intros [rc|x] h' [Ho' Hx]; apply wp_ret; [by destruct Hx|].
  destruct Hx. split; [split; [done|by exists x]|done].
Qed.
Lemma index_reads db tc tk tr tt tu tb tl ta :
  symbols_ready db tc tk tr tt tu tb tl ta → p_global db = [AvruleBlock [fresh_decl 1] None 0] →
  reads_ok (policydb_index db) [] (symbols_indexed db tc tk tr tt tu tb tl ta).
Proof.
  intros [[Hc Hcv] [Hk Hkv] Ht Hv Hca] Hg. unfold policydb_index.
  assert (Hd : declarations db = [fresh_decl 1]) by (unfold declarations; by rewrite Hg).
  eapply reads_ok_bind_nil.
  { eapply runs_ok_reads, I. apply runs_ok_of, policydb_index_decls_succeeds; rewrite Hd; cbn [length].
    - unfold fits, pointer_size. pose proof size_t_ge. split; [done|].
      pose proof (Z.pow_gt_lin_r 2 size_t_bits). pose proof (Z.div_le_upper_bound size_t_bits 8 size_t_bits). lia.
    - intros d [->|[]%elem_of_nil]%elem_of_cons. done. }
  intros ? (a&->&Ha). eapply reads_ok_bind_nil.
  { eapply (runs_ok_reads _ _ (λ db1, classes_indexed (with_decls db a) db1 tc tk)); [by apply runs_ok_of, policydb_index_classes_succeeds|done]. }
  intros db1 H1. destruct H1 as [Hi1 Hi2 Hi3 (x&y&z&E)].
  eapply reads_ok_mono; [eapply runs_ok_reads|].
  - apply (policydb_index_others_runs db1 tr tt tu tb tl ta); rewrite E; [destruct Ht; by constructor|destruct Hca; by constructor].
  - rewrite E. exact Hv.
  - intros db' Ho. exists a, db1. split_and!; [done| |done]. split; [done..|]. by exists x, y, z.
Qed.

(** *** Objects *)

(** [q] with the objects of [p] *)
Definition with_objects q p : policydb := with_ranges (with_ocontexts q (ocontexts p) (p_genfs p)) (p_range_tr p).
(** objects that can be written and, with the symbols of this policy, read *)
Record objects_ready (target : Z) (info : policydb_compat_info) p : Prop := {
  ob_length : length (ocontexts p) = OCON_NUM;
  ob_contexts : target = SEPOL_TARGET_SELINUX ∧ objects_storable p (selinux_ocontext p) (ci_ocon_num info) ∨
    target = SEPOL_TARGET_XEN ∧ objects_storable p (xen_ocontext p) (ci_ocon_num info);
  ob_genfs : StronglySorted genfs_before (p_genfs p) ∧ word (length (p_genfs p)) ∧ Forall (genfs_storable p) (p_genfs p);
  ob_ranges : range_trans_storable (p_range_tr p)
}.
(** a policy in the format of [p] *)
Definition same_format p q : Prop := policy_type q = policy_type p ∧ policyvers q = policyvers p ∧ mls q = mls p.
Lemma context_write_format p q : same_format p q → context_write q = context_write p.
Proof. intros (Ht&Hv&Hm). unfold context_write, context_has_range. by rewrite Ht, Hv. Qed.
Lemma objects_write_format p q target n : same_format p q →
  ocontext_write target n (with_objects q p) = ocontext_write target n p ∧ genfs_write (with_objects q p) = genfs_write p ∧
  range_write (with_objects q p) = range_write p ∧ ranges_written (with_objects q p) = ranges_written p.
Proof.
  intros Hq. assert (Hc : context_write (with_objects q p) = context_write p) by (by apply context_write_format).
  assert (Hr : new_rangetr (with_objects q p) = new_rangetr p) by (destruct Hq as (Ht&Hv&_); unfold new_rangetr; cbn; by rewrite Ht, Hv).
  unfold ocontext_write, ocontext_write_selinux, ocontext_write_xen, write_selinux, write_xen, genfs_write, range_write, ranges_written, range_written.
  by rewrite Hc, Hr.
Qed.
(** a policy without objects *)
Definition no_objects q : Prop := ocontexts q = replicate OCON_NUM [] ∧ p_genfs q = [] ∧ p_range_tr q = [].
Lemma objects_trip p db info :
  let q := db_policy db in let p1 := with_objects q p in
  policy_type p = POLICY_KERN → POLICYDB_VERSION_AVTAB ≤ policyvers p → same_format p q → no_objects q →
  objects_ready (target_platform db) info p1 →
  trip_ok (ocontext_write (target_platform db) (ci_ocon_num info) p;;; genfs_write p;;; (if has_ranges p then range_write p else done))
    (read_objects info db) (λ db', db' = with_policy db (with_ranges (with_ocontexts q (ocontexts p) (p_genfs p)) (ranges_written p))).
Proof.
  intros q p1 Hk Hv Hf Hno [Hlen Hctx (Hgs&Hgl&Hga) Hrg].
  destruct (objects_write_format p q (target_platform db) (ci_ocon_num info) Hf) as (<-&<-&<-&<-). fold p1.
  assert (Hq : without_objects p1 = q).
  { unfold without_objects. rewrite Hlen. destruct Hno as (Ho&Hg&Hr). rewrite <- Ho, <- Hg, <- Hr at 1. by destruct q. }
  assert (Hkind : policy_type q = POLICY_KERN) by (destruct Hf as (->&_); done).
  unfold read_objects. fold q.
  eapply trip_eq.
  { apply trip_fail; [done|]. apply trip_of. rewrite <- Hq. 
    change (ocontexts p) with (ocontexts p1). destruct Hctx as [[-> Hs]|[-> Hs]].
    - rewrite selinux_without_objects. apply (kind_round_trip p1 (selinux_ocontext p1)); [apply selinux_round_trip|exact Hs].
    - rewrite xen_without_objects. apply (kind_round_trip p1 (xen_ocontext p1)); [apply xen_round_trip|exact Hs]. }
  cbv zeta. change (ocontexts p1) with (ocontexts p).
  eapply trip_eq.
  { destruct (all_genfs_round_trip p1 (with_ocontexts q (ocontexts p) (p_genfs q))) as (bs&Wb&Rb); [apply Hno|done|done|done|done|].
    exists bs. split; [exact Wb|]. apply reads_ok_of. intros rest h. unfold read_file_systems, genfs_read. apply wp_bind, wp_bind.
    eapply wp_mono; [by apply (reads_erased _ _ _ Rb)|]. intros [[[l lk]|[l lk]] fp] h' [Hm Hx]; apply wp_ret, wp_ret.
    - split; [|done]. eapply mem_step_mono, Hm. by intros [? ?].
    - destruct Hx as [Hl ->]. cbn in Hl. subst l. split; [|done]. eapply mem_step_mono, Hm. intros _. by eexists. }
  
  set (q8 := with_ocontexts q (ocontexts p) (p_genfs p)).
  change (with_ocontexts (with_ocontexts q (ocontexts p) (p_genfs q)) (ocontexts p) (p_genfs p)) with q8.
  assert (Hhas : ∀ p', policy_type p' = POLICY_KERN → policyvers p' = policyvers p → has_ranges p' = true).
  { intros p' Ht' Hv'. unfold has_ranges, kern. rewrite Ht', Hv', (proj2 (Z.leb_le POLICYDB_VERSION_MLS _)); [done|].
    unfold POLICYDB_VERSION_AVTAB, POLICYDB_VERSION_MLS in *. lia. }
  rewrite Hhas by done. unfold read_ranges. change (db_policy (with_policy db q8)) with q8.
  rewrite (Hhas q8) by (done || by destruct Hf as (_&Hfv&_)). cbn [negb].
  eapply trip_map.
  - apply trip_fail; [done|].
    assert (E : (match enabled_decl (with_policy db q8), kern q8 with
       | None, false => buf ← or_fail (-1) (get_entry 4);
           l ← times (le_to_cpu 4 buf 0) (λ l, rt ← read_range_trans q8; mret (l ++ [rt])) [];
           (match match l with [] => p_range_tr q8 | _ => l end with [] => mret ([], []) | _ => _ ← new (-1); stuck end)
       | _, _ => range_read q8 end) = range_read (without_objects p1)).
    { unfold kern. change (policy_type q8) with (policy_type q). rewrite Hkind, Z.eqb_refl, Hq.
      assert (range_read q8 = range_read q) as -> by (unfold range_read; change (p_range_tr q8) with (p_range_tr q); done). by destruct (enabled_decl _). }
    rewrite E. apply trip_of, ranges_round_trip; [exact Hkind|exact Hrg].
  - intros ? ->. apply reads_ok_ret. done.
Qed.

(** *** Attributes of types *)

(** the maps of attributes of some types turned around: the types of every
    attribute, itself not among them *)
Record turned (n : nat) (l m : list ebitmap) : Prop := {
  tu_length : length m = n;
  tu_sets (j : nat) e : m !! j = Some e → ebitmap_wf e ∧
    ∀ i : Z, i ∈ ebitmap_set e ↔ i ≠ Z.of_nat j ∧ 0 ≤ i ∧ ∃ a, l !! Z.to_nat i = Some a ∧ Z.of_nat j ∈ ebitmap_set a
}.
Lemma turned_nil n : turned n [] (replicate n ebitmap_init).
Proof.
  split; [apply length_replicate|]. intros j e [-> _]%lookup_replicate. split; [apply ebitmap_init_wf|]. intros i.
  split; [by intros []%elem_of_empty|]. by intros (_&_&a&Ha&_).
Qed.
Lemma include_bit_wp e i h : ebitmap_wf e → 0 ≤ i < 2 ^ 32 - 64 →
  wp (ebitmap_set_bit e i 1) (λ '(rc, e') h', mem_step h h' (rc = 0) ∧
    (rc = 0 → ebitmap_wf e' ∧ ebitmap_set e' = {[ i ]} ∪ ebitmap_set e)) h.
Proof.
  intros He Hi. eapply wp_mono; [by apply ebitmap_set_bit_wp|]. intros [rc e'] h' (M&Hw&Hc). split; [done|]. intros ->.
  destruct Hc as [[_ Hb]|[? _]]; [|done]. split; [done|]. apply set_eq. intros j.
  rewrite elem_of_union, elem_of_singleton, !elem_of_ebitmap_set, Hb by done. destruct (Z.eqb_spec j i); naive_solver.
Qed.
Lemma add_to_attrs_wp (n : nat) l e m h :
  Z.of_nat n < 2 ^ 32 - 64 → ebitmap_wf e → (∀ j, j ∈ ebitmap_set e → 0 ≤ j < n) → turned n l m → (length l < n)%nat → mem_ok h →
  wp (add_to_attrs (length l) e m) (λ r h', mem_ok h' ∧ ∃ m', r = inr m' ∧ turned n (l ++ [e]) m') h.
Proof.
  intros Hn He Hj Hm Hl Ho. unfold add_to_attrs.
  set (sets (m' : list ebitmap) (seen : list Z) := ∀ (j : nat) a, m' !! j = Some a → ebitmap_wf a ∧
    ∀ i : Z, i ∈ ebitmap_set a ↔ i ≠ Z.of_nat j ∧ 0 ≤ i ∧ ((∃ b, l !! Z.to_nat i = Some b ∧ Z.of_nat j ∈ ebitmap_set b) ∨ i = length l ∧ Z.of_nat j ∈ seen)).
  apply wp_bind, (wp_ebitmap_for_each_member (λ seen m' h', mem_ok h' ∧ length m' = n ∧ sets m' seen)); [done|done| | |].
  - split; [done|]. split; [apply Hm|]. intros j a Ha. destruct (tu_sets _ _ _ Hm j a Ha) as [Hw Hs]. split; [done|].
    intros i. rewrite Hs. split; [naive_solver|]. intros (?&?&[?|[_ []%not_elem_of_nil]]); naive_solver.
  - intros i l1 l2 m1 h1 Hbits (Ho1&Hlen&Hs). cbn [negb orb].
    assert (Hi : 0 ≤ i < n). { apply Hj. unfold ebitmap_set. rewrite elem_of_list_to_set, Hbits. apply elem_of_app. right. by left. }
    destruct (Z.eqb_spec (length l) i) as [E|E].
    + apply wp_ret. split; [done|]. split; [done|]. intros j a Ha. destruct (Hs j a Ha) as [Hw Hx]. split; [done|].
      intros i'. rewrite Hx, elem_of_app, list_elem_of_singleton. split; [naive_solver|]. intros (?&?&[?|[? [?|?]]]); [naive_solver..|]. lia.
    + destruct (lookup_lt_is_Some_2 m1 (Z.to_nat i)) as [a Ha]; [lia|]. eapply wp_bind, wp_deref; [done|].
      destruct (Hs _ _ Ha) as [Hwa Hsa]. apply wp_bind. eapply wp_mono; [apply include_bit_wp; [done|lia]|].
      intros [rc a'] h2 [M Hr]. destruct (M Ho1) as [Ho2 ->]. destruct (Hr eq_refl) as [Hwa' Hsa']. apply wp_ret. cbn [truth Z.eqb negb].
      split; [done|]. split; [by rewrite length_insert|]. intros j b Hb. apply list_lookup_insert_Some in Hb as [(<-&<-&_)|[Hne Hb]].
      * split; [done|]. intros i'. rewrite Hsa', elem_of_union, elem_of_singleton, Hsa, elem_of_app, list_elem_of_singleton.
        rewrite Z2Nat.id by lia. split; [intros [->|?]; [|naive_solver]|naive_solver].
        split; [done|]. split; [lia|]. right. split; [done|by right].
      * destruct (Hs j b Hb) as [Hwb Hsb]. split; [done|]. intros i'. rewrite Hsb, elem_of_app, list_elem_of_singleton.
        split; [naive_solver|]. intros (?&?&[?|[? [?|?]]]); [naive_solver..|]. lia.
  - intros m1 h1 (Ho1&Hlen&Hs). apply wp_ret. split; [done|]. exists m1. split; [done|]. split; [done|]. intros j a Ha.
    destruct (Hs j a Ha) as [Hw Hx]. split; [done|]. intros i. rewrite Hx. 
    unfold ebitmap_set at 2. setoid_rewrite lookup_snoc_Some. split.
    + intros (?&?&[(b&Hb&?)|[-> Hin]]).
      * split_and!; [done..|]. exists b. split; [|done]. left. split; [|done]. by eapply lookup_lt_Some.
      * split_and!; [done..|]. exists e. rewrite Nat2Z.id. split; [by right|]. by apply elem_of_list_to_set.
    + intros (?&?&b&[[_ Hb]|[Hk ->]]&Hin); (split; [done|split; [done|]]); [left; by exists b|right].
      apply elem_of_list_to_set in Hin. split; [lia|done].
Qed.
(** the maps of a policy: every type has itself among its attributes *)
Record attr_maps_storable p : Prop := {
  am_length : Z.of_nat (length (type_attr_map p)) = nprim (p_types p);
  am_fits : nprim (p_types p) < 2 ^ 32 - 64 ∧ nprim (p_types p) * ebitmap_bytes_size < 2 ^ size_t_bits;
  am_maps i e : type_attr_map p !! i = Some e → ebitmap_wf e ∧ Z.of_nat i ∈ ebitmap_set e ∧
    ∀ j, j ∈ ebitmap_set e → 0 ≤ j < nprim (p_types p)
}.
Lemma read_attr_map_ok q n l1 e m :
  POLICYDB_VERSION_AVTAB ≤ policyvers q → Z.of_nat n < 2 ^ 32 - 64 → (length l1 < n)%nat →
  ebitmap_wf e → Z.of_nat (length l1) ∈ ebitmap_set e → (∀ j, j ∈ ebitmap_set e → 0 ≤ j < n) → turned n l1 m →
  reads_ok (read_attr_map q (Z.of_nat (length l1), l1, m)) (ebitmap_bytes e)
    (λ '(i, l, m'), i = Z.of_nat (length l1) + 1 ∧ l = l1 ++ [e] ∧ turned n (l1 ++ [e]) m').
Proof.
  intros Hv Hn Hl He Hi Hj Hm. unfold read_attr_map. rewrite (proj2 (Z.leb_le _ _)) by done.
  eapply reads_ok_bind_last; [by apply reads_ok_of, reads_or_fail, reads_ebitmap|intros ? ->].
  eapply (reads_ok_bind_nil _ _ _ (turned n (l1 ++ [e]))).
  - eapply (reads_ok_bind_nil _ _ _ (λ r, ∃ m', r = inr m' ∧ turned n (l1 ++ [e]) m')); [|intros ? (m'&->&Hm'); by apply reads_ok_ret].
    intros rest h Ho. apply wp_bind. eapply wp_mono; [by apply add_to_attrs_wp|]. intros r h' (Ho'&m'&->&Hm'). apply wp_ret.
    split; [|split; [|done]]; [split; [done|by eexists]|]. split; [by exists m'|done].
  - intros m' Hm'. eapply (reads_ok_bind_nil _ _ _ (λ e', e' = e)); [|intros ? ->; by apply reads_ok_ret].
    apply reads_ok_of, reads_or_fail; [done|]. apply reads_lift. intros h. eapply wp_mono; [apply include_bit_wp; [done|lia]|].
    intros [rc e'] h' [M Hr]. split; [done|]. intros Hrc. destruct (Hr Hrc) as [Hw Hs]. apply ebitmap_set_inj; [done|done|]. set_solver.
Qed.
Lemma attr_maps_trip p q :
  POLICYDB_VERSION_AVTAB ≤ policyvers p → policyvers q = policyvers p → nprim (p_types q) = nprim (p_types p) → attr_maps_storable p →
  trip_ok (write_attr_maps p) (read_attr_maps q)
    (λ q', ∃ m, turned (length (type_attr_map p)) (type_attr_map p) m ∧ q' = with_attr_maps q (type_attr_map p) m).
Proof.
  intros Hv Hqv Hqn [Hlen [Hn Hsz] Hmaps]. set (n := length (type_attr_map p)).
  exists ((type_attr_map p ≫= ebitmap_bytes) ++ []). split.
  - unfold write_attr_maps. rewrite <- Hlen, Nat2Z.id. rewrite take_ge by done. apply writes_then.
    + apply writes_each. intros e [i Hi]%list_elem_of_lookup. apply writes_ebitmap. by apply (Hmaps i e).
    + rewrite (proj2 (Nat.ltb_ge _ _)) by done. apply writes_done.
  - rewrite app_nil_r. unfold read_attr_maps. rewrite Hqn, <- Hlen, Nat2Z.id. fold n.
    assert (Hmalloc : reads_ok (total malloc) [] (is_Some (A := Z))).
    { intros rest h Ho. apply wp_bind, wp_malloc; [intros a h' M|intros h' M]; apply wp_ret; destruct (M Ho) as [Ho' Hx]; [|by destruct Hx].
      split; [split; [done|by eexists]|]. split; [split; [by eexists|done]|done]. }
    
    eapply reads_ok_bind_nil; [exact Hmalloc|intros ? [x ->]]. eapply reads_ok_bind_nil; [exact Hmalloc|intros ? [y ->]].
    assert (Hb : 0 ≤ ebitmap_bytes_size). { unfold ebitmap_bytes_size. pose proof size_t_ge. pose proof (Z.div_pos size_t_bits 8). lia. }
    unfold szt. rewrite wrap_id by (unfold n; rewrite Hlen; split; [lia|done]). rewrite Z.ltb_irrefl.
    eapply reads_ok_bind_last.
    + apply (reads_ok_times (type_attr_map p) _ _ ebitmap_bytes (λ l1 '(i, l, m), i = Z.of_nat (length l1) ∧ l = l1 ∧ turned n l1 m)); [done| |].
      { split_and!; [done..|apply turned_nil]. }
      intros e l1 l2 [[i l] m] Hl (->&->&Hm). destruct (Hmaps (length l1) e) as (He&Hi&Hj); [rewrite Hl; by apply list_lookup_middle|].
      eapply reads_ok_mono; [apply (read_attr_map_ok q n)|].
      * by rewrite Hqv.
      * lia.
      * unfold n. rewrite Hl, length_app. cbn [length]. lia.
      * done.
      * done.
      * intros j Hin. specialize (Hj j Hin). lia.
      * done.
      * intros [[i l] m'] (->&->&Hm'). split_and!; [|done..]. rewrite length_app. cbn [length]. lia.
    + intros [[i l] m] (_&->&Hm). apply reads_ok_ret. by exists m.
Qed.

(** *** Attributes that do not exist *)

(** on any file that starts with [bs], with memory, the behaviour is undefined *)
Definition stuck_on {A} (r : Reader A) bs : Prop := ∀ rest h, mem_ok h → r (mem_input (bs ++ rest)) h = None.

Lemma reads_ok_run {A} (r : Reader A) bs (P : A → Prop) rest h : reads_ok r bs P → mem_ok h →
  ∃ x h', r (mem_input (bs ++ rest)) h = Some ((inr x, mem_input rest), h') ∧ mem_ok h' ∧ P x.
Proof.
  intros Hr Ho. specialize (Hr rest h Ho). unfold wp in Hr. destruct (r _ h) as [[[x fp] h']|]; [|done].
  destruct Hr as [M Hx]. destruct (M Ho) as [Ho' [y ->]]. destruct Hx as [[HP _] ->]. by exists y, h'.
Qed.
Lemma stuck_bind {A B} (r : Reader A) (f : A → Reader B) b1 b2 P :
  reads_ok r b1 P → (∀ x, P x → stuck_on (f x) b2) → stuck_on (r ≫= f) (b1 ++ b2).
Proof.
  intros Hr Hf rest h Ho. rewrite <- app_assoc. destruct (reads_ok_run _ _ _ (b2 ++ rest) h Hr Ho) as (x&h'&Hrun&Ho'&HP).
  eapply reader_bind_run; [exact Hrun|]. by apply Hf.
Qed.
Lemma stuck_bind_nil {A B} (r : Reader A) (f : A → Reader B) bs P :
  reads_ok r [] P → (∀ x, P x → stuck_on (f x) bs) → stuck_on (r ≫= f) bs.
Proof. apply (stuck_bind r f [] bs). Qed.
Lemma stuck_now {A B} (r : Reader A) (f : A → Reader B) bs : stuck_on r bs → stuck_on (r ≫= f) bs.
Proof. intros Hr rest h Ho. unfold mbind, Reader_bind. by apply bind_stuck, Hr. Qed.
Lemma stuck_ext {A} (r r' : Reader A) bs : (∀ fp h, r fp h = r' fp h) → stuck_on r' bs → stuck_on r bs.
Proof. intros E Hr rest h Ho. rewrite E. by apply Hr. Qed.
(** a loop is stuck at its first element that is *)
Lemma stuck_times {I S} (l1 l2 : list I) x n (body : S → Reader S) (f : I → list byte) (Inv : list I → S → Prop) s :
  n = Z.of_nat (length (l1 ++ x :: l2)) → Inv [] s →
  (∀ i l l' s, l1 = l ++ i :: l' → Inv l s → reads_ok (body s) (f i) (Inv (l ++ [i]))) →
  (∀ s, Inv l1 s → stuck_on (body s) (f x)) → stuck_on (times n body s) ((l1 ++ x :: l2) ≫= f).
Proof.
  intros -> HI Hb Hx rest h Ho. unfold times. apply bind_stuck. unfold for_loop.
  assert (Hn : (length l1 < Z.to_nat (Z.of_nat (length (l1 ++ x :: l2)) - 0))%nat) by (rewrite length_app; cbn [length]; lia).
  revert Hn. generalize (Z.to_nat (Z.of_nat (length (l1 ++ x :: l2)) - 0)) as m. generalize 0 as i.
  rewrite bind_app, bind_cons, <- !app_assoc. generalize ((l2 ≫= f) ++ rest) as rest'. clear rest. intros rest.
  assert (Hall : ∀ l' l s h i m, l1 = l ++ l' → Inv l s → mem_ok h → (length l' < m)%nat →
    for_range m i (λ _ '(s, fp), mbind (M := CM) (λ '(r, fp), mret (M := CM) (match r with inl rc => inl (rc, fp) | inr s => inr (s, fp) end)) (body s fp))
      (s, mem_input ((l' ≫= f) ++ f x ++ rest)) h = None); [|intros i m Hm; by apply (Hall l1 [])].
  clear s h HI Ho. intros l'. induction l' as [|y l' IH]; intros l s h i [|m] Hl HI Ho Hm; cbn [length] in Hm; try lia; cbn [for_range].
  - apply bind_stuck, bind_stuck, Hx; [|done]. by rewrite Hl, app_nil_r.
  - rewrite bind_cons, <- app_assoc.
    destruct (reads_ok_run _ _ _ ((l' ≫= f) ++ f x ++ rest) h (Hb y l l' s Hl HI) Ho) as (s'&h'&Hrun&Ho'&HI').
    eapply bind_run; [eapply bind_run; [exact Hrun|done]|]. apply (IH (l ++ [y])); [by rewrite <- app_assoc|done..|lia].
Qed.
Lemma for_list_stuck {I R S} (Inv : S → heap → Prop) (wrong : I → Prop) `{∀ i, Decision (wrong i)} (l : list I)
    (body : I → S → CM (R + S)) s h :
  Exists wrong l → Inv s h → (∀ i s h, wrong i → Inv s h → body i s h = None) →
  (∀ i s h, i ∈ l → ¬ wrong i → Inv s h → wp (body i s) (λ r h', ∃ s', r = inr s' ∧ Inv s' h') h) →
  for_list l body s h = None.
Proof.
  revert s h. induction l as [|i l IH]; intros s h Hx HI Hw Hr; [by inversion Hx|]. cbn [for_list].
  destruct (decide (wrong i)) as [Hi|Hi]; [by apply bind_stuck, Hw|].
  destruct (wp_run _ _ _ (Hr i s h (list_elem_of_here _ _) Hi HI)) as (r&h'&Hrun&s'&->&HI'). eapply bind_run; [exact Hrun|].
  apply IH; [by inversion Hx|done|done|]. intros j s1 h1 Hj. apply Hr. by right.
Qed.

(** the attributes of a type are among [n] *)
Definition attrs_fit (n : Z) (e : ebitmap) : Prop := Forall (λ j, j < n) (ebitmap_bits e).
Lemma add_to_attrs_stuck (n : nat) i e m h :
  Z.of_nat n < 2 ^ 32 - 64 → 0 ≤ i < n → ebitmap_wf e → ¬ attrs_fit n e → length m = n → (∀ a, a ∈ m → ebitmap_wf a) → mem_ok h →
  add_to_attrs i e m h = None.
Proof.
  intros Hn Hi He Hfit Hm Hwf Ho. unfold add_to_attrs. apply bind_stuck. rewrite ebitmap_for_each_member by done.
  apply bind_stuck, (for_list_stuck (λ m h, mem_ok h ∧ length m = n ∧ ∀ a, a ∈ m → ebitmap_wf a) (λ j, ¬ j < n)).
  - by apply not_Forall_Exists in Hfit; [|intros j; apply Z_lt_dec].
  - done.
  - clear m h Hm Hwf Ho. intros j m h Hj (Ho&Hm&Hwf). cbn [negb orb]. rewrite (proj2 (Z.eqb_neq i j)) by lia.
    apply bind_stuck. by rewrite lookup_ge_None_2 by lia.
  - clear m h Hm Hwf Ho. intros j m h Hin Hj (Ho&Hm&Hwf). cbn [negb orb]. apply elem_of_ebitmap_bits in Hin; [|done].
    apply nodes_bit_range in Hin; [|done]. destruct (Z.eqb_spec i j) as [_|_]; [apply wp_ret; by exists m|].
    destruct (lookup_lt_is_Some_2 m (Z.to_nat j)) as [a Ha]; [lia|]. eapply wp_bind, wp_deref; [done|]. apply wp_bind.
    eapply wp_mono; [apply include_bit_wp; [by eapply Hwf, list_elem_of_lookup_2|lia]|].
    intros [rc a'] h' [M Hr]. destruct (M Ho) as [Ho' ->]. destruct (Hr eq_refl) as [Hwa _]. apply wp_ret. cbn [truth Z.eqb negb].
    eexists. split; [done|]. split; [done|]. split; [by rewrite length_insert|].
    intros b Hb. apply list_elem_of_lookup in Hb as [k Hb]. apply list_lookup_insert_Some in Hb as [(_&<-&_)|[_ Hb]]; [done|].
    by eapply Hwf, list_elem_of_lookup_2.
Qed.
(** maps that can be written *)
Record attr_maps_writable p : Prop := {
  aw_length : Z.of_nat (length (type_attr_map p)) = nprim (p_types p);
  aw_fits : nprim (p_types p) < 2 ^ 32 - 64 ∧ nprim (p_types p) * ebitmap_bytes_size < 2 ^ size_t_bits;
  aw_maps e : e ∈ type_attr_map p → ebitmap_wf e
}.
Lemma attr_maps_write p : attr_maps_writable p → writes (write_attr_maps p) (type_attr_map p ≫= ebitmap_bytes).
Proof.
  intros [Hlen _ Hwf]. unfold write_attr_maps. rewrite <- Hlen, Nat2Z.id. rewrite take_ge by done.
  rewrite <- (app_nil_r (type_attr_map p ≫= ebitmap_bytes)). apply writes_then.
  - apply writes_each. intros e He. by apply writes_ebitmap, Hwf.
  - rewrite (proj2 (Nat.ltb_ge _ _)) by done. apply writes_done.
Qed.
Lemma read_attr_map_step q n l1 la e m :
  POLICYDB_VERSION_AVTAB ≤ policyvers q → Z.of_nat n < 2 ^ 32 - 64 → (length l1 < n)%nat →
  ebitmap_wf e → attrs_fit n e → turned n l1 m →
  reads_ok (read_attr_map q (Z.of_nat (length l1), la, m)) (ebitmap_bytes e)
    (λ '(i, l, m'), i = Z.of_nat (length l1) + 1 ∧ turned n (l1 ++ [e]) m').
Proof.
  intros Hv Hn Hl He Hj Hm. unfold read_attr_map. rewrite (proj2 (Z.leb_le _ _)) by done.
  eapply reads_ok_bind_last; [by apply reads_ok_of, reads_or_fail, reads_ebitmap|intros ? ->].
  eapply (reads_ok_bind_nil _ _ _ (turned n (l1 ++ [e]))).
  - eapply (reads_ok_bind_nil _ _ _ (λ r, ∃ m', r = inr m' ∧ turned n (l1 ++ [e]) m')); [|intros ? (m'&->&Hm'); by apply reads_ok_ret].
    intros rest h Ho. apply wp_bind. eapply wp_mono; [apply add_to_attrs_wp; try done|].
    { intros j Hin. unfold ebitmap_set in Hin. apply elem_of_list_to_set in Hin. unfold attrs_fit in Hj. rewrite Forall_forall in Hj.
      split; [|by apply Hj]. apply elem_of_ebitmap_bits in Hin; [|done]. by apply nodes_bit_range in Hin as [? _]. }
    intros r h' (Ho'&m'&->&Hm'). apply wp_ret.
    split; [|split; [|done]]; [split; [done|by eexists]|]. split; [by exists m'|done].
  - intros m' Hm'. eapply (reads_ok_bind_nil _ _ _ (λ _, True)); [|intros ? _; by apply reads_ok_ret].
    apply reads_ok_of, reads_or_fail; [done|]. apply reads_lift. intros h. eapply wp_mono; [apply include_bit_wp; [done|lia]|].
    intros [rc e'] h' [M Hr]. by split.
Qed.
Lemma read_attr_maps_stuck p q :
  POLICYDB_VERSION_AVTAB ≤ policyvers q → nprim (p_types q) = nprim (p_types p) → attr_maps_writable p →
  ¬ Forall (attrs_fit (nprim (p_types p))) (type_attr_map p) → stuck_on (read_attr_maps q) (type_attr_map p ≫= ebitmap_bytes).
Proof.
  intros Hv Hqn [Hlen [Hn Hsz] Hwf] Hbad. unfold read_attr_maps. rewrite Hqn.
  assert (Hmalloc : reads_ok (total malloc) [] (is_Some (A := Z))).
  { intros rest h Ho. apply wp_bind, wp_malloc; [intros a h' M|intros h' M]; apply wp_ret; destruct (M Ho) as [Ho' Hx]; [|by destruct Hx].
    split; [split; [done|by eexists]|]. split; [split; [by eexists|done]|done]. }
  eapply stuck_bind_nil; [exact Hmalloc|intros ? [x ->]]. eapply stuck_bind_nil; [exact Hmalloc|intros ? [y ->]].
  assert (Hb : 0 ≤ ebitmap_bytes_size). { unfold ebitmap_bytes_size. pose proof size_t_ge. pose proof (Z.div_pos size_t_bits 8). lia. }
  unfold szt. rewrite wrap_id by (split; [lia|done]). rewrite Z.ltb_irrefl. apply stuck_now.
  assert (Hsplit : ∃ l1 e l2, type_attr_map p = l1 ++ e :: l2 ∧ Forall (attrs_fit (nprim (p_types p))) l1 ∧ ¬ attrs_fit (nprim (p_types p)) e).
  { clear -Hbad. induction (type_attr_map p) as [|e l IH]; [by destruct Hbad|].
    destruct (decide (Forall (λ j, j < nprim (p_types p)) (ebitmap_bits e))) as [He|He]; [|by exists [], e, l].
    destruct IH as (l1&e'&l2&->&Hl1&He'); [by intros Hl; destruct Hbad; constructor|].
    exists (e :: l1), e', l2. split; [done|]. split; [by constructor|done]. }
  destruct Hsplit as (l1&e&l2&El&Hl1&He). set (n := length (type_attr_map p)). rewrite <- Hlen in *. fold n in Hl1, He |- *. rewrite Nat2Z.id.
  assert (Hln : (length l1 < n)%nat) by (unfold n; rewrite El, length_app; cbn [length]; lia). rewrite El.
  apply (stuck_times l1 l2 e _ _ ebitmap_bytes (λ l '(i, _, m), i = Z.of_nat (length l) ∧ turned n l m)).
  - unfold n. by rewrite El.
  - split; [done|apply turned_nil].
  - intros a l l' [[i la] m] El1 [-> Hm]. rewrite El1 in Hl1, Hln. apply Forall_app in Hl1 as [_ [Ha _]%Forall_cons].
    rewrite length_app in Hln. eapply reads_ok_mono; [apply (read_attr_map_step q n l la a m); try done; [lia|]|].
    + apply Hwf. rewrite El, El1. set_solver.
    + intros [[i' l0] m'] [-> Hm']. split; [rewrite length_app; cbn [length]; lia|done].
  - intros [[i la] m] [-> Hm]. unfold read_attr_map. rewrite (proj2 (Z.leb_le _ _)) by done.
    rewrite <- (app_nil_r (ebitmap_bytes e)). assert (He' : ebitmap_wf e) by (apply Hwf; rewrite El; set_solver).
    eapply stuck_bind; [by apply reads_ok_of, reads_or_fail, reads_ebitmap|intros ? ->]. apply stuck_now, stuck_now.
    intros rest h Ho. apply bind_stuck, (add_to_attrs_stuck n); try done; [lia|apply Hm|].
    intros a [k Ha]%list_elem_of_lookup. by apply (tu_sets _ _ _ Hm k).
Qed.

(** *** Policies *)

Record policy_storable db (info : policydb_compat_info) (tc : hashtab string common_datum) (tt t : list (list avtab_node)) : Prop := {
  ps_format : kernel_format db info;
  ps_maps : ebitmap_wf (policycaps db) ∧ ebitmap_wf (permissive_map (db_policy db));
  ps_commons : table (p_commons db) = Some tc ∧ size tc = 2;
  ps_symtabs : symtabs_storable (db_policy db) (Some tc) (symtabs_of db);
  ps_rules : rules_storable (db_policy db) tt t;
  ps_attrs : attr_maps_storable (db_policy db)
}.
(** the same without the maps of attributes *)
Record file_storable db (info : policydb_compat_info) (tc : hashtab string common_datum) (tt t : list (list avtab_node)) : Prop := {
  fs_format : kernel_format db info;
  fs_maps : ebitmap_wf (policycaps db) ∧ ebitmap_wf (permissive_map (db_policy db));
  fs_commons : table (p_commons db) = Some tc ∧ size tc = 2;
  fs_symtabs : symtabs_storable (db_policy db) (Some tc) (symtabs_of db);
  fs_rules : rules_storable (db_policy db) tt t
}.
Lemma policy_file_storable db info tc tt t : policy_storable db info tc tt t → file_storable db info tc tt t.
Proof. by intros []. Qed.
(** the tables that are read, and the database with them *)
Definition tables_back db (tc : hashtab string common_datum) (st : symtabs) : Prop :=
  symtabs_back (db_policy db) (Some tc) symtab_sizes {[ OBJECT_R := object_r_role ]} (symtabs_of db) st.
Definition with_tables db0 db (st : symtabs) : database := with_symtabs (maps_of (with_header db0 db) db) st.
Definition tables_ready db : Prop := ∃ tc tk tr tt tu tb tl ta, symbols_ready db tc tk tr tt tu tb tl ta.
(** the database before its objects are read *)
Definition indexed_back db0 db tc tt (db1 : database) : Prop :=
  ∃ st p' tc' tk tr ttypes tu tb tl ta, tables_back db tc st ∧ rules_back (db_policy db) tt (db_policy (with_tables db0 db st)) p' ∧
    symbols_ready (with_tables db0 db st) tc' tk tr ttypes tu tb tl ta ∧
    symbols_indexed (with_policy (with_tables db0 db st) p') tc' tk tr ttypes tu tb tl ta db1.
(** all of it *)
Definition policy_back db0 db tc tt (db' : database) : Prop := let p := db_policy db in
  ∃ db1 m, indexed_back db0 db tc tt db1 ∧ turned (length (type_attr_map p)) (type_attr_map p) m ∧
    db' = with_policy db1 (with_attr_maps (with_ranges (with_ocontexts (db_policy db1) (ocontexts p) (p_genfs p)) (ranges_written p)) (type_attr_map p) m).

Lemma kernel_tables db info : kernel_format db info → ci_sym_num info = SYM_NUM.
Proof.
  intros [_ Hv E _ _ _]. unfold policydb_lookup_compat in E. destruct (list_find _ policydb_compat) as [[i x]|] eqn:El; [|done].
  injection E as ->. apply list_find_Some in El as (Hx&Hp&_). rewrite !andb_true_iff, !Z.eqb_eq in Hp. destruct Hp as [[Hpv Hpt] _].
  assert (Hall : Forall (λ info, ci_type info = POLICY_KERN → POLICYDB_VERSION_AVTAB ≤ ci_version info → ci_sym_num info = SYM_NUM) policydb_compat).
  { unfold policydb_compat. cbn [app fmap list_fmap module_versions].
    repeat (apply Forall_cons; split; [intros E1 E2; first [reflexivity|by vm_compute in E1|by exfalso; vm_compute in E2]|]). constructor. }
  rewrite Forall_lookup in Hall. apply (Hall _ _ Hx Hpt). by rewrite Hpv.
Qed.
(** what the database before its objects keeps of the one that was written *)
Lemma indexed_back_policy db0 db tc tt db1 : fresh_database db0 → indexed_back db0 db tc tt db1 →
  same_format (db_policy db) (db_policy db1) ∧ no_objects (db_policy db1) ∧ target_platform db1 = target_platform db ∧
  nprim (p_types (db_policy db1)) = nprim (p_types (db_policy db)) ∧ nprim (p_roles (db_policy db1)) = nprim (p_roles (db_policy db)) ∧
  nprim (p_users (db_policy db1)) = nprim (p_users (db_policy db)).
Proof.
  intros Hf (st&p'&tc'&tk&tr&ttypes&tu&tb&tl&ta&Hst&(te&tt'&ctab&conds&_&_&_&->)&_&a&db2&_&[_ _ _ (x&y&z&->)]&Ho).
  destruct (oi_rest _ _ _ _ _ _ _ _ Ho) as (b1&b2&b3&b4&b5&b6&b7&b8&b9&b10&b11&->).
  destruct (fd_policy _ Hf) as (roles&_&_&E0).
  destruct (oi_roles _ _ _ _ _ _ _ _ Ho) as (_&r'&Er&_), (oi_users _ _ _ _ _ _ _ _ Ho) as (_&u'&Eu&_). rewrite Er, Eu.
  split; [done|]. split; [|split; [done|split; [|split]]]; [|cbn; apply Hst..].
  unfold no_objects. cbn. by rewrite E0.
Qed.
(** the tables, the rules and the indexes *)
Lemma indexed_trip junk db0 db info tc tt t w2 (r2 : database → Reader database) P :
  fresh_database db0 → file_storable db info tc tt t → (∀ st, tables_back db tc st → tables_ready (with_tables db0 db st)) →
  (∃ bs, writes w2 bs ∧ ∀ db1, indexed_back db0 db tc tt db1 → reads_ok (r2 db1) bs P) →
  trip_ok (symtabs_write SYM_NUM (db_policy db) (symtabs_of db);;; write_rules db info;;; w2)
    (db ← read_symtabs info (maps_of (with_header db0 db) db); db ← read_rules junk info db; db ← policydb_index db; r2 db) P.
Proof.
  intros Hf [Hfm _ [Htc Hsz] Hst Hru] Hready (b3&W3&R3). set (p := db_policy db). set (d2 := maps_of (with_header db0 db) db).
  destruct (fd_policy _ Hf) as (roles&_&Hroles&E0).
  assert (Htabs : trip_ok (symtabs_write SYM_NUM p (symtabs_of db)) (read_symtabs info d2) (λ d, ∃ st, tables_back db tc st ∧ d = with_tables db0 db st)).
  { unfold read_symtabs. rewrite (kernel_tables _ _ Hfm). eapply trip_map; [apply trip_fail; [done|]; apply (symtabs_trip p tc _ (symtabs_of d2))|].
    - exact Hst.
    - exact Htc.
    - exact Hsz.
    - unfold symtabs_of. cbn. rewrite E0, (fd_commons _ Hf). reflexivity.
    - cbn. rewrite E0. exact Hroles.
    - intros st Hb. apply reads_ok_ret. by exists st. }
  assert (Hk : kern p = true) by (unfold kern, p; by rewrite (kf_type _ _ Hfm)).
  destruct Htabs as (b1&W1&R1).
  assert (Hrules : ∀ st, tables_back db tc st → trip_ok (write_kernel_rules p) (read_kernel_rules junk (db_policy (with_tables db0 db st))) (rules_back p tt (db_policy (with_tables db0 db st)))).
  { intros st Hb. eapply kernel_rules_trip; [apply Hfm|apply Hfm|exact Hru|done|done|]. cbn. apply Hb. }
  
  destruct (kernel_rules_trip junk p p tt t (kf_type _ _ Hfm) (kf_version _ _ Hfm) Hru) as (b2&W2&_); [done..|].
  exists (b1 ++ b2 ++ b3). split.
  - unfold write_rules. fold p. rewrite Hk. exact (writes_then _ _ _ _ W1 (writes_then _ _ _ _ W2 W3)).
  - eapply reads_ok_bind; [exact R1|]. intros d (st&Hb&->). destruct (Hrules st Hb) as (b2'&W2'&R2).
    rewrite (writes_unique _ _ _ W2 W2'). destruct (Hready st Hb) as (tc'&tk&tr&ttypes&tu&tb&tl&ta&Hs).
    eapply (reads_ok_bind _ _ _ _ (λ d, ∃ p', rules_back p tt (db_policy (with_tables db0 db st)) p' ∧ d = with_policy (with_tables db0 db st) p')).
    { unfold read_rules. change (kern (db_policy (with_tables db0 db st))) with (kern p). rewrite Hk.
      eapply reads_ok_bind_last; [exact R2|]. intros p' Hp. apply reads_ok_ret. by exists p'. }
    intros d (p'&Hp&->). eapply reads_ok_bind_nil.
    { apply (index_reads _ tc' tk tr ttypes tu tb tl ta); [|exact (fd_global _ Hf)].
      destruct Hp as (te&tt'&ctab&conds&_&_&_&->). destruct Hs as [? ? Ht ? Hca]. split; [done|done|destruct Ht; by constructor|done|destruct Hca; by constructor]. }
    intros db1 Hi. apply R3. by exists st, p', tc', tk, tr, ttypes, tu, tb, tl, ta.
Qed.
(** something is read *)
Lemma reads_ok_value {A} (r : Reader A) bs (P : A → Prop) : reads_ok r bs P → ∃ x, P x.
Proof.
  intros Hr. assert (Ho : mem_ok fresh_heap) by constructor. specialize (Hr [] fresh_heap Ho). unfold wp in Hr.
  destruct (r _ fresh_heap) as [[[[rc|x] fp] h']|]; [|destruct Hr as (_&[HP _]&_); by exists x|done]. destruct Hr as [M _]. by destruct (M Ho) as [_ [? ?]].
Qed.
Lemma then_assoc w1 w2 w3 fp h : (w1;;; (w2;;; w3)) fp h = ((w1;;; w2);;; w3) fp h.
Proof. unfold then_write, mbind, CM_bind. destruct (w1 fp h) as [[[rc fp1] h1]|]; [|done]. by destruct (truth rc). Qed.
Lemma then_ext w w1 w2 fp h : (∀ fp h, w1 fp h = w2 fp h) → (w;;; w1) fp h = (w;;; w2) fp h.
Proof. intros E. unfold then_write, mbind, CM_bind. destruct (w fp h) as [[[rc fp1] h1]|]; [|done]. by destruct (truth rc). Qed.
(** the objects and the attributes *)
Definition write_objects db info : Writer := ocontext_write (target_platform db) (ci_ocon_num info) (db_policy db);;; genfs_write (db_policy db);;;
  (if has_ranges (db_policy db) then range_write (db_policy db) else done).
Lemma objects_stage db0 db info tc tt t :
  fresh_database db0 → file_storable db info tc tt t →
  (∀ st, tables_back db tc st → tables_ready (with_tables db0 db st)) →
  (∀ db1, indexed_back db0 db tc tt db1 → objects_ready (target_platform db) info (with_objects (db_policy db1) (db_policy db))) →
  ∃ bs, writes (write_objects db info) bs ∧ ∀ db1, indexed_back db0 db tc tt db1 → reads_ok (read_objects info db1) bs
    (λ db', db' = with_policy db1 (with_ranges (with_ocontexts (db_policy db1) (ocontexts (db_policy db)) (p_genfs (db_policy db))) (ranges_written (db_policy db)))).
Proof.
  intros Hf Hs Hready Hobj. pose proof (fs_format _ _ _ _ _ Hs) as Hfm. pose proof (kf_type _ _ Hfm) as Hk. pose proof (kf_version _ _ Hfm) as Hv.
  assert (Htrip : ∀ db1, indexed_back db0 db tc tt db1 → trip_ok (write_objects db info) (read_objects info db1)
    (λ db', db' = with_policy db1 (with_ranges (with_ocontexts (db_policy db1) (ocontexts (db_policy db)) (p_genfs (db_policy db))) (ranges_written (db_policy db))))).
  { intros db1 Hb. destruct (indexed_back_policy _ _ _ _ _ Hf Hb) as (Hsf&Hno&Htg&_). unfold write_objects. rewrite <- Htg.
    apply objects_trip; [done|done|done|done|]. rewrite Htg. by apply Hobj. }
  destruct (indexed_trip [] db0 db info tc tt t done (λ d, mret d) (indexed_back db0 db tc tt) Hf Hs Hready) as (b0&_&R0).
  { exists []. split; [apply writes_done|]. intros db1 Hb. by apply reads_ok_ret. }
  destruct (reads_ok_value _ _ _ R0) as [dbx Hx]. destruct (Htrip dbx Hx) as (b1&W1&_). exists b1. split; [done|].
  intros db1 Hb. destruct (Htrip db1 Hb) as (b1'&W1'&R1). by rewrite (writes_unique _ _ _ W1 W1').
Qed.
Lemma objects_then db info w b1 b2 : policy_type (db_policy db) = POLICY_KERN → POLICYDB_VERSION_AVTAB ≤ policyvers (db_policy db) →
  writes (write_objects db info) b1 → writes (write_attr_maps (db_policy db)) b2 →
  w = (ocontext_write (target_platform db) (ci_ocon_num info) (db_policy db);;; genfs_write (db_policy db);;;
      (if has_ranges (db_policy db) then range_write (db_policy db) else done);;;
      (if kern (db_policy db) && (POLICYDB_VERSION_AVTAB <=? policyvers (db_policy db)) then write_attr_maps (db_policy db) else done)) →
  writes w (b1 ++ b2).
Proof.
  intros Hk Hv W1 W2 ->. unfold kern at 1. rewrite Hk, Z.eqb_refl, (proj2 (Z.leb_le _ _)) by done. cbn [andb].
  intros out room h Hr. rewrite <- (writes_then _ _ _ _ W1 W2 out room h Hr). unfold write_objects. rewrite <- then_assoc.
  apply then_ext. intros. apply then_assoc.
Qed.
Lemma last_stages db0 db info tc tt t :
  fresh_database db0 → policy_storable db info tc tt t →
  (∀ st, tables_back db tc st → tables_ready (with_tables db0 db st)) →
  (∀ db1, indexed_back db0 db tc tt db1 → objects_ready (target_platform db) info (with_objects (db_policy db1) (db_policy db))) →
  ∃ bs, writes (ocontext_write (target_platform db) (ci_ocon_num info) (db_policy db);;; genfs_write (db_policy db);;;
      (if has_ranges (db_policy db) then range_write (db_policy db) else done);;;
      (if kern (db_policy db) && (POLICYDB_VERSION_AVTAB <=? policyvers (db_policy db)) then write_attr_maps (db_policy db) else done)) bs ∧
    ∀ db1, indexed_back db0 db tc tt db1 →
    reads_ok (db ← read_objects info db1; if kern (db_policy db) then p ← read_attr_maps (db_policy db); mret (with_policy db p) else mret db) bs
      (policy_back db0 db tc tt).
Proof.
  intros Hf Hs Hready Hobj. pose proof (ps_format _ _ _ _ _ Hs) as Hfm. pose proof (kf_type _ _ Hfm) as Hk. pose proof (kf_version _ _ Hfm) as Hv.
  destruct (objects_stage db0 db info tc tt t Hf (policy_file_storable _ _ _ _ _ Hs) Hready Hobj) as (b1&W1&R1).
  destruct (attr_maps_trip (db_policy db) (db_policy db) Hv eq_refl eq_refl (ps_attrs _ _ _ _ _ Hs)) as (b2&W2&_).
  exists (b1 ++ b2). split; [by eapply objects_then|].
  intros db1 Hb. destruct (indexed_back_policy _ _ _ _ _ Hf Hb) as (Hsf&_&_&Hn&_).
  eapply reads_ok_bind; [by apply R1|intros ? ->].
  set (q := with_ranges _ _). change (db_policy (with_policy db1 q)) with q.
  assert (Hq : same_format (db_policy db) q) by exact Hsf. destruct Hq as (Hqt&Hqv&_).
  unfold kern. rewrite Hqt, Hk, Z.eqb_refl.
  destruct (attr_maps_trip (db_policy db) q Hv Hqv Hn (ps_attrs _ _ _ _ _ Hs)) as (b2'&W2'&R2). rewrite (writes_unique _ _ _ W2 W2').
  eapply reads_ok_bind_last; [exact R2|]. intros q' (m&Hm&->). apply reads_ok_ret. by exists db1, m.
Qed.
Lemma unsupported_no db info : kernel_format db info → mls_unsupported (db_policy db) = false.
Proof.
  intros Hf. unfold mls_unsupported, since, kern. rewrite (kf_type _ _ Hf), Z.eqb_refl. pose proof (kf_version _ _ Hf).
  cbn [andb]. rewrite (proj2 (Z.leb_le POLICYDB_VERSION_MLS _)); [by rewrite andb_false_r|].
  unfold POLICYDB_VERSION_AVTAB, POLICYDB_VERSION_MLS in *. lia.
Qed.
Lemma writes_ext w w' bs : (∀ fp h, w fp h = w' fp h) → writes w' bs → writes w bs.
Proof. intros E Hw out room h Hr. rewrite E. by apply Hw. Qed.
(** the reading of a file up to its objects, with what follows *)
Lemma read_after_index junk info (d : database) (f : database → Reader database) fp h :
  (db ← read_symtabs info d; db ← read_rules junk info db; db ← policydb_index db; f db) fp h =
  ((db ← read_symtabs info d; db ← read_rules junk info db; db ← policydb_index db; mret db) ≫= f) fp h.
Proof.
  unfold mbind, Reader_bind, mbind, CM_bind. destruct (read_symtabs info d fp h) as [[[[rc|d1] fp1] h1]|]; [done| |done].
  destruct (read_rules junk info d1 fp1 h1) as [[[[rc|d2] fp2] h2]|]; [done| |done].
  by destruct (policydb_index d2 fp2 h2) as [[[[rc|d3] fp3] h3]|].
Qed.
Lemma policydb_read_stuck junk db0 db info tc tt t :
  fresh_database db0 → file_storable db info tc tt t →
  (∀ st, tables_back db tc st → tables_ready (with_tables db0 db st)) →
  (∀ db1, indexed_back db0 db tc tt db1 → objects_ready (target_platform db) info (with_objects (db_policy db1) (db_policy db))) →
  attr_maps_writable (db_policy db) → ¬ Forall (attrs_fit (nprim (p_types (db_policy db)))) (type_attr_map (db_policy db)) →
  ∃ bs, writes (policydb_write db) bs ∧ stuck_on (policydb_read junk db0) bs.
Proof.
  intros Hf Hs Hready Hobj Haw Hbad. pose proof (fs_format _ _ _ _ _ Hs) as Hfm. pose proof (kf_type _ _ Hfm) as Hk.
  pose proof (kf_version _ _ Hfm) as Hv. destruct (header_writes _ _ Hfm) as [W1 W2]. pose proof (header_reads db0 _ _ Hfm) as R1.
  destruct (maps_trip (with_header db0 db) db) as (b3&W3&R3); [done|done|apply (fs_maps _ _ _ _ _ Hs)|apply (fs_maps _ _ _ _ _ Hs)|].
  destruct (indexed_trip junk db0 db info tc tt t done (λ d, mret d) (indexed_back db0 db tc tt) Hf Hs Hready) as (b4&W4&R4).
  { exists []. split; [apply writes_done|]. intros db1 Hb. by apply reads_ok_ret. }
  destruct (objects_stage db0 db info tc tt t Hf Hs Hready Hobj) as (b5&W5&R5).
  pose proof (attr_maps_write _ Haw) as W6. set (b6 := type_attr_map (db_policy db) ≫= ebitmap_bytes) in *.
  pose proof (objects_then db info _ b5 b6 Hk Hv W5 W6 eq_refl) as W7.
  exists (header_bytes db info ++ b3 ++ b4 ++ b5 ++ b6). split.
  - unfold policydb_write, header_bytes. rewrite (kf_supported _ _ Hfm). change (truth 0) with false. cbn match.
    rewrite (unsupported_no _ _ Hfm), Hk, (kf_info _ _ Hfm), (kernel_tables _ _ Hfm), <- app_assoc. rewrite (kernel_tables _ _ Hfm) in W2.
    refine (writes_then _ _ _ _ W1 (writes_then _ _ _ _ W2 (writes_then _ _ _ _ W3 _))).
    eapply writes_ext; [|exact (writes_then _ _ _ _ W4 W7)]. intros fp h. rewrite <- then_assoc. apply then_ext. intros fp1 h1.
    rewrite <- then_assoc. by apply then_ext.
  - unfold policydb_read. eapply stuck_bind; [exact R1|intros ? ->].
    unfold read_module_name. change (policy_type (db_policy (with_header db0 db))) with (policy_type (db_policy db)). rewrite Hk. cbn match.
    eapply stuck_bind_nil; [by apply (reads_ok_ret _ (λ d, d = with_header db0 db))|intros ? ->].
    eapply stuck_bind; [exact R3|intros ? ->]. eapply stuck_ext; [intros; apply read_after_index|].
    eapply stuck_bind; [exact R4|]. intros db1 Hb. eapply stuck_bind; [by apply R5|intros ? ->].
    destruct (indexed_back_policy _ _ _ _ _ Hf Hb) as (Hsf&_&_&Hn&_).
    set (q := with_ranges _ _). change (db_policy (with_policy db1 q)) with q.
    assert (Hq : same_format (db_policy db) q) by exact Hsf. destruct Hq as (Hqt&Hqv&_).
    unfold kern. rewrite Hqt, Hk, Z.eqb_refl. apply stuck_now, read_attr_maps_stuck; [by rewrite Hqv|exact Hn|done|done].
Qed.
End stages.

(** ** Properties *)

(** C4: a kernel policy of version 20 or later that [policydb_write] writes is
    read back by [policydb_read] into a database of [policydb_init]: its header,
    capabilities, tables of symbols, rules, conditionals, contexts, file systems
    and ranges, less what the format does not hold, indexed again, and with the
    maps of attributes in both directions.  The symbols must have values that fit
    and the contexts be valid with them. *)
Theorem policydb_roundtrip `{Target} junk db0 db info tc tt t :
  fresh_database db0 → policy_storable db info tc tt t →
  (∀ st, tables_back db tc st → tables_ready (with_tables db0 db st)) →
  (∀ db1, indexed_back db0 db tc tt db1 → objects_ready (target_platform db) info (with_objects (db_policy db1) (db_policy db))) →
  trip_ok (policydb_write db) (policydb_read junk db0) (policy_back db0 db tc tt).
Proof.
  intros Hf Hs Hready Hobj. pose proof (ps_format _ _ _ _ _ Hs) as Hfm. pose proof (kf_type _ _ Hfm) as Hk.
  destruct (header_writes _ _ Hfm) as [W1 W2]. pose proof (header_reads db0 _ _ Hfm) as R1.
  destruct (maps_trip (with_header db0 db) db) as (b3&W3&R3); [done|done|apply (ps_maps _ _ _ _ _ Hs)|apply (ps_maps _ _ _ _ _ Hs)|].
  destruct (indexed_trip junk db0 db info tc tt t _ _ _ Hf (policy_file_storable _ _ _ _ _ Hs) Hready (last_stages db0 db info tc tt t Hf Hs Hready Hobj)) as (b4&W4&R4).
  exists (header_bytes db info ++ b3 ++ b4). split.
  - unfold policydb_write, header_bytes. rewrite (kf_supported _ _ Hfm). change (truth 0) with false. cbn match.
    rewrite (unsupported_no _ _ Hfm), Hk, (kf_info _ _ Hfm), (kernel_tables _ _ Hfm), <- app_assoc. rewrite (kernel_tables _ _ Hfm) in W2.
    exact (writes_then _ _ _ _ W1 (writes_then _ _ _ _ W2 (writes_then _ _ _ _ W3 W4))).
  - unfold policydb_read. eapply reads_ok_bind; [exact R1|intros ? ->].
    unfold read_module_name. change (policy_type (db_policy (with_header db0 db))) with (policy_type (db_policy db)). rewrite Hk. cbn match.
    eapply reads_ok_bind_nil; [by apply (reads_ok_ret _ (λ d, d = with_header db0 db))|intros ? ->].
    eapply reads_ok_bind; [exact R3|intros ? ->]. exact R4.
Qed.

(** C39: [policydb_read] trusts the maps of attributes in the file.  Take a file
    that [policydb_write] makes of a kernel policy which is in order but for one
    thing: one of its types has an attribute beyond the number of types.  With
    memory, [policydb_read] on every file that starts so has undefined behaviour:
    it changes a bitmap behind the end of [attr_type_map].  (With attributes
    within the number the file is read, by [policydb_roundtrip].) *)
Theorem policydb_read_trusts_attributes `{Target} junk db0 db info tc tt t e j :
  fresh_database db0 → file_storable db info tc tt t →
  (∀ st, tables_back db tc st → tables_ready (with_tables db0 db st)) →
  (∀ db1, indexed_back db0 db tc tt db1 → objects_ready (target_platform db) info (with_objects (db_policy db1) (db_policy db))) →
  attr_maps_writable (db_policy db) →
  e ∈ type_attr_map (db_policy db) → j ∈ ebitmap_set e → nprim (p_types (db_policy db)) ≤ j →
  ∃ bs, writes (policydb_write db) bs ∧ ∀ rest h, mem_ok h → policydb_read junk db0 (mem_input (bs ++ rest)) h = None.
Proof.
  intros Hf Hs Hready Hobj Haw He Hj Hge. eapply policydb_read_stuck; [done..|]. intros Hall. rewrite Forall_forall in Hall.
  specialize (Hall e He). unfold attrs_fit in Hall. rewrite Forall_forall in Hall. specialize (Hall j). unfold ebitmap_set in Hj.
  apply elem_of_list_to_set in Hj. specialize (Hall Hj). lia.
Qed.

(** ** Examples *)

Module ExamplePolicy.
#[local] Existing Instance target_arm.
Definition db0 : database := match policydb_init fresh_heap with Some ((_, Some db), _) => db | _ => ExampleIndex.db end.
Lemma db0_fresh : fresh_database db0.
Proof.
  pose proof (policydb_init_wp fresh_heap) as Hw. unfold wp, db0 in *. destruct (policydb_init fresh_heap) as [[[rc [db|]] h]|] eqn:E; [|by vm_compute in E..].
  apply Hw.
Qed.
(** a policy with a user, a type, a boolean, conditional rules, two initial
    contexts and a file system *)
Definition con : context_struct := Context 1 OBJECT_R_VAL 1 (MlsRange (MlsLevel 1 ebitmap_init) (MlsLevel 1 ebitmap_init)).
Definition user : user_datum := UserDatum 1 (RoleSet (ExampleIndex.bits 1) 0) (SemRange no_semantic_level no_semantic_level) no_semantic_level ebitmap_init
  (c_range con) (low_level (c_range con)) 0.
Definition symbols : symtabs :=
  Symtabs (fresh_symtab 2) (fresh_symtab 32) (Symtab (Some (ExampleIndex.one OBJECT_R object_r_role)) 1)
    (Symtab (Some (ExampleIndex.one "t" ExampleIndex.type)) 1) (Symtab (Some (ExampleIndex.one "u" user)) 1)
    (Symtab (Some (ExampleIndex.one "b" ExampleIndex.boolean)) 1) (fresh_symtab 16) (fresh_symtab 16).
Definition initial (sid : Z) : ocontext := OContext no_name 0 con context_init sid 0.
Definition root : ocontext := OContext (UName "/") 0 con context_init 0 0.
Definition policy : policydb := let p := cleared_policy symbols empty_avtab empty_avtab in
  Policydb POLICY_KERN 29 0 (p_classes p) (p_roles p) (p_types p) (p_users p) (p_bools p)
    (p_levels p) (p_cats p) [] [] [] [] [] [] [] [] [] [] Example.table (te_cond_avtab ExampleCond.policy)
    [] ExampleCond.conds [RoleTrans 1 2 7 3] [FilenameTrans 1 2 3 "x" 4] [RoleAllow 1 2] [ExampleObj.transition]
    [ExampleIndex.bits 1] ebitmap_init [] [[initial 1; initial 2]; []; []; []; []; []; []] [Genfs "proc" [root]].
Definition db : database := Database policy (fresh_symtab 2) [] [] [] [] [] (ExampleIndex.bits 1) 2 0 None None 0.
Definition info : policydb_compat_info := kernel_info SYM_NUM (OCON_NODE6 + 1) 29.

Lemma format_ok : kernel_format db info.
Proof. split; [done|by vm_compute|by vm_compute|by left|done|done]. Qed.
#[local] Ltac rules_tac :=
  split;
  [split; [apply Example.table_wf|]; split; by repeat constructor
  |done
  |split; [apply ExampleCond.slots_wf|];
   repeat (apply Forall_cons; split; [split; [split; [by repeat split|by split]|split; [|done]]|]); [by exists 0|by exists 4|by exists 4|done]
  |apply ExampleCond.no_conflict
  |split; [done|]; apply Forall_cons; split; [|done]; split; [done|done| |by split]; apply Forall_cons; split; [by repeat split|done]
  |split; [by split|]; apply Forall_cons; by repeat split
  |split; [by split|]; apply Forall_cons; by repeat split
  |split; [by split|]; apply Forall_cons; split; [|done]; split; [by vm_compute|]; by repeat split].
Lemma stored_rules_ok : rules_storable policy Example.slots ExampleCond.slots.
Proof. rules_tac. Qed.
Lemma one_storable p tc {D} {Hio : SymbolIO p tc D} {Hlaws : SymbolIOLaws p tc D} k (d : D) : sym_storable p tc k d → table_storable p tc (Symtab (Some (ExampleIndex.one k d)) 1).
Proof.
  intros Hs. split; [|done]. exists (ExampleIndex.one k d). split; [done|]. split; [apply ExampleIndex.one_table_wf|]. split; [done|].
  intros k' d' Hin. unfold entries in Hin. cbn in Hin. by apply list_elem_of_singleton in Hin as [= -> ->].
Qed.
Lemma key_ok k : is_c_string k → Z.of_nat (String.length k) < 10 → key_storable k.
Proof. intros. split; [done|]. unfold UINT_MAX. lia. Qed.
Definition commons : hashtab string common_datum := Hashtab (replicate 2 []) 2 0.
#[local] Ltac symbols_tac :=
  split_and!; try (by apply ExampleMod.fresh_storable);
  [apply one_storable; split; done
  |apply one_storable; split; [by apply key_ok|by repeat split|apply ebitmap_init_wf]
  |apply one_storable; split; [by apply key_ok|by repeat split|split; [by apply (ExampleSets.bits_wf 1)|done]|];
   split; [|done]; intros _; split; [done|]; by repeat split
  |apply one_storable; split; [by apply key_ok|]; split; [done|]; split; [by left|done]].
Lemma symbols_ok : symtabs_storable policy (Some commons) symbols.
Proof. symbols_tac. Qed.
Lemma attrs_ok : attr_maps_storable policy.
Proof.
  split; [done|done|]. intros [|i] e He; [|done]. injection He as <-. split; [by apply (ExampleSets.bits_wf 1)|].
  split; [by vm_compute|]. by intros j ->%ExampleIndex.bits_1.
Qed.
Lemma storable : policy_storable db info commons Example.slots ExampleCond.slots.
Proof.
  split; [apply format_ok|split; [by apply (ExampleSets.bits_wf 1)|apply ebitmap_init_wf]|done|apply symbols_ok|apply stored_rules_ok|apply attrs_ok].
Qed.
(** what is in a table that is read *)
Lemma table_back p tc sz {D} {Hio : SymbolIO p tc D} {Hlaws : SymbolIOLaws p tc D} `{Valued D} (m0 m : gmap string D) t n (s' : symtab D) :
  symtab_back p tc sz m0 (Symtab (Some t) n) s' → map_kept p tc (hashtab_map_of t) ∪ m0 = m → n = 0 ∨ n = 1 →
  (∀ k d v, m !! k = Some d → value_of d = Some v → 1 ≤ v ≤ n) →
  ∃ t', indexable s' t' ∧ values_fit (hashtab_map_of t') (nprim s') ∧ hashtab_map_of t' = m.
Proof.
  intros (En&t0&[= <-]&t'&Et'&Hwf&_&Hm) Hmap Hn Hv. rewrite Hmap in Hm. exists t'. cbn in En. split; [|split]; [split| |done].
  - done.
  - done.
  - rewrite En. by destruct Hn as [-> | ->].
  - intros k d v Hd Hval. rewrite Hm in Hd. specialize (Hv k d v Hd Hval). lia.
  - intros k d v Hd Hval. rewrite Hm in Hd. rewrite En. by apply (Hv k d v).
Qed.
Lemma none_back p tc sz {D} {Hio : SymbolIO p tc D} {Hlaws : SymbolIOLaws p tc D} `{Valued D} sz0 (s' : symtab D) :
  0 < sz0 < 2 ^ 31 → symtab_back p tc sz ∅ (fresh_symtab sz0) s' → ∃ t', indexable s' t' ∧ values_fit (hashtab_map_of t') (nprim s') ∧ hashtab_map_of t' = ∅.
Proof.
  intros Hs Hb. eapply (table_back p tc sz ∅ ∅); [exact Hb| |by left|done].
  rewrite hashtab_empty_map. unfold map_kept. by rewrite map_filter_empty, fmap_empty, map_union_empty.
Qed.
Lemma singleton_lookup_eq {D} k k' (d d' : D) : ({[ k := d ]} : gmap string D) !! k' = Some d' → d' = d.
Proof. intros [_ <-]%lookup_singleton_Some. done. Qed.
Lemma tables_ok st : tables_back db commons st → tables_ready (with_tables db0 db st).
Proof.
  intros (B1&B2&B3&B4&B5&B6&B7&B8).
  destruct (none_back policy (Some commons) 2 2 (st_commons st) ltac:(done) B1) as (t1&I1&V1&M1). destruct (none_back policy (Some commons) 32 32 (st_classes st) ltac:(done) B2) as (t2&I2&V2&M2).
  destruct (table_back policy (Some commons) 16 {[ OBJECT_R := object_r_role ]} {[ OBJECT_R := object_r_role ]} _ 1 (st_roles st) B3) as (t3&I3&V3&M3); [by vm_compute|by right|by intros k d v ->%singleton_lookup_eq [= <-]|].
  destruct (table_back policy (Some commons) 512 ∅ {[ "t"%string := type_kept policy ExampleIndex.type ]} _ 1 (st_types st) B4) as (t4&I4&V4&M4); [by vm_compute|by right|by intros k d v ->%singleton_lookup_eq [= <-]|].
  destruct (table_back policy (Some commons) 128 ∅ {[ "u"%string := user_kept policy user ]} _ 1 (st_users st) B5) as (t5&I5&V5&M5); [by vm_compute|by right|by intros k d v ->%singleton_lookup_eq [= <-]|].
  destruct (table_back policy (Some commons) 16 ∅ {[ "b"%string := bool_kept policy ExampleIndex.boolean ]} _ 1 (st_bools st) B6) as (t6&I6&V6&M6); [by vm_compute|by right|by intros k d v ->%singleton_lookup_eq [= <-]|].
  destruct (none_back policy (Some commons) 16 16 (st_levels st) ltac:(done) B7) as (t7&I7&V7&M7). destruct (none_back policy (Some commons) 16 16 (st_cats st) ltac:(done) B8) as (t8&I8&V8&M8).
  exists t1, t2, t3, t4, t5, t6, t7, t8. split; [done|done|by split|intros p0; split_and!; by intros _|].
  split; [by left|change (nprim (st_types st) ≤ BITS); by rewrite (proj1 B4)| | |]; cbn [db_policy p_types p_roles p_users with_tables with_symtabs].
  - intros k d. rewrite M4. intros ->%singleton_lookup_eq [=].
  - intros k d. rewrite M3. intros ->%singleton_lookup_eq. split; split; try apply ebitmap_init_wf; by intros i Hi%elem_of_empty.
  - intros k d. rewrite M5. intros ->%singleton_lookup_eq. split; [by apply (ExampleSets.bits_wf 1)|done].
Qed.
Lemma stored_con_kept db1 : indexed_back db0 db commons Example.slots db1 → context_kept (with_objects (db_policy db1) policy) con.
Proof.
  intros Hb. destruct (indexed_back_policy _ _ _ _ _ db0_fresh Hb) as ((Ht&Hv&Hm)&_&_&Nt&Nr&Nu).
  set (q := with_objects (db_policy db1) policy). split; [by repeat split|]. split.
  - assert (Hr : context_has_range q = true) by (unfold context_has_range; change (policy_type q) with (policy_type (db_policy db1)); change (policyvers q) with (policyvers (db_policy db1)); by rewrite Ht, Hv).
    unfold context_read. by rewrite Hr.
  - intros h. unfold policydb_context_isvalid, context_is_valid, mls_context_isvalid.
    change (nprim (p_roles q)) with (nprim (p_roles (db_policy db1))). change (nprim (p_users q)) with (nprim (p_users (db_policy db1))).
    change (nprim (p_types q)) with (nprim (p_types (db_policy db1))). change (mls q) with (mls (db_policy db1)). rewrite Nr, Nu, Nt, Hm. done.
Qed.
Lemma objects_ok db1 : indexed_back db0 db commons Example.slots db1 → objects_ready (target_platform db) info (with_objects (db_policy db1) (db_policy db)).
Proof.
  intros Hb%stored_con_kept. split; [done| | |].
  - left. split; [done|]. split; [done|]. split; [intros i l Hi Hl; apply lookup_lt_Some in Hl; change (i < 7)%nat in Hl; change (7 ≤ i)%nat in Hi; lia|].
    intros [|i] l Hl.
    + injection Hl as <-. split; [by split|]. intros oc [->|Hoc]%elem_of_cons; [|apply list_elem_of_singleton in Hoc as ->]; (apply so_isid; [exact Hb|by split]).
    + assert (l = []) as ->; [|split; [by split|]; by intros oc ?%not_elem_of_nil]. do 6 (destruct i as [|i]; [by injection Hl|]). done.
  - split; [by repeat constructor|]. split; [done|]. apply Forall_cons. split; [|done]. split; [by apply key_ok|done|by repeat constructor|].
    apply Forall_cons. split; [|done]. apply go_entry; [by apply key_ok|done|exact Hb].
  - split; [done|]. apply Forall_cons. by repeat split.
Qed.
Definition written (db : database) : option (list byte) :=
  match policydb_write db (mem_output [] 1000) fresh_heap with Some ((0, fp), _) => Some (pf_out fp) | _ => None end.
(** the same policy, whose type has an attribute 1 that does not exist *)
Definition bad_attrs : ebitmap := ExampleIndex.bits 3.
Definition bad_db : database := with_policy db (with_attr_maps policy [bad_attrs] []).
Lemma bad_storable : file_storable bad_db info commons Example.slots ExampleCond.slots.
Proof.
  split; [split; [done|by vm_compute|by vm_compute|by left|done|done]|split; [by apply (ExampleSets.bits_wf 1)|apply ebitmap_init_wf]|done| |].
  - change (symtabs_storable (db_policy bad_db) (Some commons) symbols). symbols_tac.
  - rules_tac.
Qed.
Lemma bad_writable : attr_maps_writable (db_policy bad_db).
Proof. split; [done|done|]. intros e ->%list_elem_of_singleton. by apply (ExampleSets.bits_wf 3). Qed.
End ExamplePolicy.

#[local] Existing Instance target_arm.
(** witness of C4 *)
Lemma policydb_roundtrip_witness :
  trip_ok (policydb_write ExamplePolicy.db) (policydb_read [] ExamplePolicy.db0)
    (policy_back ExamplePolicy.db0 ExamplePolicy.db ExamplePolicy.commons Example.slots).
Proof.
  refine (policydb_roundtrip [] ExamplePolicy.db0 ExamplePolicy.db ExamplePolicy.info ExamplePolicy.commons Example.slots ExampleCond.slots _ _ _ _).
  - apply ExamplePolicy.db0_fresh.
  - apply ExamplePolicy.storable.
  - apply ExamplePolicy.tables_ok.
  - apply ExamplePolicy.objects_ok.
Defined.

(** witness of C39 *)
Lemma policydb_read_trusts_attributes_witness :
  ∃ bs, writes (policydb_write ExamplePolicy.bad_db) bs ∧
    ∀ rest h, mem_ok h → policydb_read [] ExamplePolicy.db0 (mem_input (bs ++ rest)) h = None.
Proof.
  refine (policydb_read_trusts_attributes [] ExamplePolicy.db0 ExamplePolicy.bad_db ExamplePolicy.info ExamplePolicy.commons
    Example.slots ExampleCond.slots ExamplePolicy.bad_attrs 1 _ _ _ _ _ _ _ _).
  - apply ExamplePolicy.db0_fresh.
  - apply ExamplePolicy.bad_storable.
  - exact ExamplePolicy.tables_ok.
  - exact ExamplePolicy.objects_ok.
  - apply ExamplePolicy.bad_writable.
  - by left.
  - by vm_compute.
  - by vm_compute.
Defined.
