(* ===== verification/LoadPolicy.v ===== *)
(** * Loading a policy ([sepol_load_policy] of [services.c], [policydb_load_isids]
    of [policydb.c])

    A new policy is read into a database and takes the place of the active one:
    its classes must agree with the old ones, and the contexts of the identifiers
    are translated by name; identifiers whose context has no valid translation
    are dropped.  A table of identifiers begins with those the policy names. *)

From S2P Require Import Prelude PolicyFile Hashtab Ebitmap EbitmapIO Symtab Tables Context Avtab AvtabIO Sidtab Policydb Mls MlsText Services ContextText SidQueries ExpandRules Readers SymbolsIO OcontextIO Scopes ModuleIO Index PolicydbIO WholePolicy.

(** the static variables of [services.c]: the database that [policydb] points to
    ([None] after it was destroyed), whether it is [mypolicydb], the
    identifiers *)
Record server := Server { sv_policydb : option database; sv_mine : bool; sv_sidtab : sidtab }.

Section operations.
Context `{Target}.

(** ** The classes *)

Definition validate_perm (h : option (hashtab string Z)) (key : string) (perdatum : Z) : CM Z :=
  perdatum2 ← hashtab_search h key;
  mret (match perdatum2 with
        | None => -1
        | Some perdatum2 => if negb (perdatum =? perdatum2) then -1 else 0
        end).
Definition validate_perms (t t2 : symtab Z) : CM Z :=
  '(rc, _) ← hashtab_map (table t) (λ k d (_ : unit), r ← validate_perm (table t2) k d; mret (r, ())) ();
  mret rc.
Definition validate_class (newp : policydb) (key : string) (cladatum : class_datum) : CM Z :=
  cladatum2 ← hashtab_search (table (p_classes newp)) key;
  match cladatum2 with
  | None => mret (-1)
  | Some cladatum2 =>
      if negb (class_value cladatum =? class_value cladatum2) then mret (-1) else
      match class_comdatum cladatum, class_comdatum cladatum2 with
      | Some _, None | None, Some _ => mret (-1)
      | Some com, Some com2 =>
          rc ← validate_perms (common_permissions com) (common_permissions com2);
          if truth rc then mret (-1) else
          rc ← validate_perms (class_permissions cladatum) (class_permissions cladatum2);
          mret (if truth rc then -1 else 0)
      | None, None =>
          rc ← validate_perms (class_permissions cladatum) (class_permissions cladatum2);
          mret (if truth rc then -1 else 0)
      end
  end.

(** ** The identifiers *)

Definition clone_sid (sid : Z) (context : context_struct) (s : sidtab) : CM (Z * sidtab) :=
  sepol_sidtab_insert s sid context.

(** [selinux_enforcing] is 1 *)
Definition convert_context_handle_invalid_context : Z := - EINVAL.
(** the message at [bad] prints the old context; when its text cannot be made,
    an uninitialised pointer is printed and freed *)
Definition convert_bad (p : policydb) (oldc c : context_struct) (rc : Z) : CM (Z * context_struct) :=
  '(_, s) ← context_to_string p oldc;
  match s with None => undefined | Some _ => mret (rc, c) end.
(** [oldp] is the active policy; the context is written in place *)
Definition convert_context (oldp newp : policydb) (c : context_struct) : CM (Z * context_struct) :=
  '(err, oldc) ← context_cpy context_init c;
  if truth err then mret (- ENOMEM, c) else
  name ← deref (at_val (p_user_val_to_name oldp) (c_user c));
  usrdatum ← hashtab_search (table (p_users newp)) name;
  match usrdatum with
  | None => convert_bad oldp oldc c (- EINVAL)
  | Some usrdatum =>
      let c := Context (user_value usrdatum) (c_role c) (c_type c) (c_range c) in
      name ← deref (at_val (p_role_val_to_name oldp) (c_role c));
      role ← hashtab_search (table (p_roles newp)) name;
      match role with
      | None => convert_bad oldp oldc c (- EINVAL)
      | Some role =>
          let c := Context (c_user c) (role_value role) (c_type c) (c_range c) in
          name ← deref (at_val (p_type_val_to_name oldp) (c_type c));
          typdatum ← hashtab_search (table (p_types newp)) name;
          match typdatum with
          | None => convert_bad oldp oldc c (- EINVAL)
          | Some typdatum =>
              let c := Context (c_user c) (c_role c) (type_value typdatum) (c_range c) in
              '(rc, c) ← mls_convert_context oldp newp c;
              if truth rc then convert_bad oldp oldc c rc else
              ok ← policydb_context_isvalid newp c;
              if negb ok then convert_bad oldp oldc c convert_context_handle_invalid_context
              else mret (0, c)
          end
      end
  end.

(** ** Loading *)

(** [garbage] is what [newsidtab] holds before its initialisation, the answer of
    which is not looked at; [junk] is the memory that [policydb_read] does not
    initialise.  When [policydb_init] has freed its tables and answered 0 all the
    same, the reader goes on with them. *)
Definition sepol_load_policy (sv : server) (garbage : sidtab) (junk data : list byte) : CM (Z * server) :=
  '(rc, newpolicydb) ← policydb_init;
  if truth rc then mret (- ENOMEM, sv) else
  newpolicydb ← deref newpolicydb;
  '(r, _) ← policydb_read junk newpolicydb (mem_input data);
  match r with
  | inl _ => mret (- EINVAL, Server (if sv_mine sv then None else sv_policydb sv) (sv_mine sv) (sv_sidtab sv))
  | inr newpolicydb =>
      '(_, newsidtab) ← sepol_sidtab_init garbage;
      p ← deref (sv_policydb sv);
      let p := db_policy p in
      '(rc, _) ← hashtab_map (table (p_classes p)) (λ k d (_ : unit), r ← validate_class (db_policy newpolicydb) k d; mret (r, ())) ();
      if truth rc then mret (- EINVAL, sv) else
      let sids := sepol_sidtab_shutdown (sv_sidtab sv) in
      '(rc, newsidtab) ← sepol_sidtab_map sids clone_sid newsidtab;
      if truth rc then mret (- ENOMEM, Server (sv_policydb sv) (sv_mine sv) sids) else
      '(newsidtab, _) ← sepol_sidtab_map_remove_on_error newsidtab
        (λ _ c (_ : unit), '(ret, c) ← convert_context p (db_policy newpolicydb) c; mret (ret, c, ())) ();
      mret (0, Server (Some newpolicydb) (sv_mine sv) (sepol_sidtab_set newsidtab))
  end.

(** ** The first identifiers *)

Fixpoint load_isids (l : list ocontext) (s : sidtab) : CM (Z * sidtab) :=
  match l with
  | [] => mret (0, s)
  | c :: l =>
      if c_user (oc_context0 c) =? 0 then mret (-1, s) else
      '(rc, s) ← sepol_sidtab_insert s (oc_sid0 c) (oc_context0 c);
      if truth rc then mret (-1, s) else load_isids l s
  end.
Definition policydb_load_isids (p : policydb) (s : sidtab) : CM (Z * sidtab) :=
  '(rc, s) ← sepol_sidtab_init s;
  if truth rc then mret (-1, s) else
  head ← deref (ocontexts p !! OCON_ISID);
  load_isids head s.
End operations.

(** ** Theory: classes *)

(** the permissions of a class stay, with their values *)
Definition perms_kept (t t2 : symtab Z) : Prop := table_map (table t) ⊆ table_map (table t2).
Definition class_kept (newp : policydb) (name : string) (cd : class_datum) : Prop :=
  ∃ cd2, table_map (table (p_classes newp)) !! name = Some cd2 ∧ class_value cd = class_value cd2 ∧
    match class_comdatum cd, class_comdatum cd2 with
    | None, None => True
    | Some com, Some com2 => perms_kept (common_permissions com) (common_permissions com2)
    | _, _ => False
    end ∧ perms_kept (class_permissions cd) (class_permissions cd2).
Definition classes_kept (p newp : policydb) : Prop := map_Forall (class_kept newp) (table_map (table (p_classes p))).

(** the tables of the classes are in order *)
Definition class_ok `{Target} (cd : class_datum) : Prop :=
  table_ok (table (class_permissions cd)) ∧
  match class_comdatum cd with Some com => table_ok (table (common_permissions com)) | None => True end.
Definition classes_ok `{Target} (p : policydb) : Prop :=
  table_ok (table (p_classes p)) ∧ map_Forall (λ _, class_ok) (table_map (table (p_classes p))).

Section classes.
Context `{Target}.

Lemma validate_perms_wp t t2 h :
  table_ok (table t) → table_ok (table t2) →
  wp (validate_perms t t2) (λ rc h', h' = h ∧ (rc = 0 ↔ perms_kept t t2)) h.
Proof.
  intros Ht Ht2. unfold validate_perms. apply wp_bind.
  eapply wp_mono; [apply (hashtab_map_all _ _ (λ k d, table_map (table t2) !! k = Some d)); [done|]|].
  - intros k d h1 _. apply wp_bind. eapply wp_mono; [by apply table_search_wp|]. intros r h2 [-> ->]. apply wp_ret.
    split; [done|]. destruct (_ !! k) as [v|]; [|by split]. destruct (Z.eqb_spec d v) as [<-|]; cbn; naive_solver.
  - intros [rc u] h1 [-> Hr]. apply wp_ret. split; [done|]. rewrite Hr. unfold perms_kept.
    rewrite map_subseteq_spec. done.
Qed.

Lemma validate_class_wp newp name cd h :
  class_ok cd → classes_ok newp →
  wp (validate_class newp name cd) (λ rc h', h' = h ∧ (rc = 0 ↔ class_kept newp name cd)) h.
Proof.
  intros [Hcp Hcc] [Ht Hall]. unfold validate_class, class_kept.
  assert (Hno : ∀ P : Prop, (P → False) → wp (mret (M := CM) (-1)) (λ rc h', h' = h ∧ (rc = 0 ↔ P)) h).
  { intros P HP. apply wp_ret. split; [done|]. split; [done|]. by intros ?%HP. }
  apply wp_bind. eapply wp_mono; [by apply table_search_wp|]. intros r h1 [-> ->].
  destruct (_ !! name) as [cd2|] eqn:E; [|apply Hno; naive_solver]. destruct (Hall _ _ E) as [Hcp2 Hcc2].
  destruct (Z.eqb_spec (class_value cd) (class_value cd2)) as [Ev|]; [|apply Hno; naive_solver]. cbn [negb].
  assert (Hlast : ∀ P : Prop,
    (P ↔ perms_kept (class_permissions cd) (class_permissions cd2)) →
    wp (rc ← validate_perms (class_permissions cd) (class_permissions cd2); mret (if truth rc then -1 else 0))
      (λ rc h', h' = h ∧ (rc = 0 ↔ P)) h).
  { intros P HP. apply wp_bind. eapply wp_mono; [by apply validate_perms_wp|]. intros rc h1 [-> Hr]. apply wp_ret.
    split; [done|]. rewrite HP, <- Hr. destruct (truth rc) eqn:Et; [apply truth_true in Et|apply truth_false in Et]; split; done. }
  destruct (class_comdatum cd) as [com|] eqn:E1, (class_comdatum cd2) as [com2|] eqn:E2;
    try (apply Hno; intros (cd3&[= <-]&_&Hm&_); by rewrite E2 in Hm).
  - apply wp_bind. eapply wp_mono; [by apply validate_perms_wp|]. intros rc h1 [-> Hr]. destruct (truth rc) eqn:Et.
    + apply truth_true in Et. apply Hno. intros (cd3&[= <-]&_&Hm&_). rewrite E2 in Hm. by apply Hr in Hm.
    + apply truth_false in Et. apply Hlast. split; [by intros (cd3&[= <-]&_&_&?)|]. intros Hp.
      exists cd2. rewrite E2. split_and!; [done|done|by apply Hr|done].
  - apply Hlast. split; [by intros (cd3&[= <-]&_&_&?)|]. intros Hp. exists cd2. by rewrite E2.
Qed.
End classes.

(** ** Theory: contexts *)

(** [c'] is [c] translated by name, and valid in the new policy *)
Definition context_converted (oldp newp : policydb) (tl : hashtab string level_datum) (tc : hashtab string cat_datum)
    (tu : hashtab string user_datum) (tr : hashtab string role_datum) (tt : hashtab string type_datum)
    (c c' : context_struct) : Prop :=
  (∃ name d, at_val (p_user_val_to_name oldp) (c_user c) = Some name ∧ hashtab_map_of tu !! name = Some d ∧
     c_user c' = user_value d) ∧
  (∃ name d, at_val (p_role_val_to_name oldp) (c_role c) = Some name ∧ hashtab_map_of tr !! name = Some d ∧
     c_role c' = role_value d) ∧
  (∃ name d, at_val (p_type_val_to_name oldp) (c_type c) = Some name ∧ hashtab_map_of tt !! name = Some d ∧
     c_type c' = type_value d) ∧
  level_converted oldp (hashtab_map_of tl) (hashtab_map_of tc) (low_level (c_range c)) (low_level (c_range c')) ∧
  level_converted oldp (hashtab_map_of tl) (hashtab_map_of tc) (high_level (c_range c)) (high_level (c_range c')) ∧
  context_valid newp tl c'.

Lemma level_converted_fun oldp levels cats lev l1 l2 :
  level_converted oldp levels cats lev l1 → level_converted oldp levels cats lev l2 → l1 = l2.
Proof.
  intros (n1&d1&Hn1&Hd1&Hw1&Hs1&Hset1&_) (n2&d2&Hn2&Hd2&Hw2&Hs2&Hset2&_). simplify_eq.
  apply level_le_antisym; [done|done|..]; (split; [lia|]; intros j); by rewrite Hset1, Hset2.
Qed.
Lemma context_converted_fun oldp newp tl tc tu tr tt c c1 c2 :
  context_converted oldp newp tl tc tu tr tt c c1 → context_converted oldp newp tl tc tu tr tt c c2 → c1 = c2.
Proof.
  intros ((?&?&?&?&?)&(?&?&?&?&?)&(?&?&?&?&?)&L1&G1&_) ((?&?&?&?&?)&(?&?&?&?&?)&(?&?&?&?&?)&L2&G2&_). simplify_eq.
  destruct c1 as [u1 r1 t1 [l1 h1]], c2 as [u2 r2 t2 [l2 h2]]; cbn in *. subst. f_equal.
  f_equal; by eapply level_converted_fun.
Qed.
Lemma level_unknown_not oldp levels cats lev lev' :
  level_unknown oldp levels cats lev → level_converted oldp levels cats lev lev' → False.
Proof.
  intros [(name&Hn&Hd)|(i&Hi&Hno)] (name'&d&Hn'&Hd'&_&_&_&Hall); [naive_solver|].
  destruct (Hall i Hi) as [j Hj]. by apply (Hno j).
Qed.

Section conversion.
Context `{Target} (oldp newp : policydb) (t ct : list (list avtab_node)) (n : Z).
Context (tl : hashtab string level_datum) (tc : hashtab string cat_datum).
Context (tu : hashtab string user_datum) (tr : hashtab string role_datum) (tt : hashtab string type_datum).
Context (Hlw : label_wf newp t ct tl) (Hrd : read_tables newp tl tc tu tr tt).
Abbreviation converts := (context_converted oldp newp tl tc tu tr tt).

Lemma convert_bad_wp oldc c rc h :
  showable oldp n oldc → mem_ok h → wp (convert_bad oldp oldc c rc) (λ '(ret, c') h', mem_ok h' ∧ ret = rc ∧ c' = c) h.
Proof.
  intros Hsh Ho. unfold convert_bad. apply wp_bind. destruct (showable_text oldp n oldc h Hsh) as (?&?&?&?&_&_&_&_&Hw).
  eapply wp_mono; [exact Hw|]. intros [rc' r] h1 [M [[_ ->]|[-> ->]]]; [|by destruct (M Ho)].
  apply wp_ret. destruct (M Ho). done.
Qed.

Lemma showable_convertible c :
  showable oldp n c →
  convertible oldp (hashtab_map_of tc)
    (ebitmap_set (cat (low_level (c_range c))) ∪ ebitmap_set (cat (high_level (c_range c)))).
Proof.
  intros [_ (Hw1&_&H1) (Hw2&_&H2) Hc _ _]. split.
  - intros i Hi. apply Hc. apply elem_of_union in Hi as [Hi|Hi]; apply elem_of_ebitmap_set in Hi; try done;
      (split; [by eapply nodes_bit_range in Hi; [lia|]|auto]).
  - intros name d Hd. apply (rd_cat _ _ _ _ _ _ Hrd) in Hd. lia.
Qed.

Lemma level_converted_ok lev lev' :
  level_converted oldp (hashtab_map_of tl) (hashtab_map_of tc) lev lev' → level_wf lev' ∧ 0 ≤ sens lev'.
Proof.
  intros (name&d&_&Hd&Hw&Hs&_). split; [done|]. rewrite Hs. by eapply (rd_sens _ _ _ _ _ _ Hrd).
Qed.

(** the answer of a context that cannot be translated *)
Lemma convert_refused c c0 rc h :
  showable oldp n c → mem_ok h → rc ≠ 0 → (¬ ∃ c', converts c c') →
  wp (convert_bad oldp c c0 rc) (λ '(ret, c') h', mem_ok h' ∧
    (ret = 0 ∧ converts c c' ∨ ret ≠ 0 ∧ ¬ ∃ c', converts c c')) h.
Proof.
  intros Hsh Ho Hrc Hno. eapply wp_mono; [by apply convert_bad_wp|]. intros [ret c'] h' (?&->&->). split; [done|by right].
Qed.

Lemma convert_context_wp c h :
  showable oldp n c → mem_ok h →
  wp (convert_context oldp newp c) (λ '(ret, c') h', mem_ok h' ∧
    (ret = 0 ∧ converts c c' ∨ ret ≠ 0 ∧ ¬ ∃ c', converts c c')) h.
Proof.
  intros Hsh Ho. pose proof Hsh as [Hon [Hwl [Hnl _]] [Hwh [Hnh _]] _ ([user Hu]&[role Hr]&[type Ht]) _].
  unfold convert_context. apply wp_bind. eapply wp_mono; [apply context_cpy_wp|].
  intros [err oldc] h1 [M [[-> ->]| ->]]; [|by destruct (M Ho)]. destruct (M Ho) as [Ho1 _]. cbn [truth Z.eqb negb].
  eapply wp_bind, wp_deref; [done|]. rewrite (rd_users _ _ _ _ _ _ Hrd). apply wp_bind.
  eapply wp_mono; [apply hashtab_search_wp, (rd_users_ok _ _ _ _ _ _ Hrd)|]. intros r h2 [-> ->].
  destruct (_ !! user) as [du|] eqn:Hdu; [|apply convert_refused; [done..|]; intros (c'&(?&?&?&?&_)&_); congruence].
  cbn [c_role c_user c_type c_range]. eapply wp_bind, wp_deref; [done|]. rewrite (rd_roles _ _ _ _ _ _ Hrd). apply wp_bind.
  eapply wp_mono; [apply hashtab_search_wp, (rd_roles_ok _ _ _ _ _ _ Hrd)|]. intros r h2 [-> ->].
  destruct (_ !! role) as [dr|] eqn:Hdr; [|apply convert_refused; [done..|]; intros (c'&_&(?&?&?&?&_)&_); congruence].
  cbn [c_role c_user c_type c_range]. eapply wp_bind, wp_deref; [done|]. rewrite (rd_types _ _ _ _ _ _ Hrd). apply wp_bind.
  eapply wp_mono; [apply hashtab_search_wp, (rd_types_ok _ _ _ _ _ _ Hrd)|]. intros r h2 [-> ->].
  destruct (_ !! type) as [dt|] eqn:Hdt; [|apply convert_refused; [done..|]; intros (c'&_&_&(?&?&?&?&_)&_); congruence].
  cbn [c_role c_user c_type c_range]. apply wp_bind. eapply wp_mono.
  { apply (mls_convert_context_wp oldp newp tl tc); cbn [c_range]; try done; [apply (rd_levels _ _ _ _ _ _ Hrd)|
      apply (rd_levels_ok _ _ _ _ _ _ Hrd)|apply (rd_cats _ _ _ _ _ _ Hrd)|apply (rd_cats_ok _ _ _ _ _ _ Hrd)|].
    by apply showable_convertible. }
  intros [rc c'] h2 [M2 Hcase]. destruct (M2 Ho1) as [Ho2 Hrc]. cbn [c_range] in Hcase.
  destruct Hcase as [(->&Hc'&HL&HH)|[[-> Hun]| ->]]; [|apply convert_refused; [done..|]|done].
  2:{ intros (c2&_&_&_&HL&HH&_). destruct Hun as [Hun|Hun]; by eapply level_unknown_not. }
  cbn [truth Z.eqb negb]. destruct (level_converted_ok _ _ HL), (level_converted_ok _ _ HH). apply wp_bind.
  eapply wp_mono; [apply (context_is_valid_wp newp t ct tl Hlw); rewrite Hc'; cbn;
    [by eapply (rd_user _ _ _ _ _ _ Hrd)|by eapply (rd_role _ _ _ _ _ _ Hrd)|by split]|].
  intros ok h3 [-> Hok]. destruct ok; cbn [negb].
  - apply wp_ret. split; [done|left]. split; [done|]. rewrite Hc' in *. cbn in *.
    split_and!; [by eexists _, _|by eexists _, _|by eexists _, _|done|done|by apply Hok].
  - apply convert_refused; [done..|]. intros (c2&(?&?&?&?&E1)&(?&?&?&?&E2)&(?&?&?&?&E3)&HL2&HH2&Hv2). simplify_eq.
    assert (c' = c2) as ->; [|by apply Hok in Hv2].
    rewrite Hc'. destruct c2 as [u2 r2 t2 [l2 hh2]]; cbn in *. subst. rewrite Hc' in HL, HH. cbn in *. f_equal.
    rewrite (level_converted_fun _ _ _ _ _ _ HL2 HL), (level_converted_fun _ _ _ _ _ _ HH2 HH). by destruct (c_range c').
Qed.
End conversion.

(** ** Theory: identifiers *)

Section sids.
Context `{Target}.

Lemma clone_sids_wp s t s0 h :
  sidtab_wf s t → sidtab_wf s0 (replicate 128 []) → shutdown s0 = 0 → mem_ok h →
  wp (sepol_sidtab_map s clone_sid s0) (λ '(rc, s') h', mem_ok h' ∧ rc = 0 ∧ shutdown s' = 0 ∧
    ∃ t', sidtab_wf s' t' ∧ sid_map t' = sid_map t) h.
Proof.
  intros Hwf Hwf0 Hs0 Ho.
  apply (sepol_sidtab_map_wp _ t _ (λ l s' h', mem_ok h' ∧ shutdown s' = 0 ∧ ∃ t', sidtab_wf s' t' ∧
    ∀ sid c, sid_map t' !! sid = Some c ↔ (sid, c) ∈ l)); [done| | |].
  - split_and!; [done|done|]. exists (replicate 128 []). split; [done|]. intros sid c.
    rewrite (sid_map_elem _ _ _ _ Hwf0). change (concat (replicate 128 [])) with (@nil sid_node). done.
  - intros sid c l1 l2 s1 h1 Hl (Ho1&Hs1&t1&Hwf1&Hmap).
    assert (Hin : (sid, c) ∈ concat t) by (rewrite Hl; set_solver).
    destruct (st_sids _ _ Hwf _ Hin) as [Hpos Hlt]. cbn in Hpos, Hlt. pose proof (st_next _ _ Hwf).
    eapply wp_mono; [apply sepol_sidtab_insert_wp; [done|lia]|]. intros [rc s'] h2 [M Hcase].
    assert (Hno : sid_map t1 !! sid = None).
    { destruct (_ !! sid) as [c1|] eqn:E; [|done]. apply Hmap in E. pose proof (sids_NoDup _ _ Hwf) as Hnd.
      rewrite Hl, fmap_app, fmap_cons in Hnd. apply NoDup_app in Hnd as (_&Hd&_). exfalso. apply (Hd sid); [|by left].
      apply list_elem_of_fmap. by exists (sid, c1). }
    rewrite Hno in Hcase. destruct (M Ho1) as [Ho2 Hne]. destruct Hcase as [(->&Hs'&_&t'&Hwf'&Hmap')|[-> _]]; [|done].
    cbn [truth Z.eqb negb]. split_and!; [done|congruence|]. exists t'. split; [done|]. intros sid' c'. rewrite Hmap'.
    rewrite lookup_insert_Some, Hmap, elem_of_app, list_elem_of_singleton. split.
    + intros [[-> ->]|[_ ?]]; [by right|by left].
    + intros [Hin'|[= -> ->]]; [right; split; [|done]|by left]. intros <-. apply Hmap in Hin'. congruence.
  - intros s1 h1 (Ho1&Hs1&t1&Hwf1&Hmap). split_and!; [done|done|done|]. exists t1. split; [done|].
    apply map_eq. intros sid. apply option_eq. intros c. rewrite Hmap. by rewrite (sid_map_elem _ _ _ _ Hwf).
Qed.

Context (oldp newp : policydb) (pt pct : list (list avtab_node)) (n : Z).
Context (tl : hashtab string level_datum) (tc : hashtab string cat_datum).
Context (tu : hashtab string user_datum) (tr : hashtab string role_datum) (tt : hashtab string type_datum).
Context (Hlw : label_wf newp pt pct tl) (Hrd : read_tables newp tl tc tu tr tt).
Abbreviation converts := (context_converted oldp newp tl tc tu tr tt).

Lemma convert_sids_wp s t h :
  sidtab_wf s t → (∀ sid c, sid_map t !! sid = Some c → showable oldp n c) → mem_ok h →
  wp (sepol_sidtab_map_remove_on_error s
       (λ _ c (_ : unit), '(ret, c) ← convert_context oldp newp c; mret (ret, c, ())) ())
    (λ '(s', _) h', ∃ t', sidtab_wf s' t' ∧
       ∀ sid c', sid_map t' !! sid = Some c' ↔ ∃ c, sid_map t !! sid = Some c ∧ converts c c') h.
Proof.
  intros Hwf Hsh Ho.
  eapply wp_mono; [apply (sidtab_remove_on_error_wp _ (λ _ c ret c', ret = 0 ∧ converts c c' ∨ ret ≠ 0 ∧ ¬ ∃ c', converts c c')
    (λ _ _ h', mem_ok h')); [done| |done]|].
  - intros sid c l1 l2 [] h1 Hl Ho1. apply wp_bind. eapply wp_mono; [apply (convert_context_wp oldp newp pt pct n tl tc tu tr tt Hlw Hrd)|].
    + apply (Hsh sid), (sid_map_elem _ _ _ _ Hwf). rewrite Hl. set_solver.
    + done.
    + intros [ret c'] h2 [Ho2 Hc]. by apply wp_ret.
  - intros [s' u] h1 (_&t'&Hwf'&Hp&_). exists t'. split; [done|]. intros sid c'. rewrite (sid_map_elem _ _ _ _ Hwf').
    setoid_rewrite (sid_map_elem _ _ sid _ Hwf). split.
    + intros Hin. destruct (pruned_elem _ _ _ _ _ Hp Hin) as (c&ret&Hin'&Hr&HP). exists c. split; [done|].
      apply truth_false in Hr. naive_solver.
    + intros (c&Hin&Hc). destruct (pruned_elem_conv _ _ _ _ _ Hp Hin) as (ret&c2&HP&Hr).
      destruct HP as [[-> Hc2]|[_ Hno]]; [|by destruct Hno; exists c']. destruct Hr as [?|Hin2]; [done|].
      by rewrite (context_converted_fun _ _ _ _ _ _ _ _ _ _ Hc Hc2).
Qed.
End sids.

Section load.
Context `{Target}.

Lemma load_policy_wp sv old new db0 garbage junk data fp t pt pct n tl tc tu tr tt h h1 h2 :
  let p := db_policy old in let newp := db_policy new in
  sv_policydb sv = Some old → sidtab_wf (sv_sidtab sv) t →
  policydb_init h = Some ((0, Some db0), h1) → policydb_read junk db0 (mem_input data) h1 = Some ((inr new, fp), h2) → mem_ok h2 →
  label_wf newp pt pct tl → read_tables newp tl tc tu tr tt → classes_ok p → classes_ok newp →
  (∀ sid c, sid_map t !! sid = Some c → showable p n c) →
  wp (sepol_load_policy sv garbage junk data) (λ '(rc, sv') h',
    rc = 0 ∧ classes_kept p newp ∧ sv_policydb sv' = Some new ∧ sv_mine sv' = sv_mine sv ∧
      (∃ t', sidtab_wf (sv_sidtab sv') t' ∧ shutdown (sv_sidtab sv') = 0 ∧
         ∀ sid c', sid_map t' !! sid = Some c' ↔
           ∃ c, sid_map t !! sid = Some c ∧ context_converted p newp tl tc tu tr tt c c')
    ∨ rc = - EINVAL ∧ ¬ classes_kept p newp ∧ sv' = sv) h.
Proof.
  intros p newp Hp Hwf Hi Hr Ho Hlw Hrd [Ht Hcls] Hnew Hsh. unfold sepol_load_policy. apply wp_bind. unfold wp at 1. rewrite Hi.
  cbn [truth Z.eqb negb]. eapply wp_bind, wp_deref; [done|]. apply wp_bind. unfold wp at 1. rewrite Hr.
  apply wp_bind. unfold sepol_sidtab_init. apply wp_bind, wp_malloc_ok; [done|]. intros a h3 Ho3. apply wp_ret.
  rewrite Hp. eapply wp_bind, wp_deref; [done|]. apply wp_bind.
  eapply wp_mono; [apply (hashtab_map_all _ _ (class_kept newp)); [done|]|].
  { intros k d h4 Hk. apply validate_class_wp; [by apply (Hcls k)|done]. }
  intros [rc u] h4 [-> Hrc]. fold (classes_kept p newp) in Hrc. destruct (truth rc) eqn:Et.
  { apply truth_true in Et. apply wp_ret. right. split_and!; [done|by intros ?%Hrc|done]. }
  apply truth_false in Et. subst rc. destruct Hrc as [Hkept _]. specialize (Hkept eq_refl). apply wp_bind.
  eapply wp_mono; [apply (clone_sids_wp _ t); [|apply sidtab_init_wf|done|done]|].
  { destruct Hwf. by split. }
  intros [rc s1] h5 (Ho5&->&_&t1&Hwf1&Hmap1). cbn [truth Z.eqb negb]. apply wp_bind.
  eapply wp_mono; [apply (convert_sids_wp p newp pt pct n tl tc tu tr tt Hlw Hrd _ t1); [done| |done]|].
  { intros sid c. rewrite Hmap1. apply Hsh. }
  intros [s2 u2] h6 (t2&Hwf2&Hmap2). apply wp_ret. left. split_and!; [done|done|done|done|]. exists t2.
  split_and!; [destruct Hwf2; by split|done|]. intros sid c'. rewrite Hmap2. by rewrite Hmap1.
Qed.
End load.

(** the identifiers a policy names can be entered *)
Definition isids_ok (l : list ocontext) (m : gmap Z context_struct) : Prop :=
  Forall (λ o, c_user (oc_context0 o) ≠ 0) l ∧ NoDup (oc_sid0 <$> l) ∧ ∀ o, o ∈ l → m !! oc_sid0 o = None.
Lemma isids_ok_cons o l m c : m !! oc_sid0 o = None → c_user (oc_context0 o) ≠ 0 →
  isids_ok (o :: l) m ↔ isids_ok l (<[oc_sid0 o := c]> m).
Proof.
  intros Hm Hu. unfold isids_ok. rewrite Forall_cons, fmap_cons, NoDup_cons. setoid_rewrite lookup_insert_None.
  setoid_rewrite elem_of_cons. split.
  - intros ((_&?)&(Hno&?)&Hn). split_and!; [done|done|]. intros o' Ho. split; [by apply Hn; right|].
    intros E. apply Hno. rewrite E. by apply list_elem_of_fmap_2.
  - intros (?&?&Hn). split_and!; [done|done| |done|].
    + intros (o'&E&Ho)%list_elem_of_fmap. by destruct (Hn o' Ho).
    + intros o' [->|Ho]; [done|]. by apply Hn.
Qed.
Definition isid_word (o : ocontext) : Prop := 0 < oc_sid0 o < UINT_MAX.
Lemma load_isids_wp l s t h : sidtab_wf s t → Forall isid_word l → mem_ok h →
  wp (load_isids l s) (λ '(rc, s') h', mem_ok h' ∧ (rc = 0 ∧ isids_ok l (sid_map t) ∧
      (∃ t', sidtab_wf s' t' ∧ ∀ sid c, sid_map t' !! sid = Some c ↔
         sid_map t !! sid = Some c ∨ ∃ o, o ∈ l ∧ oc_sid0 o = sid ∧ oc_context0 o = c)
    ∨ rc = -1 ∧ ¬ isids_ok l (sid_map t))) h.
Proof.
  revert s t h. induction l as [|o l IH]; intros s t h Hwf Hl Ho.
  { apply wp_ret. split; [done|left]. split_and!; [done| |].
    - split_and!; [done|apply NoDup_nil_2|]. by intros o ?%elem_of_nil.
    - exists t. split; [done|]. intros sid c. split; [by left|]. intros [?|(o&Hin&_)]; [done|]. by apply elem_of_nil in Hin. }
  apply Forall_cons in Hl as [Hs Hl]. cbn [load_isids]. destruct (Z.eqb_spec (c_user (oc_context0 o)) 0) as [E|Hu].
  { apply wp_ret. split; [done|right]. split; [done|]. intros ([? _]%Forall_cons&_). done. }
  apply wp_bind. eapply wp_mono; [by apply sepol_sidtab_insert_wp|]. intros [rc s1] h1 [M Hcase]. destruct (M Ho) as [Ho1 Hne].
  destruct (sid_map t !! oc_sid0 o) as [c|] eqn:E.
  { destruct Hcase as [-> _]. apply wp_ret. split; [done|right]. split; [done|]. intros (_&_&Hno). rewrite Hno in E; [done|by left]. }
  destruct Hcase as [(->&_&_&t1&Hwf1&Hm)|[-> _]]; [|done]. cbn [truth Z.eqb negb].
  eapply wp_mono; [by apply (IH s1 t1)|]. intros [rc s2] h2 [Ho2 Hcase]. split; [done|]. rewrite Hm in Hcase.
  rewrite <- (isids_ok_cons o l) in Hcase by done. destruct Hcase as [(->&Hok&t2&Hwf2&Hm2)|Hno]; [left|by right].
  split_and!; [done|done|]. exists t2. split; [done|]. intros sid c. rewrite Hm2. setoid_rewrite elem_of_cons.
  rewrite lookup_insert_Some. split.
  - intros [[[<- <-]|[_ ?]]|(o'&?&?&?)]; [right; by exists o; auto|by left|right; exists o'; auto].
  - intros [Hc|(o'&[->|Hin]&E1&E2)]; [left; right|left; by left|by right; exists o'].
    split; [|done]. intros E1. rewrite <- E1, E in Hc. done.
Qed.

(** with memory, [policydb_load_isids] makes the table of the identifiers the
    policy names; it fails when one has no context or two are the same. *)
Theorem policydb_load_isids_correct `{Target} p s l h :
  ocontexts p !! OCON_ISID = Some l → Forall isid_word l → mem_ok h →
  wp (policydb_load_isids p s) (λ '(rc, s') _, rc = 0 ∧ isids_ok l ∅ ∧
      (∃ t', sidtab_wf s' t' ∧ ∀ sid c, sid_map t' !! sid = Some c ↔ ∃ o, o ∈ l ∧ oc_sid0 o = sid ∧ oc_context0 o = c)
    ∨ rc = -1 ∧ ¬ isids_ok l ∅) h.
Proof.
  intros Hl Hw Ho. unfold policydb_load_isids, sepol_sidtab_init. apply wp_bind, wp_bind, wp_malloc_ok; [done|]. intros a h1 Ho1.
  apply wp_ret. cbn [truth Z.eqb negb]. eapply wp_bind, wp_deref; [done|].
  eapply wp_mono; [apply load_isids_wp; [apply sidtab_init_wf|done|done]|]. intros [rc s'] h2 [_ Hcase].
  change (sid_map (replicate 128 [])) with (∅ : gmap Z context_struct) in Hcase.
  destruct Hcase as [(->&Hok&t'&Hwf&Hm)|Hno]; [left|by right]. split_and!; [done|done|]. exists t'. split; [done|].
  intros sid c. rewrite Hm. rewrite lookup_empty. naive_solver.
Qed.

(** ** Properties *)

(** C9: with memory, loading the bytes of a policy that [policydb_read] accepts
    succeeds exactly when every class of the active policy keeps its value, its
    permissions and its common part.  Then the policy read is active, and an
    identifier keeps its meaning: its context is the old one translated by
    name, if that is valid in the new policy, and the identifier is gone
    otherwise.  When it is refused nothing changes. *)
Theorem sepol_load_policy_correct `{Target} sv old new db0 garbage junk data fp t pt pct n tl tc tu tr tt h h1 h2 :
  let p := db_policy old in let newp := db_policy new in
  sv_policydb sv = Some old → sidtab_wf (sv_sidtab sv) t →
  policydb_init h = Some ((0, Some db0), h1) → policydb_read junk db0 (mem_input data) h1 = Some ((inr new, fp), h2) → mem_ok h2 →
  label_wf newp pt pct tl → read_tables newp tl tc tu tr tt → classes_ok p → classes_ok newp →
  (∀ sid c, sid_map t !! sid = Some c → showable p n c) →
  wp (sepol_load_policy sv garbage junk data) (λ '(rc, sv') h',
    rc = 0 ∧ classes_kept p newp ∧ sv_policydb sv' = Some new ∧ sv_mine sv' = sv_mine sv ∧
      (∃ t', sidtab_wf (sv_sidtab sv') t' ∧ shutdown (sv_sidtab sv') = 0 ∧
         ∀ sid c', sid_map t' !! sid = Some c' ↔
           ∃ c, sid_map t !! sid = Some c ∧ context_converted p newp tl tc tu tr tt c c')
    ∨ rc = - EINVAL ∧ ¬ classes_kept p newp ∧ sv' = sv) h.
Proof. apply load_policy_wp. Qed.

(** C38: when the new policy cannot be read, [sepol_load_policy] destroys
    [mypolicydb], which is the active policy, instead of the one it failed to
    read: after the error there is no policy, and the next load of a policy that
    can be read follows its freed tables. *)
Theorem sepol_load_policy_destroys_active `{Target} sv garbage junk data rc db0 fp h h1 h2 :
  sv_mine sv = true → policydb_init h = Some ((0, Some db0), h1) → policydb_read junk db0 (mem_input data) h1 = Some ((inl rc, fp), h2) →
  sepol_load_policy sv garbage junk data h = Some ((- EINVAL, Server None true (sv_sidtab sv)), h2) ∧
  ∀ garbage' junk' data' db0' new' fp' h' h1' h2', mem_ok h2' → policydb_init h' = Some ((0, Some db0'), h1') →
    policydb_read junk' db0' (mem_input data') h1' = Some ((inr new', fp'), h2') →
    sepol_load_policy (Server None true (sv_sidtab sv)) garbage' junk' data' h' = None.
Proof.
  intros Hm Hi Hr. unfold sepol_load_policy, mbind, CM_bind. split.
  - rewrite Hi. cbn [truth Z.eqb negb deref mret CM_ret]. rewrite Hr. by rewrite Hm.
  - intros garbage' junk' data' db0' new' fp' h' h1' h2' Ho Hi' Hr'. rewrite Hi'. cbn [truth Z.eqb negb deref mret CM_ret]. rewrite Hr'.
    unfold sepol_sidtab_init, mbind, CM_bind. destruct (wp_run malloc (λ r _, r ≠ None) h2') as (r&h3&->&Hx); [by apply wp_malloc_ok|].
    by destruct r.
Qed.

(** ** An example: the policy in use is loaded again *)

(** tests of what holds of tables that can be evaluated *)
Fixpoint sorted_by {A} (R : A → A → bool) (l : list A) : bool :=
  match l with [] => true | x :: l => forallb (R x) l && sorted_by R l end.
Lemma sorted_by_sorted {A} (R : A → A → bool) (P : A → A → Prop) l :
  (∀ a b, R a b = true → P a b) → sorted_by R l = true → StronglySorted P l.
Proof.
  intros HR. induction l as [|x l IH]; [constructor|]. cbn. intros [Hx Hl]%andb_true_iff. constructor; [by apply IH|].
  rewrite forallb_forall in Hx. apply Forall_forall. intros y Hy. by apply HR, Hx, list_elem_of_In.
Qed.
Definition slots_pass {A} (f : Z → list A → bool) (t : list (list A)) : bool := forallb (λ ic, f (Z.of_nat ic.1) ic.2) (imap pair t).
Lemma slots_pass_slot {A} (f : Z → list A → bool) t i c : slots_pass f t = true → t !! i = Some c → f (Z.of_nat i) c = true.
Proof.
  unfold slots_pass. rewrite forallb_forall. intros Hf Hc. apply (Hf (i, c)), list_elem_of_In, elem_of_lookup_imap. by exists i, c.
Qed.
Definition table_passes `{Target} {D} (t : hashtab string D) : bool :=
  (0 <? size t) && (size t <? 2 ^ 31) && (Z.of_nat (length (htable t)) =? size t) &&
  slots_pass (λ i c, sorted_by (λ a b, 0 <? keycmp b.1 a.1) c && forallb (λ kd, hash_value (size t) kd.1 =? i) c) (htable t).
Lemma table_passes_ok `{Target} {D} (t : hashtab string D) : table_passes t = true → hashtab_ok t.
Proof.
  unfold table_passes. rewrite !andb_true_iff, !Z.ltb_lt, Z.eqb_eq. intros [[[? ?] ?] Hs]. split; [lia|done|..].
  - intros i c Hc. apply (slots_pass_slot _ _ _ _ Hs) in Hc as [Hc _]%andb_true_iff. revert Hc. apply sorted_by_sorted.
    intros x y ?%Z.ltb_lt. done.
  - intros i c kd Hc Hin. apply (slots_pass_slot _ _ _ _ Hs) in Hc as [_ Hc]%andb_true_iff. rewrite forallb_forall in Hc.
    apply list_elem_of_In in Hin. by apply Hc, Z.eqb_eq in Hin.
Qed.
Definition in_u16 (z : Z) : bool := (0 <=? z) && (z <? 2 ^ 16).
Definition rules_pass (h : avtab) (t : list (list avtab_node)) : bool :=
  (nslot h =? Z.of_nat (length t)) && (0 <? nslot h) && (nslot h <=? MAX_AVTAB_SIZE) && (mask h =? nslot h - 1) &&
  (av_nel h =? u32 (length (concat t))) &&
  slots_pass (λ i c, sorted_by (λ a b, triple_code (key a) <=? triple_code (key b)) c &&
    forallb (λ nd, in_u16 (source_type (key nd)) && in_u16 (target_type (key nd)) && in_u16 (target_class (key nd)) &&
                   in_u16 (specified (key nd)) && (avtab_hash (key nd) (mask h) =? i)) c) t.
Lemma rules_pass_wf h t : av_htable h = Some t → rules_pass h t = true → avtab_wf h t.
Proof.
  unfold rules_pass. rewrite !andb_true_iff, Z.ltb_lt, Z.leb_le, !Z.eqb_eq. intros Ht [[[[[? ?] ?] ?] ?] Hs]. split; [done|done| |..|done].
  - intros i c Hc. apply (slots_pass_slot _ _ _ _ Hs) in Hc as [Hc _]%andb_true_iff. revert Hc. apply sorted_by_sorted.
    intros x y ?%Z.leb_le. done.
  - intros i c nd Hc Hin. apply (slots_pass_slot _ _ _ _ Hs) in Hc as [_ Hc]%andb_true_iff. rewrite forallb_forall in Hc.
    apply list_elem_of_In in Hin. apply Hc in Hin. unfold in_u16 in Hin. rewrite !andb_true_iff, !Z.leb_le, !Z.ltb_lt, Z.eqb_eq in Hin.
    unfold key_wf. naive_solver.
Qed.

Module ExampleLoad.
#[local] Existing Instance target_arm.
(** a policy with two sensitivities, three categories, two roles, two types and
    a user, in the bytes of its file *)
Definition user : user_datum :=
  UserDatum 1 (RoleSet (ExampleIndex.bits 2) 0) (SemRange (SemLevel 1 []) (SemLevel 2 [SemCat 1 3])) (SemLevel 1 [])
    ebitmap_init (MlsRange ExampleMls.s0 ExampleMls.s1) ExampleMls.s0 0.
Definition role : role_datum :=
  RoleDatum 2 (ExampleIndex.bits 2) (TypeSet (ExampleIndex.bits 1) ebitmap_init 0) (ExampleIndex.bits 1) 0 0 ebitmap_init.
Definition symbols : symtabs :=
  Symtabs (fresh_symtab 2) (fresh_symtab 32)
    (Symtab (Some (Hashtab [[(OBJECT_R, object_r_role); ("user_r"%string, role)]] 1 2)) 2)
    (Symtab (Some ExampleCtx.types) 2) (Symtab (Some (ExampleIndex.one "user_u" user)) 1) (fresh_symtab 16)
    (Symtab (Some ExampleMls.levels) 2) (Symtab (Some ExampleMls.cats) 3).
Definition policy : policydb := let p := cleared_policy symbols empty_avtab empty_avtab in
  Policydb POLICY_KERN 29 1 (p_classes p) (p_roles p) (p_types p) (p_users p) (p_bools p)
    (p_levels p) (p_cats p) [] [] [] [] [] [] [] [] [] [] Example.table empty_avtab
    [] [] [] [] [] [] [ExampleIndex.bits 1; ExampleIndex.bits 2] ebitmap_init [] (replicate OCON_NUM []) [].
Definition bytes : list byte := default [] (ExamplePolicy.written
  (Database policy (fresh_symtab 2) [] [] [] [] [] ebitmap_init 0 0 None None 0)).
(** what [policydb_read] makes of them *)
Definition start : heap := match policydb_init fresh_heap with Some (_, h) => h | None => fresh_heap end.
Definition reading : option ((Z + database) * policy_file * heap) := policydb_read [] ExamplePolicy.db0 (mem_input bytes) start.
Definition new : database := match reading with Some (inr d, _, _) => d | _ => ExamplePolicy.db0 end.
Definition rest : policy_file := match reading with Some (_, fp, _) => fp | None => mem_input [] end.
Definition after : heap := match reading with Some (_, h) => h | None => start end.
Definition newp : policydb := Eval vm_compute in db_policy new.
Definition table_in {D} (s : symtab D) : hashtab string D := default (Hashtab [] 0 0) (table s).
Definition slots (h : avtab) : list (list avtab_node) := default [] (av_htable h).
Definition active : server := Server (Some new) true ExampleSec.sids.

Lemma newp_new : db_policy new = newp.
Proof. by vm_compute. Qed.
Lemma reads_back : policydb_read [] ExamplePolicy.db0 (mem_input bytes) start = Some ((inr new, rest), after).
Proof. by vm_compute. Qed.
Ltac all_in Hd := apply elem_of_list_to_map_2 in Hd; vm_compute in Hd;
  repeat (apply elem_of_cons in Hd as [[= -> ->]|Hd]; [vm_compute; try done|]); try by apply elem_of_nil in Hd.
Lemma new_reads : read_tables newp (table_in (p_levels newp)) (table_in (p_cats newp)) (table_in (p_users newp)) (table_in (p_roles newp)) (table_in (p_types newp)).
Proof. split; try (by apply table_passes_ok; vm_compute); try done; intros name d Hd; all_in Hd. Qed.
Lemma bits_ok m : 0 < m < 2 ^ 64 → ebitmap_wf (ExampleIndex.bits m).
Proof. apply ExampleSec.attr_wf. Qed.
Lemma two v : 1 ≤ v ≤ 2 → v = 1 ∨ v = 2.
Proof. lia. Qed.
Lemma mls_ok : mls_tables newp (table_in (p_levels newp)).
Proof.
  split; [done|by apply table_passes_ok; vm_compute|intros name d Hd; all_in Hd; apply ExampleMls.cats012_wf|..].
  - intros s [-> | ->]%two; by eexists.
  - intros u Hu. assert (u = 1) as -> by (cbn in Hu; lia). eexists. split; [done|]. split; [apply ExampleMls.s0_wf|apply ExampleMls.s1_wf].
Qed.
Lemma new_labels : label_wf newp (slots (te_avtab newp)) (slots (te_cond_avtab newp)) (table_in (p_levels newp)).
Proof.
  split; [apply mls_ok|done|by apply rules_pass_wf; vm_compute|by apply rules_pass_wf; vm_compute|..].
  - intros r [-> | ->]%two; (eexists; split; [done|]); [apply ebitmap_init_wf|by apply (bits_ok 1)].
  - intros u d [Hu Hd]%at_val_lookup. destruct (Z.to_nat (u - 1)) as [|[|]]; [|done..]. injection Hd as <-. by apply (bits_ok 2).
  - by intros r ?%elem_of_nil.
  - by intros r ?%elem_of_nil.
Qed.
Lemma classes : classes_ok newp.
Proof. split; [by apply table_passes_ok; vm_compute|]. intros name d Hd. all_in Hd. Qed.
Lemma names_kept c : c = ExampleSec.user_con ∨ c = ExampleSec.file_con → showable newp 3 c.
Proof.
  intros Hc. assert (Hlevel : ∀ l, l = ExampleMls.s0 ∨ l = ExampleMls.s1 → level_named newp 3 l).
  { intros l [-> | ->]; (split_and!; [|by eexists|]); [apply ExampleMls.s0_wf|done|apply ExampleMls.s1_wf|].
    intros i Hi. by apply ExampleMls.cats012_member. }
  assert (Hcats : cats_named newp 3).
  { intros j Hj. assert (j = 0 ∨ j = 1 ∨ j = 2) as [->|[->| ->]] by lia; by eexists. }
  destruct Hc as [-> | ->]; (split; [done|apply Hlevel; auto|apply Hlevel; auto|done|split_and!; by eexists|]);
    intros u r ty h text h' Hu Hr Hty Ht; vm_compute in Ht; injection Ht as <- _; injection Hu as <-; injection Hr as <-;
    injection Hty as <-; by vm_compute.
Qed.
Lemma showable_sids sid c : sid_map ExampleSec.slots !! sid = Some c → showable newp 3 c.
Proof.
  intros Hc. apply (sid_map_elem _ _ _ _ ExampleSec.sids_wf) in Hc.
  assert (Hcase : c = ExampleSec.user_con ∨ c = ExampleSec.file_con).
  { unfold ExampleSec.slots in Hc. rewrite concat_app in Hc. apply elem_of_app in Hc as [Hc|Hc].
    - cbn in Hc. rewrite !elem_of_cons in Hc. destruct Hc as [[= _ ->]|[[= _ ->]|Hc]]; [by left|by right|by apply elem_of_nil in Hc].
    - apply elem_of_concat in Hc as (i&l&Hi&Hc). apply lookup_replicate in Hi as [-> _]. by apply elem_of_nil in Hc. }
  by apply names_kept.
Qed.
End ExampleLoad.

#[local] Existing Instance target_arm.
(** witness of C9 *)
Lemma sepol_load_policy_correct_witness :
  let sv := ExampleLoad.active in let p := db_policy ExampleLoad.new in
  wp (sepol_load_policy sv ExampleSec.sids [] ExampleLoad.bytes) (λ '(rc, sv') h',
    rc = 0 ∧ classes_kept p p ∧ sv_policydb sv' = Some ExampleLoad.new ∧ sv_mine sv' = sv_mine sv ∧
      (∃ t', sidtab_wf (sv_sidtab sv') t' ∧ shutdown (sv_sidtab sv') = 0 ∧
         ∀ sid c', sid_map t' !! sid = Some c' ↔ ∃ c, sid_map ExampleSec.slots !! sid = Some c ∧
           let q := ExampleLoad.newp in context_converted p p (ExampleLoad.table_in (p_levels q)) (ExampleLoad.table_in (p_cats q))
             (ExampleLoad.table_in (p_users q)) (ExampleLoad.table_in (p_roles q)) (ExampleLoad.table_in (p_types q)) c c')
    ∨ rc = - EINVAL ∧ ¬ classes_kept p p ∧ sv' = sv) fresh_heap.
Proof.
  apply (sepol_load_policy_correct ExampleLoad.active ExampleLoad.new ExampleLoad.new ExamplePolicy.db0 ExampleSec.sids []
    ExampleLoad.bytes ExampleLoad.rest ExampleSec.slots (ExampleLoad.slots (te_avtab ExampleLoad.newp)) (ExampleLoad.slots (te_cond_avtab ExampleLoad.newp)) 3
    _ _ _ _ _ fresh_heap ExampleLoad.start ExampleLoad.after); rewrite ?ExampleLoad.newp_new.
  - reflexivity.
  - apply ExampleSec.sids_wf.
  - by vm_compute.
  - exact ExampleLoad.reads_back.
  - by vm_compute.
  - apply ExampleLoad.new_labels.
  - apply ExampleLoad.new_reads.
  - apply ExampleLoad.classes.
  - apply ExampleLoad.classes.
  - apply ExampleLoad.showable_sids.
Defined.

(** witness of C38: no bytes *)
Lemma sepol_load_policy_destroys_active_witness :
  sepol_load_policy ExampleLoad.active ExampleSec.sids [] [] fresh_heap = Some ((- EINVAL, Server None true ExampleSec.sids), ExampleLoad.start) ∧
  ∀ garbage' junk' data' db0' new' fp' h' h1' h2', mem_ok h2' → policydb_init h' = Some ((0, Some db0'), h1') →
    policydb_read junk' db0' (mem_input data') h1' = Some ((inr new', fp'), h2') →
    sepol_load_policy (Server None true ExampleSec.sids) garbage' junk' data' h' = None.
Proof.
  apply (sepol_load_policy_destroys_active ExampleLoad.active ExampleSec.sids [] [] POLICYDB_ERROR ExamplePolicy.db0 (mem_input [])
    fresh_heap ExampleLoad.start ExampleLoad.start); by vm_compute.
Defined.
