(* ===== verification/ExpandSymbols.v ===== *)
(** * Symbols of a module copied into a policy ([expand.c], third part)

    [expand_module] builds a kernel policy from a linked base module.  It copies
    the symbols that are enabled: types, attributes and aliases, classes with
    their permissions and constraints, roles, users, booleans, sensitivities and
    categories.  Types, roles, users and booleans get new values; four arrays
    translate the old ones. *)

From S2P Require Import Prelude Hashtab Symtab Tables Ebitmap Context Policydb Mls Constraint ExpandSets ExpandRules Readers SymbolsIO Scopes Index.

Definition COND_BOOL_FLAGS_TUNABLE : Z := 1.
Definition UINT16_MAX : Z := 2 ^ 16 - 1.
Definition SEPOL_ENOTSUP : Z := -95.

(** the maps and [out]; [base], which these functions read, is an argument *)
Record expand_state := ExpandState {
  typemap : list Z; boolmap : list Z; rolemap : list Z; usermap : list Z; es_out : database }.

(** ** Stores *)

Definition with_typemap (st : expand_state) (m : list Z) : expand_state := ExpandState m (boolmap st) (rolemap st) (usermap st) (es_out st).
Definition with_boolmap (st : expand_state) (m : list Z) : expand_state := ExpandState (typemap st) m (rolemap st) (usermap st) (es_out st).
Definition with_rolemap (st : expand_state) (m : list Z) : expand_state := ExpandState (typemap st) (boolmap st) m (usermap st) (es_out st).
Definition with_usermap (st : expand_state) (m : list Z) : expand_state := ExpandState (typemap st) (boolmap st) (rolemap st) m (es_out st).
Definition with_out (st : expand_state) (db : database) : expand_state :=
  ExpandState (typemap st) (boolmap st) (rolemap st) (usermap st) db.

(** [state->out->symtab[...]] becomes another table; the arrays still point to
    the data of the symbols they were made for *)
Definition with_all_symbols (p : policydb) (st : symtabs) : policydb :=
  Policydb (policy_type p) (policyvers p) (mls p) (st_classes st) (st_roles st) (st_types st) (st_users st) (st_bools st)
    (st_levels st) (st_cats st) (p_sens_val_to_name p) (p_cat_val_to_name p) (p_class_val_to_name p)
    (p_role_val_to_name p) (p_type_val_to_name p) (p_user_val_to_name p)
    (pointees (table (st_classes st)) (p_class_val_to_name p)) (pointees (table (st_roles st)) (p_role_val_to_name p))
    (pointees (table (st_users st)) (p_user_val_to_name p)) (pointees (table (st_types st)) (p_type_val_to_name p))
    (te_avtab p) (te_cond_avtab p) (bool_val_to_struct p) (cond_list p) (p_role_tr p) (p_filename_trans p)
    (p_role_allow p) (p_range_tr p) (type_attr_map p) (permissive_map p) (attr_type_map p) (ocontexts p) (p_genfs p).
Definition with_symbols (db : database) (st : symtabs) : database :=
  Database (with_all_symbols (db_policy db) st) (st_commons st) (p_scope db) (p_global db) (decl_val_to_struct db)
    (p_common_val_to_name db) (p_bool_val_to_name db) (policycaps db) (handle_unknown db) (target_platform db)
    (db_name db) (db_version db) (unsupported_format db).
Definition symbols_of (db : database) : symtabs := let p := db_policy db in
  Symtabs (p_commons db) (p_classes p) (p_roles p) (p_types p) (p_users p) (p_bools p) (p_levels p) (p_cats p).
Definition set_commons (db : database) (s : symtab common_datum) : database := let t := symbols_of db in
  with_symbols db (Symtabs s (st_classes t) (st_roles t) (st_types t) (st_users t) (st_bools t) (st_levels t) (st_cats t)).
Definition set_classes (db : database) (s : symtab class_datum) : database := let t := symbols_of db in
  with_symbols db (Symtabs (st_commons t) s (st_roles t) (st_types t) (st_users t) (st_bools t) (st_levels t) (st_cats t)).
Definition set_roles (db : database) (s : symtab role_datum) : database := let t := symbols_of db in
  with_symbols db (Symtabs (st_commons t) (st_classes t) s (st_types t) (st_users t) (st_bools t) (st_levels t) (st_cats t)).
Definition set_types (db : database) (s : symtab type_datum) : database := let t := symbols_of db in
  with_symbols db (Symtabs (st_commons t) (st_classes t) (st_roles t) s (st_users t) (st_bools t) (st_levels t) (st_cats t)).
Definition set_users (db : database) (s : symtab user_datum) : database := let t := symbols_of db in
  with_symbols db (Symtabs (st_commons t) (st_classes t) (st_roles t) (st_types t) s (st_bools t) (st_levels t) (st_cats t)).
Definition set_bools (db : database) (s : symtab cond_bool_datum) : database := let t := symbols_of db in
  with_symbols db (Symtabs (st_commons t) (st_classes t) (st_roles t) (st_types t) (st_users t) s (st_levels t) (st_cats t)).
Definition set_levels (db : database) (s : symtab level_datum) : database := let t := symbols_of db in
  with_symbols db (Symtabs (st_commons t) (st_classes t) (st_roles t) (st_types t) (st_users t) (st_bools t) s (st_cats t)).
Definition set_cats (db : database) (s : symtab cat_datum) : database := let t := symbols_of db in
  with_symbols db (Symtabs (st_commons t) (st_classes t) (st_roles t) (st_types t) (st_users t) (st_bools t) (st_levels t) s).
Definition with_permissive (p : policydb) (m : ebitmap) : policydb :=
  Policydb (policy_type p) (policyvers p) (mls p) (p_classes p) (p_roles p) (p_types p) (p_users p) (p_bools p)
    (p_levels p) (p_cats p) (p_sens_val_to_name p) (p_cat_val_to_name p) (p_class_val_to_name p)
    (p_role_val_to_name p) (p_type_val_to_name p) (p_user_val_to_name p) (class_val_to_struct p)
    (role_val_to_struct p) (user_val_to_struct p) (type_val_to_struct p) (te_avtab p) (te_cond_avtab p)
    (bool_val_to_struct p) (cond_list p) (p_role_tr p) (p_filename_trans p) (p_role_allow p) (p_range_tr p)
    (type_attr_map p) m (attr_type_map p) (ocontexts p) (p_genfs p).
Definition out_policy (st : expand_state) : policydb := db_policy (es_out st).
Definition out_types (st : expand_state) : symtab type_datum := p_types (out_policy st).
Definition out_roles (st : expand_state) : symtab role_datum := p_roles (out_policy st).
Definition out_users (st : expand_state) : symtab user_datum := p_users (out_policy st).
(** a store to the datum of a symbol *)
Definition update_symbol {D} (s : symtab D) (id : string) (f : D → D) : symtab D := Symtab (store_datum (table s) id f) (nprim s).
Definition type_with_types (d : type_datum) (types : ebitmap) : type_datum :=
  TypeDatum (type_value d) (type_primary d) (type_flavor d) types (type_flags d) (type_bounds d).
Definition type_with_bounds (d : type_datum) (b : Z) : type_datum :=
  TypeDatum (type_value d) (type_primary d) (type_flavor d) (type_types d) (type_flags d) b.
Definition role_with_bounds (d : role_datum) (b : Z) : role_datum :=
  RoleDatum (role_value d) (role_dominates d) (role_types d) (role_cache d) b (role_flavor d) (role_roles d).
Definition role_with_dominates (d : role_datum) (e : ebitmap) : role_datum :=
  RoleDatum (role_value d) e (role_types d) (role_cache d) (role_bounds d) (role_flavor d) (role_roles d).
Definition role_with_types (d : role_datum) (e : ebitmap) : role_datum :=
  RoleDatum (role_value d) (role_dominates d) (TypeSet e (ts_negset (role_types d)) (ts_flags (role_types d))) (role_cache d)
    (role_bounds d) (role_flavor d) (role_roles d).
Definition role_with_roles (d : role_datum) (e : ebitmap) : role_datum :=
  RoleDatum (role_value d) (role_dominates d) (role_types d) (role_cache d) (role_bounds d) (role_flavor d) e.
Definition user_with_bounds (d : user_datum) (b : Z) : user_datum :=
  UserDatum (user_value d) (user_roles d) (user_range d) (user_dfltlevel d) (user_cache d) (user_exp_range d) (user_exp_dfltlevel d) b.
Definition user_with_roles (d : user_datum) (e : ebitmap) : user_datum :=
  UserDatum (user_value d) (RoleSet e (rs_flags (user_roles d))) (user_range d) (user_dfltlevel d) (user_cache d) (user_exp_range d)
    (user_exp_dfltlevel d) (user_bounds d).
Definition user_with_levels (d : user_datum) (range : mls_range) (level : mls_level) : user_datum :=
  UserDatum (user_value d) (user_roles d) (user_range d) (user_dfltlevel d) (user_cache d) range level (user_bounds d).
Definition class_with_constraints (d : class_datum) (c v : list constraint_node) : class_datum :=
  ClassDatum (class_value d) (class_comkey d) (class_comdatum d) (class_permissions d) c v
    (default_user d) (default_role d) (default_type d) (default_range d).

Section operations.
Context `{Target}.

(** ** Steps *)

(** [if (...) return code;] for a call that allocates, one that returns a code,
    and one that makes a bitmap *)
Definition or_code {A} (code : Z) (m : CM (option A)) : CM (Z + A) := r ← m; mret (match r with None => inl code | Some x => inr x end).
Definition symbol_inserted {D} (s : symtab D) (id : string) (d : D) : CM (Z + symtab D) :=
  or_minus ('(rc, t) ← hashtab_insert (table s) id d; mret (rc, Symtab t (nprim s))).
(** [nprim++] *)
Definition one_more {D} (s : symtab D) : symtab D := Symtab (table s) (u32 (nprim s + 1)).
(** [map[value - 1] = new] and [map[value - 1]] *)
Definition put_map (map : list Z) (value new : Z) : CM (Z + list Z) :=
  let i := u32 (value - 1) in
  if Z.of_nat (length map) <=? i then undefined else mret (inr (<[Z.to_nat i := new]> map)).
Definition mapped (map : list Z) (value : Z) : CM Z := deref (at_index map value).
Definition scope_enabled (base : database) (sym : nat) (id : string) : CM bool :=
  scopes ← deref (p_scope base !! sym);
  is_id_enabled (table scopes) (decl_val_to_struct base) decl_enabled id.
(** [if (!is_id_enabled(id, state->base, sym)) return 0;] *)
Definition if_enabled (base : database) (sym : nat) (id : string) (st : expand_state) (m : CM (Z + expand_state)) : CM (Z + expand_state) :=
  enabled ← scope_enabled base sym id;
  if negb enabled then mret (inr st) else m.
(** [hashtab_map] with a callback whose state does not matter once it fails *)
Definition each_symbol {D S} (t : table_of D) (callback : string → D → S → CM (Z + S)) (st : S) : CM (Z + S) :=
  or_minus (hashtab_map t (λ id d st, r ← callback id d st; mret (match r with inl rc => (rc, st) | inr st => (0, st) end)) st).
Definition set_permissive (st : expand_state) (flags value : Z) : CM (Z + expand_state) :=
  if negb (truth (Z.land flags TYPE_FLAGS_PERMISSIVE)) then mret (inr st) else
  or_return (or_minus (ebitmap_set_bit (permissive_map (out_policy st)) value 1)) (λ m,
  mret (inr (with_out st (with_policy (es_out st) (with_permissive (out_policy st) m))))).

(** ** Types *)

Definition type_copy_callback (base : database) (id : string) (type : type_datum) (st : expand_state) : CM (Z + expand_state) :=
  if (type_flavor type =? TYPE_TYPE) && negb (truth (type_primary type)) || (type_flavor type =? TYPE_ALIAS) then mret (inr st) else
  if_enabled base SYM_TYPES id st (
  or_return (or_null (strdup id)) (λ new_id,
  or_return (or_code SEPOL_ENOMEM malloc) (λ _,
  let types := one_more (out_types st) in
  let value := nprim types in
  if UINT16_MAX <? value then mret (inl (-1)) else
  or_return (put_map (typemap st) (type_value type) value) (λ map,
  or_return (symbol_inserted types new_id (TypeDatum value 1 (type_flavor type) ebitmap_init (type_flags type) 0)) (λ types,
  set_permissive (with_typemap (with_out st (set_types (es_out st) types)) map) (type_flags type) value))))).

Definition attr_convert_callback (base : database) (id : string) (type : type_datum) (st : expand_state) : CM (Z + expand_state) :=
  if negb (type_flavor type =? TYPE_ATTRIB) then mret (inr st) else
  if_enabled base SYM_TYPES id st (
  new_type ← hashtab_search (table (out_types st)) id;
  match new_type with
  | None => mret (inl (-1))
  | Some new_type =>
      or_return (or_minus (map_ebitmap (type_types type) (typemap st))) (λ tmp_union,
      or_return (or_minus (ebitmap_union (type_types new_type) tmp_union)) (λ e,
      mret (inr (with_out st (set_types (es_out st) (update_symbol (out_types st) id (λ d, type_with_types d e)))))))
  end).

(** the aliases: a type that is not primary has the value of its type, an
    alias of the linker has it in [primary] *)
Definition alias_copy_callback (base : database) (id : string) (alias : type_datum) (st : expand_state) : CM (Z + expand_state) :=
  if (type_flavor alias =? TYPE_TYPE) && truth (type_primary alias) then mret (inr st) else
  if type_flavor alias =? TYPE_ATTRIB then mret (inr st) else
  let prival := if type_flavor alias =? TYPE_ALIAS then type_primary alias else type_value alias in
  name ← deref (at_val (p_type_val_to_name (db_policy base)) prival);
  if_enabled base SYM_TYPES name st (
  or_return (or_null (strdup id)) (λ new_id,
  or_return (or_code SEPOL_ENOMEM malloc) (λ _,
  if negb (type_flavor alias =? TYPE_TYPE) && negb (type_flavor alias =? TYPE_ALIAS) then undefined else
  value ← mapped (typemap st) prival;
  or_return (symbol_inserted (out_types st) new_id (TypeDatum value 0 TYPE_TYPE ebitmap_init (type_flags alias) 0)) (λ types,
  or_return (put_map (typemap st) (type_value alias) value) (λ map,
  set_permissive (with_typemap (with_out st (set_types (es_out st) types)) map) (type_flags alias) value))))).

(** the first steps of [expand_module]: the types must be first *)
Definition expand_types (base : database) (st : expand_state) : CM (Z + expand_state) :=
  let types := table (p_types (db_policy base)) in
  or_return (each_symbol types (type_copy_callback base) st) (λ st,
  each_symbol types (attr_convert_callback base) st).

(** ** Bounds *)

(** the bounds of a symbol of [out]: the same for types, roles and users *)
Definition copy_bounds {D} (out : symtab D) (bounds_of : D → Z) (with_bounds : D → Z → D) (map : list Z) (id : string) (bounds : Z)
    : CM (Z + symtab D) :=
  bounds_val ← mapped map bounds;
  dest ← hashtab_search (table out) id;
  match dest with
  | None => mret (inl (-1))
  | Some dest =>
      if truth (bounds_of dest) && negb (bounds_of dest =? bounds_val) then mret (inl (-1))
      else mret (inr (update_symbol out id (λ d, with_bounds d bounds_val)))
  end.
Definition type_bounds_copy_callback (base : database) (id : string) (type : type_datum) (st : expand_state) : CM (Z + expand_state) :=
  if negb (truth (type_bounds type)) then mret (inr st) else
  if_enabled base SYM_TYPES id st (
  or_return (copy_bounds (out_types st) type_bounds type_with_bounds (typemap st) id (type_bounds type)) (λ s,
  mret (inr (with_out st (set_types (es_out st) s))))).
Definition role_bounds_copy_callback (base : database) (id : string) (role : role_datum) (st : expand_state) : CM (Z + expand_state) :=
  if negb (truth (role_bounds role)) then mret (inr st) else
  if_enabled base SYM_ROLES id st (
  or_return (copy_bounds (out_roles st) role_bounds role_with_bounds (rolemap st) id (role_bounds role)) (λ s,
  mret (inr (with_out st (set_roles (es_out st) s))))).
Definition user_bounds_copy_callback (base : database) (id : string) (user : user_datum) (st : expand_state) : CM (Z + expand_state) :=
  if negb (truth (user_bounds user)) then mret (inr st) else
  if_enabled base SYM_USERS id st (
  or_return (copy_bounds (out_users st) user_bounds user_with_bounds (usermap st) id (user_bounds user)) (λ s,
  mret (inr (with_out st (set_users (es_out st) s))))).

(** ** Classes *)

Definition perm_copy_callback (id : string) (value : Z) (s : symtab Z) : CM (Z + symtab Z) :=
  or_return (or_null malloc) (λ _,
  or_return (or_null (strdup id)) (λ new_id,
  symbol_inserted (one_more s) new_id value)).
Definition common_copy_callback (id : string) (common : common_datum) (st : expand_state) : CM (Z + expand_state) :=
  or_return (or_null malloc) (λ _,
  or_return (or_minus (symtab_init (Symtab None 0) PERM_SYMTAB_SIZE)) (λ permissions,
  or_return (or_null (strdup id)) (λ new_id,
  or_return (symbol_inserted (one_more (p_commons (es_out st))) new_id (CommonDatum (common_value common) permissions)) (λ commons,
  or_return (each_symbol (table (common_permissions common)) perm_copy_callback permissions) (λ permissions,
  mret (inr (with_out st (set_commons (es_out st) (update_symbol commons id (λ d, CommonDatum (common_value d) permissions)))))))))).

(** a default of [old], that of [new] and the message of a conflict *)
Definition copy_default (old new : Z) : Z + Z :=
  if truth old then (if truth new && negb (old =? new) then inl SEPOL_ENOTSUP else inr old) else inr new.
Definition class_copy_default_new_object (olddatum newdatum : class_datum) : Z + class_datum :=
  match copy_default (default_user olddatum) (default_user newdatum), copy_default (default_role olddatum) (default_role newdatum),
        copy_default (default_type olddatum) (default_type newdatum), copy_default (default_range olddatum) (default_range newdatum) with
  | inr u, inr r, inr t, inr range =>
      inr (ClassDatum (class_value newdatum) (class_comkey newdatum) (class_comdatum newdatum) (class_permissions newdatum)
             (class_constraints newdatum) (class_validatetrans newdatum) u r t range)
  | _, _, _, _ => inl SEPOL_ENOTSUP
  end.
(** the common of a class, whose permissions it counts *)
Definition copy_common (class : class_datum) (commons : symtab common_datum) (permissions : symtab Z)
    : CM (Z + (option string * option common_datum * symtab Z)) :=
  match class_comkey class with
  | None => mret (inr (None, None, permissions))
  | Some key =>
      or_return (or_null (strdup key)) (λ comkey,
      or_return (or_null (hashtab_search (table commons) comkey)) (λ comdatum,
      mret (inr (Some comkey, Some comdatum, Symtab (table permissions) (u32 (nprim permissions + nprim (common_permissions comdatum)))))))
  end.
Definition class_copy_callback (base : database) (id : string) (class : class_datum) (st : expand_state) : CM (Z + expand_state) :=
  if_enabled base SYM_CLASSES id st (
  or_return (or_null malloc) (λ _,
  or_return (or_minus (symtab_init (Symtab None 0) PERM_SYMTAB_SIZE)) (λ permissions,
  or_return (mret (class_copy_default_new_object class (ClassDatum (class_value class) None None permissions [] [] 0 0 0 0))) (λ new_class,
  or_return (or_null (strdup id)) (λ new_id,
  or_return (symbol_inserted (one_more (p_classes (out_policy st))) new_id new_class) (λ classes,
  or_return (each_symbol (table (class_permissions class)) perm_copy_callback permissions) (λ permissions,
  or_return (copy_common class (p_commons (es_out st)) permissions) (λ '(comkey, comdatum, permissions),
  mret (inr (with_out st (set_classes (es_out st) (update_symbol classes id (λ d,
    ClassDatum (class_value d) comkey comdatum permissions [] [] (default_user d) (default_role d) (default_type d) (default_range d)))))))))))))).

(** the names of an expression: types are expanded, and their sets kept for
    those who analyse constraints; roles and users are mapped *)
Definition clone_names (expr : constraint_expr) (st : expand_state) : CM (Z + (ebitmap * type_set)) :=
  let none := TypeSet ebitmap_init ebitmap_init 0 in
  if negb (ce_expr_type expr =? CEXPR_NAMES) then mret (inr (ebitmap_init, none)) else
  if truth (Z.land (ce_attr expr) CEXPR_TYPE) then
    set ← deref (ce_type_names expr);
    or_return (or_minus (map_ebitmap (ts_types set) (typemap st))) (λ types,
    or_return (or_minus (expand_convert_type_set (out_policy st) (typemap st) set true)) (λ names,
    mret (inr (names, TypeSet types ebitmap_init 0))))
  else
    or_return (or_minus (if truth (Z.land (ce_attr expr) CEXPR_ROLE) then map_ebitmap (ce_names expr) (rolemap st)
                         else if truth (Z.land (ce_attr expr) CEXPR_USER) then map_ebitmap (ce_names expr) (usermap st)
                         else ebitmap_cpy (ce_names expr))) (λ names,
    mret (inr (names, none))).
Definition clone_expr (st : expand_state) (expr : constraint_expr) (l : list constraint_expr) : CM ((Z + list constraint_expr) + list constraint_expr) :=
  r ← or_return (or_null malloc) (λ _,
      or_return (or_null malloc) (λ _,
      or_return (clone_names expr st) (λ '(names, type_names),
      mret (inr (l ++ [CExpr (ce_expr_type expr) (ce_attr expr) (ce_op expr) names (Some type_names)])))));
  mret (match r with inl _ => inl (inl (-1)) | inr l => inr l end).
Definition clone_node (st : expand_state) (src : constraint_node) (l : list constraint_node) : CM ((Z + list constraint_node) + list constraint_node) :=
  r ← or_return (or_null malloc) (λ _,
      or_return (r ← for_list (cn_expr src) (clone_expr st) []; mret (match r with inl x => x | inr l => inr l end)) (λ expr,
      mret (inr (l ++ [CNode (cn_permissions src) expr]))));
  mret (match r with inl _ => inl (inl (-1)) | inr l => inr l end).
Definition constraint_node_clone (src : list constraint_node) (st : expand_state) : CM (Z + list constraint_node) :=
  r ← for_list src (clone_node st) [];
  mret (match r with inl x => x | inr l => inr l end).
(** every class must be in [out], enabled or not *)
Definition constraint_copy_callback (id : string) (class : class_datum) (st : expand_state) : CM (Z + expand_state) :=
  new_class ← hashtab_search (table (p_classes (out_policy st))) id;
  match new_class with
  | None => mret (inl (-1))
  | Some _ =>
      or_return (constraint_node_clone (class_constraints class) st) (λ constraints,
      or_return (constraint_node_clone (class_validatetrans class) st) (λ validatetrans,
      mret (inr (with_out st (set_classes (es_out st) (update_symbol (p_classes (out_policy st)) id
        (λ d, class_with_constraints d constraints validatetrans)))))))
  end.

(** ** Roles *)

Definition empty_role_of (flavor value : Z) : role_datum :=
  RoleDatum value ebitmap_init (TypeSet ebitmap_init ebitmap_init 0) ebitmap_init 0 flavor ebitmap_init.
(** the role of this name, made if there is none *)
Definition find_role (id : string) (role : role_datum) (st : expand_state) : CM (Z + expand_state) :=
  new_role ← hashtab_search (table (out_roles st)) id;
  match new_role with
  | Some _ => mret (inr st)
  | None =>
      or_return (or_null malloc) (λ _,
      or_return (or_null (strdup id)) (λ new_id,
      let roles := one_more (out_roles st) in
      or_return (put_map (rolemap st) (role_value role) (nprim roles)) (λ map,
      or_return (symbol_inserted roles new_id (empty_role_of (role_flavor role) (nprim roles))) (λ roles,
      mret (inr (with_rolemap (with_out st (set_roles (es_out st) roles)) map))))))
  end.
(** the datum that [new_role] points to *)
Definition the_role (st : expand_state) (id : string) : CM role_datum := d ← hashtab_search (table (out_roles st)) id; deref d.
Definition update_role (st : expand_state) (id : string) (f : role_datum → role_datum) : expand_state :=
  with_out st (set_roles (es_out st) (update_symbol (out_roles st) id f)).
Definition role_copy_callback (base : database) (id : string) (role : role_datum) (st : expand_state) : CM (Z + expand_state) :=
  if String.eqb id OBJECT_R then
    or_return (put_map (rolemap st) (role_value role) 1) (λ map, mret (inr (with_rolemap st map)))
  else
  if_enabled base SYM_ROLES id st (
  or_return (find_role id role st) (λ st,
  new_role ← the_role st id;
  (* not yet in the values of [out]: see [role_remap_dominates] *)
  or_return (or_minus (ebitmap_union (role_dominates new_role) (role_dominates role))) (λ dominates,
  or_return (or_minus (expand_convert_type_set (out_policy st) (typemap st) (role_types role) true)) (λ tmp_union_types,
  or_return (or_minus (ebitmap_union (ts_types (role_types new_role)) tmp_union_types)) (λ types,
  mret (inr (update_role st id (λ d, role_with_types (role_with_dominates d dominates) types)))))))).
Definition role_remap_dominates (id : string) (role : role_datum) (st : expand_state) : CM (Z * role_datum * expand_state) :=
  r ← or_return (or_minus (map_ebitmap (role_dominates role) (rolemap st))) (λ mapped_roles, or_minus (ebitmap_cpy mapped_roles));
  mret (match r with inl rc => (-1, role, st) | inr e => (0, role_with_dominates role e, st) end).
(** the types of the attribute [id] are given to one of its roles *)
Definition fix_regular (base : database) (id : string) (i : Z) (st : expand_state) : CM (Z + expand_state) :=
  base_reg_role_id ← deref (at_val (p_role_val_to_name (db_policy base)) (i + 1));
  regular_role ← the_role st base_reg_role_id;
  if negb (role_flavor regular_role =? ROLE_ROLE) then undefined else
  new_role ← the_role st id;
  or_return (or_minus (ebitmap_union (ts_types (role_types regular_role)) (ts_types (role_types new_role)))) (λ types,
  mret (inr (update_role st base_reg_role_id (λ d, role_with_types d types)))).
Definition role_fix_callback (base : database) (id : string) (role : role_datum) (st : expand_state) : CM (Z + expand_state) :=
  if String.eqb id OBJECT_R then mret (inr st) else
  if_enabled base SYM_ROLES id st (
  if negb (role_flavor role =? ROLE_ATTRIB) then mret (inr st) else
  new_role ← the_role st id;
  if negb (role_flavor new_role =? ROLE_ATTRIB) then undefined else
  or_return (or_minus (map_ebitmap (role_roles role) (rolemap st))) (λ mapped_roles,
  or_return (or_minus (ebitmap_union (role_roles new_role) mapped_roles)) (λ e,
  for_set_bits (role_roles role) (fix_regular base id) (update_role st id (λ d, role_with_roles d e))))).

(** ** Users *)

Definition the_user (st : expand_state) (id : string) : CM user_datum := d ← hashtab_search (table (out_users st)) id; deref d.
Definition update_user (st : expand_state) (id : string) (f : user_datum → user_datum) : expand_state :=
  with_out st (set_users (es_out st) (update_symbol (out_users st) id f)).
Definition empty_user_of (value : Z) : user_datum :=
  UserDatum value (RoleSet ebitmap_init 0) (SemRange no_semantic_level no_semantic_level) no_semantic_level ebitmap_init
    (MlsRange mls_level_init mls_level_init) mls_level_init 0.
(** the range and the level of a user, with the values of [out] *)
Definition user_levels (user : user_datum) (st : expand_state) : CM (Z + (mls_range * mls_level)) :=
  or_return (or_minus ('(rc, range, _) ← mls_semantic_range_expand (user_range user) (out_policy st); mret (rc, range))) (λ range,
  or_return (or_minus (mls_semantic_level_expand (user_dfltlevel user) (out_policy st))) (λ level,
  mret (inr (range, level)))).
(** a user that is new gets them, one that is there must have them *)
Definition find_user (id : string) (user : user_datum) (st : expand_state) : CM (Z + expand_state) :=
  new_user ← hashtab_search (table (out_users st)) id;
  match new_user with
  | Some new_user =>
      or_return (user_levels user st) (λ '(range, level),
      mret (if negb (mls_range_eq (user_exp_range new_user) range) || negb (mls_level_eq (user_exp_dfltlevel new_user) level)
            then inl (-1) else inr st))
  | None =>
      or_return (or_null malloc) (λ _,
      let users := one_more (out_users st) in
      or_return (put_map (usermap st) (user_value user) (nprim users)) (λ map,
      or_return (or_null (strdup id)) (λ new_id,
      or_return (symbol_inserted users new_id (empty_user_of (nprim users))) (λ users,
      let st := with_usermap (with_out st (set_users (es_out st) users)) map in
      or_return (user_levels user st) (λ '(range, level),
      if negb (mls_level_between level (low_level range) (high_level range)) then mret (inl (-1))
      else mret (inr (update_user st id (λ d, user_with_levels d range level))))))))
  end.
(** a star among the roles counts the roles of [out] *)
Definition user_copy_callback (base : database) (id : string) (user : user_datum) (st : expand_state) : CM (Z + expand_state) :=
  if_enabled base SYM_USERS id st (
  or_return (find_user id user st) (λ st,
  '(rc, tmp_union, n) ← role_set_expand (user_roles user) (nprim (out_roles st)) (Some (db_policy base, rolemap st));
  if truth rc then mret (inl (-1)) else
  let st := with_out st (set_roles (es_out st) (Symtab (table (out_roles st)) n)) in
  new_user ← the_user st id;
  or_return (or_minus (ebitmap_union (rs_roles (user_roles new_user)) tmp_union)) (λ e,
  mret (inr (update_user st id (λ d, user_with_roles d e)))))).

(** ** Booleans, sensitivities and categories *)

Definition bool_copy_callback (base : database) (id : string) (bool : cond_bool_datum) (st : expand_state) : CM (Z + expand_state) :=
  if_enabled base SYM_BOOLS id st (
  if truth (Z.land (bool_flags bool) COND_BOOL_FLAGS_TUNABLE) then mret (inr st) else
  or_return (or_null malloc) (λ _,
  or_return (or_null (strdup id)) (λ new_id,
  let bools := one_more (p_bools (out_policy st)) in
  or_return (symbol_inserted bools new_id (BoolDatum (nprim bools) (bool_state bool) (bool_flags bool))) (λ bools,
  or_return (put_map (boolmap st) (bool_value bool) (nprim bools)) (λ map,
  mret (inr (with_boolmap (with_out st (set_bools (es_out st) bools)) map))))))).
(** the values of sensitivities and categories stay *)
Definition sens_copy_callback (base : database) (id : string) (level : level_datum) (st : expand_state) : CM (Z + expand_state) :=
  if_enabled base SYM_LEVELS id st (
  or_return (or_null malloc) (λ _,
  or_return (or_null malloc) (λ _,
  or_return (or_null (strdup id)) (λ new_id,
  or_return (or_minus (mls_level_cpy (ld_level level))) (λ new_level,
  or_return (symbol_inserted (one_more (p_levels (out_policy st))) new_id (LevelDatum new_level (ld_isalias level) 0)) (λ levels,
  mret (inr (with_out st (set_levels (es_out st) levels))))))))).
Definition cats_copy_callback (base : database) (id : string) (cat : cat_datum) (st : expand_state) : CM (Z + expand_state) :=
  if_enabled base SYM_CATS id st (
  or_return (or_null malloc) (λ _,
  or_return (or_null (strdup id)) (λ new_id,
  or_return (symbol_inserted (one_more (p_cats (out_policy st))) new_id (CatDatum (cat_value cat) (cat_isalias cat))) (λ cats,
  mret (inr (with_out st (set_cats (es_out st) cats))))))).
End operations.

(** ** Theory: steps *)

Section steps.
Context `{Target}.
Implicit Types (h : heap).

(** a step that succeeds with memory exactly when [ok] holds, with [P]; any code
    of an error will do *)
Definition yields {A} (m : CM (Z + A)) (ok : Prop) (P : A → Prop) : Prop := ∀ h,
  wp m (λ r h', mem_step h h' (ok → ∃ x, r = inr x) ∧ match r with inr x => ok ∧ P x | inl rc => truth rc = true end) h.
Lemma yields_of {A} (m : CM (Z + A)) ok P : succeeds m ok P → yields m ok P.
Proof. intros Hm h. eapply wp_mono; [apply Hm|]. intros [rc|x] h' [M Hr]; [subst rc|]; by split. Qed.
Lemma yields_bind {A B} (m : CM (Z + A)) (f : A → CM (Z + B)) ok1 ok2 P Q :
  yields m ok1 P → (∀ x, P x → yields (f x) ok2 Q) → yields (or_return m f) (ok1 ∧ ok2) Q.
Proof.
  intros Hm Hf h. unfold or_return. apply wp_bind. eapply wp_mono; [apply Hm|]. intros [rc|x] h1 [M Hx].
  - apply wp_ret. split; [|done]. intros Ho. destruct (M Ho) as [Ho1 He]. split; [done|]. intros [Hok1 _]. by destruct (He Hok1).
  - destruct Hx as [Hok1 HP]. eapply wp_mono; [by apply Hf|]. intros r h2 [M2 Hr].
    split; [intros Ho; destruct (M Ho) as [Ho1 _], (M2 Ho1) as [Ho2 He]; split; [done|]; intros [_ ?]; by apply He|].
    destruct r; [done|]. by destruct Hr.
Qed.
Lemma yields_mono {A} (m : CM (Z + A)) (ok ok' : Prop) (P Q : A → Prop) : yields m ok P → (ok ↔ ok') → (∀ x, P x → Q x) → yields m ok' Q.
Proof.
  intros Hm Hok HQ h. eapply wp_mono; [apply Hm|]. intros r h' [M Hr]. split; [intros Ho; destruct (M Ho) as [? He]; split; [done|]; intros ?; by apply He, Hok|].
  destruct r; [done|]. destruct Hr. split; [by apply Hok|by apply HQ].
Qed.
Lemma yields_ret {A} (x : A) (P : A → Prop) : P x → yields (mret (inr x)) True P.
Proof. intros HP. by apply yields_of, succeeds_ret. Qed.
Lemma yields_no {A} rc (ok : Prop) (P : A → Prop) : truth rc = true → ¬ ok → yields (mret (inl rc)) ok P.
Proof. intros Hrc Hok h. apply wp_ret. split; [|done]. intros Ho. by split. Qed.
(** a step that always succeeds goes before *)
Lemma yields_then {A B} (m : CM (Z + A)) (f : A → CM (Z + B)) ok P Q :
  yields m True P → (∀ x, P x → yields (f x) ok Q) → yields (or_return m f) ok Q.
Proof. intros Hm Hf. eapply yields_mono; [by eapply yields_bind|tauto|done]. Qed.
Lemma yields_if {A} (b : bool) (m1 m2 : CM (Z + A)) ok P :
  (b = true → yields m1 ok P) → (b = false → yields m2 ok P) → yields (if b then m1 else m2) ok P.
Proof. destruct b; auto. Qed.
Lemma yields_malloc {A} code (f : Z → CM (Z + A)) ok P :
  truth code = true → (∀ a, yields (f a) ok P) → yields (or_return (or_code code malloc) f) ok P.
Proof.
  intros Hc Hf. apply yields_then with (P := λ _, True); [|auto]. intros h. apply wp_bind, wp_malloc.
  - intros a h1 M. apply wp_ret. split; [mem|done].
  - intros h1 M. apply wp_ret. split; [mem|done].
Qed.
Lemma yields_null {A} (f : Z → CM (Z + A)) ok P : (∀ a, yields (f a) ok P) → yields (or_return (or_null malloc) f) ok P.
Proof. by apply (yields_malloc (-1)). Qed.
Lemma yields_strdup {A} s (f : string → CM (Z + A)) ok P : yields (f s) ok P → yields (or_return (or_null (strdup s)) f) ok P.
Proof.
  intros Hf. apply yields_then with (P := λ s', s' = s); [|by intros ? ->]. intros h. apply or_null_wp. unfold strdup. wp_malloc a h1 M.
  - apply wp_ret. split; [mem|done].
  - apply wp_ret. split; [mem|done].
Qed.
(** a step whose result is known *)
Lemma yields_run {A B} (m : CM A) (f : A → CM (Z + B)) x ok P : (∀ h, m h = Some (x, h)) → yields (f x) ok P → yields (m ≫= f) ok P.
Proof. intros Hm Hf h. apply wp_bind. unfold wp at 1. rewrite Hm. apply Hf. Qed.
Lemma yields_pure {A B} (m : CM A) (f : A → CM (Z + B)) (R : A → Prop) ok P :
  (∀ h, wp m (λ x h', h' = h ∧ R x) h) → (∀ x, R x → yields (f x) ok P) → yields (m ≫= f) ok P.
Proof. intros Hm Hf h. apply wp_bind. eapply wp_mono; [apply Hm|]. intros x h' [-> Hx]. by apply Hf. Qed.
Lemma yields_deref {A B} (o : option A) x (f : A → CM (Z + B)) ok P : o = Some x → yields (f x) ok P → yields (deref o ≫= f) ok P.
Proof. intros ->. by apply yields_run. Qed.

(** the walk over a table: [Inv] holds of the symbols visited, [ok] tells which
    are accepted *)
Lemma each_symbol_yields {D S} (t : table_of D) (callback : string → D → S → CM (Z + S)) (Inv : list (string * D) → S → Prop)
    (ok : list (string * D) → string → D → Prop) st :
  Inv [] st →
  (∀ l1 k d l2 st, table_entries t = l1 ++ (k, d) :: l2 → Inv l1 st → yields (callback k d st) (ok l1 k d) (Inv (l1 ++ [(k, d)]))) →
  yields (each_symbol t callback st) (∀ l1 k d l2, table_entries t = l1 ++ (k, d) :: l2 → ok l1 k d) (Inv (table_entries t)).
Proof.
  intros H0 Hstep h. unfold each_symbol. apply or_minus_wp.
  apply (hashtab_map_wp _ _ (λ l st h', mem_step h h' True ∧ Inv l st ∧ ∀ l1 k d l2, l = l1 ++ (k, d) :: l2 → ok l1 k d)).
  - split_and!; [by apply mem_step_refl|done|]. by intros [|? ?] ? ? ?.
  - intros k d l1 l2 st1 h1 Hl (M&HI&Hok). apply wp_bind. eapply wp_mono; [by eapply Hstep|]. intros [rc|st2] h2 [M2 Hr]; apply wp_ret.
    + rewrite Hr. split; [|done]. intros Ho. destruct (M Ho) as [Ho1 _], (M2 Ho1) as [Ho2 He]. split; [done|]. intros Hall.
      by destruct (He (Hall _ _ _ _ Hl)).
    + destruct Hr as [Hk HI2]. cbn [truth Z.eqb negb]. split_and!; [mem|done|]. intros l3 k3 d3 l4 E.
      destruct l4 as [|x l4] using rev_ind.
      * apply app_inj_tail in E as [-> [= -> ->]]. done.
      * rewrite app_comm_cons, app_assoc in E. apply app_inj_tail in E as [E _]. by eapply Hok.
  - intros st1 h1 (M&HI&Hok). cbn. split; [|done]. intros Ho. destruct (M Ho). split; [done|]. intros _. by eexists.
Qed.
(** when every symbol is accepted *)
Lemma each_symbol_all {D S} (t : table_of D) (callback : string → D → S → CM (Z + S)) (Inv : list (string * D) → S → Prop) st :
  Inv [] st →
  (∀ l1 k d l2 st, table_entries t = l1 ++ (k, d) :: l2 → Inv l1 st → yields (callback k d st) True (Inv (l1 ++ [(k, d)]))) →
  yields (each_symbol t callback st) True (Inv (table_entries t)).
Proof. intros H0 Hstep. eapply yields_mono; [by apply (each_symbol_yields t callback Inv (λ _ _ _, True))|split; auto|done]. Qed.

(** a new symbol *)
Lemma yields_insert {D B} sz (s : symtab D) m id d (f : symtab D → CM (Z + B)) ok P :
  holds sz (table s) m → m !! id = None →
  (∀ t, holds sz t (<[id := d]> m) → yields (f (Symtab t (nprim s))) ok P) →
  yields (or_return (symbol_inserted s id d) f) ok P.
Proof.
  intros Ht Hid Hf. apply yields_then with (P := λ s', ∃ t, s' = Symtab t (nprim s) ∧ holds sz t (<[id := d]> m)); [|by intros ? (t&->&?); apply Hf].
  intros h. apply or_minus_wp, wp_bind. pose proof Ht as (t0&E&Hwf&_). rewrite E.
  destruct (wp_run _ _ _ (hashtab_insert_wp t0 id d h (proj1 Hwf))) as ([rc t']&h'&Hrun&_).
  rewrite E in Ht. destruct (insert_holds sz (Some t0) m id d h rc t' h' Ht Hid Hrun) as [M Hm].
  unfold wp at 1. rewrite Hrun. apply wp_ret. destruct (truth rc) eqn:Erc.
  - apply truth_true in Erc. split; [|done]. intros Ho. by destruct (M Ho).
  - apply truth_false in Erc. subst rc. split; [intros Ho; split; [by apply M|]; intros _; by eexists|]. split; [done|]. eexists. split; [done|by apply Hm].
Qed.
(** a symbol is found *)
Lemma yields_search {D B} sz (t : table_of D) m id (f : option D → CM (Z + B)) ok P :
  holds sz t m → yields (f (m !! id)) ok P → yields (hashtab_search t id ≫= f) ok P.
Proof.
  intros (t0&->&Hwf&_&<-) Hf h. apply wp_bind. eapply wp_mono; [apply hashtab_search_wp, Hwf|]. intros r h' [-> ->]. apply Hf.
Qed.
Lemma yields_put_map {B} map v new (f : list Z → CM (Z + B)) ok P :
  1 ≤ v ≤ length map → v < 2 ^ 32 → yields (f (<[Z.to_nat (v - 1) := new]> map)) ok P → yields (or_return (put_map map v new) f) ok P.
Proof.
  intros Hv Hw Hf. apply yields_then with (P := λ m, m = <[Z.to_nat (v - 1) := new]> map); [|by intros ? ->].
  unfold put_map, u32. rewrite wrap_id by lia. rewrite (proj2 (Z.leb_gt _ _)) by lia. by apply yields_ret.
Qed.
(** a bitmap that is made *)
Lemma yields_makes {B} (m : CM (Z * ebitmap)) (X : gset Z) (f : ebitmap → CM (Z + B)) ok P :
  (∀ h, wp m (makes h X) h) → (∀ e, ebitmap_wf e → ebitmap_set e = X → yields (f e) ok P) → yields (or_return (or_minus m) f) ok P.
Proof.
  intros Hm Hf. apply yields_then with (P := λ e, ebitmap_wf e ∧ ebitmap_set e = X); [|by intros e []; apply Hf].
  intros h. apply or_minus_wp. eapply wp_mono; [apply Hm|]. intros [rc e] h' [M Hr]. destruct (truth rc) eqn:Erc.
  - apply truth_true in Erc. split; [|done]. intros Ho. destruct (M Ho). done.
  - apply truth_false in Erc. subst rc. destruct Hr as [(_&?&?)|]; [|lia]. split; [intros Ho; split; [by apply M|]; intros _; by eexists|done].
Qed.
Lemma union_makes e1 e2 h : ebitmap_wf e1 → ebitmap_wf e2 → wp (ebitmap_union e1 e2) (makes h (ebitmap_set e1 ∪ ebitmap_set e2)) h.
Proof.
  intros H1 H2. apply wp_bind. eapply wp_mono; [by apply ebitmap_or_wp|].
  intros [rc [n hb]] h' (Hm&Hwf&[[-> Hs]|[-> He]]); apply wp_ret; (split; [mem|]); [by left|by right].
Qed.
Lemma cpy_makes e h : ebitmap_wf e → wp (ebitmap_cpy e) (makes h (ebitmap_set e)) h.
Proof.
  intros He. eapply wp_mono; [by apply ebitmap_cpy_wp|]. intros [rc e'] h' [M [[-> ->]|[-> ->]]]; (split; [mem|]); [by left|by right].
Qed.
End steps.

(** ** Theory: what is enabled, what is numbered *)

(** the answer of [is_id_enabled] *)
Definition enabled_symbol (base : database) (sym : nat) (id : string) : bool :=
  match p_scope base !! sym ≫= λ s, table_map (table s) !! id with
  | Some d => (scope d =? SCOPE_DECL) &&
      existsb (λ x, match at_val (decl_val_to_struct base) x with Some decl => truth (decl_enabled decl) | None => false end) (decl_ids d)
  | None => false
  end.
(** the scopes of a linked base *)
Definition scopes_wf `{Target} (base : database) (sym : nat) : Prop :=
  ∃ s ts, p_scope base !! sym = Some s ∧ table s = Some ts ∧ hashtab_ok ts ∧
    ∀ id d, hashtab_map_of ts !! id = Some d → ids_ok d ∧ Forall (λ x, 1 ≤ x ≤ length (decl_val_to_struct base)) (decl_ids d).

(** the symbols [c] in a table, the [i]th with the value [n + i + 1] *)
Definition numbered_map {D E} (n : Z) (f : Z → D → E) (c : list (string * D)) : gmap string E :=
  list_to_map (imap (λ i kd, (kd.1, f (n + Z.of_nat i + 1) kd.2)) c).
(** the map from the old values to these *)
Record renumbered {D} (n : Z) (value : D → Z) (c : list (string * D)) (map0 map : list Z) : Prop := {
  rn_length : length map = length map0;
  rn_new (i : nat) kd : c !! i = Some kd → at_index map (value kd.2) = Some (n + Z.of_nat i + 1);
  rn_old v : (∀ kd, kd ∈ c → value kd.2 ≠ v) → at_index map v = at_index map0 v
}.

Section numbering.
Context `{Target}.
Implicit Types (h : heap).

Lemma scope_enabled_wp base sym id h : scopes_wf base sym →
  wp (scope_enabled base sym id) (λ b h', h' = h ∧ b = enabled_symbol base sym id) h.
Proof.
  intros (s&ts&Hs&Ht&Hok&Hids). unfold scope_enabled. eapply wp_bind, wp_deref; [exact Hs|]. rewrite Ht.
  eapply wp_mono; [apply is_id_enabled_wp; [done|apply Hids]|]. intros b h' [-> Hb]. split; [done|].
  apply eq_true_iff_eq. rewrite Hb. unfold enabled_symbol. rewrite Hs. cbn. rewrite Ht. cbn.
  destruct (hashtab_map_of ts !! id) as [d|]; [|naive_solver]. rewrite andb_true_iff, Z.eqb_eq, existsb_exists. split.
  - intros (d'&x&decl&[= <-]&Hsc&Hx&Hd&He). split; [done|]. exists x. split; [by apply list_elem_of_In|]. rewrite Hd. by apply truth_true.
  - intros (Hsc&x&Hx&Hd). destruct (at_val _ x) as [decl|] eqn:E; [|done]. exists d, x, decl. split_and!; [done|done|by apply list_elem_of_In|done|].
    by apply truth_true.
Qed.
Lemma yields_if_enabled base sym id st (m : CM (Z + expand_state)) ok P :
  scopes_wf base sym → (enabled_symbol base sym id = true → yields m ok P) →
  (enabled_symbol base sym id = false → yields (mret (inr st)) ok P) → yields (if_enabled base sym id st m) ok P.
Proof.
  intros Hs H1 H2. unfold if_enabled. apply yields_pure with (R := λ b, b = enabled_symbol base sym id); [by intros h; apply scope_enabled_wp|].
  intros b ->. destruct (enabled_symbol base sym id); cbn [negb]; auto.
Qed.

Lemma numbered_keys {D E} n (f : Z → D → E) (c : list (string * D)) : (imap (λ i kd, (kd.1, f (n + Z.of_nat i + 1) kd.2)) c).*1 = c.*1.
Proof. apply list_eq. intros i. rewrite !list_lookup_fmap, list_lookup_imap. by destruct (c !! i). Qed.
Lemma numbered_snoc {D E} n (f : Z → D → E) (c : list (string * D)) kd : kd.1 ∉ c.*1 →
  numbered_map n f (c ++ [kd]) = <[kd.1 := f (n + length c + 1) kd.2]> (numbered_map n f c).
Proof.
  intros Hk. unfold numbered_map. rewrite imap_app. cbn [imap fst snd]. rewrite Nat.add_0_r. apply list_to_map_snoc. by rewrite numbered_keys.
Qed.
Lemma numbered_None {D E} n (f : Z → D → E) (c : list (string * D)) id : id ∉ c.*1 → numbered_map n f c !! id = None.
Proof. intros Hk. apply not_elem_of_list_to_map_1. by rewrite numbered_keys. Qed.
Lemma numbered_lookup {D E} n (f : Z → D → E) (c : list (string * D)) id e : NoDup c.*1 →
  numbered_map n f c !! id = Some e ↔ ∃ (i : nat) d, c !! i = Some (id, d) ∧ e = f (n + i + 1) d.
Proof.
  intros Hnd. unfold numbered_map. rewrite <- elem_of_list_to_map by (by rewrite numbered_keys). rewrite elem_of_lookup_imap. split.
  - intros (i&[k d]&[= -> ->]&Hi). by exists i, d.
  - intros (i&d&Hi&->). by exists i, (id, d).
Qed.

Lemma renumbered_nil {D} n (value : D → Z) map : renumbered n value [] map map.
Proof. by split. Qed.
Lemma at_index_insert (map : list Z) v w x : 1 ≤ v ≤ length map →
  at_index (<[Z.to_nat (v - 1) := x]> map) w = if decide (w = v) then Some x else at_index map w.
Proof.
  intros Hv. unfold at_index. destruct (Z.ltb_spec w 1); [by rewrite decide_False by lia|]. case_decide as E.
  - subst w. apply list_lookup_insert_eq. lia.
  - apply list_lookup_insert_ne. lia.
Qed.
Lemma renumbered_snoc {D} n (value : D → Z) (c : list (string * D)) map0 map kd :
  renumbered n value c map0 map → 1 ≤ value kd.2 ≤ length map0 → (∀ kd', kd' ∈ c → value kd'.2 ≠ value kd.2) →
  renumbered n value (c ++ [kd]) map0 (<[Z.to_nat (value kd.2 - 1) := n + length c + 1]> map).
Proof.
  intros [Hl Hnew Hold] Hv Hd. split.
  - by rewrite length_insert.
  - intros i kd' Hi. rewrite at_index_insert by lia. apply lookup_app_Some in Hi as [Hi|[Hlen Hi]].
    + rewrite decide_False by (by apply Hd, (list_elem_of_lookup_2 _ i)). by apply Hnew.
    + apply list_lookup_singleton_Some in Hi as [Hi <-]. rewrite decide_True by done. f_equal. lia.
  - intros v Hv'. rewrite at_index_insert by lia. rewrite decide_False; [apply Hold; intros kd' Hin; apply Hv'; set_solver|].
    intros ->. apply (Hv' kd); [set_solver|done].
Qed.
End numbering.

(** ** Theory: types *)

(** [db] with other types and permissive types *)
Definition types_out (db : database) (s : symtab type_datum) (e : ebitmap) : database :=
  with_policy (set_types db s) (with_permissive (db_policy (set_types db s)) e).
(** the arrays of [db] point to its data *)
Definition linked (db : database) : Prop := with_symbols db (symbols_of db) = db.
Lemma types_out_same db : linked db → types_out db (p_types (db_policy db)) (permissive_map (db_policy db)) = db.
Proof. intros Hl. transitivity (with_symbols db (symbols_of db)); [|exact Hl]. by destruct db as [[] ]. Qed.

(** the types and attributes that are copied (not the aliases, which are types
    that are not primary or have a flavor of their own), and what becomes of
    them *)
Definition copies_type (base : database) (kd : string * type_datum) : bool :=
  (if type_flavor kd.2 =? TYPE_TYPE then truth (type_primary kd.2) else negb (type_flavor kd.2 =? TYPE_ALIAS)) &&
  enabled_symbol base SYM_TYPES kd.1.
Definition base_types (base : database) : list (string * type_datum) := table_entries (table (p_types (db_policy base))).
Definition copied_types (base : database) : list (string * type_datum) := filter (λ kd, copies_type base kd = true) (base_types base).
Definition new_type (value : Z) (d : type_datum) : type_datum := TypeDatum value 1 (type_flavor d) ebitmap_init (type_flags d) 0.
Definition permissive (d : type_datum) : bool := truth (Z.land (type_flags d) TYPE_FLAGS_PERMISSIVE).
Record types_copied `{Target} (sz : Z) (st0 : expand_state) (c : list (string * type_datum)) (st : expand_state) : Prop := {
  tc_state : st = ExpandState (typemap st) (boolmap st0) (rolemap st0) (usermap st0)
    (types_out (es_out st0) (out_types st) (permissive_map (out_policy st)));
  tc_table : holds sz (table (out_types st)) (numbered_map 0 new_type c);
  tc_nprim : nprim (out_types st) = length c ∧ length c ≤ UINT16_MAX;
  tc_map : renumbered 0 type_value c (typemap st0) (typemap st);
  tc_permissive : ebitmap_wf (permissive_map (out_policy st)) ∧
    ∀ v, v ∈ ebitmap_set (permissive_map (out_policy st)) ↔ ∃ (i : nat) kd, c !! i = Some kd ∧ permissive kd.2 = true ∧ v = Z.of_nat i + 1
}.
(** a policy without types, and a map with a place for every value *)
Record types_fresh `{Target} (sz : Z) (base : database) (st0 : expand_state) : Prop := {
  tf_linked : linked (es_out st0);
  tf_table : holds sz (table (out_types st0)) ∅ ∧ nprim (out_types st0) = 0;
  tf_permissive : permissive_map (out_policy st0) = ebitmap_init;
  tf_base : NoDup (base_types base).*1 ∧ scopes_wf base SYM_TYPES;
  tf_values kd : kd ∈ base_types base → 1 ≤ type_value kd.2 ≤ length (typemap st0) ∧ type_value kd.2 < 2 ^ 32;
  tf_distinct kd1 kd2 : kd1 ∈ copied_types base → kd2 ∈ copied_types base → type_value kd1.2 = type_value kd2.2 → kd1 = kd2
}.

Section types.
Context `{Target} (sz : Z) (base : database) (st0 : expand_state) (Hfresh : types_fresh sz base st0).

Lemma filter_bound {A} (P : A → Prop) `{∀ x, Decision (P x)} (l : list A) (n : Z) : 0 ≤ n →
  (∀ l1 x l2, l = l1 ++ x :: l2 → P x → length (filter P l1) + 1 ≤ n) ↔ length (filter P l) ≤ n.
Proof.
  intros Hn. split.
  - induction l as [|x l IH] using rev_ind; [done|]. intros Hall. rewrite filter_app, length_app. destruct (decide (P x)) as [HP|HP].
    + rewrite filter_cons_True by done. pose proof (Hall l x [] eq_refl HP). cbn. lia.
    + rewrite filter_cons_False by done. cbn. rewrite Nat.add_0_r. apply IH. intros l1 y l2 -> HPy. apply (Hall l1 y (l2 ++ [x])); [|done].
      by rewrite <- app_assoc.
  - intros Hl l1 x l2 -> HP. rewrite filter_app, filter_cons_True, length_app in Hl by done. cbn in Hl. lia.
Qed.

Lemma set_permissive_yields st flags v :
  ebitmap_wf (permissive_map (out_policy st)) → 0 ≤ v < BITS →
  yields (set_permissive st flags v) True (λ st', ∃ e, ebitmap_wf e ∧
    st' = with_out st (with_policy (es_out st) (with_permissive (out_policy st) e)) ∧
    ebitmap_set e = (if truth (Z.land flags TYPE_FLAGS_PERMISSIVE) then {[ v ]} else ∅) ∪ ebitmap_set (permissive_map (out_policy st))).
Proof.
  intros Hw Hv. unfold set_permissive. destruct (truth _); cbn [negb].
  - eapply (yields_makes _ ({[ v ]} ∪ ebitmap_set (permissive_map (out_policy st)))); [intros h|].
    + eapply wp_mono; [by apply (ebitmap_set_bit_wp _ v 1)|]. intros [rc e] h1 (M1&We&[[-> He]|[-> ->]]); (split; [done|]); [left|by right].
      split_and!; [done|done|]. apply set_eq. intros i. rewrite elem_of_union, elem_of_singleton, !elem_of_ebitmap_set, He by done.
      destruct (Z.eqb_spec i v) as [->|]; [split; [by left|done]|]. split; [by right|by intros [?|?]].
    + intros e We He. apply yields_ret. by exists e.
  - apply yields_ret. exists (permissive_map (out_policy st)). split_and!; [done| |set_solver].
    destruct st as [? ? ? ? [[] ]]. reflexivity.
Qed.
Lemma type_copy_step l1 id d l2 st :
  base_types base = l1 ++ (id, d) :: l2 → types_copied sz st0 (filter (λ kd, copies_type base kd = true) l1) st →
  yields (type_copy_callback base id d st)
    (copies_type base (id, d) = true → length (filter (λ kd, copies_type base kd = true) l1) + 1 ≤ UINT16_MAX)
    (types_copied sz st0 (filter (λ kd, copies_type base kd = true) (l1 ++ [(id, d)]))).
Proof.
  intros Hl Hc. rewrite filter_app. set (c := filter _ l1) in *. unfold type_copy_callback.
  assert (Hskip : copies_type base (id, d) = false → yields (mret (inr st))
    (copies_type base (id, d) = true → length c + 1 ≤ UINT16_MAX) (types_copied sz st0 (c ++ filter (λ kd, copies_type base kd = true) [(id, d)]))).
  { intros E. eapply yields_mono; [by apply (yields_ret _ (λ s, s = st))|by rewrite E|]. intros ? ->.
    rewrite filter_cons_False by (by rewrite E). by rewrite app_nil_r. }
  assert (Hcopies : copies_type base (id, d) =
    negb ((type_flavor d =? TYPE_TYPE) && negb (truth (type_primary d)) || (type_flavor d =? TYPE_ALIAS)) && enabled_symbol base SYM_TYPES id).
  { unfold copies_type. cbn [fst snd]. destruct (Z.eqb_spec (type_flavor d) TYPE_TYPE) as [->|]; [|done].
    by destruct (truth (type_primary d)). }
  rewrite Hcopies in Hskip at 1.
  destruct ((type_flavor d =? TYPE_TYPE) && negb (truth (type_primary d)) || (type_flavor d =? TYPE_ALIAS)) eqn:Ea; [by apply Hskip|].
  apply yields_if_enabled; [apply Hfresh| |by intros E; apply Hskip; rewrite E].
  intros Een. clear Hskip. assert (E : copies_type base (id, d) = true) by (by rewrite Hcopies, Een).
  rewrite filter_cons_True by done. apply yields_strdup, yields_malloc; [done|]. intros _.
  destruct Hc as [Hst Ht [Hn Hb] Hm [Hpw Hps]]. cbv zeta. unfold one_more. cbn [nprim]. rewrite Hn. unfold UINT16_MAX in *.
  unfold u32. rewrite wrap_id by lia. assert (Hin : (id, d) ∈ base_types base) by (rewrite Hl; set_solver).
  assert (Hkeys : id ∉ c.*1).
  { intros ([k d']&->&Hk)%list_elem_of_fmap. apply list_elem_of_filter in Hk as [_ Hk]. pose proof (proj1 (tf_base _ _ _ Hfresh)) as Hnd.
    rewrite Hl, fmap_app, fmap_cons in Hnd. apply NoDup_app in Hnd as (_&Hd&_). apply (Hd k); [by apply (list_elem_of_fmap_2 fst _ (k, d'))|by left]. }
  assert (Hcin : ∀ kd, kd ∈ c ++ [(id, d)] → kd ∈ copied_types base).
  { intros kd. unfold copied_types. rewrite Hl, filter_app, filter_cons_True by done. set_solver. }
  destruct (Z.ltb_spec (2 ^ 16 - 1) (length c + 1)) as [Hbig|Hsmall]; [by apply yields_no; [|intros Hok; specialize (Hok E); lia]|].
  destruct (tf_values _ _ _ Hfresh (id, d) Hin) as [Hv Hw]. cbn [snd] in Hv, Hw. pose proof (rn_length _ _ _ _ _ Hm) as Hlen.
  apply yields_put_map; [lia|done|]. cbn [table].
  eapply yields_insert; [exact Ht|by apply numbered_None|]. intros t Ht'. cbn [nprim].
  eapply yields_mono; [apply set_permissive_yields|split; [by intros _ _|done]|].
  - exact Hpw.
  - unfold BITS. lia.
  - intros st' (e&We&->&He). split.
    + rewrite Hst. reflexivity.
    + cbn. by rewrite numbered_snoc.
    + cbn -[UINT16_MAX]. rewrite length_app. cbn -[UINT16_MAX]. unfold UINT16_MAX. split; lia.
    + cbn. rewrite <- (Z.add_0_l (length c)). apply (renumbered_snoc _ type_value c _ _ (id, d)); [done|cbn; lia|].
      intros kd' Hkd' Ev. cbn in Ev. assert (kd' = (id, d)) as ->.
      { apply (tf_distinct _ _ _ Hfresh); [apply Hcin; set_solver|apply Hcin; set_solver|done]. }
      apply Hkeys. by apply (list_elem_of_fmap_2 fst _ (id, d)).
    + cbn. split; [done|]. intros v. rewrite He, elem_of_union.
      change (permissive_map (out_policy (with_typemap _ _))) with (permissive_map (out_policy st)). rewrite Hps.
      fold (permissive d). split.
      * intros [Hp|(i&kd&Hi&Hp&->)].
        -- exists (length c), (id, d). rewrite lookup_app_r, Nat.sub_diag by lia. split; [done|].
           destruct (permissive d) eqn:Ep; [apply elem_of_singleton in Hp as ->; by split|by apply elem_of_empty in Hp].
        -- exists i, kd. split; [by apply lookup_app_l_Some|done].
      * intros (i&kd&Hi&Hp&->). apply lookup_app_Some in Hi as [Hi|[Hge Hi]]; [right; by exists i, kd|left].
        apply list_lookup_singleton_Some in Hi as [Hi <-]. cbn in Hp. rewrite Hp. apply elem_of_singleton. lia.
Qed.

(** [type_copy_callback] over the types of the base: those enabled are in the
    new table with the values from 1 on, and the map translates them *)
Lemma types_copy_yields :
  yields (each_symbol (table (p_types (db_policy base))) (type_copy_callback base) st0) (length (copied_types base) ≤ UINT16_MAX)
    (types_copied sz st0 (copied_types base)).
Proof.
  eapply yields_mono; [apply (each_symbol_yields _ _ (λ l, types_copied sz st0 (filter (λ kd, copies_type base kd = true) l))
    (λ l1 id d, copies_type base (id, d) = true → length (filter (λ kd, copies_type base kd = true) l1) + 1 ≤ UINT16_MAX))| |done].
  - destruct Hfresh as [Hl [Ht Hn] Hp _ _ _]. split.
    + unfold out_types, out_policy. rewrite types_out_same by done. by destruct st0.
    + exact Ht.
    + rewrite Hn. split; [done|]. unfold UINT16_MAX. cbn. lia.
    + apply renumbered_nil.
    + rewrite Hp. split; [apply ebitmap_init_wf|]. intros v. rewrite ebitmap_init_set, elem_of_empty. split; [done|].
      by intros (i&kd&Hi&_).
  - intros l1 id d l2 st Hl Hc. by eapply type_copy_step.
  - fold (base_types base). unfold copied_types. rewrite <- filter_bound by done. split.
    + intros Hall l1 [id d] l2 Hl Hc. by eapply Hall.
    + intros Hall l1 id d l2 Hl Hc. by eapply Hall.
Qed.
End types.

(** ** Theory: attributes *)

Lemma types_out_linked db s e : linked (types_out db s e).
Proof. done. Qed.
Lemma linked_same st : linked (es_out st) → st = with_out st (set_types (es_out st) (out_types st)).
Proof.
  intros Hl. destruct st as [? ? ? ? db]. unfold with_out. cbn in *. f_equal. transitivity (with_symbols db (symbols_of db)); [done|].
  by destruct db as [[] ].
Qed.
Lemma update_holds `{Target} {D} sz (s : symtab D) m id f : holds sz (table s) m → holds sz (table (update_symbol s id f)) (alter f id m).
Proof.
  intros (t&E&Hwf&Hs&<-). cbn. rewrite E. destruct (store_datum_map t id f Hwf) as (t'&->&Hwf'&Hm&Hs'). exists t'. by rewrite Hs'.
Qed.

(** the types that the attributes of a table give to [id], in the new values *)
Definition gives_types (base : database) (id : string) (kd : string * type_datum) : bool :=
  bool_decide (kd.1 = id) && (type_flavor kd.2 =? TYPE_ATTRIB) && enabled_symbol base SYM_TYPES kd.1.
Definition given_types (base : database) (map : list Z) (l : list (string * type_datum)) (id : string) : gset Z :=
  ⋃ ((λ kd, if gives_types base id kd then members (image map) (ebitmap_set (type_types kd.2)) else ∅) <$> l).
(** a type with more types *)
Definition types_added (X : gset Z) (d d' : type_datum) : Prop :=
  ∃ e, ebitmap_wf e ∧ ebitmap_set e = ebitmap_set (type_types d) ∪ X ∧ d' = type_with_types d e.
Record attrs_converted `{Target} (sz : Z) (base : database) (st : expand_state) (m : gmap string type_datum) (l : list (string * type_datum))
    (st' : expand_state) : Prop := {
  ac_state : st' = with_out st (set_types (es_out st) (out_types st'));
  ac_nprim : nprim (out_types st') = nprim (out_types st);
  ac_table : ∃ m', holds sz (table (out_types st')) m' ∧
    ∀ id, option_Forall2 (types_added (given_types base (typemap st) l id)) (m !! id) (m' !! id)
}.

Section attributes.
Context `{Target} (sz : Z) (base : database) (st0 : expand_state) (m : gmap string type_datum) (t : table_of type_datum).
Context (Hlinked : linked (es_out st0)) (Hm : holds sz (table (out_types st0)) m) (Hscopes : scopes_wf base SYM_TYPES).
Context (Hwf : map_Forall (λ _ d, ebitmap_wf (type_types d)) m).
Context (Hmap : Forall (λ v, 0 ≤ v ≤ BITS) (typemap st0)).
Context (Hattrs : ∀ id d, (id, d) ∈ table_entries t → type_flavor d = TYPE_ATTRIB → ebitmap_wf (type_types d) ∧
  ∀ i, i ∈ ebitmap_set (type_types d) → is_Some (at_index (typemap st0) (i + 1))).

Lemma given_types_snoc map l kd id : given_types base map (l ++ [kd]) id =
  given_types base map l id ∪ (if gives_types base id kd then members (image map) (ebitmap_set (type_types kd.2)) else ∅).
Proof. unfold given_types. rewrite fmap_app, union_list_app_L. cbn. by rewrite union_empty_r_L. Qed.
Lemma attrs_skip l id d st : (type_flavor d =? TYPE_ATTRIB) && enabled_symbol base SYM_TYPES id = false →
  attrs_converted sz base st0 m l st → attrs_converted sz base st0 m (l ++ [(id, d)]) st.
Proof.
  intros Hno [Hst Hn (m'&Hm'&Hall)]. split; [done|done|]. exists m'. split; [done|]. intros id'. rewrite given_types_snoc.
  unfold gives_types. cbn [fst snd]. rewrite <- andb_assoc, Hno, andb_false_r, union_empty_r_L. apply Hall.
Qed.
Lemma attr_convert_step l1 id d l2 st :
  table_entries t = l1 ++ (id, d) :: l2 → attrs_converted sz base st0 m l1 st →
  yields (attr_convert_callback base id d st) (type_flavor d = TYPE_ATTRIB → enabled_symbol base SYM_TYPES id = true → is_Some (m !! id))
    (attrs_converted sz base st0 m (l1 ++ [(id, d)])).
Proof.
  intros Hl Hc. unfold attr_convert_callback. destruct (Z.eqb_spec (type_flavor d) TYPE_ATTRIB) as [Ef|Ef]; cbn [negb].
  2:{ eapply yields_mono; [by apply (yields_ret _ (λ s, s = st))|done|intros ? ->]. apply attrs_skip; [|done]. by rewrite (proj2 (Z.eqb_neq _ _) Ef). }
  apply yields_if_enabled; [done| |].
  2:{ intros E. eapply yields_mono; [by apply (yields_ret _ (λ s, s = st))|by rewrite E|intros ? ->]. apply attrs_skip; [|done]. by rewrite E, andb_false_r. }
  intros Een. pose proof Hc as [Hst Hn (m'&Hm'&Hall)]. eapply yields_search; [exact Hm'|].
  assert (Hin : (id, d) ∈ table_entries t) by (rewrite Hl; set_solver). destruct (Hattrs id d Hin Ef) as [Hw Hbits].
  assert (Htm : typemap st = typemap st0) by (by rewrite Hst).
  pose proof (Hall id) as Hid. destruct (m !! id) as [d0|] eqn:Ed0; inversion Hid as [? d1 Hadd E1 E2|]; subst; cycle 1.
  { apply yields_no; [done|]. intros Hok. by destruct (Hok Ef Een). }
  destruct Hadd as (e0&We0&Se0&->).
  eapply (yields_mono _ True); [|by split; [eauto|]|intros st' Hst'; exact Hst'].
  eapply yields_makes; [intros h; apply map_ebitmap_wp; rewrite ?Htm; done|]. intros e1 We1 Se1.
  eapply yields_makes; [intros h; by apply union_makes|]. intros e2 We2 Se2. apply yields_ret. split.
  - rewrite Hst. done.
  - cbn. by rewrite Hn.
  - eexists. split; [by apply update_holds|]. intros id'. rewrite given_types_snoc. unfold gives_types. cbn [fst snd].
    rewrite (proj2 (Z.eqb_eq _ _) Ef), Een, !andb_true_r. case_bool_decide as Eid.
    + subst id'. rewrite lookup_alter_eq, Ed0, <- E2. cbn. constructor. exists e2. split_and!; [done| |done].
      rewrite Se2, Se1, Htm. cbn. rewrite Se0. set_solver.
    + rewrite lookup_alter_ne, union_empty_r_L by done. apply Hall.
Qed.
Lemma attrs_convert_yields :
  yields (each_symbol t (attr_convert_callback base) st0)
    (∀ id d, (id, d) ∈ table_entries t → type_flavor d = TYPE_ATTRIB → enabled_symbol base SYM_TYPES id = true → is_Some (m !! id))
    (attrs_converted sz base st0 m (table_entries t)).
Proof.
  eapply yields_mono; [apply (each_symbol_yields _ _ (attrs_converted sz base st0 m)
    (λ _ id d, type_flavor d = TYPE_ATTRIB → enabled_symbol base SYM_TYPES id = true → is_Some (m !! id)))| |done].
  - split; [|done|].
    + by apply linked_same.
    + exists m. split; [done|]. intros id. destruct (m !! id) as [d|] eqn:E; constructor. exists (type_types d).
      split_and!; [by eapply Hwf|symmetry; apply union_empty_r_L|by destruct d].
  - intros l1 k d l2 st. apply attr_convert_step.
  - split.
    + intros Hall id d (l1&l2&Hl)%list_elem_of_split. by eapply Hall.
    + intros Hall l1 id d l2 Hl. apply (Hall id d). rewrite Hl. apply elem_of_app. right. by left.
Qed.
End attributes.

(** ** Theory: types and attributes *)

Section types_attrs.
Context `{Target} (sz : Z) (base : database) (st0 : expand_state) (Hfresh : types_fresh sz base st0).
Context (Hzero : Forall (λ v, v = 0) (typemap st0)).
Context (Hattrs : ∀ id d, (id, d) ∈ base_types base → type_flavor d = TYPE_ATTRIB → ebitmap_wf (type_types d) ∧
  ∀ i, i ∈ ebitmap_set (type_types d) → 0 ≤ i < length (typemap st0)).

(** what becomes of the [i]th type *)
Definition type_expanded (i : nat) (d d' : type_datum) : Prop :=
  ∃ e, d' = TypeDatum (Z.of_nat i + 1) 1 (type_flavor d) e (type_flags d) 0 ∧ ebitmap_wf e ∧
    ∀ v : Z, v ∈ ebitmap_set e ↔ type_flavor d = TYPE_ATTRIB ∧
      ∃ (j : nat) kd, copied_types base !! j = Some kd ∧ v = Z.of_nat j ∧ type_value kd.2 - 1 ∈ ebitmap_set (type_types d).
Record types_expanded (st : expand_state) : Prop := {
  (** only the types, their map and the permissive types are written *)
  te_state : st = ExpandState (typemap st) (boolmap st0) (rolemap st0) (usermap st0)
    (types_out (es_out st0) (out_types st) (permissive_map (out_policy st)));
  te_table : ∃ m, holds sz (table (out_types st)) m ∧
    (∀ (i : nat) id d, copied_types base !! i = Some (id, d) → ∃ d', m !! id = Some d' ∧ type_expanded i d d') ∧
    (∀ id, is_Some (m !! id) → ∃ d, (id, d) ∈ copied_types base);
  te_nprim : nprim (out_types st) = length (copied_types base);
  te_map : renumbered 0 type_value (copied_types base) (typemap st0) (typemap st);
  te_permissive v : v ∈ ebitmap_set (permissive_map (out_policy st)) ↔
    ∃ (i : nat) kd, copied_types base !! i = Some kd ∧ permissive kd.2 = true ∧ v = Z.of_nat i + 1
}.

Lemma at_index_Forall (P : Z → Prop) (map : list Z) v x : Forall P map → at_index map v = Some x → P x.
Proof. rewrite Forall_lookup. unfold at_index. intros Hall. destruct (v <? 1); [done|]. apply Hall. Qed.
Lemma at_index_range (map : list Z) v : 1 ≤ v ≤ length map ↔ is_Some (at_index map v).
Proof.
  unfold at_index. destruct (Z.ltb_spec v 1); [split; [lia|by intros []]|]. rewrite lookup_lt_is_Some. lia.
Qed.
Lemma at_index_nth (map : list Z) (i : nat) x : map !! i = Some x → at_index map (i + 1) = Some x.
Proof. unfold at_index. rewrite (proj2 (Z.ltb_ge _ _)) by lia. by replace (Z.to_nat (i + 1 - 1)) with i by lia. Qed.
(** the map of the types: a value it has stands for one that is copied *)
Lemma typemap_value map v w : renumbered 0 type_value (copied_types base) (typemap st0) map →
  at_index map v = Some w → w = 0 ∧ (∀ kd, kd ∈ copied_types base → type_value kd.2 ≠ v) ∨
    ∃ (j : nat) kd, copied_types base !! j = Some kd ∧ type_value kd.2 = v ∧ w = j + 1.
Proof.
  intros [Hl Hnew Hold] Hv. destruct (decide (Exists (λ kd, type_value kd.2 = v) (copied_types base))) as [Hex|Hno].
  - right. apply Exists_exists in Hex as (kd&Hin&Ev). apply list_elem_of_lookup in Hin as [j Hj]. exists j, kd. split_and!; [done|done|].
    specialize (Hnew j kd Hj). rewrite Ev, Hv in Hnew. injection Hnew as ->. lia.
  - left. assert (Hn : ∀ kd, kd ∈ copied_types base → type_value kd.2 ≠ v) by (intros kd Hin Ev; apply Hno, Exists_exists; by exists kd).
    split; [|done]. rewrite Hold in Hv by done. by apply (at_index_Forall (λ v, v = 0)) in Hv.
Qed.
Lemma typemap_bounded map : renumbered 0 type_value (copied_types base) (typemap st0) map → length (copied_types base) ≤ UINT16_MAX →
  Forall (λ v, 0 ≤ v ≤ BITS) map.
Proof.
  intros Hm Hlen. apply Forall_lookup. intros i x Hx. apply at_index_nth in Hx.
  destruct (typemap_value map _ _ Hm Hx) as [[-> _]|(j&kd&Hj&_&->)]; [unfold BITS; lia|]. apply lookup_lt_Some in Hj.
  unfold BITS, UINT16_MAX in *. lia.
Qed.
Lemma image_value map (X : gset Z) v : renumbered 0 type_value (copied_types base) (typemap st0) map →
  v ∈ members (image map) X ↔ ∃ (j : nat) kd, copied_types base !! j = Some kd ∧ v = Z.of_nat j ∧ type_value kd.2 - 1 ∈ X.
Proof.
  intros Hm. rewrite elem_of_members. split.
  - intros (i&Hi&Hv). unfold image in Hv. destruct (at_index map (i + 1)) as [w|] eqn:Ew; [|by apply elem_of_empty in Hv].
    destruct (truth w) eqn:Et; [|by apply elem_of_empty in Hv]. apply elem_of_singleton in Hv as ->.
    destruct (typemap_value map _ _ Hm Ew) as [[-> _]|(j&kd&Hj&Ev&->)]; [done|]. exists j, kd. split_and!; [done|lia|].
    by replace (type_value kd.2 - 1) with i by lia.
  - intros (j&kd&Hj&->&HX). exists (type_value kd.2 - 1). split; [done|]. unfold image.
    replace (type_value kd.2 - 1 + 1) with (type_value kd.2) by lia. rewrite (rn_new _ _ _ _ _ Hm j kd Hj).
    rewrite (proj2 (truth_true _)) by lia. apply elem_of_singleton. lia.
Qed.

Lemma copied_base kd : kd ∈ copied_types base → kd ∈ base_types base ∧ copies_type base kd = true.
Proof. intros [Hc Hin]%list_elem_of_filter. done. Qed.
Lemma copied_NoDup : NoDup (copied_types base).*1.
Proof. apply NoDup_filter_keys, Hfresh. Qed.
Lemma base_unique id d d' : (id, d) ∈ base_types base → (id, d') ∈ base_types base → d = d'.
Proof.
  intros Hd Hd'. pose proof (proj1 (tf_base _ _ _ Hfresh)) as Hnd. apply elem_of_list_to_map in Hd; [|done]. apply elem_of_list_to_map in Hd'; [|done].
  congruence.
Qed.
(** what an attribute is given *)
Lemma given_types_copied map id d : (id, d) ∈ copied_types base →
  given_types base map (base_types base) id = if type_flavor d =? TYPE_ATTRIB then members (image map) (ebitmap_set (type_types d)) else ∅.
Proof.
  intros Hd. apply set_eq. intros v. unfold given_types. rewrite elem_of_union_list. destruct (copied_base _ Hd) as [Hin Hc].
  assert (He : enabled_symbol base SYM_TYPES id = true) by (apply andb_true_iff in Hc; apply Hc). split.
  - intros (Y&HY&Hv). apply list_elem_of_fmap in HY as ([k dk]&->&Hk). destruct (gives_types base id (k, dk)) eqn:Eg; [|by apply elem_of_empty in Hv].
    unfold gives_types in Eg. rewrite !andb_true_iff, bool_decide_eq_true in Eg. cbn [fst snd] in *. destruct Eg as [[-> Ef] _].
    rewrite (base_unique id d dk Hin Hk). by rewrite Ef.
  - destruct (type_flavor d =? TYPE_ATTRIB) eqn:Ef; [|by intros ?%elem_of_empty]. intros Hv. eexists. split; [by apply (list_elem_of_fmap_2 _ _ (id, d))|].
    unfold gives_types. cbn [fst snd]. by rewrite bool_decide_true, Ef, He by done.
Qed.

Lemma expand_types_yields : yields (expand_types base st0) (length (copied_types base) ≤ UINT16_MAX) types_expanded.
Proof.
  unfold expand_types. eapply (yields_mono _ (_ ∧ True)); [eapply yields_bind; [by apply types_copy_yields|]|tauto|intros st Hst; exact Hst].
  intros st1 [Hst Ht [Hn Hb] Hm Hp]. eapply yields_mono; [eapply (attrs_convert_yields sz base st1 _ (table (p_types (db_policy base)))); [|exact Ht|..]| |].
  - rewrite Hst. apply types_out_linked.
  - apply Hfresh.
  - intros id d Hd. apply numbered_lookup in Hd as (i&d0&_&->); [|apply copied_NoDup]. apply ebitmap_init_wf.
  - by apply typemap_bounded.
  - intros id d Hin Ef. destruct (Hattrs id d Hin Ef) as [Hw Hbits]. split; [done|]. intros i Hi. apply at_index_range.
    rewrite (rn_length _ _ _ _ _ Hm). specialize (Hbits i Hi). lia.
  - split; [done|]. intros _ id d Hin Ef Een. assert (Hc : (id, d) ∈ copied_types base).
    { apply list_elem_of_filter. split; [|done]. unfold copies_type. cbn [fst snd]. by rewrite Ef, Een. }
    apply list_elem_of_lookup in Hc as [i Hi]. eexists. apply numbered_lookup; [apply copied_NoDup|]. by exists i, d.
  - intros st2 [Hst2 Hn2 (m'&Hm'&Hall)]. split.
    + rewrite Hst2, Hst. reflexivity.
    + exists m'. split; [done|]. split.
      * intros i id d Hi. specialize (Hall id). rewrite (proj2 (numbered_lookup 0 new_type (copied_types base) id _ copied_NoDup)) in Hall by (by exists i, d).
        inversion Hall as [? d' (e&We&Se&->) E1 E2|]. eexists. split; [done|]. exists e. split_and!; [done|done|].
        intros v. rewrite Se. fold (base_types base). rewrite (given_types_copied _ id d) by (by eapply list_elem_of_lookup_2).
        cbn [new_type type_types]. rewrite ebitmap_init_set, union_empty_l_L. destruct (Z.eqb_spec (type_flavor d) TYPE_ATTRIB) as [Ef|Ef].
        -- rewrite image_value by done. naive_solver.
        -- rewrite elem_of_empty. naive_solver.
      * intros id [d' Hd']. specialize (Hall id). rewrite Hd' in Hall. inversion Hall as [d0 ? _ E1 E2|]; subst.
        symmetry in E1. apply numbered_lookup in E1 as (i&d&Hi&_); [|apply copied_NoDup]. exists d. by eapply list_elem_of_lookup_2.
    + by rewrite Hn2, Hn.
    + by rewrite Hst2.
    + rewrite Hst2. apply Hp.
Qed.
End types_attrs.

(** ** Properties *)

(** C40: with memory, the first stage of [expand_module] succeeds exactly when at
    most 65535 types and attributes of the base are enabled.  Then the policy has
    those and no others, numbered from 1 in the order of the table; an attribute
    has the copied types that were its types, under their new values; the map
    translates the old values to the new ones and is 0 elsewhere; the permissive
    types are those that were permissive; nothing else is changed. *)
Theorem expand_types_correct `{Target} sz base st0 :
  types_fresh sz base st0 → Forall (λ v, v = 0) (typemap st0) →
  (∀ id d, (id, d) ∈ base_types base → type_flavor d = TYPE_ATTRIB → ebitmap_wf (type_types d) ∧
    ∀ i, i ∈ ebitmap_set (type_types d) → 0 ≤ i < length (typemap st0)) →
  yields (expand_types base st0) (length (copied_types base) ≤ UINT16_MAX) (types_expanded sz base st0).
Proof. apply expand_types_yields. Qed.

(** ** Example *)

Module ExampleStage.
#[local] Existing Instance target_arm.
Definition bits (m : Z) : ebitmap := Ebitmap [Node 0 m] 64.
(** an attribute with two types, of which the second is not enabled *)
Definition types : hashtab string type_datum := Hashtab
  [[("a"%string, TypeDatum 2 1 TYPE_ATTRIB (bits 5) 0 0); ("t"%string, TypeDatum 1 1 TYPE_TYPE ebitmap_init TYPE_FLAGS_PERMISSIVE 0);
    ("v"%string, TypeDatum 3 1 TYPE_TYPE ebitmap_init 0 0)]] 1 3.
Definition scopes : hashtab string scope_datum := Hashtab
  [[("a"%string, ScopeDatum SCOPE_DECL [2] 1); ("t"%string, ScopeDatum SCOPE_DECL [2] 1); ("v"%string, ScopeDatum SCOPE_DECL [1] 1)]] 1 3.
Definition tables (s : symtab type_datum) : symtabs :=
  Symtabs (fresh_symtab 2) (fresh_symtab 32) (fresh_symtab 16) s (fresh_symtab 128) (fresh_symtab 16) (fresh_symtab 16) (fresh_symtab 16).
Definition database_of (s : symtab type_datum) (decls : list (option avrule_decl)) : database :=
  Database (cleared_policy (tables s) empty_avtab empty_avtab) (fresh_symtab 2)
    [fresh_symtab 2; fresh_symtab 32; fresh_symtab 16; Symtab (Some scopes) 0; fresh_symtab 128; fresh_symtab 16; fresh_symtab 16; fresh_symtab 16]
    [] decls [] [] ebitmap_init 0 0 None None 0.
Definition base : database := database_of (Symtab (Some types) 3) (ExampleScopes.decls 1).
Definition start : expand_state := ExpandState [0; 0; 0] [] [] [] (database_of (fresh_symtab 512) []).

Lemma stage_bits_wf m : 0 < m < 2 ^ 64 → ebitmap_wf (bits m).
Proof. intros Hm. split; [cbn; split_and!; try lia; exists 0; lia|done]. Qed.
Lemma stage_scopes : scopes_wf base SYM_TYPES.
Proof.
  exists (Symtab (Some scopes) 0), scopes. split_and!; [done|done| |].
  - apply one_slot_ok. by repeat constructor.
  - intros id d Hd. unfold hashtab_map_of in Hd. apply elem_of_list_to_map_2 in Hd. cbn in Hd.
    repeat (apply elem_of_cons in Hd as [[= _ ->]|Hd]; [split; [by split|by repeat constructor]|]). by apply elem_of_nil in Hd.
Qed.
Lemma stage_copied : copied_types base = [("a"%string, TypeDatum 2 1 TYPE_ATTRIB (bits 5) 0 0); ("t"%string, TypeDatum 1 1 TYPE_TYPE ebitmap_init TYPE_FLAGS_PERMISSIVE 0)].
Proof. by vm_compute. Qed.
Lemma stage_fresh : types_fresh 512 base start.
Proof.
  split.
  - done.
  - split; [|done]. eexists. split; [done|]. split; [|split; [done|by apply hashtab_empty_map]].
    exact (hashtab_empty_wf 512 ltac:(done)).
  - done.
  - split; [by apply (bool_decide_unpack _); vm_compute|apply stage_scopes].
  - intros kd Hkd. cbn in Hkd. repeat (apply elem_of_cons in Hkd as [->|Hkd]; [done|]). by apply elem_of_nil in Hkd.
  - intros kd1 kd2. rewrite stage_copied. intros [->|[->|[]%elem_of_nil]%elem_of_cons]%elem_of_cons [->|[->|[]%elem_of_nil]%elem_of_cons]%elem_of_cons; done.
Qed.
End ExampleStage.

#[local] Existing Instance target_arm.

(** witness of C40: the attribute, whose second type is not enabled *)
Lemma expand_types_correct_witness :
  yields (expand_types ExampleStage.base ExampleStage.start) (length (copied_types ExampleStage.base) ≤ UINT16_MAX)
    (types_expanded 512 ExampleStage.base ExampleStage.start).
Proof.
  apply (expand_types_correct 512 ExampleStage.base ExampleStage.start).
  - apply ExampleStage.stage_fresh.
  - by repeat constructor.
  - intros id d Hin Hf. cbn in Hin. repeat (apply elem_of_cons in Hin as [[= -> ->]|Hin]; [|]); try done; [|by apply elem_of_nil in Hin].
    split; [by apply (ExampleStage.stage_bits_wf 5)|]. intros i Hi%elem_of_ebitmap_set; [|by apply (ExampleStage.stage_bits_wf 5)].
    cbn [ExampleStage.start typemap length type_types] in *.
    pose proof (nodes_bit_range _ _ (ExampleStage.stage_bits_wf 5 ltac:(done)) Hi) as Hr. cbn [highbit ExampleStage.bits] in Hr.
    cbn [node ExampleStage.bits] in Hi. rewrite nodes_bit_cons_in in Hi by (cbn; lia). cbn [startbit map] in Hi.
    split; [lia|]. destruct (Z.lt_ge_cases i 3); [lia|]. by rewrite (testbit_high 3) in Hi by lia.
Defined.
